(* ===== verification/_CoqProject ===== *)
-Q . S2P
Prelude.v
Words.v
ListHead.v
Buddy.v
BuddyProofs.v
BuddySpec.v
BuddyTheorems.v
Bitmap.v
SlotTable.v
Capability.v
CapProofs.v
CapSpec.v
CapTheorems.v
RingBuffer.v
Locks.v
Radix.v
Sched.v
SchedProofs.v
SchedTheorems.v
Pbrr.v
ThreadDq.v
RemoteFree.v
RemoteFreeProofs.v
RemoteFreeTheorems.v
PageTable.v
PageTableProofs.v
PageTableCopy.v
PageTableRoots.v
PageLayer.v
DramPages.v
Slab.v
SlabProofs.v
KmallocProofs.v
KmallocTheorems.v
KmallocPages.v
PageTableTheorems.v
RbTree.v
RbSpec.v
RbLogic.v
RbProofs.v
RbInsert.v
RbErase.v
RbSearch.v
RbAdequate.v
RbRuns.v
RbTheorems.v
VmSpace.v
VmSpaceProofs.v
KmallocObjects.v
VmSpaceTables.v
VmSpaceOps.v
VmSpaceUnmap.v
VmSpaceHeap.v
VmSpaceProtect.v
VmSpaceTheorems.v
Notific.v
Waiters.v
SchedBlock.v
NotificProofs.v
NotificOps.v
NotificTimer.v
NotificMove.v
Futex.v
FutexProofs.v
FutexOps.v
NotificTheorems.v
FutexTheorems.v
