(* ===== verification/Prelude.v ===== *)
(** * StarfishOS kernel: a verification development

    StarfishOS is a capability-based microkernel for a cluster of machines that
    share CXL memory.  This library models parts of the kernel (sources under
    [src/kernel]) as executable functions and proves what they guarantee.

    ** How code is modelled

    A stateful C function is a function in the monad [M S A := S -> outcome (A * S)]
    of this file: [S] is the state the component works on, as a record, and
    [outcome] is [Ret] or [Halt] with a reason ([BugHit] for a failed [BUG_ON],
    [BadAccess] for a bad pointer or index, [Spins] for a busy wait that nobody ends,
    [OutOfFuel] for a bounded loop).  [wp m Q s] says that [m], run from [s], returns
    and satisfies [Q]: a theorem about [wp] excludes BUGs, faults and endless
    loops.  Machine integers are [Z] with the wrap-around written out
    where it can happen ([Words]).  Loops whose bound is not structural take fuel; the
    [wp] theorems show that the fuel chosen by the caller is enough.  Code that CPUs run
    concurrently is a transition system at the granularity of shared accesses
    ([Locks], [RingBuffer], [ThreadDq.Treiber]); code that runs under a lock is one
    transition.

    ** Components

    - [Prelude], [Words]: monad, weakest preconditions, tactics; rounding and size
      macros ([common/macro.h], [mm/slab.h], [mm/kmalloc.c]).
    - [ListHead]: the circular lists of [common/list.h] on a heap of nodes.
    - [Buddy] (code), [BuddyProofs], [BuddySpec], [BuddyTheorems]: the page allocator
      [mm/buddy.c] with its write-ahead log entries.  [BuddySpec] is the abstract
      allocator, a tiling of the pool by chunks; the theorems show that allocation,
      release and initialisation refine it, and that a double free is caught.
    - [Bitmap], [SlotTable], [Capability] (code), [CapProofs], [CapSpec],
      [CapTheorems]: [common/bitops.h], the slot tables and capabilities of
      [object/cap_group.c] and [object/capability.c]: reference counts agree with the slots,
      each operation changes exactly the capabilities it names, and with the last reference the
      object is released by the routine of its type (threads with [object/thread.c] and
      [sched/context.c], address spaces with the memory objects they had put off);
      failures for lack of memory, with two bugs.
    - [RingBuffer]: [lib/ring_buffer.c] and its user-level twin in musl, as a FIFO queue and
      with a producer and a consumer interleaved; checkpoint and restore.
    - [Locks]: ticket lock ([Ticket]) and reader-writer lock ([RwLock]) of
      [arch/x86_64/sync]: exclusion, order and progress across counter wrap-around.
    - [Radix]: [lib/radix.c], 16 levels of 4 bits, as a map on 64-bit keys, with its
      traversals, checksum, copy and release.
    - [Sched] (code), [SchedProofs], [SchedTheorems], [Pbrr]: [sched/sched.c] with the
      round-robin policy ([policy_rr.c]) and the priority policy ([policy_pbrr.c]):
      invariant of the ready queues, placement of a thread on a CPU of this or of another machine,
      preemption, choice of the highest priority.
    - [ThreadDq]: the queues of threads shared by the machines ([mm/shm.c]), as FIFO
      queues over one stock of nodes for operations that do not overlap; the lock-free free list,
      access by access, and its ABA problem.
    - [RemoteFree] (code), [RemoteFreeProofs], [RemoteFreeTheorems]: [mm/remote_free.c],
      pages freed by a machine that does not own them, for the whole cluster.
    - [PageLayer], [DramPages], [Slab] (code), [SlabProofs], [KmallocProofs],
      [KmallocTheorems]: [mm/dram_slab.c], [mm/dram_alloc.c] and [kfree] of [mm/kmalloc.c].
      [PageLayer] is the interface between object and page allocation, a class of operations
      with a class of laws; [DramPages] shows that the buddy pools of a machine implement it.
      The theorems are about the whole stack: objects, slabs, pools and the pages that
      come back from other machines.
    - [PageTable] (code), [PageTableProofs], [PageTableCopy], [PageTableRoots],
      [PageTableTheorems]: [arch/x86_64/mm/page_table.c], four levels of 512 entries in a
      memory of pages.  The invariant [pt_ok] is a tree of tables, indexed by level and prefix;
      the theorems give the entry of each page after mapping, unmapping, changes of
      permission and release.  [PageTableCopy] has the copy, for tables with huge pages and with those of
      the boot code.  The class [PageSource] is what the code asks of the page
      allocator; [KmallocPages] shows that the DRAM allocator keeps its laws.
    - [RbTree] (code), [RbSpec], [RbLogic], [RbProofs], [RbInsert], [RbErase], [RbSearch],
      [RbAdequate], [RbRuns], [RbTheorems]: the red-black trees of [lib/rbtree.c] with
      parent pointers and colour bits, in a memory of nodes.  The steps are proved in a separation
      logic over the ghost maps of Iris, and its adequacy theorem turns the proofs into
      statements about runs: insertion and removal keep order and balance and touch nothing
      else, search ends after at most 2 log2 (n + 1) nodes.
    - [VmSpace] (code), [VmSpaceProofs], [VmSpaceTables], [VmSpaceOps], [VmSpaceUnmap],
      [VmSpaceHeap], [VmSpaceProtect], [VmSpaceTheorems]: address spaces ([mm/vmregion.c], [brk]
      and [mprotect] of [object/memory.c]).  The regions are in a tree of [RbTree] and in a list, the
      mappings in the tables of [PageTable], one for each machine.  The invariant [as_ok]
      joins them; each operation keeps it, on error paths too.  The class [ObjSource] is what the
      code asks of [kmalloc]; [KmallocObjects] shows that the DRAM allocator keeps its laws.
      Some theorems show what goes wrong: a lock left taken, pages left mapped, permissions given
      without a test, a loop without progress.
    - [Notific] (code), [Waiters], [SchedBlock], [NotificProofs], [NotificOps], [NotificTimer],
      [NotificMove], [NotificTheorems]: notifications ([ipc/notification.c]) and sleeping threads
      ([irq/timer.c]), on the queues of [ThreadDq] and the scheduler of [Sched].  The abstract
      notification is a counting semaphore [sem], pending signals and waiting threads in order;
      the invariant [ninv_at] joins semaphores, queues, sleep lists and the states of the threads.  Signal,
      wait, requeue and the timer interrupt keep it and do what they say; a signal that meets
      the timeout of the only waiter ends in a BUG.
    - [Futex] (code), [FutexProofs], [FutexOps], [FutexTheorems]: futexes ([ipc/futex.c]), a hash
      table of notifications in memory from an [ObjSource].  The abstract table [futex_table] maps
      addresses to queues of threads; wait, wake and requeue are the operations on it that their
      names say, and a thread that waits is found by the next wake-up.

    The theorems on notifications, sleeping threads and futexes are about threads of one machine: a thread that
    waits or sleeps, and the one that calls, owns no FPU, is bound to no other machine, is no bridge to another machine and has not been
    migrated ([SchedBlock.wakeable] and the invariant ask for this).  The other cases of placement are in the
    theorem on [rr_sched_enqueue].

    The components meet where the code calls across them: capabilities use slot
    tables and bitmaps, both schedulers use the queues that [ThreadDq] verifies as FIFO
    ([shared_append] and [shared_pop] in [Sched] are its enqueue and dequeue), the
    remote release hands pages to the allocator of their owner ([Slab.with_kfree]),
    address spaces use red-black trees, page tables and allocator through the theorems
    or classes of these, notifications block and wake threads of the scheduler and keep them in
    the queues of [ThreadDq], and futexes use notifications and the allocator.

    ** Configuration

    Numeric constants have the names and the values of the headers.  The default build: [DSM_ENABLED], [MULTI_PAGETABLE_ENABLED], [CHCORE_SSI_SLS], lazy FPU switching, 12 CPUs per
    machine, 255 priorities; the priority scheduler belongs to the real-time
    configuration, and notifications wake threads through the round-robin one.  The pool of queue
    nodes has 4095 usable nodes, a futex table 64 buckets; the theorems ask for the free nodes
    that an operation may take.

    ** What is not modelled

    Hardware (TLB, interrupt delivery, FPU and register contents), printing and
    device I/O; page faults, migration between DRAM and CXL memory and checkpointing of whole
    processes; the creation and contents of memory objects; the slabs of CXL and temporary memory, whose code
    is a parameter of [kfree]; the dispatch of [kmalloc] on the kind of memory, whose results
    are oracles of the operations that call it; IPC connections; the system calls that create
    notifications and register interrupts, and the copies between user and kernel memory; user-level servers
    and ported third-party code.  Tear-down and copy of a futex table and the notifications of
    interrupts are modelled and have no theorem.  The routines that release connections, notifications and interrupts are
    only recorded in [Capability].
    Memory ordering is sequentially consistent throughout. *)
From Stdlib Require Export ZArith Lia.
From stdpp Require Export base tactics numbers sets gmap fin_maps list.

#[global] Open Scope Z_scope.

(** * Outcomes

    Kernel code either returns, or stops: a failed [BUG_ON] prints and spins
    for ever, and an access through a bad pointer faults.  Both are values
    here, so that "the operation never reaches a BUG" is part of what the
    theorems state. *)

Inductive stop : Set :=
  | BugHit      (* BUG / BUG_ON fired *)
  | BadAccess   (* dereference of a pointer that is not mapped *)
  | Spins       (* busy-waits for a step of another CPU *)
  | OutOfFuel.  (* a bounded model of a loop or recursion was exhausted *)

Inductive outcome (A : Type) : Type :=
  | Ret (a : A)
  | Halt (why : stop).
Arguments Ret {A} a.
Arguments Halt {A} why.

#[export] Instance outcome_ret : MRet outcome := @Ret.
#[export] Instance outcome_bind : MBind outcome := λ A B f m,
  match m with Ret a => f a | Halt w => Halt w end.

(** * The state monad of the kernel code *)

Definition M (S A : Type) : Type := S → outcome (A * S).

#[export] Instance M_ret S : MRet (M S) := λ A a s, Ret (a, s).
#[export] Instance M_bind S : MBind (M S) := λ A B f m s,
  match m s with Ret (a, s') => f a s' | Halt w => Halt w end.

Definition get_state {S} : M S S := λ s, Ret (s, s).
Definition gets {S A} (f : S → A) : M S A := λ s, Ret (f s, s).
Definition modify {S} (f : S → S) : M S unit := λ s, Ret (tt, f s).
Definition halt {S A} (w : stop) : M S A := λ _, Halt w.
Definition bug_on {S} (b : bool) : M S unit := λ s,
  if b then Halt BugHit else Ret (tt, s).
Definition from_opt {S A} (o : option A) : M S A := λ s,
  match o with Some a => Ret (a, s) | None => Halt BadAccess end.
Definition when {S} (b : bool) (m : M S unit) : M S unit :=
  if b then m else mret tt.

(** [for (i = lo; i < lo + n; i++) body(i)] *)
Fixpoint for_up {S} (n : nat) (lo : Z) (body : Z → M S unit) : M S unit :=
  match n with
  | O => mret tt
  | Datatypes.S n' => body lo;; for_up n' (lo + 1) body
  end.

(** Weakest precondition: [m] run from [s] returns (no BUG, no fault) and its
    result and final state satisfy [Q]. *)
Definition wp {S A} (m : M S A) (Q : A → S → Prop) (s : S) : Prop :=
  match m s with Ret (a, s') => Q a s' | Halt _ => False end.

Section wp_rules.
Context {S : Type}.
Implicit Types (s : S).

Lemma wp_ret {A} (a : A) (Q : A → S → Prop) s : wp (mret a) Q s = Q a s.
Proof. reflexivity. Qed.

Lemma wp_bind {A B} (m : M S A) (f : A → M S B) Q s :
  wp (m ≫= f) Q s = wp m (λ a s', wp (f a) Q s') s.
Proof. unfold wp, mbind, M_bind. by destruct (m s) as [[??]|]. Qed.

Lemma wp_gets {A} (f : S → A) Q s : wp (gets f) Q s = Q (f s) s.
Proof. reflexivity. Qed.

Lemma wp_get Q s : wp (@get_state S) Q s = Q s s.
Proof. reflexivity. Qed.

Lemma wp_modify f (Q : unit → S → Prop) s : wp (modify f) Q s = Q tt (f s).
Proof. reflexivity. Qed.

Lemma wp_bug_on b (Q : unit → S → Prop) s :
  b = false → Q tt s → wp (bug_on b) Q s.
Proof. by intros ->. Qed.

Lemma wp_from_opt {A} (o : option A) (a : A) Q s :
  o = Some a → Q a s → wp (from_opt o) Q s.
Proof. by intros ->. Qed.

Lemma wp_mono {A} (m : M S A) (P Q : A → S → Prop) s :
  wp m P s → (∀ a s', P a s' → Q a s') → wp m Q s.
Proof. unfold wp. destruct (m s) as [[??]|]; naive_solver. Qed.

(** The value a run returns, from its specification. *)
Lemma wp_inv {A} (m : M S A) Q s :
  wp m Q s → ∃ a s', m s = Ret (a, s') ∧ Q a s'.
Proof. unfold wp. destruct (m s) as [[a s']|]; naive_solver. Qed.

Lemma wp_intro {A} (m : M S A) (Q : A → S → Prop) s a s' :
  m s = Ret (a, s') → Q a s' → wp m Q s.
Proof. unfold wp. by intros ->. Qed.

(** A run that returns, followed by one that stops. *)
Lemma halt_bind {A B} (m : M S A) (f : A → M S B) w s :
  wp m (λ a s', f a s' = Halt w) s → (m ≫= f) s = Halt w.
Proof. unfold wp, mbind, M_bind. by destruct (m s) as [[??]|]. Qed.

Lemma halt_bind_l {A B} (m : M S A) (f : A → M S B) w s : m s = Halt w → (m ≫= f) s = Halt w.
Proof. unfold mbind, M_bind. by intros ->. Qed.

Lemma bind_ret {A B} (m : M S A) (f : A → M S B) b s s' :
  (m ≫= f) s = Ret (b, s') → ∃ a s1, m s = Ret (a, s1) ∧ f a s1 = Ret (b, s').
Proof. unfold mbind, M_bind. destruct (m s) as [[a s1]|]; [by exists a, s1|done]. Qed.

(** Loop rule: an invariant indexed by the loop variable. *)
Lemma wp_for_up (I : Z → S → Prop) n lo body s :
  I lo s →
  (∀ i s', lo ≤ i < lo + Z.of_nat n → I i s' →
     wp (body i) (λ _ s'', I (i + 1) s'') s') →
  wp (for_up n lo body) (λ _ s', I (lo + Z.of_nat n) s') s.
Proof.
  revert lo s. induction n as [|n IH]; intros lo s HI Hb; simpl.
  - rewrite wp_ret. by replace (lo + Z.of_nat 0) with lo by lia.
  - rewrite wp_bind. eapply wp_mono; [apply Hb; [lia|done]|].
    intros [] s1 HI1. simpl.
    replace (lo + Z.of_nat (Datatypes.S n)) with (lo + 1 + Z.of_nat n) by lia.
    apply IH; [done|]. intros i s'' Hi. apply Hb. lia.
Qed.
End wp_rules.

Create Rewrite HintDb wp.
#[export] Hint Rewrite @wp_ret @wp_bind @wp_gets @wp_get @wp_modify : wp.

(** Run the pure steps at the head of the goal. *)
Ltac wp_seq :=
  repeat (cbv beta; first [rewrite wp_bind | rewrite wp_ret | rewrite wp_gets
                          | rewrite wp_get | rewrite wp_modify]);
  cbv beta.

(** * Lists *)

Lemma elem_of_concat_fmap {A B} (f : A → list B) l x : x ∈ concat (f <$> l) ↔ ∃ a, a ∈ l ∧ x ∈ f a.
Proof.
  induction l as [|a l IH]; simpl.
  - split; [by intros ?%elem_of_nil|]. by intros (a&?%elem_of_nil&_).
  - rewrite elem_of_app, IH. setoid_rewrite elem_of_cons. naive_solver.
Qed.

Lemma NoDup_concat_fmap {A B} (f : A → list B) l :
  NoDup l → (∀ a, a ∈ l → NoDup (f a)) → (∀ a b x, a ∈ l → b ∈ l → x ∈ f a → x ∈ f b → a = b) →
  NoDup (concat (f <$> l)).
Proof.
  induction l as [|a l IH]; intros Hnd Hf Hd; [constructor|]. apply NoDup_cons in Hnd as [Ha Hnd]. simpl.
  apply NoDup_app. split_and!.
  - apply Hf. by left.
  - intros x Hx (b&Hb&Hxb)%elem_of_concat_fmap. apply Ha. assert (a = b) as ->; [|done].
    eapply Hd; [by left|by right|done|done].
  - apply IH; [done|intros; apply Hf; by right|]. intros b b' x ??. apply Hd; by right.
Qed.
