(* ===== verification/Words.v ===== *)
(** Machine integers and address arithmetic.

    Integers are [Z]; where the code relies on a width the wrap-around is
    written out.  The file holds the arithmetic macros of
    [kernel/include/common/macro.h], the direct map of [arch/mmu.h], the size/order conversions of
    [kernel/include/mm/slab.h] and [kernel/mm/kmalloc.c], and the lemmas about
    power-of-two aligned blocks that the page allocators share. *)
From S2P Require Import Prelude.

(** ** Widths *)

Definition wrap_u64 (x : Z) : Z := x mod 2 ^ 64.
Definition wrap_u32 (x : Z) : Z := x mod 2 ^ 32.
Definition wrap_u16 (x : Z) : Z := x mod 2 ^ 16.
Definition to_s32 (x : Z) : Z := (x + 2 ^ 31) mod 2 ^ 32 - 2 ^ 31.

(** ** macro.h *)

Definition ROUND_UP (x n : Z) : Z := Z.land (x + n - 1) (Z.lnot (n - 1)).
Definition ROUND_DOWN (x n : Z) : Z := Z.land x (Z.lnot (n - 1)).
Definition DIV_ROUND_UP (n d : Z) : Z := (n + d - 1) / d.
Definition IS_ALIGNED (x a : Z) : bool := bool_decide (Z.land x (a - 1) = 0).
Definition BIT (x : Z) : Z := Z.shiftl 1 x.

(** ** mmu.h: the direct map of physical memory *)

Definition KBASE : Z := 0xffffff0000000000.
Definition KCODE : Z := 0xffffffff80000000.

Definition phys_to_virt (pa : Z) : Z := wrap_u64 (pa + KBASE).
Definition virt_to_phys {S} (x : Z) : M S Z :=
  bug_on (bool_decide (x < KBASE) || bool_decide (x >= KCODE));;
  mret (x - KBASE).

(** ** Sizes and orders *)

(** [while (tmp > 1) { tmp >>= 1; order += 1; }]: a 64-bit value is at most 1
    after 64 halvings. *)
Fixpoint halve_loop (fuel : nat) (tmp order : Z) : Z :=
  match fuel with
  | O => order
  | S fuel' =>
      if bool_decide (tmp > 1) then halve_loop fuel' (Z.shiftr tmp 1) (order + 1)
      else order
  end.

(** The comparison with [1 << order] is done in [int], then widened. *)
Definition size_to_order (size : Z) : Z :=
  let order := halve_loop 64 size 0 in
  if bool_decide (size > wrap_u64 (to_s32 (Z.shiftl 1 order))) then order + 1 else order.

Definition order_to_size (order : Z) : Z := wrap_u64 (Z.shiftl 1 order).

Definition BUDDY_PAGE_SIZE : Z := 0x1000.

Definition size_to_page_order (size : Z) : Z :=
  let pg_num := ROUND_UP size BUDDY_PAGE_SIZE / BUDDY_PAGE_SIZE in
  let order := halve_loop 64 pg_num 0 in
  if bool_decide (pg_num > wrap_u64 (to_s32 (Z.shiftl 1 order))) then order + 1 else order.

Lemma wrap_u64_small x : 0 ≤ x < 2 ^ 64 → wrap_u64 x = x.
Proof. apply Z.mod_small. Qed.

Lemma wrap_u32_small x : 0 ≤ x < 2 ^ 32 → wrap_u32 x = x.
Proof. apply Z.mod_small. Qed.

Lemma wrap_u16_small x : 0 ≤ x < 2 ^ 16 → wrap_u16 x = x.
Proof. apply Z.mod_small. Qed.

Lemma to_s32_small x : - 2 ^ 31 ≤ x < 2 ^ 31 → to_s32 x = x.
Proof. intros ?. unfold to_s32. rewrite Z.mod_small; lia. Qed.

Lemma land_lnot_ones x k : 0 ≤ k → Z.land x (Z.lnot (2 ^ k - 1)) = x - x mod 2 ^ k.
Proof.
  intros Hk. replace (2 ^ k - 1) with (Z.ones k) by (rewrite Z.ones_equiv; lia).
  rewrite <-Z.ldiff_land, Z.ldiff_ones_r, Z.shiftr_div_pow2, Z.shiftl_mul_pow2 by done.
  pose proof (Z.div_mod x (2 ^ k)). lia.
Qed.

Lemma ROUND_DOWN_pow2 x k : 0 ≤ k → ROUND_DOWN x (2 ^ k) = x - x mod 2 ^ k.
Proof. apply land_lnot_ones. Qed.

Lemma ROUND_UP_pow2 x k :
  0 ≤ k → ROUND_UP x (2 ^ k) = (x + 2 ^ k - 1) / 2 ^ k * 2 ^ k.
Proof.
  intros Hk. unfold ROUND_UP. rewrite land_lnot_ones by done.
  pose proof (Z.div_mod (x + 2 ^ k - 1) (2 ^ k)). lia.
Qed.

Lemma halve_loop_log2 fuel tmp o :
  1 ≤ tmp < 2 ^ Z.of_nat fuel → halve_loop fuel tmp o = o + Z.log2 tmp.
Proof.
  revert tmp o. induction fuel as [|fuel IH]; intros tmp o Ht.
  - change (2 ^ Z.of_nat 0) with 1 in Ht. lia.
  - simpl. case_bool_decide as Hgt.
    + rewrite IH.
      * rewrite Z.log2_shiftr by lia.
        pose proof (Z.log2_le_mono 2 tmp ltac:(lia)) as Hl. change (Z.log2 2) with 1 in Hl. lia.
      * rewrite Z.shiftr_div_pow2 by lia. change (2 ^ 1) with 2.
        rewrite Nat2Z.inj_succ, Z.pow_succ_r in Ht by lia.
        split; [apply Z.div_le_lower_bound; lia|apply Z.div_lt_upper_bound; lia].
    + assert (tmp = 1) as -> by lia. change (Z.log2 1) with 0. lia.
Qed.

(** The rounding step shared by [size_to_order] and [size_to_page_order]. *)
Lemma log2_round_up n :
  1 ≤ n < 2 ^ 31 →
  (if bool_decide (n > wrap_u64 (to_s32 (Z.shiftl 1 (halve_loop 64 n 0))))
   then halve_loop 64 n 0 + 1 else halve_loop 64 n 0) = Z.log2_up n.
Proof.
  intros Hn. rewrite halve_loop_log2 by (change (Z.of_nat 64) with 64; lia).
  rewrite Z.add_0_l, Z.shiftl_1_l.
  assert (Z.log2 n < 31) by (apply Z.log2_lt_pow2; lia).
  pose proof (Z.log2_nonneg n). pose proof (Z.log2_spec n ltac:(lia)) as [Hlo Hhi].
  assert (2 ^ Z.log2 n < 2 ^ 31) by (apply Z.pow_lt_mono_r; lia).
  rewrite to_s32_small by lia. rewrite wrap_u64_small by lia.
  case_bool_decide as Hgt.
  - symmetry. rewrite <-Z.add_1_r in Hhi. apply Z.log2_up_unique; [lia|].
    replace (Z.pred (Z.log2 n + 1)) with (Z.log2 n) by lia. lia.
  - assert (n = 2 ^ Z.log2 n) as Heq by lia. rewrite Heq at 2.
    by rewrite Z.log2_up_pow2 by lia.
Qed.

Lemma size_to_order_log2_up n : 1 ≤ n < 2 ^ 31 → size_to_order n = Z.log2_up n.
Proof. apply log2_round_up. Qed.

(** ** Aligned blocks

    [blk x k] is a block of [2 ^ k] units that starts at a multiple of its
    size; blocks of that kind are nested or disjoint. *)
Definition aligned (x k : Z) : Prop := (2 ^ k | x).

Lemma pow2_pos k : 0 ≤ k → 1 ≤ 2 ^ k.
Proof. intros. pose proof (Z.pow_pos_nonneg 2 k). lia. Qed.

Lemma aligned_le x k k' : 0 ≤ k' ≤ k → aligned x k → aligned x k'.
Proof.
  intros Hk. apply Z.divide_trans. exists (2 ^ (k - k')).
  rewrite <-Z.pow_add_r by lia. f_equal. lia.
Qed.

Lemma aligned_nested x y k k' :
  0 ≤ k ≤ k' → aligned x k → aligned y k' →
  x < y + 2 ^ k' → y < x + 2 ^ k → y ≤ x ∧ x + 2 ^ k ≤ y + 2 ^ k'.
Proof.
  intros Hk [a ->] [b ->] H1 H2.
  pose proof (pow2_pos k ltac:(lia)). pose proof (pow2_pos (k' - k) ltac:(lia)).
  assert (2 ^ k' = 2 ^ (k' - k) * 2 ^ k) as Hp by (rewrite <-Z.pow_add_r by lia; f_equal; lia).
  rewrite Hp in *. clear Hp. set (c := 2 ^ (k' - k)) in *. set (d := 2 ^ k) in *.
  assert (a < b * c + c) by (apply (Z.mul_lt_mono_pos_r d); lia).
  assert (b * c < a + 1) by (apply (Z.mul_lt_mono_pos_r d); lia).
  assert (0 ≤ (a - b * c) * d) by (apply Z.mul_nonneg_nonneg; lia).
  assert (0 ≤ (b * c + c - (a + 1)) * d) by (apply Z.mul_nonneg_nonneg; lia). lia.
Qed.

Lemma aligned_eq x y k : 0 ≤ k → aligned x k → aligned y k →
  x < y + 2 ^ k → y < x + 2 ^ k → x = y.
Proof.
  intros ? Hx Hy ??. destruct (aligned_nested x y k k); [lia|done..|].
  destruct (aligned_nested y x k k); [lia|done..|]. lia.
Qed.

(** Flipping bit [k] *)
Lemma lxor_pow2 x k :
  0 ≤ k → Z.lxor x (2 ^ k) = if Z.testbit x k then x - 2 ^ k else x + 2 ^ k.
Proof.
  intros Hk. destruct (Z.testbit x k) eqn:Hb.
  - rewrite Z.sub_nocarry_ldiff.
    + apply Z.bits_inj'. intros n Hn. rewrite Z.lxor_spec, Z.ldiff_spec, Z.pow2_bits_eqb by lia.
      destruct (Z.eqb_spec k n) as [<-|]; [by rewrite Hb|by destruct (Z.testbit x n)].
    + apply Z.bits_inj'. intros n Hn. rewrite Z.ldiff_spec, Z.pow2_bits_eqb, Z.bits_0 by lia.
      destruct (Z.eqb_spec k n) as [<-|]; [by rewrite Hb|done].
  - symmetry. apply Z.add_nocarry_lxor.
    apply Z.bits_inj'. intros n Hn. rewrite Z.land_spec, Z.pow2_bits_eqb, Z.bits_0 by lia.
    destruct (Z.eqb_spec k n) as [<-|]; [by rewrite Hb|by destruct (Z.testbit x n)].
Qed.

(** The buddy of a block: the other half of the block of twice the size. *)
Definition buddy (x k : Z) : Z := Z.lxor x (2 ^ k).

Lemma buddy_invol x k : buddy (buddy x k) k = x.
Proof. unfold buddy. by rewrite Z.lxor_assoc, Z.lxor_nilpotent, Z.lxor_0_r. Qed.

Lemma buddy_cases x k :
  0 ≤ k → aligned x k →
  (buddy x k = x + 2 ^ k ∧ aligned x (k + 1)) ∨
  (buddy x k = x - 2 ^ k ∧ aligned (x - 2 ^ k) (k + 1)).
Proof.
  intros Hk [a ->]. unfold buddy. rewrite lxor_pow2 by done.
  pose proof (pow2_pos k Hk).
  rewrite <-Z.shiftl_mul_pow2, Z.shiftl_spec, Z.sub_diag, Z.bit0_odd, Z.shiftl_mul_pow2 by lia.
  unfold aligned. rewrite Z.pow_add_r by lia. change (2 ^ 1) with 2.
  destruct (Z.odd a) eqn:Hodd.
  - right. split; [done|]. apply Z.odd_spec in Hodd as [c ->]. exists c. lia.
  - left. split; [done|]. rewrite <-Z.negb_even, negb_false_iff in Hodd.
    apply Z.even_spec in Hodd as [c ->]. exists c. lia.
Qed.

Lemma buddy_aligned x k : 0 ≤ k → aligned x k → aligned (buddy x k) k.
Proof.
  intros Hk Ha. destruct (buddy_cases x k) as [[-> _]|[-> _]]; [done..| |].
  - apply Z.divide_add_r; [done|apply Z.divide_refl].
  - apply Z.divide_sub_r; [done|apply Z.divide_refl].
Qed.

Lemma buddy_min_aligned x k :
  0 ≤ k → aligned x k → aligned (x `min` buddy x k) (k + 1).
Proof.
  intros Hk Ha. pose proof (pow2_pos k Hk).
  destruct (buddy_cases x k) as [[-> ?]|[-> ?]]; [done..| |].
  - by rewrite Z.min_l by lia.
  - by rewrite Z.min_r by lia.
Qed.

Lemma buddy_scale x k s :
  0 ≤ k → 0 ≤ s → Z.lxor (x * 2 ^ s) (2 ^ (k + s)) = buddy x k * 2 ^ s.
Proof.
  intros. unfold buddy. rewrite Z.pow_add_r by lia.
  rewrite <-!Z.shiftl_mul_pow2 by lia. by rewrite Z.shiftl_lxor.
Qed.
