(* ===== verification/ListHead.v ===== *)
(** Intrusive circular doubly-linked lists ([kernel/include/common/list.h]).

    A heap maps the address of every [struct list_head] to its two pointers;
    the operations are the pointer writes of the C inline functions, in their
    order, and fault on an address that holds no node.  The theorems relate
    the heap to an abstract view that gives, for every list head, the
    sequence of nodes behind it. *)
From S2P Require Import Prelude.

Record list_head (L : Type) := ListNode { prev : L; next : L }.
Arguments ListNode {L} prev next.
Arguments prev {L} l.
Arguments next {L} l.

Section list_head.
Context {L : Type} `{Countable L}.
Implicit Types (h : gmap L (list_head L)) (a b x y n p q hd : L) (l xs ys : list L).

(** Pointer reads and writes. *)
Definition rd_next h a : outcome L :=
  match h !! a with Some nd => Ret (next nd) | None => Halt BadAccess end.
Definition rd_prev h a : outcome L :=
  match h !! a with Some nd => Ret (prev nd) | None => Halt BadAccess end.
Definition wr_next a v h : outcome (gmap L (list_head L)) :=
  match h !! a with
  | Some nd => Ret (<[a := ListNode (prev nd) v]> h)
  | None => Halt BadAccess
  end.
Definition wr_prev a v h : outcome (gmap L (list_head L)) :=
  match h !! a with
  | Some nd => Ret (<[a := ListNode v (next nd)]> h)
  | None => Halt BadAccess
  end.

(** list.h operations *)
Definition init_list_head (list : L) h : outcome (gmap L (list_head L)) :=
  h1 ← wr_next list list h;
  wr_prev list list h1.

Definition list_add (new head : L) h : outcome (gmap L (list_head L)) :=
  hn ← rd_next h head;
  h1 ← wr_next new hn h;
  h2 ← wr_prev new head h1;
  hn' ← rd_next h2 head;
  h3 ← wr_prev hn' new h2;
  wr_next head new h3.

Definition list_append (new head : L) h : outcome (gmap L (list_head L)) :=
  tail ← rd_prev h head;
  list_add new tail h.

Definition list_del (node : L) h : outcome (gmap L (list_head L)) :=
  np ← rd_prev h node;
  nn ← rd_next h node;
  h1 ← wr_next np nn h;
  nn' ← rd_next h1 node;
  np' ← rd_prev h1 node;
  wr_prev nn' np' h1.

Definition list_empty (head : L) h : outcome bool :=
  hn ← rd_next h head;
  Ret (bool_decide (hn = head)).

(** [link h a b]: [b] follows [a]. *)
Definition link h a b : Prop :=
  (∃ nd, h !! a = Some nd ∧ next nd = b) ∧
  (∃ nd, h !! b = Some nd ∧ prev nd = a).

Fixpoint links h l : Prop :=
  match l with
  | x :: ((y :: _) as t) => link h x y ∧ links h t
  | _ => True
  end.

(** The circular list behind [hd] is [xs]. *)
Definition is_list h hd xs : Prop :=
  links h (hd :: xs ++ [hd]) ∧ NoDup (hd :: xs).

Lemma link_next h a b b' : link h a b → link h a b' → b = b'.
Proof. intros [(?&?&?) _] [(?&?&?) _]. by simplify_eq. Qed.

Lemma link_prev h a a' b : link h a b → link h a' b → a = a'.
Proof. intros [_ (?&?&?)] [_ (?&?&?)]. by simplify_eq. Qed.

Lemma links_app h l1 x l2 :
  links h (l1 ++ x :: l2) ↔ links h (l1 ++ [x]) ∧ links h (x :: l2).
Proof.
  induction l1 as [|y l1 IH]; [simpl; destruct l2; naive_solver|].
  destruct l1 as [|z l1]; simpl in *; [destruct l2; naive_solver|].
  rewrite IH. naive_solver.
Qed.

Lemma links_cons2 h x y l : links h (x :: y :: l) ↔ link h x y ∧ links h (y :: l).
Proof. done. Qed.

(** Links survive a heap change that keeps the links starting outside a
    given set of nodes. *)
Lemma links_mono h h' l :
  (∀ a b, link h a b → a ∈ removelast l → b ∈ tail l → link h' a b) →
  links h l → links h' l.
Proof.
  induction l as [|x [|y l] IH]; [done..|].
  intros Hm [Hxy Hl]. split.
  - apply Hm; [done|simpl; set_solver|simpl; set_solver].
  - apply IH; [|done]. intros a b ? Ha Hb. apply Hm; [done| |simpl in *; set_solver].
    simpl in *. set_solver.
Qed.

(** ** Effect of the operations on links *)

Lemma init_list_head_spec h hd :
  is_Some (h !! hd) →
  ∃ h', init_list_head hd h = Ret h' ∧ link h' hd hd ∧ dom h' = dom h ∧
    ∀ a, a ≠ hd → h' !! a = h !! a.
Proof.
  intros [nd Hnd]. unfold init_list_head, wr_next, wr_prev. rewrite Hnd. simpl.
  rewrite lookup_insert_eq. eexists; split; [done|]. split_and!.
  - split; eexists; (split; [apply lookup_insert_eq|done]).
  - rewrite !dom_insert_L. apply elem_of_dom_2 in Hnd. set_solver.
  - intros a Ha. by rewrite !lookup_insert_ne.
Qed.

Lemma list_add_links h new p q :
  link h p q → is_Some (h !! new) → new ≠ p → new ≠ q →
  ∃ h', list_add new p h = Ret h' ∧ dom h' = dom h ∧
    link h' p new ∧ link h' new q ∧
    (∀ a b, link h a b → a ≠ p → a ≠ new → b ≠ new → link h' a b) ∧
    (∀ a, a ≠ p → a ≠ q → a ≠ new → h' !! a = h !! a).
Proof.
  intros Hpq [nn Hn] Hnp Hnq.
  pose proof Hpq as [(pn&Hp&Hpn) (qn&Hq&Hqn)].
  unfold list_add, rd_next, wr_next, wr_prev. rewrite Hp. simpl.
  rewrite Hn. simpl. rewrite lookup_insert_eq. simpl.
  rewrite !lookup_insert_ne by done. rewrite Hp. simpl. rewrite Hpn.
  rewrite !lookup_insert_ne by done. rewrite Hq. simpl.
  assert (∃ pn', <[q:=ListNode new (next qn)]>
    (<[new:=ListNode p q]> (<[new:=ListNode (prev nn) q]> h)) !! p = Some pn'
    ∧ prev pn' = if decide (p = q) then new else prev pn) as (pn'&Hp'&Hprev).
  { destruct (decide (p = q)) as [->|Hne].
    - rewrite lookup_insert_eq. eexists; done.
    - rewrite !lookup_insert_ne by done. eauto. }
  rewrite Hp'. eexists; split; [done|]. split_and!.
  - rewrite !dom_insert_L. apply elem_of_dom_2 in Hp, Hq, Hn. set_solver.
  - split; [eexists; split; [apply lookup_insert_eq|done]|].
    exists (ListNode p q). rewrite !lookup_insert_ne by done.
    by rewrite lookup_insert_eq.
  - split; [exists (ListNode p q); rewrite !lookup_insert_ne by done;
      by rewrite lookup_insert_eq|].
    destruct (decide (p = q)) as [->|Hne].
    + eexists; split; [apply lookup_insert_eq|]. by rewrite Hprev.
    + eexists; split; [rewrite lookup_insert_ne by done; apply lookup_insert_eq|done].
  - intros a b Hab Hap Han Hbn.
    assert (b ≠ q) by (intros ->; by destruct Hap; eapply link_prev).
    destruct Hab as [(an&Ha&Han') (bn&Hb&Hbn')]. split.
    + destruct (decide (a = q)) as [->|].
      * rewrite lookup_insert_ne by done. rewrite lookup_insert_eq.
        eexists; split; [done|]. by simplify_eq.
      * rewrite !lookup_insert_ne by done. eauto.
    + destruct (decide (b = p)) as [->|].
      * rewrite lookup_insert_eq. eexists; split; [done|]. simpl.
        rewrite Hprev. rewrite decide_False by done. by simplify_eq.
      * rewrite !lookup_insert_ne by done. eauto.
  - intros a Ha1 Ha2 Ha3. by rewrite !lookup_insert_ne by done.
Qed.

Lemma list_del_links h p n q :
  link h p n → link h n q → n ≠ p → n ≠ q →
  ∃ h', list_del n h = Ret h' ∧ dom h' = dom h ∧ link h' p q ∧
    (∀ a b, link h a b → a ≠ p → a ≠ n → link h' a b) ∧
    (∀ a, a ≠ p → a ≠ q → h' !! a = h !! a).
Proof.
  intros Hpn Hnq Hp Hq.
  pose proof Hpn as [(pn&Hp1&Hp2) (nn&Hn1&Hn2)].
  pose proof Hnq as [(nn'&Hn1'&Hn3) (qn&Hq1&Hq2)].
  rewrite Hn1 in Hn1'. simplify_eq.
  unfold list_del, rd_next, rd_prev, wr_next, wr_prev. rewrite Hn1. simpl.
  rewrite Hp1. simpl. rewrite !lookup_insert_ne by done. rewrite Hn1. simpl.
  assert (∃ qn', <[prev nn':=ListNode (prev pn) (next nn')]> h !! next nn' = Some qn' ∧
    next qn' = if decide (prev nn' = next nn') then next nn' else next qn) as (qn'&Hqn'&Hnx).
  { destruct (decide (prev nn' = next nn')) as [e|Hne].
    - rewrite e, lookup_insert_eq. eauto.
    - rewrite lookup_insert_ne by done. eauto. }
  rewrite Hqn'. eexists; split; [done|]. split_and!.
  - rewrite !dom_insert_L. apply elem_of_dom_2 in Hp1, Hq1. set_solver.
  - split.
    + destruct (decide (prev nn' = next nn')) as [e|Hne].
      * rewrite e, lookup_insert_eq. eexists; split; [done|]. by rewrite Hnx.
      * rewrite lookup_insert_ne by done. rewrite lookup_insert_eq. eauto.
    + eexists; split; [apply lookup_insert_eq|done].
  - intros a b Hab Hap Han.
    assert (b ≠ next nn') by (intros ->; by apply Han; eapply link_prev).
    destruct Hab as [(an&Ha&Han') (bn&Hb&Hbn')]. split.
    + destruct (decide (a = next nn')) as [->|].
      * rewrite lookup_insert_eq. eexists; split; [done|]. simpl. rewrite Hnx.
        rewrite decide_False by done. by simplify_eq.
      * rewrite !lookup_insert_ne by done. eauto.
    + rewrite lookup_insert_ne by done.
      destruct (decide (b = prev nn')) as [->|].
      * rewrite lookup_insert_eq. eexists; split; [done|]. by simplify_eq.
      * rewrite lookup_insert_ne by done. eauto.
  - intros a Ha1 Ha2. by rewrite !lookup_insert_ne by done.
Qed.

(** ** The abstract view: every list head with its nodes *)

Record Rep h (V : gmap L (list L)) : Prop := {
  rep_list hd xs : V !! hd = Some xs → is_list h hd xs;
  rep_disj hd1 hd2 xs1 xs2 x :
    V !! hd1 = Some xs1 → V !! hd2 = Some xs2 →
    x ∈ hd1 :: xs1 → x ∈ hd2 :: xs2 → hd1 = hd2
}.

(** [x] is the head or a node of one of the lists of [V]. *)
Definition on_list (V : gmap L (list L)) x : Prop :=
  ∃ hd xs, V !! hd = Some xs ∧ x ∈ hd :: xs.

(** The links of a list other than those of the lists changed by an
    operation survive it. *)
Lemma is_list_frame h h' hd xs (p n : L) :
  (∀ a b, link h a b → a ≠ p → a ≠ n → b ≠ n → link h' a b) →
  p ∉ hd :: xs → n ∉ hd :: xs → is_list h hd xs → is_list h' hd xs.
Proof.
  intros Hf Hp Hn [Hl Hnd]. split; [|done].
  eapply links_mono; [|done]. intros a b Hab Ha Hb.
  rewrite app_comm_cons, removelast_last in Ha. simpl in Hb.
  apply Hf; [done|set_solver..].
Qed.

Lemma rep_insert_after h V hd pre p xs ys new :
  Rep h V → hd :: xs = pre ++ [p] → V !! hd = Some (xs ++ ys) →
  is_Some (h !! new) → ¬ on_list V new →
  ∃ h', list_add new p h = Ret h' ∧ dom h' = dom h ∧
    Rep h' (<[hd := xs ++ new :: ys]> V).
Proof.
  intros [HL HD] Hpre Hhd Hnew Hfree.
  pose proof (HL _ _ Hhd) as [Hl Hnd].
  assert (new ∉ hd :: xs ++ ys) as Hni by (intros ?; apply Hfree; by exists hd, (xs ++ ys)).
  rewrite <-app_assoc, app_comm_cons, Hpre in Hl.
  rewrite app_comm_cons, Hpre in Hnd, Hni.
  apply NoDup_app in Hnd as (Hnd1 & Hd12 & Hnd2).
  apply NoDup_app in Hnd1 as (Hndp & Hdp & _).
  destruct (ys ++ [hd]) as [|q rest] eqn:Hq; [by destruct ys|].
  rewrite <-app_assoc in Hl. simpl in Hl. apply links_app in Hl as [Hl1 [Hpq Hl2]].
  assert (q ∈ hd :: xs ++ ys) as Hqi.
  { assert (q ∈ ys ++ [hd]) by (rewrite Hq; set_solver). set_solver. }
  rewrite app_comm_cons, Hpre in Hqi.
  destruct (list_add_links h new p q) as (h'&Hadd&Hdom&Hpn&Hnq&Hfr&_); [done|done|set_solver..|].
  exists h'. split; [done|]. split; [done|]. split.
  - intros hd' xs'. rewrite lookup_insert. case_decide as Heq.
    + intros [= <-]; subst hd'. split.
      * rewrite <-app_assoc, <-app_comm_cons, app_comm_cons, Hpre, Hq, <-app_assoc. simpl.
        apply links_app. split; [|split; [done|split; [done|]]].
        -- eapply links_mono; [|done]. intros a b Hab Ha Hb. rewrite removelast_last in Ha.
           assert (b ∈ pre ++ [p]).
           { destruct (pre ++ [p]); [done|]; simpl in Hb; set_solver. }
           apply Hfr; [done|set_solver..].
        -- eapply links_mono; [|done]. intros a b Hab Ha Hb.
           rewrite <-Hq, removelast_last in Ha.
           assert (b ∈ ys ++ [hd]) by (rewrite Hq; simpl in Hb; set_solver).
           assert (hd ∈ pre ++ [p]) by (rewrite <-Hpre; set_solver).
           apply Hfr; [done|set_solver..].
      * rewrite app_comm_cons, Hpre. apply NoDup_app. split_and!.
        -- apply NoDup_app. split_and!; [done|done|apply NoDup_singleton].
        -- set_solver.
        -- apply NoDup_cons. split; [set_solver|done].
    + intros Hhd'. pose proof (HD hd' hd xs' (xs ++ ys)) as Hdj.
      assert (p ∈ hd :: xs ++ ys) by (rewrite app_comm_cons, Hpre; set_solver).
      eapply (is_list_frame h h' hd' xs' p new); [done| | |eauto].
      * intros ?. destruct Heq. symmetry. by eapply Hdj.
      * intros ?. apply Hfree. by exists hd', xs'.
  - intros hd1 hd2 xs1 xs2 x. rewrite !lookup_insert.
    case_decide; case_decide; intros E1 E2 Hx1 Hx2; subst; simplify_eq; try done.
    + destruct (decide (x = new)) as [->|]; [by destruct Hfree; exists hd2, xs2|].
      eapply (HD hd1 hd2 _ _ x); [done..|set_solver|done].
    + destruct (decide (x = new)) as [->|]; [by destruct Hfree; exists hd1, xs1|].
      eapply (HD hd1 hd2 _ _ x); [done..|set_solver].
    + by eapply (HD hd1 hd2).
Qed.

(** [list_add(new, head)] puts [new] first. *)
Lemma list_add_rep h V hd xs new :
  Rep h V → V !! hd = Some xs → is_Some (h !! new) → ¬ on_list V new →
  ∃ h', list_add new hd h = Ret h' ∧ dom h' = dom h ∧ Rep h' (<[hd := new :: xs]> V).
Proof. intros. by apply (rep_insert_after h V hd [] hd [] xs). Qed.

(** [list_add(new, node)] on a member of a list puts [new] just behind it. *)
Lemma list_add_after_rep h V hd xs p ys new :
  Rep h V → V !! hd = Some (xs ++ p :: ys) → is_Some (h !! new) → ¬ on_list V new →
  ∃ h', list_add new p h = Ret h' ∧ dom h' = dom h ∧
    Rep h' (<[hd := xs ++ p :: new :: ys]> V).
Proof.
  intros ? Hhd ??. destruct (rep_insert_after h V hd (hd :: xs) p (xs ++ [p]) ys new)
    as (h'&?&?&?); [done|done|by rewrite <-app_assoc|done|done|].
  exists h'. by rewrite <-app_assoc in *.
Qed.

(** [list_append(new, head)] puts [new] last. *)
Lemma list_append_rep h V hd xs new :
  Rep h V → V !! hd = Some xs → is_Some (h !! new) → ¬ on_list V new →
  ∃ h', list_append new hd h = Ret h' ∧ dom h' = dom h ∧
    Rep h' (<[hd := xs ++ [new]]> V).
Proof.
  intros HR Hhd ??. unfold list_append.
  destruct (exists_last (l := hd :: xs)) as (pre&p&Hpre); [done|].
  assert (rd_prev h hd = Ret p) as ->.
  { pose proof (rep_list _ _ HR _ _ Hhd) as [Hl _].
    rewrite app_comm_cons, Hpre, <-app_assoc in Hl. simpl in Hl.
    apply links_app in Hl as [_ [[_ (nd&Hnd&<-)] _]]. unfold rd_prev. by rewrite Hnd. }
  simpl. apply (rep_insert_after h V hd pre p xs []); [done|done|by rewrite app_nil_r|done..].
Qed.

(** [list_del(node)] unlinks [node] from whichever list holds it. *)
Lemma list_del_rep h V hd xs n ys :
  Rep h V → V !! hd = Some (xs ++ n :: ys) →
  ∃ h', list_del n h = Ret h' ∧ dom h' = dom h ∧ Rep h' (<[hd := xs ++ ys]> V).
Proof.
  intros [HL HD] Hhd. pose proof (HL _ _ Hhd) as [Hl Hnd].
  destruct (exists_last (l := hd :: xs)) as (pre&p&Hpre); [done|].
  rewrite <-app_assoc, app_comm_cons, Hpre in Hl.
  rewrite app_comm_cons, Hpre in Hnd.
  destruct (ys ++ [hd]) as [|q rest] eqn:Hq; [by destruct ys|].
  rewrite <-app_comm_cons, Hq, <-app_assoc in Hl. simpl in Hl.
  apply links_app in Hl as [Hl1 [Hpn [Hnq Hl2]]].
  apply NoDup_app in Hnd as (Hnd1 & Hd12 & Hnd2).
  apply NoDup_cons in Hnd2 as [Hny Hndy].
  apply NoDup_app in Hnd1 as (Hndp & Hdp & _).
  assert (q ∈ ys ++ [hd]) as Hqi by (rewrite Hq; set_solver).
  assert (hd ∈ pre ++ [p]) by (rewrite <-Hpre; set_solver).
  destruct (list_del_links h p n q) as (h'&Hdel&Hdom&Hpq&Hfr&_); [done|done|set_solver..|].
  exists h'. split; [done|]. split; [done|]. split.
  - intros hd' xs'. rewrite lookup_insert. case_decide as Heq.
    + intros [= <-]; subst hd'. split.
      * rewrite <-app_assoc, app_comm_cons, Hpre, Hq, <-app_assoc. simpl.
        apply links_app. split; [|split; [done|]].
        -- eapply links_mono; [|done]. intros a b Hab Ha Hb. rewrite removelast_last in Ha.
           apply Hfr; [done|set_solver..].
        -- eapply links_mono; [|done]. intros a b Hab Ha Hb.
           rewrite <-Hq, removelast_last in Ha. apply Hfr; [done|set_solver..].
      * rewrite app_comm_cons, Hpre. apply NoDup_app. split_and!; [|set_solver|done].
        apply NoDup_app. split_and!; [done|done|apply NoDup_singleton].
    + intros Hhd'. pose proof (HD hd' hd xs' (xs ++ n :: ys)) as Hdj.
      assert (p ∈ hd :: xs ++ n :: ys) by (rewrite app_comm_cons, Hpre; set_solver).
      eapply (is_list_frame h h' hd' xs' p n); [naive_solver| | |eauto].
      * intros ?. destruct Heq. symmetry. by eapply Hdj.
      * intros ?. destruct Heq. symmetry. eapply Hdj; [done|done|done|set_solver].
  - intros hd1 hd2 xs1 xs2 x. rewrite !lookup_insert.
    case_decide; case_decide; intros E1 E2 Hx1 Hx2; subst; simplify_eq; try done.
    + eapply (HD hd1 hd2 _ _ x); [done..|set_solver|done].
    + eapply (HD hd1 hd2 _ _ x); [done..|set_solver].
    + by eapply (HD hd1 hd2).
Qed.

Lemma rd_next_rep h V hd xs :
  Rep h V → V !! hd = Some xs → rd_next h hd = Ret (default hd (head xs)).
Proof.
  intros HR Hhd. pose proof (rep_list _ _ HR _ _ Hhd) as [Hl _].
  destruct xs as [|x xs]; destruct Hl as [[(nd&Hnd&<-) _] _];
    unfold rd_next; by rewrite Hnd.
Qed.

(** The node behind a node of the list. *)
Lemma rd_next_node_rep h V hd l1 x l2 :
  Rep h V → V !! hd = Some (l1 ++ x :: l2) → rd_next h x = Ret (default hd (head l2)).
Proof.
  intros HR Hhd. pose proof (rep_list _ _ HR _ _ Hhd) as [Hl _].
  rewrite <-app_assoc, app_comm_cons in Hl. apply (links_app h (hd :: l1) x (l2 ++ [hd])) in Hl as [_ Hl].
  destruct l2 as [|y l2]; destruct Hl as [[(nd&Hnd&<-) _] _]; unfold rd_next; by rewrite Hnd.
Qed.

(** Every node of a list is in the heap. *)
Lemma rep_node h V hd xs x : Rep h V → V !! hd = Some xs → x ∈ xs → is_Some (h !! x).
Proof.
  intros HR Hhd (l1&l2&->)%list_elem_of_split. pose proof (rd_next_node_rep h V hd l1 x l2 HR Hhd) as Hn.
  unfold rd_next in Hn. destruct (h !! x); [by eexists|done].
Qed.

Lemma list_empty_rep h V hd xs :
  Rep h V → V !! hd = Some xs → list_empty hd h = Ret (bool_decide (xs = [])).
Proof.
  intros HR Hhd. unfold list_empty. erewrite rd_next_rep by done. simpl. f_equal.
  pose proof (rep_list _ _ HR _ _ Hhd) as [_ Hnd].
  apply bool_decide_ext. destruct xs as [|x xs]; simpl; [done|].
  split; [|done]. intros ->. apply NoDup_cons in Hnd as [Hnd _]. set_solver.
Qed.

(** Writing a node that is on no list changes no list. *)
Lemma rep_frame h h' V :
  Rep h V → (∀ x, on_list V x → h' !! x = h !! x) → Rep h' V.
Proof.
  intros [HL HD] Hx. split; [|done]. intros hd xs Hhd. destruct (HL _ _ Hhd) as [Hl Hnd].
  split; [|done]. eapply links_mono; [|done]. intros a b [(na&Ha&?) (nb&Hb&?)] Hina Hinb.
  rewrite app_comm_cons, removelast_last in Hina. simpl in Hinb.
  split; [exists na|exists nb]; (split; [|done]); rewrite Hx; [done| |done|];
    exists hd, xs; set_solver.
Qed.

Lemma rep_empty h : Rep h ∅.
Proof. split; [by intros ???|by intros ??????]. Qed.

(** [init_list_head] creates an empty list. *)
Lemma init_list_head_rep h V hd :
  Rep h V → is_Some (h !! hd) → ¬ on_list V hd →
  ∃ h', init_list_head hd h = Ret h' ∧ dom h' = dom h ∧ Rep h' (<[hd := []]> V) ∧
    ∀ a, a ≠ hd → h' !! a = h !! a.
Proof.
  intros HR Hs Hf. destruct (init_list_head_spec h hd Hs) as (h'&Hi&Hl&Hd&Hfr).
  exists h'. split_and!; [done|done| |done].
  assert (Rep h' V) as [HL HD].
  { eapply rep_frame; [done|]. intros x Hx. apply Hfr. by intros ->. }
  split.
  - intros hd' xs. rewrite lookup_insert. case_decide; [|apply HL].
    intros [= <-]; subst. split; [done|apply NoDup_singleton].
  - intros hd1 hd2 xs1 xs2 x. rewrite !lookup_insert.
    case_decide; case_decide; intros E1 E2 Hx1 Hx2; subst; simplify_eq; try done.
    + apply list_elem_of_singleton in Hx1 as ->. destruct Hf. by exists hd2, xs2.
    + apply list_elem_of_singleton in Hx2 as ->. destruct Hf. by exists hd1, xs1.
    + by eapply (HD hd1 hd2).
Qed.

(** Freeing the memory of a node that is on no list. *)
Lemma rep_delete h V x : Rep h V → ¬ on_list V x → Rep (delete x h) V.
Proof.
  intros HR Hx. eapply rep_frame; [done|]. intros y Hy.
  apply lookup_delete_ne. by intros ->.
Qed.

(** Forgetting a list, and freeing its head. *)
Lemma rep_forget h V hd : Rep h V → Rep h (delete hd V).
Proof.
  intros [HL HD]. split.
  - intros ?? [_ ?]%lookup_delete_Some. by apply HL.
  - intros ????? [_ ?]%lookup_delete_Some [_ ?]%lookup_delete_Some. by eapply HD.
Qed.

Lemma rep_free_head h V hd : Rep h V → V !! hd = Some [] → Rep (delete hd h) (delete hd V).
Proof.
  intros HR Hhd. apply rep_delete; [by apply rep_forget|].
  intros (hd'&xs&[Hne Hx]%lookup_delete_Some&Hin). apply Hne.
  eapply (rep_disj _ _ HR); [done|done| |done]. set_solver.
Qed.
End list_head.
