(* ===== verification/Buddy.v ===== *)
(** The buddy page allocator ([kernel/mm/buddy.c], [kernel/include/mm/buddy.h]).

    State: one [phys_mem_pool], with its array of [struct page] (a page
    pointer is its index in that array), the [list_head]s of the free lists
    and of the pages, the [nr_free] counters and the redo/undo log entry.
    Operations follow the default build (CXL/SSI with CHCORE_SSI_SLS, without
    CHCORE_SLS, RMAP_ENABLED and DSM_CXL_LF_BUDDY).  The pool lock makes every
    operation atomic (see Locks.v), so it is not part of the state. *)
From S2P Require Import Prelude Words ListHead.

(** ** Data *)

Definition BUDDY_MAX_ORDER : Z := 20.
Definition BUDDY_PAGE_SIZE_ORDER : Z := 12.

(** [enum pageflags] *)
Definition PG_allocated : Z := 0.
Definition PG_cached : Z := 1.
Definition PG_flagnum : Z := 3.

Inductive page_type : Set :=
  DRAM_PAGE | DRAM_CACHED_PAGE | NVM_PAGE | CXL_MEM_PAGE | TEMP_PAGE | INVALID_PAGE.

(** [struct page]; [pool_set] says that the [pool] field points to the pool
    (it is NULL after the metadata area is cleared), [slab] is the address of
    the slab the page belongs to, 0 when NULL. *)
Record page := Page {
  flags : Z; order : Z; slab : Z; pool_set : bool; ref_cnt : Z; page_pair : Z
}.

(** Addresses of [struct list_head]s. *)
Inductive lnode : Set := LNull | FLHead (k : Z) | PNode (i : Z).

#[export] Instance lnode_eq_dec : EqDecision lnode.
Proof. solve_decision. Defined.
#[export] Instance lnode_countable : Countable lnode.
Proof.
  refine (inj_countable'
    (λ n, match n with LNull => inl () | FLHead k => inr (inl k) | PNode i => inr (inr i) end)
    (λ x, match x with inl () => LNull | inr (inl k) => FLHead k | inr (inr i) => PNode i end) _).
  by intros [].
Defined.

#[export] Instance PNode_inj : Inj (=) (=) PNode.
Proof. by intros ?? [=]. Qed.

Inductive log_commit_type : Set := LOG_INIT | LOG_DONE | LOG_COMMIT.
Inductive log_type : Set := ADD_PAGES | REMOVE_PAGES.

Record log_entry := LogEntry {
  commited : log_commit_type; log_ty : log_type; log_page : Z;
  dedicated_order : Z; log_cur_order : Z; list_cur_num : Z
}.

Record phys_mem_pool := Pool {
  pool_start_addr : Z;
  pool_mem_size : Z;
  page_metadata : gmap Z page;
  free_heap : gmap lnode (list_head lnode);
  nr_free : gmap Z Z;
  pool_phys_page_num : Z;
  pool_ty : page_type;
  latest_log : log_entry
}.

(** ** Field access *)

Definition set_flags (f : Z) (p : page) : page :=
  Page f (order p) (slab p) (pool_set p) (ref_cnt p) (page_pair p).
Definition set_order (o : Z) (p : page) : page :=
  Page (flags p) o (slab p) (pool_set p) (ref_cnt p) (page_pair p).
Definition set_slab (a : Z) (p : page) : page :=
  Page (flags p) (order p) a (pool_set p) (ref_cnt p) (page_pair p).
Definition set_pool (b : bool) (p : page) : page :=
  Page (flags p) (order p) (slab p) b (ref_cnt p) (page_pair p).
Definition set_ref_cnt (c : Z) (p : page) : page :=
  Page (flags p) (order p) (slab p) (pool_set p) c (page_pair p).
Definition set_page_pair (v : Z) (p : page) : page :=
  Page (flags p) (order p) (slab p) (pool_set p) (ref_cnt p) v.

Definition set_pages (pm : gmap Z page) (s : phys_mem_pool) : phys_mem_pool :=
  Pool (pool_start_addr s) (pool_mem_size s) pm (free_heap s) (nr_free s)
    (pool_phys_page_num s) (pool_ty s) (latest_log s).
Definition set_heap (h : gmap lnode (list_head lnode)) (s : phys_mem_pool) : phys_mem_pool :=
  Pool (pool_start_addr s) (pool_mem_size s) (page_metadata s) h (nr_free s)
    (pool_phys_page_num s) (pool_ty s) (latest_log s).
Definition set_nr_free (nf : gmap Z Z) (s : phys_mem_pool) : phys_mem_pool :=
  Pool (pool_start_addr s) (pool_mem_size s) (page_metadata s) (free_heap s) nf
    (pool_phys_page_num s) (pool_ty s) (latest_log s).
Definition set_log (l : log_entry) (s : phys_mem_pool) : phys_mem_pool :=
  Pool (pool_start_addr s) (pool_mem_size s) (page_metadata s) (free_heap s) (nr_free s)
    (pool_phys_page_num s) (pool_ty s) l.

(** [*page] *)
Definition read_page (i : Z) : M phys_mem_pool page := λ s,
  from_opt (page_metadata s !! i) s.
(** [page->field = ...] *)
Definition upd_page (i : Z) (f : page → page) : M phys_mem_pool unit :=
  p ← read_page i;
  modify (λ s, set_pages (<[i := f p]> (page_metadata s)) s).
(** A list operation on the nodes of the pool. *)
Definition list_op (f : gmap lnode (list_head lnode) → outcome (gmap lnode (list_head lnode))) :
    M phys_mem_pool unit := λ s,
  match f (free_heap s) with Ret h => Ret (tt, set_heap h s) | Halt w => Halt w end.
Definition list_read {A} (f : gmap lnode (list_head lnode) → outcome A) :
    M phys_mem_pool A := λ s,
  match f (free_heap s) with Ret a => Ret (a, s) | Halt w => Halt w end.
(** [free_lists[k].nr_free += d] on an unsigned long *)
Definition nr_free_add (k d : Z) : M phys_mem_pool unit :=
  n ← (λ s, from_opt (nr_free s !! k) s);
  modify (λ s, set_nr_free (<[k := wrap_u64 (n + d)]> (nr_free s)) s).

(** ** Page flags *)

Definition page_set_flag (i flag : Z) : M phys_mem_pool unit :=
  bug_on (bool_decide (flag >= PG_flagnum));;
  upd_page i (λ p, set_flags (Z.lor (flags p) (Z.shiftl 1 flag)) p).

Definition page_clear_flag (i flag : Z) : M phys_mem_pool unit :=
  bug_on (bool_decide (flag >= PG_flagnum));;
  upd_page i (λ p, set_flags (Z.land (flags p) (wrap_u32 (Z.lnot (Z.shiftl 1 flag)))) p).

Definition page_check_flag (i flag : Z) : M phys_mem_pool bool :=
  bug_on (bool_decide (flag >= PG_flagnum));;
  p ← read_page i;
  mret (negb (bool_decide (Z.land (flags p) (Z.shiftl 1 flag) = 0))).

(** ** Addresses *)

Definition page_to_virt (i : Z) : M phys_mem_pool Z :=
  p ← read_page i;
  bug_on (negb (pool_set p));;
  s ← get_state;
  let addr := wrap_u64 (i * BUDDY_PAGE_SIZE + pool_start_addr s) in
  bug_on (bool_decide (addr > wrap_u64 (pool_start_addr s + pool_mem_size s)));;
  mret addr.

(** The part of [virt_to_page] after the pool has been found; which pool that
    is, is decided by [find_pool] below. *)
Definition virt_to_page (addr : Z) : M phys_mem_pool Z :=
  s ← get_state;
  let i := wrap_u64 (addr - pool_start_addr s) / BUDDY_PAGE_SIZE in
  p ← read_page i;
  bug_on (negb (pool_set p));;
  mret i.

(** The search of [virt_to_page] over the pools: DRAM pools, then CXL pools,
    then the temporary pool; the first whose range holds the address. *)
Definition find_pool (pools : list phys_mem_pool) (addr : Z) : option nat :=
  fst <$> list_find (λ s, pool_start_addr s ≤ addr < wrap_u64 (pool_start_addr s + pool_mem_size s))
    pools.

(** ** Buddies, splitting and merging *)

Definition get_buddy_chunk (chunk : Z) : M phys_mem_pool (option Z) :=
  chunk_addr ← page_to_virt chunk;
  p ← read_page chunk;
  let order := order p in
  let buddy_chunk_addr :=
    Z.lxor chunk_addr (wrap_u64 (Z.shiftl 1 (order + BUDDY_PAGE_SIZE_ORDER))) in
  s ← get_state;
  if bool_decide (buddy_chunk_addr < pool_start_addr s) ||
     bool_decide (wrap_u64 (buddy_chunk_addr + to_s32 (Z.shiftl 1 order * BUDDY_PAGE_SIZE))
                  > wrap_u64 (pool_start_addr s + pool_mem_size s))
  then mret None
  else b ← virt_to_page buddy_chunk_addr; mret (Some b).

(** "The most recursion level of split_chunk is decided by BUDDY_MAX_ORDER". *)
Fixpoint split_chunk (fuel : nat) (ord chunk : Z) : M phys_mem_pool Z :=
  match fuel with
  | O => halt OutOfFuel
  | S fuel' =>
      p ← read_page chunk;
      if bool_decide (order p = ord) then mret chunk
      else
        upd_page chunk (λ p, set_order (order p - 1) p);;
        ob ← get_buddy_chunk chunk;
        match ob with
        | None => halt BugHit
        | Some buddy_chunk =>
            c ← read_page chunk;
            upd_page buddy_chunk (set_order (order c));;
            page_clear_flag buddy_chunk PG_allocated;;
            b ← read_page buddy_chunk;
            list_op (list_add (PNode buddy_chunk) (FLHead (order b)));;
            nr_free_add (order b) 1;;
            split_chunk fuel' ord chunk
        end
  end.

Fixpoint merge_chunk (fuel : nat) (chunk : Z) : M phys_mem_pool Z :=
  match fuel with
  | O => halt OutOfFuel
  | S fuel' =>
      p ← read_page chunk;
      if bool_decide (order p = BUDDY_MAX_ORDER - 1) then mret chunk
      else
        ob ← get_buddy_chunk chunk;
        match ob with
        | None => mret chunk
        | Some buddy_chunk =>
            alloc ← page_check_flag buddy_chunk PG_allocated;
            if alloc : bool then mret chunk
            else
              b ← read_page buddy_chunk;
              c ← read_page chunk;
              if bool_decide (order b ≠ order c) then mret chunk
              else
                list_op (list_del (PNode buddy_chunk));;
                nr_free_add (order b) (-1);;
                upd_page buddy_chunk (λ p, set_order (order p + 1) p);;
                upd_page chunk (λ p, set_order (order p + 1) p);;
                merge_chunk fuel' (if bool_decide (chunk > buddy_chunk)
                                   then buddy_chunk else chunk)
        end
  end.

Definition max_order_fuel : nat := Z.to_nat BUDDY_MAX_ORDER.

(** ** The log of the latest operation *)

Definition prepare_latest_log (ty : log_type) (page dedicated cur : Z) : M phys_mem_pool unit :=
  n ← (λ s, from_opt (nr_free s !! cur) s);
  modify (set_log (LogEntry LOG_DONE ty page dedicated cur n)).

Definition commit_latest_log : M phys_mem_pool unit :=
  modify (λ s, let l := latest_log s in
    set_log (LogEntry LOG_COMMIT (log_ty l) (log_page l) (dedicated_order l)
               (log_cur_order l) (list_cur_num l)) s).

(** ** Allocation *)

(** The search loop [for (cur_order = order; cur_order < BUDDY_MAX_ORDER; ...)]. *)
Fixpoint find_free_chunk (n : nat) (ord cur_order : Z) : M phys_mem_pool (option Z) :=
  match n with
  | O => mret None
  | S n' =>
      e ← list_read (list_empty (FLHead cur_order));
      if e : bool then find_free_chunk n' ord (cur_order + 1)
      else
        nx ← list_read (λ h, rd_next h (FLHead cur_order));
        match nx with
        | PNode page =>
            prepare_latest_log ADD_PAGES page ord cur_order;;
            list_op (list_del (PNode page));;
            nr_free_add cur_order (-1);;
            mret (Some page)
        | _ => halt BadAccess
        end
  end.

(** BUDDY_MAX_ORDER is an unsigned long, so a negative order is refused too. *)
Definition buddy_get_pages (ord : Z) : M phys_mem_pool (option Z) :=
  if bool_decide (wrap_u64 ord >= BUDDY_MAX_ORDER) then mret None
  else
    opage ← find_free_chunk (Z.to_nat (BUDDY_MAX_ORDER - ord)) ord ord;
    r ← match opage with
        | None => mret None
        | Some page =>
            page ← split_chunk max_order_fuel ord page;
            for_up (Z.to_nat (Z.shiftl 1 ord)) 0 (λ i, page_set_flag (page + i) PG_allocated);;
            mret (Some page)
        end;
    commit_latest_log;;
    mret r.

(** ** Release *)

Definition buddy_free_pages (page : Z) : M phys_mem_pool unit :=
  pg ← read_page page;
  for_up (Z.to_nat (Z.shiftl 1 (order pg))) 0 (λ i,
    a ← page_check_flag (page + i) PG_allocated;
    bug_on (negb a);;
    upd_page (page + i) (set_flags 0));;
  page ← merge_chunk max_order_fuel page;
  pg ← read_page page;
  list_op (list_add (PNode page) (FLHead (order pg)));;
  nr_free_add (order pg) 1.

(** ** Initialisation *)

Definition zero_page : page := Page 0 0 0 false 0 0.

(** [memset(start_page, 0, page_num * sizeof(struct page))] *)
Definition clear_page_metadata (i : Z) : M phys_mem_pool unit :=
  modify (λ s, set_heap (<[PNode i := ListNode LNull LNull]> (free_heap s))
                 (set_pages (<[i := zero_page]> (page_metadata s)) s)).

Definition init_buddy (start_addr page_num : Z) (type : page_type) : M phys_mem_pool unit :=
  modify (λ s, Pool start_addr (wrap_u64 (page_num * BUDDY_PAGE_SIZE)) (page_metadata s)
                 (free_heap s) (nr_free s) page_num type (latest_log s));;
  for_up (Z.to_nat BUDDY_MAX_ORDER) 0 (λ k,
    modify (λ s, set_nr_free (<[k := 0]> (nr_free s)) s);;
    list_op (init_list_head (FLHead k)));;
  for_up (Z.to_nat page_num) 0 clear_page_metadata;;
  for_up (Z.to_nat page_num) 0 (λ i,
    page_set_flag i PG_allocated;;
    upd_page i (set_order 0);;
    upd_page i (set_pool true);;
    upd_page i (set_page_pair 0));;
  for_up (Z.to_nat page_num) 0 buddy_free_pages.

(** ** Queries *)

Definition get_page_type (i : Z) : M phys_mem_pool page_type :=
  c ← page_check_flag i PG_cached;
  if c : bool then mret DRAM_CACHED_PAGE
  else
    p ← read_page i;
    s ← get_state;
    mret (if pool_set p then pool_ty s else INVALID_PAGE).

(** The size of a chunk is computed in [int] and widened to unsigned long. *)
Definition get_free_mem_size_from_buddy : M phys_mem_pool Z := λ s,
  let step acc k :=
    t ← acc;
    n ← (match nr_free s !! k with Some n => Ret n | None => Halt BadAccess end);
    let current_order_size := wrap_u64 (to_s32 (BUDDY_PAGE_SIZE * to_s32 (Z.shiftl 1 k))) in
    Ret (wrap_u64 (t + n * current_order_size)) in
  match foldl step (Ret 0) (seqZ 0 BUDDY_MAX_ORDER) with
  | Ret t => Ret (t, s)
  | Halt w => Halt w
  end.

(** An unmapped pool: the memory of its list heads exists, nothing else. *)
Definition raw_pool : phys_mem_pool :=
  Pool 0 0 ∅
    (list_to_map ((λ k, (FLHead k, ListNode LNull LNull)) <$> seqZ 0 BUDDY_MAX_ORDER))
    ∅ 0 INVALID_PAGE (LogEntry LOG_INIT ADD_PAGES 0 0 0 0).
