(* ===== verification/BuddyProofs.v ===== *)
(** Correctness of the buddy allocator.

    The abstract state is a tiling: the pool is cut into disjoint aligned
    power-of-two chunks, each free, allocated or in transit; the C state
    reflects a tiling when the page orders, the flags and the free lists say
    the same thing.  Every operation is proved to move from one reflected
    tiling to another, never to reach a BUG, and to keep free buddies merged. *)
From S2P Require Import Prelude Words ListHead Buddy.

Inductive status : Set := Free | Alloc | Float.
#[export] Instance status_eq_dec : EqDecision status.
Proof. solve_decision. Defined.

(** Chunks by the index of their first page. *)
Abbreviation tiles := (gmap Z (status * Z)).

Section tiling.
Context (base N : Z).
Implicit Types (C : tiles) (i j k p : Z) (t : status).

Record tiling C : Prop := {
  t_wf i t k : C !! i = Some (t, k) →
    0 ≤ k < BUDDY_MAX_ORDER ∧ 0 ≤ i ∧ i + 2 ^ k ≤ N ∧ aligned (base + i) k;
  t_disj i t k j t' k' : C !! i = Some (t, k) → C !! j = Some (t', k') →
    i < j + 2 ^ k' → j < i + 2 ^ k → i = j;
  t_cover p : 0 ≤ p < N → ∃ i t k, C !! i = Some (t, k) ∧ i ≤ p < i + 2 ^ k;
  t_coal i j k : C !! i = Some (Free, k) → C !! j = Some (Free, k) →
    k < BUDDY_MAX_ORDER - 1 → base + j ≠ buddy (base + i) k
}.

(** The index of the buddy of chunk [i] of order [k]. *)
Definition buddy_idx i k : Z := buddy (base + i) k - base.

Lemma buddy_idx_cases C i t k :
  tiling C → C !! i = Some (t, k) →
  (buddy_idx i k = i + 2 ^ k ∧ aligned (base + i) (k + 1)) ∨
  (buddy_idx i k = i - 2 ^ k ∧ aligned (base + i - 2 ^ k) (k + 1)).
Proof.
  intros HT Hi. destruct (t_wf _ HT _ _ _ Hi) as (?&?&?&Ha).
  unfold buddy_idx. destruct (buddy_cases (base + i) k ltac:(lia) Ha) as [[-> ?]|[-> ?]];
    [left|right]; (split; [lia|done]).
Qed.

(** The first page of a buddy in range starts a chunk, of the same order or
    a smaller one. *)
Lemma tiling_buddy C i t k :
  tiling C → C !! i = Some (t, k) →
  0 ≤ buddy_idx i k → buddy_idx i k + 2 ^ k ≤ N →
  ∃ t' k', C !! buddy_idx i k = Some (t', k') ∧ k' ≤ k.
Proof.
  intros HT Hi H0 HN. destruct (t_wf _ HT _ _ _ Hi) as (Hk&?&?&Ha).
  pose proof (pow2_pos k ltac:(lia)).
  destruct (t_cover _ HT (buddy_idx i k)) as (f&t'&k'&Hf&Hcov); [lia|].
  destruct (t_wf _ HT _ _ _ Hf) as (Hk'&?&?&Haf).
  pose proof (pow2_pos k' ltac:(lia)).
  assert (aligned (base + buddy_idx i k) k) as Hab.
  { unfold buddy_idx. replace (base + _) with (buddy (base + i) k) by lia.
    apply buddy_aligned; [lia|done]. }
  destruct (decide (k < k')) as [Hlt|Hge].
  - exfalso.
    assert (f = i); [|subst f; simplify_eq; lia].
    assert (∃ y, aligned (base + y) (k + 1) ∧
      y ≤ i ∧ i + 2 ^ k ≤ y + 2 ^ (k + 1) ∧
      y ≤ buddy_idx i k ∧ buddy_idx i k + 2 ^ k ≤ y + 2 ^ (k + 1)) as (y&Hy&?&?&?&?).
    { rewrite Z.pow_add_r by lia. change (2 ^ 1) with 2.
      destruct (buddy_idx_cases C i t k HT Hi) as [[-> Hal]|[-> Hal]].
      - exists i. split_and!; [done|lia..].
      - exists (i - 2 ^ k). replace (base + (i - 2 ^ k)) with (base + i - 2 ^ k) by lia.
        split_and!; [done|lia..]. }
    destruct (aligned_nested (base + y) (base + f) (k + 1) k'); [lia|done|done|lia..|].
    eapply (t_disj _ HT f _ k' i _ k); [done..|lia|lia].
  - exists t', k'. split; [|lia].
    assert (base + f = base + buddy_idx i k) as Heq.
    { eapply (aligned_eq _ _ k'); [lia|done|eapply aligned_le; [|done]; lia|lia..]. }
    by replace (buddy_idx i k) with f by lia.
Qed.

(** Changing the status of a chunk. *)
Lemma tiling_status C i t t' k :
  tiling C → C !! i = Some (t, k) →
  (t' = Free → k < BUDDY_MAX_ORDER - 1 → C !! buddy_idx i k ≠ Some (Free, k)) →
  tiling (<[i := (t', k)]> C).
Proof.
  intros HT Hi Hb.
  assert (∀ j u m, <[i := (t', k)]> C !! j = Some (u, m) → ∃ u', C !! j = Some (u', m)) as Hlk.
  { intros j u m. rewrite lookup_insert. case_decide; naive_solver. }
  split.
  - intros j u m [u' Hj]%Hlk. by eapply (t_wf _ HT).
  - intros j u m j' u' m' [? Hj]%Hlk [? Hj']%Hlk. by eapply (t_disj _ HT).
  - intros p Hp. destruct (t_cover _ HT p Hp) as (j&u&m&Hj&?).
    destruct (decide (i = j)) as [<-|]; simplify_eq.
    + exists i, t', k. by rewrite lookup_insert_eq.
    + exists j, u, m. by rewrite lookup_insert_ne.
  - intros j j' m. rewrite !lookup_insert. intros H1 H2 Hm He.
    assert (buddy (base + j') m = base + j) as He' by (rewrite He; apply buddy_invol).
    destruct (decide (i = j)) as [<-|]; destruct (decide (i = j')) as [<-|].
    + simplify_eq. unfold buddy in He. apply (f_equal (λ x, Z.lxor (base + i) x)) in He.
      rewrite <-Z.lxor_assoc, Z.lxor_nilpotent, Z.lxor_0_l in He.
      pose proof (pow2_pos m). pose proof (t_wf _ HT _ _ _ Hi). lia.
    + simplify_eq. destruct Hb; [done..|]. unfold buddy_idx. rewrite <-He.
      by replace (base + j' - base) with j' by lia.
    + simplify_eq. destruct Hb; [done..|]. unfold buddy_idx. rewrite He'.
      by replace (base + j - base) with j by lia.
    + by eapply (t_coal _ HT j j' m).
Qed.

(** Cutting a chunk in two. *)
Lemma tiling_split C i k :
  tiling C → C !! i = Some (Float, k + 1) → 0 ≤ k →
  tiling (<[i := (Float, k)]> (<[i + 2 ^ k := (Free, k)]> C)) ∧
  C !! (i + 2 ^ k) = None ∧ buddy_idx i k = i + 2 ^ k.
Proof.
  intros HT Hi Hk. destruct (t_wf _ HT _ _ _ Hi) as (?&?&HN&Ha).
  pose proof (pow2_pos k Hk).
  assert (2 ^ (k + 1) = 2 * 2 ^ k) as Hp by (rewrite Z.pow_add_r by lia; lia).
  assert (aligned (base + i) k) as Hak by (eapply aligned_le; [|done]; lia).
  assert (buddy (base + i) k = base + i + 2 ^ k) as Hbud.
  { destruct (buddy_cases _ _ Hk Hak) as [[-> _]|[_ Ha']]; [done|].
    exfalso. destruct Ha as [a Ha]. destruct Ha' as [b Hb].
    rewrite Hp in Ha, Hb. assert (2 * (a - b) = 1); [|lia].
    apply (Z.mul_cancel_r _ _ (2 ^ k)); lia. }
  assert (∀ j u m, C !! j = Some (u, m) → i < j + 2 ^ m → j < i + 2 ^ (k + 1) → j = i) as Hov.
  { intros j u m Hj ??. symmetry. by eapply (t_disj _ HT). }
  assert (C !! (i + 2 ^ k) = None) as Hnone.
  { destruct (C !! (i + 2 ^ k)) as [[u m]|] eqn:Hj; [|done]. exfalso.
    destruct (t_wf _ HT _ _ _ Hj) as (?&?&?&?). pose proof (pow2_pos m ltac:(lia)).
    pose proof (Hov _ _ _ Hj ltac:(lia) ltac:(lia)). lia. }
  split; [|split; [done|unfold buddy_idx; lia]].
  assert (∀ y v, <[i := (Float, k)]> (<[i + 2 ^ k := (Free, k)]> C) !! y = Some v →
    (y = i ∧ v = (Float, k)) ∨ (y = i + 2 ^ k ∧ v = (Free, k)) ∨
    (y ≠ i ∧ C !! y = Some v)) as Hlk.
  { intros y v. rewrite lookup_insert. case_decide; [intros [= <-]; by left|].
    rewrite lookup_insert. case_decide; [intros [= <-]; naive_solver|].
    naive_solver. }
  split.
  - intros j u m [[-> [= -> ->]]|[[-> [= -> ->]]|[_ Hj]]]%Hlk; [..|by eapply (t_wf _ HT)].
    + split_and!; [lia..|done].
    + split_and!; [lia..|]. rewrite Z.add_assoc, <-Hbud. by apply buddy_aligned.
  - intros j u m j' u' m' [[-> [= -> ->]]|[[-> [= -> ->]]|[? Hj]]]%Hlk
      [[-> [= -> ->]]|[[-> [= -> ->]]|[? Hj']]]%Hlk ??; try lia.
    + pose proof (Hov _ _ _ Hj'). lia.
    + pose proof (Hov _ _ _ Hj'). lia.
    + pose proof (Hov _ _ _ Hj). lia.
    + pose proof (Hov _ _ _ Hj). lia.
    + by eapply (t_disj _ HT).
  - intros p Hpn. destruct (t_cover _ HT p Hpn) as (j&u&m&Hj&Hc).
    destruct (decide (j = i)) as [->|]; simplify_eq.
    + destruct (decide (p < i + 2 ^ k)).
      * exists i, Float, k. rewrite lookup_insert_eq. split; [done|lia].
      * exists (i + 2 ^ k), Free, k. rewrite lookup_insert_ne by lia.
        rewrite lookup_insert_eq. split; [done|lia].
    + exists j, u, m. rewrite !lookup_insert_ne; [done| |done].
      intros <-. by simplify_eq.
  - intros j j' m Q1 Q2 Hm He.
    assert (base + j = buddy (base + j') m) as He' by (rewrite He; by rewrite buddy_invol).
    pose proof (buddy_invol (base + i) k) as Hinv. rewrite Hbud, <-Z.add_assoc in Hinv.
    destruct (Hlk _ _ Q1) as [[_ [=]]|[[? E1]|[? Hj]]],
      (Hlk _ _ Q2) as [[_ [=]]|[[? E2]|[? Hj']]]; simplify_eq; try lia.
    by eapply (t_coal _ HT j j' m).
Qed.

(** Joining a chunk in transit with its free buddy. *)
Lemma tiling_merge C i k :
  tiling C → C !! i = Some (Float, k) → C !! buddy_idx i k = Some (Free, k) →
  k < BUDDY_MAX_ORDER - 1 →
  tiling (<[i `min` buddy_idx i k := (Float, k + 1)]>
            (delete (i `max` buddy_idx i k) C)).
Proof.
  intros HT Hi Hb Hk. set (j := buddy_idx i k) in *.
  destruct (t_wf _ HT _ _ _ Hi) as (Hk0&?&?&Ha).
  destruct (t_wf _ HT _ _ _ Hb) as (_&?&?&Hab).
  pose proof (pow2_pos k ltac:(lia)).
  assert (2 ^ (k + 1) = 2 * 2 ^ k) as Hp by (rewrite Z.pow_add_r by lia; lia).
  assert ((i `max` j = i `min` j + 2 ^ k) ∧ aligned (base + i `min` j) (k + 1)) as [Hmm Hal].
  { destruct (buddy_idx_cases C i _ k HT Hi) as [[He Hx]|[He Hx]]; fold j in He.
    - split; [lia|]. by rewrite Z.min_l by lia.
    - split; [lia|]. rewrite Z.min_r by lia.
      by replace (base + j) with (base + i - 2 ^ k) by lia. }
  assert (∀ y u m, C !! y = Some (u, m) → y ≠ i → y ≠ j →
    y + 2 ^ m ≤ i `min` j ∨ i `min` j + 2 ^ (k + 1) ≤ y) as Hov.
  { intros y u m Hy Hyi Hyj.
    destruct (decide (y < i + 2 ^ k ∧ i < y + 2 ^ m)) as [[??]|];
      [exfalso; apply Hyi; by eapply (t_disj _ HT)|].
    destruct (decide (y < j + 2 ^ k ∧ j < y + 2 ^ m)) as [[??]|];
      [exfalso; apply Hyj; by eapply (t_disj _ HT)|].
    destruct (t_wf _ HT _ _ _ Hy) as (?&?&?&?). pose proof (pow2_pos m ltac:(lia)). lia. }
  assert (∀ y v, <[i `min` j := (Float, k + 1)]> (delete (i `max` j) C) !! y = Some v →
    (y = i `min` j ∧ v = (Float, k + 1)) ∨ (y ≠ i ∧ y ≠ j ∧ C !! y = Some v)) as Hlk.
  { intros y v. rewrite lookup_insert. case_decide; [intros [= <-]; by left|].
    rewrite lookup_delete. case_decide; [done|]. right. split_and!; [lia|lia|done]. }
  split.
  - intros y u m [[-> [= -> ->]]|(_&_&Hy)]%Hlk; [|by eapply (t_wf _ HT)].
    split_and!; [lia..|done].
  - intros y u m y' u' m' [[-> [= -> ->]]|(?&?&Hy)]%Hlk [[-> [= -> ->]]|(?&?&Hy')]%Hlk ??; [done| | |].
    + destruct (Hov _ _ _ Hy'); [done..|lia|lia].
    + destruct (Hov _ _ _ Hy); [done..|lia|lia].
    + by eapply (t_disj _ HT).
  - intros p Hpn. destruct (t_cover _ HT p Hpn) as (y&u&m&Hy&Hc).
    destruct (decide (y = i ∨ y = j)) as [Hyij|Hn].
    + exists (i `min` j), Float, (k + 1). rewrite lookup_insert_eq. split; [done|].
      destruct Hyij as [->| ->]; simplify_eq; lia.
    + exists y, u, m. rewrite lookup_insert_ne, lookup_delete_ne by lia. done.
  - intros y y' m [[_ [=]]|(?&?&Hy)]%Hlk [[_ [=]]|(?&?&Hy')]%Hlk.
    by eapply (t_coal _ HT).
Qed.
End tiling.

(** ** The concrete state reflects a tiling *)

Section reflect.
Context (base N : Z).
Implicit Types (C : tiles) (s : phys_mem_pool) (h : gmap lnode (list_head lnode))
  (nf : gmap Z Z) (pm : gmap Z page) (i j k q : Z) (t : status).

(** Where the pool lies: it starts on a page boundary and ends below the
    top of the address space with one maximal chunk to spare. *)
Definition geometry s : Prop :=
  pool_start_addr s = base * BUDDY_PAGE_SIZE ∧ pool_mem_size s = N * BUDDY_PAGE_SIZE ∧
  0 ≤ base ∧ 0 ≤ N ∧ (base + N + 2 ^ 19) * BUDDY_PAGE_SIZE ≤ 2 ^ 64.

Record pages_ok pm C : Prop := {
  po_exists i : 0 ≤ i < N → ∃ p, pm !! i = Some p ∧ pool_set p = true;
  po_order i t k : C !! i = Some (t, k) → ∃ p, pm !! i = Some p ∧ order p = k;
  po_flag i t k q : C !! i = Some (t, k) → i ≤ q < i + 2 ^ k →
    ∃ p, pm !! q = Some p ∧ Z.testbit (flags p) 0 = bool_decide (t = Alloc)
}.

Record lists_ok h nf (V : gmap lnode (list lnode)) C : Prop := {
  lo_rep : Rep h V;
  lo_heads k : 0 ≤ k < BUDDY_MAX_ORDER → ∃ xs : list Z,
    V !! FLHead k = Some (PNode <$> xs) ∧ nf !! k = Some (Z.of_nat (length xs)) ∧
    ∀ i, i ∈ xs ↔ C !! i = Some (Free, k);
  lo_only hd xs : V !! hd = Some xs → ∃ k, 0 ≤ k < BUDDY_MAX_ORDER ∧ hd = FLHead k
}.

Record inv s C : Prop := {
  inv_geo : geometry s;
  inv_tiling : tiling base N C;
  inv_pages : pages_ok (page_metadata s) C;
  inv_lists : ∃ V, lists_ok (free_heap s) (nr_free s) V C;
  inv_nodes i : 0 ≤ i < N → is_Some (free_heap s !! PNode i)
}.

(** *** Free lists *)

Lemma lists_ok_ext h nf V C C' :
  (∀ i k, C !! i = Some (Free, k) ↔ C' !! i = Some (Free, k)) →
  lists_ok h nf V C → lists_ok h nf V C'.
Proof.
  intros HC [Hr Hh Ho]. split; [done| |done].
  intros k Hk. destruct (Hh k Hk) as (xs&?&?&Hx). exists xs. split_and!; [done..|].
  intros i. by rewrite Hx.
Qed.

Lemma lists_on_list h nf V C i :
  lists_ok h nf V C → on_list V (PNode i) → ∃ k, C !! i = Some (Free, k).
Proof.
  intros [Hr Hh Ho] (hd&xs&Hhd&Hi). destruct (Ho _ _ Hhd) as (k&Hk&->).
  destruct (Hh k Hk) as (ys&Hy&_&Hx). simplify_eq. exists k. apply Hx.
  apply elem_of_cons in Hi as [?|Hi]; [done|].
  by apply list_elem_of_fmap in Hi as (?&[= ->]&?).
Qed.

Lemma lists_NoDup h nf V C k xs :
  lists_ok h nf V C → V !! FLHead k = Some (PNode <$> xs) → NoDup xs.
Proof.
  intros [Hr _ _] Hv. destruct (rep_list _ _ Hr _ _ Hv) as [_ Hnd].
  apply NoDup_cons in Hnd as [_ Hnd]. by eapply NoDup_fmap_1.
Qed.

Lemma lists_length h nf V C k xs :
  tiling base N C → lists_ok h nf V C → 0 ≤ k < BUDDY_MAX_ORDER →
  V !! FLHead k = Some (PNode <$> xs) → Z.of_nat (length xs) ≤ Z.max 0 N.
Proof.
  intros HT HL Hk Hv. pose proof (lists_NoDup _ _ _ _ _ _ HL Hv) as Hnd.
  destruct (lo_heads _ _ _ _ HL k Hk) as (ys&Hy&_&Hx). rewrite Hv in Hy.
  apply (inj Some), list_fmap_eq_inj in Hy; [subst ys|apply _].
  assert (xs ⊆+ seqZ 0 N) as Hs.
  { apply NoDup_submseteq; [done|]. intros i Hi%Hx. apply elem_of_seqZ.
    destruct (t_wf _ _ _ HT _ _ _ Hi) as (?&?&?&_). pose proof (pow2_pos k). lia. }
  apply submseteq_length in Hs. rewrite length_seqZ in Hs. lia.
Qed.

Lemma lists_take h nf V C i k t' k' :
  lists_ok h nf V C → C !! i = Some (Free, k) → 0 ≤ k < BUDDY_MAX_ORDER → t' ≠ Free →
  ∃ h' V' n, list_del (PNode i) h = Ret h' ∧ dom h' = dom h ∧ nf !! k = Some n ∧ 1 ≤ n ∧
    lists_ok h' (<[k := n - 1]> nf) V' (<[i := (t', k')]> C).
Proof.
  intros HL Hi Hk Ht. pose proof HL as [Hr Hh Ho].
  destruct (Hh k Hk) as (xs&Hv&Hn&Hx).
  pose proof (lists_NoDup _ _ _ _ _ _ HL Hv) as Hnd.
  apply Hx in Hi as Hin. apply list_elem_of_split in Hin as (l1&l2&->).
  rewrite fmap_app, fmap_cons in Hv.
  destruct (list_del_rep _ _ _ _ _ _ Hr Hv) as (h'&Hdel&Hdom&Hr').
  exists h', (<[FLHead k := PNode <$> (l1 ++ l2)]> V), (Z.of_nat (length (l1 ++ i :: l2))).
  rewrite length_app in *. simpl in *.
  split_and!; [done|done|done|lia|]. split; [by rewrite fmap_app| |].
  - intros m Hm. destruct (decide (m = k)) as [->|Hne].
    + exists (l1 ++ l2). rewrite !lookup_insert_eq, length_app. split_and!; [done|f_equal; lia|].
      intros j. rewrite lookup_insert. case_decide; [subst j|].
      * apply NoDup_app in Hnd as (?&Hd&[? ?]%NoDup_cons).
        split; [|naive_solver]. set_solver.
      * rewrite <-Hx. set_solver.
    + destruct (Hh m Hm) as (ys&?&?&Hy). exists ys.
      rewrite !lookup_insert_ne by congruence. split_and!; [done..|].
      intros j. rewrite lookup_insert. case_decide; [subst j|done].
      rewrite Hy. naive_solver.
  - intros hd ys. rewrite lookup_insert. case_decide; [subst; eauto|apply Ho].
Qed.

Lemma lists_put h nf V C i k :
  lists_ok h nf V C → (∀ m, C !! i ≠ Some (Free, m)) → 0 ≤ k < BUDDY_MAX_ORDER →
  is_Some (h !! PNode i) →
  ∃ h' V' n, list_add (PNode i) (FLHead k) h = Ret h' ∧ dom h' = dom h ∧ nf !! k = Some n ∧
    (∃ xs, V !! FLHead k = Some (PNode <$> xs) ∧ n = Z.of_nat (length xs)) ∧
    lists_ok h' (<[k := n + 1]> nf) V' (<[i := (Free, k)]> C).
Proof.
  intros HL Hi Hk Hs. pose proof HL as [Hr Hh Ho].
  destruct (Hh k Hk) as (xs&Hv&Hn&Hx).
  destruct (list_add_rep _ _ _ _ (PNode i) Hr Hv Hs) as (h'&Hadd&Hdom&Hr').
  { intros Hon. destruct (lists_on_list _ _ _ _ _ HL Hon) as [m Hm]. by apply (Hi m). }
  exists h', (<[FLHead k := PNode <$> (i :: xs)]> V), (Z.of_nat (length xs)).
  split_and!; [done|done|done|eauto|]. split; [done| |].
  - intros m Hm. destruct (decide (m = k)) as [->|Hne].
    + exists (i :: xs). rewrite !lookup_insert_eq. split_and!; [done|f_equal; simpl; lia|].
      intros j. rewrite lookup_insert, elem_of_cons. case_decide; [subst j|].
      * naive_solver.
      * rewrite <-Hx. naive_solver.
    + destruct (Hh m Hm) as (ys&?&?&Hy). exists ys.
      rewrite !lookup_insert_ne by congruence. split_and!; [done..|].
      intros j. rewrite lookup_insert. case_decide; [subst j|done].
      rewrite Hy. split; [intros E; by destruct (Hi m)|naive_solver].
  - intros hd ys. rewrite lookup_insert. case_decide; [subst; eauto|apply Ho].
Qed.
End reflect.

(** ** Rules for the primitive operations *)

Section prim.
Implicit Types (s : phys_mem_pool) (i k : Z) (p : page).

Lemma wp_read_page i p s Q :
  page_metadata s !! i = Some p → Q p s → wp (read_page i) Q s.
Proof. unfold wp, read_page, from_opt. by intros ->. Qed.

Lemma wp_upd_page i f p s (Q : unit → phys_mem_pool → Prop) :
  page_metadata s !! i = Some p →
  Q tt (set_pages (<[i := f p]> (page_metadata s)) s) → wp (upd_page i f) Q s.
Proof.
  intros Hp HQ. unfold upd_page. rewrite wp_bind. by eapply wp_read_page.
Qed.

Lemma wp_list_op f h s (Q : unit → phys_mem_pool → Prop) :
  f (free_heap s) = Ret h → Q tt (set_heap h s) → wp (list_op f) Q s.
Proof. unfold wp, list_op. by intros ->. Qed.

Lemma wp_list_read {A} f (a : A) s Q :
  f (free_heap s) = Ret a → Q a s → wp (list_read f) Q s.
Proof. unfold wp, list_read. by intros ->. Qed.

Lemma wp_nr_free_add k d n s (Q : unit → phys_mem_pool → Prop) :
  nr_free s !! k = Some n → 0 ≤ n + d < 2 ^ 64 →
  Q tt (set_nr_free (<[k := n + d]> (nr_free s)) s) → wp (nr_free_add k d) Q s.
Proof.
  intros Hn Hb HQ. unfold nr_free_add. rewrite wp_bind. unfold wp at 1, from_opt.
  rewrite Hn, wp_modify, wrap_u64_small by done. done.
Qed.

Lemma land_bit_testbit x n : 0 ≤ n →
  negb (bool_decide (Z.land x (Z.shiftl 1 n) = 0)) = Z.testbit x n.
Proof.
  intros Hn. rewrite Z.shiftl_1_l. destruct (Z.testbit x n) eqn:Hb.
  - rewrite bool_decide_eq_false_2; [done|]. intros Hz.
    apply (f_equal (λ y, Z.testbit y n)) in Hz.
    rewrite Z.land_spec, Z.pow2_bits_true, Hb, Z.bits_0 in Hz by done. done.
  - rewrite bool_decide_eq_true_2; [done|].
    apply Z.bits_inj'. intros m Hm. rewrite Z.land_spec, Z.pow2_bits_eqb, Z.bits_0 by lia.
    destruct (Z.eqb_spec n m) as [<-|]; [by rewrite Hb|by rewrite andb_false_r].
Qed.

Lemma wp_page_check_flag i flag p s Q :
  page_metadata s !! i = Some p → 0 ≤ flag < PG_flagnum →
  Q (Z.testbit (flags p) flag) s → wp (page_check_flag i flag) Q s.
Proof.
  intros Hp Hf HQ. unfold page_check_flag. rewrite wp_bind.
  apply wp_bug_on; [by apply bool_decide_eq_false_2; lia|].
  rewrite wp_bind. eapply wp_read_page; [done|]. rewrite wp_ret.
  by rewrite land_bit_testbit by lia.
Qed.

Lemma wp_page_set_flag i flag p s (Q : unit → phys_mem_pool → Prop) :
  page_metadata s !! i = Some p → 0 ≤ flag < PG_flagnum →
  Q tt (set_pages (<[i := set_flags (Z.lor (flags p) (Z.shiftl 1 flag)) p]>
                     (page_metadata s)) s) →
  wp (page_set_flag i flag) Q s.
Proof.
  intros Hp Hf HQ. unfold page_set_flag. rewrite wp_bind.
  apply wp_bug_on; [by apply bool_decide_eq_false_2; lia|]. by eapply wp_upd_page.
Qed.

Lemma wp_page_clear_flag i flag p s (Q : unit → phys_mem_pool → Prop) :
  page_metadata s !! i = Some p → 0 ≤ flag < PG_flagnum →
  Q tt (set_pages (<[i := set_flags (Z.land (flags p)
          (wrap_u32 (Z.lnot (Z.shiftl 1 flag)))) p]> (page_metadata s)) s) →
  wp (page_clear_flag i flag) Q s.
Proof.
  intros Hp Hf HQ. unfold page_clear_flag. rewrite wp_bind.
  apply wp_bug_on; [by apply bool_decide_eq_false_2; lia|]. by eapply wp_upd_page.
Qed.

Lemma clear_alloc_bit f : Z.testbit (Z.land f (wrap_u32 (Z.lnot (Z.shiftl 1 PG_allocated)))) 0 = false.
Proof. rewrite Z.land_spec. change (Z.testbit (wrap_u32 _) 0) with false. apply andb_false_r. Qed.

Lemma set_alloc_bit f : Z.testbit (Z.lor f (Z.shiftl 1 PG_allocated)) 0 = true.
Proof. rewrite Z.lor_spec. apply orb_true_r. Qed.
End prim.

Section steps.
Context (base N : Z).
Implicit Types (C : tiles) (s : phys_mem_pool) (pm : gmap Z page) (i j k q : Z) (t : status).

(** The buddy of a chunk is found exactly when it lies in the pool. *)
Lemma wp_get_buddy_chunk s i k p (Q : option Z → phys_mem_pool → Prop) :
  geometry base N s →
  (∀ j, 0 ≤ j < N → ∃ p, page_metadata s !! j = Some p ∧ pool_set p = true) →
  page_metadata s !! i = Some p → order p = k → 0 ≤ k < BUDDY_MAX_ORDER - 1 →
  0 ≤ i → i + 2 ^ k ≤ N → aligned (base + i) k →
  (let b := buddy_idx base i k in
   Q (if bool_decide (0 ≤ b ∧ b + 2 ^ k ≤ N) then Some b else None) s) →
  wp (get_buddy_chunk i) Q s.
Proof.
  intros (Hst&Hsz&Hb0&HN0&Htop) Hex Hp Ho Hk Hi HiN Ha HQ.
  unfold BUDDY_PAGE_SIZE, BUDDY_MAX_ORDER in *.
  pose proof (pow2_pos k ltac:(lia)).
  assert (2 ^ k ≤ 2 ^ 18) by (apply Z.pow_le_mono_r; lia).
  destruct (Hex i) as (p'&Hp'&Hset); [lia|]. rewrite Hp in Hp'. simplify_eq.
  unfold get_buddy_chunk, page_to_virt. wp_seq. eapply wp_read_page; [done|].
  wp_seq. apply wp_bug_on; [by rewrite Hset|].
  wp_seq. rewrite Hst, Hsz. unfold BUDDY_PAGE_SIZE in *.
  rewrite !wrap_u64_small by lia.
  apply wp_bug_on; [apply bool_decide_eq_false_2; lia|].
  wp_seq. eapply wp_read_page; [done|].
  wp_seq. rewrite Hst, Hsz. cbv zeta. set (k := order p') in *.
  assert (Z.lxor (i * 4096 + base * 4096) (wrap_u64 (Z.shiftl 1 (k + BUDDY_PAGE_SIZE_ORDER)))
    = buddy (base + i) k * 4096) as ->.
  { unfold BUDDY_PAGE_SIZE_ORDER. rewrite Z.shiftl_1_l, wrap_u64_small.
    - rewrite <-(buddy_scale _ _ 12) by lia. f_equal. lia.
    - split; [lia|]. apply Z.pow_lt_mono_r; lia. }
  assert (buddy (base + i) k = base + i + 2 ^ k ∨ buddy (base + i) k = base + i - 2 ^ k) as Hbc.
  { destruct (buddy_cases (base + i) k) as [[-> _]|[-> _]]; [lia|done|by left|by right]. }
  unfold buddy_idx in HQ. cbv zeta in HQ.
  rewrite Z.shiftl_1_l, to_s32_small by lia.
  rewrite (wrap_u64_small (base * 4096 + _)) by lia.
  destruct (decide (base ≤ buddy (base + i) k)) as [Hge|Hlt].
  - rewrite (wrap_u64_small (buddy _ _ * _ + _)) by lia.
    rewrite (bool_decide_eq_false_2 (_ < _)) by lia. simpl.
    case_bool_decide as Hgt.
    + rewrite bool_decide_eq_false_2 by lia.
      unfold virt_to_page. wp_seq. rewrite Hst.
      unfold BUDDY_PAGE_SIZE. rewrite wrap_u64_small by lia.
      rewrite <-Z.mul_sub_distr_r, Z.div_mul by lia.
      destruct (Hex (buddy (base + i) k - base)) as (pb&Hpb&Hsb); [lia|].
      eapply wp_read_page; [done|]. wp_seq.
      apply wp_bug_on; [by rewrite Hsb|]. by wp_seq.
    + rewrite bool_decide_eq_true_2 by lia. by wp_seq.
  - rewrite (bool_decide_eq_true_2 (_ < _)) by lia. simpl. wp_seq.
    rewrite bool_decide_eq_false_2 in HQ by lia. done.
Qed.

(** Page metadata after a change that keeps every allocation flag. *)
Lemma pages_ok_change pm pm' C C' :
  pages_ok N pm C →
  (∀ q p, pm !! q = Some p → ∃ p', pm' !! q = Some p' ∧ pool_set p' = pool_set p ∧
     Z.testbit (flags p') 0 = Z.testbit (flags p) 0) →
  (∀ i t k, C' !! i = Some (t, k) → ∃ p, pm' !! i = Some p ∧ order p = k) →
  (∀ i t k q, C' !! i = Some (t, k) → i ≤ q < i + 2 ^ k →
     ∃ j u m, C !! j = Some (u, m) ∧ j ≤ q < j + 2 ^ m ∧ (u = Alloc ↔ t = Alloc)) →
  pages_ok N pm' C'.
Proof.
  intros [He Ho Hf] Hpm Ho' Hcov. split; [|done|].
  - intros i Hi. destruct (He i Hi) as (p&Hp&?).
    destruct (Hpm _ _ Hp) as (p'&?&?&_). exists p'. split; [done|congruence].
  - intros i t k q Hi Hq. destruct (Hcov _ _ _ _ Hi Hq) as (j&u&m&Hj&Hqj&Hut).
    destruct (Hf _ _ _ _ Hj Hqj) as (p&Hp&Hb). destruct (Hpm _ _ Hp) as (p'&?&_&Hb').
    exists p'. split; [done|]. rewrite Hb', Hb. by apply bool_decide_ext.
Qed.

(** Setting the order of a chunk head does not touch flags. *)
Lemma upd_order_flags pm i pi o q p :
  pm !! i = Some pi → pm !! q = Some p →
  ∃ p', <[i := set_order o pi]> pm !! q = Some p' ∧ pool_set p' = pool_set p ∧
    flags p' = flags p.
Proof.
  intros Hi Hq. rewrite lookup_insert. case_decide; [subst|eauto].
  simplify_eq. by eexists.
Qed.

(** What the steps keep: the allocated chunks, and which chunks are in
    transit. *)
Definition keeps (C C' : tiles) : Prop :=
  (∀ j m, C' !! j = Some (Alloc, m) ↔ C !! j = Some (Alloc, m)).
Definition only_float (i : Z) (C : tiles) : Prop :=
  ∀ j m, C !! j = Some (Float, m) → j = i.

(** One halving step of [split_chunk]. *)
Lemma inv_split s C i k pi pb h' nf' :
  inv base N s C → C !! i = Some (Float, k + 1) → 0 ≤ k →
  page_metadata s !! i = Some pi →
  page_metadata s !! (i + 2 ^ k) = Some pb →
  (∃ V, lists_ok h' nf' V (<[i + 2 ^ k := (Free, k)]> C)) →
  dom h' = dom (free_heap s) →
  inv base N
    (set_nr_free nf' (set_heap h' (set_pages
       (<[i + 2 ^ k := set_flags (Z.land (flags pb) (wrap_u32 (Z.lnot (Z.shiftl 1 PG_allocated))))
            (set_order k pb)]>
        (<[i + 2 ^ k := set_order k pb]> (<[i := set_order k pi]> (page_metadata s)))) s)))
    (<[i := (Float, k)]> (<[i + 2 ^ k := (Free, k)]> C)).
Proof.
  intros [Hg HT HP HL HN] Hi Hk Hpi Hpb [V HL'] Hdom.
  destruct (tiling_split _ _ _ _ _ HT Hi Hk) as (HT'&Hnone&Hbud).
  pose proof (pow2_pos k Hk).
  assert (2 ^ (k + 1) = 2 * 2 ^ k) as Hp2 by (rewrite Z.pow_add_r by lia; lia).
  split; simpl; [done|done| | |].
  - rewrite insert_insert_eq. eapply pages_ok_change; [exact HP| | |].
    + intros q p Hq. rewrite lookup_insert. case_decide.
      * subst q. simplify_eq. eexists. split_and!; [done|done|]. cbn [flags set_flags].
        destruct (po_flag _ _ _ HP i Float (k + 1) (i + 2 ^ k) Hi) as (p'&?&Hb); [lia|].
        simplify_eq.
        by rewrite clear_alloc_bit, Hb.
      * destruct (upd_order_flags _ i pi k q p Hpi Hq) as (p'&?&?&Hf).
        exists p'. by rewrite Hf.
    + intros j t m. rewrite lookup_insert. case_decide as Hji.
      * subst j. intros [= <- <-]. rewrite lookup_insert_ne by lia.
        rewrite lookup_insert_eq. by eexists.
      * rewrite lookup_insert. case_decide.
        -- subst j. intros [= <- <-]. rewrite lookup_insert_eq. by eexists.
        -- rewrite !lookup_insert_ne by done. apply (po_order _ _ _ HP).
    + intros j t m q. rewrite lookup_insert. case_decide.
      * subst j. intros [= <- <-] ?. exists i, Float, (k + 1). split; [done|split; [lia|done]].
      * rewrite lookup_insert. case_decide; [|intros; by exists j, t, m].
        subst j. intros [= <- <-] ?. exists i, Float, (k + 1). split; [done|split; [lia|done]].
  - exists V. eapply lists_ok_ext; [|exact HL'].
    intros j m. rewrite (lookup_insert _ i). case_decide; [subst j|done].
    rewrite lookup_insert_ne by lia. naive_solver.
  - intros j Hj. apply elem_of_dom. rewrite Hdom. apply elem_of_dom. by apply HN.
Qed.

Lemma wp_split_chunk fuel ord s C i k :
  inv base N s C → C !! i = Some (Float, k) → 0 ≤ ord ≤ k → only_float i C →
  (Z.to_nat (k - ord) < fuel)%nat →
  wp (split_chunk fuel ord i)
    (λ r s', r = i ∧ ∃ C', inv base N s' C' ∧ C' !! i = Some (Float, ord) ∧
       only_float i C' ∧ keeps C C') s.
Proof.
  revert s C k. induction fuel as [|fuel IH]; intros s C k HI Hi Hord Hfl Hfu; [lia|].
  pose proof HI as [Hg HT HP [V HL] HN].
  destruct (t_wf _ _ _ HT _ _ _ Hi) as (Hk&Hi0&HiN&Ha).
  destruct (po_order _ _ _ HP _ _ _ Hi) as (pi&Hpi&Hopi).
  simpl. wp_seq. eapply wp_read_page; [done|].
  case_bool_decide as Heq; [wp_seq; split; [done|]; exists C; by rewrite <-Heq, Hopi|].
  assert (∃ k', k = k' + 1 ∧ 0 ≤ k') as (k'&->&Hk') by (exists (k - 1); lia).
  pose proof (pow2_pos k' Hk').
  assert (2 ^ (k' + 1) = 2 * 2 ^ k') as Hp2 by (rewrite Z.pow_add_r by lia; lia).
  destruct (tiling_split _ _ _ _ _ HT Hi Hk') as (_&Hnone&Hbud).
  destruct (po_exists _ _ _ HP (i + 2 ^ k')) as (pb&Hpb&Hsb); [lia|].
  wp_seq. eapply wp_upd_page; [done|]. rewrite Hopi.
  replace (k' + 1 - 1) with k' by lia.
  wp_seq. eapply (wp_get_buddy_chunk _ i k' (set_order k' pi)); [done| | | | | | | |].
  { intros j Hj. destruct (po_exists _ _ _ HP j Hj) as (pj&Hpj&?).
    destruct (upd_order_flags _ i pi k' j pj Hpi Hpj) as (p'&?&?&_). exists p'.
    split; [done|congruence]. }
  { apply lookup_insert_eq. }
  { done. }
  { lia. }
  { done. }
  { lia. }
  { eapply aligned_le; [|done]. lia. }
  cbv zeta. rewrite Hbud, bool_decide_eq_true_2 by lia.
  wp_seq. eapply wp_read_page; [apply lookup_insert_eq|].
  wp_seq. eapply wp_upd_page; [simpl; rewrite lookup_insert_ne by lia; done|].
  wp_seq. eapply wp_page_clear_flag; [apply lookup_insert_eq|done|].
  wp_seq. eapply wp_read_page; [apply lookup_insert_eq|]. simpl.
  destruct (lists_put _ _ V C (i + 2 ^ k') k' HL) as (h'&V'&n&Hadd&Hdom&Hn&(xs&Hxs&Hlen)&HL').
  { intros m. by rewrite Hnone. }
  { lia. }
  { apply HN. lia. }
  pose proof (lists_length _ _ _ _ _ _ k' _ HT HL ltac:(lia) Hxs) as Hlen'.
  destruct Hg as (?&?&?&?&Htop). unfold BUDDY_PAGE_SIZE in Htop.
  wp_seq. eapply wp_list_op; [exact Hadd|].
  wp_seq. eapply wp_nr_free_add; [exact Hn|lia|].
  eapply wp_mono.
  - eapply (IH _ (<[i := (Float, k')]> (<[i + 2 ^ k' := (Free, k')]> C)) k').
    + apply (inv_split s C i k' pi pb); eauto.
    + apply lookup_insert_eq.
    + lia.
    + intros j m. rewrite !lookup_insert. repeat case_decide; naive_solver.
    + lia.
  - intros r s' (->&C'&?&?&?&Hkeep). split; [done|]. exists C'. split_and!; [done..|].
    intros j m. rewrite (Hkeep j m), !lookup_insert. repeat case_decide; naive_solver.
Qed.

(** One joining step of [merge_chunk]. *)
Lemma inv_merge s C i k pi pj h' nf' :
  let j := buddy_idx base i k in
  inv base N s C → C !! i = Some (Float, k) → C !! j = Some (Free, k) →
  k < BUDDY_MAX_ORDER - 1 →
  page_metadata s !! i = Some pi → page_metadata s !! j = Some pj →
  (∃ V, lists_ok h' nf' V (<[j := (Float, k)]> C)) →
  dom h' = dom (free_heap s) →
  inv base N
    (set_pages (<[i := set_order (k + 1) pi]>
       (<[j := set_order (k + 1) pj]> (page_metadata s))) (set_nr_free nf' (set_heap h' s)))
    (<[i `min` j := (Float, k + 1)]> (delete (i `max` j) C)).
Proof.
  intros j [Hg HT HP HL HN] Hi Hj Hk Hpi Hpj [V HL'] Hdom.
  pose proof (tiling_merge _ _ _ _ _ HT Hi Hj Hk) as HT'. fold j in HT'.
  assert (i ≠ j) as Hne by (intros <-; simplify_eq).
  split; simpl; [done|done| | |].
  - assert (∀ y v, <[i `min` j := (Float, k + 1)]> (delete (i `max` j) C) !! y = Some v →
      (y = i `min` j ∧ v = (Float, k + 1)) ∨ (y ≠ i ∧ y ≠ j ∧ C !! y = Some v)) as Hlk.
    { intros y v. rewrite lookup_insert. case_decide; [intros [= <-]; by left|].
      rewrite lookup_delete. case_decide; [done|]. right. split_and!; [lia|lia|done]. }
    eapply pages_ok_change; [exact HP| | |].
    + intros q p Hq. destruct (upd_order_flags _ j pj (k + 1) q p Hpj Hq) as (p1&Hp1&Hs1&Hf1).
      destruct (upd_order_flags _ i pi (k + 1) q p1 ltac:(by rewrite lookup_insert_ne) Hp1)
        as (p2&?&?&Hf2). exists p2. rewrite Hf2, Hf1. split_and!; [done|congruence|done].
    + intros y t m [[-> [= -> ->]]|(?&?&Hy)]%Hlk.
      * destruct (decide (i = i `min` j)) as [<-|]; [rewrite lookup_insert_eq; by eexists|].
        rewrite lookup_insert_ne by lia. replace (i `min` j) with j by lia.
        rewrite lookup_insert_eq. by eexists.
      * rewrite !lookup_insert_ne by done. by apply (po_order _ _ _ HP y t).
    + intros y t m q [[-> [= -> ->]]|(?&?&Hy)]%Hlk Hq; [|by exists y, t, m].
      destruct (t_wf _ _ _ HT _ _ _ Hi) as (?&_). pose proof (pow2_pos k ltac:(lia)).
      rewrite Z.pow_add_r in Hq by lia. change (2 ^ 1) with 2 in Hq.
      destruct (decide (i ≤ q < i + 2 ^ k)); [by exists i, Float, k|].
      exists j, Free, k. split; [done|]. split; [|done].
      destruct (buddy_idx_cases _ _ _ _ _ _ HT Hi) as [[He _]|[He _]]; fold j in He; lia.
  - exists V. eapply lists_ok_ext; [|exact HL'].
    intros y m. destruct (decide (y = i)) as [->|]; [|destruct (decide (y = j)) as [->|]].
    + rewrite lookup_insert_ne, Hi by done. rewrite lookup_insert, lookup_delete.
      repeat case_decide; [naive_solver..|lia].
    + rewrite lookup_insert_eq, lookup_insert, lookup_delete.
      repeat case_decide; [naive_solver..|lia].
    + rewrite !lookup_insert_ne, lookup_delete_ne by lia. done.
  - intros y Hy. apply elem_of_dom. rewrite Hdom. apply elem_of_dom. by apply HN.
Qed.

Lemma inv_allocated s C i t k p :
  inv base N s C → C !! i = Some (t, k) → page_metadata s !! i = Some p →
  Z.testbit (flags p) 0 = bool_decide (t = Alloc).
Proof.
  intros HI Hi Hp. destruct (t_wf _ _ _ (inv_tiling _ _ _ _ HI) _ _ _ Hi) as (?&?&?&_).
  pose proof (pow2_pos k ltac:(lia)).
  destruct (po_flag _ _ _ (inv_pages _ _ _ _ HI) _ _ _ i Hi) as (p'&?&?); [lia|].
  by simplify_eq.
Qed.

Lemma wp_merge_chunk fuel s C i k :
  inv base N s C → C !! i = Some (Float, k) → only_float i C →
  (Z.to_nat (BUDDY_MAX_ORDER - 1 - k) < fuel)%nat →
  wp (merge_chunk fuel i)
    (λ r s', ∃ C' m, inv base N s' C' ∧ C' !! r = Some (Float, m) ∧
       only_float r C' ∧ keeps C C' ∧
       (m < BUDDY_MAX_ORDER - 1 → C' !! buddy_idx base r m ≠ Some (Free, m))) s.
Proof.
  revert s C i k. induction fuel as [|fuel IH]; intros s C i k HI Hi Hfl Hfu; [lia|].
  pose proof HI as [Hg HT HP [V HL] HN].
  destruct (t_wf _ _ _ HT _ _ _ Hi) as (Hk&Hi0&HiN&Ha).
  destruct (po_order _ _ _ HP _ _ _ Hi) as (pi&Hpi&Hopi).
  pose proof (pow2_pos k ltac:(lia)).
  assert (∀ s', s' = s → (k < BUDDY_MAX_ORDER - 1 → C !! buddy_idx base i k ≠ Some (Free, k)) →
    ∃ C' m, inv base N s' C' ∧ C' !! i = Some (Float, m) ∧ only_float i C' ∧ keeps C C' ∧
       (m < BUDDY_MAX_ORDER - 1 → C' !! buddy_idx base i m ≠ Some (Free, m))) as Hstop.
  { intros ? -> ?. by exists C, k. }
  simpl. wp_seq. eapply wp_read_page; [done|]. rewrite Hopi.
  case_bool_decide as Hmax; [wp_seq; apply Hstop; [done|lia]|].
  wp_seq. eapply (wp_get_buddy_chunk _ i k pi); [done|by apply HP|done..|lia|done|done|done|].
  cbv zeta. set (j := buddy_idx base i k).
  case_bool_decide as Hrange; [destruct Hrange as [Hj0 HjN]|]; wp_seq.
  2: { apply Hstop; [done|]. intros _ Hj. destruct (t_wf _ _ _ HT _ _ _ Hj) as (?&?&?&_).
       fold j in Hrange. lia. }
  destruct (tiling_buddy _ _ _ _ _ _ HT Hi Hj0 HjN) as (t'&k'&Hj&Hk'). fold j in Hj.
  destruct (po_order _ _ _ HP _ _ _ Hj) as (pj&Hpj&Hopj).
  wp_seq. eapply wp_page_check_flag; [done|done|]. change PG_allocated with 0.
  rewrite (inv_allocated _ _ _ _ _ _ HI Hj Hpj).
  case_bool_decide as Hal; [wp_seq; apply Hstop; [done|intros _; fold j; congruence]|].
  wp_seq. eapply wp_read_page; [done|]. wp_seq. eapply wp_read_page; [done|].
  rewrite Hopi, Hopj. case_bool_decide as Ho; [wp_seq; apply Hstop; [done|intros _; fold j; congruence]|].
  assert (k' = k) as -> by lia. clear Ho.
  assert (t' = Free) as ->.
  { destruct t'; [done|done|]. pose proof (Hfl _ _ Hj). subst j.
    exfalso. destruct (buddy_idx_cases _ _ _ _ _ _ HT Hi) as [[He _]|[He _]]; lia. }
  destruct (lists_take _ _ _ _ j k Float k HL Hj Hk) as (h'&V'&n&Hdel&Hdom&Hn&Hn1&HL'); [done|].
  assert (n < 2 ^ 64).
  { destruct (lo_heads _ _ _ _ HL k Hk) as (xs&Hv&Hn'&_).
    rewrite Hn in Hn'. apply (inj Some) in Hn' as ->.
    pose proof (lists_length _ _ _ _ _ _ k _ HT HL Hk Hv).
    destruct Hg as (?&?&?&?&Htop). unfold BUDDY_PAGE_SIZE in Htop. lia. }
  assert (i ≠ j) as Hne by (intros <-; simplify_eq).
  wp_seq. eapply wp_list_op; [exact Hdel|].
  wp_seq. eapply wp_nr_free_add; [exact Hn|lia|].
  wp_seq. eapply wp_upd_page; [exact Hpj|]. rewrite Hopj.
  wp_seq. eapply wp_upd_page; [simpl; rewrite lookup_insert_ne; [exact Hpi|done]|].
  rewrite Hopi. cbv beta.
  replace (if bool_decide (i > j) then j else i) with (i `min` j) by (case_bool_decide; lia).
  eapply wp_mono.
  - eapply (IH _ (<[i `min` j := (Float, k + 1)]> (delete (i `max` j) C)) _ (k + 1)).
    + apply (inv_merge s C i k pi pj); [done..|lia|done|done|by exists V'|done].
    + apply lookup_insert_eq.
    + intros y m. rewrite lookup_insert, lookup_delete. repeat case_decide; [naive_solver|done|].
      intros Hy%Hfl. lia.
    + lia.
  - intros r s' (C'&m&?&?&?&Hkeep&?). exists C', m. split_and!; [done..| |done].
    intros y u. rewrite (Hkeep y u), lookup_insert, lookup_delete.
    repeat case_decide; [split; [done|]|split; [done|]|done]; intros Hy;
      (destruct (decide (y = i)) as [->|]; [by simplify_eq|]);
      (destruct (decide (y = j)) as [->|]; [by simplify_eq|]); lia.
Qed.

Lemma inv_log s C l : inv base N s C → inv base N (set_log l s) C.
Proof. by intros [????]. Qed.

(** A chunk moves between a free list and transit. *)
Lemma inv_status s C i t t' k h' nf' :
  inv base N s C → C !! i = Some (t, k) → t ≠ Alloc → t' ≠ Alloc →
  (t' = Free → k < BUDDY_MAX_ORDER - 1 → C !! buddy_idx base i k ≠ Some (Free, k)) →
  (∃ V, lists_ok h' nf' V (<[i := (t', k)]> C)) → dom h' = dom (free_heap s) →
  inv base N (set_nr_free nf' (set_heap h' s)) (<[i := (t', k)]> C).
Proof.
  intros [Hg HT HP HL HN] Hi Ht Ht' Hb HL' Hdom.
  split; simpl; [done|by eapply tiling_status| |done|].
  - eapply pages_ok_change; [exact HP|naive_solver| |].
    + intros j u m. rewrite lookup_insert. case_decide; [|apply (po_order _ _ _ HP)].
      intros [= <- <-]; subst j. by apply (po_order _ _ _ HP _ t).
    + intros j u m q. rewrite lookup_insert. case_decide; [|intros; by exists j, u, m].
      intros [= <- <-] ?; subst j. by exists i, t, k.
  - intros j Hj. apply elem_of_dom. rewrite Hdom. apply elem_of_dom. by apply HN.
Qed.

(** [pm'] is [pm] with the allocation flag of pages [lo .. lo+n-1] set to [b]. *)
Definition marked pm pm' (lo n : Z) (b : bool) : Prop :=
  ∀ q p, pm !! q = Some p → ∃ p', pm' !! q = Some p' ∧ pool_set p' = pool_set p ∧
    order p' = order p ∧
    Z.testbit (flags p') 0 = if bool_decide (lo ≤ q < lo + n) then b else Z.testbit (flags p) 0.

Lemma marked_0 pm lo b : marked pm pm lo 0 b.
Proof. intros q p Hq. exists p. by rewrite bool_decide_eq_false_2 by lia. Qed.

Lemma marked_step pm pm' lo n b q p f :
  marked pm pm' lo n b → 0 ≤ n → q = lo + n → pm' !! q = Some p → Z.testbit f 0 = b →
  marked pm (<[q := set_flags f p]> pm') lo (n + 1) b.
Proof.
  intros Hm Hn -> Hp Hf y py Hy. destruct (Hm y py Hy) as (py'&Hpy&Hs&Ho&Hb).
  destruct (decide (lo + n = y)) as [<-|Hne].
  - rewrite lookup_insert_eq. simplify_eq. eexists. split_and!; [done|done|done|].
    rewrite bool_decide_eq_true_2 by lia. done.
  - rewrite lookup_insert_ne by done. exists py'. split_and!; [done..|]. rewrite Hb.
    destruct (decide (lo ≤ y < lo + n)).
    + by rewrite !bool_decide_eq_true_2 by lia.
    + by rewrite !bool_decide_eq_false_2 by lia.
Qed.

Lemma inv_mark s C i t t' k pm' :
  inv base N s C → C !! i = Some (t, k) → t ≠ Free → t' ≠ Free →
  marked (page_metadata s) pm' i (2 ^ k) (bool_decide (t' = Alloc)) →
  inv base N (set_pages pm' s) (<[i := (t', k)]> C).
Proof.
  intros [Hg HT HP [V HL] HN] Hi Ht Ht' Hm.
  split; simpl; [done|by eapply tiling_status| | |done].
  - split.
    + intros j Hj. destruct (po_exists _ _ _ HP j Hj) as (p&Hp&?).
      destruct (Hm _ _ Hp) as (p'&?&?&_). exists p'. split; [done|congruence].
    + intros j u m Hj. assert (∃ u', C !! j = Some (u', m)) as [u' Hj'].
      { destruct (decide (i = j)) as [<-|]; [rewrite lookup_insert_eq in Hj|
          rewrite lookup_insert_ne in Hj by done]; naive_solver. }
      destruct (po_order _ _ _ HP _ _ _ Hj') as (p&Hp&<-).
      destruct (Hm _ _ Hp) as (p'&?&_&?&_). eauto.
    + intros j u m q Hj Hq. destruct (decide (i = j)) as [<-|Heq].
      * rewrite lookup_insert_eq in Hj. injection Hj as <- <-.
        destruct (po_flag _ _ _ HP _ _ _ _ Hi Hq) as (p&Hp&_).
        destruct (Hm _ _ Hp) as (p'&?&_&_&Hb). exists p'. split; [done|].
        by rewrite Hb, bool_decide_eq_true_2.
      * rewrite lookup_insert_ne in Hj by done.
        destruct (po_flag _ _ _ HP _ _ _ _ Hj Hq) as (p&Hp&Hpb).
        destruct (Hm _ _ Hp) as (p'&?&_&_&Hb). exists p'. split; [done|].
        rewrite Hb, bool_decide_eq_false_2; [done|]. intros ?.
        apply Heq. eapply (t_disj _ _ _ HT); [exact Hi|exact Hj|lia..].
  - exists V. eapply lists_ok_ext; [|exact HL].
    intros j m. destruct (decide (i = j)) as [<-|].
    + rewrite lookup_insert_eq, Hi. split; congruence.
    + by rewrite lookup_insert_ne.
Qed.

(** *** The two marking loops *)

Lemma wp_set_allocated s C i k :
  inv base N s C → C !! i = Some (Float, k) →
  wp (for_up (Z.to_nat (Z.shiftl 1 k)) 0 (λ n, page_set_flag (i + n) PG_allocated))
    (λ _ s', inv base N s' (<[i := (Alloc, k)]> C)) s.
Proof.
  intros HI Hi. destruct (t_wf _ _ _ (inv_tiling _ _ _ _ HI) _ _ _ Hi) as (?&?&?&_).
  pose proof (pow2_pos k ltac:(lia)). rewrite Z.shiftl_1_l.
  eapply wp_mono.
  - apply (wp_for_up (λ n s', ∃ pm', s' = set_pages pm' s ∧
      marked (page_metadata s) pm' i n true)).
    + exists (page_metadata s). split; [by destruct s|apply marked_0].
    + intros n s' Hn (pm'&->&Hm).
      destruct (po_exists _ _ _ (inv_pages _ _ _ _ HI) (i + n)) as (p&Hp&_); [lia|].
      destruct (Hm _ _ Hp) as (p'&Hp'&_).
      eapply wp_page_set_flag; [exact Hp'|done|]. eexists. split; [done|].
      eapply marked_step; [done|lia|done|exact Hp'|apply set_alloc_bit].
  - intros [] s' (pm'&->&Hm). replace (0 + _) with (2 ^ k) in Hm by lia.
    by eapply inv_mark.
Qed.

Lemma wp_clear_allocated s C i k :
  inv base N s C → C !! i = Some (Alloc, k) →
  wp (for_up (Z.to_nat (Z.shiftl 1 k)) 0 (λ n,
        a ← page_check_flag (i + n) PG_allocated;
        bug_on (negb a);;
        upd_page (i + n) (set_flags 0)))
    (λ _ s', inv base N s' (<[i := (Float, k)]> C)) s.
Proof.
  intros HI Hi. destruct (t_wf _ _ _ (inv_tiling _ _ _ _ HI) _ _ _ Hi) as (?&?&?&_).
  pose proof (pow2_pos k ltac:(lia)). rewrite Z.shiftl_1_l.
  eapply wp_mono.
  - apply (wp_for_up (λ n s', ∃ pm', s' = set_pages pm' s ∧
      marked (page_metadata s) pm' i n false)).
    + exists (page_metadata s). split; [by destruct s|apply marked_0].
    + intros n s' Hn (pm'&->&Hm).
      destruct (po_flag _ _ _ (inv_pages _ _ _ _ HI) _ _ _ (i + n) Hi) as (p&Hp&Hb); [lia|].
      destruct (Hm _ _ Hp) as (p'&Hp'&_&_&Hb').
      wp_seq. eapply wp_page_check_flag; [exact Hp'|done|]. change PG_allocated with 0.
      rewrite Hb', bool_decide_eq_false_2, Hb, bool_decide_eq_true_2 by (done || lia).
      wp_seq. apply wp_bug_on; [done|].
      eapply wp_upd_page; [exact Hp'|]. eexists. split; [done|].
      eapply marked_step; [done|lia|done|exact Hp'|done].
  - intros [] s' (pm'&->&Hm). replace (0 + _) with (2 ^ k) in Hm by lia.
    by eapply inv_mark.
Qed.

Lemma wp_find_free_chunk n s C ord cur :
  inv base N s C → 0 ≤ cur → cur + Z.of_nat n = BUDDY_MAX_ORDER →
  wp (find_free_chunk n ord cur)
    (λ r s', match r with
       | None => s' = s ∧ ∀ i k, C !! i = Some (Free, k) → k < cur
       | Some i => ∃ k, C !! i = Some (Free, k) ∧ cur ≤ k ∧
           (∀ j m, C !! j = Some (Free, m) → cur ≤ m → k ≤ m) ∧
           inv base N s' (<[i := (Float, k)]> C)
       end) s.
Proof.
  revert cur. induction n as [|n IH]; intros cur HI Hc Hn.
  - simpl. wp_seq. split; [done|]. intros i k Hi.
    pose proof (t_wf _ _ _ (inv_tiling _ _ _ _ HI) _ _ _ Hi). lia.
  - pose proof HI as [Hg HT HP [V HL] HN]. pose proof HL as [Hr Hh _].
    destruct (Hh cur) as (xs&Hv&Hnf&Hx); [lia|].
    simpl. wp_seq. eapply wp_list_read; [by eapply list_empty_rep|].
    destruct xs as [|i xs]; simpl.
    + eapply wp_mono; [apply (IH (cur + 1)); [done|lia|lia]|].
      assert (∀ i, C !! i ≠ Some (Free, cur)) as Hno.
      { intros i Hi%Hx. set_solver. }
      intros [i|] s'.
      * intros (k&Hi&?&Hmin&?). exists k. split_and!; [done|lia| |done].
        intros j m Hj ?. apply (Hmin j); [done|].
        destruct (decide (m = cur)) as [->|]; [by destruct (Hno j)|lia].
      * intros [-> Hlt]. split; [done|]. intros i k Hi. pose proof (Hlt _ _ Hi).
        destruct (decide (k = cur)) as [->|]; [by destruct (Hno i)|lia].
    + wp_seq. eapply wp_list_read; [by eapply rd_next_rep|]. simpl.
      assert (C !! i = Some (Free, cur)) as Hi by (apply Hx; set_solver).
      destruct (lists_take _ _ _ _ i cur Float cur HL Hi) as (h'&V'&m&Hdel&Hdom&Hm&Hm1&HL');
        [lia|done|]. rewrite Hnf in Hm. injection Hm as <-.
      pose proof (lists_length _ _ _ _ _ _ cur _ HT HL ltac:(lia) Hv).
      destruct Hg as (?&?&?&?&Htop). unfold BUDDY_PAGE_SIZE in Htop.
      unfold prepare_latest_log. wp_seq. unfold wp at 1, from_opt. rewrite Hnf. wp_seq.
      eapply wp_list_op; [exact Hdel|]. wp_seq.
      eapply wp_nr_free_add; [exact Hnf|simpl length in *; lia|]. wp_seq.
      exists cur. split_and!; [done|lia|by intros|].
      eapply inv_status; [by apply inv_log|done..|by exists V'|done].
Qed.
End steps.
