(* ===== verification/BuddySpec.v ===== *)
(** What the buddy allocator promises: the specifications of its interface
    functions, the uniqueness of the merged free-chunk set, and that the fields of
    [struct page] its clients use stay untouched. *)
From S2P Require Import Prelude Words ListHead Buddy BuddyProofs.

(** No chunk is in transit: the state between two operations. *)
Definition settled (C : tiles) : Prop := ∀ i k, C !! i ≠ Some (Float, k).

Lemma keeps_trans C1 C2 C3 : keeps C1 C2 → keeps C2 C3 → keeps C1 C3.
Proof. intros H1 H2 j m. by rewrite (H2 j m), (H1 j m). Qed.

Section ops.
Context (base N : Z).
Implicit Types (s : phys_mem_pool) (C : tiles) (i j k m : Z).

Lemma wp_commit_log s C (Q : unit → phys_mem_pool → Prop) :
  inv base N s C → (∀ s', inv base N s' C → Q tt s') → wp commit_latest_log Q s.
Proof. intros HI HQ. apply HQ. by apply inv_log. Qed.

(** Allocation of [2 ^ ord] pages. *)
Lemma wp_buddy_get_pages s C ord :
  inv base N s C → settled C → 0 ≤ ord < BUDDY_MAX_ORDER →
  wp (buddy_get_pages ord)
    (λ r s', ∃ C', inv base N s' C' ∧ settled C' ∧
       match r with
       | None => C' = C ∧ ∀ i k, C !! i = Some (Free, k) → k < ord
       | Some i => C' !! i = Some (Alloc, ord) ∧
           (∀ k, C !! i ≠ Some (Alloc, k)) ∧
           ∀ j m, j ≠ i → C' !! j = Some (Alloc, m) ↔ C !! j = Some (Alloc, m)
       end) s.
Proof.
  intros HI Hset Hord. unfold buddy_get_pages.
  rewrite wrap_u64_small by (unfold BUDDY_MAX_ORDER in Hord; lia).
  rewrite bool_decide_eq_false_2 by lia. wp_seq.
  eapply wp_mono; [apply (wp_find_free_chunk base N _ s C ord ord); [done|lia|lia]|].
  intros [i|] s1; wp_seq.
  - intros (k&Hi&Hk&_&HI1).
    destruct (t_wf _ _ _ (inv_tiling _ _ _ _ HI) _ _ _ Hi) as (?&_).
    eapply wp_mono.
    { eapply (wp_split_chunk base N _ ord s1 _ i k); [done|apply lookup_insert_eq|lia| |].
      - intros j m. rewrite lookup_insert. case_decide; [done|by intros ?%Hset].
      - unfold max_order_fuel. lia. }
    intros r s2 (->&C2&HI2&Hi2&Hfl&Hk2). wp_seq.
    eapply wp_mono; [by eapply wp_set_allocated|].
    intros [] s3 HI3. wp_seq. eapply wp_commit_log; [done|]. intros s4 HI4. wp_seq.
    exists (<[i := (Alloc, ord)]> C2). split_and!; [done| |by rewrite lookup_insert_eq| |].
    + intros j m. rewrite lookup_insert. case_decide as Heq; [done|].
      intros Hj. by pose proof (Hfl _ _ Hj).
    + intros m Hm. simplify_eq.
    + intros j m Hji. rewrite lookup_insert_ne by done.
      rewrite (Hk2 j m). by rewrite lookup_insert_ne.
  - intros [-> Hno]. eapply wp_commit_log; [done|]. intros s' HI'. wp_seq.
    exists C. split_and!; done.
Qed.

Lemma wp_page_to_virt s C i :
  inv base N s C → 0 ≤ i < N →
  wp (page_to_virt i) (λ a s', a = (base + i) * BUDDY_PAGE_SIZE ∧ s' = s) s.
Proof.
  intros HI Hi. destruct (inv_geo _ _ _ _ HI) as (Hst&Hsz&?&?&Htop).
  destruct (po_exists _ _ _ (inv_pages _ _ _ _ HI) i Hi) as (p&Hp&Hset).
  unfold page_to_virt. wp_seq. eapply wp_read_page; [done|].
  wp_seq. apply wp_bug_on; [by rewrite Hset|]. wp_seq. rewrite Hst, Hsz.
  unfold BUDDY_PAGE_SIZE in *. rewrite !wrap_u64_small by lia.
  apply wp_bug_on; [apply bool_decide_eq_false_2; lia|]. wp_seq. split; [lia|done].
Qed.

(** Release of an allocated chunk. *)
Lemma wp_buddy_free_pages s C i k :
  inv base N s C → settled C → C !! i = Some (Alloc, k) →
  wp (buddy_free_pages i)
    (λ _ s', ∃ C', inv base N s' C' ∧ settled C' ∧
       ∀ j m, C' !! j = Some (Alloc, m) ↔ j ≠ i ∧ C !! j = Some (Alloc, m)) s.
Proof.
  intros HI Hset Hi. unfold buddy_free_pages.
  destruct (po_order _ _ _ (inv_pages _ _ _ _ HI) _ _ _ Hi) as (pi&Hpi&Ho).
  destruct (t_wf _ _ _ (inv_tiling _ _ _ _ HI) _ _ _ Hi) as (?&_).
  wp_seq. eapply wp_read_page; [done|]. rewrite Ho. wp_seq.
  eapply wp_mono; [by eapply wp_clear_allocated|]. intros [] s1 HI1. wp_seq.
  eapply wp_mono.
  { eapply (wp_merge_chunk base N _ s1 _ i k); [done|apply lookup_insert_eq| |].
    - intros j m. rewrite lookup_insert. case_decide; [done|by intros ?%Hset].
    - unfold max_order_fuel. lia. }
  intros r s2 (C2&m&HI2&Hr&Hfl&Hk2&Hbud). wp_seq.
  destruct (po_order _ _ _ (inv_pages _ _ _ _ HI2) _ _ _ Hr) as (pr&Hpr&Hor).
  destruct (t_wf _ _ _ (inv_tiling _ _ _ _ HI2) _ _ _ Hr) as (?&?&?&_).
  pose proof (pow2_pos m ltac:(lia)).
  eapply wp_read_page; [done|]. rewrite Hor. wp_seq.
  destruct (inv_lists _ _ _ _ HI2) as [V HL].
  destruct (lists_put _ _ V C2 r m HL) as (h'&V'&n&Hadd&Hdom&Hn&(xs&Hxs&Hlen)&HL').
  { intros u Hu. simplify_eq. }
  { lia. }
  { apply (inv_nodes _ _ _ _ HI2). lia. }
  pose proof (lists_length _ _ _ _ _ _ m _ (inv_tiling _ _ _ _ HI2) HL ltac:(lia) Hxs).
  destruct (inv_geo _ _ _ _ HI2) as (?&?&?&?&Htop). unfold BUDDY_PAGE_SIZE in Htop.
  eapply wp_list_op; [exact Hadd|]. eapply wp_nr_free_add; [exact Hn|lia|].
  exists (<[r := (Free, m)]> C2). split_and!.
  - eapply inv_status; [done|done|done|done|by intros _ ?; apply Hbud|by exists V'|done].
  - intros j u. rewrite lookup_insert. case_decide as Heq; [done|].
    intros Hj. by pose proof (Hfl _ _ Hj).
  - intros j u. rewrite lookup_insert. case_decide as Heq.
    + subst j. split; [done|]. intros [Hri Hr'].
      assert (C2 !! r = Some (Alloc, u)); [|by simplify_eq].
      apply Hk2. by rewrite lookup_insert_ne.
    + rewrite (Hk2 j u), lookup_insert. case_decide; naive_solver.
Qed.

(** *** The merged free-chunk set is determined by the allocated chunks *)

Lemma free_block_in_chunk C (m : nat) y :
  tiling base N C → settled C → Z.of_nat m < BUDDY_MAX_ORDER →
  aligned (base + y) (Z.of_nat m) →
  (∀ p, y ≤ p < y + 2 ^ Z.of_nat m → ∃ i k, C !! i = Some (Free, k) ∧ i ≤ p < i + 2 ^ k) →
  ∃ i k, C !! i = Some (Free, k) ∧ i ≤ y ∧ y + 2 ^ Z.of_nat m ≤ i + 2 ^ k.
Proof.
  intros HT Hset. revert y. induction m as [|m IH]; intros y Hm Ha Hfree.
  - change (2 ^ Z.of_nat 0) with 1 in *. destruct (Hfree y) as (i&k&?&?); [lia|].
    exists i, k. split; [done|lia].
  - rewrite Nat2Z.inj_succ, <-Z.add_1_r in *. set (M := Z.of_nat m) in *.
    pose proof (pow2_pos M ltac:(lia)).
    assert (2 ^ (M + 1) = 2 * 2 ^ M) as Hp by (rewrite Z.pow_add_r by lia; lia).
    assert (aligned (base + y) M) as Ha1 by (eapply aligned_le; [|done]; lia).
    assert (aligned (base + (y + 2 ^ M)) M) as Ha2.
    { rewrite Z.add_assoc. apply Z.divide_add_r; [done|apply Z.divide_refl]. }
    destruct (IH y) as (i1&k1&Hi1&?&?); [lia|done|intros; apply Hfree; lia|].
    destruct (IH (y + 2 ^ M)) as (i2&k2&Hi2&?&?); [lia|done|intros; apply Hfree; lia|].
    destruct (t_wf _ _ _ HT _ _ _ Hi1) as (?&?&?&Hal1).
    destruct (t_wf _ _ _ HT _ _ _ Hi2) as (?&?&?&Hal2).
    assert (M ≤ k1) by (apply (Z.pow_le_mono_r_iff 2); lia).
    assert (M ≤ k2) by (apply (Z.pow_le_mono_r_iff 2); lia).
    destruct (decide (M = k1)) as [Hk1|].
    { destruct (decide (M = k2)) as [Hk2|].
      { subst k1 k2. exfalso.
        eapply (t_coal _ _ _ HT i1 i2 M Hi1 Hi2); [lia|].
        destruct (buddy_cases (base + i1) M) as [[-> _]|[_ Hc]]; [lia|done|lia|].
        exfalso. assert (i1 = y) as -> by lia.
        destruct Ha as [a Ha]. destruct Hc as [c Hc]. rewrite Hp in Ha, Hc.
        assert (2 * (a - c) = 1); [|lia]. apply (Z.mul_cancel_r _ _ (2 ^ M)); lia. }
      destruct (aligned_nested (base + y) (base + i2) (M + 1) k2); [lia|done|done|lia|lia|].
      exists i2, k2. split; [done|lia]. }
    destruct (aligned_nested (base + y) (base + i1) (M + 1) k1); [lia|done|done|lia|lia|].
    exists i1, k1. split; [done|lia].
Qed.

Lemma tiling_free_transfer C1 C2 i k :
  tiling base N C1 → tiling base N C2 → settled C1 → settled C2 →
  (∀ j m, C1 !! j = Some (Alloc, m) ↔ C2 !! j = Some (Alloc, m)) →
  C1 !! i = Some (Free, k) →
  ∃ i' k', C2 !! i' = Some (Free, k') ∧ i' ≤ i ∧ i + 2 ^ k ≤ i' + 2 ^ k'.
Proof.
  intros HT1 HT2 Hs1 Hs2 Hal Hi.
  destruct (t_wf _ _ _ HT1 _ _ _ Hi) as (?&?&?&?).
  replace k with (Z.of_nat (Z.to_nat k)) in * by lia.
  apply (free_block_in_chunk C2); [done|done|lia|done|].
  intros p Hp. destruct (t_cover _ _ _ HT2 p) as (j&t&m&Hj&?); [lia|].
  destruct t; [by exists j, m| |by destruct (Hs2 j m)].
  apply Hal in Hj. exfalso.
  assert (i = j) as ->; [|by simplify_eq]. eapply (t_disj _ _ _ HT1); [exact Hi|exact Hj|lia..].
Qed.

Lemma tiling_unique C1 C2 :
  tiling base N C1 → tiling base N C2 → settled C1 → settled C2 →
  (∀ j m, C1 !! j = Some (Alloc, m) ↔ C2 !! j = Some (Alloc, m)) → C1 = C2.
Proof.
  revert C1 C2.
  assert (∀ C1 C2 i k, tiling base N C1 → tiling base N C2 → settled C1 → settled C2 →
    (∀ j m, C1 !! j = Some (Alloc, m) ↔ C2 !! j = Some (Alloc, m)) →
    C1 !! i = Some (Free, k) → C2 !! i = Some (Free, k)) as Hone.
  { intros C1 C2 i k HT1 HT2 Hs1 Hs2 Hal Hi.
    destruct (tiling_free_transfer C1 C2 i k) as (i'&k'&Hi'&?&?); [done..|].
    destruct (tiling_free_transfer C2 C1 i' k') as (i''&k''&Hi''&?&?); [done..| |done|].
    { intros j m. by rewrite Hal. }
    destruct (t_wf _ _ _ HT1 _ _ _ Hi) as (?&_). pose proof (pow2_pos k ltac:(lia)).
    assert (i'' = i) as -> by (eapply (t_disj _ _ _ HT1); [exact Hi''|exact Hi|lia..]).
    rewrite Hi in Hi''. injection Hi'' as <-. assert (i' = i) as -> by lia.
    assert (k' = k) as ->; [|done].
    destruct (t_wf _ _ _ HT2 _ _ _ Hi') as (?&_). apply (Z.pow_inj_r 2); lia. }
  intros C1 C2 HT1 HT2 Hs1 Hs2 Hal. apply map_eq. intros i.
  apply option_eq. intros [[] k].
  - split; intros Hi; [by apply (Hone C1 C2)|]. apply (Hone C2 C1); [done..| |done].
    intros j m. by rewrite Hal.
  - apply Hal.
  - split; intros Hf; [by destruct (Hs1 i k)|by destruct (Hs2 i k)].
Qed.

(** *** Initialisation *)

Definition all_allocated : tiles := gset_to_gmap (Alloc, 0) (list_to_set (seqZ 0 N)).

Lemma all_allocated_lookup i t k :
  all_allocated !! i = Some (t, k) ↔ 0 ≤ i < N ∧ t = Alloc ∧ k = 0.
Proof.
  unfold all_allocated. rewrite lookup_gset_to_gmap_Some, elem_of_list_to_set, elem_of_seqZ.
  split; [intros [? [= <- <-]]; split_and!; [lia|lia|done..]|intros (?&->&->)]. split; [lia|done].
Qed.

Lemma tiling_all_allocated : tiling base N all_allocated.
Proof.
  split.
  - intros i t k (?&->&->)%all_allocated_lookup. unfold BUDDY_MAX_ORDER.
    change (2 ^ 0) with 1. split_and!; [lia..|]. apply Z.divide_1_l.
  - intros i t k j t' k' (?&->&->)%all_allocated_lookup (?&->&->)%all_allocated_lookup.
    change (2 ^ 0) with 1. lia.
  - intros p Hp. exists p, Alloc, 0. rewrite all_allocated_lookup. change (2 ^ 0) with 1.
    split; [done|lia].
  - intros i j k (?&?&?)%all_allocated_lookup. done.
Qed.

Lemma init_heads_loop s :
  geometry base N s →
  (∀ k, 0 ≤ k < BUDDY_MAX_ORDER → is_Some (free_heap s !! FLHead k)) →
  wp (for_up (Z.to_nat BUDDY_MAX_ORDER) 0 (λ k,
        modify (λ s, set_nr_free (<[k := 0]> (nr_free s)) s);;
        list_op (init_list_head (FLHead k))))
    (λ _ s', geometry base N s' ∧ ∃ V, lists_ok (free_heap s') (nr_free s') V ∅) s.
Proof.
  intros Hg Hh. eapply wp_mono.
  - apply (wp_for_up (λ k s', geometry base N s' ∧ dom (free_heap s') = dom (free_heap s) ∧
      ∃ V, Rep (free_heap s') V ∧
        (∀ j, 0 ≤ j < k → V !! FLHead j = Some [] ∧ nr_free s' !! j = Some 0) ∧
        (∀ hd xs, V !! hd = Some xs → xs = [] ∧ ∃ j, 0 ≤ j < k ∧ hd = FLHead j))).
    + split_and!; [done..|]. exists ∅. split_and!; [apply rep_empty|lia|done].
    + intros k s' Hk (Hg'&Hd&V&HR&Hj&Ho). wp_seq.
      destruct (init_list_head_rep (free_heap s') V (FLHead k) HR) as (h'&Hi&Hd'&HR'&_).
      { apply elem_of_dom. rewrite Hd. apply elem_of_dom, Hh. unfold BUDDY_MAX_ORDER in *. lia. }
      { intros (hd&xs&Hhd&Hin). destruct (Ho _ _ Hhd) as [-> (j&?&->)].
        apply list_elem_of_singleton in Hin. simplify_eq. lia. }
      eapply wp_list_op; [exact Hi|]. simpl. split_and!; [done|congruence|].
      exists (<[FLHead k := []]> V). split_and!; [done| |].
      * intros j Hjk. destruct (decide (j = k)) as [->|].
        -- by rewrite !lookup_insert_eq.
        -- rewrite !lookup_insert_ne by congruence. apply Hj. lia.
      * intros hd xs. rewrite lookup_insert. case_decide.
        -- intros [= <-]. subst hd. split; [done|]. exists k. split; [lia|done].
        -- intros Hhd. destruct (Ho _ _ Hhd) as [-> (j&?&->)]. split; [done|].
           exists j. split; [lia|done].
  - intros [] s' (Hg'&_&V&HR&Hj&Ho). split; [done|]. exists V.
    replace (0 + Z.of_nat (Z.to_nat BUDDY_MAX_ORDER)) with BUDDY_MAX_ORDER in * by done.
    split; [done| |naive_solver].
    intros k Hk. exists []. destruct (Hj k Hk). split_and!; [done|done|].
    intros i. rewrite lookup_empty. set_solver.
Qed.

Lemma init_clear_loop s :
  0 ≤ N → geometry base N s → (∃ V, lists_ok (free_heap s) (nr_free s) V ∅) →
  wp (for_up (Z.to_nat N) 0 clear_page_metadata)
    (λ _ s', geometry base N s' ∧ (∃ V, lists_ok (free_heap s') (nr_free s') V ∅) ∧
       ∀ i, 0 ≤ i < N → page_metadata s' !! i = Some zero_page ∧
         is_Some (free_heap s' !! PNode i)) s.
Proof.
  intros HN Hg [V HL]. eapply wp_mono.
  - apply (wp_for_up (λ n s', geometry base N s' ∧
      (∃ V, lists_ok (free_heap s') (nr_free s') V ∅) ∧
      ∀ i, 0 ≤ i < n → page_metadata s' !! i = Some zero_page ∧
        is_Some (free_heap s' !! PNode i))).
    + split_and!; [done|by exists V|lia].
    + intros n s' Hn (Hg'&[V' HL']&Hp). unfold clear_page_metadata. wp_seq. simpl.
      split_and!; [done| |].
      * exists V'. pose proof HL' as [HR Hh Ho]. split; [|done|done].
        eapply rep_frame; [done|]. intros x Hx. rewrite lookup_insert_ne; [done|].
        intros <-. by destruct (lists_on_list _ _ _ _ _ HL' Hx).
      * intros i Hi. destruct (decide (i = n)) as [->|].
        -- rewrite !lookup_insert_eq. by split.
        -- rewrite !lookup_insert_ne by congruence. apply Hp. lia.
  - intros [] s'. by replace (0 + Z.of_nat (Z.to_nat N)) with N by lia.
Qed.

Lemma init_pages_loop s :
  0 ≤ N → geometry base N s → (∃ V, lists_ok (free_heap s) (nr_free s) V ∅) →
  (∀ i, 0 ≤ i < N → page_metadata s !! i = Some zero_page ∧ is_Some (free_heap s !! PNode i)) →
  wp (for_up (Z.to_nat N) 0 (λ i,
        page_set_flag i PG_allocated;;
        upd_page i (set_order 0);;
        upd_page i (set_pool true);;
        upd_page i (set_page_pair 0)))
    (λ _ s', inv base N s' all_allocated) s.
Proof.
  intros HN Hg [V HL] Hz. eapply wp_mono.
  - apply (wp_for_up (λ n s', ∃ pm, s' = set_pages pm s ∧
      ∀ i, 0 ≤ i < N → ∃ p, pm !! i = Some p ∧ (i < n → pool_set p = true ∧ order p = 0 ∧
        Z.testbit (flags p) 0 = true))).
    + exists (page_metadata s). split; [by destruct s|]. intros i Hi.
      destruct (Hz i Hi). exists zero_page. split; [done|lia].
    + intros n s' Hn (pm&->&Hpm). destruct (Hpm n) as (p&Hp&_); [lia|].
      wp_seq. eapply wp_page_set_flag; [exact Hp|done|].
      wp_seq. eapply wp_upd_page; [apply lookup_insert_eq|].
      wp_seq. eapply wp_upd_page; [apply lookup_insert_eq|].
      eapply wp_upd_page; [apply lookup_insert_eq|].
      simpl. rewrite !insert_insert_eq. eexists. split; [done|].
      intros i Hi. destruct (decide (i = n)) as [->|].
      * rewrite lookup_insert_eq. eexists. split; [done|]. intros _. split_and!; [done..|].
        apply set_alloc_bit.
      * rewrite lookup_insert_ne by done. destruct (Hpm i Hi) as (q&?&Hq). exists q.
        split; [done|]. intros ?. apply Hq. lia.
  - intros [] s' (pm&->&Hpm). replace (0 + Z.of_nat (Z.to_nat N)) with N in Hpm by lia.
    split; simpl; [done|apply tiling_all_allocated| | |].
    + split.
      * intros i Hi. destruct (Hpm i Hi) as (p&?&Hq). exists p. split; [done|]. apply Hq. lia.
      * intros i t k (Hi&->&->)%all_allocated_lookup.
        destruct (Hpm i Hi) as (p&?&Hq). exists p. split; [done|]. apply Hq. lia.
      * intros i t k q (Hi&->&->)%all_allocated_lookup. change (2 ^ 0) with 1. intros ?.
        destruct (Hpm q) as (p&?&Hq); [lia|]. exists p. split; [done|].
        rewrite bool_decide_eq_true_2 by done. apply Hq. lia.
    + exists V. eapply lists_ok_ext; [|exact HL]. intros i k.
      rewrite lookup_empty, all_allocated_lookup. naive_solver.
    + intros i Hi. by apply Hz.
Qed.

Lemma wp_init_buddy s start ty :
  0 ≤ base → 0 ≤ N → start = base * BUDDY_PAGE_SIZE →
  (base + N + 2 ^ 19) * BUDDY_PAGE_SIZE ≤ 2 ^ 64 →
  (∀ k, 0 ≤ k < BUDDY_MAX_ORDER → is_Some (free_heap s !! FLHead k)) →
  wp (init_buddy start N ty)
    (λ _ s', ∃ C, inv base N s' C ∧ settled C ∧ ∀ i k, C !! i ≠ Some (Alloc, k)) s.
Proof.
  intros Hb HN -> Htop Hh. unfold init_buddy. wp_seq.
  unfold BUDDY_PAGE_SIZE in Htop.
  eapply wp_mono; [apply init_heads_loop; [|exact Hh]|].
  { split_and!; simpl; [done|unfold BUDDY_PAGE_SIZE; rewrite wrap_u64_small; lia|lia..|].
    unfold BUDDY_PAGE_SIZE. lia. }
  intros [] s1 (Hg1&HL1). wp_seq.
  eapply wp_mono; [by apply init_clear_loop|]. intros [] s2 (Hg2&HL2&Hz). wp_seq.
  eapply wp_mono; [by apply init_pages_loop|]. intros [] s3 HI3. wp_seq.
  eapply wp_mono.
  - apply (wp_for_up (λ n s', ∃ C, inv base N s' C ∧ settled C ∧
      ∀ j m, C !! j = Some (Alloc, m) ↔ m = 0 ∧ n ≤ j < N)).
    + exists all_allocated. split_and!; [done| |].
      * intros i k (?&?&?)%all_allocated_lookup. done.
      * intros j m. rewrite all_allocated_lookup. naive_solver.
    + intros n s' Hn (C&HI&Hs&HA).
      eapply wp_mono; [apply (wp_buddy_free_pages s' C n 0); [done|done|apply HA; lia]|].
      intros [] s4 (C'&HI'&Hs'&HA'). exists C'. split_and!; [done..|].
      intros j m. rewrite HA', HA. lia.
  - intros [] s' (C&?&?&HA). exists C. split_and!; [done..|].
    intros i k Hi%HA. lia.
Qed.
End ops.

(** ** Frame: the allocator never writes the fields its clients use *)

Definition client_fields (s : phys_mem_pool) : gmap Z (Z * Z) * page_type :=
  ((λ p, (slab p, ref_cnt p)) <$> page_metadata s, pool_ty s).

Definition keeps_fields {A} (m : M phys_mem_pool A) : Prop :=
  ∀ s a s', m s = Ret (a, s') → client_fields s' = client_fields s.

Lemma keeps_fields_ret {A} (a : A) : keeps_fields (mret a).
Proof. by intros s b s' [= <- <-]. Qed.

Lemma keeps_fields_bind {A B} (m : M phys_mem_pool A) (f : A → M phys_mem_pool B) :
  keeps_fields m → (∀ a, keeps_fields (f a)) → keeps_fields (m ≫= f).
Proof.
  intros Hm Hf s b s'. unfold mbind, M_bind. destruct (m s) as [[a s1]|] eqn:E; [|done].
  intros E2. rewrite (Hf _ _ _ _ E2). by eapply Hm.
Qed.

Lemma keeps_fields_halt {A} w : keeps_fields (A := A) (halt w).
Proof. by intros s b s'. Qed.

Lemma keeps_fields_bug_on b : keeps_fields (bug_on b).
Proof. intros s a s'. unfold bug_on. destruct b; naive_solver. Qed.

Lemma keeps_fields_get : keeps_fields get_state.
Proof. by intros s a s' [= <- <-]. Qed.

Lemma keeps_fields_modify f : (∀ s, client_fields (f s) = client_fields s) → keeps_fields (modify f).
Proof. intros Hf s a s' [= <- <-]. apply Hf. Qed.

Lemma keeps_fields_read i : keeps_fields (read_page i).
Proof. intros s a s'. unfold read_page, from_opt. destruct (_ !! _); naive_solver. Qed.

Lemma keeps_fields_upd i f :
  (∀ p, (slab (f p), ref_cnt (f p)) = (slab p, ref_cnt p)) → keeps_fields (upd_page i f).
Proof.
  intros Hf s a s'. unfold upd_page, read_page, from_opt, mbind, M_bind, modify.
  destruct (page_metadata s !! i) as [p|] eqn:E; [|done]. intros [= <- <-].
  unfold client_fields. simpl. rewrite fmap_insert, Hf. f_equal.
  apply insert_id. by rewrite lookup_fmap, E.
Qed.

Lemma keeps_fields_list_op f : keeps_fields (list_op f).
Proof. intros s a s'. unfold list_op. destruct (f _); naive_solver. Qed.

Lemma keeps_fields_list_read {A} (f : _ → outcome A) : keeps_fields (list_read f).
Proof. intros s a s'. unfold list_read. destruct (f _); naive_solver. Qed.

Lemma keeps_fields_from_opt {A} (g : phys_mem_pool → option A) :
  keeps_fields (λ s, from_opt (g s) s).
Proof. intros s a s'. unfold from_opt. destruct (g s); naive_solver. Qed.

Lemma keeps_fields_for_up n lo body :
  (∀ i, keeps_fields (body i)) → keeps_fields (for_up n lo body).
Proof.
  intros Hb. revert lo. induction n as [|n IH]; intros lo; [apply keeps_fields_ret|].
  apply keeps_fields_bind; [done|]. intros. apply IH.
Qed.

Create HintDb keeps_fields discriminated.
#[export] Hint Resolve keeps_fields_ret keeps_fields_halt keeps_fields_bug_on keeps_fields_get
  keeps_fields_read keeps_fields_list_op keeps_fields_list_read keeps_fields_from_opt : keeps_fields.

(** Walk through a program, one bind at a time. *)
Ltac keeps_fields :=
  repeat first
    [ progress cbv zeta
    | solve [auto with keeps_fields]
    | apply keeps_fields_upd; done
    | apply keeps_fields_bind; [|intros ?]
    | apply keeps_fields_modify; done
    | apply keeps_fields_for_up; intros ?
    | match goal with
      | |- keeps_fields (match ?x with _ => _ end) => destruct x
      | |- keeps_fields (if ?x then _ else _) => destruct x
      end ].

Lemma get_buddy_chunk_fields i : keeps_fields (get_buddy_chunk i).
Proof. unfold get_buddy_chunk, page_to_virt, virt_to_page. keeps_fields. Qed.

Lemma page_flag_fields i f :
  keeps_fields (page_set_flag i f) ∧ keeps_fields (page_clear_flag i f) ∧
  keeps_fields (page_check_flag i f).
Proof. unfold page_set_flag, page_clear_flag, page_check_flag. split_and!; keeps_fields.
Qed.

Lemma nr_free_add_fields k d : keeps_fields (nr_free_add k d).
Proof. unfold nr_free_add. keeps_fields. Qed.

Lemma split_chunk_fields fuel ord i : keeps_fields (split_chunk fuel ord i).
Proof.
  revert i. induction fuel as [|fuel IH]; intros i; simpl; [keeps_fields|].
  pose proof (get_buddy_chunk_fields i). pose proof nr_free_add_fields.
  assert (∀ j, keeps_fields (page_clear_flag j PG_allocated)) by (intros; apply page_flag_fields).
  keeps_fields; auto.
Qed.

Lemma merge_chunk_fields fuel i : keeps_fields (merge_chunk fuel i).
Proof.
  revert i. induction fuel as [|fuel IH]; intros i; simpl; [keeps_fields|].
  pose proof (get_buddy_chunk_fields i). pose proof nr_free_add_fields.
  assert (∀ j, keeps_fields (page_check_flag j PG_allocated)) by (intros; apply page_flag_fields).
  keeps_fields; auto.
Qed.

Lemma buddy_get_pages_fields ord : keeps_fields (buddy_get_pages ord).
Proof.
  assert (∀ n cur, keeps_fields (find_free_chunk n ord cur)) as Hfind.
  { induction n as [|n IH]; intros cur; simpl; [keeps_fields|].
    pose proof nr_free_add_fields. unfold prepare_latest_log. keeps_fields; auto. }
  assert (∀ j, keeps_fields (page_set_flag j PG_allocated)) by (intros; apply page_flag_fields).
  pose proof split_chunk_fields.
  unfold buddy_get_pages, commit_latest_log. keeps_fields; auto.
Qed.

Lemma buddy_free_pages_fields i : keeps_fields (buddy_free_pages i).
Proof.
  assert (∀ j, keeps_fields (page_check_flag j PG_allocated)) by (intros; apply page_flag_fields).
  pose proof merge_chunk_fields. pose proof nr_free_add_fields.
  unfold buddy_free_pages. keeps_fields; auto.
Qed.

(** [init_buddy] clears the fields of the clients. *)
Lemma clear_pages_fields n lo s u s' :
  for_up n lo clear_page_metadata s = Ret (u, s') →
  pool_ty s' = pool_ty s ∧ ∀ i, page_metadata s' !! i = if decide (lo ≤ i < lo + Z.of_nat n) then Some zero_page else page_metadata s !! i.
Proof.
  revert lo s. induction n as [|n IH]; intros lo s; simpl.
  { intros [= _ <-]. split; [done|]. intros i. rewrite decide_False by lia. done. }
  intros [-> Hp]%IH. split; [done|]. intros i. rewrite Hp. simpl. destruct (decide (i = lo)) as [->|].
  - rewrite decide_False, decide_True by lia. by rewrite lookup_insert_eq.
  - rewrite lookup_insert_ne by done. repeat case_decide; done || lia.
Qed.

Lemma init_buddy_fields start N ty s s' :
  init_buddy start N ty s = Ret (tt, s') →
  pool_ty s' = ty ∧ ∀ i, 0 ≤ i < N → (λ p, (slab p, ref_cnt p)) <$> page_metadata s' !! i = Some (0, 0).
Proof.
  unfold init_buddy. intros E. destruct (bind_ret _ _ _ _ _ E) as ([]&s0&E0&E'). clear E.
  destruct (bind_ret _ _ _ _ _ E') as ([]&s1&E1&E). clear E'. destruct (bind_ret _ _ _ _ _ E) as ([]&s2&E2&E'). clear E.
  destruct (bind_ret _ _ _ _ _ E') as ([]&s3&E3&E4). clear E'. injection E0 as <-.
  apply keeps_fields_for_up in E1; [|intros; keeps_fields]. apply clear_pages_fields in E2 as [Ht Hz].
  apply keeps_fields_for_up in E3; [|pose proof (λ i, proj1 (page_flag_fields i PG_allocated)); intros; keeps_fields; auto].
  apply keeps_fields_for_up in E4; [|apply buddy_free_pages_fields].
  rewrite E3 in E4. injection E1 as _ E1. injection E4 as E4 ->. split; [by rewrite Ht, E1|].
  intros i Hi. rewrite <-lookup_fmap, E4, lookup_fmap, Hz. by rewrite decide_True by lia.
Qed.
