(* ===== verification/BuddyTheorems.v ===== *)
(** The theorems about the buddy allocator, with their witnesses on a small
    pool built by [init_buddy]. *)
From S2P Require Import Prelude Words ListHead Buddy BuddyProofs BuddySpec.

Section theorems.
Context (base N : Z).
Implicit Types (s : phys_mem_pool) (C : tiles).

(** C1: allocation.  On a well-formed pool with no operation in progress, a
    request for [2 ^ ord] pages ([0 <= ord < BUDDY_MAX_ORDER]) returns
    without reaching a BUG and leaves the pool well-formed.  It fails
    exactly when no free chunk is large enough, and then changes no chunk.
    Otherwise the pages returned are a new allocated chunk of that order,
    aligned to its size, inside the pool, disjoint from every chunk allocated
    before, and all chunks allocated before stay allocated. *)
Theorem buddy_get_pages_correct s C ord :
  inv base N s C → settled C → 0 ≤ ord < BUDDY_MAX_ORDER →
  wp (buddy_get_pages ord)
    (λ r s', ∃ C', inv base N s' C' ∧ settled C' ∧
       match r with
       | None => C' = C ∧ ∀ i k, C !! i = Some (Free, k) → k < ord
       | Some i =>
           0 ≤ i ∧ i + 2 ^ ord ≤ N ∧ aligned (base + i) ord ∧
           (∀ j m, C' !! j = Some (Alloc, m) ↔
              (j = i ∧ m = ord) ∨ C !! j = Some (Alloc, m)) ∧
           (∀ j m, C !! j = Some (Alloc, m) → j + 2 ^ m ≤ i ∨ i + 2 ^ ord ≤ j)
       end) s.
Proof.
  intros HI Hset Hord. eapply wp_mono; [by eapply wp_buddy_get_pages|].
  intros [i|] s' (C'&HI'&Hs'&HR); exists C'; (split; [done|split; [done|]]); [|done].
  destruct HR as (Hi&Hnew&Hkeep).
  destruct (t_wf _ _ _ (inv_tiling _ _ _ _ HI') _ _ _ Hi) as (?&?&?&?).
  pose proof (pow2_pos ord ltac:(lia)).
  split_and!; [done..| |].
  - intros j m. destruct (decide (j = i)) as [->|Hne].
    + split; [intros; simplify_eq; by left|]. intros [[_ ->]|Hj]; [done|by destruct (Hnew m)].
    + rewrite Hkeep by done. naive_solver.
  - intros j m Hj. assert (j ≠ i) as Hne by (intros ->; by destruct (Hnew m)).
    assert (C' !! j = Some (Alloc, m)) as Hj' by (by apply Hkeep).
    destruct (decide (j < i + 2 ^ ord ∧ i < j + 2 ^ m)) as [[??]|]; [|lia].
    exfalso. apply Hne. by eapply (t_disj _ _ _ (inv_tiling _ _ _ _ HI')).
Qed.

(** C2: release.  Giving back an allocated chunk returns without reaching a
    BUG, removes exactly that chunk from the allocated ones and leaves the
    pool well-formed; in particular no two free buddies of the same order
    (below the maximal one) stay unmerged. *)
Theorem buddy_free_pages_correct s C i k :
  inv base N s C → settled C → C !! i = Some (Alloc, k) →
  wp (buddy_free_pages i)
    (λ _ s', ∃ C', inv base N s' C' ∧ settled C' ∧
       (∀ j m, C' !! j = Some (Alloc, m) ↔ j ≠ i ∧ C !! j = Some (Alloc, m)) ∧
       (∀ a b m, C' !! a = Some (Free, m) → C' !! b = Some (Free, m) →
          m < BUDDY_MAX_ORDER - 1 → base + b ≠ buddy (base + a) m)) s.
Proof.
  intros HI Hset Hi. eapply wp_mono; [by eapply wp_buddy_free_pages|].
  intros [] s' (C'&HI'&?&?). exists C'. split_and!; [done..|].
  intros a b m. apply (t_coal _ _ _ (inv_tiling _ _ _ _ HI')).
Qed.

(** allocating a chunk and giving it back restores the very same set of
    free and allocated chunks: the allocator does not fragment the pool. *)
Theorem buddy_alloc_free_roundtrip s C ord :
  inv base N s C → settled C → 0 ≤ ord < BUDDY_MAX_ORDER →
  wp (r ← buddy_get_pages ord;
      match r with Some i => buddy_free_pages i | None => mret tt end)
    (λ _ s', inv base N s' C) s.
Proof.
  intros HI Hset Hord. wp_seq. eapply wp_mono; [by eapply wp_buddy_get_pages|].
  intros [i|] s1 (C1&HI1&Hs1&HR); wp_seq; [|by destruct HR as [-> _]].
  destruct HR as (Hi&Hnew&Hkeep).
  eapply wp_mono; [by eapply wp_buddy_free_pages|]. intros [] s2 (C2&HI2&Hs2&HA).
  replace C with C2; [done|].
  eapply tiling_unique; [apply HI2|apply HI|done|done|].
  intros j m. rewrite HA. destruct (decide (j = i)) as [->|Hne].
  - split; [by intros [??]|]. intros ?. by destruct (Hnew m).
  - rewrite Hkeep by done. naive_solver.
Qed.

(** initialisation.  From a pool whose list heads exist, [init_buddy]
    over a page-aligned range returns without reaching a BUG, in a
    well-formed state where every page is free and free buddies are merged. *)
Theorem init_buddy_correct s start ty :
  0 ≤ base → 0 ≤ N → start = base * BUDDY_PAGE_SIZE →
  (base + N + 2 ^ 19) * BUDDY_PAGE_SIZE ≤ 2 ^ 64 →
  (∀ k, 0 ≤ k < BUDDY_MAX_ORDER → is_Some (free_heap s !! FLHead k)) →
  wp (init_buddy start N ty)
    (λ _ s', ∃ C, inv base N s' C ∧ settled C ∧
       ∀ p, 0 ≤ p < N → ∃ i k, C !! i = Some (Free, k) ∧ i ≤ p < i + 2 ^ k) s.
Proof.
  intros Hb HN Hst Htop Hh. eapply wp_mono; [exact (wp_init_buddy base N s start ty Hb HN Hst Htop Hh)|].
  intros [] s' (C&HI&Hs&Hno). exists C. split_and!; [done..|].
  intros p Hp. destruct (t_cover _ _ _ (inv_tiling _ _ _ _ HI) p Hp) as (i&t&k&Hi&?).
  destruct t; [by exists i, k|by destruct (Hno i k)|by destruct (Hs i k)].
Qed.

(** Address translation round trip: [page_to_virt] of a page of the pool
    is an address from which [virt_to_page] finds the page again. *)
Theorem virt_page_roundtrip s C i :
  inv base N s C → 0 ≤ i < N →
  wp (a ← page_to_virt i; virt_to_page a) (λ r s', r = i ∧ s' = s) s ∧
  wp (page_to_virt i) (λ a _, a = (base + i) * BUDDY_PAGE_SIZE) s.
Proof.
  intros HI Hi. destruct (inv_geo _ _ _ _ HI) as (Hst&Hsz&?&?&Htop).
  destruct (po_exists _ _ _ (inv_pages _ _ _ _ HI) i Hi) as (p&Hp&Hset).
  split; [|eapply wp_mono; [by eapply wp_page_to_virt|naive_solver]].
  wp_seq. eapply wp_mono; [by eapply wp_page_to_virt|]. intros a s' [-> ->].
  unfold virt_to_page. wp_seq. rewrite Hst. unfold BUDDY_PAGE_SIZE in *.
  rewrite wrap_u64_small by lia.
  replace ((base + i) * 4096 - base * 4096) with (i * 4096) by lia.
  rewrite Z.div_mul by lia. eapply wp_read_page; [done|].
  wp_seq. apply wp_bug_on; [by rewrite Hset|]. by wp_seq.
Qed.
End theorems.

(** double free.  Freeing a page whose allocated flag is clear always stops
      at the BUG_ON, whatever the pool looks like. *)
Theorem buddy_double_free_detected s i p :
  page_metadata s !! i = Some p → 0 ≤ order p → Z.testbit (flags p) PG_allocated = false →
  buddy_free_pages i s = Halt BugHit.
Proof.
  intros Hp Ho Hf. unfold buddy_free_pages, read_page, from_opt.
  unfold mbind at 1, M_bind at 1. rewrite Hp. unfold mbind at 1, M_bind at 1.
  destruct (Z.to_nat (Z.shiftl 1 (order p))) as [|n] eqn:En.
  { rewrite Z.shiftl_1_l in En. pose proof (pow2_pos (order p) Ho). lia. }
  cbn [for_up]. unfold mbind, M_bind. replace (i + 0) with i by lia.
  unfold page_check_flag, bug_on, mbind, M_bind, read_page, from_opt.
  change (bool_decide (PG_allocated >= PG_flagnum)) with false. cbv iota beta.
  rewrite Hp. unfold mret, M_ret. rewrite land_bit_testbit by done. by rewrite Hf.
Qed.

(** A pool of 11 pages at 1 MiB. *)
Definition pool11 : phys_mem_pool :=
  match init_buddy 0x100000 11 DRAM_PAGE raw_pool with Ret (_, s) => s | Halt _ => raw_pool end.

Lemma raw_pool_heads k :
  0 ≤ k < BUDDY_MAX_ORDER → is_Some (free_heap raw_pool !! FLHead k).
Proof.
  intros Hk. assert (forallb (λ k, bool_decide (is_Some (free_heap raw_pool !! FLHead k)))
    (seqZ 0 BUDDY_MAX_ORDER) = true) as Hall by (by vm_compute).
  rewrite forallb_forall in Hall. eapply bool_decide_eq_true_1, Hall.
  apply list_elem_of_In, elem_of_seqZ. lia.
Qed.

Lemma pool11_init :
  init_buddy 0x100000 11 DRAM_PAGE raw_pool = Ret (tt, pool11).
Proof. vm_compute. reflexivity. Qed.

Lemma pool11_inv : ∃ C, inv 256 11 pool11 C ∧ settled C ∧ ∀ i k, C !! i ≠ Some (Alloc, k).
Proof.
  pose proof (wp_init_buddy 256 11 raw_pool 0x100000 DRAM_PAGE ltac:(lia) ltac:(lia)
    eq_refl ltac:(done) raw_pool_heads) as H.
  unfold wp in H. by rewrite pool11_init in H.
Qed.

Lemma buddy_get_pages_correct_witness :
  ∃ C, inv 256 11 pool11 C ∧
    wp (buddy_get_pages 1) (λ r s', r = Some 8 ∧ ∃ C', inv 256 11 s' C') pool11.
Proof.
  destruct pool11_inv as (C&HI&Hs&_). exists C. split; [done|].
  pose proof (buddy_get_pages_correct 256 11 pool11 C 1 HI Hs ltac:(done)) as (r&s'&Hr&C'&HI'&_)%wp_inv.
  eapply wp_intro; [exact Hr|]. split; [|by exists C'].
  apply (f_equal (λ o, match o with Ret (a, _) => a | Halt _ => None end)) in Hr.
  rewrite <-Hr. vm_compute. reflexivity.
Defined.

Lemma buddy_free_pages_correct_witness :
  ∃ s1 C1, buddy_get_pages 1 pool11 = Ret (Some 8, s1) ∧ inv 256 11 s1 C1 ∧
    wp (buddy_free_pages 8) (λ _ s', ∃ C', inv 256 11 s' C') s1.
Proof.
  destruct pool11_inv as (C&HI&Hs&_).
  destruct (wp_inv _ _ _ (wp_buddy_get_pages 256 11 pool11 C 1 HI Hs ltac:(done)))
    as (r&s1&Hr&C1&HI1&Hs1&HR).
  assert (r = Some 8) as ->.
  { apply (f_equal (λ o, match o with Ret (a, _) => a | Halt _ => None end)) in Hr.
    rewrite <-Hr. vm_compute. reflexivity. }
  exists s1, C1. split; [done|]. split; [done|]. destruct HR as [Hi _].
  eapply wp_mono; [apply (buddy_free_pages_correct 256 11 s1 C1 8 1 HI1 Hs1 Hi)|].
  intros _ s' (C'&HI'&_). by exists C'.
Defined.

Lemma buddy_alloc_free_roundtrip_witness :
  ∃ C, inv 256 11 pool11 C ∧
    wp (r ← buddy_get_pages 1;
        match r with Some i => buddy_free_pages i | None => mret tt end)
      (λ _ s', inv 256 11 s' C) pool11.
Proof.
  destruct pool11_inv as (C&HI&Hs&_). exists C. split; [done|].
  apply (buddy_alloc_free_roundtrip 256 11 pool11 C 1 HI Hs). done.
Defined.

Lemma init_buddy_correct_witness :
  wp (init_buddy 0x100000 11 DRAM_PAGE) (λ _ s', ∃ C, inv 256 11 s' C) raw_pool.
Proof.
  eapply wp_mono; [apply (init_buddy_correct 256 11 raw_pool 0x100000 DRAM_PAGE);
    [lia|lia|done|done|exact raw_pool_heads]|].
  intros _ s' (C&HI&_). by exists C.
Defined.

Lemma virt_page_roundtrip_witness :
  wp (a ← page_to_virt 5; virt_to_page a) (λ r s', r = 5 ∧ s' = pool11) pool11.
Proof.
  destruct pool11_inv as (C&HI&_&_).
  exact (proj1 (virt_page_roundtrip 256 11 pool11 C 5 HI ltac:(lia))).
Defined.

Lemma buddy_double_free_detected_witness : buddy_free_pages 0 pool11 = Halt BugHit.
Proof.
  destruct (page_metadata pool11 !! 0) as [p|] eqn:Hp; [|by vm_compute in Hp].
  apply (buddy_double_free_detected pool11 0 p Hp); vm_compute in Hp; by injection Hp as <-.
Defined.
