(* ===== verification/Bitmap.v ===== *)
(** Bitmaps ([kernel/include/common/bitops.h]).

    A bitmap is an array of [unsigned long] words.  The operations are
    translated word by word; [bit] is the view the theorems use: bit [i] of
    the array.  [find_next_bit_helper] is shown to return the first matching
    position at or after [start], or [size]. *)
From S2P Require Import Prelude Words.

Definition BITS_PER_LONG : Z := 64.
Definition BITS_TO_LONGS (nr : Z) : Z := DIV_ROUND_UP nr BITS_PER_LONG.

(** [p[i]] *)
Definition rd_word (p : list Z) (i : Z) : outcome Z :=
  if bool_decide (i < 0) then Halt BadAccess
  else match p !! Z.to_nat i with Some w => Ret w | None => Halt BadAccess end.

Definition get_bit_in_slot (u64slot bit : Z) : Z := Z.land u64slot (wrap_u64 (Z.shiftl 1 bit)).
Definition clear_bit_in_slot (u64slot bit : Z) : Z :=
  Z.land u64slot (wrap_u64 (Z.lnot (Z.shiftl 1 bit))).
Definition set_bit_in_slot (u64slot bit : Z) : Z := Z.lor u64slot (wrap_u64 (Z.shiftl 1 bit)).

Definition set_bit (nr : Z) (p : list Z) : outcome (list Z) :=
  let nlongs := wrap_u32 nr / BITS_PER_LONG in
  let ilongs := wrap_u32 nr mod BITS_PER_LONG in
  w ← rd_word p nlongs;
  Ret (<[Z.to_nat nlongs := set_bit_in_slot w ilongs]> p).

Definition get_bit (nr : Z) (p : list Z) : outcome Z :=
  let nlongs := wrap_u32 nr / BITS_PER_LONG in
  let ilongs := wrap_u32 nr mod BITS_PER_LONG in
  w ← rd_word p nlongs;
  Ret (Z.land (Z.shiftr w ilongs) 0x1).

Definition clear_bit (nr : Z) (p : list Z) : outcome (list Z) :=
  let nlongs := wrap_u32 nr / BITS_PER_LONG in
  let ilongs := wrap_u32 nr mod BITS_PER_LONG in
  w ← rd_word p nlongs;
  Ret (<[Z.to_nat nlongs := clear_bit_in_slot w ilongs]> p).

(** The inner loop [for (; cur_bit <= max_bit; cur_bit++, res++)] over one
    word: [inl res] when it returns, [inr res] when it runs out. *)
Fixpoint find_in_word (fuel : nat) (w cur_bit max_bit res : Z) (invert : bool) : Z + Z :=
  match fuel with
  | O => inr res
  | S fuel' =>
      if bool_decide (cur_bit <= max_bit) then
        let cur_bit_value := get_bit_in_slot w cur_bit in
        if (if invert then bool_decide (cur_bit_value = 0) else bool_decide (cur_bit_value ≠ 0))
        then inl res
        else find_in_word fuel' w (cur_bit + 1) max_bit (res + 1) invert
      else inr res
  end.

(** The outer loop.  A word is read only when the inner loop runs. *)
Fixpoint find_words (fuel : nat) (p : list Z) (size cur_elem_index cur_bit max_elem_index res : Z)
    (invert : bool) : outcome Z :=
  match fuel with
  | O => Halt OutOfFuel
  | S fuel' =>
      if bool_decide (cur_elem_index <= max_elem_index) then
        let max_bit := if bool_decide (cur_elem_index < max_elem_index) then BITS_PER_LONG - 1
                       else wrap_u64 (size - 1) mod BITS_PER_LONG in
        if bool_decide (cur_bit <= max_bit) then
          w ← rd_word p cur_elem_index;
          match find_in_word 64 w cur_bit max_bit res invert with
          | inl r => Ret (to_s32 r)
          | inr r => find_words fuel' p size (cur_elem_index + 1) 0 max_elem_index r invert
          end
        else find_words fuel' p size (cur_elem_index + 1) 0 max_elem_index res invert
      else Ret (to_s32 size)
  end.

(** Every iteration but the last reads a word, so [length p + 2] iterations
    end the loop or leave the array. *)
Definition find_next_bit_helper (p : list Z) (size start : Z) (invert : bool) : outcome Z :=
  let max_elem_index := wrap_u64 (size - 1) / BITS_PER_LONG in
  let cur_elem_index := start / BITS_PER_LONG in
  let cur_bit := start mod BITS_PER_LONG in
  find_words (S (S (length p))) p size cur_elem_index cur_bit max_elem_index start invert.

Definition find_next_zero_bit (p : list Z) (size start : Z) : outcome Z :=
  find_next_bit_helper p size start true.
Definition find_next_bit (p : list Z) (size start : Z) : outcome Z :=
  find_next_bit_helper p size start false.

(** ** The view of a bitmap *)

Definition bit (p : list Z) (i : Z) : bool :=
  match p !! Z.to_nat (i / 64) with Some w => Z.testbit w (i mod 64) | None => false end.

(** The words are 64-bit values. *)
Definition words (p : list Z) : Prop := ∀ k w, p !! k = Some w → 0 ≤ w < 2 ^ 64.

Lemma rd_word_ret p i :
  0 ≤ i < Z.of_nat (length p) → ∃ w, p !! Z.to_nat i = Some w ∧ rd_word p i = Ret w.
Proof.
  intros Hi. unfold rd_word. rewrite bool_decide_eq_false_2 by lia.
  destruct (lookup_lt_is_Some_2 p (Z.to_nat i)) as [w Hw]; [lia|].
  exists w. by rewrite Hw.
Qed.

Lemma bit_pos i : 0 ≤ i mod 64 < 64.
Proof. apply Z.mod_pos_bound. lia. Qed.

Lemma one_bit_testbit k j : 0 ≤ k < 64 → 0 ≤ j →
  Z.testbit (wrap_u64 (Z.shiftl 1 k)) j = bool_decide (j = k).
Proof.
  intros Hk Hj. rewrite Z.shiftl_1_l.
  rewrite wrap_u64_small by (split; [apply Z.pow_nonneg; lia|apply Z.pow_lt_mono_r; lia]).
  rewrite Z.pow2_bits_eqb by lia. case_bool_decide; [by apply Z.eqb_eq|apply Z.eqb_neq; lia].
Qed.

Lemma get_bit_in_slot_spec w k :
  0 ≤ k < 64 → bool_decide (get_bit_in_slot w k = 0) = negb (Z.testbit w k).
Proof.
  intros Hk. unfold get_bit_in_slot. rewrite Z.shiftl_1_l.
  rewrite wrap_u64_small by (split; [apply Z.pow_nonneg; lia|apply Z.pow_lt_mono_r; lia]).
  destruct (Z.testbit w k) eqn:E; simpl.
  - apply bool_decide_eq_false_2. intros H0.
    assert (Z.testbit (Z.land w (2 ^ k)) k = false) as Hf by (rewrite H0; apply Z.bits_0).
    rewrite Z.land_spec, Z.pow2_bits_true, E in Hf by lia. done.
  - apply bool_decide_eq_true_2. apply Z.bits_inj_0. intros j.
    rewrite Z.land_spec. destruct (decide (j < 0)).
    + by rewrite !Z.testbit_neg_r by lia.
    + rewrite Z.pow2_bits_eqb by lia. destruct (Z.eqb_spec k j) as [->|]; [by rewrite E|].
      apply andb_false_r.
Qed.

(** A word is full when its 64 bits are set. *)
Lemma word_all_ones w : 0 ≤ w < 2 ^ 64 → (w = 2 ^ 64 - 1 ↔ ∀ k, 0 ≤ k < 64 → Z.testbit w k = true).
Proof.
  intros Hw. change (2 ^ 64 - 1) with (Z.ones 64). split.
  - intros -> k Hk. apply Z.ones_spec_low. lia.
  - intros Hb. apply Z.bits_inj_iff'. intros n Hn. destruct (decide (n < 64)).
    + rewrite Hb by lia. symmetry. apply Z.ones_spec_low. lia.
    + rewrite Z.ones_spec_high by lia. apply (Z.bounded_iff_bits_nonneg 64 w); lia.
Qed.

Lemma word_lor w v : 0 ≤ w < 2 ^ 64 → 0 ≤ v < 2 ^ 64 → 0 ≤ Z.lor w v < 2 ^ 64.
Proof.
  intros [Hw Hw'] [Hv Hv']. assert (0 ≤ Z.lor w v) by (apply Z.lor_nonneg; lia).
  split; [done|]. apply (Z.bounded_iff_bits_nonneg 64); [lia|done|]. intros l Hl.
  rewrite Z.lor_spec, (proj1 (Z.bounded_iff_bits_nonneg 64 w ltac:(lia) Hw) Hw' l Hl).
  by rewrite (proj1 (Z.bounded_iff_bits_nonneg 64 v ltac:(lia) Hv) Hv' l Hl).
Qed.

Lemma word_land w v : 0 ≤ w < 2 ^ 64 → 0 ≤ v → 0 ≤ Z.land w v < 2 ^ 64.
Proof.
  intros [Hw Hw'] Hv. assert (0 ≤ Z.land w v) by (apply Z.land_nonneg; lia).
  split; [done|]. apply (Z.bounded_iff_bits_nonneg 64); [lia|done|]. intros l Hl.
  by rewrite Z.land_spec, (proj1 (Z.bounded_iff_bits_nonneg 64 w ltac:(lia) Hw) Hw' l Hl).
Qed.

Lemma set_slot_testbit w k j :
  0 ≤ k < 64 → 0 ≤ j → Z.testbit (set_bit_in_slot w k) j = bool_decide (j = k) || Z.testbit w j.
Proof.
  intros Hk Hj. unfold set_bit_in_slot. rewrite Z.lor_spec, one_bit_testbit by done.
  apply orb_comm.
Qed.

Lemma clear_slot_testbit w k j :
  0 ≤ k < 64 → 0 ≤ j < 64 →
  Z.testbit (clear_bit_in_slot w k) j = negb (bool_decide (j = k)) && Z.testbit w j.
Proof.
  intros Hk Hj. unfold clear_bit_in_slot, wrap_u64.
  rewrite Z.land_spec, Z.mod_pow2_bits_low, Z.lnot_spec by lia.
  rewrite Z.shiftl_1_l, Z.pow2_bits_eqb by lia. rewrite andb_comm. f_equal. f_equal.
  case_bool_decide; [by apply Z.eqb_eq|apply Z.eqb_neq; lia].
Qed.

(** Two positions are in the same word at the same bit only if equal. *)
Lemma same_word_bit i j :
  0 ≤ i → 0 ≤ j → Z.to_nat (i / 64) = Z.to_nat (j / 64) → i mod 64 = j mod 64 → i = j.
Proof.
  intros Hi Hj Hd Hm. apply Z2Nat.inj in Hd; [|apply Z.div_pos; lia..].
  rewrite (Z.div_mod i 64), (Z.div_mod j 64) by lia. by rewrite Hd, Hm.
Qed.

(** A change of the bit [i] of the word that holds it changes no other bit. *)
Lemma bit_insert p i w w' b :
  p !! Z.to_nat (i / 64) = Some w → 0 ≤ i →
  (∀ k, 0 ≤ k < 64 → Z.testbit w' k = if bool_decide (k = i mod 64) then b else Z.testbit w k) →
  ∀ j, 0 ≤ j → bit (<[Z.to_nat (i / 64) := w']> p) j = if bool_decide (j = i) then b else bit p j.
Proof.
  intros Hw Hi Hk j Hj. unfold bit.
  destruct (decide (Z.to_nat (j / 64) = Z.to_nat (i / 64))) as [Heq|Hne].
  - rewrite Heq, list_lookup_insert_eq by (by eapply lookup_lt_Some).
    rewrite Hk, Hw by apply bit_pos. pose proof (same_word_bit j i Hj Hi Heq).
    repeat case_bool_decide; naive_solver.
  - rewrite list_lookup_insert_ne by done. rewrite bool_decide_eq_false_2; [done|].
    by intros ->.
Qed.

Lemma words_insert p k w : words p → 0 ≤ w < 2 ^ 64 → words (<[k := w]> p).
Proof.
  intros Hp Hw k' w' [(->&<-&_)|[_ ?]]%list_lookup_insert_Some; [done|by eapply Hp].
Qed.

Section bit_ops.
Context (p : list Z) (nr : Z).
Hypothesis Hnr : 0 ≤ nr < 64 * Z.of_nat (length p).
Hypothesis Hu32 : nr < 2 ^ 32.

Lemma nr_word : 0 ≤ nr / 64 < Z.of_nat (length p).
Proof. split; [apply Z.div_pos; lia|apply Z.div_lt_upper_bound; lia]. Qed.

Lemma set_bit_spec :
  ∃ p', set_bit nr p = Ret p' ∧ length p' = length p ∧ (words p → words p') ∧
    (∀ k, k ≠ Z.to_nat (nr / 64) → p' !! k = p !! k) ∧
    ∀ j, 0 ≤ j → bit p' j = if bool_decide (j = nr) then true else bit p j.
Proof using Hnr Hu32.
  destruct (rd_word_ret p (nr / 64) nr_word) as (w&Hw&Hrd). pose proof (bit_pos nr).
  unfold set_bit. rewrite wrap_u32_small by lia. unfold BITS_PER_LONG. rewrite Hrd. simpl.
  eexists. split; [done|]. rewrite length_insert. split_and!; [done| | |].
  - intros Hp. apply words_insert; [done|]. apply word_lor; [by eapply Hp|].
    apply Z.mod_pos_bound. lia.
  - intros k Hk. by apply list_lookup_insert_ne.
  - intros j Hj. apply (bit_insert p nr w); [done|lia| |done].
    intros k Hk. rewrite set_slot_testbit by lia. by case_bool_decide.
Qed.

Lemma clear_bit_spec :
  ∃ p', clear_bit nr p = Ret p' ∧ length p' = length p ∧ (words p → words p') ∧
    (∀ k, k ≠ Z.to_nat (nr / 64) → p' !! k = p !! k) ∧
    ∀ j, 0 ≤ j → bit p' j = if bool_decide (j = nr) then false else bit p j.
Proof using Hnr Hu32.
  destruct (rd_word_ret p (nr / 64) nr_word) as (w&Hw&Hrd). pose proof (bit_pos nr).
  unfold clear_bit. rewrite wrap_u32_small by lia. unfold BITS_PER_LONG. rewrite Hrd. simpl.
  eexists. split; [done|]. rewrite length_insert. split_and!; [done| | |].
  - intros Hp. apply words_insert; [done|]. apply word_land; [by eapply Hp|].
    apply Z.mod_pos_bound. lia.
  - intros k Hk. by apply list_lookup_insert_ne.
  - intros j Hj. apply (bit_insert p nr w); [done|lia| |done].
    intros k Hk. rewrite clear_slot_testbit by lia. by case_bool_decide.
Qed.

Lemma get_bit_spec : get_bit nr p = Ret (Z.b2z (bit p nr)).
Proof using Hnr Hu32.
  destruct (rd_word_ret p (nr / 64) nr_word) as (w&Hw&Hrd). pose proof (bit_pos nr).
  unfold get_bit. rewrite wrap_u32_small by lia. unfold BITS_PER_LONG. rewrite Hrd. simpl.
  unfold bit. rewrite Hw, (Z.land_ones _ 1), <-Z.bit0_mod, Z.shiftr_spec by lia. done.
Qed.
End bit_ops.

(** ** Searching *)

(** The position the searches look for: the first [j] in [start, size) whose
    bit differs from [invert], or [size]. *)
Definition first_bit (p : list Z) (invert : bool) (start size r : Z) : Prop :=
  start ≤ r ≤ size ∧ (∀ j, start ≤ j < r → bit p j = invert) ∧
  (r < size → bit p r = negb invert).

Lemma find_in_word_spec fuel w cur max_bit res invert :
  0 ≤ cur → max_bit < 64 → cur ≤ max_bit + 1 → max_bit - cur < Z.of_nat fuel →
  match find_in_word fuel w cur max_bit res invert with
  | inl r => res ≤ r ≤ res + (max_bit - cur) ∧ Z.testbit w (cur + (r - res)) = negb invert ∧
             ∀ k, cur ≤ k < cur + (r - res) → Z.testbit w k = invert
  | inr r => r = res + (max_bit - cur) + 1 ∧ ∀ k, cur ≤ k ≤ max_bit → Z.testbit w k = invert
  end.
Proof.
  revert cur res. induction fuel as [|fuel IH]; intros cur res Hc Hm Hle Hf; simpl;
    [split; [lia|intros; lia]|].
  case_bool_decide as Hcm; [|split; [lia|intros; lia]].
  assert ((if invert then bool_decide (get_bit_in_slot w cur = 0)
           else bool_decide (get_bit_in_slot w cur ≠ 0)) =
          bool_decide (Z.testbit w cur = negb invert)) as ->.
  { rewrite bool_decide_not, get_bit_in_slot_spec by lia. by destruct invert, (Z.testbit w cur). }
  case_bool_decide as Hb.
  - split_and!; [lia|lia|by replace (cur + (res - res)) with cur by lia|intros; lia].
  - assert (Z.testbit w cur = invert) as Hc' by (by destruct invert, (Z.testbit w cur)).
    specialize (IH (cur + 1) (res + 1) ltac:(lia) Hm ltac:(lia) ltac:(lia)).
    destruct find_in_word as [r|r].
    + destruct IH as (?&Hr&Hk).
      replace (cur + (r - res)) with (cur + 1 + (r - (res + 1))) by lia.
      split_and!; [lia|lia|done|]. intros k ?. destruct (decide (k = cur)) as [->|]; [done|].
      apply Hk. lia.
    + destruct IH as (->&Hk). split; [lia|]. intros k ?.
      destruct (decide (k = cur)) as [->|]; [done|]. apply Hk. lia.
Qed.

Lemma bit_at p e k w :
  0 ≤ e → 0 ≤ k < 64 → p !! Z.to_nat e = Some w → bit p (64 * e + k) = Z.testbit w k.
Proof.
  intros He Hk Hw. unfold bit.
  rewrite (Z.add_comm (64 * e)), Z.mul_comm, Z.div_add, Z.mod_add by lia.
  by rewrite Z.div_small, Z.mod_small, Z.add_0_l, Hw by lia.
Qed.

Lemma find_words_spec fuel p size e cb start invert :
  0 < size ≤ 64 * Z.of_nat (length p) → size < 2 ^ 31 → 0 ≤ e → 0 ≤ cb < 64 → 0 ≤ start →
  start ≤ 64 * e + cb ≤ size → (size - 1) / 64 - e + 1 < Z.of_nat fuel →
  (∀ j, start ≤ j < 64 * e + cb → bit p j = invert) →
  ∃ r, find_words fuel p size e cb ((size - 1) / 64) (64 * e + cb) invert = Ret r ∧
    first_bit p invert start size r.
Proof.
  intros Hsz H31. revert e cb. induction fuel as [|fuel IH]; intros e cb He Hcb Hst Hres Hf Hpre.
  all: pose proof (Z.div_mod (size - 1) 64 ltac:(lia)) as Hdm.
  all: pose proof (Z.mod_pos_bound (size - 1) 64 ltac:(lia)) as Hmb.
  { lia. }
  cbn [find_words].
  case_bool_decide as Hem.
  2: { assert (64 * e + cb = size) as Heq by lia. rewrite to_s32_small by lia.
       exists size. split; [done|]. split_and!; [lia|lia| |lia]. rewrite <-Heq. done. }
  set (mb := if bool_decide (e < (size - 1) / 64) then _ else _).
  assert (0 ≤ mb < 64 ∧ 64 * e + mb < size ∧ (mb = 63 ∨ 64 * e + mb + 1 = size)) as (Hmb'&Hlt&Hend).
  { subst mb. unfold BITS_PER_LONG. rewrite wrap_u64_small by lia. case_bool_decide; lia. }
  case_bool_decide as Hcm.
  - destruct (rd_word_ret p e) as (w&Hw&->); [lia|]. cbn [mbind outcome_bind].
    pose proof (find_in_word_spec 64 w cb mb (64 * e + cb) invert
      ltac:(lia) ltac:(lia) ltac:(lia) ltac:(lia)) as Hfw.
    destruct find_in_word as [r|r].
    + destruct Hfw as (Hr&Hhit&Hk). rewrite to_s32_small by lia. exists r. split; [done|].
      assert (∀ k, cb ≤ k < 64 → bit p (64 * e + k) = Z.testbit w k) as Hbit
        by (intros; apply bit_at; [done|lia|done]).
      split_and!; [lia|lia| |].
      * intros j Hj. destruct (decide (j < 64 * e + cb)); [apply Hpre; lia|].
        replace j with (64 * e + (j - 64 * e)) by lia. rewrite Hbit by lia. apply Hk. lia.
      * intros _. replace r with (64 * e + (cb + (r - (64 * e + cb)))) by lia.
        rewrite Hbit by lia. done.
    + destruct Hfw as (->&Hk).
      assert (∀ j, start ≤ j < 64 * e + mb + 1 → bit p j = invert) as Hpre'.
      { intros j Hj. destruct (decide (j < 64 * e + cb)); [apply Hpre; lia|].
        replace j with (64 * e + (j - 64 * e)) by lia.
        rewrite (bit_at p e _ w) by (lia || done). apply Hk. lia. }
      destruct Hend as [Hend|Hend].
      * replace (64 * e + cb + (mb - cb) + 1) with (64 * (e + 1) + 0) by lia.
        apply IH; [lia..|]. intros j Hj. apply Hpre'. lia.
      * destruct fuel as [|fuel]; [lia|]. cbn [find_words].
        rewrite bool_decide_eq_false_2 by lia. rewrite to_s32_small by lia.
        exists size. split; [done|]. split_and!; [lia|lia| |lia]. intros j Hj. apply Hpre'. lia.
  - assert (64 * e + cb = size) as Heq by lia.
    destruct fuel as [|fuel]; [lia|]. cbn [find_words].
    rewrite bool_decide_eq_false_2 by lia. rewrite to_s32_small by lia.
    exists size. split; [done|]. split_and!; [lia|lia| |lia]. rewrite <-Heq. done.
Qed.

Lemma find_next_bit_helper_spec p size start invert :
  0 < size ≤ 64 * Z.of_nat (length p) → size < 2 ^ 31 → 0 ≤ start ≤ size →
  ∃ r, find_next_bit_helper p size start invert = Ret r ∧ first_bit p invert start size r.
Proof.
  intros Hsz H31 Hst. unfold find_next_bit_helper, BITS_PER_LONG.
  rewrite wrap_u64_small by lia. pose proof (Z.div_mod start 64 ltac:(lia)) as Hdm.
  assert (∀ r, r = start → find_words (S (S (length p))) p size (start / 64) (start mod 64)
            ((size - 1) / 64) r invert = find_words (S (S (length p))) p size (start / 64)
            (start mod 64) ((size - 1) / 64) (64 * (start / 64) + start mod 64) invert) as ->
    by (intros r ->; by rewrite <-Hdm); [|done].
  apply find_words_spec; [done|done|apply Z.div_pos; lia|apply bit_pos|lia|lia| |lia].
  assert ((size - 1) / 64 < Z.of_nat (length p)) by (apply Z.div_lt_upper_bound; lia).
  assert (0 ≤ start / 64) by (apply Z.div_pos; lia). lia.
Qed.
