(* ===== verification/SlotTable.v ===== *)
(** The slot table of a capability group ([kernel/object/cap_group.c],
    [kernel/include/object/cap_group.h]).

    A table maps slot ids to slots.  Which ids are taken is kept in
    [slots_bmp]; [full_slots_bmp] has one bit per word of [slots_bmp], set when
    that word is full.  Slot pointers are integers with 0 for NULL.  The
    answers of the memory allocator to the requests still to come are part of
    the state (a list of booleans, an empty list being exhausted memory), so
    the failure paths of the code are exercised by the theorems. *)
From S2P Require Import Prelude Words Bitmap.

Definition ENOMEM : Z := 12.
Definition BASE_OBJECT_NUM : Z := BITS_PER_LONG.

Record slot_table := SlotTable {
  slots_size : Z;
  slots : list Z;
  full_slots_bmp : list Z;
  slots_bmp : list Z
}.

(** ** Memory *)

Abbreviation mem := (list bool).

(** Does the next allocation succeed? *)
Definition kalloc : M mem bool := λ m,
  match m with ok :: m' => Ret (ok, m') | [] => Ret (false, []) end.

(** [memcpy(dst, src, n * sizeof(elem))] *)
Definition memcpy (dst src : list Z) (n : Z) : outcome (list Z) :=
  if bool_decide (n ≤ Z.of_nat (length dst) ∧ n ≤ Z.of_nat (length src))
  then Ret (take (Z.to_nat n) src ++ drop (Z.to_nat n) dst)
  else Halt BadAccess.

(** [a[i] = v] *)
Definition store (a : list Z) (i v : Z) : outcome (list Z) :=
  if bool_decide (0 ≤ i < Z.of_nat (length a)) then Ret (<[Z.to_nat i := v]> a) else Halt BadAccess.

Definition lift {S A} (o : outcome A) : M S A := λ s,
  match o with Ret a => Ret (a, s) | Halt w => Halt w end.

(** ** Creation and growth *)

Definition slot_table_init (size : Z) : M mem (Z + slot_table) :=
  let size := wrap_u32 (DIV_ROUND_UP size BASE_OBJECT_NUM * BASE_OBJECT_NUM) in
  ok ← kalloc;
  if negb ok then mret (inl (- ENOMEM))
  else
    ok ← kalloc;
    if negb ok then mret (inl (- ENOMEM))
    else
      ok ← kalloc;
      if negb ok then mret (inl (- ENOMEM))
      else mret (inr (SlotTable size (replicate (Z.to_nat size) 0)
                        (replicate (Z.to_nat (BITS_TO_LONGS (BITS_TO_LONGS size))) 0)
                        (replicate (Z.to_nat (BITS_TO_LONGS size)) 0))).

(** The operations below run on a table and the memory. *)
Definition on_mem {A} (m : M mem A) : M (slot_table * mem) A := λ '(t, k),
  match m k with Ret (a, k') => Ret (a, (t, k')) | Halt w => Halt w end.
Definition get_table : M (slot_table * mem) slot_table := gets fst.
Definition set_table (t : slot_table) : M (slot_table * mem) unit := modify (λ '(_, k), (t, k)).

Definition expand_slot_table : M (slot_table * mem) Z :=
  t ← get_table;
  let old_size := slots_size t in
  let new_size := wrap_u32 (old_size + BASE_OBJECT_NUM) in
  r ← on_mem (slot_table_init new_size);
  match r with
  | inl e => mret e
  | inr new =>
      new_slots ← lift (memcpy (slots new) (slots t) old_size);
      new_bmp ← lift (memcpy (slots_bmp new) (slots_bmp t) (BITS_TO_LONGS old_size));
      new_full ← lift (memcpy (full_slots_bmp new) (full_slots_bmp t)
                         (BITS_TO_LONGS (BITS_TO_LONGS old_size)));
      set_table (SlotTable new_size new_slots new_full new_bmp);;
      mret 0
  end.

(** ** Slot ids *)

(** The loop [while (true)] of [alloc_slot_id]: [inl r] when expansion failed,
    [inr (empty_idx, bmp_size)] when it breaks. *)
Fixpoint find_slot_id (fuel : nat) : M (slot_table * mem) (Z + Z * Z) :=
  match fuel with
  | O => halt OutOfFuel
  | S fuel' =>
      t ← get_table;
      let bmp_size := to_s32 (slots_size t) in
      let full_bmp_size := to_s32 (BITS_TO_LONGS (wrap_u64 bmp_size)) in
      let expand :=
        r ← expand_slot_table;
        if bool_decide (r < 0) then mret (inl r) else find_slot_id fuel' in
      empty_idx ← lift (find_next_zero_bit (full_slots_bmp t) (wrap_u64 full_bmp_size) 0);
      if bool_decide (empty_idx >= full_bmp_size) then expand
      else
        empty_idx ← lift (find_next_zero_bit (slots_bmp t) (wrap_u64 bmp_size)
                            (wrap_u64 (empty_idx * BITS_PER_LONG)));
        if bool_decide (empty_idx >= bmp_size) then expand
        else mret (inr (empty_idx, bmp_size))
  end.

(** The rest of [alloc_slot_id], once an empty index is found. *)
Definition take_slot_id (empty_idx bmp_size : Z) : M (slot_table * mem) Z :=
  bug_on (bool_decide (empty_idx < 0) || bool_decide (empty_idx >= bmp_size));;
  t ← get_table;
  bmp ← lift (set_bit empty_idx (slots_bmp t));
  set_table (SlotTable (slots_size t) (slots t) (full_slots_bmp t) bmp);;
  w ← lift (rd_word bmp (empty_idx / BITS_PER_LONG));
  (if bool_decide (w = wrap_u64 (Z.lnot 0)) then
     full ← lift (set_bit (empty_idx / BITS_PER_LONG) (full_slots_bmp t));
     set_table (SlotTable (slots_size t) (slots t) full bmp)
   else mret tt);;
  mret empty_idx.

(** One expansion makes room, so the loop runs at most twice. *)
Definition alloc_slot_id : M (slot_table * mem) Z :=
  e ← find_slot_id 2;
  match e with
  | inl r => mret r
  | inr (empty_idx, bmp_size) => take_slot_id empty_idx bmp_size
  end.

Definition free_slot_id (slot_id : Z) (t : slot_table) : outcome slot_table :=
  bmp ← clear_bit slot_id (slots_bmp t);
  full ← clear_bit (wrap_u64 slot_id / BITS_PER_LONG) (full_slots_bmp t);
  sl ← store (slots t) slot_id 0;
  Ret (SlotTable (slots_size t) sl full bmp).

Definition get_slot (slot_id : Z) (t : slot_table) : outcome Z :=
  if bool_decide (slot_id < 0) || bool_decide (slot_id >= slots_size t) then Ret 0
  else rd_word (slots t) slot_id.

Definition install_slot (slot_id slot : Z) (t : slot_table) : outcome slot_table :=
  b ← get_bit slot_id (slots_bmp t);
  if bool_decide (b = 0) then Halt BugHit
  else
    sl ← store (slots t) slot_id slot;
    Ret (SlotTable (slots_size t) sl (full_slots_bmp t) (slots_bmp t)).

Definition is_valid_slot_id (slot_id : Z) (t : slot_table) : outcome bool :=
  if bool_decide (slot_id < 0) || bool_decide (slot_id >= slots_size t) then Ret false
  else
    b ← get_bit slot_id (slots_bmp t);
    if bool_decide (b = 0) then Ret false
    else
      s ← rd_word (slots t) slot_id;
      if bool_decide (s = 0) then Halt BugHit else Ret true.

(** ** The invariant of a table *)

Definition used (t : slot_table) (i : Z) : bool := bit (slots_bmp t) i.

Record table_ok (t : slot_table) : Prop := {
  to_size : ∃ n, 1 ≤ n ∧ slots_size t = 64 * n ∧ Z.of_nat (length (slots t)) = 64 * n ∧
    Z.of_nat (length (slots_bmp t)) = n ∧
    Z.of_nat (length (full_slots_bmp t)) = BITS_TO_LONGS n;
  to_s31 : slots_size t < 2 ^ 31;
  to_words : words (slots_bmp t);
  to_full i : 0 ≤ i →
    bit (full_slots_bmp t) i = true ↔ slots_bmp t !! Z.to_nat i = Some (2 ^ 64 - 1)
}.

Lemma wp_lift {S A} (o : outcome A) (a : A) Q (s : S) : o = Ret a → Q a s → wp (lift o) Q s.
Proof. unfold wp, lift. by intros ->. Qed.

Lemma BITS_TO_LONGS_mul n : BITS_TO_LONGS (64 * n) = n.
Proof.
  unfold BITS_TO_LONGS, DIV_ROUND_UP, BITS_PER_LONG.
  replace (64 * n + 64 - 1) with (63 + n * 64) by lia. rewrite Z.div_add by lia.
  by rewrite Z.div_small by lia.
Qed.

Lemma BITS_TO_LONGS_bounds n : 0 ≤ n → n ≤ 64 * BITS_TO_LONGS n < n + 64.
Proof.
  intros Hn. unfold BITS_TO_LONGS, DIV_ROUND_UP, BITS_PER_LONG.
  pose proof (Z.div_mod (n + 64 - 1) 64 ltac:(lia)).
  pose proof (Z.mod_pos_bound (n + 64 - 1) 64 ltac:(lia)). lia.
Qed.

(** A word of a table is full when its 64 slot ids are used. *)
Lemma word_full p i w :
  words p → 0 ≤ i → p !! Z.to_nat i = Some w →
  w = 2 ^ 64 - 1 ↔ ∀ k, 0 ≤ k < 64 → bit p (64 * i + k) = true.
Proof.
  intros Hp Hi Hw. rewrite (word_all_ones w (Hp _ _ Hw)).
  split; intros Hk k ?; [rewrite (bit_at p i k w)|rewrite <-(bit_at p i k w)]; auto.
Qed.

Lemma memcpy_grow old new n :
  Z.of_nat (length old) = n → n ≤ Z.of_nat (length new) →
  memcpy new old n = Ret (old ++ drop (length old) new).
Proof.
  intros <- Hle. unfold memcpy. rewrite bool_decide_eq_true_2 by lia.
  by rewrite Nat2Z.id, take_ge by lia.
Qed.

Lemma bit_app_zeros p k i : 0 ≤ i → bit (p ++ replicate k 0) i = bit p i.
Proof.
  intros Hi. unfold bit. destruct (decide (Z.to_nat (i / 64) < length p)%nat).
  - by rewrite lookup_app_l by done.
  - rewrite lookup_app_r, (lookup_ge_None_2 p) by lia.
    destruct (replicate k 0 !! _) as [w|] eqn:E; [|done].
    apply lookup_replicate in E as [-> _]. apply Z.bits_0.
Qed.

(** What one expansion does to a table. *)
Definition grown (t : slot_table) : slot_table :=
  SlotTable (slots_size t + 64) (slots t ++ replicate 64 0)
    (full_slots_bmp t ++
     replicate (Z.to_nat (BITS_TO_LONGS (slots_size t / 64 + 1)) - length (full_slots_bmp t)) 0)
    (slots_bmp t ++ [0]).

Lemma div_64_mul n : 64 * n / 64 = n.
Proof. rewrite Z.mul_comm. by apply Z.div_mul. Qed.

(** Some of the next three allocations fails. *)
Definition oom (m : mem) : Prop := ∃ k, (k < 3)%nat ∧ default false (m !! k) = false.

Lemma wp_slot_table_init size m :
  0 ≤ size → 64 * BITS_TO_LONGS size < 2 ^ 32 →
  wp (slot_table_init size) (λ r m', (r = inl (- ENOMEM) ∧ oom m) ∨
    r = inr (let n := BITS_TO_LONGS size in
             SlotTable (64 * n) (replicate (Z.to_nat (64 * n)) 0)
               (replicate (Z.to_nat (BITS_TO_LONGS n)) 0) (replicate (Z.to_nat n) 0))
    ∧ m' = drop 3 m ∧ ¬ oom m) m.
Proof.
  intros Hs Hb. pose proof (BITS_TO_LONGS_bounds size Hs).
  assert (wrap_u32 (DIV_ROUND_UP size BASE_OBJECT_NUM * BASE_OBJECT_NUM) = 64 * BITS_TO_LONGS size) as Hw.
  { change (DIV_ROUND_UP size BASE_OBJECT_NUM) with (BITS_TO_LONGS size).
    change BASE_OBJECT_NUM with 64. rewrite Z.mul_comm. apply wrap_u32_small. lia. }
  unfold slot_table_init. rewrite Hw, BITS_TO_LONGS_mul.
  destruct m as [|[] m]; [left; split; [done|exists 0%nat; split; [lia|done]]| |
    left; split; [done|exists 0%nat; split; [lia|done]]].
  destruct m as [|[] m]; [left; split; [done|exists 1%nat; split; [lia|done]]| |
    left; split; [done|exists 1%nat; split; [lia|done]]].
  destruct m as [|[] m]; [left; split; [done|exists 2%nat; split; [lia|done]]| |
    left; split; [done|exists 2%nat; split; [lia|done]]].
  right. split_and!; [done|done|]. intros ([|[|[|k]]]&?&Hk); done || lia.
Qed.

Lemma wp_on_mem {A} (m : M mem A) Q t k :
  wp m (λ a k', Q a (t, k')) k → wp (on_mem m) Q (t, k).
Proof. unfold wp, on_mem. by destruct (m k) as [[??]|]. Qed.

Lemma wp_expand_slot_table t m :
  table_ok t → slots_size t + 64 < 2 ^ 31 →
  wp expand_slot_table (λ r '(t', m'),
    (r = - ENOMEM ∧ t' = t ∧ oom m) ∨ (r = 0 ∧ t' = grown t ∧ m' = drop 3 m ∧ ¬ oom m)) (t, m).
Proof.
  intros [(n&Hn&Hsz&Hsl&Hbm&Hfu) H31 Hwd Hfull] Hroom. unfold expand_slot_table. wp_seq.
  unfold get_table. wp_seq. cbn [fst].
  assert (slots_size t + BASE_OBJECT_NUM = 64 * (n + 1)) as Hnew
    by (change BASE_OBJECT_NUM with 64; lia).
  rewrite Hnew, wrap_u32_small by lia.
  apply wp_on_mem. eapply wp_mono; [apply wp_slot_table_init; rewrite ?BITS_TO_LONGS_mul; lia|].
  intros r m' [[-> Hoom]|(->&->&Hno)]; [left; done|]. rewrite BITS_TO_LONGS_mul. cbv zeta.
  pose proof (BITS_TO_LONGS_bounds n ltac:(lia)).
  pose proof (BITS_TO_LONGS_bounds (n + 1) ltac:(lia)).
  rewrite Hsz, BITS_TO_LONGS_mul.
  cbn [slots slots_bmp full_slots_bmp slots_size].
  wp_seq. eapply wp_lift; [apply memcpy_grow; rewrite ?length_replicate; lia|].
  wp_seq. eapply wp_lift; [apply memcpy_grow; rewrite ?length_replicate; lia|].
  wp_seq. eapply wp_lift; [apply memcpy_grow; rewrite ?length_replicate; lia|].
  unfold set_table. wp_seq. right. split_and!; [done| |done|done].
  unfold grown. rewrite !drop_replicate, Hsz, div_64_mul. f_equal; [lia|..]; f_equal.
  - f_equal. lia.
  - change [0] with (replicate 1 0). f_equal. lia.
Qed.

Lemma used_grown t i : 0 ≤ i → used (grown t) i = used t i.
Proof. intros. by apply (bit_app_zeros _ 1). Qed.

Lemma lookup_bmp_grown t i w :
  (slots_bmp t ++ [0]) !! i = Some w → slots_bmp t !! i = Some w ∨ (i = length (slots_bmp t) ∧ w = 0).
Proof.
  intros [?|[Hge Hw]]%lookup_app_Some; [by left|]. right.
  apply list_lookup_singleton_Some in Hw as [? <-]. split; [lia|done].
Qed.

Lemma table_ok_grown t : table_ok t → slots_size t + 64 < 2 ^ 31 → table_ok (grown t).
Proof.
  intros [(n&Hn&Hsz&Hsl&Hbm&Hfu) H31 Hwd Hfull] Hroom.
  pose proof (BITS_TO_LONGS_bounds n ltac:(lia)).
  pose proof (BITS_TO_LONGS_bounds (n + 1) ltac:(lia)).
  split; cbn [grown slots slots_bmp full_slots_bmp slots_size].
  - exists (n + 1). rewrite !length_app, !length_replicate, Hsz, div_64_mul. simpl. lia.
  - lia.
  - intros k w [?|[_ ->]]%lookup_bmp_grown; [by eapply Hwd|lia].
  - intros i Hi. rewrite bit_app_zeros, Hfull by lia. split; [by intros ?%(lookup_app_l_Some _ [0])|].
    by intros [?|[_ ?]]%lookup_bmp_grown.
Qed.

(** The search of [alloc_slot_id] when some word is not full. *)
Lemma full_word_used t i k :
  table_ok t → 0 ≤ i → 0 ≤ k < 64 → bit (full_slots_bmp t) i = true → used t (64 * i + k) = true.
Proof.
  intros Ht Hi Hk Hb. apply (to_full t Ht) in Hb; [|done].
  eapply word_full; [apply Ht|done|done|done|done].
Qed.

Lemma not_full_word t i :
  table_ok t → 0 ≤ i < slots_size t / 64 → bit (full_slots_bmp t) i = false →
  ∃ k, 0 ≤ k < 64 ∧ used t (64 * i + k) = false.
Proof.
  intros Ht Hi Hb. destruct (to_size t Ht) as (n&_&Hsz&_&Hbm&_).
  rewrite Hsz, div_64_mul in Hi.
  destruct (lookup_lt_is_Some_2 (slots_bmp t) (Z.to_nat i)) as [w Hw]; [lia|].
  destruct (decide (Exists (λ k, used t (64 * i + k) = false) (seqZ 0 64))) as [He|Hne].
  - apply Exists_exists in He as (k&Hk%elem_of_seqZ&?). exists k. split; [lia|done].
  - exfalso. enough (w = 2 ^ 64 - 1) as ->.
    { apply (to_full t Ht) in Hw; [congruence|lia]. }
    apply (word_full (slots_bmp t) i w); [apply Ht|lia|done|]. intros k Hk. apply not_false_is_true.
    intros Hf. apply Hne, Exists_exists. exists k. split; [apply elem_of_seqZ; lia|done].
Qed.

Lemma wp_find_slot_id_found fuel t m i :
  table_ok t → 0 ≤ i < slots_size t / 64 → bit (full_slots_bmp t) i = false →
  wp (find_slot_id (S fuel)) (λ e s', s' = (t, m) ∧ ∃ r, e = inr (r, slots_size t) ∧
    0 ≤ r < slots_size t ∧ used t r = false ∧ ∀ j, 0 ≤ j < r → used t j = true) (t, m).
Proof.
  intros Ht Hi Hb. destruct (to_size t Ht) as (n&Hn&Hsz&_&Hbm&Hfu).
  pose proof (to_s31 t Ht). cbn [find_slot_id]. unfold get_table. wp_seq. cbn [fst].
  rewrite Hsz in *. rewrite div_64_mul in Hi.
  rewrite (to_s32_small (64 * n)), (wrap_u64_small (64 * n)) by lia.
  rewrite BITS_TO_LONGS_mul, (to_s32_small n), (wrap_u64_small n) by lia.
  pose proof (BITS_TO_LONGS_bounds n ltac:(lia)).
  destruct (find_next_bit_helper_spec (full_slots_bmp t) n 0 true)
    as (r1&Hr1&[Hr1b [Hbelow Hhit]]); [lia..|].
  eapply wp_lift; [exact Hr1|]. cbv beta.
  assert (r1 < n) as Hlt.
  { destruct (decide (r1 < n)); [done|]. rewrite Hbelow in Hb by lia. done. }
  rewrite bool_decide_eq_false_2 by lia.
  destruct (not_full_word t r1) as (k&Hk&Hku); [done|rewrite Hsz, div_64_mul; lia|by apply Hhit|].
  unfold BITS_PER_LONG. rewrite (wrap_u64_small (r1 * 64)) by lia.
  destruct (find_next_bit_helper_spec (slots_bmp t) (64 * n) (r1 * 64) true)
    as (r2&Hr2&[Hr2b [Hbelow2 Hhit2]]); [lia..|].
  wp_seq. eapply wp_lift; [exact Hr2|]. cbv beta.
  assert (r2 < 64 * n) as Hlt2.
  { destruct (decide (r2 < 64 * n)); [done|].
    assert (used t (64 * r1 + k) = true) by (apply Hbelow2; lia). congruence. }
  rewrite bool_decide_eq_false_2 by lia. wp_seq. split; [done|]. exists r2.
  split_and!; [done|lia|lia|by apply Hhit2|].
  intros j Hj. destruct (decide (j < r1 * 64)); [|apply Hbelow2; lia].
  rewrite (Z.div_mod j 64) by lia. apply full_word_used; [done|apply Z.div_pos; lia|apply bit_pos|].
  apply Hbelow. split; [apply Z.div_pos; lia|apply Z.div_lt_upper_bound; lia].
Qed.

(** When every word is full the table is expanded first. *)
Lemma find_slot_id_all_full fuel t m Q :
  table_ok t → (∀ i, 0 ≤ i < slots_size t / 64 → bit (full_slots_bmp t) i = true) →
  wp (r ← expand_slot_table; if bool_decide (r < 0) then mret (inl r) else find_slot_id fuel) Q (t, m) →
  wp (find_slot_id (S fuel)) Q (t, m).
Proof.
  intros Ht Hall HQ. destruct (to_size t Ht) as (n&Hn&Hsz&_&Hbm&Hfu).
  pose proof (to_s31 t Ht). cbn [find_slot_id]. unfold get_table. wp_seq. cbn [fst].
  rewrite Hsz in *. rewrite div_64_mul in Hall.
  rewrite (to_s32_small (64 * n)), (wrap_u64_small (64 * n)) by lia.
  rewrite BITS_TO_LONGS_mul, (to_s32_small n), (wrap_u64_small n) by lia.
  pose proof (BITS_TO_LONGS_bounds n ltac:(lia)).
  destruct (find_next_bit_helper_spec (full_slots_bmp t) n 0 true)
    as (r1&Hr1&[Hr1b [Hbelow Hhit]]); [lia..|].
  eapply wp_lift; [exact Hr1|]. cbv beta.
  assert (r1 = n) as ->.
  { destruct (decide (r1 < n)) as [Hlt|]; [|lia]. specialize (Hhit Hlt).
    rewrite Hall in Hhit by lia. done. }
  by rewrite bool_decide_eq_true_2 by lia.
Qed.

(** Taking an id: the rest of [alloc_slot_id] after the search. *)
Lemma table_ok_slots t sl :
  length sl = length (slots t) → table_ok t →
  table_ok (SlotTable (slots_size t) sl (full_slots_bmp t) (slots_bmp t)).
Proof.
  intros Hlen [(n&?&?&?&?&?) ? ? ?]. split; simpl; [|done..].
  exists n. rewrite Hlen. done.
Qed.

Definition taken (t : slot_table) (r : Z) (t' : slot_table) : Prop :=
  table_ok t' ∧ slots_size t' = slots_size t ∧ slots t' = slots t ∧
  ∀ j, 0 ≤ j → used t' j = bool_decide (j = r) || used t j.

Lemma word_update_full t r bmp i :
  table_ok t → 0 ≤ r < slots_size t → used t r = false → length bmp = length (slots_bmp t) →
  words bmp → (∀ k, k ≠ Z.to_nat (r / 64) → bmp !! k = slots_bmp t !! k) →
  0 ≤ i → i ≠ r / 64 →
  bit (full_slots_bmp t) i = true ↔ bmp !! Z.to_nat i = Some (2 ^ 64 - 1).
Proof.
  intros Ht Hr Hu Hlen Hw Hoth Hi Hne. rewrite Hoth; [by apply to_full|].
  intros Heq%Z2Nat.inj; [done|done|apply Z.div_pos; lia].
Qed.

(** Updating one id of the bitmap and its bit of [full_slots_bmp]. *)
Lemma wp_take_slot_id t r m :
  table_ok t → 0 ≤ r < slots_size t → used t r = false →
  wp (take_slot_id r (slots_size t)) (λ r' '(t', m'), r' = r ∧ m' = m ∧ taken t r t') (t, m).
Proof.
  intros Ht Hr Hu. destruct (to_size t Ht) as (n&Hn&Hsz&Hsl&Hbm&Hfu). pose proof (to_s31 t Ht).
  destruct (set_bit_spec (slots_bmp t) r) as (bmp&Hset&Hlen&Hwd&Hoth&Hbits); [lia..|].
  specialize (Hwd (to_words t Ht)).
  assert (0 ≤ r / 64 < n) as Hrw by (split; [apply Z.div_pos; lia|apply Z.div_lt_upper_bound; lia]).
  destruct (rd_word_ret bmp (r / 64)) as (w&Hw&Hrd); [lia|].
  pose proof (BITS_TO_LONGS_bounds n ltac:(lia)).
  assert (∀ j, 0 ≤ j → bit bmp j = bool_decide (j = r) || used t j) as Hb
    by (intros j Hj; rewrite Hbits by done; by case_bool_decide).
  assert (bit (full_slots_bmp t) (r / 64) = false) as Hnf.
  { apply not_true_is_false. intros Hf. rewrite (Z.div_mod r 64) in Hu by lia.
    rewrite full_word_used in Hu by (lia || done || apply bit_pos). done. }
  unfold take_slot_id. wp_seq. apply wp_bug_on.
  { by rewrite !bool_decide_eq_false_2 by lia. }
  unfold get_table. wp_seq. cbn [fst].
  eapply wp_lift; [done|]. unfold set_table. wp_seq. eapply wp_lift; [done|].
  cbv beta. change (wrap_u64 (Z.lnot 0)) with (2 ^ 64 - 1). change BITS_PER_LONG with 64.
  case_bool_decide as Hones; wp_seq.
  - destruct (set_bit_spec (full_slots_bmp t) (r / 64)) as (full&Hfs&Hfl&_&_&Hfb); [lia..|].
    eapply wp_lift; [done|]. wp_seq. split_and!; [done|done|]. split_and!; [|done|done|done].
    split; simpl; [exists n; lia|done|done|]. intros i Hi. rewrite Hfb by done.
    case_bool_decide as Hir; [|by eapply word_update_full]. subst i w. done.
  - split_and!; [done|done|]. split_and!; [|done|done|done].
    split; simpl; [exists n; lia|done|done|]. intros i Hi.
    destruct (decide (i = r / 64)) as [->|]; [|by eapply word_update_full].
    rewrite Hnf, Hw. split; [done|]. congruence.
Qed.

Lemma used_beyond t j : table_ok t → slots_size t ≤ j → used t j = false.
Proof.
  intros Ht Hj. destruct (to_size t Ht) as (n&?&?&_&?&_). unfold used, bit.
  rewrite lookup_ge_None_2; [done|].
  pose proof (Z.div_le_mono (64 * n) j 64 ltac:(lia) ltac:(lia)) as Hd. rewrite div_64_mul in Hd. lia.
Qed.

Lemma all_full_used t :
  table_ok t → (∀ i, 0 ≤ i < slots_size t / 64 → bit (full_slots_bmp t) i = true) →
  ∀ j, 0 ≤ j < slots_size t → used t j = true.
Proof.
  intros Ht Hall j Hj. destruct (to_size t Ht) as (n&_&Hsz&_&_&_).
  rewrite Hsz in *. rewrite div_64_mul in Hall.
  rewrite (Z.div_mod j 64) by lia. apply full_word_used; [done|apply Z.div_pos; lia|apply bit_pos|].
  apply Hall. split; [apply Z.div_pos; lia|apply Z.div_lt_upper_bound; lia].
Qed.

(** After an expansion of a table without free ids, the first free id is the
    first new one. *)
Lemma wp_find_slot_id_grown t m :
  table_ok t → slots_size t + 64 < 2 ^ 31 → (∀ j, 0 ≤ j < slots_size t → used t j = true) →
  wp (find_slot_id 1) (λ e s', s' = (grown t, m) ∧ e = inr (slots_size t, slots_size (grown t)))
    (grown t, m).
Proof.
  intros Ht Hroom Hused. destruct (to_size t Ht) as (n&Hn&Hsz&_&Hbm&_).
  pose proof (table_ok_grown t Ht Hroom) as Hg.
  eapply wp_mono.
  { apply (wp_find_slot_id_found 0 (grown t) m n); [done| |].
    - simpl. rewrite Hsz. replace (64 * n + 64) with (64 * (n + 1)) by lia.
      rewrite div_64_mul. lia.
    - apply not_true_is_false. intros Hb%(to_full _ Hg); [|lia].
      apply lookup_bmp_grown in Hb as [Hb%lookup_lt_Some|[_ ?]]; [lia|done]. }
  intros e s' (->&r&->&Hr&Hu&Hbelow). split; [done|]. do 2 f_equal.
  rewrite used_grown in Hu by lia. destruct (decide (r < slots_size t)).
  - rewrite Hused in Hu by lia. done.
  - destruct (decide (r = slots_size t)); [done|].
    specialize (Hbelow (slots_size t) ltac:(lia)).
    rewrite used_grown, used_beyond in Hbelow by (done || lia). done.
Qed.

(** [alloc_slot_id]: the smallest free id, after at most one expansion. *)
Lemma wp_alloc_slot_id t m :
  table_ok t → slots_size t + 64 < 2 ^ 31 →
  wp alloc_slot_id (λ r '(t', m'),
    (r = - ENOMEM ∧ t' = t ∧ oom m ∧ ∀ j, 0 ≤ j < slots_size t → used t j = true) ∨
    (0 ≤ r < slots_size t' ∧ used t r = false ∧ (∀ j, 0 ≤ j < r → used t j = true) ∧
     ((taken t r t' ∧ m' = m) ∨
      (r = slots_size t ∧ taken (grown t) r t' ∧ m' = drop 3 m ∧ ¬ oom m)))) (t, m).
Proof.
  intros Ht Hroom. destruct (to_size t Ht) as (n&Hn&Hsz&_&_&_). unfold alloc_slot_id. wp_seq.
  destruct (decide (Exists (λ i, bit (full_slots_bmp t) i = false) (seqZ 0 n))) as [He|Hne].
  - apply Exists_exists in He as (i&Hi%elem_of_seqZ&Hb).
    eapply wp_mono; [apply (wp_find_slot_id_found 1 t m i); [done|rewrite Hsz, div_64_mul; lia|done]|].
    intros e s' (->&r&->&Hr&Hu&Hbelow).
    eapply wp_mono; [by apply wp_take_slot_id|]. intros r' [t' m'] (->&->&Htk).
    right. split_and!; [lia|destruct Htk as (_&->&_); lia|done|done|by left].
  - assert (∀ i, 0 ≤ i < slots_size t / 64 → bit (full_slots_bmp t) i = true) as Hall.
    { rewrite Hsz, div_64_mul. intros i Hi. apply not_false_is_true. intros Hf.
      apply Hne, Exists_exists. exists i. split; [apply elem_of_seqZ; lia|done]. }
    pose proof (all_full_used t Ht Hall) as Hused.
    apply find_slot_id_all_full; [done|done|]. wp_seq.
    eapply wp_mono; [by apply wp_expand_slot_table|].
    intros r [t1 m1] [(->&->&Hoom)|(->&->&->&Hno)]; [by left|].
    rewrite bool_decide_eq_false_2 by lia.
    eapply wp_mono; [by apply wp_find_slot_id_grown|]. intros e s' [-> ->].
    pose proof (used_beyond t (slots_size t) Ht ltac:(lia)) as Hfree.
    eapply wp_mono.
    { apply wp_take_slot_id; [by apply table_ok_grown|simpl; lia|by rewrite used_grown by lia]. }
    intros r' [t' m'] (->&->&Htk). right.
    split_and!; [lia|destruct Htk as (_&->&_); simpl; lia|done|done|by right].
Qed.

(** ** Releasing and installing *)

Lemma store_spec a i v :
  0 ≤ i < Z.of_nat (length a) → store a i v = Ret (<[Z.to_nat i := v]> a).
Proof. intros. unfold store. by rewrite bool_decide_eq_true_2. Qed.

Lemma free_slot_id_spec t i :
  table_ok t → 0 ≤ i < slots_size t →
  ∃ t', free_slot_id i t = Ret t' ∧ table_ok t' ∧ slots_size t' = slots_size t ∧
    slots t' = <[Z.to_nat i := 0]> (slots t) ∧
    ∀ j, 0 ≤ j → used t' j = negb (bool_decide (j = i)) && used t j.
Proof.
  intros Ht Hi. destruct (to_size t Ht) as (n&Hn&Hsz&Hsl&Hbm&Hfu). pose proof (to_s31 t Ht).
  destruct (clear_bit_spec (slots_bmp t) i) as (bmp&Hset&Hlen&Hwd&Hoth&Hbits); [lia..|].
  specialize (Hwd (to_words t Ht)).
  assert (0 ≤ i / 64 < n) as Hiw by (split; [apply Z.div_pos; lia|apply Z.div_lt_upper_bound; lia]).
  pose proof (BITS_TO_LONGS_bounds n ltac:(lia)).
  destruct (clear_bit_spec (full_slots_bmp t) (i / 64)) as (full&Hfs&Hfl&_&_&Hfb); [lia..|].
  unfold free_slot_id. rewrite Hset, wrap_u64_small by lia. change BITS_PER_LONG with 64.
  cbn [mbind outcome_bind]. rewrite Hfs. cbn [mbind outcome_bind]. rewrite store_spec by lia.
  eexists. split; [done|]. cbn [slots_size slots].
  assert (∀ j, 0 ≤ j → bit bmp j = negb (bool_decide (j = i)) && used t j) as Hb
    by (intros j Hj; rewrite Hbits by done; by case_bool_decide).
  split_and!; [|done|done|done]. split; simpl; [exists n; rewrite length_insert; lia|done|done|].
  intros k Hk. rewrite Hfb by done. case_bool_decide as Hki.
  - subst k. split; [done|]. intros Hones. exfalso.
    pose proof (proj1 (word_full bmp (i / 64) _ Hwd ltac:(lia) Hones) eq_refl (i mod 64) (bit_pos i)) as Hu.
    rewrite <-Z.div_mod, Hb, bool_decide_eq_true_2 in Hu by lia. done.
  - rewrite Hoth; [by apply to_full|]. intros Heq%Z2Nat.inj; lia.
Qed.

Lemma install_slot_spec t i v :
  table_ok t → 0 ≤ i < slots_size t → used t i = true →
  install_slot i v t =
    Ret (SlotTable (slots_size t) (<[Z.to_nat i := v]> (slots t)) (full_slots_bmp t) (slots_bmp t)).
Proof.
  intros Ht Hi Hu. destruct (to_size t Ht) as (n&Hn&Hsz&Hsl&Hbm&Hfu). pose proof (to_s31 t Ht).
  unfold install_slot. rewrite get_bit_spec by lia. fold (used t i). rewrite Hu.
  cbn [mbind outcome_bind Z.b2z]. rewrite bool_decide_eq_false_2 by lia. by rewrite store_spec by lia.
Qed.

(** The slot pointer under an id, NULL outside the table. *)
Definition slot_at (t : slot_table) (i : Z) : Z :=
  if bool_decide (0 ≤ i < slots_size t) then default 0 (slots t !! Z.to_nat i) else 0.

Lemma get_slot_spec t i : table_ok t → get_slot i t = Ret (slot_at t i).
Proof.
  intros Ht. destruct (to_size t Ht) as (n&Hn&Hsz&Hsl&Hbm&Hfu). unfold get_slot, slot_at.
  case_bool_decide as H1; simpl; [by rewrite bool_decide_eq_false_2 by lia|].
  case_bool_decide as H2; simpl; [by rewrite bool_decide_eq_false_2 by lia|].
  rewrite bool_decide_eq_true_2 by lia. destruct (rd_word_ret (slots t) i) as (w&->&->); [lia|done].
Qed.

Lemma is_valid_slot_id_spec t i :
  table_ok t → (∀ j, 0 ≤ j → used t j = true ↔ slot_at t j ≠ 0) →
  is_valid_slot_id i t = Ret (bool_decide (slot_at t i ≠ 0)).
Proof.
  intros Ht Hsync. destruct (to_size t Ht) as (n&Hn&Hsz&Hsl&Hbm&Hfu). pose proof (to_s31 t Ht).
  unfold is_valid_slot_id.
  destruct (decide (0 ≤ i < slots_size t)) as [Hi|Hi].
  - rewrite !bool_decide_eq_false_2 by lia. simpl. rewrite get_bit_spec by lia. simpl.
    pose proof (Hsync i ltac:(lia)) as Hs. unfold used in Hs. unfold slot_at in *.
    rewrite (bool_decide_eq_true_2 (0 ≤ i < slots_size t)) in * by lia.
    destruct (rd_word_ret (slots t) i) as (w&Hw&->); [lia|]. rewrite Hw in *. simpl in *.
    destruct (bit (slots_bmp t) i); simpl.
    + assert (w ≠ 0) by (by apply Hs).
      rewrite (bool_decide_eq_false_2 (w = 0)) by done.
      by rewrite bool_decide_eq_true_2.
    + rewrite bool_decide_eq_false_2; [done|]. by intros ?%Hs.
  - replace (bool_decide (i < 0) || bool_decide (i >= slots_size t)) with true
      by (repeat case_bool_decide; lia || done).
    unfold slot_at. rewrite (bool_decide_eq_false_2 (0 ≤ i < _)) by lia. done.
Qed.
