(* ===== verification/Capability.v ===== *)
(** Capabilities ([kernel/object/capability.c], [kernel/object/cap_group.c]).

    A capability group is an object whose slot table maps capability numbers
    to slots; a slot names an object.  All slots of an object are linked in the
    object's [copies] list, and the object counts the slots that point to it
    plus the references taken by [obj_get].

    An object, its [opaque] part and, for a capability group, the group are one
    address here (0 is NULL).  Locks are not part of the state: each operation
    holds the table guards it needs, and what another CPU can do to it, make a
    [write_try_lock] fail, is the list [contention] of the outcomes of the try-locks
    to come (true is busy, and the empty list means no contention any more).
    The routines of [obj_deinit_tbl] can stop and can release other objects.  What they look at and what
    they do to objects is here: the state of a thread, the kind of a memory object, the
    memory objects that an address space has put off releasing ([details]).  What they do inside
    components that have models of their own is left to these (the futex table of a group in
    [Futex], the queue of a notification in [Notific], regions and page tables in
    [VmSpace], what becomes of the pages of a memory object in [RemoteFree], the nodes of its tree in [Radix]); [deinits] lists the objects whose
    routine was called. *)
From S2P Require Import Prelude Words ListHead Bitmap SlotTable.

(** ** Data *)

Definition EAGAIN : Z := 11.
Definition EINVAL : Z := 22.
Definition ECAPBILITY : Z := 200.

(** [enum object_type] *)
Definition TYPE_CAP_GROUP : Z := 0.
Definition TYPE_THREAD : Z := 1.
Definition TYPE_PMO : Z := 5.
Definition TYPE_VMSPACE : Z := 6.

Inductive dsm_status : Set :=
  DSM_STATUS_INVALID | DSM_STATUS_INUSE | DSM_STATUS_MIGRATING | DSM_STATUS_MIGRATED.

#[export] Instance dsm_status_eq_dec : EqDecision dsm_status.
Proof. solve_decision. Defined.

(** [rights] is [None] while the field is uninitialised memory. *)
Record object_slot := Slot {
  slot_id : Z; cap_group : Z; isvalid : bool; rights : option Z; slot_object : Z
}.

(** [obj_root] says that the object has a checkpoint root. *)
Record object := Object {
  obj_type : Z; obj_size : Z; refcount : Z; obj_root : bool; status : dsm_status; pair_obj : Z
}.

(** Addresses of the [struct list_head]s of the copies lists. *)
Inductive cnode : Set := CNull | CHead (o : Z) | CSlot (p : Z).

#[export] Instance cnode_eq_dec : EqDecision cnode.
Proof. solve_decision. Defined.
#[export] Instance cnode_countable : Countable cnode.
Proof.
  refine (inj_countable'
    (λ n, match n with CNull => inl () | CHead k => inr (inl k) | CSlot i => inr (inr i) end)
    (λ x, match x with inl () => CNull | inr (inl k) => CHead k | inr (inr i) => CSlot i end) _).
  by intros [].
Defined.
#[export] Instance CSlot_inj : Inj (=) (=) CSlot.
Proof. by intros ?? [=]. Qed.

(** [struct thread_ctx]: [te_exited] says that [thread_exit_state] is [TE_EXITED], [ts_exit] that [state] is
    [TS_EXIT]; [has_sc] that there is a scheduling context. *)
Inductive ctx_kind : Set := CTX_SHADOW | CTX_REGISTER | CTX_OTHER.
#[export] Instance ctx_kind_eq_dec : EqDecision ctx_kind.
Proof. solve_decision. Defined.
Record thread_ctx := ThreadCtx {
  te_exited : bool; ts_exit : bool; ctx_type : ctx_kind; is_fpu_owner : Z; ctx_cpuid : Z; has_sc : bool
}.

(** The case of [pmo_deinit] that a memory object is in: frames in a row from [start], the pages of a radix tree ([None] if the
    tree is [NULL]), memory that is not freed, or a type that it does not support. *)
Inductive pmo_kind : Set := PMO_FRAMES (start : Z) | PMO_RADIX (tree : option (list Z)) | PMO_FIXED | PMO_UNSUPPORTED.

(** [thread_group] and [thread_list] are [thread->cap_group] and [cap_group->thread_list]; [fpu_owner] is
    [cpu_info[cpu].fpu_owner], absent where it is [NULL]; [deferred_pmos] is [vmspace->deferred_pmo_list]; [freed_pages] lists the
    calls of [free_machine_page]. *)
Record details := Details {
  ctxs : gmap Z thread_ctx; thread_group : gmap Z Z; thread_list : gmap Z (list Z);
  fpu_owner : gmap Z Z; pmo_kinds : gmap Z pmo_kind; deferred_pmos : gmap Z (list Z); deinits : list (Z * Z);
  freed_pages : list Z
}.
Definition set_ctxs x d := Details x (thread_group d) (thread_list d) (fpu_owner d) (pmo_kinds d) (deferred_pmos d) (deinits d) (freed_pages d).
Definition set_thread_list x d := Details (ctxs d) (thread_group d) x (fpu_owner d) (pmo_kinds d) (deferred_pmos d) (deinits d) (freed_pages d).
Definition set_fpu_owner x d := Details (ctxs d) (thread_group d) (thread_list d) x (pmo_kinds d) (deferred_pmos d) (deinits d) (freed_pages d).
Definition set_deferred_pmos x d := Details (ctxs d) (thread_group d) (thread_list d) (fpu_owner d) (pmo_kinds d) x (deinits d) (freed_pages d).
Definition set_deinits x d := Details (ctxs d) (thread_group d) (thread_list d) (fpu_owner d) (pmo_kinds d) (deferred_pmos d) x (freed_pages d).
Definition set_freed_pages x d := Details (ctxs d) (thread_group d) (thread_list d) (fpu_owner d) (pmo_kinds d) (deferred_pmos d) (deinits d) x.
(** The memory of [o] goes. *)
Definition forget (o : Z) (d : details) : details :=
  Details (ctxs d) (delete o (thread_group d)) (delete o (thread_list d)) (fpu_owner d) (delete o (pmo_kinds d)) (delete o (deferred_pmos d)) (deinits d)
    (freed_pages d).
Definition no_details : details := Details ∅ ∅ ∅ ∅ ∅ ∅ [] [].

Record kstate := KState {
  groups : gmap Z slot_table;
  kslots : gmap Z object_slot;
  objects : gmap Z object;
  copies : gmap cnode (list_head cnode);
  det : details;
  kmem : mem;
  contention : list bool
}.

(** ** Field access *)

Definition set_groups (g : gmap Z slot_table) (s : kstate) : kstate :=
  KState g (kslots s) (objects s) (copies s) (det s) (kmem s) (contention s).
Definition set_kslots (m : gmap Z object_slot) (s : kstate) : kstate :=
  KState (groups s) m (objects s) (copies s) (det s) (kmem s) (contention s).
Definition set_objects (m : gmap Z object) (s : kstate) : kstate :=
  KState (groups s) (kslots s) m (copies s) (det s) (kmem s) (contention s).
Definition set_copies (h : gmap cnode (list_head cnode)) (s : kstate) : kstate :=
  KState (groups s) (kslots s) (objects s) h (det s) (kmem s) (contention s).
Definition set_det (d : details) (s : kstate) : kstate :=
  KState (groups s) (kslots s) (objects s) (copies s) d (kmem s) (contention s).
Definition set_kmem (m : mem) (s : kstate) : kstate :=
  KState (groups s) (kslots s) (objects s) (copies s) (det s) m (contention s).
Definition set_contention (c : list bool) (s : kstate) : kstate :=
  KState (groups s) (kslots s) (objects s) (copies s) (det s) (kmem s) c.

Definition set_refcount (n : Z) (o : object) : object :=
  Object (obj_type o) (obj_size o) n (obj_root o) (status o) (pair_obj o).
Definition set_status (st : dsm_status) (o : object) : object :=
  Object (obj_type o) (obj_size o) (refcount o) (obj_root o) st (pair_obj o).

Definition read_object (o : Z) : M kstate object := λ s, from_opt (objects s !! o) s.
Definition write_object (o : Z) (f : object → object) : M kstate unit :=
  ob ← read_object o;
  modify (λ s, set_objects (<[o := f ob]> (objects s)) s).
Definition read_slot (p : Z) : M kstate object_slot := λ s, from_opt (kslots s !! p) s.
Definition write_slot (p : Z) (sl : object_slot) : M kstate unit :=
  _ ← read_slot p;
  modify (λ s, set_kslots (<[p := sl]> (kslots s)) s).

(** Operations on the slot table of a group, on the copies lists, on memory. *)
Definition on_table {A} (g : Z) (m : M (slot_table * mem) A) : M kstate A := λ s,
  match groups s !! g with
  | None => Halt BadAccess
  | Some t =>
      match m (t, kmem s) with
      | Ret (a, (t', k')) => Ret (a, set_kmem k' (set_groups (<[g := t']> (groups s)) s))
      | Halt w => Halt w
      end
  end.
Definition table_read {A} (g : Z) (f : slot_table → outcome A) : M kstate A := λ s,
  match groups s !! g with None => Halt BadAccess | Some t => lift (f t) s end.
Definition table_op (g : Z) (f : slot_table → outcome slot_table) : M kstate unit := λ s,
  match groups s !! g with
  | None => Halt BadAccess
  | Some t => match f t with
              | Ret t' => Ret (tt, set_groups (<[g := t']> (groups s)) s)
              | Halt w => Halt w
              end
  end.
Definition copies_op (f : gmap cnode (list_head cnode) → outcome (gmap cnode (list_head cnode))) :
    M kstate unit := λ s,
  match f (copies s) with Ret h => Ret (tt, set_copies h s) | Halt w => Halt w end.
Definition copies_read {A} (f : gmap cnode (list_head cnode) → outcome A) : M kstate A := λ s,
  lift (f (copies s)) s.
Definition kalloc_k : M kstate bool := λ s,
  match kalloc (kmem s) with Ret (b, k) => Ret (b, set_kmem k s) | Halt w => Halt w end.

(** An address not in use (allocated memory never starts at NULL). *)
Definition fresh_addr {A} (m : gmap Z A) : Z := map_fold (λ k _ acc, Z.max k acc) 0 m + 1.

(** [slot = kmalloc(sizeof( *slot))], 0 when it fails *)
Definition kmalloc_slot : M kstate Z :=
  ok ← kalloc_k;
  if ok : bool then
    s ← get_state;
    let p := fresh_addr (kslots s) in
    modify (λ s, set_copies (<[CSlot p := ListNode CNull CNull]> (copies s))
                   (set_kslots (<[p := Slot 0 0 false None 0]> (kslots s)) s));;
    mret p
  else mret 0.
Definition kfree_slot (p : Z) : M kstate unit :=
  _ ← read_slot p;
  modify (λ s, set_copies (delete (CSlot p) (copies s)) (set_kslots (delete p (kslots s)) s)).

(** [atomic_fetch_add_64(&object->refcount, d)] *)
Definition refcount_add (o d : Z) : M kstate Z :=
  ob ← read_object o;
  write_object o (set_refcount (wrap_u64 (refcount ob + d)));;
  mret (refcount ob).

(** 0 on success, -1 when the lock is held by another CPU *)
Definition write_try_lock : M kstate Z := λ s,
  match contention s with
  | true :: c => Ret (-1, set_contention c s)
  | false :: c => Ret (0, set_contention c s)
  | [] => Ret (0, s)
  end.

(** ** Objects *)

Definition object_alloc (type size : Z) : M kstate Z :=
  ok ← kalloc_k;
  if ok : bool then
    s ← get_state;
    let o := fresh_addr (objects s) in
    modify (λ s, set_copies (<[CHead o := ListNode CNull CNull]> (copies s))
      (set_objects (<[o := Object type size 0 false DSM_STATUS_INVALID 0]> (objects s)) s));;
    copies_op (init_list_head (CHead o));;
    mret o
  else mret 0.

Definition obj_alloc (type size : Z) : M kstate Z := object_alloc type size.

Definition kfree_object (o : Z) : M kstate unit :=
  _ ← read_object o;
  modify (λ s, set_copies (delete (CHead o) (copies s)) (set_objects (delete o (objects s)) (set_det (forget o (det s)) s))).

Definition object_free (o : Z) : M kstate unit :=
  ob ← read_object o;
  bug_on (bool_decide (refcount ob ≠ 0));;
  kfree_object o.

Definition obj_free (obj : Z) : M kstate unit :=
  if bool_decide (obj = 0) then mret tt else object_free obj.

(** ** Releasing an object *)

Definition read_ctx (o : Z) : M kstate thread_ctx := λ s, from_opt (ctxs (det s) !! o) s.
Definition upd_det (f : details → details) : M kstate unit := modify (λ s, set_det (f (det s)) s).

Definition not_fpu_owner (t : thread_ctx) : thread_ctx :=
  ThreadCtx (te_exited t) (ts_exit t) (ctx_type t) (-1) (ctx_cpuid t) (has_sc t).

Definition clear_fpu_owner (o : Z) : M kstate unit :=
  t ← read_ctx o;
  let cpuid := is_fpu_owner t in
  when (bool_decide (cpuid >= 0))
    (s ← get_state;
     when (bool_decide (fpu_owner (det s) !! cpuid = Some o)) (upd_det (λ d, set_fpu_owner (delete cpuid (fpu_owner d)) d));;
     upd_det (λ d, set_ctxs (<[o := not_fpu_owner t]> (ctxs d)) d)).

Definition destroy_thread_ctx (o : Z) : M kstate unit :=
  t ← read_ctx o;
  when (bool_decide (is_fpu_owner t >= 0))
    (s ← get_state;
     bug_on (negb (bool_decide (fpu_owner (det s) !! ctx_cpuid t = Some o)));;
     upd_det (λ d, set_fpu_owner (delete (ctx_cpuid t) (fpu_owner d)) d));;
  when (negb (bool_decide (ctx_type t = CTX_SHADOW)) && negb (bool_decide (ctx_type t = CTX_REGISTER))) (bug_on (negb (has_sc t)));;
  when (bool_decide (ctx_type t = CTX_SHADOW) && ts_exit t) (bug_on (negb (has_sc t)));;
  upd_det (λ d, set_ctxs (delete o (ctxs d)) d).

Definition thread_deinit (o : Z) : M kstate unit :=
  t ← read_ctx o;
  bug_on (negb (te_exited t));;
  s ← get_state;
  g ← from_opt (thread_group (det s) !! o);
  l ← from_opt (thread_list (det s) !! g);
  upd_det (λ d, set_thread_list (<[g := filter (λ x, x ≠ o) l]> (thread_list d)) d);;
  destroy_thread_ctx o.

(** [free_machine_page], for each page of a list *)
Definition give_pages (l : list Z) : M kstate unit := upd_det (λ d, set_freed_pages (freed_pages d ++ l) d).

Definition pmo_deinit (o : Z) : M kstate unit :=
  s ← get_state;
  k ← from_opt (pmo_kinds (det s) !! o);
  match k with
  | PMO_FRAMES start => give_pages [start]
  | PMO_RADIX tree =>
      bug_on (bool_decide (tree = None));;
      give_pages (default [] tree)
  | PMO_FIXED => mret tt
  | PMO_UNSUPPORTED => halt BugHit
  end.

Definition cap_group_deinit (o : Z) : M kstate unit := modify (λ s, set_groups (delete o (groups s)) s).

(** [obj_put], for a given way to free an object *)
Definition obj_put_with (free : Z → M kstate unit) (o : Z) : M kstate unit :=
  old_refcount ← refcount_add o (-1);
  when (bool_decide (old_refcount = 1)) (free o).

(** The loop of [vmspace_deinit] over the deferred releases *)
Fixpoint put_deferred (free : Z → M kstate unit) (o : Z) (l : list Z) : M kstate unit :=
  match l with
  | [] => mret tt
  | p :: l' =>
      upd_det (λ d, set_deferred_pmos (<[o := l']> (deferred_pmos d)) d);;
      obj_put_with free p;;
      put_deferred free o l'
  end.
Definition vmspace_deinit (free : Z → M kstate unit) (o : Z) : M kstate unit :=
  s ← get_state;
  l ← from_opt (deferred_pmos (det s) !! o);
  put_deferred free o l.

(** The routine of [obj_deinit_tbl] for the object's type *)
Definition obj_deinit (free : Z → M kstate unit) (type o : Z) : M kstate unit :=
  upd_det (λ d, set_deinits ((type, o) :: deinits d) d);;
  if bool_decide (type = TYPE_CAP_GROUP) then cap_group_deinit o
  else if bool_decide (type = TYPE_THREAD) then thread_deinit o
  else if bool_decide (type = TYPE_PMO) then pmo_deinit o
  else if bool_decide (type = TYPE_VMSPACE) then vmspace_deinit free o
  else mret tt.

(** Releasing an address space can release memory objects; [fuel] bounds the depth.  An object is released when its last reference goes, so
    the depth is at most the number of objects. *)
Fixpoint free_object (fuel : nat) (o : Z) : M kstate unit :=
  match fuel with
  | O => halt OutOfFuel
  | S fuel' =>
      ob ← read_object o;
      if obj_root ob then mret tt
      else
        when (bool_decide (obj_type ob = TYPE_THREAD)) (clear_fpu_owner o);;
        obj_deinit (free_object fuel') (obj_type ob) o;;
        e ← copies_read (list_empty (CHead o));
        bug_on (negb e);;
        kfree_object o
  end.
Definition __free_object (o : Z) : M kstate unit := s ← get_state; free_object (S (size (objects s))) o.

(** [dsm_get_inuse_object(obj, true)], NULL as 0 *)
Definition dsm_get_inuse_object (o : Z) : M kstate Z :=
  ob ← read_object o;
  let pair_in_use : M kstate bool :=
    if bool_decide (pair_obj ob = 0) then mret false
    else pb ← read_object (pair_obj ob); mret (bool_decide (status pb = DSM_STATUS_INUSE)) in
  match status ob with
  | DSM_STATUS_INVALID => b ← pair_in_use; mret (if b : bool then pair_obj ob else 0)
  | DSM_STATUS_INUSE => mret o
  | DSM_STATUS_MIGRATING => halt Spins
  | DSM_STATUS_MIGRATED => b ← pair_in_use; bug_on (negb b);; mret (pair_obj ob)
  end.

Definition get_opaque (g id : Z) (type_valid : bool) (type : Z) : M kstate Z :=
  v ← table_read g (is_valid_slot_id id);
  if negb v then mret 0
  else
    p ← table_read g (get_slot id);
    slot ← read_slot p;
    bug_on (negb (isvalid slot));;
    o ← dsm_get_inuse_object (slot_object slot);
    bug_on (bool_decide (o = 0));;
    ob ← read_object o;
    if negb type_valid || bool_decide (obj_type ob = type) then
      _ ← refcount_add o 1;
      mret o
    else mret 0.

Definition obj_get (g id type : Z) : M kstate Z := get_opaque g id true type.

Definition obj_put (o : Z) : M kstate unit := obj_put_with __free_object o.

(** ** Capabilities *)

Definition cap_alloc (g obj rights : Z) : M kstate Z :=
  id ← on_table g alloc_slot_id;
  if bool_decide (id < 0) then mret (- ENOMEM)
  else
    p ← kmalloc_slot;
    if bool_decide (p = 0) then table_op g (free_slot_id id);; mret (- ENOMEM)
    else
      write_slot p (Slot id g true (Some rights) obj);;
      copies_op (list_add (CSlot p) (CHead obj));;
      ob ← read_object obj;
      bug_on (bool_decide (refcount ob ≠ 0));;
      write_object obj (set_refcount 1);;
      write_object obj (set_status DSM_STATUS_INUSE);;
      table_op g (install_slot id p);;
      mret id.

(** [__cap_free] with the table guard held. *)
Definition __cap_free_locked (g id : Z) : M kstate Z :=
  p ← table_read g (get_slot id);
  if bool_decide (p = 0) then mret (- ECAPBILITY)
  else
    slot ← read_slot p;
    if negb (isvalid slot) then mret (- ECAPBILITY)
    else
      table_op g (free_slot_id id);;
      copies_op (list_del (CSlot p));;
      kfree_slot p;;
      old_refcount ← refcount_add (slot_object slot) (-1);
      when (bool_decide (old_refcount = 1)) (__free_object (slot_object slot));;
      mret 0.

Definition __cap_free (g id : Z) (slot_table_locked copies_list_locked : bool) : M kstate Z :=
  busy ← (if negb slot_table_locked && copies_list_locked then write_try_lock else mret 0);
  if bool_decide (busy ≠ 0) then mret (- EAGAIN) else __cap_free_locked g id.

Definition cap_free (g id : Z) : M kstate Z := __cap_free g id false false.

(** [while (true) { read_lock(src); if (write_try_lock(dest) == 0) break; read_unlock(src); }] *)
Fixpoint lock_both (fuel : nat) : M kstate unit :=
  match fuel with
  | O => halt OutOfFuel
  | S fuel' => r ← write_try_lock; if bool_decide (r = 0) then mret tt else lock_both fuel'
  end.

(** [cap_copy] with the table guards held. *)
Definition cap_copy_locked (src_g dest_g src_id : Z) : M kstate Z :=
  src_slot ← table_read src_g (get_slot src_id);
  ok ← (if bool_decide (src_slot = 0) then mret false
        else sl ← read_slot src_slot; mret (isvalid sl));
  if negb ok then mret (- ECAPBILITY)
  else
    dest_id ← on_table dest_g alloc_slot_id;
    if bool_decide (dest_id = -1) then mret (- ENOMEM)
    else
      dest_slot ← kmalloc_slot;
      if bool_decide (dest_slot = 0) then
        table_op dest_g (free_slot_id dest_id);; mret (- ENOMEM)
      else
        src_slot ← table_read src_g (get_slot src_id);
        ok ← (if bool_decide (src_slot = 0) then mret false
              else sl ← read_slot src_slot; mret (isvalid sl));
        if negb ok then
          kfree_slot dest_slot;; table_op dest_g (free_slot_id dest_id);; mret (- ECAPBILITY)
        else
          sl ← read_slot src_slot;
          _ ← refcount_add (slot_object sl) 1;
          d ← read_slot dest_slot;
          write_slot dest_slot (Slot dest_id dest_g true (rights d) (slot_object sl));;
          copies_op (list_add (CSlot dest_slot) (CSlot src_slot));;
          table_op dest_g (install_slot dest_id dest_slot);;
          mret dest_id.

Definition cap_copy (src_g dest_g src_id : Z) : M kstate Z :=
  (if bool_decide (src_g = dest_g) then mret tt
   else s ← get_state; lock_both (S (length (contention s))));;
  cap_copy_locked src_g dest_g src_id.

Definition cap_move (src_g dest_g src_id : Z) : M kstate Z :=
  r ← cap_copy src_g dest_g src_id;
  if bool_decide (r < 0) then mret r
  else
    r ← cap_free src_g src_id;
    bug_on (bool_decide (r ≠ 0));;
    mret r.

(** [for_each_in_list_safe (slot_iter, slot_iter_tmp, copies, &object->copies_head)]
    of [cap_free_all]; false when [__cap_free] found its lock busy. *)
Fixpoint free_copies (fuel : nat) (o : Z) (elem : cnode) : M kstate bool :=
  match fuel with
  | O => halt OutOfFuel
  | S fuel' =>
      if bool_decide (elem = CHead o) then mret true
      else
        match elem with
        | CSlot p =>
            tmp ← copies_read (λ h, rd_next h elem);
            slot ← read_slot p;
            r ← __cap_free (cap_group slot) (to_s32 (slot_id slot)) false true;
            if bool_decide (r = - EAGAIN) then mret false
            else bug_on (bool_decide (r ≠ 0));; free_copies fuel' o tmp
        | _ => halt BadAccess
        end
  end.

(** The loop around it, [again: ...; goto again]. *)
Fixpoint free_all_copies (fuel : nat) (o : Z) : M kstate unit :=
  match fuel with
  | O => halt OutOfFuel
  | S fuel' =>
      elem ← copies_read (λ h, rd_next h (CHead o));
      s ← get_state;
      done ← free_copies (S (size (kslots s))) o elem;
      if done : bool then mret tt else free_all_copies fuel' o
  end.

Definition cap_free_all (g id : Z) : M kstate Z :=
  obj ← get_opaque g id false 0;
  if bool_decide (obj = 0) then mret (- ECAPBILITY)
  else
    s ← get_state;
    free_all_copies (S (length (contention s))) obj;;
    obj_put obj;;
    mret 0.

(** ** System calls; [cur] is the group of the calling thread *)

Definition with_group (cur cap : Z) (f : Z → M kstate Z) : M kstate Z :=
  g ← obj_get cur (to_s32 cap) TYPE_CAP_GROUP;
  if bool_decide (g = 0) then mret (- ECAPBILITY)
  else r ← f g; obj_put g;; mret r.

Definition sys_cap_copy_to (cur dest_cap_group_cap src_slot_id : Z) : M kstate Z :=
  with_group cur dest_cap_group_cap (λ dest, cap_copy cur dest (to_s32 src_slot_id)).
Definition sys_cap_copy_from (cur src_cap_group_cap src_slot_id : Z) : M kstate Z :=
  with_group cur src_cap_group_cap (λ src, cap_copy src cur (to_s32 src_slot_id)).
Definition sys_cap_move (cur dest_cap_group_cap src_slot_id : Z) : M kstate Z :=
  with_group cur dest_cap_group_cap (λ dest, cap_move cur dest (to_s32 src_slot_id)).
Definition sys_revoke_cap (cur obj_cap : Z) : M kstate Z := cap_free cur (to_s32 obj_cap).

(** [src_caps] is what [copy_from_user] reads, the result what [copy_to_user]
    writes back.  The two buffers are not checked for NULL. *)
Fixpoint transfer_loop (src_g dest_g : Z) (src_caps : list Z) : M kstate (list Z) :=
  match src_caps with
  | [] => mret []
  | c :: rest =>
      d ← cap_copy src_g dest_g c;
      ds ← transfer_loop src_g dest_g rest;
      mret (d :: ds)
  end.

Definition sys_transfer_caps (cur dest_group_cap : Z) (src_caps_buf : list Z) (nr_caps : Z) :
    M kstate (Z * list Z) :=
  dest ← obj_get cur (to_s32 dest_group_cap) TYPE_CAP_GROUP;
  if bool_decide (dest = 0) then mret (- ECAPBILITY, [])
  else if bool_decide (nr_caps < 0) || bool_decide (nr_caps > 1024) then
    obj_put dest;; mret (- EINVAL, [])
  else
    src_ok ← kalloc_k;
    dst_ok ← kalloc_k;
    if (negb src_ok || negb dst_ok) && bool_decide (0 < nr_caps) then halt BadAccess
    else
      src_caps ← lift (if bool_decide (nr_caps ≤ Z.of_nat (length src_caps_buf))
                       then Ret (take (Z.to_nat nr_caps) src_caps_buf) else Halt BadAccess);
      dst_caps ← transfer_loop cur dest src_caps;
      obj_put dest;;
      mret (0, dst_caps).

(** ** Capabilities at a given number (checkpoint restore and migration) *)

Definition cap_insert (g obj rights id : Z) : M kstate Z :=
  sz ← table_read g (λ t, Ret (slots_size t));
  bug_on (bool_decide (id < 0) || bool_decide (id >= sz));;
  table_op g (λ t, bmp ← set_bit id (slots_bmp t);
                   Ret (SlotTable (slots_size t) (slots t) (full_slots_bmp t) bmp));;
  w ← table_read g (λ t, rd_word (full_slots_bmp t) (id / BITS_PER_LONG));
  when (bool_decide (w = wrap_u64 (Z.lnot 0)))
    (table_op g (λ t, full ← set_bit (id / BITS_PER_LONG) (full_slots_bmp t);
                      Ret (SlotTable (slots_size t) (slots t) full (slots_bmp t))));;
  old ← table_read g (λ t, rd_word (slots t) id);
  p ← (if bool_decide (old = 0) then kmalloc_slot else mret old);
  if bool_decide (p = 0) then table_op g (free_slot_id id);; mret (- ENOMEM)
  else
    write_slot p (Slot id g true (Some rights) obj);;
    copies_op (list_add (CSlot p) (CHead obj));;
    _ ← refcount_add obj 1;
    table_op g (install_slot id p);;
    mret id.

Definition cap_replace (g obj id : Z) : M kstate Z :=
  sz ← table_read g (λ t, Ret (slots_size t));
  bug_on (bool_decide (id < 0) || bool_decide (id >= sz));;
  b ← table_read g (λ t, get_bit id (slots_bmp t));
  bug_on (bool_decide (b = 0));;
  p ← table_read g (λ t, rd_word (slots t) id);
  slot ← read_slot p;
  if bool_decide (slot_object slot = obj) then mret id
  else
    write_slot p (Slot (slot_id slot) (cap_group slot) (isvalid slot) (rights slot) obj);;
    copies_op (list_add (CSlot p) (CHead obj));;
    _ ← refcount_add obj 1;
    mret id.

(** ** Capability groups *)

Definition CAP_GROUP_OBJ_ID : Z := 0.
Definition VMSPACE_OBJ_ID : Z := 1.

Definition on_kmem {A} (m : M mem A) : M kstate A := λ s,
  match m (kmem s) with Ret (a, k) => Ret (a, set_kmem k s) | Halt w => Halt w end.

(** The slot table of a new group.  The futex state of the group is allocated
    after it: [futex_init] writes through the pointer, which is not checked, and
    does not look at the result of allocating its buckets. *)
Definition cap_group_init (g size : Z) : M kstate Z :=
  r ← on_kmem (slot_table_init size);
  match r with
  | inl _ => halt BugHit
  | inr t =>
      modify (λ s, set_groups (<[g := t]> (groups s)) s);;
      futex_ok ← kalloc_k;
      if negb futex_ok then halt BadAccess
      else _ ← kalloc_k; mret 0
  end.

(** The sizes are [sizeof(struct cap_group)] and [sizeof(struct vmspace)]. *)
Definition create_root_cap_group (cap_group_size vmspace_size : Z) : M kstate Z :=
  cap_group ← obj_alloc TYPE_CAP_GROUP cap_group_size;
  bug_on (bool_decide (cap_group = 0));;
  _ ← cap_group_init cap_group BASE_OBJECT_NUM;
  slot_id ← cap_alloc cap_group cap_group 0;
  bug_on (bool_decide (slot_id ≠ CAP_GROUP_OBJ_ID));;
  vmspace ← obj_alloc TYPE_VMSPACE vmspace_size;
  bug_on (bool_decide (vmspace = 0));;
  slot_id ← cap_alloc cap_group vmspace 0;
  bug_on (bool_decide (slot_id ≠ VMSPACE_OBJ_ID));;
  mret cap_group.

(** The capability state before the first group exists. *)
Definition no_groups (m : mem) : kstate := KState ∅ ∅ ∅ ∅ no_details m [].
