(* ===== verification/CapProofs.v ===== *)
(** The invariant of the capability system and the specifications of its
    operations, proved with the weakest-precondition rules of Prelude.v.

    [kinv P refs V s]: the tables, slots, objects and copies lists of [s] agree.
    [P] is the set of (group, id) pairs reserved in a bitmap but not installed
    yet (empty between operations), [refs o] the number of references to [o]
    taken by [obj_get] or held by the list of an address space and not yet returned, and [V] the contents of the copies
    lists. *)
From S2P Require Import Prelude Words ListHead Bitmap SlotTable Capability.

Record table_sync (P : gset (Z * Z)) (g : Z) (t : slot_table) : Prop := {
  ts_ok : table_ok t;
  ts_used j : 0 ≤ j → used t j = true ↔ slot_at t j ≠ 0 ∨ (g, j) ∈ P;
  ts_pend j : (g, j) ∈ P → 0 ≤ j < slots_size t ∧ slot_at t j = 0
}.

Record kinv (P : gset (Z * Z)) (refs : Z → Z) (V : gmap cnode (list cnode)) (s : kstate) : Prop := {
  ki_table g t : groups s !! g = Some t → table_sync P g t;
  ki_slot p sl : kslots s !! p = Some sl →
    0 < p ∧ isvalid sl = true ∧ 0 ≤ slot_id sl ∧ is_Some (objects s !! slot_object sl) ∧
    ∃ t, groups s !! cap_group sl = Some t ∧ slot_at t (slot_id sl) = p;
  ki_entry g t i : groups s !! g = Some t → slot_at t i ≠ 0 →
    ∃ sl, kslots s !! slot_at t i = Some sl ∧ cap_group sl = g ∧ slot_id sl = i;
  ki_rep : Rep (copies s) V;
  ki_obj o ob : objects s !! o = Some ob →
    0 < o ∧ ∃ ps, V !! CHead o = Some (CSlot <$> ps) ∧
      (∀ p, p ∈ ps ↔ ∃ sl, kslots s !! p = Some sl ∧ slot_object sl = o) ∧
      refcount ob = Z.of_nat (length ps) + refs o ∧ 0 ≤ refs o ∧ refcount ob < 2 ^ 64;
  ki_heads x xs : V !! x = Some xs → ∃ o, x = CHead o ∧ is_Some (objects s !! o)
}.

(** The capability map: which object a group's capability number names. *)
Definition cap_of (s : kstate) (g i : Z) : option Z :=
  t ← groups s !! g;
  sl ← kslots s !! slot_at t i;
  Some (slot_object sl).

(** ** Rules for the primitives *)

Section rules.
Context (s : kstate).

Lemma wp_on_table {A} g (m : M (slot_table * mem) A) Q t :
  groups s !! g = Some t →
  wp m (λ a '(t', k'), Q a (set_kmem k' (set_groups (<[g := t']> (groups s)) s))) (t, kmem s) →
  wp (on_table g m) Q s.
Proof.
  intros Hg. unfold wp, on_table. rewrite Hg. by destruct (m (t, kmem s)) as [[a [t' k']]|].
Qed.

Lemma wp_table_read {A} g (f : slot_table → outcome A) a Q t :
  groups s !! g = Some t → f t = Ret a → Q a s → wp (table_read g f) Q s.
Proof. intros Hg Hf. unfold wp, table_read, lift. by rewrite Hg, Hf. Qed.

Lemma wp_table_op g f (Q : unit → kstate → Prop) t t' :
  groups s !! g = Some t → f t = Ret t' →
  Q tt (set_groups (<[g := t']> (groups s)) s) → wp (table_op g f) Q s.
Proof. intros Hg Hf. unfold wp, table_op. by rewrite Hg, Hf. Qed.

Lemma wp_copies_op f h (Q : unit → kstate → Prop) :
  f (copies s) = Ret h → Q tt (set_copies h s) → wp (copies_op f) Q s.
Proof. intros Hf. unfold wp, copies_op. by rewrite Hf. Qed.

Lemma wp_copies_read {A} (f : gmap cnode (list_head cnode) → outcome A) a Q :
  f (copies s) = Ret a → Q a s → wp (copies_read f) Q s.
Proof. intros Hf. unfold wp, copies_read, lift. by rewrite Hf. Qed.

Lemma wp_read_object o ob Q : objects s !! o = Some ob → Q ob s → wp (read_object o) Q s.
Proof. intros Ho. unfold wp, read_object, from_opt. by rewrite Ho. Qed.

Lemma wp_write_object o f ob (Q : unit → kstate → Prop) :
  objects s !! o = Some ob → Q tt (set_objects (<[o := f ob]> (objects s)) s) →
  wp (write_object o f) Q s.
Proof. intros Ho HQ. unfold write_object. wp_seq. eapply wp_read_object; [done|]. by wp_seq. Qed.

Lemma wp_read_slot p sl Q : kslots s !! p = Some sl → Q sl s → wp (read_slot p) Q s.
Proof. intros Ho. unfold wp, read_slot, from_opt. by rewrite Ho. Qed.

Lemma wp_write_slot p sl sl' (Q : unit → kstate → Prop) :
  kslots s !! p = Some sl → Q tt (set_kslots (<[p := sl']> (kslots s)) s) →
  wp (write_slot p sl') Q s.
Proof. intros Ho HQ. unfold write_slot. wp_seq. eapply wp_read_slot; [done|]. by wp_seq. Qed.

Lemma wp_refcount_add o d ob Q :
  objects s !! o = Some ob →
  Q (refcount ob)
    (set_objects (<[o := set_refcount (wrap_u64 (refcount ob + d)) ob]> (objects s)) s) →
  wp (refcount_add o d) Q s.
Proof.
  intros Ho HQ. unfold refcount_add. wp_seq. eapply wp_read_object; [done|]. wp_seq.
  eapply wp_write_object; [done|]. by wp_seq.
Qed.
End rules.

Lemma map_fold_max_le {A} (m : gmap Z A) k v :
  m !! k = Some v → k ≤ map_fold (λ k _ acc, Z.max k acc) 0 m.
Proof.
  apply (map_fold_weak_ind (λ acc m, m !! k = Some v → k ≤ acc)); [by intros ?|].
  intros i x m' r Hi IH. destruct (decide (i = k)) as [->|].
  - lia.
  - rewrite lookup_insert_ne by done. intros ?%IH. lia.
Qed.

Lemma map_fold_max_nonneg {A} (m : gmap Z A) : 0 ≤ map_fold (λ k _ acc, Z.max k acc) 0 m.
Proof. apply (map_fold_weak_ind (λ acc _, 0 ≤ acc)); [done|]. intros. lia. Qed.

Lemma fresh_addr_spec {A} (m : gmap Z A) : 0 < fresh_addr m ∧ m !! fresh_addr m = None.
Proof.
  unfold fresh_addr. pose proof (map_fold_max_nonneg m). split; [lia|].
  destruct (m !! _) eqn:E; [|done]. apply map_fold_max_le in E. lia.
Qed.

(** Allocation of a slot: NULL, or an address not in use. *)
Lemma wp_kmalloc_slot s Q :
  (head (kmem s) ≠ Some true → Q 0 (set_kmem (tail (kmem s)) s)) →
  (∀ p, 0 < p → kslots s !! p = None →
     Q p (set_copies (<[CSlot p := ListNode CNull CNull]> (copies s))
            (set_kslots (<[p := Slot 0 0 false None 0]> (kslots s)) (set_kmem (tail (kmem s)) s)))) →
  wp kmalloc_slot Q s.
Proof.
  intros H0 H1. unfold kmalloc_slot, kalloc_k, kalloc.
  destruct (fresh_addr_spec (kslots s)) as [??]. unfold wp, mbind, M_bind.
  destruct (kmem s) as [|[] k] eqn:E; simpl in *; [by apply H0| |by apply H0].
  by apply H1.
Qed.

Lemma wp_kfree_slot s p sl (Q : unit → kstate → Prop) :
  kslots s !! p = Some sl →
  Q tt (set_copies (delete (CSlot p) (copies s)) (set_kslots (delete p (kslots s)) s)) →
  wp (kfree_slot p) Q s.
Proof. intros Hp HQ. unfold kfree_slot. wp_seq. eapply wp_read_slot; [done|]. by wp_seq. Qed.

(** ** Consequences of the invariant *)

Section kinv.
Context (P : gset (Z * Z)) (refs : Z → Z) (V : gmap cnode (list cnode)) (s : kstate).
Hypothesis HI : kinv P refs V s.

Lemma kinv_get_slot g t i : groups s !! g = Some t → get_slot i t = Ret (slot_at t i).
Proof using HI. intros Hg. apply get_slot_spec. eapply ts_ok, ki_table; done. Qed.

Lemma slot_at_range t i : slot_at t i ≠ 0 → 0 ≤ i < slots_size t.
Proof. unfold slot_at. by case_bool_decide. Qed.

(** The slots of the copies lists are allocated. *)
Lemma kinv_on_list p : on_list V (CSlot p) → is_Some (kslots s !! p).
Proof using HI.
  intros (x&xs&Hx&Hin). destruct (ki_heads _ _ _ _ HI _ _ Hx) as (o&->&[ob Ho]).
  destruct (ki_obj _ _ _ _ HI _ _ Ho) as (_&ps&HV&Hps&_). simplify_eq.
  apply elem_of_cons in Hin as [|Hin]; [done|].
  apply list_elem_of_fmap in Hin as (q&[= ->]&Hq). apply Hps in Hq as (sl&?&_). by exists sl.
Qed.

(** The slot behind a capability, and its position in the copies list. *)
Lemma kinv_slot_split p sl :
  kslots s !! p = Some sl →
  ∃ xs ys ob, objects s !! slot_object sl = Some ob ∧
    V !! CHead (slot_object sl) = Some ((CSlot <$> xs) ++ CSlot p :: (CSlot <$> ys)) ∧
    (p ∉ xs) ∧ (p ∉ ys) ∧
    (∀ q, q ∈ xs ++ p :: ys ↔ ∃ sl', kslots s !! q = Some sl' ∧ slot_object sl' = slot_object sl) ∧
    refcount ob = Z.of_nat (length (xs ++ ys)) + 1 + refs (slot_object sl) ∧
    0 ≤ refs (slot_object sl) ∧ refcount ob < 2 ^ 64.
Proof using HI.
  intros Hp. destruct (ki_slot _ _ _ _ HI _ _ Hp) as (_&_&_&[ob Ho]&_).
  destruct (ki_obj _ _ _ _ HI _ _ Ho) as (_&ps&HV&Hps&Hrc&?&?).
  assert (p ∈ ps) as (xs&ys&->)%list_elem_of_split by (apply Hps; by exists sl).
  pose proof (rep_list _ _ (ki_rep _ _ _ _ HI) _ _ HV) as [_ Hnd].
  rewrite fmap_app, fmap_cons in *. apply NoDup_cons in Hnd as [_ Hnd].
  apply NoDup_app in Hnd as (_&Hd&Hnd). apply NoDup_cons in Hnd as [Hny _].
  exists xs, ys, ob. split_and!; [done|done| | |done| |done|done].
  - intros Hx. apply (Hd (CSlot p)); [by apply list_elem_of_fmap_2|set_solver].
  - intros Hy. apply Hny. by apply list_elem_of_fmap_2.
  - rewrite Hrc, !length_app. simpl. lia.
Qed.
End kinv.

(** ** Slot tables *)

Lemma slot_at_ext t t' j :
  slots_size t' = slots_size t → slots t' = slots t → slot_at t' j = slot_at t j.
Proof. unfold slot_at. by intros -> ->. Qed.

Lemma slot_at_grown t j : table_ok t → slot_at (grown t) j = slot_at t j.
Proof.
  intros Ht. destruct (to_size t Ht) as (n&Hn&Hsz&Hsl&_). unfold slot_at.
  cbn [grown slots slots_size].
  destruct (decide (0 ≤ j < slots_size t)) as [Hj|Hj].
  - rewrite !bool_decide_eq_true_2 by lia. by rewrite lookup_app_l by lia.
  - rewrite (bool_decide_eq_false_2 (0 ≤ j < slots_size t)) by lia.
    case_bool_decide; [|done]. rewrite lookup_app_r by lia.
    destruct (replicate 64 0 !! (Z.to_nat j - length (slots t))%nat) eqn:E; [|done]. by apply lookup_replicate in E as [-> _].
Qed.

Lemma slot_at_insert t i v j sz full bmp :
  table_ok t → 0 ≤ i < slots_size t → sz = slots_size t →
  slot_at (SlotTable sz (<[Z.to_nat i := v]> (slots t)) full bmp) j =
    if bool_decide (j = i) then v else slot_at t j.
Proof.
  intros Ht Hi ->. destruct (to_size t Ht) as (n&Hn&Hsz&Hsl&_). unfold slot_at. simpl.
  case_bool_decide as Hr.
  - case_bool_decide as Hji; [subst j; by rewrite list_lookup_insert_eq by lia|].
    rewrite list_lookup_insert_ne; [done|]. intros ?%Z2Nat.inj; lia.
  - rewrite bool_decide_eq_false_2; [done|]. lia.
Qed.

Lemma table_sync_taken P g t r t' :
  table_sync P g t → 0 ≤ r < slots_size t → used t r = false → taken t r t' →
  table_sync ({[(g, r)]} ∪ P) g t' ∧ (∀ j, slot_at t' j = slot_at t j).
Proof.
  intros [Hok Hu Hp] Hr Hfree (Hok'&Hsz&Hsl&Hu').
  assert (∀ j, slot_at t' j = slot_at t j) as Hat by (intros; by apply slot_at_ext).
  assert (¬ (slot_at t r ≠ 0 ∨ (g, r) ∈ P)) as Hnr by (rewrite <-Hu by lia; by rewrite Hfree).
  split; [|done]. split; [done| |].
  - intros j Hj. rewrite Hu', Hat, orb_true_iff, Hu, bool_decide_eq_true by done. set_solver.
  - intros j Hj. rewrite Hat, Hsz. apply elem_of_union in Hj as [Hj|Hj]; [|by apply Hp].
    assert (j = r) as -> by set_solver. split; [done|].
    destruct (decide (slot_at t r = 0)); [done|]. tauto.
Qed.

Lemma table_sync_grown P g t : table_sync P g t → slots_size t + 64 < 2 ^ 31 → table_sync P g (grown t).
Proof.
  intros [Hok Hu Hp] Hroom. split; [by apply table_ok_grown| |].
  - intros j Hj. by rewrite used_grown, slot_at_grown, Hu.
  - intros j Hj. rewrite slot_at_grown by done. apply Hp in Hj. simpl. lia.
Qed.

(** Reserving an id: the whole of [alloc_slot_id]. *)
Lemma wp_alloc_slot_id_sync P g t m :
  table_sync P g t → slots_size t + 64 < 2 ^ 31 →
  wp alloc_slot_id (λ r '(t', m'),
    (r = - ENOMEM ∧ t' = t ∧ oom m ∧ ∀ j, 0 ≤ j < slots_size t → used t j = true) ∨
    (0 ≤ r < slots_size t' ∧ used t r = false ∧ (∀ j, 0 ≤ j < r → used t j = true) ∧
     table_sync ({[(g, r)]} ∪ P) g t' ∧ (∀ j, slot_at t' j = slot_at t j) ∧
     (m' = m ∨ m' = drop 3 m) ∧ slots_size t' ≤ slots_size t + 64)) (t, m).
Proof.
  intros Hs Hroom. eapply wp_mono; [apply wp_alloc_slot_id; [apply Hs|done]|].
  intros r [t' m'] [?|(Hr&Hu&Hb&Htk)]; [by left|right]. split_and!; [lia|lia|done|done|..];
    destruct Htk as [[Htk ?]|(->&Htk&?&?)]; auto;
    try (destruct Htk as (_&->&_); cbn [grown slots_size]; lia).
  - assert (0 ≤ r < slots_size t) by (destruct Htk as (_&<-&_); lia). by eapply table_sync_taken.
  - eapply table_sync_taken; [by apply table_sync_grown|simpl; lia|by rewrite used_grown by lia|done].
  - assert (0 ≤ r < slots_size t) by (destruct Htk as (_&<-&_); lia). by eapply table_sync_taken.
  - intros j. rewrite <-(slot_at_grown t) by apply Hs. 
    by apply slot_at_ext; apply Htk.
Qed.

(** Releasing an id, reserved or installed. *)
Lemma table_sync_free P g t i :
  table_sync P g t → 0 ≤ i < slots_size t →
  ∃ t', free_slot_id i t = Ret t' ∧ table_sync (P ∖ {[(g, i)]}) g t' ∧
    (∀ j, slot_at t' j = if bool_decide (j = i) then 0 else slot_at t j).
Proof.
  intros [Hok Hu Hp] Hi. destruct (free_slot_id_spec t i Hok Hi) as (t'&Hf&Hok'&Hsz&Hsl&Hu').
  assert (∀ j, slot_at t' j = if bool_decide (j = i) then 0 else slot_at t j) as Hat.
  { intros j. rewrite <-(slot_at_insert t i 0 j (slots_size t) (full_slots_bmp t') (slots_bmp t')) by done.
    by apply slot_at_ext. }
  exists t'. split_and!; [done| |done]. split; [done| |].
  - intros j Hj. rewrite Hu', Hat by done. case_bool_decide as Hji; simpl.
    + subst j. set_solver.
    + rewrite Hu by done. set_solver.
  - intros j Hj. rewrite Hsz, Hat. case_bool_decide; [subst; done|]. apply Hp. set_solver.
Qed.

(** Installing a slot under a reserved id. *)
Lemma table_sync_install P g t i p :
  table_sync P g t → (g, i) ∈ P → p ≠ 0 →
  ∃ t', install_slot i p t = Ret t' ∧ slots_size t' = slots_size t ∧
    table_sync (P ∖ {[(g, i)]}) g t' ∧
    (∀ j, slot_at t' j = if bool_decide (j = i) then p else slot_at t j).
Proof.
  intros [Hok Hu Hp] Hin Hp0. destruct (Hp i Hin) as [Hi Hi0].
  assert (used t i = true) as Hui by (apply Hu; [lia|by right]).
  eexists. split; [by apply install_slot_spec|].
  assert (∀ j, slot_at (SlotTable (slots_size t) (<[Z.to_nat i := p]> (slots t)) (full_slots_bmp t)
    (slots_bmp t)) j = if bool_decide (j = i) then p else slot_at t j) as Hat
    by (intros; by apply slot_at_insert).
  split; [done|]. split; [|done]. split.
  - apply table_ok_slots; [by rewrite length_insert|done].
  - intros j Hj. rewrite Hat. fold (used t j). unfold used at 1. simpl. fold (used t j).
    case_bool_decide as Hji; [subst j; tauto|]. rewrite Hu by done. set_solver.
  - intros j Hj. rewrite Hat. simpl. case_bool_decide; [set_solver|]. apply Hp. set_solver.
Qed.

(** ** The invariant under state changes *)

Lemma kinv_ext P refs V s s' :
  groups s' = groups s → kslots s' = kslots s → objects s' = objects s → copies s' = copies s →
  kinv P refs V s → kinv P refs V s'.
Proof. intros Hg Hk Ho Hc [????? ?]. split; rewrite ?Hg, ?Hk, ?Ho, ?Hc; done. Qed.

(** A table changes, its entries do not (an id is reserved or given back). *)
Lemma kinv_table P P' refs V s g t t' k :
  kinv P refs V s → groups s !! g = Some t → table_sync P' g t' →
  (∀ j, slot_at t' j = slot_at t j) → (∀ g' j, g' ≠ g → (g', j) ∈ P' ↔ (g', j) ∈ P) →
  kinv P' refs V (set_kmem k (set_groups (<[g := t']> (groups s)) s)).
Proof.
  intros HI Hg Hs' Hat HP. split; simpl; try apply HI.
  - intros g' t'' Ht. destruct (decide (g' = g)) as [->|Hne].
    { rewrite lookup_insert_eq in Ht. by simplify_eq. }
    rewrite lookup_insert_ne in Ht by done. destruct (ki_table _ _ _ _ HI _ _ Ht) as [? Hu Hp].
    split; [done| |].
    + intros j Hj. rewrite (HP g' j Hne). by apply Hu.
    + intros j Hj. apply Hp. by rewrite <-HP.
  - intros p sl Hp. destruct (ki_slot _ _ _ _ HI _ _ Hp) as (?&?&?&?&t0&Hg0&Hat0).
    split_and!; [done..|]. destruct (decide (cap_group sl = g)) as [Heq|Hne].
    + exists t'. rewrite Heq, lookup_insert_eq, Hat. rewrite Heq in Hg0. by simplify_eq.
    + exists t0. by rewrite lookup_insert_ne.
  - intros g' t'' i Ht Hi. destruct (decide (g' = g)) as [->|Hne].
    + rewrite lookup_insert_eq in Ht. simplify_eq. rewrite Hat in *. by eapply ki_entry.
    + rewrite lookup_insert_ne in Ht by done. by eapply ki_entry.
Qed.

(** A reserved id gets a slot: the slot is linked into its object's copies
    list and counted. *)
Definition new_cap_state (s : kstate) (g : Z) (t' : slot_table) (p : Z) (sl : object_slot)
    (ob' : object) (h' : gmap cnode (list_head cnode)) : kstate :=
  set_groups (<[g := t']> (groups s)) (set_kslots (<[p := sl]> (kslots s))
    (set_objects (<[slot_object sl := ob']> (objects s)) (set_copies h' s))).

Lemma kinv_new_cap P refs V s g t t' p sl ob ob' h' xs ys :
  kinv P refs V s → groups s !! g = Some t → (g, slot_id sl) ∈ P → 0 < p →
  kslots s !! p = None → table_sync (P ∖ {[(g, slot_id sl)]}) g t' →
  (∀ j, slot_at t' j = if bool_decide (j = slot_id sl) then p else slot_at t j) →
  cap_group sl = g → isvalid sl = true → objects s !! slot_object sl = Some ob →
  V !! CHead (slot_object sl) = Some (xs ++ ys) →
  Rep h' (<[CHead (slot_object sl) := xs ++ CSlot p :: ys]> V) →
  refcount ob' = refcount ob + 1 → refcount ob + 1 < 2 ^ 64 →
  kinv (P ∖ {[(g, slot_id sl)]}) refs (<[CHead (slot_object sl) := xs ++ CSlot p :: ys]> V)
    (new_cap_state s g t' p sl ob' h').
Proof.
  intros HI Hg Hin Hp Hfresh Hsync Hat Hcg Hval Hob HV HR Hrc Hb.
  pose proof (ki_table _ _ _ _ HI _ _ Hg) as [_ _ Hpend]. destruct (Hpend _ Hin) as [Hid Hid0].
  assert (∀ j, slot_at t j ≠ p) as Hnp.
  { intros j Hj. destruct (ki_entry _ _ _ _ HI _ _ j Hg) as (sl'&Hsl'&_); [lia|].
    rewrite Hj in Hsl'. congruence. }
  split; simpl.
  - intros g' t'' Ht. destruct (decide (g' = g)) as [->|Hne].
    { rewrite lookup_insert_eq in Ht. by simplify_eq. }
    rewrite lookup_insert_ne in Ht by done. destruct (ki_table _ _ _ _ HI _ _ Ht) as [? Hu Hpd].
    split; [done| |].
    + intros j Hj. rewrite Hu by done. set_solver.
    + intros j Hj. apply Hpd. set_solver.
  - intros q sl' Hq. destruct (decide (q = p)) as [->|Hne].
    + rewrite lookup_insert_eq in Hq. injection Hq as <-. split_and!; [done|done|lia| |].
      * rewrite lookup_insert_eq. eauto.
      * exists t'. rewrite Hcg, lookup_insert_eq, Hat, bool_decide_eq_true_2 by done. done.
    + rewrite lookup_insert_ne in Hq by done.
      destruct (ki_slot _ _ _ _ HI _ _ Hq) as (?&?&?&Ho&t0&Hg0&Hat0). split_and!; [done..| |].
      * destruct (decide (slot_object sl' = slot_object sl)) as [->|];
          [rewrite lookup_insert_eq; eauto|by rewrite lookup_insert_ne].
      * destruct (decide (cap_group sl' = g)) as [Heq|?].
        -- exists t'. rewrite Heq, lookup_insert_eq, Hat. rewrite Heq in Hg0. simplify_eq.
           split; [done|]. rewrite bool_decide_eq_false_2; [done|]. intros Hx. rewrite Hx in *. lia.
        -- exists t0. by rewrite lookup_insert_ne.
  - intros g' t'' i Ht Hi. destruct (decide (g' = g)) as [->|Hne].
    + rewrite lookup_insert_eq in Ht. injection Ht as <-. rewrite Hat in *.
      case_bool_decide as Hji; [subst i; exists sl; by rewrite lookup_insert_eq|].
      rewrite lookup_insert_ne by (by intros ?; eapply Hnp). by eapply ki_entry.
    + rewrite lookup_insert_ne in Ht by done.
      destruct (ki_entry _ _ _ _ HI _ _ _ Ht Hi) as (sl'&Hsl'&?&?). exists sl'.
      rewrite lookup_insert_ne; [done|]. congruence.
  - done.
  - intros o ob'' Ho. destruct (decide (o = slot_object sl)) as [->|Hne].
    + rewrite lookup_insert_eq in Ho. injection Ho as <-.
      destruct (ki_obj _ _ _ _ HI _ _ Hob) as (?&ps&HV'&Hps&Hrc'&?&?). split; [done|].
      rewrite HV in HV'. injection HV' as HV'.
      symmetry in HV'. apply fmap_app_inv in HV' as (ps1&ps2&->&->&->).
      exists (ps1 ++ p :: ps2). rewrite lookup_insert_eq, fmap_app, fmap_cons.
      split_and!; [done| | |done|lia].
      * intros q. destruct (decide (q = p)) as [->|Hqp].
        -- rewrite lookup_insert_eq. split; [eauto|set_solver].
        -- rewrite lookup_insert_ne, <-Hps by done. set_solver.
      * rewrite Hrc, Hrc', !length_app. simpl. lia.
    + rewrite lookup_insert_ne in Ho by done.
      destruct (ki_obj _ _ _ _ HI _ _ Ho) as (?&ps&HV'&Hps&?&?&?). split; [done|]. exists ps.
      rewrite lookup_insert_ne by congruence. split_and!; [done| |done..].
      intros q. destruct (decide (q = p)) as [->|Hqp].
      * rewrite lookup_insert_eq, Hps. split; [intros (?&?&?); congruence|intros (?&?&?); congruence].
      * by rewrite lookup_insert_ne, <-Hps.
  - intros x l Hx. destruct (decide (x = CHead (slot_object sl))) as [->|Hne].
    + exists (slot_object sl). rewrite lookup_insert_eq. eauto.
    + rewrite lookup_insert_ne in Hx by done. destruct (ki_heads _ _ _ _ HI _ _ Hx) as (o&->&Ho).
      exists o. split; [done|]. rewrite lookup_insert_ne; [done|]. congruence.
Qed.

(** A capability is removed: its id is free, its slot is unlinked and freed,
    and its object counts one slot less. *)
Definition del_cap_state (s : kstate) (g : Z) (t' : slot_table) (p : Z) (o : Z)
    (ob' : object) (h' : gmap cnode (list_head cnode)) : kstate :=
  set_groups (<[g := t']> (groups s)) (set_kslots (delete p (kslots s))
    (set_objects (<[o := ob']> (objects s)) (set_copies (delete (CSlot p) h') s))).

Lemma kinv_del_cap refs V s g t t' p sl ob ob' h' xs ys :
  kinv ∅ refs V s → groups s !! g = Some t → kslots s !! p = Some sl → cap_group sl = g →
  table_sync ∅ g t' →
  (∀ j, slot_at t' j = if bool_decide (j = slot_id sl) then 0 else slot_at t j) →
  objects s !! slot_object sl = Some ob →
  V !! CHead (slot_object sl) = Some ((CSlot <$> xs) ++ CSlot p :: (CSlot <$> ys)) →
  (p ∉ xs) → (p ∉ ys) →
  Rep h' (<[CHead (slot_object sl) := (CSlot <$> xs) ++ (CSlot <$> ys)]> V) →
  refcount ob' = refcount ob - 1 →
  kinv ∅ refs (<[CHead (slot_object sl) := (CSlot <$> xs) ++ (CSlot <$> ys)]> V)
    (del_cap_state s g t' p (slot_object sl) ob' h').
Proof.
  intros HI Hg Hp Hcg Hsync Hat Hob HV Hpx Hpy HR Hrc.
  destruct (ki_slot _ _ _ _ HI _ _ Hp) as (Hp0&_&_&_&t0&Hg0&Hat0).
  rewrite Hcg in Hg0. simplify_eq.
  assert (∀ q sl', q ≠ slot_at t (slot_id sl) → kslots s !! q = Some sl' →
    cap_group sl' = cap_group sl → slot_id sl' ≠ slot_id sl) as Hother.
  { intros q sl' Hq Hsl' Hc Hi. destruct (ki_slot _ _ _ _ HI _ _ Hsl') as (_&_&_&_&t1&Hg1&Hat1).
    rewrite Hc, Hg in Hg1. simplify_eq. by rewrite Hi in Hq. }
  split; simpl.
  - intros g' t'' Ht. destruct (decide (g' = cap_group sl)) as [->|Hne].
    { rewrite lookup_insert_eq in Ht. by simplify_eq. }
    rewrite lookup_insert_ne in Ht by done. by eapply ki_table.
  - intros q sl' Hq. apply lookup_delete_Some in Hq as [Hqp Hq].
    destruct (ki_slot _ _ _ _ HI _ _ Hq) as (?&?&?&Ho&t0&Hg0&Hat1). split_and!; [done..| |].
    + destruct (decide (slot_object sl' = slot_object sl)) as [->|];
        [rewrite lookup_insert_eq; eauto|by rewrite lookup_insert_ne].
    + destruct (decide (cap_group sl' = cap_group sl)) as [Heq|?].
      * exists t'. rewrite Heq, lookup_insert_eq, Hat. rewrite Heq in Hg0. simplify_eq.
        split; [done|]. rewrite bool_decide_eq_false_2; [done|]. by eapply (Hother _ _ (not_eq_sym Hqp)).
      * exists t0. by rewrite lookup_insert_ne.
  - intros g' t'' i Ht Hi. destruct (decide (g' = cap_group sl)) as [->|Hne].
    + rewrite lookup_insert_eq in Ht. injection Ht as <-. rewrite Hat in *.
      case_bool_decide as Hji; [done|].
      destruct (ki_entry _ _ _ _ HI _ _ _ Hg Hi) as (sl'&Hsl'&?&?). exists sl'.
      rewrite lookup_delete_ne; [done|]. congruence.
    + rewrite lookup_insert_ne in Ht by done.
      destruct (ki_entry _ _ _ _ HI _ _ _ Ht Hi) as (sl'&Hsl'&?&?). exists sl'.
      rewrite lookup_delete_ne; [done|]. congruence.
  - apply rep_delete; [done|]. intros (x&l&Hx&Hin).
    destruct (decide (x = CHead (slot_object sl))) as [->|Hne].
    + rewrite lookup_insert_eq in Hx. simplify_eq.
      apply elem_of_cons in Hin as [|Hin]; [done|].
      apply elem_of_app in Hin as [Hin|Hin]; by apply list_elem_of_fmap_inj_2 in Hin; [|apply _].
    + rewrite lookup_insert_ne in Hx by done.
      apply Hne. eapply (rep_disj _ _ (ki_rep _ _ _ _ HI)); [done|done|done|set_solver].
  - intros o ob'' Ho. destruct (decide (o = slot_object sl)) as [->|Hne].
    + rewrite lookup_insert_eq in Ho. injection Ho as <-.
      destruct (ki_obj _ _ _ _ HI _ _ Hob) as (?&ps&HV'&Hps&Hrc'&?&?). split; [done|].
      rewrite HV in HV'. injection HV' as HV'. rewrite <-fmap_cons, <-fmap_app in HV'.
      apply (list_fmap_eq_inj CSlot) in HV' as <-; [|apply _].
      exists (xs ++ ys). rewrite lookup_insert_eq, fmap_app. rewrite length_app in *. simpl in *.
      split_and!; [done| |lia|done|lia].
      intros q. destruct (decide (q = slot_at t (slot_id sl))) as [->|Hqp].
      * rewrite lookup_delete_eq. set_solver.
      * rewrite lookup_delete_ne, <-Hps by done. set_solver.
    + rewrite lookup_insert_ne in Ho by done.
      destruct (ki_obj _ _ _ _ HI _ _ Ho) as (?&ps&HV'&Hps&?&?&?). split; [done|]. exists ps.
      rewrite lookup_insert_ne by congruence. split_and!; [done| |done..].
      intros q. destruct (decide (q = slot_at t (slot_id sl))) as [->|Hqp].
      * rewrite lookup_delete_eq, Hps. split; [intros (?&?&?); congruence|intros (?&?&?); congruence].
      * by rewrite lookup_delete_ne, <-Hps.
  - intros x l Hx. destruct (decide (x = CHead (slot_object sl))) as [->|Hne].
    + exists (slot_object sl). rewrite lookup_insert_eq. eauto.
    + rewrite lookup_insert_ne in Hx by done. destruct (ki_heads _ _ _ _ HI _ _ Hx) as (o&->&Ho).
      exists o. split; [done|]. rewrite lookup_insert_ne; [done|]. congruence.
Qed.

(** References taken by [obj_get] and given back by [obj_put]. *)
Definition upd_refs (refs : Z → Z) (o d : Z) : Z → Z :=
  λ x, if bool_decide (x = o) then refs x + d else refs x.

Lemma kinv_refs P refs V s o ob ob' d :
  kinv P refs V s → objects s !! o = Some ob → refcount ob' = refcount ob + d →
  0 ≤ refs o + d → refcount ob + d < 2 ^ 64 →
  kinv P (upd_refs refs o d) V (set_objects (<[o := ob']> (objects s)) s).
Proof.
  intros HI Ho Hrc Hd Hb. split; simpl; try apply HI.
  - intros p sl Hp. destruct (ki_slot _ _ _ _ HI _ _ Hp) as (?&?&?&?&?). split_and!; [done..| |done].
    destruct (decide (slot_object sl = o)) as [->|]; [rewrite lookup_insert_eq; eauto|].
    by rewrite lookup_insert_ne.
  - intros o' ob'' Ho'. unfold upd_refs. destruct (decide (o' = o)) as [->|Hne].
    + rewrite lookup_insert_eq in Ho'. injection Ho' as <-.
      destruct (ki_obj _ _ _ _ HI _ _ Ho) as (?&ps&?&?&?&?&?). split; [done|]. exists ps.
      rewrite bool_decide_eq_true_2 by done. split_and!; [done|done|lia|lia|lia].
    + rewrite lookup_insert_ne in Ho' by done. rewrite bool_decide_eq_false_2 by done.
      by apply (ki_obj _ _ _ _ HI).
  - intros x l Hx. destruct (ki_heads _ _ _ _ HI _ _ Hx) as (o'&->&?). exists o'. split; [done|].
    destruct (decide (o' = o)) as [->|]; [rewrite lookup_insert_eq; eauto|by rewrite lookup_insert_ne].
Qed.

(** An object without slots and references is freed.  The table of a group goes
    with it, so no capability may be left in it. *)
Definition drained (s : kstate) (g : Z) : Prop :=
  ∀ p sl, kslots s !! p = Some sl → cap_group sl ≠ g.

Definition free_object_state (d : details) (s : kstate) (o : Z) (ob : object) : kstate :=
  set_copies (delete (CHead o) (copies s)) (set_objects (delete o (objects s)) (set_det d
      (if bool_decide (obj_type ob = TYPE_CAP_GROUP) then set_groups (delete o (groups s)) s else s))).

Lemma kinv_unreferenced P refs V s o ob :
  kinv P refs V s → objects s !! o = Some ob → refcount ob = 0 →
  V !! CHead o = Some [] ∧ refs o = 0 ∧ ∀ p sl, kslots s !! p = Some sl → slot_object sl ≠ o.
Proof.
  intros HI Ho H0. destruct (ki_obj _ _ _ _ HI _ _ Ho) as (_&ps&HV&Hps&Hrc&?&?).
  destruct ps as [|q ps]; [|simpl in Hrc; lia]. split_and!; [done|simpl in Hrc; lia|].
  intros p sl Hp Heq. assert (p ∈ []) as Hin by (apply Hps; eauto). set_solver.
Qed.

Lemma kinv_free_object refs V d s o ob :
  kinv ∅ refs V s → objects s !! o = Some ob → refcount ob = 0 →
  (obj_type ob = TYPE_CAP_GROUP → drained s o) →
  kinv ∅ refs (delete (CHead o) V) (free_object_state d s o ob).
Proof.
  intros HI Ho H0 Hdr. destruct (kinv_unreferenced _ _ _ _ _ _ HI Ho H0) as (HV&_&Hno).
  assert (∀ g t, groups (free_object_state d s o ob) !! g = Some t → groups s !! g = Some t) as Hsub.
  { intros g t. unfold free_object_state. simpl. case_bool_decide; [|done]. simpl.
    by intros [_ ?]%lookup_delete_Some. }
  assert (kslots (free_object_state d s o ob) = kslots s) as Hk
    by (unfold free_object_state; by case_bool_decide).
  split; rewrite ?Hk.
  - intros g t Ht%Hsub. by eapply ki_table.
  - intros p sl Hp. destruct (ki_slot _ _ _ _ HI _ _ Hp) as (?&?&?&?&t&Ht&?). split_and!; [done..| |].
    + simpl. rewrite lookup_delete_ne; [done|]. by intros ->; eapply Hno.
    + exists t. split; [|done]. unfold free_object_state. simpl. case_bool_decide as Htg; [|done].
      simpl. rewrite lookup_delete_ne; [done|]. intros Heq. by eapply (Hdr Htg).
  - intros g t i Ht%Hsub. by eapply ki_entry.
  - simpl. apply rep_free_head; [apply HI|done].
  - intros o' ob' Ho'. simpl in Ho'. apply lookup_delete_Some in Ho' as [Hne Ho'].
    destruct (ki_obj _ _ _ _ HI _ _ Ho') as (?&ps&?&?&?&?&?). split; [done|]. exists ps.
    rewrite lookup_delete_ne by congruence. done.
  - intros x xs [Hne Hx]%lookup_delete_Some. destruct (ki_heads _ _ _ _ HI _ _ Hx) as (o'&->&?).
    exists o'. split; [done|]. simpl. rewrite lookup_delete_ne; [done|]. congruence.
Qed.

(** ** The capability map under state changes *)

Lemma cap_of_eq s s' g i :
  groups s' !! g = groups s !! g → kslots s' = kslots s → cap_of s' g i = cap_of s g i.
Proof. unfold cap_of. by intros -> ->. Qed.

Lemma kinv_slot0 P refs V s : kinv P refs V s → kslots s !! 0 = None.
Proof.
  intros HI. destruct (kslots s !! 0) eqn:E; [|done]. apply (ki_slot _ _ _ _ HI) in E. lia.
Qed.

Lemma cap_of_Some P refs V s g i o :
  kinv P refs V s → cap_of s g i = Some o ↔
  ∃ t sl, groups s !! g = Some t ∧ kslots s !! slot_at t i = Some sl ∧
    slot_object sl = o ∧ cap_group sl = g ∧ slot_id sl = i ∧ slot_at t i ≠ 0.
Proof.
  intros HI. unfold cap_of. destruct (groups s !! g) as [t|] eqn:Hg; simpl; [|naive_solver].
  destruct (decide (slot_at t i = 0)) as [H0|H0].
  { rewrite H0, (kinv_slot0 _ _ _ _ HI). simpl. naive_solver congruence. }
  destruct (ki_entry _ _ _ _ HI _ _ _ Hg H0) as (sl&Hsl&?&?). rewrite Hsl. simpl. naive_solver.
Qed.

Lemma cap_of_slot_unique P refs V s g t i g' t' i' :
  kinv P refs V s → groups s !! g = Some t → groups s !! g' = Some t' →
  slot_at t i = slot_at t' i' → slot_at t i ≠ 0 → g = g' ∧ i = i'.
Proof.
  intros HI Hg Hg' Heq H0. destruct (ki_entry _ _ _ _ HI _ _ _ Hg H0) as (sl&Hsl&?&?).
  rewrite Heq in *. destruct (ki_entry _ _ _ _ HI _ _ _ Hg' H0) as (sl'&Hsl'&?&?).
  by simplify_eq.
Qed.

Lemma cap_of_table P refs V s g t t' k g' i :
  kinv P refs V s → groups s !! g = Some t → (∀ j, slot_at t' j = slot_at t j) →
  cap_of (set_kmem k (set_groups (<[g := t']> (groups s)) s)) g' i = cap_of s g' i.
Proof.
  intros HI Hg Hat. unfold cap_of. simpl. destruct (decide (g' = g)) as [->|].
  - rewrite lookup_insert_eq, Hg. simpl. by rewrite Hat.
  - by rewrite lookup_insert_ne.
Qed.

Lemma cap_of_new_cap P refs V s g t t' p sl ob' h' g' i :
  kinv P refs V s → groups s !! g = Some t → 0 < p → kslots s !! p = None →
  (∀ j, slot_at t' j = if bool_decide (j = slot_id sl) then p else slot_at t j) →
  cap_of (new_cap_state s g t' p sl ob' h') g' i =
    if bool_decide ((g', i) = (g, slot_id sl)) then Some (slot_object sl) else cap_of s g' i.
Proof.
  intros HI Hg Hp Hfresh Hat.
  assert (∀ g0 t0 j, groups s !! g0 = Some t0 → slot_at t0 j ≠ p) as Hnp.
  { intros g0 t0 j Hg0 Hj. destruct (ki_entry _ _ _ _ HI _ _ j Hg0) as (sl'&Hsl'&_); [lia|].
    rewrite Hj in Hsl'. congruence. }
  unfold cap_of, new_cap_state. simpl. destruct (decide (g' = g)) as [->|Hne].
  - rewrite lookup_insert_eq, Hg. simpl. rewrite Hat.
    destruct (decide (i = slot_id sl)) as [->|Hi].
    + rewrite !bool_decide_eq_true_2 by done. by rewrite lookup_insert_eq.
    + rewrite !bool_decide_eq_false_2 by congruence. rewrite lookup_insert_ne; [done|].
      apply not_eq_sym. by eapply Hnp.
  - rewrite lookup_insert_ne, (bool_decide_eq_false_2 ((g', i) = _)) by congruence.
    destruct (groups s !! g') as [t0|] eqn:Hg'; simpl; [|done].
    rewrite lookup_insert_ne; [done|]. apply not_eq_sym. by eapply Hnp.
Qed.

Lemma cap_of_del_cap refs V s g t t' p sl ob' h' g' i :
  kinv ∅ refs V s → groups s !! g = Some t → kslots s !! p = Some sl → cap_group sl = g →
  (∀ j, slot_at t' j = if bool_decide (j = slot_id sl) then 0 else slot_at t j) →
  cap_of (del_cap_state s g t' p (slot_object sl) ob' h') g' i =
    if bool_decide ((g', i) = (g, slot_id sl)) then None else cap_of s g' i.
Proof.
  intros HI Hg Hp Hcg Hat. destruct (ki_slot _ _ _ _ HI _ _ Hp) as (Hp0&_&_&_&t0&Hg0&Hat0).
  rewrite Hcg, Hg in Hg0. injection Hg0 as <-.
  unfold cap_of, del_cap_state. simpl. destruct (decide (g' = g)) as [->|Hne].
  - rewrite lookup_insert_eq, Hg. simpl. rewrite Hat.
    destruct (decide (i = slot_id sl)) as [->|Hi].
    + rewrite !bool_decide_eq_true_2 by done.
      by rewrite lookup_delete_ne, (kinv_slot0 _ _ _ _ HI) by lia.
    + rewrite !bool_decide_eq_false_2 by congruence.
      rewrite lookup_delete_ne; [done|]. intros Heq.
      destruct (cap_of_slot_unique _ _ _ _ g t (slot_id sl) g t i HI Hg Hg); [lia..|]. congruence.
  - rewrite lookup_insert_ne, (bool_decide_eq_false_2 ((g', i) = _)) by congruence.
    destruct (groups s !! g') as [t1|] eqn:Hg'; simpl; [|done].
    rewrite lookup_delete_ne; [done|]. intros Heq.
    destruct (cap_of_slot_unique _ _ _ _ g t (slot_id sl) g' t1 i HI Hg Hg'); [lia..|]. congruence.
Qed.

Lemma cap_of_free_object refs V d s o ob g i :
  kinv ∅ refs V s → (obj_type ob = TYPE_CAP_GROUP → drained s o) →
  cap_of (free_object_state d s o ob) g i = cap_of s g i.
Proof.
  intros HI Hdr. unfold free_object_state. case_bool_decide as Htg; [|done]. specialize (Hdr Htg).
  destruct (decide (g = o)) as [->|Hne].
  - unfold cap_of at 1. simpl. rewrite lookup_delete_eq. simpl. symmetry.
    destruct (cap_of s o i) as [x|] eqn:E; [|done].
    apply (cap_of_Some _ _ _ _ _ _ _ HI) in E as (t&sl&_&Hsl&_&Hcg&_). by destruct (Hdr _ _ Hsl).
  - apply cap_of_eq; [|done]. simpl. by rewrite lookup_delete_ne.
Qed.

(** ** What the routines of the types need and do *)

Definition thread_ok (d : details) (o : Z) : Prop := ∃ t g l, ctxs d !! o = Some t ∧ te_exited t = true ∧
  (ctx_type t = CTX_REGISTER ∨ (ctx_type t = CTX_SHADOW ∧ ts_exit t = false) ∨ has_sc t = true) ∧
  thread_group d !! o = Some g ∧ thread_list d !! g = Some l.

(** The thread is in no list, owns no FPU and has no context any more; no other thread is affected. *)
Record thread_gone (d : details) (o : Z) (d' : details) : Prop := {
  tg_ctx : ctxs d' = delete o (ctxs d);
  tg_list : ∃ g l, thread_group d !! o = Some g ∧ thread_list d !! g = Some l ∧
    thread_list d' = delete o (<[g := filter (λ x, x ≠ o) l]> (thread_list d));
  tg_fpu : ∃ t, ctxs d !! o = Some t ∧ ∀ c, fpu_owner d' !! c =
    if bool_decide (0 ≤ c ∧ c = is_fpu_owner t ∧ fpu_owner d !! c = Some o) then None else fpu_owner d !! c;
  tg_pages : freed_pages d' = freed_pages d
}.

Definition pmo_ok (d : details) (o : Z) : Prop := ∃ k, pmo_kinds d !! o = Some k ∧ k ≠ PMO_RADIX None ∧ k ≠ PMO_UNSUPPORTED.

(** The pages of a memory object *)
Definition pmo_pages (d : details) (o : Z) : list Z :=
  match pmo_kinds d !! o with Some (PMO_FRAMES start) => [start] | Some (PMO_RADIX tree) => default [] tree | _ => [] end.

Definition occurrences (p : Z) (l : list Z) : Z := Z.of_nat (length (filter (λ x, x = p) l)).

Definition deferred_ok (refs : Z → Z) (s : kstate) (l : list Z) : Prop := ∀ p, p ∈ l → occurrences p l ≤ refs p ∧
  ∃ pb, objects s !! p = Some pb ∧ obj_type pb = TYPE_PMO ∧ pmo_ok (det s) p.

(** The routine for [ob] at [o] does not stop: a thread has exited, a memory object that has a radix tree has one, and the references that an
    address space has put off releasing are counted. *)
Definition deinit_ok (refs : Z → Z) (s : kstate) (o : Z) (ob : object) : Prop :=
  (obj_type ob = TYPE_THREAD → thread_ok (det s) o) ∧
  (obj_type ob = TYPE_PMO → pmo_ok (det s) o) ∧
  (obj_type ob = TYPE_VMSPACE → ∃ l, deferred_pmos (det s) !! o = Some l ∧ deferred_ok refs s l).

Lemma wp_when_not b m (Q : unit → kstate → Prop) s : b = false → Q tt s → wp (when b m) Q s.
Proof. by intros ->. Qed.
Lemma wp_when_bug b b' (Q : unit → kstate → Prop) s : (b = true → b' = false) → Q tt s → wp (when b (bug_on b')) Q s.
Proof. intros H HQ. destruct b; [by rewrite H|done]. Qed.

Lemma wp_thread_routines s o (Q : unit → kstate → Prop) d0 : thread_ok (det s) o →
  (∀ d, thread_gone (det s) o (forget o d) → Q tt (set_det d s)) →
  wp (clear_fpu_owner o;; upd_det (λ d, set_deinits (d0 :: deinits d) d);; thread_deinit o) Q s.
Proof.
  intros (t&g&l&Ht&Hex&Hsc&Hg&Hl) HQ. unfold clear_fpu_owner, read_ctx, upd_det. wp_seq. eapply wp_from_opt; [exact Ht|]. cbv zeta.
  set (d1 := if bool_decide (is_fpu_owner t >= 0) then
    set_ctxs (<[o := not_fpu_owner t]> (ctxs (det s)))
      (if bool_decide (fpu_owner (det s) !! is_fpu_owner t = Some o) then set_fpu_owner (delete (is_fpu_owner t) (fpu_owner (det s))) (det s) else det s)
    else det s).
  set (t1 := if bool_decide (is_fpu_owner t >= 0) then not_fpu_owner t else t).
  assert (wp (when (bool_decide (is_fpu_owner t >= 0))
    (s ← get_state;
     when (bool_decide (fpu_owner (det s) !! is_fpu_owner t = Some o)) (upd_det (λ d, set_fpu_owner (delete (is_fpu_owner t) (fpu_owner d)) d));;
     upd_det (λ d, set_ctxs (<[o := not_fpu_owner t]> (ctxs d)) d))) (λ _ s', s' = set_det d1 s) s) as Hclear.
  { unfold d1, upd_det, when. destruct (bool_decide (is_fpu_owner t >= 0)); wp_seq; [|by destruct s].
    destruct (bool_decide (fpu_owner (det s) !! is_fpu_owner t = Some o)); by wp_seq. }
  eapply wp_mono; [exact Hclear|]. intros [] s1 ->. wp_seq.
  assert (ctxs d1 !! o = Some t1 ∧ thread_group d1 = thread_group (det s) ∧ thread_list d1 = thread_list (det s) ∧ delete o (ctxs d1) = delete o (ctxs (det s))) as (Ht1&Eg&El&Ec).
  { unfold d1, t1. destruct (bool_decide (is_fpu_owner t >= 0)); [|done]. destruct (bool_decide (_ = Some o)); cbn;
      rewrite lookup_insert_eq, delete_insert_eq; done. }
  assert (te_exited t1 = true ∧ ctx_type t1 = ctx_type t ∧ ts_exit t1 = ts_exit t ∧ has_sc t1 = has_sc t ∧ bool_decide (is_fpu_owner t1 >= 0) = false) as (Hex1&E1&E2&E3&E4).
  { unfold t1. case_bool_decide as Hf; [by split_and!|]. split_and!; try done. by apply bool_decide_eq_false_2. }
  unfold thread_deinit, read_ctx, upd_det. wp_seq. eapply wp_from_opt; [exact Ht1|]. rewrite Hex1. wp_seq. apply wp_bug_on; [done|]. wp_seq. cbn.
  eapply wp_from_opt; [rewrite Eg; exact Hg|]. wp_seq. eapply wp_from_opt; [rewrite El; exact Hl|]. wp_seq.
  unfold destroy_thread_ctx, read_ctx, upd_det. wp_seq. eapply wp_from_opt; [exact Ht1|]. wp_seq. apply wp_when_not; [exact E4|]. rewrite E1, E2, E3. wp_seq.
  apply wp_when_bug.
  { destruct Hsc as [E|[[E _]|E]]; rewrite E; [by rewrite andb_false_r|done|done]. }
  wp_seq. apply wp_when_bug.
  { destruct Hsc as [E|[[E E']|E]]; rewrite E, ?E'; done. }
  wp_seq. apply HQ. split; cbn.
  - done.
  - exists g, l. by rewrite El.
  - exists t. split; [done|]. intros c. unfold d1. destruct (decide (is_fpu_owner t >= 0)) as [Hf|Hf].
    + rewrite (bool_decide_eq_true_2 (_ >= 0)) by done. destruct (decide (fpu_owner (det s) !! is_fpu_owner t = Some o)) as [Ho|Ho];
        [rewrite (bool_decide_eq_true_2 (fpu_owner (det s) !! is_fpu_owner t = Some o)) by done
        |rewrite (bool_decide_eq_false_2 (fpu_owner (det s) !! is_fpu_owner t = Some o)) by done]; cbn.
      * destruct (decide (c = is_fpu_owner t)) as [->|]; [rewrite lookup_delete_eq, bool_decide_eq_true_2 by (split_and!; [lia|done|done]); done|].
        rewrite lookup_delete_ne, bool_decide_eq_false_2 by naive_solver. done.
      * rewrite bool_decide_eq_false_2; [done|]. by intros (_&->&?).
    + rewrite (bool_decide_eq_false_2 (_ >= 0)) by done. rewrite bool_decide_eq_false_2; [done|]. intros (?&->&_). lia.
  - unfold d1. destruct (bool_decide (is_fpu_owner t >= 0)); [|done]. by destruct (bool_decide (fpu_owner (det s) !! is_fpu_owner t = Some o)).
Qed.

Definition own_pages (s : kstate) (o : Z) (ob : object) : list Z := if bool_decide (obj_type ob = TYPE_PMO) then pmo_pages (det s) o else [].

(** Every routine but that of address spaces *)
Lemma wp_deinit_plain refs s o ob free (Q : unit → kstate → Prop) : deinit_ok refs s o ob → obj_type ob ≠ TYPE_VMSPACE →
  (∀ d, (obj_type ob = TYPE_THREAD → thread_gone (det s) o (forget o d)) → (obj_type ob ≠ TYPE_THREAD → pmo_kinds d = pmo_kinds (det s)) →
    freed_pages d = freed_pages (det s) ++ own_pages s o ob →
    Q tt (set_det d (if bool_decide (obj_type ob = TYPE_CAP_GROUP) then set_groups (delete o (groups s)) s else s))) →
  wp (when (bool_decide (obj_type ob = TYPE_THREAD)) (clear_fpu_owner o);; obj_deinit free (obj_type ob) o) Q s.
Proof.
  intros (Hth&Hpm&_) Hvm HQ. unfold own_pages in HQ. unfold obj_deinit. destruct (decide (obj_type ob = TYPE_THREAD)) as [E|Hnt].
  - rewrite E in *. specialize (Hth eq_refl). cbn. eapply wp_mono; [|by intros [] s' H; exact H]. rewrite wp_bind.
    pose proof (wp_thread_routines s o Q (TYPE_THREAD, o) Hth) as H. rewrite wp_bind in H. apply H. intros d Hd. apply (HQ d); [done|done|].
    cbn. rewrite app_nil_r. exact (tg_pages _ _ _ Hd).
  - rewrite (bool_decide_eq_false_2 (obj_type ob = TYPE_THREAD)) by done. unfold when, upd_det. wp_seq.
    destruct (decide (obj_type ob = TYPE_CAP_GROUP)) as [E|Hng].
    + rewrite !(bool_decide_eq_true_2 (obj_type ob = TYPE_CAP_GROUP)) by done. unfold cap_group_deinit. wp_seq.
      rewrite (bool_decide_eq_true_2 (obj_type ob = TYPE_CAP_GROUP)), (bool_decide_eq_false_2 (obj_type ob = TYPE_PMO)), app_nil_r in HQ by (done || by rewrite E).
      by eapply (HQ (set_deinits _ (det s))).
    + rewrite !(bool_decide_eq_false_2 (obj_type ob = TYPE_CAP_GROUP)) in * by done. destruct (decide (obj_type ob = TYPE_PMO)) as [Ep|Ep].
      * rewrite !(bool_decide_eq_true_2 (obj_type ob = TYPE_PMO)) in * by done. destruct (Hpm Ep) as (k&Hk&?&?).
        unfold pmo_pages in HQ. rewrite Hk in HQ. unfold pmo_deinit. wp_seq. cbn. eapply wp_from_opt; [exact Hk|].
        destruct k as [a|[tree|]| |]; try done; unfold give_pages, upd_det; wp_seq; try (apply wp_bug_on; [done|]); wp_seq.
        -- by eapply (HQ (set_freed_pages _ (set_deinits _ (det s)))).
        -- by eapply (HQ (set_freed_pages _ (set_deinits _ (det s)))).
        -- rewrite app_nil_r in HQ. by eapply (HQ (set_deinits _ (det s))).
      * rewrite !(bool_decide_eq_false_2 (obj_type ob = TYPE_PMO)) in * by done. rewrite app_nil_r in HQ.
        rewrite (bool_decide_eq_false_2 (obj_type ob = TYPE_VMSPACE)) by done. wp_seq. by eapply (HQ (set_deinits _ (det s))).
Qed.

Lemma wp_deinit_then refs s o ob free k (Q : unit → kstate → Prop) : deinit_ok refs s o ob → obj_type ob ≠ TYPE_VMSPACE →
  (∀ d, (obj_type ob = TYPE_THREAD → thread_gone (det s) o (forget o d)) → (obj_type ob ≠ TYPE_THREAD → pmo_kinds d = pmo_kinds (det s)) →
    freed_pages d = freed_pages (det s) ++ own_pages s o ob →
    wp k Q (set_det d (if bool_decide (obj_type ob = TYPE_CAP_GROUP) then set_groups (delete o (groups s)) s else s))) →
  wp (when (bool_decide (obj_type ob = TYPE_THREAD)) (clear_fpu_owner o);; obj_deinit free (obj_type ob) o;; k) Q s.
Proof.
  intros Hok Hvm HQ. pose proof (wp_deinit_plain refs s o ob free (λ _, wp k Q) Hok Hvm HQ) as H. rewrite wp_bind in H. rewrite wp_bind.
  eapply wp_mono; [exact H|]. intros [] s1 H1. by rewrite wp_bind.
Qed.

(** ** Releasing an object *)

(** A reference to [p] is given back. *)
Definition put_one (p : Z) (m : gmap Z object) : gmap Z object :=
  match m !! p with
  | Some pb => if bool_decide (refcount pb = 1) && negb (obj_root pb) then delete p m else <[p := set_refcount (refcount pb - 1) pb]> m
  | None => m
  end.
Fixpoint put_all (l : list Z) (m : gmap Z object) : gmap Z object :=
  match l with [] => m | p :: l' => put_all l' (put_one p m) end.

Definition put_frees (p : Z) (m : gmap Z object) : bool :=
  match m !! p with Some pb => bool_decide (refcount pb = 1) && negb (obj_root pb) | None => false end.
(** The pages of the memory objects that lose their last reference *)
Fixpoint put_pages (d : details) (l : list Z) (m : gmap Z object) : list Z :=
  match l with [] => [] | p :: l' => (if put_frees p m then pmo_pages d p else []) ++ put_pages d l' (put_one p m) end.

Lemma put_pages_ext d d' l : (∀ q, q ∈ l → pmo_kinds d' !! q = pmo_kinds d !! q) → ∀ m, put_pages d' l m = put_pages d l m.
Proof.
  induction l as [|p l IH]; intros Hk m; [done|]. cbn. rewrite IH by (intros; apply Hk; by right). unfold pmo_pages. by rewrite Hk by left.
Qed.

Definition drop_refs (refs : Z → Z) (l : list Z) (x : Z) : Z := refs x - occurrences x l.

(** The references that go with [o]: those an address space has put off releasing *)
Definition dropped (s : kstate) (o : Z) (ob : object) : list Z :=
  if bool_decide (obj_type ob = TYPE_VMSPACE) then default [] (deferred_pmos (det s) !! o) else [].

Lemma cap_of_ext s s' g i :
  groups s' = groups s → kslots s' = kslots s → cap_of s' g i = cap_of s g i.
Proof. unfold cap_of. by intros -> ->. Qed.

(** [same_caps]: no capability of any group changes. *)
Definition same_caps (s s' : kstate) : Prop := ∀ g i, cap_of s' g i = cap_of s g i.

Lemma kinv_refs_ext P refs refs' V s :
  (∀ x, refs' x = refs x) → kinv P refs V s → kinv P refs' V s.
Proof.
  intros Hr [????? ?]. split; try done. intros o ob. rewrite Hr. by auto.
Qed.

Lemma occurrences_cons x p l : occurrences x (p :: l) = (if bool_decide (p = x) then 1 else 0) + occurrences x l.
Proof. unfold occurrences. rewrite filter_cons. case_bool_decide; case_decide; try done; simpl; lia. Qed.
Lemma occurrences_in x l : x ∈ l → 0 < occurrences x l.
Proof.
  induction l as [|p l IH]; [by intros ?%not_elem_of_nil|]. rewrite occurrences_cons, elem_of_cons. intros [->|H].
  - rewrite bool_decide_eq_true_2 by done. unfold occurrences. lia.
  - specialize (IH H). case_bool_decide; lia.
Qed.

(** The end of [__free_object] *)
Definition free_tail (o : Z) : M kstate unit := e ← copies_read (list_empty (CHead o)); bug_on (negb e);; kfree_object o.

Lemma wp_free_tail refs V s o ob d g0 (Q : unit → kstate → Prop) : kinv ∅ refs V s → objects s !! o = Some ob → refcount ob = 0 →
  g0 = (if bool_decide (obj_type ob = TYPE_CAP_GROUP) then set_groups (delete o (groups s)) s else s) →
  Q tt (free_object_state (forget o d) s o ob) → wp (free_tail o) Q (set_det d g0).
Proof.
  intros HI Ho H0 -> HQ. destruct (kinv_unreferenced _ _ _ _ _ _ HI Ho H0) as (HV&_&_). unfold free_tail. wp_seq.
  pose proof (list_empty_rep _ _ _ _ (ki_rep _ _ _ _ HI) HV) as He.
  set (g0 := if bool_decide _ then _ else _).
  assert (copies g0 = copies s ∧ objects g0 = objects s) as [Ec Eo] by (subst g0; case_match; split; reflexivity).
  eapply wp_copies_read; [cbn; rewrite Ec; exact He|]. wp_seq. apply wp_bug_on; [done|]. unfold kfree_object. wp_seq.
  eapply wp_read_object; [cbn; rewrite Eo; exact Ho|]. wp_seq. unfold free_object_state in HQ. fold g0 in HQ. cbn. rewrite Ec, Eo. exact HQ.
Qed.

(** A memory object is released. *)
Lemma wp_free_pmo fuel refs V s p pb : kinv ∅ refs V s → objects s !! p = Some pb → refcount pb = 0 → obj_root pb = false →
  obj_type pb = TYPE_PMO → pmo_ok (det s) p →
  wp (free_object (S fuel) p) (λ _ s', (∃ V', kinv ∅ refs V' s') ∧ same_caps s s' ∧ objects s' = delete p (objects s) ∧
    (∀ q, q ≠ p → pmo_kinds (det s') !! q = pmo_kinds (det s) !! q) ∧ freed_pages (det s') = freed_pages (det s) ++ pmo_pages (det s) p) s.
Proof.
  intros HI Hp H0 Hr Hty Hok. cbn [free_object]. wp_seq. eapply wp_read_object; [done|]. cbv beta. rewrite Hr.
  change (wp (when (bool_decide (obj_type pb = TYPE_THREAD)) (clear_fpu_owner p);; obj_deinit (free_object fuel) (obj_type pb) p;; free_tail p)
    (λ _ s', (∃ V', kinv ∅ refs V' s') ∧ same_caps s s' ∧ objects s' = delete p (objects s) ∧
      (∀ q, q ≠ p → pmo_kinds (det s') !! q = pmo_kinds (det s) !! q) ∧ freed_pages (det s') = freed_pages (det s) ++ pmo_pages (det s) p) s).
  eapply wp_deinit_then; [by instantiate (1 := refs); split_and!; rewrite Hty|by rewrite Hty|]. intros d _ Hd Hpg.
  eapply wp_free_tail; [done|done|done|done|]. assert (obj_type pb = TYPE_CAP_GROUP → drained s p) as Hdr by (by rewrite Hty).
  split_and!.
  - eexists. by eapply kinv_free_object.
  - intros g i. by eapply cap_of_free_object.
  - done.
  - intros q Hq. cbn. by rewrite lookup_delete_ne, Hd by (by rewrite ?Hty).
  - cbn. rewrite Hpg. unfold own_pages. by rewrite bool_decide_eq_true_2.
Qed.

Lemma put_one_other p q m : q ≠ p → put_one p m !! q = m !! q.
Proof. intros H. unfold put_one. destruct (m !! p); [|done]. destruct (_ && _); [by rewrite lookup_delete_ne|by rewrite lookup_insert_ne]. Qed.

(** A reference to a memory object is given back. *)
Lemma wp_put_pmo fuel refs V s p pb : kinv ∅ refs V s → objects s !! p = Some pb → 0 < refs p → obj_type pb = TYPE_PMO → pmo_ok (det s) p →
  wp (obj_put_with (free_object (S fuel)) p) (λ _ s', (∃ V', kinv ∅ (upd_refs refs p (-1)) V' s') ∧ same_caps s s' ∧
    objects s' = put_one p (objects s) ∧ (∀ q, q ≠ p ∨ refs p ≠ 1 → pmo_kinds (det s') !! q = pmo_kinds (det s) !! q) ∧
    freed_pages (det s') = freed_pages (det s) ++ (if put_frees p (objects s) then pmo_pages (det s) p else [])) s.
Proof.
  intros HI Hp Href Hty Hok. destruct (ki_obj _ _ _ _ HI _ _ Hp) as (_&ps&_&_&Hrc&_&?). unfold obj_put_with. wp_seq.
  eapply wp_refcount_add; [done|]. wp_seq. rewrite wrap_u64_small by lia. replace (refcount pb + -1) with (refcount pb - 1) by lia.
  set (s1 := set_objects _ s).
  assert (kinv ∅ (upd_refs refs p (-1)) V s1) as HI1 by (eapply kinv_refs; [done|done|done|lia|lia]).
  assert (same_caps s s1) as Hs1 by (intros ??; by apply cap_of_ext).
  unfold put_frees, put_one. rewrite Hp. unfold when. case_bool_decide as Hlast; cbn [andb]; [|wp_seq; split_and!; [eauto|done|done|done|by rewrite app_nil_r]].
  assert (objects s1 !! p = Some (set_refcount (refcount pb - 1) pb)) as Hp1 by (subst s1; cbn; apply lookup_insert_eq).
  destruct (obj_root pb) eqn:Hroot.
  - cbn [free_object]. wp_seq. eapply wp_read_object; [exact Hp1|]. cbv beta. cbn [obj_root set_refcount]. rewrite Hroot. wp_seq. split_and!; [eauto|done|done|done|by rewrite app_nil_r].
  - eapply wp_mono; [eapply (wp_free_pmo fuel _ V s1 p); [done|exact Hp1|cbn; lia|done|done|done]|].
    cbn. intros _ s2 (?&Hc&Ho&Hk&Hpg). split_and!; [done|intros g i; by rewrite Hc, Hs1|by rewrite Ho, delete_insert_eq| |done].
    intros q [Hq|Hq]; [by apply Hk|lia].
Qed.

(** The references that an address space has put off releasing are given back. *)
Lemma wp_put_deferred fuel o l : ∀ refs V s, kinv ∅ refs V s → deferred_ok refs s l →
  wp (put_deferred (free_object (S fuel)) o l) (λ _ s', (∃ V', kinv ∅ (drop_refs refs l) V' s') ∧ same_caps s s' ∧
    objects s' = put_all l (objects s) ∧ freed_pages (det s') = freed_pages (det s) ++ put_pages (det s) l (objects s)) s.
Proof.
  induction l as [|p l IH]; intros refs V s HI Hl; cbn [put_deferred put_all put_pages].
  - wp_seq. split_and!; [|done|done|by rewrite app_nil_r]. exists V. eapply kinv_refs_ext; [|done]. intros x. unfold drop_refs, occurrences. cbn. lia.
  - unfold upd_det. wp_seq. set (s0 := set_det _ s). destruct (Hl p) as (Hc&pb&Hp&Hty&Hok); [by left|].
    rewrite occurrences_cons, bool_decide_eq_true_2 in Hc by done.
    assert (0 ≤ occurrences p l) by (unfold occurrences; lia).
    assert (kinv ∅ refs V s0) as HI0 by (by eapply kinv_ext; [..|exact HI]).
    eapply wp_mono; [eapply (wp_put_pmo fuel refs V s0 p pb); [done|done|lia|done|done]|].
    intros [] s1 ((V1&HI1)&Hc1&Ho1&Hk1&Hpg1).
    assert (∀ q, q ∈ l → pmo_kinds (det s1) !! q = pmo_kinds (det s) !! q) as Hk.
    { intros q Hq. apply (Hk1 q). pose proof (occurrences_in _ _ Hq). destruct (decide (q = p)) as [->|]; [right; lia|by left]. }
    assert (∀ q, q ∈ l → pmo_ok (det s) q → pmo_ok (det s1) q) as Hko by (intros q Hq (k&?&?); exists k; by rewrite Hk).
    eapply wp_mono; [eapply (IH _ V1 s1 HI1)|].
    + intros q Hq. destruct (Hl q) as (Hcq&qb&Hqb&Hqt&Hqo); [by right|]. rewrite occurrences_cons in Hcq.
      pose proof (occurrences_in _ _ Hq). unfold upd_refs. destruct (decide (q = p)) as [->|Hne].
      * rewrite !bool_decide_eq_true_2 in * by done. split; [lia|]. rewrite Hp in Hqb. injection Hqb as <-.
        exists (set_refcount (refcount pb - 1) pb). split_and!; [|done|by apply Hko].
        rewrite Ho1. cbn. unfold put_one. rewrite Hp. destruct (ki_obj _ _ _ _ HI _ _ Hp) as (_&ps&_&_&Hrc&_&?).
        rewrite bool_decide_eq_false_2 by lia. cbn. apply lookup_insert_eq.
      * rewrite !bool_decide_eq_false_2 in * by congruence. split; [lia|]. exists qb. rewrite Ho1, put_one_other by done.
        split_and!; [done|done|by apply Hko].
    + intros [] s2 ((V2&HI2)&Hc2&Ho2&Hpg2). split_and!.
      * exists V2. eapply kinv_refs_ext; [|done]. intros x. unfold drop_refs, upd_refs. rewrite occurrences_cons.
        repeat case_bool_decide; try congruence; lia.
      * intros g i. by rewrite Hc2, Hc1.
      * by rewrite Ho2, Ho1.
      * rewrite Hpg2, Hpg1, <-app_assoc, Ho1, (put_pages_ext (det s) (det s1) l Hk). done.
Qed.

Lemma put_all_other l q : q ∉ l → ∀ m, put_all l m !! q = m !! q.
Proof.
  induction l as [|p l IH]; intros Hq m; [done|]. cbn. apply not_elem_of_cons in Hq as [? ?]. by rewrite IH, put_one_other.
Qed.

(** The pages that go with [o]: its own, and those of the memory objects that lose their last reference *)
Definition released_pages (s : kstate) (o : Z) (ob : object) : list Z :=
  own_pages s o ob ++ put_pages (det s) (dropped s o ob) (objects s).

(** [o] is released, with the references that it keeps. *)
Record object_freed (refs : Z → Z) (s : kstate) (o : Z) (ob : object) (s' : kstate) : Prop := {
  of_inv : ∃ V', kinv ∅ (drop_refs refs (dropped s o ob)) V' s';
  of_caps : same_caps s s';
  of_objects : objects s' = delete o (put_all (dropped s o ob) (objects s));
  of_thread : obj_type ob = TYPE_THREAD → thread_gone (det s) o (det s');
  of_pages : freed_pages (det s') = freed_pages (det s) ++ released_pages s o ob
}.

Lemma wp_free_vmspace fuel refs V s o ob : kinv ∅ refs V s → objects s !! o = Some ob → refcount ob = 0 →
  obj_type ob = TYPE_VMSPACE → deinit_ok refs s o ob →
  wp (when (bool_decide (obj_type ob = TYPE_THREAD)) (clear_fpu_owner o);; obj_deinit (free_object (S fuel)) (obj_type ob) o;; free_tail o)
    (λ _, object_freed refs s o ob) s.
Proof.
  intros HI Ho H0 Hty (_&_&Hvm). destruct (Hvm Hty) as (l&Hl&Hdef).
  assert (dropped s o ob = l) as El by (unfold dropped; by rewrite bool_decide_eq_true_2, Hl).
  assert (o ∉ l) as Hno by (intros Hin; destruct (Hdef o Hin) as (_&pb&Hpb&Hpt&_); assert (pb = ob) as -> by congruence; by rewrite Hty in Hpt).
  unfold obj_deinit, vmspace_deinit, upd_det. rewrite !Hty.
  change (bool_decide (TYPE_VMSPACE = TYPE_THREAD)) with false. change (bool_decide (TYPE_VMSPACE = TYPE_CAP_GROUP)) with false.
  change (bool_decide (TYPE_VMSPACE = TYPE_PMO)) with false. change (bool_decide (TYPE_VMSPACE = TYPE_VMSPACE)) with true.
  rewrite wp_bind. apply wp_when_not; [done|]. wp_seq. eapply wp_from_opt; [exact Hl|]. set (s0 := set_det _ s).
  assert (kinv ∅ refs V s0) as HI0 by (by eapply kinv_ext; [..|exact HI]).
  eapply wp_mono; [by eapply (wp_put_deferred fuel o l refs V s0)|]. intros [] s1 ((V1&HI1)&Hc1&Ho1&Hpg1).
  assert (objects s1 !! o = Some ob) as Hos1 by (by rewrite Ho1, put_all_other).
  assert (s1 = set_det (det s1) s1) as Es1 by (by destruct s1). rewrite Es1.
  eapply (wp_free_tail _ V1 s1 o ob); [done|done|done|by rewrite bool_decide_eq_false_2 by (by rewrite Hty)|].
  split; rewrite ?El.
  - eexists. eapply kinv_free_object; [done|done|done|by rewrite Hty].
  - intros g i. transitivity (cap_of s1 g i); [eapply cap_of_free_object; [done|by rewrite Hty]|exact (Hc1 g i)].
  - cbn. by rewrite Ho1.
  - by rewrite Hty.
  - unfold released_pages, own_pages. rewrite El, bool_decide_eq_false_2 by (by rewrite Hty). cbn. rewrite Hpg1. subst s0. cbn.
    by rewrite (put_pages_ext (det s)).
Qed.

Lemma wp_free_object fuel refs V s o ob : kinv ∅ refs V s → objects s !! o = Some ob → refcount ob = 0 → obj_root ob = false →
  (obj_type ob = TYPE_CAP_GROUP → drained s o) → deinit_ok refs s o ob →
  wp (free_object (S (S fuel)) o) (λ _, object_freed refs s o ob) s.
Proof.
  intros HI Ho H0 Hroot Hdr Hok. cbn [free_object]. rewrite wp_bind. eapply wp_read_object; [done|]. cbv beta. rewrite Hroot.
  fold (free_object (S fuel)).
  change (wp (when (bool_decide (obj_type ob = TYPE_THREAD)) (clear_fpu_owner o);; obj_deinit (free_object (S fuel)) (obj_type ob) o;; free_tail o)
    (λ _, object_freed refs s o ob) s).
  destruct (decide (obj_type ob = TYPE_VMSPACE)) as [Hvm|Hvm]; [by eapply wp_free_vmspace|].
  assert (dropped s o ob = []) as El by (unfold dropped; by rewrite bool_decide_eq_false_2).
  eapply wp_deinit_then; [exact Hok|done|]. intros d Hd _ Hpg. eapply wp_free_tail; [done|done|done|done|]. split; rewrite ?El.
  - eexists. eapply kinv_refs_ext; [|by eapply kinv_free_object]. intros x. unfold drop_refs, occurrences. cbn. lia.
  - intros g i. by eapply cap_of_free_object.
  - done.
  - done.
  - unfold released_pages. rewrite El. cbn. by rewrite app_nil_r.
Qed.

Lemma wp___free_object refs V s o ob (Q : unit → kstate → Prop) :
  kinv ∅ refs V s → objects s !! o = Some ob → refcount ob = 0 →
  (obj_root ob = true → Q tt s) →
  (obj_root ob = false → (obj_type ob = TYPE_CAP_GROUP → drained s o) ∧ deinit_ok refs s o ob ∧ ∀ s', object_freed refs s o ob s' → Q tt s') →
  wp (__free_object o) Q s.
Proof.
  intros HI Ho H0 Hroot Hfree. unfold __free_object. rewrite wp_bind, wp_get. destruct (obj_root ob) eqn:Hr.
  - cbn [free_object]. rewrite wp_bind. eapply wp_read_object; [done|]. cbv beta. rewrite Hr. by apply Hroot.
  - destruct (Hfree eq_refl) as (Hdr&Hok&HQ). destruct (size (objects s)) as [|n] eqn:En.
    { apply map_size_empty_inv in En. rewrite En in Ho. done. }
    eapply wp_mono; [by eapply (wp_free_object n)|]. intros [] s'. apply HQ.
Qed.
