(* ===== verification/CapSpec.v ===== *)
(** Specifications of the capability operations, in terms of the invariant
    [kinv] and the capability map [cap_of] of CapProofs.v. *)
From S2P Require Import Prelude Words ListHead Bitmap SlotTable Capability CapProofs.

(** A used id of a settled table is a capability. *)
Lemma used_cap_of refs V s g t j :
  kinv ∅ refs V s → groups s !! g = Some t → 0 ≤ j →
  used t j = true ↔ is_Some (cap_of s g j).
Proof.
  intros HI Hg Hj. destruct (ki_table _ _ _ _ HI _ _ Hg) as [_ Hu _].
  rewrite Hu by done. split.
  - intros [H0|?]; [|set_solver].
    destruct (ki_entry _ _ _ _ HI _ _ _ Hg H0) as (sl&Hsl&_). unfold cap_of. rewrite Hg. simpl.
    rewrite Hsl. by eexists.
  - intros [o Ho]. left. by apply (cap_of_Some _ _ _ _ _ _ _ HI) in Ho as (?&?&?&_&_&_&_&?); simplify_eq.
Qed.

(** One of the next four allocations fails. *)
Definition nomem (m : mem) : Prop := ∃ k, (k < 4)%nat ∧ default false (m !! k) = false.

Lemma oom_nomem m : oom m → nomem m.
Proof. intros (k&?&?). exists k. split; [lia|done]. Qed.

Lemma tail_drop3 (m : mem) : tail (drop 3 m) = drop 4 m.
Proof. by destruct m as [|? [|? [|? [|? m]]]]. Qed.

Lemma nomem_next m k : (k = m ∨ k = drop 3 m) → head k ≠ Some true → nomem m.
Proof.
  intros Hk Hh. destruct Hk as [-> | ->].
  - exists 0%nat. split; [lia|]. destruct m as [|[] m]; done.
  - exists 3%nat. split; [lia|]. destruct m as [|? [|? [|? [|[] m]]]]; simpl in *; done.
Qed.

(** Reserving an id in the table of a group. *)
Lemma wp_reserve refs V s g t Q :
  kinv ∅ refs V s → groups s !! g = Some t → slots_size t + 64 < 2 ^ 31 →
  (∀ k, oom (kmem s) → (∀ j, 0 ≤ j < slots_size t → is_Some (cap_of s g j)) →
     Q (- ENOMEM) (set_kmem k (set_groups (<[g := t]> (groups s)) s))) →
  (∀ r t' k, let s' := set_kmem k (set_groups (<[g := t']> (groups s)) s) in
     0 ≤ r < 2 ^ 31 → cap_of s g r = None → (∀ j, 0 ≤ j < r → is_Some (cap_of s g j)) →
     (k = kmem s ∨ k = drop 3 (kmem s)) → slots_size t' ≤ slots_size t + 64 → kinv {[(g, r)]} refs V s' → same_caps s s' → Q r s') →
  wp (on_table g alloc_slot_id) Q s.
Proof.
  intros HI Hg Hroom Hfail Hok. pose proof (ki_table _ _ _ _ HI _ _ Hg) as Hs.
  eapply wp_on_table; [done|]. eapply wp_mono; [by apply wp_alloc_slot_id_sync|].
  intros r [t' k] [(->&->&Hoom&Hall)|(Hr&Hu&Hbelow&Hs'&Hat&Hk&Hsz)].
  - apply Hfail; [done|]. intros j Hj. eapply used_cap_of; [done|done|lia|by apply Hall].
  - rewrite union_empty_r_L in Hs'. pose proof (to_s31 _ (ts_ok _ _ _ Hs')).
    apply Hok; [lia| | |done|done| |].
    + destruct (cap_of s g r) eqn:E; [|done].
      assert (used t r = true) by (eapply used_cap_of; [done|done|lia|by rewrite E]). congruence.
    + intros j Hj. eapply used_cap_of; [done|done|lia|by apply Hbelow].
    + eapply kinv_table; [done|done|done|done|]. intros g' j Hne. set_solver.
    + intros g' i. by eapply cap_of_table.
Qed.

(** Giving a reserved id back. *)
Lemma wp_unreserve refs V s g id (Q : unit → kstate → Prop) :
  kinv {[(g, id)]} refs V s → is_Some (groups s !! g) →
  (∀ s', kinv ∅ refs V s' → same_caps s s' → objects s' = objects s → Q tt s') →
  wp (table_op g (free_slot_id id)) Q s.
Proof.
  intros HI [t Hg] HQ. pose proof (ki_table _ _ _ _ HI _ _ Hg) as Hs.
  destruct (ts_pend _ _ _ Hs id) as [Hid H0]; [set_solver|].
  destruct (table_sync_free _ _ _ _ Hs Hid) as (t'&Hf&Hs'&Hat).
  rewrite difference_diag_L in Hs'.
  assert (∀ j, slot_at t' j = slot_at t j) as Hat'
    by (intros j; rewrite Hat; case_bool_decide; congruence).
  eapply wp_table_op; [done|done|].
  replace (set_groups (<[g := t']> (groups s)) s)
    with (set_kmem (kmem s) (set_groups (<[g := t']> (groups s)) s)) by (by destruct s).
  apply HQ; [|intros ??; by eapply cap_of_table|done].
  eapply kinv_table; [done|done|done|done|]. intros g' j Hne. set_solver.
Qed.

(** The last steps of [cap_alloc] and [cap_copy]: the new slot [p] is linked
    behind [pos] in the copies list and installed under the reserved id. *)
Lemma new_cap_linked refs V s g id p pos xs ys sl ob :
  kinv {[(g, id)]} refs V s → 0 < p → kslots s !! p = None →
  cap_group sl = g → slot_id sl = id → isvalid sl = true →
  objects s !! slot_object sl = Some ob → refcount ob + 1 < 2 ^ 64 →
  V !! CHead (slot_object sl) = Some (xs ++ ys) →
  ((xs = [] ∧ pos = CHead (slot_object sl)) ∨ (∃ xs', xs = xs' ++ [pos])) →
  is_Some (groups s !! g) →
  ∃ h' t', list_add (CSlot p) pos (<[CSlot p := ListNode CNull CNull]> (copies s)) = Ret h' ∧
    (t ← groups s !! g; Some (install_slot id p t)) = Some (Ret t') ∧
    (∀ t, groups s !! g = Some t → slots_size t' = slots_size t) ∧
    ∀ ob', refcount ob' = refcount ob + 1 →
      kinv ∅ refs (<[CHead (slot_object sl) := xs ++ CSlot p :: ys]> V)
        (new_cap_state s g t' p sl ob' h') ∧
      ∀ g' i, cap_of (new_cap_state s g t' p sl ob' h') g' i =
        if bool_decide ((g', i) = (g, id)) then Some (slot_object sl) else cap_of s g' i.
Proof.
  intros HI Hp Hfresh Hcg Hid Hval Hob Hb HV Hpos [t Hg].
  pose proof (ki_table _ _ _ _ HI _ _ Hg) as Hs.
  assert (¬ on_list V (CSlot p)) as Hoff
    by (intros [??]%(kinv_on_list _ _ _ _ HI); congruence).
  assert (Rep (<[CSlot p := ListNode CNull CNull]> (copies s)) V) as HR.
  { eapply rep_frame; [apply HI|]. intros x Hx. apply lookup_insert_ne. by intros <-. }
  assert (is_Some (<[CSlot p := ListNode CNull CNull]> (copies s) !! CSlot p)) as Hnode
    by (rewrite lookup_insert_eq; eauto).
  assert (∃ h', list_add (CSlot p) pos (<[CSlot p := ListNode CNull CNull]> (copies s)) = Ret h' ∧
    Rep h' (<[CHead (slot_object sl) := xs ++ CSlot p :: ys]> V)) as (h'&Hadd&HR').
  { destruct Hpos as [[-> ->]|[xs' ->]].
    - destruct (list_add_rep _ _ _ _ (CSlot p) HR HV) as (h'&?&_&?); eauto.
    - rewrite <-app_assoc in HV. simpl in HV.
      destruct (list_add_after_rep _ _ _ _ _ _ (CSlot p) HR HV) as (h'&?&_&?); [done|done|].
      exists h'. by rewrite <-app_assoc. }
  destruct (table_sync_install _ _ _ id p Hs) as (t'&Hi&Hsz&Hs'&Hat); [set_solver|lia|].
  exists h', t'. rewrite Hg. simpl. rewrite Hi. split_and!; [done|done|by intros ? [= <-]|].
  intros ob' Hrc.
  replace ∅ with ({[(g, slot_id sl)]} ∖ {[(g, slot_id sl)]} : gset (Z * Z)) by set_solver.
  subst id. split; [|intros; by eapply cap_of_new_cap].
  eapply kinv_new_cap; eauto; set_solver.
Qed.

(** A table operation of a group that succeeds. *)
Lemma wp_table_install s g id p t' (Q : unit → kstate → Prop) :
  (t ← groups s !! g; Some (install_slot id p t)) = Some (Ret t') →
  Q tt (set_groups (<[g := t']> (groups s)) s) → wp (table_op g (install_slot id p)) Q s.
Proof.
  destruct (groups s !! g) as [t|] eqn:Hg; simpl; [|done]. intros [= Hi] HQ.
  by eapply wp_table_op.
Qed.

Lemma kinv_mem P refs V s k : kinv P refs V s → kinv P refs V (set_kmem k s).
Proof. by apply kinv_ext. Qed.

Definition cap_added (s s' : kstate) (g id o : Z) : Prop :=
  0 ≤ id < 2 ^ 31 ∧ cap_of s g id = None ∧ (∀ j, 0 ≤ j < id → is_Some (cap_of s g j)) ∧
  ∀ g' i, cap_of s' g' i = if bool_decide ((g', i) = (g, id)) then Some o else cap_of s g' i.

Lemma wp_cap_alloc refs V s g t o ob rg :
  kinv ∅ refs V s → groups s !! g = Some t → slots_size t + 64 < 2 ^ 31 →
  objects s !! o = Some ob → refcount ob = 0 →
  wp (cap_alloc g o rg) (λ r s', (∃ V', kinv ∅ refs V' s') ∧
    ((r = - ENOMEM ∧ nomem (kmem s) ∧ same_caps s s' ∧ objects s' = objects s) ∨
     (cap_added s s' g r o ∧ (∃ k, (k ≤ 4)%nat ∧ kmem s' = drop k (kmem s)) ∧
      (∃ t', groups s' !! g = Some t' ∧ slots_size t' ≤ slots_size t + 64) ∧
      objects s' = <[o := set_status DSM_STATUS_INUSE (set_refcount 1 ob)]> (objects s)))) s.
Proof.
  intros HI Hg Hroom Hob H0. unfold cap_alloc. wp_seq.
  eapply wp_reserve; [done|done|done| |].
  { intros k Hoom%oom_nomem _. rewrite bool_decide_eq_true_2 by (unfold ENOMEM; lia). wp_seq.
    rewrite insert_id by done. replace (set_groups (groups s) s) with s by (by destruct s).
    split; [exists V; by apply kinv_mem|left; done]. }
  intros id t' k s1 Hid Hnone Hbelow Hk Hsz HI1 Hsame.
  rewrite bool_decide_eq_false_2 by lia. wp_seq.
  assert (is_Some (groups s1 !! g)) as Hg1 by (subst s1; simpl; rewrite lookup_insert_eq; eauto).
  eapply wp_kmalloc_slot.
  { intros Hh%(nomem_next _ _ Hk). rewrite bool_decide_eq_true_2 by done. wp_seq.
    eapply wp_unreserve; [by apply kinv_mem|done|].
    intros s' HI' Hsame' Hobj. wp_seq. split; [by eexists|]. left. split_and!; [done|done| |done].
    intros g' i. rewrite Hsame', <-Hsame. by apply cap_of_ext. }
  intros p Hp Hfresh. rewrite bool_decide_eq_false_2 by lia. wp_seq.
  eapply wp_write_slot; [simpl; apply lookup_insert_eq|]. wp_seq.
  destruct (kinv_unreferenced _ _ _ _ _ _ HI Hob H0) as (HV&_&_).
  destruct (new_cap_linked refs V s1 g id p (CHead o) [] [] (Slot id g true (Some rg) o) ob)
    as (h'&t''&Hadd&Hinst&Hsz'&Hnew); simpl; eauto; [lia|].
  eapply wp_copies_op; [exact Hadd|]. wp_seq.
  eapply wp_read_object; [exact Hob|]. cbv beta. wp_seq.
  apply wp_bug_on; [apply bool_decide_eq_false_2; lia|]. wp_seq.
  eapply wp_write_object; [exact Hob|]. wp_seq.
  eapply wp_write_object; [simpl; apply lookup_insert_eq|]. wp_seq.
  eapply wp_table_install; [exact Hinst|]. wp_seq.
  destruct (Hnew (set_status DSM_STATUS_INUSE (set_refcount 1 ob))) as [HI' Hcaps]; [simpl; lia|].
  split.
  - eexists. eapply kinv_ext; [..|exact HI']; simpl; rewrite ?insert_insert_eq; done.
  - right. split_and!; [| | |simpl; by rewrite insert_insert_eq].
    2: { destruct Hk as [-> | ->]; [exists 1%nat|exists 4%nat]; (split; [lia|]); simpl;
         [done|apply tail_drop3]. }
    2: { exists t''. simpl. rewrite lookup_insert_eq. split; [done|].
         rewrite (Hsz' t'); [done|]. apply lookup_insert_eq. }
    split_and!; [lia|lia|done|done|]. intros g' i. rewrite <-Hsame, <-Hcaps.
    apply cap_of_ext; simpl; rewrite ?insert_insert_eq; done.
Qed.

(** Waiting for the lock of the destination table changes nothing else. *)
Lemma wp_lock_both fuel s (Q : unit → kstate → Prop) :
  (length (contention s) < fuel)%nat → (∀ c, Q tt (set_contention c s)) →
  wp (lock_both fuel) Q s.
Proof.
  revert s. induction fuel as [|fuel IH]; intros s Hf HQ; [lia|]. simpl. wp_seq.
  unfold wp, write_try_lock, mbind. destruct (contention s) as [|[] c] eqn:E; simpl in Hf.
  - specialize (HQ []). by rewrite <-E in HQ; replace (set_contention (contention s) s) with s in HQ
      by (by destruct s).
  - apply (IH (set_contention c s)); [simpl; lia|]. intros c'. apply HQ.
  - apply HQ.
Qed.

(** Looking a capability up: [get_slot] and the check of [isvalid]. *)
Lemma wp_check_slot P refs V s g t id Q :
  kinv P refs V s → groups s !! g = Some t →
  (slot_at t id = 0 → cap_of s g id = None → Q false s) →
  (∀ sl, slot_at t id ≠ 0 → kslots s !! slot_at t id = Some sl → Q true s) →
  wp (if bool_decide (slot_at t id = 0) then mret false
      else sl ← read_slot (slot_at t id); mret (isvalid sl)) Q s.
Proof.
  intros HI Hg Hno Hyes. case_bool_decide as H0.
  - wp_seq. apply Hno; [done|]. destruct (cap_of s g id) eqn:E; [|done].
    apply (cap_of_Some _ _ _ _ _ _ _ HI) in E as (?&?&?&_&_&_&_&?). by simplify_eq.
  - destruct (ki_entry _ _ _ _ HI _ _ _ Hg H0) as (sl&Hsl&_). wp_seq.
    eapply wp_read_slot; [done|]. wp_seq.
    destruct (ki_slot _ _ _ _ HI _ _ Hsl) as (_&->&_). by eapply Hyes.
Qed.

Lemma kinv_contention P refs V s c : kinv P refs V s → kinv P refs V (set_contention c s).
Proof. by apply kinv_ext. Qed.

(** The part of [cap_copy] behind the first lookup, once an id is reserved and
    the new slot allocated. *)
Lemma wp_copy_linked refs V s src dest ts src_id id p sl :
  kinv {[(dest, id)]} refs V s → 0 < p → kslots s !! p = None →
  groups s !! src = Some ts → is_Some (groups s !! dest) →
  kslots s !! slot_at ts src_id = Some sl → slot_at ts src_id ≠ 0 →
  (∀ ob, objects s !! slot_object sl = Some ob → refcount ob + 1 < 2 ^ 64) →
  wp (sl ← read_slot (slot_at ts src_id);
      _ ← refcount_add (slot_object sl) 1;
      d ← read_slot p;
      write_slot p (Slot id dest true (rights d) (slot_object sl));;
      copies_op (list_add (CSlot p) (CSlot (slot_at ts src_id)));;
      table_op dest (install_slot id p);;
      mret id)
    (λ r s', r = id ∧ (∃ V', kinv ∅ refs V' s') ∧
      (∀ g' i, cap_of s' g' i =
         if bool_decide ((g', i) = (dest, id)) then Some (slot_object sl) else cap_of s g' i) ∧
      ∃ ob, objects s !! slot_object sl = Some ob ∧
        objects s' = <[slot_object sl := set_refcount (refcount ob + 1) ob]> (objects s))
    (set_copies (<[CSlot p := ListNode CNull CNull]> (copies s))
       (set_kslots (<[p := Slot 0 0 false None 0]> (kslots s)) s)).
Proof.
  intros HI Hp Hfresh Hsrc Hdest Hsl H0 Hb.
  assert (slot_at ts src_id ≠ p) as Hne by congruence.
  destruct (kinv_slot_split _ _ _ _ HI _ _ Hsl) as (xs&ys&ob&Hob&HV&_&_&_&Hrc&?&?).
  specialize (Hb ob Hob). wp_seq.
  eapply wp_read_slot; [simpl; by rewrite lookup_insert_ne|]. wp_seq.
  eapply wp_refcount_add; [exact Hob|]. rewrite wrap_u64_small by lia. wp_seq.
  eapply wp_read_slot; [simpl; apply lookup_insert_eq|]. wp_seq.
  eapply wp_write_slot; [simpl; apply lookup_insert_eq|]. wp_seq.
  destruct (new_cap_linked refs V s dest id p (CSlot (slot_at ts src_id))
    ((CSlot <$> xs) ++ [CSlot (slot_at ts src_id)]) (CSlot <$> ys)
    (Slot id dest true None (slot_object sl)) ob)
    as (h'&t''&Hadd&Hinst&_&Hnew); [done..|by rewrite <-app_assoc|right; eauto|done|].
  eapply wp_copies_op; [exact Hadd|]. wp_seq.
  eapply wp_table_install; [exact Hinst|]. wp_seq.
  destruct (Hnew (set_refcount (refcount ob + 1) ob)) as [HI' Hcaps]; [done|].
  split_and!; [done| | |].
  - eexists. eapply kinv_ext; [..|exact HI']; simpl; rewrite ?insert_insert_eq; done.
  - intros g' i. simpl in Hcaps. rewrite <-Hcaps.
    apply cap_of_ext; simpl; rewrite ?insert_insert_eq; done.
  - exists ob. done.
Qed.

(** What a copy that returns [r] may have done. *)
Definition copied (s : kstate) (src dest src_id r : Z) (s' : kstate) : Prop :=
  (r = - ECAPBILITY ∧ cap_of s src src_id = None ∧ same_caps s s' ∧ objects s' = objects s) ∨
  (r = - ENOMEM ∧ nomem (kmem s) ∧ is_Some (cap_of s src src_id) ∧ same_caps s s' ∧
     objects s' = objects s) ∨
  (∃ o ob, cap_of s src src_id = Some o ∧ cap_added s s' dest r o ∧ objects s !! o = Some ob ∧
     objects s' = <[o := set_refcount (refcount ob + 1) ob]> (objects s)).

Section copy.
Context (refs : Z → Z) (V : gmap cnode (list cnode)) (s : kstate) (src dest : Z) (ts td : slot_table).
Hypothesis HI : kinv ∅ refs V s.
Hypothesis Hsrc : groups s !! src = Some ts.
Hypothesis Hdest : groups s !! dest = Some td.
Hypothesis Hroom : slots_size td + 64 < 2 ^ 31.
Hypothesis Hb : ∀ o ob, objects s !! o = Some ob → refcount ob + 1 < 2 ^ 64.
Hypothesis Hoom : oom (kmem s) → ∃ j, 0 ≤ j < slots_size td ∧ cap_of s dest j = None.

Lemma wp_cap_copy_locked src_id :
  wp (cap_copy_locked src dest src_id)
    (λ r s', (∃ V', kinv ∅ refs V' s') ∧ copied s src dest src_id r s') s.
Proof using All.
  unfold cap_copy_locked. wp_seq.
  eapply wp_table_read; [exact Hsrc|by eapply kinv_get_slot|]. wp_seq.
  eapply (wp_check_slot ∅ refs V s); [done|done| |].
  { intros _ Hnone. wp_seq. split; [eauto|]. by left. }
  intros sl Hnz Hsl. cbn [negb]. wp_seq.
  assert (cap_of s src src_id = Some (slot_object sl)) as Hcap.
  { unfold cap_of. rewrite Hsrc. simpl. by rewrite Hsl. }
  eapply (wp_reserve refs V s); [done|exact Hdest|done| |].
  { intros k (j&Hj&Hjn)%Hoom Hall. exfalso. destruct (Hall j Hj) as [x Hx]. congruence. }
  intros id t' k s1 Hid Hnone Hbelow Hk _ HI1 Hsame1.
  rewrite bool_decide_eq_false_2 by lia. wp_seq.
  assert (is_Some (groups s1 !! dest)) as Hg1 by (subst s1; simpl; rewrite lookup_insert_eq; eauto).
  eapply wp_kmalloc_slot.
  { intros Hh%(nomem_next _ _ Hk). rewrite bool_decide_eq_true_2 by done. wp_seq.
    eapply wp_unreserve; [by apply kinv_mem|done|]. intros s' HI' Hsame' Hobj. wp_seq.
    split; [by eexists|]. right. left. split_and!; [done|done|by rewrite Hcap| |done].
    intros g' i. rewrite Hsame', <-Hsame1. by apply cap_of_ext. }
  intros p Hp Hfresh. rewrite (bool_decide_eq_false_2 (p = 0)) by lia. wp_seq.
  assert (cap_of s1 src src_id = Some (slot_object sl)) as Hcap1 by (by rewrite Hsame1).
  apply (cap_of_Some _ _ _ _ _ _ _ HI1) in Hcap1 as (ts1&sl1&Hg1'&Hsl1&Hso&_&_&Hnz1).
  assert (kinv {[(dest, id)]} refs V (set_kmem (tail (kmem s1)) s1)) as HI2 by (by apply kinv_mem).
  eapply wp_table_read; [exact Hg1'|eapply kinv_get_slot; [exact HI2|done]|]. wp_seq.
  rewrite (bool_decide_eq_false_2 (slot_at ts1 src_id = 0)) by done. wp_seq.
  assert (slot_at ts1 src_id ≠ p) as Hne1 by (intros Heq; rewrite Heq in Hsl1; congruence).
  eapply wp_read_slot; [simpl; rewrite lookup_insert_ne by done; exact Hsl1|]. wp_seq.
  destruct (ki_slot _ _ _ _ HI1 _ _ Hsl1) as (_&->&_). cbn [negb].
  eapply wp_mono; [eapply (wp_copy_linked refs V (set_kmem (tail (kmem s1)) s1)); eauto|].
  intros r s' (->&HI'&Hcaps&ob&Hob&Hobj). split; [done|]. right. right.
  exists (slot_object sl), ob. rewrite Hso in *. split_and!; [done| |done|done].
  split_and!; [lia|lia|done|done|].
  intros g' i. rewrite Hcaps. case_bool_decide; [done|]. rewrite <-Hsame1. by apply cap_of_ext.
Qed.
End copy.

Lemma wp_cap_copy refs V s src dest ts td src_id :
  kinv ∅ refs V s → groups s !! src = Some ts → groups s !! dest = Some td →
  slots_size td + 64 < 2 ^ 31 → (∀ o ob, objects s !! o = Some ob → refcount ob + 1 < 2 ^ 64) →
  (oom (kmem s) → ∃ j, 0 ≤ j < slots_size td ∧ cap_of s dest j = None) →
  wp (cap_copy src dest src_id)
    (λ r s', (∃ V', kinv ∅ refs V' s') ∧ copied s src dest src_id r s') s.
Proof.
  intros HI Hsrc Hdest Hroom Hb Hoom. unfold cap_copy. wp_seq. case_bool_decide.
  - wp_seq. by eapply wp_cap_copy_locked.
  - wp_seq. apply wp_lock_both; [lia|]. intros c.
    exact (wp_cap_copy_locked refs V (set_contention c s) src dest ts td
             (kinv_contention _ _ _ _ c HI) Hsrc Hdest Hroom Hb Hoom src_id).
Qed.

(** ** Removing capabilities *)

(** The state between unlinking a slot and the check of the reference count;
    [xs ++ ys] are the slots that are left. *)
Record unlinked (refs : Z → Z) (V : gmap cnode (list cnode)) (s : kstate) (g id o : Z)
    (xs ys : list Z) (V1 : gmap cnode (list cnode)) (ob1 : object) (s1 : kstate) : Prop := {
  ul_inv : kinv ∅ refs V1 s1;
  ul_lists : V1 = <[CHead o := (CSlot <$> xs) ++ (CSlot <$> ys)]> V;
  ul_split : ∃ t p, groups s !! g = Some t ∧ slot_at t id = p ∧
    V !! CHead o = Some ((CSlot <$> xs) ++ CSlot p :: (CSlot <$> ys)) ∧
    kslots s1 = delete p (kslots s);
  ul_caps g' i : cap_of s1 g' i = if bool_decide ((g', i) = (g, id)) then None else cap_of s g' i;
  ul_obj : ∃ ob, objects s !! o = Some ob ∧ ob1 = set_refcount (refcount ob - 1) ob ∧
    objects s1 = <[o := ob1]> (objects s);
  ul_groups g' : is_Some (groups s !! g') ↔ is_Some (groups s1 !! g');
  ul_frame : kmem s1 = kmem s ∧ contention s1 = contention s ∧ det s1 = det s
}.

Lemma wp_unlink refs V s g id o Q :
  kinv ∅ refs V s → cap_of s g id = Some o →
  (∀ xs ys V1 ob1 s1, unlinked refs V s g id o xs ys V1 ob1 s1 →
     wp (when (bool_decide (refcount ob1 + 1 = 1)) (__free_object o);; mret 0) Q s1) →
  wp (__cap_free_locked g id) Q s.
Proof.
  intros HI Hcap HQ.
  apply (cap_of_Some _ _ _ _ _ _ _ HI) in Hcap as (t&sl&Hg&Hsl&<-&Hcg&<-&H0).
  destruct (kinv_slot_split _ _ _ _ HI _ _ Hsl) as (xs&ys&ob&Hob&HV&Hx&Hy&_&Hrc&?&?).
  pose proof (ki_table _ _ _ _ HI _ _ Hg) as Hs.
  destruct (table_sync_free _ _ _ _ Hs (slot_at_range _ _ H0)) as (t'&Hf&Hs'&Hat).
  replace (∅ ∖ {[(g, slot_id sl)]} : gset (Z * Z)) with (∅ : gset (Z * Z)) in Hs' by set_solver.
  destruct (list_del_rep _ _ _ _ _ _ (ki_rep _ _ _ _ HI) HV) as (h'&Hdel&_&HR).
  destruct (ki_slot _ _ _ _ HI _ _ Hsl) as (_&Hval&_).
  unfold __cap_free_locked. wp_seq.
  eapply wp_table_read; [done|by eapply kinv_get_slot|]. cbv beta.
  rewrite bool_decide_eq_false_2 by done. wp_seq.
  eapply wp_read_slot; [done|]. cbv beta. rewrite Hval. cbn [negb]. wp_seq.
  eapply wp_table_op; [done|done|]. wp_seq.
  eapply wp_copies_op; [exact Hdel|]. wp_seq.
  eapply wp_kfree_slot; [exact Hsl|]. wp_seq.
  eapply wp_refcount_add; [exact Hob|]. wp_seq.
  rewrite wrap_u64_small by lia.
  replace (refcount ob + -1) with (refcount ob - 1) by lia.
  rewrite (bool_decide_ext (refcount ob = 1) (refcount (set_refcount (refcount ob - 1) ob) + 1 = 1))
    by (simpl; lia).
  rewrite <-wp_bind. eapply (HQ xs ys). split.
  - eapply kinv_ext; [..|eapply (kinv_del_cap refs V s g t t' (slot_at t (slot_id sl)) sl ob
      (set_refcount (refcount ob - 1) ob) h' xs ys); done]; done.
  - done.
  - exists t, (slot_at t (slot_id sl)). done.
  - intros g' i. by eapply (cap_of_del_cap refs V s g t t' (slot_at t (slot_id sl)) sl
      (set_refcount (refcount ob - 1) ob) h').
  - by exists ob.
  - intros g'. simpl. destruct (decide (g' = g)) as [->|].
    + rewrite lookup_insert_eq, Hg. split; eauto.
    + by rewrite lookup_insert_ne.
  - done.
Qed.

(** The last reference to [o] goes, and no checkpoint keeps it. *)
Definition last_put (ob : object) : bool := bool_decide (refcount ob = 1) && negb (obj_root ob).

(** [o] loses a reference.  With the last one it is released, unless it has a checkpoint, and so are the references that it keeps. *)
Record released (refs : Z → Z) (s : kstate) (o : Z) (ob : object) (s' : kstate) : Prop := {
  rl_inv : ∃ V', kinv ∅ (if last_put ob then drop_refs refs (dropped s o ob) else refs) V' s';
  rl_objects : objects s' = if last_put ob then delete o (put_all (dropped s o ob) (objects s))
    else <[o := set_refcount (refcount ob - 1) ob]> (objects s);
  rl_thread : last_put ob = true → obj_type ob = TYPE_THREAD → thread_gone (det s) o (det s');
  rl_pages : freed_pages (det s') = freed_pages (det s) ++ if last_put ob then released_pages s o ob else []
}.

(** A capability group is freed only when no capability is left in it but,
    possibly, the one being removed. *)
Definition free_safe (s : kstate) (g id o : Z) (ob : object) : Prop :=
  refcount ob = 1 → obj_root ob = false → obj_type ob = TYPE_CAP_GROUP →
  ∀ i, (o, i) ≠ (g, id) → cap_of s o i = None.

Lemma put_all_insert l o x : o ∉ l → ∀ m, put_all l (<[o := x]> m) = <[o := x]> (put_all l m).
Proof.
  induction l as [|p l IH]; intros Hl m; [done|]. apply not_elem_of_cons in Hl as [Hp Hl]. cbn. rewrite <-IH by done. f_equal.
  unfold put_one. rewrite lookup_insert_ne by done. destruct (m !! p) as [pb|]; [|done].
  destruct (_ && _); [by rewrite delete_insert_ne|by rewrite insert_insert_ne].
Qed.
Lemma put_pages_insert d l o x : o ∉ l → ∀ m, put_pages d l (<[o := x]> m) = put_pages d l m.
Proof.
  induction l as [|p l IH]; intros Hl m; [done|]. pose proof Hl as [Hp Hl']%not_elem_of_cons. cbn.
  pose proof (put_all_insert [p] o x ltac:(by apply not_elem_of_cons; split; [|apply not_elem_of_nil]) m) as E. cbn in E. rewrite E, IH by done.
  unfold put_frees. by rewrite lookup_insert_ne.
Qed.

(** An object is not among the references that it keeps. *)
Lemma dropped_other refs s o ob : deinit_ok refs s o ob → objects s !! o = Some ob → o ∉ dropped s o ob.
Proof.
  intros (_&_&Hvm) Ho. unfold dropped. case_bool_decide as Hty; [|apply not_elem_of_nil]. destruct (Hvm Hty) as (l&->&Hl). intros Hin.
  destruct (Hl o Hin) as (_&pb&Hpb&Hpt&_). assert (pb = ob) as -> by congruence. by rewrite Hty in Hpt.
Qed.

(** The count of an object does not matter to its routine. *)
Lemma deinit_ok_count refs refs' s s1 o ob n : deinit_ok refs s o ob → objects s !! o = Some ob → det s1 = det s →
  objects s1 = <[o := set_refcount n ob]> (objects s) → (∀ x, x ≠ o → refs' x = refs x) → deinit_ok refs' s1 o (set_refcount n ob).
Proof.
  intros Hok Ho Hd Hobj Hr. pose proof (dropped_other _ _ _ _ Hok Ho) as Hno. destruct Hok as (Hth&Hpm&Hvm).
  unfold deinit_ok. rewrite Hd. split_and!; [done|done|]. cbn. intros Hty. destruct (Hvm Hty) as (l&Hl&Hdef). exists l. split; [done|].
  unfold dropped in Hno. rewrite bool_decide_eq_true_2, Hl in Hno by done. cbn in Hno.
  intros p Hp. destruct (Hdef p Hp) as (?&pb&?&?&?). assert (p ≠ o) by (by intros ->). rewrite Hr by done. split; [done|].
  exists pb. rewrite Hobj, lookup_insert_ne, Hd by done. done.
Qed.

(** The end of [obj_put] and [__cap_free], after [o] has lost a reference *)
Lemma wp_last_put refs0 refs V s s1 o ob : kinv ∅ refs V s1 → objects s !! o = Some ob →
  objects s1 = <[o := set_refcount (refcount ob - 1) ob]> (objects s) → det s1 = det s → (∀ x, x ≠ o → refs x = refs0 x) →
  (last_put ob = true → deinit_ok refs0 s o ob ∧ (obj_type ob = TYPE_CAP_GROUP → drained s1 o)) →
  wp (when (bool_decide (refcount ob = 1)) (__free_object o)) (λ _ s', same_caps s1 s' ∧ released refs s o ob s') s1.
Proof.
  intros HI Ho Hobj Hdet Hrefs Hsafe. destruct (decide (refcount ob = 1)) as [Hlast|Hlast].
  2: { assert (last_put ob = false) as El by (unfold last_put; by rewrite bool_decide_eq_false_2).
       apply wp_when_not; [by apply bool_decide_eq_false_2|]. split; [done|]. split; rewrite El; [by exists V|done|done|by rewrite app_nil_r, Hdet]. }
  rewrite bool_decide_eq_true_2 by done. unfold when, last_put in Hsafe. rewrite bool_decide_eq_true_2 in Hsafe by done. unfold when. cbn [andb] in *.
  assert (objects s1 !! o = Some (set_refcount (refcount ob - 1) ob)) as Ho1 by (rewrite Hobj; apply lookup_insert_eq).
  eapply wp___free_object; [done|exact Ho1|cbn; lia| |]; cbn [obj_root set_refcount]; intros Hroot; rewrite Hroot in Hsafe.
  - split; [done|]. assert (last_put ob = false) as El by (unfold last_put; by rewrite Hroot, andb_false_r).
    split; rewrite El; [by exists V|done|done|by rewrite app_nil_r, Hdet].
  - destruct (Hsafe eq_refl) as [Hok Hdr].
    assert (last_put ob = true) as El by (unfold last_put; by rewrite Hroot, bool_decide_eq_true_2).
    split; [done|]. split; [by eapply deinit_ok_count|]. intros s' [Hinv Hcaps Hobj' Hth Hpg].
    assert (dropped s1 o (set_refcount (refcount ob - 1) ob) = dropped s o ob) as Ed by (unfold dropped; by rewrite Hdet).
    rewrite Ed in *. split; [done|]. split; rewrite El; [done| | |].
    + rewrite Hobj', Hobj, put_all_insert, delete_insert_eq by (by eapply dropped_other). done.
    + intros _ Hty. rewrite <-Hdet. by apply Hth.
    + rewrite Hpg. unfold released_pages. rewrite Ed, Hobj, put_pages_insert by (by eapply dropped_other). unfold own_pages. by rewrite Hdet.
Qed.

Lemma drained_cap_of P refs V s g :
  kinv P refs V s → (∀ i, cap_of s g i = None) → drained s g.
Proof.
  intros HI Hno p sl Hp Hcg. destruct (ki_slot _ _ _ _ HI _ _ Hp) as (_&_&_&_&t&Ht&Hat).
  specialize (Hno (slot_id sl)). unfold cap_of in Hno. rewrite <-Hcg, Ht in Hno. simpl in Hno.
  rewrite Hat, Hp in Hno. done.
Qed.

Lemma wp_cap_free refs V s g id o ob :
  kinv ∅ refs V s → cap_of s g id = Some o → objects s !! o = Some ob → free_safe s g id o ob →
  (last_put ob = true → deinit_ok refs s o ob) →
  wp (cap_free g id) (λ r s', r = 0 ∧
    (∀ g' i, cap_of s' g' i = if bool_decide ((g', i) = (g, id)) then None else cap_of s g' i) ∧
    released refs s o ob s') s.
Proof.
  intros HI Hcap Hob Hsafe Hok. unfold cap_free, __cap_free. cbn [negb andb]. wp_seq.
  rewrite bool_decide_eq_false_2 by lia.
  eapply wp_unlink; [done|done|]. intros xs ys V1 ob1 s1 [HI1 _ _ Hcaps (ob'&Hob'&->&Hobj) _ (_&_&Hdet)].
  rewrite Hob in Hob'. injection Hob' as <-. simpl. wp_seq.
  replace (refcount ob - 1 + 1) with (refcount ob) by lia.
  eapply wp_mono; [eapply (wp_last_put refs refs V1 s s1 o ob); [done|done|done|done|done|]|].
  - intros Hl. split; [by apply Hok|]. intros Hty. apply andb_true_iff in Hl as [?%bool_decide_eq_true ?%negb_true_iff].
    eapply drained_cap_of; [done|]. intros i. rewrite Hcaps. case_bool_decide as Heq; [done|]. by apply Hsafe.
  - intros [] s' [Hsame Hrel]. wp_seq. split_and!; [done| |done]. intros g' i. by rewrite Hsame, Hcaps.
Qed.

(** A capability number that names nothing is refused. *)
Lemma wp_cap_free_invalid refs V s g t id :
  kinv ∅ refs V s → groups s !! g = Some t → cap_of s g id = None →
  cap_free g id s = Ret (- ECAPBILITY, s).
Proof.
  intros HI Hg Hno. unfold cap_free, __cap_free. cbn [negb andb].
  assert (slot_at t id = 0) as H0.
  { destruct (decide (slot_at t id = 0)); [done|].
    destruct (ki_entry _ _ _ _ HI _ _ id Hg) as (sl&Hsl&_); [done|].
    unfold cap_of in Hno. rewrite Hg in Hno. simpl in Hno. rewrite Hsl in Hno. done. }
  unfold __cap_free_locked, mbind, M_bind. simpl. unfold table_read.
  rewrite Hg, (kinv_get_slot _ _ _ _ HI _ _ _ Hg), H0.
  done.
Qed.

(** ** References *)

(** [get_opaque] on an object in use takes a reference to it. *)
Lemma wp_get_opaque refs V s g id o ob tv ty Q :
  kinv ∅ refs V s → cap_of s g id = Some o → objects s !! o = Some ob →
  status ob = DSM_STATUS_INUSE → refcount ob + 1 < 2 ^ 64 →
  (tv = true → obj_type ob ≠ ty → Q 0 s) →
  (tv = false ∨ obj_type ob = ty →
     let s' := set_objects (<[o := set_refcount (refcount ob + 1) ob]> (objects s)) s in
     kinv ∅ (upd_refs refs o 1) V s' → Q o s') →
  wp (get_opaque g id tv ty) Q s.
Proof.
  intros HI Hcap Hob Hst Hb Hno Hyes.
  apply (cap_of_Some _ _ _ _ _ _ _ HI) in Hcap as (t&sl&Hg&Hsl&<-&_&<-&H0).
  pose proof (ki_table _ _ _ _ HI _ _ Hg) as Hs.
  destruct (ki_slot _ _ _ _ HI _ _ Hsl) as (_&Hval&_).
  destruct (ki_obj _ _ _ _ HI _ _ Hob) as (Ho0&_&_&_&_&?&_).
  unfold get_opaque. wp_seq.
  eapply wp_table_read; [done| |].
  { apply is_valid_slot_id_spec; [apply Hs|]. intros j Hj.
    rewrite (ts_used _ _ _ Hs) by done. set_solver. }
  rewrite bool_decide_eq_true_2 by done. cbn [negb]. wp_seq.
  eapply wp_table_read; [done|by eapply kinv_get_slot|]. wp_seq.
  eapply wp_read_slot; [done|]. wp_seq. apply wp_bug_on; [by rewrite Hval|]. wp_seq.
  unfold dsm_get_inuse_object. wp_seq. eapply wp_read_object; [done|]. cbv beta. rewrite Hst. wp_seq.
  apply wp_bug_on; [apply bool_decide_eq_false_2; lia|]. wp_seq.
  eapply wp_read_object; [done|]. cbv beta.
  destruct (decide (tv = true ∧ obj_type ob ≠ ty)) as [[-> Hty]|Hok].
  - rewrite bool_decide_eq_false_2 by done. wp_seq. by apply Hno.
  - assert (tv = false ∨ obj_type ob = ty) as Hok'
      by (destruct tv, (decide (obj_type ob = ty)); naive_solver).
    replace (negb tv || bool_decide (obj_type ob = ty)) with true
      by (destruct Hok' as [-> | ->]; [done|by rewrite bool_decide_eq_true_2, orb_true_r]).
    wp_seq. eapply wp_refcount_add; [done|]. wp_seq.
    destruct (ki_obj _ _ _ _ HI _ _ Hob) as (_&?&_&_&?&?&_).
    rewrite wrap_u64_small by lia. apply Hyes; [done|].
    eapply kinv_refs; [done|done|done|lia|done].
Qed.

(** [obj_put] gives a reference back; the last one frees the object. *)
Lemma wp_obj_put refs V s o ob :
  kinv ∅ refs V s → objects s !! o = Some ob → 0 < refs o →
  (last_put ob = true → deinit_ok refs s o ob ∧ (obj_type ob = TYPE_CAP_GROUP → ∀ i, cap_of s o i = None)) →
  wp (obj_put o) (λ _ s', same_caps s s' ∧ released (upd_refs refs o (-1)) s o ob s') s.
Proof.
  intros HI Hob Href Hsafe. destruct (ki_obj _ _ _ _ HI _ _ Hob) as (_&ps&_&_&Hrc&_&?).
  unfold obj_put, obj_put_with. wp_seq. eapply wp_refcount_add; [done|]. wp_seq.
  rewrite wrap_u64_small by lia. replace (refcount ob + -1) with (refcount ob - 1) by lia.
  set (s1 := set_objects _ s).
  assert (kinv ∅ (upd_refs refs o (-1)) V s1) as HI1
    by (eapply kinv_refs; [done|done|done|lia|lia]).
  assert (same_caps s s1) as Hs1 by (intros ??; by apply cap_of_ext).
  eapply wp_mono; [eapply (wp_last_put refs _ V s s1 o ob); [done|done|done|done| |]|].
  - intros x Hx. unfold upd_refs. by rewrite bool_decide_eq_false_2.
  - intros [? Hcg]%Hsafe. split; [done|]. intros Hty. eapply drained_cap_of; [done|]. intros i. rewrite Hs1. by apply Hcg.
  - intros [] s' [Hsame Hrel]. split; [|done]. intros g i. by rewrite Hsame, Hs1.
Qed.

(** ** [cap_free_all] *)

(** What the loops of [cap_free_all] may do: remove capabilities of [o] and
    count them off, nothing else. *)
Record removing (o : Z) (s s' : kstate) : Prop := {
  rm_caps g i : cap_of s' g i = cap_of s g i ∨ (cap_of s g i = Some o ∧ cap_of s' g i = None);
  rm_obj : ∃ ob n, objects s !! o = Some ob ∧ objects s' = <[o := set_refcount n ob]> (objects s);
  rm_det : det s' = det s
}.

Lemma removing_trans o s1 s2 s3 : removing o s1 s2 → removing o s2 s3 → removing o s1 s3.
Proof.
  intros [Hc1 (ob1&n1&Ho1&Hobj1) ?] [Hc2 (ob2&n2&Ho2&Hobj2) ?]. split.
  - intros g i. destruct (Hc1 g i) as [He1|[??]], (Hc2 g i) as [He2|[??]]; rewrite ?He1 in *; auto.
    right. split; [done|congruence].
  - exists ob1, n2. split; [done|]. rewrite Hobj1, lookup_insert_eq in Ho2. injection Ho2 as <-.
    by rewrite Hobj2, Hobj1, insert_insert_eq.
  - congruence.
Qed.

Lemma removing_refl o s ob c : objects s !! o = Some ob → removing o s (set_contention c s).
Proof.
  intros Ho. split; [by left| |done]. exists ob, (refcount ob). split; [done|]. simpl.
  rewrite insert_id; [done|]. rewrite Ho. by destruct ob.
Qed.

(** One [__cap_free] of the loop, on the first slot of the list. *)
Lemma wp_free_first refs V s o p ps sl Q :
  kinv ∅ refs V s → V !! CHead o = Some (CSlot <$> p :: ps) → is_Some (objects s !! o) →
  1 ≤ refs o → kslots s !! p = Some sl →
  (∀ c, contention s = true :: c → Q (- EAGAIN) (set_contention c s)) →
  (∀ V1 s1, kinv ∅ refs V1 s1 → V1 !! CHead o = Some (CSlot <$> ps) → removing o s s1 →
     (length (contention s1) ≤ length (contention s))%nat → Q 0 s1) →
  wp (__cap_free (cap_group sl) (to_s32 (slot_id sl)) false true) Q s.
Proof.
  intros HI HV [ob Ho] Href Hp Hbusy Hok.
  destruct (ki_obj _ _ _ _ HI _ _ Ho) as (_&ps'&HV'&Hps&_).
  rewrite HV in HV'. apply (inj Some), (list_fmap_eq_inj CSlot) in HV' as <-; [|apply _].
  assert (slot_object sl = o) as Hso.
  { destruct (proj1 (Hps p)) as (sl'&?&?); [set_solver|]. congruence. }
  destruct (ki_slot _ _ _ _ HI _ _ Hp) as (Hp0&_&Hid&_&t&Hg&Hat).
  assert (slot_id sl < 2 ^ 31) as H31.
  { pose proof (to_s31 _ (ts_ok _ _ _ (ki_table _ _ _ _ HI _ _ Hg))).
    destruct (slot_at_range t (slot_id sl)); lia. }
  rewrite to_s32_small by lia.
  assert (∀ c, (length c ≤ length (contention s))%nat →
    let s0 := set_contention c s in
    wp (__cap_free_locked (cap_group sl) (slot_id sl)) Q s0)
    as Hfree.
  { intros c Hc s0. eapply (wp_unlink refs V s0 _ _ o); [by apply kinv_contention| |].
    { unfold cap_of. simpl. rewrite Hg. simpl. by rewrite Hat, Hp, <-Hso. }
    intros xs ys V1 ob1 s1 [HI1 HV1 (t'&p'&Hg'&Hat'&HVs&Hk) Hcaps (ob'&Ho'&Hob1&Hobj) _ (_&Hct&Hdet)].
    simpl in Hg', Ho'. rewrite Hg in Hg'. injection Hg' as <-. rewrite Hat in Hat'. subst p'.
    rewrite HV in HVs. injection HVs as HVs.
    pose proof (rep_list _ _ (ki_rep _ _ _ _ HI) _ _ HV) as [_ Hnd].
    apply NoDup_cons in Hnd as [_ Hnd].
    assert (xs = [] ∧ CSlot <$> ys = CSlot <$> ps) as [-> Hys].
    { rewrite fmap_cons in Hnd. destruct xs as [|x xs]; [by injection HVs|]. exfalso.
      injection HVs as <- HVs. apply NoDup_cons in Hnd as [Hnin _]. apply Hnin.
      change (CSlot p ∈ list_fmap Z cnode CSlot ps). rewrite HVs. set_solver. }
    assert (objects s1 !! o = Some ob1) as Ho1 by (by rewrite Hobj, lookup_insert_eq).
    destruct (ki_obj _ _ _ _ HI1 _ _ Ho1) as (_&?&_&_&Hrc&_&_).
    rewrite bool_decide_eq_false_2 by lia. cbn [when]. wp_seq.
    apply (Hok V1); [done| | |by rewrite Hct].
    - rewrite HV1, lookup_insert_eq. simpl. by rewrite Hys.
    - split.
      + intros g i. rewrite Hcaps. case_bool_decide as Hgi; [|by left]. right. split; [|done].
        injection Hgi as -> ->. unfold cap_of. rewrite Hg. simpl. by rewrite Hat, Hp, <-Hso.
      + exists ob', (refcount ob' - 1). split; [done|]. by rewrite Hobj, Hob1.
      + done. }
  unfold __cap_free. cbn [negb andb]. wp_seq.
  unfold wp at 1, write_try_lock. destruct (contention s) as [|[] c] eqn:Ec.
  - rewrite bool_decide_eq_false_2 by lia.
    replace s with (set_contention [] s) by (destruct s; simpl in *; by subst). apply Hfree. simpl. lia.
  - rewrite bool_decide_eq_true_2 by lia. wp_seq. by apply Hbusy.
  - rewrite bool_decide_eq_false_2 by lia. apply Hfree. simpl. lia.
Qed.

(** The address the loop continues at: the first slot left, or the head. *)
Definition first_copy (o : Z) (ps : list Z) : cnode := default (CHead o) (head (CSlot <$> ps)).

Lemma rd_next_first h V o p ps :
  Rep h V → V !! CHead o = Some (CSlot <$> p :: ps) → rd_next h (CSlot p) = Ret (first_copy o ps).
Proof.
  intros HR HV. rewrite fmap_cons in HV. destruct (rep_list _ _ HR _ _ HV) as [[_ Hl] _]. unfold rd_next, first_copy.
  destruct ps as [|q ps]; simpl in *; destruct Hl as [[(nd&->&<-) _] _]; done.
Qed.

Lemma wp_free_copies refs fuel V s o ps :
  kinv ∅ refs V s → V !! CHead o = Some (CSlot <$> ps) → is_Some (objects s !! o) →
  1 ≤ refs o → (length ps < fuel)%nat →
  wp (free_copies fuel o (first_copy o ps)) (λ b s', ∃ V' ps', kinv ∅ refs V' s' ∧ removing o s s' ∧
    V' !! CHead o = Some (CSlot <$> ps') ∧ (b = true → ps' = []) ∧
    (length (contention s') ≤ length (contention s))%nat ∧
    (b = false → (length (contention s') < length (contention s))%nat)) s.
Proof.
  revert fuel V s. induction ps as [|p ps IH]; intros [|fuel] V s HI HV [ob Ho] Href Hf; simpl in Hf; [lia| |lia|].
  - cbn [free_copies first_copy]. unfold first_copy. simpl.
    rewrite bool_decide_eq_true_2 by done. wp_seq. exists V, []. split_and!; [done| |done|done|lia|done].
    replace s with (set_contention (contention s) s) at 2 by (by destruct s). by eapply removing_refl.
  - destruct (ki_obj _ _ _ _ HI _ _ Ho) as (_&ps'&HV'&Hps&_).
    assert (∃ sl, kslots s !! p = Some sl) as [sl Hp].
    { rewrite HV in HV'. apply (inj Some), (list_fmap_eq_inj CSlot) in HV' as <-; [|apply _].
      destruct (proj1 (Hps p)) as (sl&?&_); [set_solver|eauto]. }
    change (first_copy o (p :: ps)) with (CSlot p). cbn [free_copies].
    rewrite bool_decide_eq_false_2 by done. wp_seq.
    eapply wp_copies_read; [by eapply rd_next_first; [apply HI|]|]. wp_seq.
    eapply wp_read_slot; [done|]. wp_seq.
    eapply wp_free_first; [done|done|by exists ob|done|done| |].
    + intros c Hc. rewrite bool_decide_eq_true_2 by done. wp_seq.
      exists V, (p :: ps). rewrite Hc. simpl. split_and!; [by apply kinv_contention| |done|done|lia|lia].
      by eapply removing_refl.
    + intros V1 s1 HI1 HV1 Hrm Hct. rewrite bool_decide_eq_false_2 by done. wp_seq.
      apply wp_bug_on; [done|]. cbv beta.
      destruct (rm_obj _ _ _ Hrm) as (ob1&n&_&Hobj1).
      eapply wp_mono; [apply (IH fuel V1 s1); [done|done| |done|lia]|].
      { rewrite Hobj1, lookup_insert_eq. eauto. }
      intros b s' (V'&ps''&?&?&?&?&?&Hlt). exists V', ps''.
      split_and!; [done|by eapply removing_trans|done|done|lia|intros ?%Hlt; lia].
Qed.

Lemma kinv_copies_bound P refs V s o ps :
  kinv P refs V s → V !! CHead o = Some (CSlot <$> ps) → (length ps ≤ size (kslots s))%nat.
Proof.
  intros HI HV. destruct (ki_heads _ _ _ _ HI _ _ HV) as (o'&[= <-]&[ob Ho]).
  destruct (ki_obj _ _ _ _ HI _ _ Ho) as (_&ps'&HV'&Hps&_).
  rewrite HV in HV'. apply (inj Some), (list_fmap_eq_inj CSlot) in HV' as <-; [|apply _].
  pose proof (rep_list _ _ (ki_rep _ _ _ _ HI) _ _ HV) as [_ Hnd].
  apply NoDup_cons in Hnd as [_ Hnd%NoDup_fmap_1].
  rewrite <-size_dom, <-(size_list_to_set (C := gset Z)) by done.
  apply subseteq_size. intros p Hp%elem_of_list_to_set.
  apply Hps in Hp as (sl&?&_). apply elem_of_dom. eauto.
Qed.

Lemma wp_free_all_copies refs fuel V s o :
  kinv ∅ refs V s → is_Some (objects s !! o) → 1 ≤ refs o →
  (length (contention s) < fuel)%nat →
  wp (free_all_copies fuel o) (λ _ s', ∃ V', kinv ∅ refs V' s' ∧ removing o s s' ∧
    V' !! CHead o = Some []) s.
Proof.
  revert V s. induction fuel as [|fuel IH]; intros V s HI [ob Ho] Href Hf; [lia|].
  destruct (ki_obj _ _ _ _ HI _ _ Ho) as (_&ps&HV&_).
  cbn [free_all_copies]. wp_seq.
  eapply wp_copies_read; [by eapply rd_next_rep; [apply HI|]|]. wp_seq.
  eapply wp_mono.
  { apply (wp_free_copies refs _ V s o ps); [done|done|by exists ob|done|].
    pose proof (kinv_copies_bound _ _ _ _ _ _ HI HV). lia. }
  intros [] s' (V'&ps'&HI'&Hrm&HV'&Htrue&_&Hct).
  - wp_seq. exists V'. rewrite HV', Htrue by done. done.
  - destruct (rm_obj _ _ _ Hrm) as (ob1&n&_&Hobj1).
    eapply wp_mono; [apply (IH V' s'); [done| |done|specialize (Hct eq_refl); lia]|].
    { rewrite Hobj1, lookup_insert_eq. eauto. }
    intros [] s'' (V''&?&?&?). exists V''. split_and!; [done|by eapply removing_trans|done].
Qed.

(** No capability names an object whose copies list is empty. *)
Lemma no_copies_no_caps P refs V s o :
  kinv P refs V s → V !! CHead o = Some [] → ∀ g i, cap_of s g i ≠ Some o.
Proof.
  intros HI HV g i (t&sl&Hg&Hsl&Hso&_)%(cap_of_Some _ _ _ _ _ _ _ HI).
  destruct (ki_heads _ _ _ _ HI _ _ HV) as (o'&[= <-]&[ob Ho]).
  destruct (ki_obj _ _ _ _ HI _ _ Ho) as (_&ps&HV'&Hps&_). rewrite HV in HV'.
  destruct ps; [|done]. assert (slot_at t i ∈ []) as Hin by (apply Hps; eauto). set_solver.
Qed.

Lemma wp_cap_free_all refs V s g id o ob :
  kinv ∅ refs V s → cap_of s g id = Some o → objects s !! o = Some ob →
  status ob = DSM_STATUS_INUSE → refcount ob + 1 < 2 ^ 64 →
  (refs o = 0 → obj_root ob = false → deinit_ok refs s o ob ∧ (obj_type ob = TYPE_CAP_GROUP →
   ∀ i o', cap_of s o i = Some o' → o' = o)) →
  let last := bool_decide (refs o = 0) && negb (obj_root ob) in
  wp (cap_free_all g id) (λ r s', r = 0 ∧ (∃ V', kinv ∅ (if last then drop_refs refs (dropped s o ob) else refs) V' s') ∧
    (∀ g' i, cap_of s' g' i =
       if bool_decide (cap_of s g' i = Some o) then None else cap_of s g' i) ∧
    objects s' = if last then delete o (put_all (dropped s o ob) (objects s))
                 else <[o := set_refcount (refs o) ob]> (objects s)) s.
Proof.
  intros HI Hcap Hob Hst Hb Hsafe last. unfold cap_free_all. wp_seq.
  destruct (ki_obj _ _ _ _ HI _ _ Hob) as (Ho0&_&_&_&_&Href0&_).
  eapply (wp_get_opaque refs V s g id o ob false 0); [done..|]. intros _ s1 HI1.
  rewrite bool_decide_eq_false_2 by lia. wp_seq.
  eapply wp_mono.
  { eapply (wp_free_all_copies (upd_refs refs o 1) _ V s1 o); [done| | |lia].
    - subst s1. simpl. rewrite lookup_insert_eq. eauto.
    - unfold upd_refs. rewrite bool_decide_eq_true_2 by done. lia. }
  intros [] s2 (V2&HI2&[Hcaps (ob2&n&Ho2&Hobj2) Hdet]&HV2). wp_seq.
  subst s1. simpl in Ho2, Hobj2. rewrite lookup_insert_eq in Ho2. injection Ho2 as <-.
  rewrite insert_insert_eq in Hobj2.
  assert (objects s2 !! o = Some (set_refcount n ob)) as Hos2 by (by rewrite Hobj2, lookup_insert_eq).
  assert (n = refs o + 1) as ->.
  { destruct (ki_obj _ _ _ _ HI2 _ _ Hos2) as (_&ps&HVp&_&Hrc&_). rewrite HV2 in HVp.
    destruct ps; [|done]. unfold upd_refs in Hrc. rewrite bool_decide_eq_true_2 in Hrc by done.
    simpl in Hrc. lia. }
  assert (∀ g' i, cap_of s2 g' i = if bool_decide (cap_of s g' i = Some o) then None else cap_of s g' i)
    as Hcaps2.
  { intros g' i. destruct (Hcaps g' i) as [He|[He ->]]; rewrite ?He.
    - change (cap_of (set_objects _ s) g' i) with (cap_of s g' i) in *.
      rewrite bool_decide_eq_false_2; [done|]. rewrite <-He. by eapply no_copies_no_caps.
    - change (cap_of (set_objects _ s) g' i) with (cap_of s g' i) in *.
      by rewrite bool_decide_eq_true_2. }
  assert (last_put (set_refcount (refs o + 1) ob) = last) as El
    by (unfold last_put, last; cbn; by rewrite (bool_decide_ext (refs o + 1 = 1) (refs o = 0)) by lia).
  assert (refs o = 0 → obj_root ob = false → o ∉ dropped s o ob) as Hno by (intros H1 H2; by eapply dropped_other; [apply Hsafe|]).
  assert (dropped s2 o (set_refcount (refs o + 1) ob) = dropped s o ob) as Ed by (unfold dropped; by rewrite Hdet).
  eapply wp_mono; [eapply (wp_obj_put _ V2 s2 o); [done|done| |]|].
  { unfold upd_refs. rewrite bool_decide_eq_true_2 by done. lia. }
  { rewrite El. intros [H1%bool_decide_eq_true H2%negb_true_iff]%andb_true_iff. destruct (Hsafe H1 H2) as [Hok Hcg]. split.
    - eapply deinit_ok_count; [exact Hok|done|done|done|]. intros x Hx. unfold upd_refs. by rewrite bool_decide_eq_false_2.
    - cbn. intros Hty i. rewrite Hcaps2. case_bool_decide as Hio; [done|].
      destruct (cap_of s o i) as [o'|] eqn:E; [|done]. exfalso. apply Hio. f_equal. by eapply Hcg. }
  intros [] s3 (Hsame&[(V3&HI3) Hobj3 _]). wp_seq. rewrite El in HI3, Hobj3. rewrite Ed in HI3, Hobj3. split_and!; [done| | |].
  - exists V3. eapply kinv_refs_ext; [|exact HI3]. intros x. destruct last; unfold drop_refs, upd_refs; case_bool_decide; lia.
  - intros g' i. by rewrite Hsame, Hcaps2.
  - rewrite Hobj3, Hobj2. destruct last eqn:E.
    + apply andb_true_iff in E as [E1%bool_decide_eq_true E2%negb_true_iff].
      by rewrite put_all_insert, delete_insert_eq by (by apply Hno).
    + rewrite insert_insert_eq. cbn. replace (refs o + 1 - 1) with (refs o) by lia. done.
Qed.

(** ** [cap_move] *)

Lemma cap_refcount_pos P refs V s g i o ob :
  kinv P refs V s → cap_of s g i = Some o → objects s !! o = Some ob → 1 ≤ refcount ob.
Proof.
  intros HI (t&sl&_&Hsl&<-&_)%(cap_of_Some _ _ _ _ _ _ _ HI) Ho.
  destruct (kinv_slot_split _ _ _ _ HI _ _ Hsl) as (?&?&ob'&Ho'&_&_&_&_&Hrc&?&_).
  simplify_eq. lia.
Qed.

Lemma wp_cap_move refs V s src dest ts td src_id :
  kinv ∅ refs V s → groups s !! src = Some ts → groups s !! dest = Some td →
  slots_size td + 64 < 2 ^ 31 → (∀ o ob, objects s !! o = Some ob → refcount ob + 1 < 2 ^ 64) →
  (oom (kmem s) → ∃ j, 0 ≤ j < slots_size td ∧ cap_of s dest j = None) →
  wp (cap_move src dest src_id) (λ r s', (∃ V', kinv ∅ refs V' s') ∧ objects s' = objects s ∧
    ((r = - ECAPBILITY ∧ cap_of s src src_id = None ∧ same_caps s s') ∨
     (r = - ENOMEM ∧ nomem (kmem s) ∧ is_Some (cap_of s src src_id) ∧ same_caps s s') ∨
     (r = 0 ∧ ∃ o id, cap_of s src src_id = Some o ∧ cap_of s dest id = None ∧
        ∀ g i, cap_of s' g i = if bool_decide ((g, i) = (src, src_id)) then None
                               else if bool_decide ((g, i) = (dest, id)) then Some o
                               else cap_of s g i))) s.
Proof.
  intros HI Hsrc Hdest Hroom Hb Hoom. unfold cap_move. wp_seq.
  eapply wp_mono; [by eapply wp_cap_copy|].
  intros r s1 [[V1 HI1] [(->&?&?&?)|[(->&?&?&?&?)|(o&ob&Hcap&(Hr&Hnone&_&Hcaps)&Hob&Hobj)]]].
  { rewrite bool_decide_eq_true_2 by (unfold ECAPBILITY; lia). wp_seq. split_and!; [eauto|done|auto]. }
  { rewrite bool_decide_eq_true_2 by (unfold ENOMEM; lia). wp_seq.
    split_and!; [eauto|done|right; left; done]. }
  rewrite bool_decide_eq_false_2 by lia. wp_seq.
  pose proof (cap_refcount_pos _ _ _ _ _ _ _ _ HI Hcap Hob) as Hrc1.
  assert ((src, src_id) ≠ (dest, r)) as Hne by congruence.
  assert (last_put (set_refcount (refcount ob + 1) ob) = false) as Hlast
    by (unfold last_put; cbn; by rewrite bool_decide_eq_false_2 by lia).
  eapply wp_mono.
  { eapply (wp_cap_free refs V1 s1 src src_id o (set_refcount (refcount ob + 1) ob)); [done| | | |].
    - by rewrite Hcaps, bool_decide_eq_false_2.
    - rewrite Hobj. apply lookup_insert_eq.
    - intros Hx. simpl in Hx. lia.
    - by rewrite Hlast. }
  intros r' s2 (->&Hcaps2&[[V2 HI2] Hrel _]). wp_seq. apply wp_bug_on; [done|]. wp_seq. rewrite Hlast in HI2, Hrel.
  split_and!; [eauto| |].
  - rewrite Hrel. simpl.
    rewrite Hobj, insert_insert_eq. replace (refcount ob + 1 - 1) with (refcount ob) by lia.
    rewrite insert_id; [done|]. rewrite Hob. by destruct ob.
  - right. right. split; [done|]. exists o, r. split_and!; [done|done|].
    intros g i. rewrite Hcaps2. case_bool_decide; [done|]. by rewrite Hcaps.
Qed.

(** ** Object creation *)

Lemma wp_obj_alloc refs V s ty sz :
  kinv ∅ refs V s → (∀ o, objects s !! o = None → refs o = 0) →
  wp (obj_alloc ty sz) (λ o s', (∃ V', kinv ∅ refs V' s') ∧ same_caps s s' ∧
    groups s' = groups s ∧ kmem s' = tail (kmem s) ∧
    (o = 0 ∧ head (kmem s) ≠ Some true ∧ objects s' = objects s ∨
     objects s !! o = None ∧ 0 < o ∧
     objects s' = <[o := Object ty sz 0 false DSM_STATUS_INVALID 0]> (objects s))) s.
Proof.
  intros HI Hfr. unfold obj_alloc, object_alloc, kalloc_k, kalloc. wp_seq.
  destruct (fresh_addr_spec (objects s)) as [Hpos Hnone].
  unfold wp at 1. destruct (kmem s) as [|[] k] eqn:Hk; wp_seq.
  1, 3: split_and!; [exists V; by apply kinv_mem|by intros ??|done|done|by left].
  set (o := fresh_addr (objects s)) in *. pose proof (Hfr o Hnone) as Href0.
  assert (¬ on_list V (CHead o)) as Hoff.
  { intros (x&xs&Hx&Hin). destruct (ki_heads _ _ _ _ HI _ _ Hx) as (o'&->&[ob' Ho']).
    destruct (ki_obj _ _ _ _ HI _ _ Ho') as (_&ps&HV&_).
    apply elem_of_cons in Hin as [[= <-]|Hin]; [congruence|].
    rewrite Hx in HV. injection HV as ->. apply list_elem_of_fmap in Hin as (?&?&_). done. }
  assert (Rep (<[CHead o := ListNode CNull CNull]> (copies s)) V) as HR.
  { eapply rep_frame; [apply HI|]. intros x Hx. apply lookup_insert_ne. by intros <-. }
  destruct (init_list_head_rep _ _ (CHead o) HR) as (h'&Hinit&_&HR'&_); [|done|].
  { rewrite lookup_insert_eq. eauto. }
  change (fresh_addr (objects (set_kmem k s))) with o.
  eapply wp_copies_op; [exact Hinit|]. wp_seq.
  split_and!; [|by intros ??|done|done|right; done]. exists (<[CHead o := []]> V). split; simpl; try apply HI.
  - intros p sl Hp. destruct (ki_slot _ _ _ _ HI _ _ Hp) as (?&?&?&?&?). split_and!; [done..| |done].
    rewrite lookup_insert_ne; [done|]. intros Heq. destruct H2 as [??]. congruence.
  - done.
  - intros o' ob' Ho'. destruct (decide (o' = o)) as [->|Hne].
    + rewrite lookup_insert_eq in Ho'. injection Ho' as <-. split; [done|]. exists [].
      rewrite lookup_insert_eq, Href0. split_and!; [done| |done|done|simpl; lia].
      intros p. split; [set_solver|]. intros (sl&Hsl&Hso).
      destruct (ki_slot _ _ _ _ HI _ _ Hsl) as (_&_&_&[??]&_). congruence.
    + rewrite lookup_insert_ne in Ho' by done. rewrite lookup_insert_ne by congruence.
      by apply (ki_obj _ _ _ _ HI).
  - intros x xs Hx. destruct (decide (x = CHead o)) as [->|Hne].
    + exists o. rewrite lookup_insert_eq. eauto.
    + rewrite lookup_insert_ne in Hx by done. destruct (ki_heads _ _ _ _ HI _ _ Hx) as (o'&->&?).
      exists o'. split; [done|]. rewrite lookup_insert_ne; [done|]. congruence.
Qed.

(** ** Capability groups *)

Definition empty_table (n : Z) : slot_table :=
  SlotTable (64 * n) (replicate (Z.to_nat (64 * n)) 0)
    (replicate (Z.to_nat (BITS_TO_LONGS n)) 0) (replicate (Z.to_nat n) 0).

Lemma bit_zeros k i : bit (replicate k 0) i = false.
Proof.
  unfold bit. destruct (replicate k 0 !! _) as [w|] eqn:E; [|done].
  apply lookup_replicate in E as [-> _]. apply Z.bits_0.
Qed.

Lemma slot_at_empty n j : slot_at (empty_table n) j = 0.
Proof.
  unfold slot_at. case_bool_decide; [|done]. cbn [empty_table slots].
  destruct (replicate _ 0 !! _) as [w|] eqn:E; [|done]. by apply lookup_replicate in E as [-> _].
Qed.

Lemma table_sync_empty g n : 1 ≤ n → 64 * n < 2 ^ 31 → table_sync ∅ g (empty_table n).
Proof.
  intros Hn H31. pose proof (BITS_TO_LONGS_bounds n ltac:(lia)). split.
  - split; cbn [empty_table slots slots_size slots_bmp full_slots_bmp].
    + exists n. rewrite !length_replicate. lia.
    + done.
    + intros k w [-> _]%lookup_replicate. lia.
    + intros i Hi. rewrite bit_zeros. split; [done|]. by intros [? _]%lookup_replicate.
  - intros j Hj. unfold used. cbn [empty_table slots_bmp]. rewrite bit_zeros, slot_at_empty. set_solver.
  - intros j Hj. set_solver.
Qed.

(** The next [n] allocations succeed. *)
Definition plenty (n : nat) (m : mem) : Prop := ∀ i, (i < n)%nat → m !! i = Some true.

Lemma plenty_drop n k m : plenty n m → plenty (n - k) (drop k m).
Proof. intros Hm i Hi. rewrite lookup_drop. apply Hm. lia. Qed.

Lemma plenty_le n n' m : plenty n m → (n' ≤ n)%nat → plenty n' m.
Proof. intros Hm ? i ?. apply Hm. lia. Qed.

Lemma plenty_not_nomem n m : plenty n m → (4 ≤ n)%nat → ¬ nomem m.
Proof. intros Hm ? (k&?&Hk). rewrite Hm in Hk by lia. done. Qed.

Lemma plenty_cons n m : plenty (S n) m → ∃ m', m = true :: m' ∧ plenty n m'.
Proof.
  intros Hm. destruct m as [|b m]; [by pose proof (Hm 0%nat ltac:(lia))|].
  pose proof (Hm 0%nat ltac:(lia)) as [= ->]. exists m. split; [done|].
  intros i Hi. apply (Hm (S i)). lia.
Qed.

Lemma wp_cap_group_init refs V s g :
  kinv ∅ refs V s → groups s !! g = None → plenty 4 (kmem s) →
  wp (cap_group_init g BASE_OBJECT_NUM) (λ r s', r = 0 ∧ kinv ∅ refs V s' ∧
    groups s' = <[g := empty_table 1]> (groups s) ∧ objects s' = objects s ∧
    kmem s' = drop 5 (kmem s) ∧ same_caps s s') s.
Proof.
  intros HI Hg Hmem. assert (∃ m, kmem s = true :: true :: true :: true :: m) as [m Hm].
  { do 4 (apply plenty_cons in Hmem as (?&->&Hmem)). eauto. }
  unfold cap_group_init, wp, mbind, M_bind, on_kmem.
  assert (slot_table_init BASE_OBJECT_NUM (kmem s) = Ret (inr (empty_table 1), true :: m)) as ->
    by (by rewrite Hm).
  unfold modify, kalloc_k, kalloc. simpl.
  assert (kinv ∅ refs V (set_groups (<[g := empty_table 1]> (groups s)) s)) as HI'.
  { split; simpl; try apply HI.
    - intros g' t Ht. destruct (decide (g' = g)) as [->|].
      + rewrite lookup_insert_eq in Ht. injection Ht as <-. by apply table_sync_empty.
      + rewrite lookup_insert_ne in Ht by done. by eapply ki_table.
    - intros p sl Hp. destruct (ki_slot _ _ _ _ HI _ _ Hp) as (?&?&?&?&t&Ht&?).
      split_and!; [done..|]. exists t. rewrite lookup_insert_ne; [done|]. congruence.
    - intros g' t i Ht Hi. destruct (decide (g' = g)) as [->|].
      + rewrite lookup_insert_eq in Ht. injection Ht as <-. by rewrite slot_at_empty in Hi.
      + rewrite lookup_insert_ne in Ht by done. by eapply ki_entry. }
  assert (same_caps s (set_groups (<[g := empty_table 1]> (groups s)) s)) as Hs.
  { intros g' i. unfold cap_of. simpl. destruct (decide (g' = g)) as [->|].
    - rewrite lookup_insert_eq, Hg. simpl. by rewrite slot_at_empty, (kinv_slot0 _ _ _ _ HI).
    - by rewrite lookup_insert_ne. }
  rewrite Hm. destruct m as [|b m]; simpl; split_and!; try done; by eapply kinv_ext, HI'.
Qed.

Lemma kinv_no_groups m : kinv ∅ (λ _, 0) ∅ (no_groups m).
Proof.
  split; simpl; try (intros *; rewrite lookup_empty; done).
  apply rep_empty.
Qed.

(** Booting: the first group holds itself as capability 0 and its address space
    as capability 1. *)
Lemma wp_create_root_cap_group m sg sv :
  plenty 18 m →
  wp (create_root_cap_group sg sv) (λ g s', (∃ V', kinv ∅ (λ _, 0) V' s') ∧
    ∃ vm, g ≠ vm ∧ cap_of s' g CAP_GROUP_OBJ_ID = Some g ∧ cap_of s' g VMSPACE_OBJ_ID = Some vm ∧
      (∀ g' i, is_Some (cap_of s' g' i) → g' = g ∧ (i = 0 ∨ i = 1)) ∧
      objects s' = <[vm := Object TYPE_VMSPACE sv 1 false DSM_STATUS_INUSE 0]>
                     {[g := Object TYPE_CAP_GROUP sg 1 false DSM_STATUS_INUSE 0]}) (no_groups m).
Proof.
  intros Hm. pose proof (kinv_no_groups m) as HI0. unfold create_root_cap_group. wp_seq.
  eapply wp_mono; [by apply (wp_obj_alloc (λ _, 0) ∅)|].
  intros g s1 ([V1 HI1]&Hc1&Hg1&Hk1&[(_&Hx&_)|(_&Hg0&Ho1)]).
  { exfalso. apply Hx. apply plenty_cons in Hm as (?&->&_). done. }
  apply plenty_cons in Hm as (m1&->&Hm1). simpl in Hk1, Ho1, Hg1.
  wp_seq. apply wp_bug_on; [apply bool_decide_eq_false_2; lia|]. wp_seq.
  eapply wp_mono.
  { apply (wp_cap_group_init (λ _, 0) V1); [done|by rewrite Hg1|].
    rewrite Hk1. eapply plenty_le; [done|lia]. }
  intros r s2 (_&HI2&Hg2&Ho2&Hk2&Hc2). wp_seq.
  rewrite Hk1 in Hk2. pose proof (plenty_drop _ 5 _ Hm1) as Hm2. rewrite <-Hk2 in Hm2.
  assert (∀ g' i, cap_of s2 g' i = None) as Hnone2 by (intros; rewrite Hc2, Hc1; done).
  eapply wp_mono.
  { eapply (wp_cap_alloc (λ _, 0) V1 s2 g (empty_table 1) g); [done| |done| |].
    - by rewrite Hg2, lookup_insert_eq.
    - by rewrite Ho2, Ho1, lookup_insert_eq.
    - done. }
  intros r3 s3 ([V3 HI3]&[(_&Hx&_)|((Hr3&_&Hb3&Hc3)&(k3&Hk3&Hm3)&Hg3&Ho3)]).
  { exfalso. eapply plenty_not_nomem; [exact Hm2|lia|done]. }
  assert (r3 = 0) as ->.
  { destruct (decide (0 < r3)) as [Hpos|]; [|lia].
    destruct (Hb3 0) as [? Hs]; [lia|]. by rewrite Hnone2 in Hs. }
  rewrite Ho2, Ho1, insert_insert_eq in Ho3.
  wp_seq. apply wp_bug_on; [done|]. wp_seq.
  pose proof (plenty_drop _ k3 _ Hm2) as Hm4. rewrite <-Hm3 in Hm4.
  eapply plenty_le in Hm4 as (m4&Hk3'&Hm4)%(plenty_cons 7); [|lia].
  eapply wp_mono; [by apply (wp_obj_alloc (λ _, 0) V3)|].
  intros vm s4 ([V4 HI4]&Hc4&Hg4&Hk4&[(_&Hx&_)|(Hvm&Hv0&Ho4)]).
  { exfalso. apply Hx. by rewrite Hk3'. }
  rewrite Hk3' in Hk4. simpl in Hk4. rewrite Ho3 in Hvm, Ho4.
  assert (g ≠ vm) as Hgv by (intros ->; by rewrite lookup_insert_eq in Hvm).
  wp_seq. apply wp_bug_on; [apply bool_decide_eq_false_2; lia|]. wp_seq.
  destruct Hg3 as (t3&Hg3&Hsz3). rewrite <-Hg4 in Hg3.
  eapply wp_mono.
  { eapply (wp_cap_alloc (λ _, 0) V4 s4 g t3 vm); [done|done| | |].
    - simpl in Hsz3. lia.
    - by rewrite Ho4, lookup_insert_eq.
    - done. }
  intros r5 s5 ([V5 HI5]&[(_&Hx&_)|((Hr5&Hn5&Hb5&Hc5)&_&_&Ho5)]).
  { exfalso. rewrite Hk4 in Hx. eapply plenty_not_nomem; [exact Hm4|lia|done]. }
  assert (∀ g' i, cap_of s4 g' i = if bool_decide ((g', i) = (g, 0)) then Some g else None) as Hcaps4.
  { intros g' i. rewrite Hc4, Hc3. case_bool_decide; [done|apply Hnone2]. }
  assert (r5 = 1) as ->.
  { destruct (decide (r5 = 0)) as [->|]; [by rewrite Hcaps4, bool_decide_eq_true_2 in Hn5|].
    destruct (decide (r5 = 1)); [done|]. destruct (Hb5 1) as [? Hs]; [lia|].
    rewrite Hcaps4, bool_decide_eq_false_2 in Hs by congruence. done. }
  wp_seq. apply wp_bug_on; [done|]. wp_seq. split; [eauto|]. exists vm.
  split_and!; [done| | | |].
  - rewrite Hc5, bool_decide_eq_false_2, Hcaps4 by done. by rewrite bool_decide_eq_true_2.
  - by rewrite Hc5, bool_decide_eq_true_2.
  - intros g' i [x Hx]. rewrite Hc5, Hcaps4 in Hx. repeat case_bool_decide; simplify_eq; auto.
  - by rewrite Ho5, Ho4, insert_insert_eq.
Qed.
