(* ===== verification/CapTheorems.v ===== *)
(** The properties of the capability system. *)
From S2P Require Import Prelude Words ListHead Bitmap SlotTable Capability CapProofs CapSpec.

(** A capability state between operations: [refs] counts the references taken
    by [obj_get]. *)
Definition wf (refs : Z → Z) (s : kstate) : Prop := ∃ V, kinv ∅ refs V s.

(** creating a capability.  For an object without capabilities, [cap_alloc]
    returns the smallest free number of the group and makes it name the object,
    whose reference count becomes 1; no other capability changes.  It fails only
    if one of at most four allocations does, and then changes nothing. *)
Theorem cap_alloc_correct refs s g t o ob rg :
  wf refs s → groups s !! g = Some t → slots_size t + 64 < 2 ^ 31 →
  objects s !! o = Some ob → refcount ob = 0 →
  wp (cap_alloc g o rg) (λ r s', wf refs s' ∧
    ((r = - ENOMEM ∧ nomem (kmem s) ∧ same_caps s s' ∧ objects s' = objects s) ∨
     (0 ≤ r ∧ cap_of s g r = None ∧ (∀ j, 0 ≤ j < r → is_Some (cap_of s g j)) ∧
      (∀ g' i, cap_of s' g' i = if bool_decide ((g', i) = (g, r)) then Some o else cap_of s g' i) ∧
      objects s' = <[o := set_status DSM_STATUS_INUSE (set_refcount 1 ob)]> (objects s)))) s.
Proof.
  intros [V HI] Hg Hroom Ho H0. eapply wp_mono; [by eapply wp_cap_alloc|].
  intros r s' [[V' HI'] Hpost]. split; [by exists V'|].
  destruct Hpost as [?|((?&?&?&?)&_&_&?)]; [by left|right]. split_and!; [lia|done..].
Qed.

(** C13: copying a capability.  [cap_copy] gives the destination group a new
    capability, with its smallest free number, for the object the source
    capability names, and counts it; every other capability keeps its meaning.
    A number that names nothing is refused, and running out of memory changes
    nothing.  The destination table must have a free number when memory is too
    short to enlarge it. *)
Theorem cap_copy_correct refs s src dest ts td src_id :
  wf refs s → groups s !! src = Some ts → groups s !! dest = Some td →
  slots_size td + 64 < 2 ^ 31 → (∀ o ob, objects s !! o = Some ob → refcount ob + 1 < 2 ^ 64) →
  (oom (kmem s) → ∃ j, 0 ≤ j < slots_size td ∧ cap_of s dest j = None) →
  wp (cap_copy src dest src_id) (λ r s', wf refs s' ∧
    match cap_of s src src_id with
    | None => r = - ECAPBILITY ∧ same_caps s s' ∧ objects s' = objects s
    | Some o =>
        (r = - ENOMEM ∧ nomem (kmem s) ∧ same_caps s s' ∧ objects s' = objects s) ∨
        (cap_added s s' dest r o ∧ ∃ ob, objects s !! o = Some ob ∧
           objects s' = <[o := set_refcount (refcount ob + 1) ob]> (objects s))
    end) s.
Proof.
  intros [V HI] Hs Hd Hroom Hb Hoom. eapply wp_mono; [by eapply wp_cap_copy|].
  intros r s' [[V' HI'] Hpost]. split; [by exists V'|].
  destruct Hpost as [(->&->&?)|[(->&?&[o ->]&?)|(o&ob&->&?&?&?)]]; [done|by left|right; eauto].
Qed.


(** moving a capability.  When [cap_move] succeeds the source number is free, a
    number of the destination that was free names the object, and nothing else
    changes, in particular not the reference count; otherwise the state of the
    capabilities is unchanged. *)
Theorem cap_move_correct refs s src dest ts td src_id :
  wf refs s → groups s !! src = Some ts → groups s !! dest = Some td →
  slots_size td + 64 < 2 ^ 31 → (∀ o ob, objects s !! o = Some ob → refcount ob + 1 < 2 ^ 64) →
  (oom (kmem s) → ∃ j, 0 ≤ j < slots_size td ∧ cap_of s dest j = None) →
  wp (cap_move src dest src_id) (λ r s', wf refs s' ∧ objects s' = objects s ∧
    match cap_of s src src_id with
    | None => r = - ECAPBILITY ∧ same_caps s s'
    | Some o =>
        (r = - ENOMEM ∧ nomem (kmem s) ∧ same_caps s s') ∨
        (r = 0 ∧ ∃ id, cap_of s dest id = None ∧
           ∀ g i, cap_of s' g i = if bool_decide ((g, i) = (src, src_id)) then None
                                  else if bool_decide ((g, i) = (dest, id)) then Some o
                                  else cap_of s g i)
    end) s.
Proof.
  intros [V HI] Hs Hd Hroom Hb Hoom. eapply wp_mono; [by eapply wp_cap_move|].
  intros r s' ([V' HI']&?&Hpost). split; [by exists V'|]. split; [done|].
  destruct Hpost as [(->&->&?)|[(->&?&[o ->]&?)|(->&o&id&->&?&?)]]; [done|by left|right; eauto].
Qed.

(** revocation.  [cap_free_all] removes every capability, in whatever group,
    that names the object, and no other, whatever try-locks fail on the way; the
    object is freed unless references or a checkpoint keep it. *)
Theorem cap_free_all_correct refs s g id o ob :
  wf refs s → cap_of s g id = Some o → objects s !! o = Some ob →
  status ob = DSM_STATUS_INUSE → refcount ob + 1 < 2 ^ 64 →
  (refs o = 0 → obj_root ob = false → deinit_ok refs s o ob ∧ (obj_type ob = TYPE_CAP_GROUP →
   ∀ i o', cap_of s o i = Some o' → o' = o)) →
  let last := bool_decide (refs o = 0) && negb (obj_root ob) in
  wp (cap_free_all g id) (λ r s', r = 0 ∧ wf (if last then drop_refs refs (dropped s o ob) else refs) s' ∧
    (∀ g' i, cap_of s' g' i =
       if bool_decide (cap_of s g' i = Some o) then None else cap_of s g' i) ∧
    objects s' = if last then delete o (put_all (dropped s o ob) (objects s))
                 else <[o := set_refcount (refs o) ob]> (objects s)) s.
Proof. intros [V HI] ?????. eapply wp_mono; [by eapply wp_cap_free_all|]. done. Qed.

(** references.  [obj_get] through a capability of the right type followed by
    [obj_put] returns the object and leaves all objects and capabilities as
    they were. *)
Theorem obj_get_put_roundtrip refs s g id o ob :
  wf refs s → cap_of s g id = Some o → objects s !! o = Some ob →
  status ob = DSM_STATUS_INUSE → refcount ob + 1 < 2 ^ 64 →
  wp (x ← obj_get g id (obj_type ob); obj_put x;; mret x)
    (λ x s', x = o ∧ wf refs s' ∧ same_caps s s' ∧ objects s' = objects s) s.
Proof.
  intros [V HI] Hcap Ho Hst Hb. wp_seq. unfold obj_get.
  pose proof (cap_refcount_pos _ _ _ _ _ _ _ _ HI Hcap Ho).
  eapply (wp_get_opaque refs V); [done..|]. intros _ s1 HI1. wp_seq.
  destruct (ki_obj _ _ _ _ HI _ _ Ho) as (_&_&_&_&_&?&_).
  assert (last_put (set_refcount (refcount ob + 1) ob) = false) as Hlast
    by (unfold last_put; cbn; by rewrite bool_decide_eq_false_2 by lia).
  eapply wp_mono; [eapply (wp_obj_put _ V s1 o); [done|subst s1; simpl; apply lookup_insert_eq| |]|].
  - unfold upd_refs. rewrite bool_decide_eq_true_2 by done. lia.
  - by rewrite Hlast.
  - intros [] s2 (Hsame&[[V2 HI2] Hrel _]). rewrite Hlast in HI2, Hrel. wp_seq. split_and!; [done| |done|].
    + exists V2. eapply kinv_refs_ext; [|exact HI2]. intros x. unfold upd_refs.
      case_bool_decide; lia.
    + rewrite Hrel. simpl.
      rewrite insert_insert_eq. replace (refcount ob + 1 - 1) with (refcount ob) by lia.
      rewrite insert_id; [done|]. rewrite Ho. by destruct ob.
Qed.

(** booting.  With memory for its 18 allocations, [create_root_cap_group] returns
    a group whose capability 0 is the group itself and whose capability 1 is a new
    address space; there are no other capabilities and no other objects, and
    the state is well formed. *)
Theorem create_root_cap_group_correct m sg sv :
  plenty 18 m →
  wp (create_root_cap_group sg sv) (λ g s', wf (λ _, 0) s' ∧
    ∃ vm, g ≠ vm ∧ cap_of s' g CAP_GROUP_OBJ_ID = Some g ∧ cap_of s' g VMSPACE_OBJ_ID = Some vm ∧
      (∀ g' i, is_Some (cap_of s' g' i) → g' = g ∧ (i = 0 ∨ i = 1)) ∧
      objects s' = <[vm := Object TYPE_VMSPACE sv 1 false DSM_STATUS_INUSE 0]>
                     {[g := Object TYPE_CAP_GROUP sg 1 false DSM_STATUS_INUSE 0]}) (no_groups m).
Proof. apply wp_create_root_cap_group. Qed.

(** slot ids.  On a well-formed table [alloc_slot_id] returns the smallest id not
    in use and marks it; when all ids are in use the table grows by 64 ids and the
    first new one is returned, or the call fails, only for lack of memory, and
    leaves the table as it is. *)
Theorem alloc_slot_id_correct t m :
  table_ok t → slots_size t + 64 < 2 ^ 31 →
  wp alloc_slot_id (λ r '(t', m'), table_ok t' ∧
    (r = - ENOMEM ∧ t' = t ∧ oom m ∧ (∀ j, 0 ≤ j < slots_size t → used t j = true) ∨
     0 ≤ r < slots_size t' ∧ used t r = false ∧ (∀ j, 0 ≤ j < r → used t j = true) ∧
     (∀ j, 0 ≤ j → used t' j = bool_decide (j = r) || used t j) ∧
     (∀ j, slot_at t' j = slot_at t j) ∧
     slots_size t' = slots_size t + (if bool_decide (r = slots_size t) then 64 else 0))) (t, m).
Proof.
  intros Ht Hroom. eapply wp_mono; [by apply wp_alloc_slot_id|].
  intros r [t' m'] [(->&->&?)|(Hr&Hu&Hb&[[Htk _]|(->&Htk&_&_)])]; destruct_and?.
  - split; [done|by left].
  - destruct Htk as (?&Hsz&Hsl&Hus). split; [done|]. right.
    split_and!; [lia|lia|done|done|done| |].
    + intros j. by apply slot_at_ext.
    + rewrite bool_decide_eq_false_2; lia.
  - destruct Htk as (?&Hsz&Hsl&Hus). split; [done|]. right.
    split_and!; [lia|lia|done|done| | |].
    + intros j Hj. by rewrite Hus, used_grown.
    + intros j. rewrite <-(slot_at_grown t) by done. by apply slot_at_ext.
    + by rewrite bool_decide_eq_true_2.
Qed.

(** searching a bitmap.  [find_next_bit_helper] returns the first position at or
    after [start] whose bit is set (clear, with [invert]), or [size] when there is
    none. *)
Theorem find_next_bit_correct p size start invert :
  0 < size ≤ 64 * Z.of_nat (length p) → size < 2 ^ 31 → 0 ≤ start ≤ size →
  ∃ r, find_next_bit_helper p size start invert = Ret r ∧ start ≤ r ≤ size ∧
    (∀ j, start ≤ j < r → bit p j = invert) ∧ (r < size → bit p r = negb invert).
Proof. intros. by apply find_next_bit_helper_spec. Qed.

(** ** Failure paths that leave the table *)

(** An id that is an error code is far outside every bitmap. *)
Lemma error_id_out_of_range t id :
  table_ok t → - 2 ^ 31 ≤ id < 0 → rd_word (slots_bmp t) (wrap_u32 id / BITS_PER_LONG) = Halt BadAccess.
Proof.
  intros Ht Hid. destruct (to_size t Ht) as (n&_&Hsz&_&Hbm&_). pose proof (to_s31 t Ht).
  unfold wrap_u32, BITS_PER_LONG.
  assert (id mod 2 ^ 32 = id + 2 ^ 32) as ->
    by (rewrite <-(Z.mod_add id 1) by lia; apply Z.mod_small; lia).
  assert (n ≤ (id + 2 ^ 32) / 64) by (apply Z.div_le_lower_bound; lia).
  unfold rd_word. rewrite bool_decide_eq_false_2 by lia.
  rewrite lookup_ge_None_2; [done|]. lia.
Qed.

Lemma alloc_slot_id_oom t m :
  table_ok t → slots_size t + 64 < 2 ^ 31 → oom m → (∀ j, 0 ≤ j < slots_size t → used t j = true) →
  wp alloc_slot_id (λ r '(t', _), r = - ENOMEM ∧ t' = t) (t, m).
Proof.
  intros Ht Hroom Hoom Hall. eapply wp_mono; [by apply wp_alloc_slot_id|].
  intros r [t' m'] [(->&->&_)|(Hr&Hu&_&[[Htk _]|(_&_&_&?)])]; [done| |done].
  destruct Htk as (_&Hsz&_). rewrite Hall in Hu by lia. done.
Qed.

(** the out-of-memory path of [cap_copy].  When the destination table is full and
    cannot be enlarged, [alloc_slot_id] returns -ENOMEM; [cap_copy] tests for -1
    only, takes the error code for a slot id and accesses memory far outside the
    bitmap of the table. *)
Theorem cap_copy_oom_fault refs s src dest ts td src_id o :
  wf refs s → groups s !! src = Some ts → groups s !! dest = Some td →
  slots_size td + 64 < 2 ^ 31 → (∀ o ob, objects s !! o = Some ob → refcount ob + 1 < 2 ^ 64) →
  cap_of s src src_id = Some o →
  oom (kmem s) → (∀ j, 0 ≤ j < slots_size td → is_Some (cap_of s dest j)) →
  cap_copy src dest src_id s = Halt BadAccess.
Proof.
  intros [V HI] Hsrc Hdest Hroom Hb Hcap Hoom Hall.
  assert (∀ c, cap_copy_locked src dest src_id (set_contention c s) = Halt BadAccess) as Hmain.
  2: { unfold cap_copy. apply halt_bind. case_bool_decide.
       - wp_seq. specialize (Hmain (contention s)). by destruct s.
       - wp_seq. apply wp_lock_both; [lia|done]. }
  intros c. apply (kinv_contention _ _ _ _ c) in HI. set (s0 := set_contention c s) in *.
  assert (groups s0 !! src = Some ts) as Hs0 by done. assert (groups s0 !! dest = Some td) as Hd0 by done.
  apply (cap_of_Some _ _ _ s0 _ _ _ HI) in Hcap as (t'&sl&Hg'&Hsl&_&_&_&Hnz).
  rewrite Hs0 in Hg'. injection Hg' as <-.
  destruct (ki_slot _ _ _ _ HI _ _ Hsl) as (Hpos&Hval&_).
  pose proof (ki_table _ _ _ _ HI _ _ Hd0) as Hsync.
  assert (∀ t p, table_ok t → install_slot (- ENOMEM) p t = Halt BadAccess ∧
    free_slot_id (- ENOMEM) t = Halt BadAccess) as Hbad.
  { intros t p Ht. unfold install_slot, free_slot_id, get_bit, clear_bit.
    by rewrite (error_id_out_of_range t) by (done || unfold ENOMEM; lia). }
  unfold cap_copy_locked. apply halt_bind.
  eapply wp_table_read; [exact Hs0|by eapply kinv_get_slot|]. apply halt_bind.
  rewrite bool_decide_eq_false_2 by done. wp_seq. eapply wp_read_slot; [done|]. wp_seq.
  rewrite Hval. apply halt_bind.
  eapply wp_on_table; [exact Hd0|]. eapply wp_mono.
  { apply alloc_slot_id_oom; [apply Hsync|done|exact Hoom|].
    intros j Hj. eapply used_cap_of; [exact HI|done|lia|by apply Hall]. }
  intros r [t' k'] [-> ->]. rewrite insert_id by done.
  rewrite (bool_decide_eq_false_2 (- ENOMEM = -1)) by done. apply halt_bind.
  eapply wp_kmalloc_slot.
  { intros _. rewrite bool_decide_eq_true_2 by done.
    unfold mbind, M_bind, table_op. simpl. rewrite Hdest. by rewrite (proj2 (Hbad td 0 (ts_ok _ _ _ Hsync))). }
  intros p Hp Hfresh. simpl in Hfresh. rewrite (bool_decide_eq_false_2 (p = 0)) by lia. apply halt_bind.
  eapply wp_table_read; [exact Hs0|by eapply (kinv_get_slot _ _ _ _ HI)|]. apply halt_bind.
  assert (slot_at ts src_id ≠ p) as Hne by (intros Heq; simpl in Hsl; congruence).
  rewrite (bool_decide_eq_false_2 (slot_at ts src_id = 0)) by done. wp_seq.
  eapply wp_read_slot; [simpl; rewrite lookup_insert_ne by done; exact Hsl|]. wp_seq. rewrite Hval.
  apply halt_bind. eapply wp_read_slot; [simpl; rewrite lookup_insert_ne by done; exact Hsl|].
  destruct (kinv_slot_split _ _ _ _ HI _ _ Hsl) as (xs&ys&ob&Hob&HV&_&_&_&Hrc&?&?).
  apply halt_bind. eapply wp_refcount_add; [exact Hob|].
  apply halt_bind. eapply wp_read_slot; [simpl; apply lookup_insert_eq|].
  apply halt_bind. eapply wp_write_slot; [simpl; apply lookup_insert_eq|].
  assert (¬ on_list V (CSlot p)) as Hoff
    by (intros [??]%(kinv_on_list _ _ _ _ HI); simpl in *; congruence).
  assert (Rep (<[CSlot p := ListNode CNull CNull]> (copies s)) V) as HR.
  { eapply rep_frame; [apply HI|]. intros x Hx. apply lookup_insert_ne. by intros <-. }
  destruct (list_add_after_rep _ _ _ _ _ _ (CSlot p) HR HV) as (h'&Hadd&_);
    [rewrite lookup_insert_eq; eauto|done|].
  apply halt_bind. eapply wp_copies_op; [exact Hadd|].
  unfold mbind, M_bind, table_op. simpl. rewrite Hdest. by rewrite (proj1 (Hbad td p (ts_ok _ _ _ Hsync))).
Qed.

(** ** Concrete states *)

Definition final {A} (r : outcome (A * kstate)) (s : kstate) : kstate :=
  match r with Ret (_, s') => s' | Halt _ => s end.

(** The machine after booting, with memory for 22 more allocations. *)
Definition k_boot : kstate :=
  final (create_root_cap_group 0 0 (no_groups (replicate 40 true))) (no_groups []).

Lemma k_boot_wf : wf (λ _, 0) k_boot.
Proof.
  assert (plenty 18 (replicate 40 true)) as Hm
    by (intros i Hi; apply lookup_replicate; split; [done|lia]).
  destruct (wp_inv _ _ _ (wp_create_root_cap_group _ 0 0 Hm)) as (g&s&Hrun&Hwf&_).
  unfold k_boot. rewrite Hrun. exact Hwf.
Qed.

Definition table1 (s : kstate) : slot_table := default (empty_table 1) (groups s !! 1).

(** What a copy within group 1 needs, as a test. *)
Definition can_copy (s : kstate) : bool :=
  bool_decide (is_Some (groups s !! 1) ∧ slots_size (table1 s) = 64 ∧
    map_Forall (λ _ ob, refcount ob < 1000) (objects s) ∧
    Exists (λ j, cap_of s 1 j = None) (seqZ 0 64)).

Fixpoint copy_n (n : nat) (s : kstate) : kstate :=
  match n with O => s | S n' => copy_n n' (final (cap_copy 1 1 1 s) s) end.
Fixpoint can_copy_n (n : nat) (s : kstate) : bool :=
  match n with O => true | S n' => can_copy s && can_copy_n n' (final (cap_copy 1 1 1 s) s) end.

Lemma can_copy_facts s :
  can_copy s = true →
  groups s !! 1 = Some (table1 s) ∧ slots_size (table1 s) + 64 < 2 ^ 31 ∧
  (∀ o ob, objects s !! o = Some ob → refcount ob + 1 < 2 ^ 64) ∧
  (∃ j, 0 ≤ j < slots_size (table1 s) ∧ cap_of s 1 j = None).
Proof.
  intros ([t Ht]&Hsz&Hrc&He)%bool_decide_eq_true. unfold table1 in *. rewrite Ht in *. simpl in *.
  split_and!; [done|lia| |].
  - intros o ob Ho. specialize (Hrc o ob Ho). simpl in Hrc. lia.
  - apply Exists_exists in He as (j&Hj%elem_of_seqZ&?). exists j. split; [lia|done].
Qed.

Lemma copy_n_wf refs n s : can_copy_n n s = true → wf refs s → wf refs (copy_n n s).
Proof.
  revert s. induction n as [|n IH]; intros s; simpl; [done|].
  intros [Hc Hn]%andb_true_iff [V HI]. apply IH; [done|].
  destruct (can_copy_facts s Hc) as (?&?&?&?).
  assert (wp (cap_copy 1 1 1) (λ r s', (∃ V', kinv ∅ refs V' s') ∧ copied s 1 1 1 r s') s) as Hwp
    by (by eapply wp_cap_copy).
  apply wp_inv in Hwp as (r&s'&Hrun&HI'&_). by rewrite Hrun.
Qed.

(** Every capability number of the group in use, and no memory left. *)
Definition k_full : kstate := set_kmem [] (copy_n 62 (set_kmem (replicate 62 true) k_boot)).

Lemma k_full_wf : wf (λ _, 0) k_full.
Proof.
  assert (wf (λ _, 0) (copy_n 62 (set_kmem (replicate 62 true) k_boot))) as [V HI].
  { apply copy_n_wf; [by vm_compute|]. destruct k_boot_wf as [V HI]. exists V. by apply kinv_mem. }
  exists V. by apply kinv_mem.
Qed.

(** restoring a capability.  [cap_insert] looks for the word of the new id in
    [full_slots_bmp] instead of [slots_bmp]; [full_slots_bmp] has one word for 4096
    ids, so for every id whose word index is not below its length, such as any id
    above 63 of a table of at most 4096, the access is out of bounds. *)
Theorem cap_insert_out_of_bounds s g t o rg id :
  table_ok t → groups s !! g = Some t → 0 ≤ id < slots_size t →
  Z.of_nat (length (full_slots_bmp t)) ≤ id / 64 →
  cap_insert g o rg id s = Halt BadAccess.
Proof.
  intros Ht Hg Hid Hlen. destruct (to_size t Ht) as (n&_&Hsz&_&Hbm&_). pose proof (to_s31 t Ht).
  unfold cap_insert. apply halt_bind. eapply wp_table_read; [done|done|].
  apply halt_bind. apply wp_bug_on; [by rewrite !bool_decide_eq_false_2 by lia|].
  destruct (set_bit_spec (slots_bmp t) id) as (bmp&Hset&_); [lia..|].
  apply halt_bind. eapply wp_table_op; [done|cbv beta; rewrite Hset; done|].
  unfold mbind, M_bind, table_read. simpl. rewrite lookup_insert_eq. simpl.
  unfold rd_word, lift, BITS_PER_LONG. rewrite bool_decide_eq_false_2 by lia.
  by rewrite lookup_ge_None_2 by lia.
Qed.

(** A new object on the booted machine, address 3. *)
Definition k_obj : kstate := final (obj_alloc 3 0 k_boot) k_boot.

Lemma k_obj_wf : wf (λ _, 0) k_obj.
Proof.
  destruct k_boot_wf as [V HI].
  destruct (wp_inv _ _ _ (wp_obj_alloc (λ _, 0) V k_boot 3 0 HI (λ _ _, eq_refl)))
    as (o&s&Hrun&Hwf&_).
  unfold k_obj. rewrite Hrun. exact Hwf.
Qed.

Ltac concrete := first [by vm_compute|done].

Lemma cap_alloc_correct_witness :
  wf (λ _, 0) k_obj ∧
  wp (cap_alloc 1 3 0) (λ r s', r = 2 ∧ wf (λ _, 0) s' ∧ cap_of s' 1 2 = Some 3) k_obj.
Proof.
  split; [exact k_obj_wf|].
  pose proof (cap_alloc_correct (λ _, 0) k_obj 1 (table1 k_obj) 3
    (Object 3 0 0 false DSM_STATUS_INVALID 0) 0 k_obj_wf
    ltac:(concrete) ltac:(concrete) ltac:(concrete) eq_refl) as Hwp.
  apply wp_inv in Hwp as (r&s'&Hrun&Hwf&Hpost).
  assert (cap_alloc 1 3 0 k_obj = Ret (2, final (cap_alloc 1 3 0 k_obj) k_obj)) as Hrun2 by concrete.
  rewrite Hrun in Hrun2. injection Hrun2 as ->.
  eapply wp_intro; [exact Hrun|]. split_and!; [done|done|].
  destruct Hpost as [[Hx _]|(_&_&_&Hc&_)]; [discriminate Hx|]. by rewrite Hc, bool_decide_eq_true_2.
Defined.

Lemma cap_copy_correct_witness :
  wf (λ _, 0) k_boot ∧
  wp (cap_copy 1 1 1) (λ r s', wf (λ _, 0) s' ∧ r ≠ - ECAPBILITY) k_boot.
Proof.
  split; [exact k_boot_wf|].
  destruct (can_copy_facts k_boot ltac:(concrete)) as (Hg&Hsz&Hrc&He).
  pose proof (cap_copy_correct (λ _, 0) k_boot 1 1 (table1 k_boot) (table1 k_boot) 1
    k_boot_wf Hg Hg Hsz Hrc (λ _, He)) as Hwp.
  eapply wp_mono; [exact Hwp|]. intros r s' [Hwf Hpost]. split; [done|].
  assert (cap_of k_boot 1 1 = Some 2) as Hc by concrete. rewrite Hc in Hpost.
  destruct Hpost as [(->&_)|((?&_)&_)]; [done|]. unfold ECAPBILITY. lia.
Defined.





Lemma cap_move_correct_witness :
  cap_of k_boot 1 1 = Some 2 ∧
  wp (cap_move 1 1 1) (λ r s', wf (λ _, 0) s' ∧ objects s' = objects k_boot) k_boot.
Proof.
  split; [concrete|].
  destruct (can_copy_facts k_boot ltac:(concrete)) as (Hg&Hsz&Hrc&He).
  pose proof (cap_move_correct (λ _, 0) k_boot 1 1 (table1 k_boot) (table1 k_boot) 1
    k_boot_wf Hg Hg Hsz Hrc (λ _, He)) as Hwp.
  eapply wp_mono; [exact Hwp|]. intros r s' (Hwf&Ho&_). exact (conj Hwf Ho).
Defined.

(** Five capabilities for one object, with two try-locks that fail. *)
Definition k_shared : kstate := set_contention [false; true; true] (set_det (set_deferred_pmos {[2 := []]} no_details) (copy_n 4 k_boot)).

Lemma k_shared_wf : wf (λ _, 0) k_shared.
Proof.
  assert (wf (λ _, 0) (copy_n 4 k_boot)) as [V HI] by (apply copy_n_wf; [concrete|apply k_boot_wf]).
  exists V. by eapply kinv_ext; [..|exact HI].
Qed.

Lemma k_shared_vmspace : deinit_ok (λ _, 0) k_shared 2 (Object TYPE_VMSPACE 0 5 false DSM_STATUS_INUSE 0).
Proof. split_and!; [done|done|]. intros _. exists []. split; [done|]. by intros p ?%not_elem_of_nil. Qed.

Lemma cap_free_all_correct_witness :
  (∀ i, 1 ≤ i ≤ 5 → cap_of k_shared 1 i = Some 2) ∧
  wp (cap_free_all 1 3) (λ r s', r = 0 ∧ (∀ i, 1 ≤ i ≤ 5 → cap_of s' 1 i = None) ∧
    cap_of s' 1 0 = Some 1 ∧ objects s' !! 2 = None) k_shared.
Proof.
  assert (∀ i, 1 ≤ i ≤ 5 → cap_of k_shared 1 i = Some 2) as Hcaps.
  { intros i Hi. assert (Forall (λ i, cap_of k_shared 1 i = Some 2) (seqZ 1 5)) as Hall.
    { apply (bool_decide_unpack _). concrete. }
    rewrite Forall_forall in Hall. apply Hall, elem_of_seqZ. lia. }
  split; [done|].
  pose proof (cap_free_all_correct (λ _, 0) k_shared 1 3 2
    (Object TYPE_VMSPACE 0 5 false DSM_STATUS_INUSE 0) k_shared_wf
    ltac:(concrete) ltac:(concrete) eq_refl ltac:(concrete)
    ltac:(intros _ _; split; [exact k_shared_vmspace|intros Hx; discriminate Hx])) as Hwp.
  cbv zeta in Hwp. eapply wp_mono; [exact Hwp|]. clear Hwp. intros r s' (->&_&Hc&Ho). split; [done|]. split; [|split].
  - intros i Hi. rewrite Hc, bool_decide_eq_true_2; [done|]. by apply Hcaps.
  - assert (cap_of k_shared 1 0 = Some 1) as H0 by concrete. rewrite Hc.
    destruct (bool_decide (cap_of k_shared 1 0 = Some 2)) eqn:Hx; [|exact H0].
    apply bool_decide_eq_true in Hx. rewrite H0 in Hx. discriminate Hx.
  - rewrite Ho. apply lookup_delete_eq.
Defined.

Lemma obj_get_put_roundtrip_witness :
  cap_of k_boot 1 1 = Some 2 ∧
  wp (x ← obj_get 1 1 TYPE_VMSPACE; obj_put x;; mret x)
    (λ x s', x = 2 ∧ objects s' = objects k_boot) k_boot.
Proof.
  split; [concrete|].
  pose proof (obj_get_put_roundtrip (λ _, 0) k_boot 1 1 2
    (Object TYPE_VMSPACE 0 1 false DSM_STATUS_INUSE 0) k_boot_wf
    ltac:(concrete) ltac:(concrete) eq_refl ltac:(concrete)) as Hwp.
  eapply wp_mono; [exact Hwp|]. intros x s' (->&_&_&Ho). exact (conj eq_refl Ho).
Defined.

Lemma create_root_cap_group_correct_witness :
  plenty 18 (replicate 18 true) ∧
  wp (create_root_cap_group 200 300) (λ g s', wf (λ _, 0) s' ∧ cap_of s' g 0 = Some g)
    (no_groups (replicate 18 true)).
Proof.
  assert (plenty 18 (replicate 18 true)) as Hm
    by (intros i Hi; apply lookup_replicate; split; [done|lia]).
  split; [done|].
  eapply wp_mono; [exact (create_root_cap_group_correct (replicate 18 true) 200 300 Hm)|].
  intros g s' (Hwf&vm&_&H0&_). exact (conj Hwf H0).
Defined.

Lemma empty_table_ok n : 1 ≤ n → 64 * n < 2 ^ 31 → table_ok (empty_table n).
Proof. intros ??. by apply (table_sync_empty 0). Qed.

Lemma alloc_slot_id_correct_witness :
  table_ok (empty_table 1) ∧
  wp alloc_slot_id (λ r '(t', _), table_ok t' ∧ r = 0) (empty_table 1, []).
Proof.
  split; [by apply empty_table_ok|].
  eapply wp_mono; [exact (alloc_slot_id_correct (empty_table 1) []
    (empty_table_ok 1 ltac:(lia) ltac:(lia)) ltac:(concrete))|].
  intros r [t' m'] [Ht [(_&_&_&Hall)|(Hr&Hu&Hb&_)]]; (split; [done|]).
  - specialize (Hall 0 ltac:(done)). vm_compute in Hall. discriminate Hall.
  - destruct (decide (r = 0)) as [|Hne]; [done|]. specialize (Hb 0 ltac:(lia)).
    vm_compute in Hb. discriminate Hb.
Defined.

Lemma find_next_bit_correct_witness :
  find_next_bit_helper [2 ^ 64 - 1; 11] 128 3 true = Ret 66.
Proof.
  destruct (find_next_bit_correct [2 ^ 64 - 1; 11] 128 3 true) as (r&Hr&_);
    [simpl; lia|lia|lia|]. rewrite Hr. vm_compute in Hr. by injection Hr as <-.
Defined.

Lemma cap_copy_oom_fault_witness : cap_copy 1 1 1 k_full = Halt BadAccess.
Proof.
  apply (cap_copy_oom_fault (λ _, 0) k_full 1 1 (table1 k_full) (table1 k_full) 1 2 k_full_wf);
    [concrete|concrete|concrete| |concrete| |].
  - intros o ob Ho. assert (map_Forall (λ _ ob, refcount ob < 1000) (objects k_full)) as Hall
      by (apply (bool_decide_unpack _); concrete).
    specialize (Hall o ob Ho). simpl in Hall. lia.
  - exists 0%nat. split; [lia|concrete].
  - intros j Hj. assert (slots_size (table1 k_full) = 64) as Hsz by concrete. rewrite Hsz in Hj.
    assert (Forall (λ j, is_Some (cap_of k_full 1 j)) (seqZ 0 64)) as Hall
      by (apply (bool_decide_unpack _); concrete).
    rewrite Forall_forall in Hall. apply Hall, elem_of_seqZ. lia.
Defined.

Lemma cap_insert_out_of_bounds_witness :
  cap_insert 1 2 0 64 (set_groups {[1 := empty_table 2]} k_boot) = Halt BadAccess.
Proof.
  apply (cap_insert_out_of_bounds _ 1 (empty_table 2));
    [by apply empty_table_ok|exact (lookup_singleton_eq 1 (empty_table 2))|concrete|by vm_compute].
Defined.
