(* ===== verification/RingBuffer.v ===== *)
(** The message ring between the kernel and user-level services
    ([kernel/lib/ring_buffer.c], [kernel/include/lib/ring_buffer.h], and its
    user-level twin [user/musl-1.1.24/src/chcore/ring_buffer.c]).

    The buffer is the header followed by the slots; [rb_mem] holds its bytes,
    indexed by offset.  The first part shows that the operations implement a
    bounded FIFO queue and that a checkpoint restores it.  The second part runs
    one producer and one consumer concurrently, as the kernel and a service do,
    with the accesses to the shared offsets as separate steps. *)
From S2P Require Import Prelude Words.

(** ** Data *)

Record ring_buffer := RB {
  buffer_size : Z; consumer_offset : Z; producer_offset : Z; msg_size : Z;
  rb_mem : list Z
}.

(** [sizeof(struct ring_buffer)] *)
Definition sizeof_rb : Z := 32.

Record ckpt_ring_buf := CkptRB {
  ck_buffer_size : Z; ck_consumer_offset : Z; ck_producer_offset : Z; ck_msg_size : Z;
  ring_buffer_va : Z; ck_data : list Z
}.

Definition set_consumer (o : Z) (r : ring_buffer) : ring_buffer :=
  RB (buffer_size r) o (producer_offset r) (msg_size r) (rb_mem r).
Definition set_producer (o : Z) (r : ring_buffer) : ring_buffer :=
  RB (buffer_size r) (consumer_offset r) o (msg_size r) (rb_mem r).
Definition set_mem (m : list Z) (r : ring_buffer) : ring_buffer :=
  RB (buffer_size r) (consumer_offset r) (producer_offset r) (msg_size r) m.

(** [n] bytes at offset [off] *)
Definition read_bytes (m : list Z) (off n : Z) : outcome (list Z) :=
  if bool_decide (0 ≤ off ∧ 0 ≤ n ∧ off + n ≤ Z.of_nat (length m))
  then Ret (take (Z.to_nat n) (drop (Z.to_nat off) m)) else Halt BadAccess.
Definition write_bytes (m : list Z) (off : Z) (bs : list Z) : outcome (list Z) :=
  if bool_decide (0 ≤ off ∧ off + Z.of_nat (length bs) ≤ Z.of_nat (length m))
  then Ret (take (Z.to_nat off) m ++ bs ++ drop (Z.to_nat off + length bs) m) else Halt BadAccess.

(** ** Operations *)

Definition next_slot (r : ring_buffer) (off : Z) : Z :=
  if bool_decide (off = wrap_u64 (buffer_size r - msg_size r)) then sizeof_rb
  else wrap_u64 (off + msg_size r).

(** [None] is [MSG_OP_FAILURE]. *)
Definition get_one_msg : M ring_buffer (option (list Z)) :=
  r ← get_state;
  let p_off := producer_offset r in
  let c_off := consumer_offset r in
  if bool_decide (p_off = c_off) then mret None
  else
    msg ← (λ s, match read_bytes (rb_mem r) c_off (msg_size r) with
                | Ret b => Ret (b, s) | Halt w => Halt w end);
    modify (set_consumer (next_slot r c_off));;
    mret (Some msg).

Definition if_buffer_full (r : ring_buffer) : bool :=
  bool_decide (consumer_offset r = next_slot r (producer_offset r)).

(** [msg] has [msg_size] bytes; the result says whether it was stored. *)
Definition set_one_msg (msg : list Z) : M ring_buffer bool :=
  r ← get_state;
  if if_buffer_full r then mret false
  else
    let p_off := producer_offset r in
    (λ s, match write_bytes (rb_mem r) p_off msg with
          | Ret m => Ret (tt, set_mem m s) | Halt w => Halt w end);;
    modify (set_producer (next_slot r p_off));;
    mret true.

(** [bufs] are the buffers by their virtual address, [alloc_ok] the answer of
    [kmalloc], which is not tested. *)
Definition ckpt_ring_buffer (alloc_ok : bool) (bufs : gmap Z ring_buffer) (va : Z) : outcome ckpt_ring_buf :=
  match bufs !! va with
  | Some r =>
      if alloc_ok then
        data ← read_bytes (rb_mem r) sizeof_rb (buffer_size r - sizeof_rb);
        Ret (CkptRB (buffer_size r) (consumer_offset r) (producer_offset r) (msg_size r) va data)
      else Halt BadAccess
  | None => Halt BadAccess
  end.

(** The saved fields and bytes go back to the address the buffer had. *)
Definition restore_ring_buffer (ck : ckpt_ring_buf) (bufs : gmap Z ring_buffer) : outcome (gmap Z ring_buffer) :=
  match bufs !! ring_buffer_va ck with
  | Some old =>
      data ← read_bytes (ck_data ck) 0 (ck_buffer_size ck - sizeof_rb);
      m ← write_bytes (rb_mem old) sizeof_rb data;
      Ret (<[ring_buffer_va ck := RB (ck_buffer_size ck) (ck_consumer_offset ck)
                                     (ck_producer_offset ck) (ck_msg_size ck) m]> bufs)
  | None => Halt BadAccess
  end.

(** The user-level constructor, with the mapping it asks for: [page_num] is a
    number of bytes, and is multiplied by the page size once more. *)
Definition new_ringbuffer_bytes (msg_num msg_size : Z) : Z :=
  let buffer_size := msg_num * msg_size + sizeof_rb in
  let page_num := to_s32 (ROUND_UP buffer_size 0x1000) in
  to_s32 (page_num * 0x1000).
Definition new_ringbuffer (msg_num msg_size : Z) : ring_buffer :=
  let buffer_size := msg_num * msg_size + sizeof_rb in
  RB buffer_size sizeof_rb sizeof_rb msg_size (replicate (Z.to_nat buffer_size) 0).

(** ** The queue a buffer holds *)

Record rb_ok (n p c : Z) (r : ring_buffer) : Prop := {
  ok_n : 2 ≤ n;
  ok_ms : 0 < msg_size r;
  ok_size : buffer_size r = sizeof_rb + n * msg_size r;
  ok_bound : buffer_size r < 2 ^ 63;
  ok_mem : Z.of_nat (length (rb_mem r)) = buffer_size r;
  ok_p : 0 ≤ p < n ∧ producer_offset r = sizeof_rb + p * msg_size r;
  ok_c : 0 ≤ c < n ∧ consumer_offset r = sizeof_rb + c * msg_size r
}.

(** The bytes of slot [i]. *)
Definition slot (r : ring_buffer) (i : Z) : list Z :=
  take (Z.to_nat (msg_size r)) (drop (Z.to_nat (sizeof_rb + i * msg_size r)) (rb_mem r)).

(** The positions in use, oldest first. *)
Definition positions (n p c : Z) : list Z := (λ k, (c + k) mod n) <$> seqZ 0 ((p - c) mod n).

Definition queue (n p c : Z) (r : ring_buffer) : list (list Z) := slot r <$> positions n p c.

(** ** One producer and one consumer, concurrently

    [set_one_msg] and [get_one_msg] split where they touch shared memory: the
    test of the offsets, the copy, and the store of the new offset. *)

Inductive producer_pc : Type :=
  | PIdle
  | PChecked (msg : list Z)          (* if_buffer_full said no *)
  | PCopied (p_off : Z) (msg : list Z). (* memcpy done, producer_offset not stored yet *)
Inductive consumer_pc : Type :=
  | CIdle
  | CChecked (c_off : Z)
  | CCopied (c_off : Z) (msg : list Z).

Record system := Sys {
  sys_rb : ring_buffer; ppc : producer_pc; cpc : consumer_pc;
  sent : list (list Z); received : list (list Z)
}.

Inductive action : Type :=
  | PStart (msg : list Z) | PCopy | PPublish | CStart | CCopy | CPublish.

Definition step (a : action) (s : system) : outcome system :=
  let r := sys_rb s in
  match a, ppc s, cpc s with
  | PStart msg, PIdle, _ =>
      Ret (if if_buffer_full r then s else Sys r (PChecked msg) (cpc s) (sent s) (received s))
  | PCopy, PChecked msg, _ =>
      let p_off := producer_offset r in
      m ← write_bytes (rb_mem r) p_off msg;
      Ret (Sys (set_mem m r) (PCopied p_off msg) (cpc s) (sent s) (received s))
  | PPublish, PCopied p_off msg, _ =>
      Ret (Sys (set_producer (next_slot r p_off) r) PIdle (cpc s) (sent s ++ [msg]) (received s))
  | CStart, _, CIdle =>
      Ret (if bool_decide (producer_offset r = consumer_offset r) then s
           else Sys r (ppc s) (CChecked (consumer_offset r)) (sent s) (received s))
  | CCopy, _, CChecked c_off =>
      msg ← read_bytes (rb_mem r) c_off (msg_size r);
      Ret (Sys r (ppc s) (CCopied c_off msg) (sent s) (received s))
  | CPublish, _, CCopied c_off msg =>
      Ret (Sys (set_consumer (next_slot r c_off) r) (ppc s) CIdle (sent s) (received s ++ [msg]))
  | _, _, _ => Ret s
  end.

Fixpoint run (acts : list action) (s : system) : outcome system :=
  match acts with [] => Ret s | a :: acts' => s' ← step a s; run acts' s' end.

Record sys_inv (n ms p c : Z) (s : system) : Prop := {
  si_ok : rb_ok n p c (sys_rb s);
  si_ms : msg_size (sys_rb s) = ms;
  si_fifo : sent s = received s ++ queue n p c (sys_rb s);
  si_p : match ppc s with
    | PIdle => True
    | PChecked msg => Z.of_nat (length msg) = ms ∧ (p + 1) mod n ≠ c
    | PCopied p_off msg => (p + 1) mod n ≠ c ∧ p_off = sizeof_rb + p * ms ∧ slot (sys_rb s) p = msg
    end;
  si_c : match cpc s with
    | CIdle => True
    | CChecked c_off => p ≠ c ∧ c_off = sizeof_rb + c * ms
    | CCopied c_off msg => p ≠ c ∧ c_off = sizeof_rb + c * ms ∧ slot (sys_rb s) c = msg
    end
}.

Definition sized (ms : Z) (a : action) : Prop :=
  match a with PStart msg => Z.of_nat (length msg) = ms | _ => True end.

(** ** Slots *)

Lemma next_slot_pos n p c r i :
  rb_ok n p c r → 0 ≤ i < n →
  next_slot r (sizeof_rb + i * msg_size r) = sizeof_rb + (i + 1) mod n * msg_size r.
Proof.
  intros [Hn Hms Hsz Hb _ _ _] Hi. unfold next_slot.
  assert (0 ≤ (i + 1) * msg_size r ≤ n * msg_size r) by nia.
  assert (0 ≤ (n - 1) * msg_size r) by nia. unfold sizeof_rb in *.
  rewrite !wrap_u64_small by lia. case_bool_decide as He.
  - assert (i = n - 1) as -> by nia. replace (n - 1 + 1) with n by lia. rewrite Z.mod_same by lia. lia.
  - assert (i ≠ n - 1) by (intros ->; apply He; lia). rewrite Z.mod_small by lia. lia.
Qed.

Lemma read_slot_ok n p c r i :
  rb_ok n p c r → 0 ≤ i < n →
  read_bytes (rb_mem r) (sizeof_rb + i * msg_size r) (msg_size r) = Ret (slot r i).
Proof.
  intros [Hn Hms Hsz Hb Hm _ _] Hi. unfold read_bytes, slot. unfold sizeof_rb in *.
  rewrite bool_decide_eq_true_2; [done|]. nia.
Qed.

Lemma write_slot_ok n p c r i msg :
  rb_ok n p c r → 0 ≤ i < n → Z.of_nat (length msg) = msg_size r →
  ∃ m, write_bytes (rb_mem r) (sizeof_rb + i * msg_size r) msg = Ret m ∧
    length m = length (rb_mem r) ∧ slot (set_mem m r) i = msg ∧
    ∀ j, 0 ≤ j < n → j ≠ i → slot (set_mem m r) j = slot r j.
Proof.
  intros [Hn Hms Hsz Hb Hm _ _] Hi Hl. unfold write_bytes, slot, sizeof_rb in *. simpl.
  assert (0 ≤ i * msg_size r ∧ i * msg_size r + msg_size r ≤ n * msg_size r) as [Hi1 Hi2] by nia.
  rewrite bool_decide_eq_true_2 by lia.
  set (off := Z.to_nat (32 + i * msg_size r)).
  assert (off + length msg ≤ length (rb_mem r))%nat as Hoff by lia.
  eexists. split; [done|]. split_and!.
  - rewrite !length_app, length_take, length_drop. lia.
  - rewrite drop_app_length' by (rewrite length_take; lia). apply take_app_length'. lia.
  - intros j Hj Hne. assert (0 ≤ j * msg_size r ∧ j * msg_size r + msg_size r ≤ n * msg_size r) by nia.
    destruct (decide (j < i)).
    + assert (j * msg_size r + msg_size r ≤ i * msg_size r) by nia.
      rewrite drop_app_le by (rewrite length_take; lia).
      rewrite take_app_le by (rewrite length_drop, length_take; lia).
      rewrite skipn_firstn_comm, take_take. f_equal. lia.
    + assert (i * msg_size r + msg_size r ≤ j * msg_size r) by nia.
      rewrite app_assoc, drop_app_ge by (rewrite length_app, length_take; lia).
      rewrite length_app, length_take, drop_drop. do 2 f_equal. lia.
Qed.

(** ** Positions *)

Section positions.
Context (n : Z).
Hypothesis Hn : 2 ≤ n.

Lemma sub_mod_pos p c : 0 ≤ p < n → 0 ≤ c < n → p ≠ c → 0 < (p - c) mod n.
Proof using Hn.
  intros Hp Hc Hne. destruct (decide (c < p)); [rewrite Z.mod_small; lia|].
  rewrite <-(Z.mod_add (p - c) 1) by lia. rewrite Z.mod_small; lia.
Qed.

Lemma positions_nil p c : 0 ≤ p < n → 0 ≤ c < n → positions n p c = [] ↔ p = c.
Proof using Hn.
  intros Hp Hc. unfold positions. split.
  - intros Hnil%fmap_nil_inv. destruct (decide (p = c)) as [|Hne]; [done|]. exfalso.
    pose proof (sub_mod_pos p c Hp Hc Hne).
    rewrite seqZ_cons in Hnil by lia. done.
  - intros ->. rewrite Z.sub_diag, Z.mod_0_l by lia. done.
Qed.

Lemma sub_mod_succ_r p c : 0 ≤ p < n → 0 ≤ c < n → p ≠ c →
  (p - (c + 1) mod n) mod n = (p - c) mod n - 1.
Proof using Hn.
  intros Hp Hc Hne. rewrite Zminus_mod_idemp_r. replace (p - (c + 1)) with (p - c - 1) by lia.
  destruct (decide (c < p)).
  - rewrite !Z.mod_small by lia. lia.
  - rewrite <-(Z.mod_add (p - c - 1) 1), <-(Z.mod_add (p - c) 1) by lia.
    rewrite !Z.mod_small by lia. lia.
Qed.

Lemma sub_mod_succ_l p c : 0 ≤ p < n → 0 ≤ c < n → (p + 1) mod n ≠ c →
  ((p + 1) mod n - c) mod n = (p - c) mod n + 1.
Proof using Hn.
  intros Hp Hc Hne. rewrite Zminus_mod_idemp_l.
  destruct (decide (c ≤ p)).
  - rewrite (Z.mod_small (p - c)) by lia. destruct (decide (p + 1 - c = n)) as [Heq|].
    + exfalso. apply Hne. assert (p = n - 1) as -> by lia. assert (c = 0) as -> by lia.
      replace (n - 1 + 1) with n by lia. by apply Z.mod_same; lia.
    + rewrite Z.mod_small by lia. lia.
  - rewrite <-(Z.mod_add (p + 1 - c) 1), <-(Z.mod_add (p - c) 1) by lia.
    assert (p + 1 ≠ c) by (intros ?; apply Hne; rewrite Z.mod_small; lia).
    rewrite !Z.mod_small by lia. lia.
Qed.

Lemma positions_cons p c : 0 ≤ p < n → 0 ≤ c < n → p ≠ c →
  positions n p c = c :: positions n p ((c + 1) mod n).
Proof using Hn.
  intros Hp Hc Hne. unfold positions. rewrite sub_mod_succ_r by done.
  pose proof (sub_mod_pos p c Hp Hc Hne).
  rewrite seqZ_cons by lia. rewrite fmap_cons, Z.add_0_r, (Z.mod_small c) by lia. f_equal.
  rewrite <-Z.sub_1_r. change (Z.succ 0) with (1 + 0). rewrite <-(fmap_add_seqZ 1 0 ((p - c) mod n - 1)), <-list_fmap_compose.
  apply list_fmap_ext. intros _ k _. simpl. rewrite Zplus_mod_idemp_l. f_equal. lia.
Qed.

Lemma positions_snoc p c : 0 ≤ p < n → 0 ≤ c < n → (p + 1) mod n ≠ c →
  positions n ((p + 1) mod n) c = positions n p c ++ [p].
Proof using Hn.
  intros Hp Hc Hne. unfold positions. rewrite sub_mod_succ_l by done.
  pose proof (Z.mod_pos_bound (p - c) n ltac:(lia)).
  rewrite seqZ_app by lia. rewrite fmap_app. f_equal. simpl. do 2 f_equal.
  replace (Z.of_nat 0 + (0 + (p - c) mod n)) with ((p - c) mod n) by lia.
  rewrite Zplus_mod_idemp_r. replace (c + (p - c)) with p by lia. by apply Z.mod_small.
Qed.

Lemma positions_range p c i : i ∈ positions n p c → 0 ≤ i < n.
Proof using Hn.
  intros (k&->&_)%list_elem_of_fmap. apply Z.mod_pos_bound. lia.
Qed.

Lemma positions_not_p p c : 0 ≤ p < n → 0 ≤ c < n → p ∉ positions n p c.
Proof using Hn.
  intros Hp Hc (k&Hk&Hin)%list_elem_of_fmap. apply elem_of_seqZ in Hin.
  assert ((p - c) mod n = k mod n) as Heq.
  { rewrite Hk at 1. rewrite Zminus_mod_idemp_l. f_equal. lia. }
  pose proof (Z.mod_pos_bound (p - c) n ltac:(lia)).
  rewrite Heq, Z.mod_small in Hin by lia. lia.
Qed.
End positions.

(** ** The operations as queue operations *)

Lemma queue_set_mem n p c r m :
  (∀ j, j ∈ positions n p c → slot (set_mem m r) j = slot r j) →
  queue n p c (set_mem m r) = queue n p c r.
Proof. intros Hs. apply list_fmap_ext. intros i j Hj. apply Hs. by eapply list_elem_of_lookup_2. Qed.

Lemma get_one_msg_spec n p c r :
  rb_ok n p c r →
  wp get_one_msg (λ res r', match queue n p c r with
    | [] => res = None ∧ r' = r
    | m :: q => res = Some m ∧ r' = set_consumer (sizeof_rb + (c + 1) mod n * msg_size r) r ∧
        rb_ok n p ((c + 1) mod n) r' ∧ queue n p ((c + 1) mod n) r' = q
    end) r.
Proof.
  intros Hok. destruct (Hok) as [Hn Hms Hsz Hb Hm [Hp Hpo] [Hc Hco]].
  unfold get_one_msg. wp_seq. rewrite Hpo, Hco. unfold queue.
  case_bool_decide as He.
  - assert (p = c) as -> by nia. rewrite (proj2 (positions_nil n Hn c c Hc Hc) eq_refl). by wp_seq.
  - assert (p ≠ c) as Hne by (intros ->; done). rewrite positions_cons by done. wp_seq.
    unfold wp at 1. rewrite (read_slot_ok n p c) by done. wp_seq.
    rewrite (next_slot_pos n p c) by done. rewrite fmap_cons. split_and!; [done|done| |done].
    pose proof (Z.mod_pos_bound (c + 1) n ltac:(lia)). by split.
Qed.

Lemma set_one_msg_spec n p c r msg :
  rb_ok n p c r → Z.of_nat (length msg) = msg_size r →
  wp (set_one_msg msg) (λ res r',
    if bool_decide (Z.of_nat (length (queue n p c r)) = n - 1) then res = false ∧ r' = r
    else res = true ∧ rb_ok n ((p + 1) mod n) c r' ∧
         queue n ((p + 1) mod n) c r' = queue n p c r ++ [msg]) r.
Proof.
  intros Hok Hl. destruct (Hok) as [Hn Hms Hsz Hb Hm [Hp Hpo] [Hc Hco]].
  pose proof (Z.mod_pos_bound (p + 1) n ltac:(lia)) as Hp1.
  pose proof (Z.mod_pos_bound (p - c) n ltac:(lia)) as Hpc.
  assert (Z.of_nat (length (queue n p c r)) = (p - c) mod n) as Hlen.
  { unfold queue, positions. rewrite !length_fmap, length_seqZ. lia. }
  unfold set_one_msg. wp_seq. unfold if_buffer_full.
  rewrite Hpo, Hco, (next_slot_pos n p c) by done.
  destruct (decide ((p + 1) mod n = c)) as [Hf|Hf].
  - rewrite (bool_decide_eq_true_2 (_ = _)) by (by rewrite Hf). wp_seq.
    rewrite bool_decide_eq_true_2; [done|]. rewrite Hlen, <-Hf, Zminus_mod_idemp_r.
    replace (p - (p + 1)) with (-1) by lia. rewrite <-(Z.mod_add (-1) 1) by lia.
    rewrite Z.mod_small by lia. lia.
  - rewrite (bool_decide_eq_false_2 (_ = sizeof_rb + _)) by nia.
    destruct (write_slot_ok n p c r p msg Hok Hp Hl) as (m&Hw&Hlm&Hsp&Hsj).
    wp_seq. unfold wp at 1. rewrite Hw. wp_seq.
    rewrite bool_decide_eq_false_2.
    2: { rewrite Hlen. pose proof (sub_mod_succ_l n Hn p c Hp Hc Hf).
         pose proof (Z.mod_pos_bound ((p + 1) mod n - c) n ltac:(lia)). lia. }
    split_and!; [done|split; simpl; try done; lia|].
    assert (∀ i, slot (set_producer (sizeof_rb + (p + 1) mod n * msg_size r) (set_mem m r)) i =
      slot (set_mem m r) i) as Hpr by done.
    unfold queue. rewrite positions_snoc, fmap_app by done. f_equal.
    + apply (queue_set_mem n p c). intros j Hj. apply Hsj; [by eapply positions_range|].
      intros ->. by apply (positions_not_p n Hn p c Hp Hc).
    + simpl. by rewrite Hpr, Hsp.
Qed.

(** ** Interleavings *)

Lemma mod_succ_inj n p c : 2 ≤ n → 0 ≤ p < n → 0 ≤ c < n → (p + 1) mod n = (c + 1) mod n → p = c.
Proof.
  intros Hn Hp Hc.
  assert (∀ x, 0 ≤ x < n → (x + 1) mod n = if decide (x = n - 1) then 0 else x + 1) as Hx.
  { intros x Hx. case_decide as Hd; [|rewrite Z.mod_small; lia].
    rewrite Hd, Z.sub_add. apply Z.mod_same. lia. }
  rewrite !Hx by done. repeat case_decide; lia.
Qed.

Lemma step_producer_inv n ms p c a s :
  sys_inv n ms p c s → sized ms a → a ∈ [PCopy; PPublish] ∨ (∃ msg, a = PStart msg) →
  ∃ s' p', step a s = Ret s' ∧ sys_inv n ms p' c s'.
Proof.
  intros HI Ha Hact. destruct (HI) as [Hok Hms Hfifo HP HC].
  destruct (Hok) as [Hn Hms0 Hsz Hb Hm [Hp Hpo] [Hc Hco]].
  destruct s as [r pp cc st rc]. simpl in *. subst ms.
  destruct a as [msg| | | | |], pp as [|pm|po pm]; try (eexists _, p; split; [done|done]);
    try (destruct Hact as [?%list_elem_of_In|(?&?)]; [set_solver|done]).
  - unfold step. simpl. destruct (if_buffer_full r) eqn:Hf; eexists _, p; (split; [done|]); [done|].
    unfold if_buffer_full in Hf. apply bool_decide_eq_false in Hf.
    rewrite Hpo, Hco, (next_slot_pos n p c) in Hf by done.
    split; simpl; try done. split; [done|]. intros He. by rewrite He in Hf.
  - destruct HP as [Hl Hf]. destruct (write_slot_ok n p c r p pm Hok Hp Hl) as (m&Hw&Hlm&Hsp&Hsj).
    unfold step. simpl. rewrite Hpo, Hw. eexists _, p. split; [done|]. split; simpl; try done.
    + split; simpl; try done. lia.
    + rewrite Hfifo. f_equal. symmetry. apply queue_set_mem. intros j Hj.
      apply Hsj; [by eapply positions_range|]. intros ->. by apply (positions_not_p n Hn p c Hp Hc).
    + destruct cc as [| |co cm]; [done|done|]. destruct HC as (?&?&<-). split_and!; try done. by apply Hsj.
  - destruct HP as (Hf&->&Hs). pose proof (Z.mod_pos_bound (p + 1) n ltac:(lia)).
    eexists _, ((p + 1) mod n). split; [done|]. simpl. rewrite (next_slot_pos n p c) by done.
    split; simpl; try done.
    + rewrite Hfifo. unfold queue. rewrite positions_snoc, fmap_app, <-Hs, <-(assoc (++)) by done. done.
    + destruct cc as [| |co cm]; [done| |]; by destruct HC as [_ ?].
Qed.

Lemma step_consumer_inv n ms p c a s :
  sys_inv n ms p c s → a ∈ [CStart; CCopy; CPublish] →
  ∃ s' c', step a s = Ret s' ∧ sys_inv n ms p c' s'.
Proof.
  intros HI Hact. destruct (HI) as [Hok Hms Hfifo HP HC].
  destruct (Hok) as [Hn Hms0 Hsz Hb Hm [Hp Hpo] [Hc Hco]].
  destruct s as [r pp cc st rc]. simpl in *. subst ms.
  destruct a as [msg| | | | |], cc as [|co|co cm]; try (exfalso; set_solver);
    try (eexists (Sys r pp _ st rc), c; split; [by destruct pp|exact HI]).
  - unfold step. simpl. case_bool_decide as He; destruct pp; eexists _, c; (split; [done|]); try done;
      (split; simpl; try done; (split; [intros ->; by rewrite Hpo, Hco in He|done])).
  - destruct HC as [Hne ->]. exists (Sys r pp (CCopied (sizeof_rb + c * msg_size r) (slot r c)) st rc), c.
    split; [|done].
    destruct pp; unfold step; cbn [ppc cpc sys_rb].
    all: by rewrite (read_slot_ok n p c) by done.
  - destruct HC as (Hne&->&Hs). pose proof (Z.mod_pos_bound (c + 1) n ltac:(lia)).
    exists (Sys (set_consumer (next_slot r (sizeof_rb + c * msg_size r)) r) pp CIdle st (rc ++ [cm])), ((c + 1) mod n).
    split; [by destruct pp|]. rewrite (next_slot_pos n p c) by done.
    assert ((p + 1) mod n ≠ (c + 1) mod n) by (by intros ?%mod_succ_inj).
    split; simpl; try done.
    + rewrite Hfifo. unfold queue. rewrite positions_cons, fmap_cons, <-Hs, <-(assoc (++)) by done. done.
    + destruct pp as [|pm|po pm]; [done| |]; naive_solver.
Qed.

Lemma run_inv n ms acts p c s :
  sys_inv n ms p c s → Forall (sized ms) acts →
  ∃ s' p' c', run acts s = Ret s' ∧ sys_inv n ms p' c' s'.
Proof.
  intros HI Hacts. revert p c s HI. induction Hacts as [|a acts Ha _ IH]; intros p c s HI; [by eexists _, _, _|].
  assert (∃ s' p' c', step a s = Ret s' ∧ sys_inv n ms p' c' s') as (s'&p'&c'&Hs&HI').
  { assert ((a ∈ [PCopy; PPublish] ∨ (∃ msg, a = PStart msg)) ∨ a ∈ [CStart; CCopy; CPublish]) as [Hact|Hact]
      by (destruct a; set_solver).
    - destruct (step_producer_inv n ms p c a s HI Ha Hact) as (?&?&?&?). by eexists _, _, _.
    - destruct (step_consumer_inv n ms p c a s HI Hact) as (?&?&?&?). by eexists _, _, _. }
  destruct (IH _ _ _ HI') as (s2&p2&c2&Hr&HI2). exists s2, p2, c2. split; [|done].
  simpl. rewrite Hs. done.
Qed.

Lemma queue_length n p c r : 2 ≤ n → Z.of_nat (length (queue n p c r)) = (p - c) mod n.
Proof.
  intros Hn. unfold queue, positions. rewrite !length_fmap, length_seqZ.
  pose proof (Z.mod_pos_bound (p - c) n ltac:(lia)). lia.
Qed.

Lemma new_ringbuffer_ok msg_num ms :
  2 ≤ msg_num → 0 < ms → sizeof_rb + msg_num * ms < 2 ^ 31 → rb_ok msg_num 0 0 (new_ringbuffer msg_num ms).
Proof.
  intros Hn Hms Hb. unfold new_ringbuffer, sizeof_rb in *.
  assert (0 < msg_num * ms) by nia.
  split; cbn [buffer_size msg_size rb_mem producer_offset consumer_offset];
    rewrite ?length_replicate; unfold sizeof_rb; lia.
Qed.

Lemma queue_empty n p r : 2 ≤ n → 0 ≤ p < n → queue n p p r = [].
Proof. intros Hn Hp. unfold queue. by rewrite (proj2 (positions_nil n Hn p p Hp Hp) eq_refl). Qed.

(** The bytes after the header. *)
Lemma read_tail m :
  32 ≤ Z.of_nat (length m) →
  read_bytes m sizeof_rb (Z.of_nat (length m) - sizeof_rb) = Ret (drop (Z.to_nat sizeof_rb) m) ∧
  Z.of_nat (length (drop (Z.to_nat sizeof_rb) m)) = Z.of_nat (length m) - 32.
Proof.
  intros Hl. unfold read_bytes, sizeof_rb. rewrite bool_decide_eq_true_2 by lia.
  rewrite take_ge; rewrite length_drop; [|lia]. split; [done|lia].
Qed.

Lemma write_tail m data :
  Z.of_nat (length data) = Z.of_nat (length m) - 32 → 32 ≤ Z.of_nat (length m) →
  ∃ m', write_bytes m sizeof_rb data = Ret m' ∧ length m' = length m ∧ drop (Z.to_nat sizeof_rb) m' = data.
Proof.
  intros Hd Hl. unfold write_bytes, sizeof_rb. rewrite bool_decide_eq_true_2 by lia.
  eexists. split; [done|]. rewrite (drop_ge m) by lia. rewrite app_nil_r. split.
  - rewrite length_app, length_take. lia.
  - apply drop_app_length'. rewrite length_take. lia.
Qed.

(** ** Claims *)

(** the ring buffer is a bounded FIFO queue.  On every well-formed buffer of
    [n] slots, [set_one_msg] appends the message when fewer than [n - 1] are
    queued and otherwise fails and changes nothing; [get_one_msg] removes and
    returns the oldest message, or fails and changes nothing when there is none.
    No copy leaves the buffer. *)
Theorem ring_buffer_fifo n p c r msg :
  rb_ok n p c r → Z.of_nat (length msg) = msg_size r →
  wp (set_one_msg msg) (λ res r',
    if bool_decide (Z.of_nat (length (queue n p c r)) = n - 1) then res = false ∧ r' = r
    else res = true ∧ ∃ p', rb_ok n p' c r' ∧ queue n p' c r' = queue n p c r ++ [msg]) r ∧
  wp get_one_msg (λ res r',
    match queue n p c r with
    | [] => res = None ∧ r' = r
    | m :: q => res = Some m ∧ ∃ c', rb_ok n p c' r' ∧ queue n p c' r' = q
    end) r.
Proof.
  intros Hok Hl. split.
  - eapply wp_mono; [by apply (set_one_msg_spec n p c)|]. intros res r'. simpl. case_bool_decide; [done|].
    intros (?&?&?). split; [done|]. by eexists.
  - eapply wp_mono; [by apply (get_one_msg_spec n p c)|]. intros res r'. simpl.
    destruct (queue n p c r); [done|]. intros (?&_&?&?). split; [done|]. by eexists.
Qed.

Lemma ring_buffer_fifo_witness :
  wp (set_one_msg [7; 8]) (λ res r',
    res = true ∧ ∃ p', rb_ok 3 p' 0 r' ∧ queue 3 p' 0 r' = [[7; 8]]) (new_ringbuffer 3 2).
Proof.
  apply (λ H1 H2, proj1 (ring_buffer_fifo 3 0 0 (new_ringbuffer 3 2) [7; 8] H1 H2)); [|done].
  apply new_ringbuffer_ok; vm_compute; try done.
Defined.

(** C23: one producer and one consumer need no lock.  From an empty buffer,
    whatever the interleaving of the test, copy and publish steps of
    [set_one_msg] and [get_one_msg], no step accesses memory outside the buffer,
    the messages received are a prefix of the messages sent, and what is missing
    is exactly what the buffer holds, fewer than [msg_num] messages. *)
Theorem ring_buffer_spsc msg_num ms acts :
  2 ≤ msg_num → 0 < ms → sizeof_rb + msg_num * ms < 2 ^ 31 → Forall (sized ms) acts →
  ∃ s' p c, run acts (Sys (new_ringbuffer msg_num ms) PIdle CIdle [] []) = Ret s' ∧
    rb_ok msg_num p c (sys_rb s') ∧
    sent s' = received s' ++ queue msg_num p c (sys_rb s') ∧
    Z.of_nat (length (queue msg_num p c (sys_rb s'))) < msg_num.
Proof.
  intros Hn Hms Hb Hacts.
  destruct (run_inv msg_num ms acts 0 0 (Sys (new_ringbuffer msg_num ms) PIdle CIdle [] [])) as (s'&p&c&Hr&HI); [|done|].
  - split; simpl; [by apply new_ringbuffer_ok|done| |done|done]. by rewrite queue_empty by lia.
  - destruct HI as [Hok _ Hf _ _]. exists s', p, c. split_and!; [done..|].
    rewrite queue_length by done. apply Z.mod_pos_bound. lia.
Qed.

Lemma ring_buffer_spsc_witness :
  ∃ s' p c, run [PStart [1]; CStart; PCopy; CStart; PPublish; CStart; PStart [2]; CCopy; PCopy; CPublish]
      (Sys (new_ringbuffer 2 1) PIdle CIdle [] []) = Ret s' ∧
    rb_ok 2 p c (sys_rb s') ∧ sent s' = received s' ++ queue 2 p c (sys_rb s') ∧
    Z.of_nat (length (queue 2 p c (sys_rb s'))) < 2.
Proof. apply ring_buffer_spsc; [done..|]. repeat constructor. Defined.

(** a checkpoint of a ring buffer restores it: whatever happened to the
    memory at its address in between, [restore_ring_buffer] brings back the
    offsets and the same queue of messages, and touches no other buffer. *)
Theorem ckpt_restore_roundtrip n p c va r bufs bufs' old :
  rb_ok n p c r → bufs !! va = Some r →
  bufs' !! va = Some old → length (rb_mem old) = length (rb_mem r) →
  ∃ ck bufs'' r', ckpt_ring_buffer true bufs va = Ret ck ∧
    restore_ring_buffer ck bufs' = Ret bufs'' ∧ bufs'' = <[va := r']> bufs' ∧
    rb_ok n p c r' ∧ queue n p c r' = queue n p c r.
Proof.
  intros Hok Hva Hva' Hlen. destruct (Hok) as [Hn Hms Hsz Hb Hm Hp Hc].
  assert (0 < n * msg_size r) by nia. unfold sizeof_rb in Hsz.
  destruct (read_tail (rb_mem r)) as (Hrd&Hld); [lia|]. set (data := drop (Z.to_nat sizeof_rb) (rb_mem r)) in *.
  destruct (write_tail (rb_mem old) data) as (m&Hw&Hlm&Hdrop); [lia..|].
  assert (read_bytes data 0 (buffer_size r - sizeof_rb) = Ret data) as Hrd0.
  { unfold read_bytes. rewrite bool_decide_eq_true_2 by (unfold sizeof_rb; lia).
    rewrite drop_0, take_ge; [done|]. unfold sizeof_rb. lia. }
  exists (CkptRB (buffer_size r) (consumer_offset r) (producer_offset r) (msg_size r) va data).
  exists (<[va := RB (buffer_size r) (consumer_offset r) (producer_offset r) (msg_size r) m]> bufs').
  exists (RB (buffer_size r) (consumer_offset r) (producer_offset r) (msg_size r) m).
  split_and!; [| |done| |].
  - unfold ckpt_ring_buffer. rewrite Hva, <-Hm, Hrd. simpl. by rewrite Hm.
  - unfold restore_ring_buffer. cbn [ring_buffer_va ck_data ck_buffer_size]. rewrite Hva', Hrd0.
    cbn -[write_bytes]. rewrite Hw. done.
  - split; simpl; try done; lia.
  - apply list_fmap_ext. intros i j Hj%list_elem_of_lookup_2%(positions_range n Hn). unfold slot. simpl.
    assert (0 ≤ j * msg_size r) by nia.
    rewrite Z2Nat.inj_add, <-!drop_drop, Hdrop by (unfold sizeof_rb; lia). done.
Qed.

Lemma ckpt_restore_roundtrip_witness :
  ∃ ck bufs'' r', ckpt_ring_buffer true {[4096 := new_ringbuffer 3 2]} 4096 = Ret ck ∧
    restore_ring_buffer ck {[4096 := RB 9 9 9 9 (replicate 38 1)]} = Ret bufs'' ∧
    bufs'' = <[4096 := r']> {[4096 := RB 9 9 9 9 (replicate 38 1)]} ∧
    rb_ok 3 0 0 r' ∧ queue 3 0 0 r' = queue 3 0 0 (new_ringbuffer 3 2).
Proof.
  apply (ckpt_restore_roundtrip 3 0 0 4096 (new_ringbuffer 3 2) _ _ (RB 9 9 9 9 (replicate 38 1)));
    [apply new_ringbuffer_ok; vm_compute; done|apply lookup_singleton_eq|apply lookup_singleton_eq|done].
Defined.

(** the mapping of a user-level ring buffer.  [new_ringbuffer] asks [mmap]
    for [page_num * 0x1000] bytes where [page_num] already is a size in bytes:
    for every buffer of less than 512 KiB it maps 4096 times the rounded size. *)
Theorem new_ringbuffer_overallocates msg_num ms :
  0 ≤ msg_num → 0 ≤ ms → msg_num * ms + sizeof_rb ≤ 0x7f000 →
  new_ringbuffer_bytes msg_num ms = 0x1000 * ROUND_UP (msg_num * ms + sizeof_rb) 0x1000 ∧
  0x1000 * buffer_size (new_ringbuffer msg_num ms) ≤ new_ringbuffer_bytes msg_num ms.
Proof.
  intros Hn Hms Hb. unfold new_ringbuffer_bytes, new_ringbuffer, sizeof_rb in *. simpl buffer_size.
  assert (0 ≤ msg_num * ms) by nia. set (b := msg_num * ms + 32) in *.
  assert (b ≤ ROUND_UP b 0x1000 ≤ 0x7f000) as Hr.
  { change 0x1000 with (2 ^ 12). rewrite ROUND_UP_pow2 by done. change (2 ^ 12) with 0x1000.
    pose proof (Z.div_mod (b + 0x1000 - 1) 0x1000 ltac:(done)).
    pose proof (Z.mod_pos_bound (b + 0x1000 - 1) 0x1000 ltac:(done)). lia. }
  rewrite (to_s32_small (ROUND_UP _ _)) by lia. rewrite to_s32_small by lia. lia.
Qed.

Lemma new_ringbuffer_overallocates_witness :
  new_ringbuffer_bytes 64 32 = 0x1000 * ROUND_UP (64 * 32 + sizeof_rb) 0x1000 ∧
  0x1000 * buffer_size (new_ringbuffer 64 32) ≤ new_ringbuffer_bytes 64 32.
Proof. apply new_ringbuffer_overallocates; vm_compute; done. Defined.
