(* ===== verification/Locks.v ===== *)
(** The spin locks of the kernel ([kernel/arch/x86_64/sync/ticket.c] and
    [rwlock.c]).

    Each lock is a step relation on the lock word and the program counters of
    the threads that use it: a step is one atomic instruction on the shared
    word.  [Ticket] shows mutual exclusion, entry in arrival order and progress,
    across the wrap-around of the 32-bit counters; [RwLock] shows that readers
    and a writer exclude each other. *)
From S2P Require Import Prelude Words.

(** States reachable by steps [next] while [ok] holds. *)
Inductive reach {S A : Type} (next : A → S → S) (ok : S → Prop) (init : S) : S → Prop :=
  | reach_init : reach next ok init init
  | reach_step a s : reach next ok init s → ok s → reach next ok init (next a s).

Module Ticket.

(** ** Data *)

Record lock_impl := Lk { owner : Z; next : Z }.

(** A thread at a lock.  [lockval] and [newval] are the locals of [lock] and
    [try_lock]; [seen] records how many tickets had been taken when [newval] was
    read. *)
Inductive pc : Type :=
  | Idle
  | Waiting (lockval : Z)
  | Trying (newval : Z) (seen : nat)
  | TryCas (newval : Z) (seen : nat)
  | Holding.

(** [arrivals] are the threads in the order they took a ticket, [entries] those
    that entered, [released] the number of [unlock]s. *)
Record state := St {
  lk : lock_impl; pcs : list pc; arrivals : list nat; entries : list nat; released : nat
}.

(** ** Operations *)

Definition lock_init : lock_impl := Lk 0 0.

(** [lock]: the fetch-and-add, then the test of the loop. *)
Definition lock_take (l : lock_impl) : Z * lock_impl := (next l, Lk (owner l) (wrap_u32 (next l + 1))).
Definition lock_ready (lockval : Z) (l : lock_impl) : bool := bool_decide (lockval = owner l).

(** [try_lock]: the read of [next], the test of [owner], the compare-and-swap. *)
Definition try_lock_read (l : lock_impl) : Z := next l.
Definition try_lock_test (newval : Z) (l : lock_impl) : bool := bool_decide (owner l = newval).
Definition try_lock_cas (newval : Z) (l : lock_impl) : bool * lock_impl :=
  if bool_decide (next l = newval) then (true, Lk (owner l) (wrap_u32 (newval + 1))) else (false, l).

Definition unlock (l : lock_impl) : lock_impl := Lk (wrap_u32 (owner l + 1)) (next l).

Definition is_locked (l : lock_impl) : bool := bool_decide (owner l < next l).

(** ** Steps *)

Inductive action : Type :=
  | CallLock (t : nat) | Spin (t : nat)
  | CallTry (t : nat) | TestOwner (t : nat) | Cas (t : nat)
  | CallUnlock (t : nat).

Definition step (a : action) (s : state) : state :=
  match a with
  | CallLock t =>
      match pcs s !! t with
      | Some Idle =>
          let '(v, l) := lock_take (lk s) in
          St l (<[t := Waiting v]> (pcs s)) (arrivals s ++ [t]) (entries s) (released s)
      | _ => s
      end
  | Spin t =>
      match pcs s !! t with
      | Some (Waiting v) =>
          if lock_ready v (lk s)
          then St (lk s) (<[t := Holding]> (pcs s)) (arrivals s) (entries s ++ [t]) (released s)
          else s
      | _ => s
      end
  | CallTry t =>
      match pcs s !! t with
      | Some Idle =>
          St (lk s) (<[t := Trying (try_lock_read (lk s)) (length (arrivals s))]> (pcs s))
             (arrivals s) (entries s) (released s)
      | _ => s
      end
  | TestOwner t =>
      match pcs s !! t with
      | Some (Trying v n) =>
          St (lk s) (<[t := if try_lock_test v (lk s) then TryCas v n else Idle]> (pcs s))
             (arrivals s) (entries s) (released s)
      | _ => s
      end
  | Cas t =>
      match pcs s !! t with
      | Some (TryCas v n) =>
          let '(ok, l) := try_lock_cas v (lk s) in
          if ok then St l (<[t := Holding]> (pcs s)) (arrivals s ++ [t]) (entries s ++ [t]) (released s)
          else St l (<[t := Idle]> (pcs s)) (arrivals s) (entries s) (released s)
      | _ => s
      end
  | CallUnlock t =>
      match pcs s !! t with
      | Some Holding =>
          St (unlock (lk s)) (<[t := Idle]> (pcs s)) (arrivals s) (entries s) (S (released s))
      | _ => s
      end
  end.

Definition init (n : nat) : state := St lock_init (replicate n Idle) [] [] 0.

(** Fewer than 2^32 tickets are taken while a [try_lock] is in progress, and
    fewer than 2^32 - 1 threads use the lock: the comparisons of 32-bit counters
    are then comparisons of the counts. *)
Definition in_window (s : state) : Prop :=
  Z.of_nat (length (pcs s)) + 1 < 2 ^ 32 ∧
  ∀ t v n, pcs s !! t = Some (Trying v n) ∨ pcs s !! t = Some (TryCas v n) →
    Z.of_nat (length (arrivals s)) < Z.of_nat n + 2 ^ 32.

(** ** Invariant *)

Record inv (s : state) : Prop := {
  i_next : next (lk s) = wrap_u32 (Z.of_nat (length (arrivals s)));
  i_owner : owner (lk s) = wrap_u32 (Z.of_nat (released s));
  i_order : (released s ≤ length (entries s) ≤ S (released s))%nat;
  i_prefix : ∃ pending, arrivals s = entries s ++ pending ∧ NoDup pending ∧
    (∀ i t, pending !! i = Some t →
       pcs s !! t = Some (Waiting (wrap_u32 (Z.of_nat (length (entries s) + i))))) ∧
    (∀ t v, pcs s !! t = Some (Waiting v) → t ∈ pending);
  i_hold : ∀ t, pcs s !! t = Some Holding ↔
    length (entries s) = S (released s) ∧ last (entries s) = Some t;
  i_trying : ∀ t v n, pcs s !! t = Some (Trying v n) →
    v = wrap_u32 (Z.of_nat n) ∧ Z.of_nat n < Z.of_nat (released s) + 2 ^ 32 ;
  i_trycas : ∀ t v n, pcs s !! t = Some (TryCas v n) →
    v = wrap_u32 (Z.of_nat n) ∧ (n ≤ released s)%nat
}.

Lemma wrap_u32_inj a b : wrap_u32 a = wrap_u32 b → - 2 ^ 32 < a - b < 2 ^ 32 → a = b.
Proof.
  unfold wrap_u32. intros He Hr.
  assert ((a - b) mod 2 ^ 32 = 0) as Hm by (rewrite Zminus_mod, He, Z.sub_diag; done).
  apply Z.mod_divide in Hm as [k Hk]; [|done]. nia.
Qed.

Lemma wrap_u32_succ a : wrap_u32 (wrap_u32 a + 1) = wrap_u32 (a + 1).
Proof. unfold wrap_u32. by rewrite Zplus_mod_idemp_l. Qed.

Lemma arrivals_bound s :
  inv s → (length (arrivals s) ≤ length (entries s) + length (pcs s))%nat.
Proof.
  intros HI. destruct (i_prefix s HI) as (pe&->&Hnd&Hw&_). rewrite length_app.
  assert (length pe ≤ length (seq 0 (length (pcs s))))%nat as Hle.
  { apply submseteq_length, NoDup_submseteq; [done|].
    intros t (i&Hi)%list_elem_of_lookup. apply Hw, lookup_lt_Some in Hi. apply elem_of_seq. lia. }
  rewrite length_seq in Hle. lia.
Qed.

Lemma pcs_insert_eq (l : list pc) t p q : l !! t = Some p → <[t := q]> l !! t = Some q.
Proof. intros. apply list_lookup_insert_eq. by eapply lookup_lt_Some. Qed.

Lemma init_inv n : inv (init n).
Proof.
  assert (∀ t p, replicate n Idle !! t = Some p → p = Idle) as Hi by (intros t p [? _]%lookup_replicate; done).
  split; simpl; try done; [lia|exists []| |..]; simpl.
  - split_and!; [done|constructor|done|]. intros t v Ht%Hi. done.
  - intros t. split; [intros Ht%Hi; done|intros [_ ?]; done].
  - intros t v m Ht%Hi. done.
  - intros t v m Ht%Hi. done.
Qed.

(** Lookup in the updated program counters. *)
Lemma pcs_insert (l : list pc) t q t' p :
  (t < length l)%nat → <[t := q]> l !! t' = Some p ↔ (t' = t ∧ p = q) ∨ (t' ≠ t ∧ l !! t' = Some p).
Proof.
  intros Hlt. destruct (decide (t' = t)) as [->|Hne].
  - rewrite list_lookup_insert_eq by done. naive_solver.
  - rewrite list_lookup_insert_ne by done. naive_solver.
Qed.

Lemma pending_not (s : state) t (pe : list nat) (v : nat → Z) :
  (∀ i t, pe !! i = Some t → pcs s !! t = Some (Waiting (v i))) →
  (∀ w, pcs s !! t ≠ Some (Waiting w)) → t ∉ pe.
Proof. intros Hw Ht (i&Hi)%list_elem_of_lookup. by eapply Ht, Hw. Qed.

Lemma call_lock_inv s t : inv s → inv (step (CallLock t) s).
Proof.
  intros HI. unfold step. destruct (pcs s !! t) as [[]|] eqn:Ht; try done.
  destruct (HI) as [Hn Ho Hord (pe&Ha&Hnd&Hw&Hw') Hh Htr Htc]. pose proof (lookup_lt_Some _ _ _ Ht) as Hlt.
  assert (t ∉ pe) as Htpe by (eapply pending_not; [exact Hw|by rewrite Ht]).
  split; simpl; try done.
  - rewrite Hn, wrap_u32_succ, length_app. simpl. f_equal. lia.
  - exists (pe ++ [t]). split_and!.
    + by rewrite Ha, (assoc (++)).
    + apply NoDup_app. split_and!; [done|set_solver|apply NoDup_singleton].
    + intros i t' Hi. apply pcs_insert; [done|]. apply lookup_app_Some in Hi as [Hi|[Hge Hi]].
      * right. split; [|by apply Hw]. intros ->. by apply Htpe, list_elem_of_lookup_2 with i.
      * apply list_lookup_singleton_Some in Hi as [Hi <-]. left. split; [done|]. f_equal.
        rewrite Hn, Ha, length_app. do 2 f_equal. lia.
    + intros t' v [[-> _]|[Hne Ht']]%pcs_insert; [set_solver| |done]. apply elem_of_app. left. by eapply Hw'.
  - intros t'. rewrite pcs_insert by done. rewrite <-Hh. split; [intros [[_ ?]|[_ ?]]; done|].
    intros Ht'. right. split; [|done]. by intros ->; rewrite Ht in Ht'.
  - intros t' v n [[_ ?]|[_ ?]]%pcs_insert; [done|by eapply Htr|done].
  - intros t' v n [[_ ?]|[_ ?]]%pcs_insert; [done|by eapply Htc|done].
Qed.

Lemma spin_inv s t : inv s → in_window s → inv (step (Spin t) s).
Proof.
  intros HI [Hnt _]. unfold step. destruct (pcs s !! t) as [[|v| | |]|] eqn:Ht; try done.
  unfold lock_ready. case_bool_decide as Hv; [|done]. pose proof (arrivals_bound s HI) as Hab.
  destruct (HI) as [Hn Ho Hord (pe&Ha&Hnd&Hw&Hw') Hh Htr Htc]. pose proof (lookup_lt_Some _ _ _ Ht) as Hlt.
  pose proof (Hw' _ _ Ht) as (i&Hi)%list_elem_of_lookup. pose proof (Hw _ _ Hi) as Hti.
  rewrite Ha, length_app in Hab. pose proof (lookup_lt_Some _ _ _ Hi).
  assert (Z.of_nat (length (entries s) + i) = Z.of_nat (released s)) as Heq.
  { apply wrap_u32_inj; [congruence|lia]. }
  assert (i = 0%nat) as -> by lia. destruct pe as [|t' pe]; [done|]. injection Hi as ->.
  apply NoDup_cons in Hnd as [Htpe Hnd].
  split; simpl; try done.
  - rewrite length_app. simpl. lia.
  - exists pe. split_and!; [by rewrite Ha, <-(assoc (++))|done| |].
    + intros i t' Hi. apply pcs_insert; [done|]. right. split.
      * intros ->. by apply Htpe, list_elem_of_lookup_2 with i.
      * rewrite (Hw (S i) t' Hi), length_app. simpl. do 3 f_equal. lia.
    + intros t' v' [[_ ?]|[Hne Ht']]%pcs_insert; [done| |done]. apply Hw' in Ht'. set_solver.
  - intros t'. rewrite pcs_insert by done. rewrite last_snoc, length_app. simpl.
    split; [intros [[-> _]|[Hne Ht']]; [split; [lia|done]|apply Hh in Ht' as [? _]; lia]|].
    intros [_ [= ->]]. by left.
  - intros t' v' n [[_ ?]|[_ ?]]%pcs_insert; [done|by eapply Htr|done].
  - intros t' v' n [[_ ?]|[_ ?]]%pcs_insert; [done|by eapply Htc|done].
Qed.

Lemma call_try_inv s t : inv s → in_window s → inv (step (CallTry t) s).
Proof.
  intros HI [Hnt _]. unfold step. destruct (pcs s !! t) as [[]|] eqn:Ht; try done.
  pose proof (arrivals_bound s HI) as Hab.
  destruct (HI) as [Hn Ho Hord (pe&Ha&Hnd&Hw&Hw') Hh Htr Htc]. pose proof (lookup_lt_Some _ _ _ Ht) as Hlt.
  assert (t ∉ pe) as Htpe by (eapply pending_not; [exact Hw|by rewrite Ht]).
  split; simpl; try done.
  - exists pe. split_and!; [done|done| |].
    + intros i t' Hi. apply pcs_insert; [done|]. right. split; [|by apply Hw].
      intros ->. by apply Htpe, list_elem_of_lookup_2 with i.
    + intros t' v [[_ ?]|[_ ?]]%pcs_insert; [done|by eapply Hw'|done].
  - intros t'. rewrite pcs_insert by done. rewrite <-Hh. split; [intros [[_ ?]|[_ ?]]; done|].
    intros Ht'. right. split; [|done]. by intros ->; rewrite Ht in Ht'.
  - intros t' v n [[_ [= -> ->]]|[_ ?]]%pcs_insert; [|by eapply Htr|done]. split; [done|lia].
  - intros t' v n [[_ ?]|[_ ?]]%pcs_insert; [done|by eapply Htc|done].
Qed.

(** A step that only changes [t] from one non-waiting, non-holding state to
    another. *)
Lemma retire_inv s t p q :
  inv s → pcs s !! t = Some p → p ≠ Holding → (∀ v, p ≠ Waiting v) → q ≠ Holding → (∀ v, q ≠ Waiting v) →
  (∀ v n, q ≠ Trying v n) →
  (∀ v n, q = TryCas v n → v = wrap_u32 (Z.of_nat n) ∧ (n ≤ released s)%nat) →
  inv (St (lk s) (<[t := q]> (pcs s)) (arrivals s) (entries s) (released s)).
Proof.
  intros HI Ht Hp Hpw Hq Hqw Hqt Hqc.
  destruct (HI) as [Hn Ho Hord (pe&Ha&Hnd&Hw&Hw') Hh Htr Htc]. pose proof (lookup_lt_Some _ _ _ Ht) as Hlt.
  assert (t ∉ pe) as Htpe by (eapply pending_not; [exact Hw|rewrite Ht; naive_solver]).
  split; simpl; try done.
  - exists pe. split_and!; [done|done| |].
    + intros i t' Hi. apply pcs_insert; [done|]. right. split; [|by apply Hw].
      intros ->. by apply Htpe, list_elem_of_lookup_2 with i.
    + intros t' v [[_ ?]|[_ ?]]%pcs_insert; [naive_solver|by eapply Hw'|done].
  - intros t'. rewrite pcs_insert by done. rewrite <-Hh. split; [intros [[_ ?]|[_ ?]]; naive_solver|].
    intros Ht'. right. split; [|done]. intros ->. naive_solver.
  - intros t' v n [[_ ?]|[_ ?]]%pcs_insert; [naive_solver|by eapply Htr|done].
  - intros t' v n [[_ ?]|[_ ?]]%pcs_insert; [by apply Hqc|by eapply Htc|done].
Qed.

Lemma test_owner_inv s t : inv s → in_window s → inv (step (TestOwner t) s).
Proof.
  intros HI [Hnt Hwin]. unfold step. destruct (pcs s !! t) as [[| |v n| |]|] eqn:Ht; try done.
  destruct (i_trying s HI t v n Ht) as [Hv Hn]. pose proof (Hwin t v n (or_introl Ht)).
  destruct (i_prefix s HI) as (pe&Ha&_). pose proof (f_equal length Ha) as Hal. rewrite length_app in Hal.
  pose proof (i_order s HI).
  apply (retire_inv s t (Trying v n)); try done; unfold try_lock_test; case_bool_decide as Hb; try done.
  intros v' n' [= <- <-]. split; [done|].
  enough (Z.of_nat (released s) = Z.of_nat n) by lia.
  apply wrap_u32_inj; [by rewrite <-(i_owner s HI), Hb|lia].
Qed.

Lemma cas_inv s t : inv s → in_window s → inv (step (Cas t) s).
Proof.
  intros HI [Hnt Hwin]. unfold step. destruct (pcs s !! t) as [[| | |v n|]|] eqn:Ht; try done.
  unfold try_lock_cas. case_bool_decide as Hc.
  2: { by apply (retire_inv s t (TryCas v n)). }
  pose proof (Hwin t v n (or_intror Ht)) as Hw1. pose proof (lookup_lt_Some _ _ _ Ht) as Hlt.
  destruct (HI) as [Hn Ho Hord (pe&Ha&Hnd&Hw&Hw') Hh Htr Htc].
  destruct (Htc _ _ _ Ht) as [-> Hnr]. pose proof (f_equal length Ha) as Hal. rewrite length_app in Hal.
  assert (Z.of_nat (length (arrivals s)) = Z.of_nat n) as Heq
    by (apply wrap_u32_inj; [congruence|lia]).
  assert (pe = []) as -> by (apply length_zero_iff_nil; lia). rewrite app_nil_r in Ha.
  split; simpl.
  - rewrite wrap_u32_succ, length_app. simpl. f_equal. lia.
  - done.
  - rewrite length_app. simpl. lia.
  - exists []. split_and!; [by rewrite Ha, app_nil_r|constructor|done|].
    intros t' v' [[_ ?]|[_ ?%Hw']]%pcs_insert; [done|done|done].
  - intros t'. rewrite pcs_insert by done. rewrite last_snoc, length_app. simpl.
    split; [intros [[-> _]|[_ [? _]%Hh]]; [split; [lia|done]|lia]|]. intros [_ [= ->]]. by left.
  - intros t' v' n' [[_ ?]|[_ ?]]%pcs_insert; [done|by eapply Htr|done].
  - intros t' v' n' [[_ ?]|[_ ?]]%pcs_insert; [done|by eapply Htc|done].
Qed.

Lemma call_unlock_inv s t : inv s → inv (step (CallUnlock t) s).
Proof.
  intros HI. unfold step. destruct (pcs s !! t) as [[]|] eqn:Ht; try done.
  destruct (HI) as [Hn Ho Hord (pe&Ha&Hnd&Hw&Hw') Hh Htr Htc]. pose proof (lookup_lt_Some _ _ _ Ht) as Hlt.
  assert (t ∉ pe) as Htpe by (eapply pending_not; [exact Hw|by rewrite Ht]).
  destruct (proj1 (Hh t) Ht) as [Hlen Hlast].
  split; simpl; try done.
  - rewrite Ho, wrap_u32_succ. f_equal. lia.
  - lia.
  - exists pe. split_and!; [done|done| |].
    + intros i t' Hi. apply pcs_insert; [done|]. right. split; [|by apply Hw].
      intros ->. by apply Htpe, list_elem_of_lookup_2 with i.
    + intros t' v [[_ ?]|[_ ?]]%pcs_insert; [done|by eapply Hw'|done].
  - intros t'. rewrite pcs_insert by done. split; [intros [[_ ?]|[Hne [_ Hl]%Hh]]; [done|congruence]|lia].
  - intros t' v n [[_ ?]|[_ [? ?]%Htr]]%pcs_insert; [done| |done]. split; [done|lia].
  - intros t' v n [[_ ?]|[_ [? ?]%Htc]]%pcs_insert; [done| |done]. split; [done|lia].
Qed.

Lemma ticket_step_inv a s : inv s → in_window s → inv (step a s).
Proof.
  destruct a; auto using call_lock_inv, spin_inv, call_try_inv, test_owner_inv, cas_inv, call_unlock_inv.
Qed.

Lemma ticket_reach_inv n s : reach step in_window (init n) s → inv s.
Proof. induction 1; [apply init_inv|by apply ticket_step_inv]. Qed.

End Ticket.

Module RwLock.

(** ** Data *)

(** [ReadAgain] is a reader back at the outer loop of [read_lock], [ReadWait] one
    in its inner loop. *)
Inductive pc : Set := Idle | ReadAgain | ReadWait | Reading | Writing.
#[export] Instance pc_eq_dec : EqDecision pc.
Proof. solve_decision. Defined.

(** [word] is [rwlock->lock]; [tries] counts the [read_try_lock]s that failed
    since the last writer entered. *)
Record state := St { word : Z; pcs : list pc; tries : nat }.

(** ** Operations *)

Definition rwlock_init : Z := 0.

Definition write_bit (v : Z) : bool := negb (bool_decide (Z.land v 0x80000000 = 0)).

(** One round of [read_lock], and [read_try_lock]: was the lock taken for
    reading? *)
Definition read_lock (v : Z) : bool * Z := (negb (write_bit v), wrap_u32 (v + 1)).
Definition read_lock_wait (v : Z) : bool := write_bit v.
Definition read_try_lock (v : Z) : bool * Z := (negb (write_bit v), wrap_u32 (v + 1)).
Definition read_unlock (v : Z) : Z := wrap_u32 (v - 1).
(** One round of [write_lock], and [write_try_lock]. *)
Definition write_lock (v : Z) : bool * Z := if bool_decide (v = 0) then (true, 0x80000000) else (false, v).
Definition write_try_lock (v : Z) : bool * Z := if bool_decide (v = 0) then (true, 0x80000000) else (false, v).
Definition write_unlock (v : Z) : Z := 0.

(** ** Steps *)

Inductive action : Type :=
  | CallRead (t : nat) | SpinRead (t : nat) | CallReadTry (t : nat) | CallReadUnlock (t : nat)
  | CallWrite (t : nat) | CallWriteTry (t : nat) | CallWriteUnlock (t : nat).

Definition step (a : action) (s : state) : state :=
  match a with
  | CallRead t =>
      if bool_decide (pcs s !! t = Some Idle ∨ pcs s !! t = Some ReadAgain) then
        let '(ok, v) := read_lock (word s) in
        St v (<[t := if ok then Reading else ReadWait]> (pcs s)) (tries s)
      else s
  | SpinRead t =>
      if bool_decide (pcs s !! t = Some ReadWait) then
        St (word s) (<[t := if read_lock_wait (word s) then ReadWait else ReadAgain]> (pcs s)) (tries s)
      else s
  | CallReadTry t =>
      if bool_decide (pcs s !! t = Some Idle) then
        let '(ok, v) := read_try_lock (word s) in
        St v (<[t := if ok then Reading else Idle]> (pcs s)) (if ok then tries s else S (tries s))
      else s
  | CallReadUnlock t =>
      if bool_decide (pcs s !! t = Some Reading) then
        St (read_unlock (word s)) (<[t := Idle]> (pcs s)) (tries s)
      else s
  | CallWrite t =>
      if bool_decide (pcs s !! t = Some Idle) then
        let '(ok, v) := write_lock (word s) in
        St v (<[t := if ok then Writing else Idle]> (pcs s)) (if ok then 0%nat else tries s)
      else s
  | CallWriteTry t =>
      if bool_decide (pcs s !! t = Some Idle) then
        let '(ok, v) := write_try_lock (word s) in
        St v (<[t := if ok then Writing else Idle]> (pcs s)) (if ok then 0%nat else tries s)
      else s
  | CallWriteUnlock t =>
      if bool_decide (pcs s !! t = Some Writing) then
        St (write_unlock (word s)) (<[t := Idle]> (pcs s)) (tries s)
      else s
  end.

Definition init (n : nat) : state := St rwlock_init (replicate n Idle) 0.

(** The readers and the failed attempts fit the 31 bits below the write bit. *)
Definition in_range (s : state) : Prop := Z.of_nat (tries s + length (pcs s)) + 1 < 2 ^ 31.

(** ** Invariant *)

Definition count (p : pc) (l : list pc) : nat := length (filter (λ q, q = p) l).

Definition inv (s : state) : Prop :=
  (count Writing (pcs s) = 0%nat ∧ word s = Z.of_nat (count Reading (pcs s))) ∨
  (count Writing (pcs s) = 1%nat ∧ count Reading (pcs s) = 0%nat ∧
   ∃ stray : nat, word s = 2 ^ 31 + Z.of_nat stray ∧ (stray ≤ tries s + count ReadWait (pcs s))%nat).

Lemma count_insert p q o l t :
  l !! t = Some o →
  (count p (<[t := q]> l) + (if decide (o = p) then 1 else 0) =
   count p l + (if decide (q = p) then 1 else 0))%nat.
Proof.
  intros Ht. unfold count. rewrite insert_take_drop by (by eapply lookup_lt_Some).
  rewrite <-(take_drop_middle l t o Ht) at 3. rewrite !filter_app, !filter_cons, !length_app.
  repeat case_decide; simpl; lia.
Qed.

Lemma count_le p l : (count p l ≤ length l)%nat.
Proof. apply length_filter. Qed.

Lemma count_sum l : (count Reading l + count ReadWait l ≤ length l)%nat.
Proof.
  unfold count. induction l as [|x l IH]; [done|]. rewrite !filter_cons. repeat case_decide; simpl; try lia.
  congruence.
Qed.

Lemma count_pos p l t : l !! t = Some p → (0 < count p l)%nat.
Proof.
  intros Ht. apply list_elem_of_lookup_2 in Ht. unfold count.
  assert (p ∈ filter (λ q, q = p) l) as Hin by (apply list_elem_of_filter; done).
  destruct (filter _ l); simpl; [set_solver|lia].
Qed.

Lemma count_zero p l : (∀ t, l !! t ≠ Some p) → count p l = 0%nat.
Proof.
  intros Hl. unfold count. destruct (filter (λ q, q = p) l) as [|x f] eqn:Hf; [done|].
  assert (x ∈ filter (λ q, q = p) l) as [-> (t&Ht)%list_elem_of_lookup]%list_elem_of_filter by (rewrite Hf; set_solver).
  by destruct (Hl t).
Qed.

Lemma count_one p l t t' : count p l = 1%nat → l !! t = Some p → l !! t' = Some p → t = t'.
Proof.
  intros Hc Ht Ht'. destruct (decide (t = t')) as [|Hne]; [done|].
  assert (∃ q, q ≠ p) as [q Hq] by (destruct p; [exists Reading|exists Idle..]; done).
  pose proof (count_insert p q p l t Ht) as H1. rewrite decide_True, decide_False in H1 by done.
  assert (<[t := q]> l !! t' = Some p) as Ht2 by (by rewrite list_lookup_insert_ne).
  pose proof (count_pos _ _ _ Ht2). lia.
Qed.

Lemma write_bit_low v : 0 ≤ v < 2 ^ 31 → write_bit v = false.
Proof.
  intros Hv. unfold write_bit. rewrite bool_decide_eq_true_2; [done|].
  change 0x80000000 with (2 ^ 31). apply Z.bits_inj'. intros k Hk. rewrite Z.bits_0, Z.land_spec, Z.pow2_bits_eqb by done.
  destruct (Z.eqb_spec 31 k) as [<-|]; [|by rewrite andb_false_r].
  rewrite Z.bits_above_log2; [done|lia|]. destruct (decide (v = 0)) as [->|]; [done|]. apply Z.log2_lt_pow2; lia.
Qed.

Lemma write_bit_high v : 0 ≤ v < 2 ^ 31 → write_bit (2 ^ 31 + v) = true.
Proof.
  intros Hv. unfold write_bit. rewrite bool_decide_eq_false_2; [done|].
  change 0x80000000 with (2 ^ 31). intros He%(f_equal (λ x, Z.testbit x 31)).
  rewrite Z.bits_0, Z.land_spec, Z.pow2_bits_true, andb_true_r in He by done.
  apply Z.testbit_false in He; [|done]. replace (2 ^ 31 + v) with (v + 1 * 2 ^ 31) in He by lia.
  rewrite Z.div_add, Z.div_small in He by lia. done.
Qed.

(** ** Preservation *)

Section step.
Context (s : state) (t : nat) (Hinv : inv s) (Hrange : in_range s).

Lemma word_free : count Writing (pcs s) = 0%nat → word s = Z.of_nat (count Reading (pcs s)) ∧ write_bit (word s) = false.
Proof using Hinv Hrange.
  intros Hw. destruct Hinv as [[_ Hv]|[? _]]; [|lia]. split; [done|]. apply write_bit_low.
  pose proof (count_le Reading (pcs s)). unfold in_range in Hrange. lia.
Qed.

Lemma word_held : count Writing (pcs s) = 1%nat → write_bit (word s) = true ∧ word s ≠ 0 ∧
  ∃ stray : nat, word s = 2 ^ 31 + Z.of_nat stray ∧ (stray ≤ tries s + count ReadWait (pcs s))%nat ∧
    wrap_u32 (word s + 1) = 2 ^ 31 + Z.of_nat (S stray).
Proof using Hinv Hrange.
  intros Hw. destruct Hinv as [[? _]|(_&Hr&stray&Hv&Hs)]; [lia|].
  pose proof (count_le ReadWait (pcs s)). unfold in_range in Hrange.
  split_and!; [rewrite Hv; apply write_bit_high; lia|lia|]. exists stray. split_and!; [done|done|].
  rewrite wrap_u32_small; lia.
Qed.

Lemma read_step o p :
  pcs s !! t = Some o → o = Idle ∨ o = ReadAgain → p = Idle ∨ p = ReadWait →
  inv (St (wrap_u32 (word s + 1)) (<[t := if negb (write_bit (word s)) then Reading else p]> (pcs s))
          (if negb (write_bit (word s)) then tries s else
           if decide (p = Idle) then S (tries s) else tries s)).
Proof using Hinv Hrange.
  intros Ht Ho Hp.
  destruct (write_bit (word s)) eqn:Hb; simpl.
  - destruct Hinv as [[Hw _]|[Hw [Hr _]]]; [by rewrite (proj2 (word_free Hw)) in Hb|].
    destruct (word_held Hw) as (_&_&stray&Hv&Hs&Hwr). right. cbn [pcs word tries].
    pose proof (count_insert Writing p o _ _ Ht). pose proof (count_insert Reading p o _ _ Ht).
    pose proof (count_insert ReadWait p o _ _ Ht).
    destruct Ho as [-> | ->], Hp as [-> | ->]; repeat case_decide; try congruence;
      split_and!; try lia; exists (S stray); (split; [done|lia]).
  - destruct Hinv as [[Hw _]|[Hw _]]; [|by rewrite (proj1 (word_held Hw)) in Hb].
    destruct (word_free Hw) as [Hv _]. left. simpl.
    pose proof (count_insert Writing Reading o _ _ Ht). pose proof (count_insert Reading Reading o _ _ Ht).
    repeat case_decide; try (exfalso; naive_solver congruence). split; [lia|].
    pose proof (count_le Reading (pcs s)). unfold in_range in Hrange. rewrite wrap_u32_small; lia.
Qed.

Lemma write_step :
  pcs s !! t = Some Idle →
  inv (let '(ok, v) := write_lock (word s) in
       St v (<[t := if ok then Writing else Idle]> (pcs s)) (if ok then 0%nat else tries s)).
Proof using Hinv Hrange.
  intros Ht. unfold write_lock. case_bool_decide as Hz.
  - destruct Hinv as [[Hw Hv]|[Hw _]]; [|by destruct (word_held Hw) as (_&?&_)].
    right. cbn [pcs word tries]. pose proof (count_insert Writing Writing _ _ _ Ht). pose proof (count_insert Reading Writing _ _ _ Ht).
    repeat case_decide; try done. split_and!; [lia|lia|]. exists 0%nat. split; [done|lia].
  - rewrite list_insert_id by done. by destruct s.
Qed.

Lemma spin_read_step :
  pcs s !! t = Some ReadWait →
  inv (St (word s) (<[t := if read_lock_wait (word s) then ReadWait else ReadAgain]> (pcs s)) (tries s)).
Proof using Hinv Hrange.
  intros Ht. unfold read_lock_wait. destruct (write_bit (word s)) eqn:Hb.
  - rewrite list_insert_id by done. by destruct s.
  - destruct Hinv as [[Hw Hv]|[Hw _]]; [|by rewrite (proj1 (word_held Hw)) in Hb].
    left. simpl. pose proof (count_insert Writing ReadAgain _ _ _ Ht). pose proof (count_insert Reading ReadAgain _ _ _ Ht).
    repeat case_decide; try done. split; [lia|]. rewrite Hv. lia.
Qed.

Lemma read_unlock_step :
  pcs s !! t = Some Reading → inv (St (read_unlock (word s)) (<[t := Idle]> (pcs s)) (tries s)).
Proof using Hinv Hrange.
  intros Ht. pose proof (count_pos _ _ _ Ht). destruct Hinv as [[Hw Hv]|(_&Hr&_)]; [|lia].
  left. simpl. pose proof (count_insert Writing Idle _ _ _ Ht). pose proof (count_insert Reading Idle _ _ _ Ht).
  repeat case_decide; try done. split; [lia|]. unfold read_unlock.
  pose proof (count_le Reading (pcs s)). unfold in_range in Hrange. rewrite wrap_u32_small; lia.
Qed.

Lemma write_unlock_step :
  pcs s !! t = Some Writing → inv (St (write_unlock (word s)) (<[t := Idle]> (pcs s)) (tries s)).
Proof using Hinv.
  intros Ht. pose proof (count_pos _ _ _ Ht). destruct Hinv as [[Hw _]|(Hw&Hr&_)]; [lia|].
  left. simpl. pose proof (count_insert Writing Idle _ _ _ Ht). pose proof (count_insert Reading Idle _ _ _ Ht).
  repeat case_decide; try done. unfold write_unlock. lia.
Qed.
End step.

Lemma rw_step_inv a s : inv s → in_range s → inv (step a s).
Proof.
  intros HI HR. destruct a as [t|t|t|t|t|t|t]; unfold step; case_bool_decide as Ht; try done.
  - assert (∃ o, pcs s !! t = Some o ∧ (o = Idle ∨ o = ReadAgain)) as (o&Hto&Ho) by naive_solver.
    pose proof (read_step s t HI HR o ReadWait Hto Ho (or_intror eq_refl)) as H.
    unfold read_lock. by destruct (write_bit (word s)).
  - by apply spin_read_step.
  - pose proof (read_step s t HI HR Idle Idle Ht (or_introl eq_refl) (or_introl eq_refl)) as H.
    unfold read_try_lock. by destruct (write_bit (word s)).
  - by apply read_unlock_step.
  - by apply (write_step s t HI HR Ht).
  - by apply (write_step s t HI HR Ht).
  - by apply write_unlock_step.
Qed.

Lemma count_replicate p n : p ≠ Idle → count p (replicate n Idle) = 0%nat.
Proof. intros Hp. unfold count. induction n as [|n IH]; [done|]. simpl. rewrite filter_cons, decide_False; done. Qed.

Lemma rw_reach_inv n s : reach step in_range (init n) s → inv s.
Proof.
  induction 1; [|by apply rw_step_inv]. left. simpl. by rewrite !count_replicate.
Qed.
End RwLock.

(** ** Claims *)

(** C15: the ticket lock gives mutual exclusion, in arrival order, without
    deadlock.  In every state reachable by any interleaving of [lock],
    [try_lock] and [unlock] by [n] threads, at most one thread holds the lock;
    the threads that entered are a prefix of those that took a ticket; and when
    nobody holds it and a thread waits, some waiting thread finds its ticket due.
    The 32-bit counters may wrap around any number of times. *)
Theorem ticket_lock_correct n s :
  reach Ticket.step Ticket.in_window (Ticket.init n) s →
  (∀ t t', Ticket.pcs s !! t = Some Ticket.Holding → Ticket.pcs s !! t' = Some Ticket.Holding → t = t') ∧
  Ticket.entries s `prefix_of` Ticket.arrivals s ∧
  ((∀ t, Ticket.pcs s !! t ≠ Some Ticket.Holding) →
   ∀ t v, Ticket.pcs s !! t = Some (Ticket.Waiting v) →
   ∃ t', Ticket.pcs (Ticket.step (Ticket.Spin t') s) !! t' = Some Ticket.Holding).
Proof.
  intros Hr%Ticket.ticket_reach_inv. destruct (Hr) as [Hn Ho Hord (pe&Ha&Hnd&Hw&Hw') Hh _ _]. split_and!.
  - intros t t' [_ Ht]%Hh [_ Ht']%Hh. congruence.
  - rewrite Ha. apply prefix_app_r. done.
  - intros Hfree t v Ht. destruct pe as [|t' pe]; [by apply Hw' in Ht; apply not_elem_of_nil in Ht|].
    exists t'. pose proof (Hw 0%nat t' eq_refl) as Ht'. rewrite Nat.add_0_r in Ht'.
    assert (length (Ticket.entries s) = Ticket.released s) as Hl.
    { destruct (decide (length (Ticket.entries s) = S (Ticket.released s))) as [He|]; [|lia].
      destruct (last (Ticket.entries s)) as [h|] eqn:Hlast; [by destruct (Hfree h); apply Hh|].
      apply last_None in Hlast. by rewrite Hlast in He. }
    simpl. rewrite Ht'. unfold Ticket.lock_ready. rewrite Hl, <-Ho, bool_decide_eq_true_2 by done. simpl.
    by eapply Ticket.pcs_insert_eq.
Qed.

Lemma ticket_lock_correct_witness :
  let s := Ticket.step (Ticket.CallLock 1) (Ticket.step (Ticket.Spin 0) (Ticket.step (Ticket.CallLock 0) (Ticket.init 2))) in
  (∀ t t', Ticket.pcs s !! t = Some Ticket.Holding → Ticket.pcs s !! t' = Some Ticket.Holding → t = t') ∧
  Ticket.entries s `prefix_of` Ticket.arrivals s ∧
  ((∀ t, Ticket.pcs s !! t ≠ Some Ticket.Holding) →
   ∀ t v, Ticket.pcs s !! t = Some (Ticket.Waiting v) →
   ∃ t', Ticket.pcs (Ticket.step (Ticket.Spin t') s) !! t' = Some Ticket.Holding).
Proof.
  apply (ticket_lock_correct 2).
  repeat apply reach_step; [apply reach_init|..]; (split; [done|]); intros [|[|t]] v n [Ht|Ht]; vm_compute in Ht; discriminate.
Defined.

Lemma one_in_window p lk a e r :
  (∀ v n, p ≠ Ticket.Trying v n) → (∀ v n, p ≠ Ticket.TryCas v n) → Ticket.in_window (Ticket.St lk [p] a e r).
Proof.
  intros H1 H2. split; [done|].
  intros t v n [Ht|Ht]; apply list_lookup_singleton_Some in Ht as [_ Ht]; naive_solver.
Qed.

Lemma one_thread_enters k l :
  reach Ticket.step Ticket.in_window (Ticket.init 1)
    (Ticket.St (Ticket.Lk (wrap_u32 (Z.of_nat k)) (wrap_u32 (Z.of_nat k))) [Ticket.Idle] l l k) →
  reach Ticket.step Ticket.in_window (Ticket.init 1)
    (Ticket.St (Ticket.Lk (wrap_u32 (Z.of_nat k)) (wrap_u32 (Z.of_nat k + 1))) [Ticket.Holding] (l ++ [0%nat]) (l ++ [0%nat]) k).
Proof.
  intros IH.
  pose proof (reach_step _ _ _ (Ticket.CallLock 0) _ IH ltac:(by apply one_in_window)) as H1.
  simpl in H1.
  pose proof (reach_step _ _ _ (Ticket.Spin 0) _ H1 ltac:(by apply one_in_window)) as H2.
  simpl in H2. unfold Ticket.lock_ready in H2. rewrite bool_decide_eq_true_2 in H2 by done. simpl in H2.
  by rewrite Ticket.wrap_u32_succ in H2.
Qed.

(** The wrap-around of a lock used by one thread. *)
Lemma one_thread_wraps k :
  ∃ l, length l = k ∧ reach Ticket.step Ticket.in_window (Ticket.init 1)
    (Ticket.St (Ticket.Lk (wrap_u32 (Z.of_nat k)) (wrap_u32 (Z.of_nat k))) [Ticket.Idle] l l k).
Proof.
  induction k as [|k (l&Hl&IH)]; [by exists []; split; [done|apply reach_init]|].
  exists (l ++ [0%nat]). split; [rewrite length_app; simpl; lia|].
  pose proof (reach_step _ _ _ (Ticket.CallUnlock 0) _ (one_thread_enters _ _ IH) ltac:(by apply one_in_window)) as H3.
  simpl in H3.
  unfold Ticket.unlock in H3. simpl in H3. rewrite Ticket.wrap_u32_succ in H3.
  by replace (Z.of_nat k + 1) with (Z.of_nat (S k)) in H3 by lia.
Qed.

(** [is_locked] compares the 32-bit counters with [<], so it is wrong when
    [next] has wrapped around and [owner] has not: a state is reachable in which a
    thread holds the lock and [is_locked] answers that nobody does. *)
Theorem is_locked_wrong_at_wrap :
  ∃ s, reach Ticket.step Ticket.in_window (Ticket.init 1) s ∧
    Ticket.pcs s !! 0%nat = Some Ticket.Holding ∧ Ticket.is_locked (Ticket.lk s) = false.
Proof.
  assert (∃ k, Z.of_nat k = 2 ^ 32 - 1) as [k Hk].
  { exists (Z.to_nat (2 ^ 32 - 1)). by rewrite Z2Nat.id. }
  destruct (one_thread_wraps k) as (l&Hl&Hr%one_thread_enters).
  eexists. split; [exact Hr|]. split; [done|]. unfold Ticket.is_locked. simpl. by rewrite Hk.
Qed.

(** C35: the reader-writer lock excludes: in every reachable state in which the
    readers and the failed attempts of the current write fit in 31 bits, at most
    one thread writes and nobody reads meanwhile; and when nobody reads or
    writes, the next thread that calls [write_lock] or [read_lock] enters. *)
Theorem rwlock_correct n s :
  reach RwLock.step RwLock.in_range (RwLock.init n) s →
  (∀ t t', RwLock.pcs s !! t = Some RwLock.Writing →
     (RwLock.pcs s !! t' = Some RwLock.Writing → t = t') ∧ RwLock.pcs s !! t' ≠ Some RwLock.Reading) ∧
  ((∀ t, RwLock.pcs s !! t ≠ Some RwLock.Writing ∧ RwLock.pcs s !! t ≠ Some RwLock.Reading) →
   ∀ t, RwLock.pcs s !! t = Some RwLock.Idle →
   RwLock.pcs (RwLock.step (RwLock.CallWrite t) s) !! t = Some RwLock.Writing ∧
   RwLock.pcs (RwLock.step (RwLock.CallRead t) s) !! t = Some RwLock.Reading).
Proof.
  intros HI%RwLock.rw_reach_inv. split.
  - intros t t' Ht. pose proof (RwLock.count_pos _ _ _ Ht) as Hc.
    destruct HI as [[? _]|(Hw&Hr&_)]; [lia|]. split; [intros Ht'; by eapply RwLock.count_one|].
    intros Ht'%RwLock.count_pos. lia.
  - intros Hnone t Ht. 
    destruct HI as [[_ Hv]|[Hw _]]; [|by rewrite RwLock.count_zero in Hw by apply Hnone].
    rewrite RwLock.count_zero in Hv by apply Hnone. simpl.
    rewrite !bool_decide_eq_true_2 by (by try left). rewrite Hv. simpl.
    split; apply list_lookup_insert_eq; by eapply lookup_lt_Some.
Qed.

Lemma rwlock_correct_witness :
  let s := RwLock.step (RwLock.CallRead 1) (RwLock.step (RwLock.CallWrite 0) (RwLock.init 2)) in
  (∀ t t', RwLock.pcs s !! t = Some RwLock.Writing →
     (RwLock.pcs s !! t' = Some RwLock.Writing → t = t') ∧ RwLock.pcs s !! t' ≠ Some RwLock.Reading) ∧
  ((∀ t, RwLock.pcs s !! t ≠ Some RwLock.Writing ∧ RwLock.pcs s !! t ≠ Some RwLock.Reading) →
   ∀ t, RwLock.pcs s !! t = Some RwLock.Idle →
   RwLock.pcs (RwLock.step (RwLock.CallWrite t) s) !! t = Some RwLock.Writing ∧
   RwLock.pcs (RwLock.step (RwLock.CallRead t) s) !! t = Some RwLock.Reading).
Proof. apply (rwlock_correct 2). repeat apply reach_step; [apply reach_init|done|done]. Defined.

Lemma failed_tries k :
  0 ≤ k < 2 ^ 31 →
  reach RwLock.step (λ _, True) (RwLock.init 2) (RwLock.St (2 ^ 31 + k) [RwLock.Writing; RwLock.Idle] (Z.to_nat k)).
Proof.
  intros [Hk0 Hk]. revert Hk. pattern k. apply natlike_ind; [| |done].
  - intros _. exact (reach_step _ _ _ (RwLock.CallWrite 0) _ (reach_init _ _ _) I).
  - clear k Hk0. intros k Hk0 IH Hk.
    pose proof (reach_step _ _ _ (RwLock.CallReadTry 1) _ (IH ltac:(lia)) I) as H.
    unfold RwLock.step in H. rewrite bool_decide_eq_true_2 in H by done. unfold RwLock.read_try_lock in H.
    cbn [RwLock.word] in H. rewrite RwLock.write_bit_high, wrap_u32_small in H by lia. cbn -[Z.add] in H.
    replace (2 ^ 31 + Z.succ k) with (2147483648 + k + 1) by lia. by rewrite Z2Nat.inj_succ.
Qed.

(** the bound of the reader-writer lock is on failed attempts, not on
    readers: each failed [read_try_lock] leaves its increment behind, and after
    2^31 of them during one write the counter wraps and the next
    [read_try_lock] enters beside the writer.  Two threads suffice. *)
Theorem rwlock_try_overflow :
  ∃ s, reach RwLock.step (λ _, True) (RwLock.init 2) s ∧
    RwLock.pcs s !! 0%nat = Some RwLock.Writing ∧ RwLock.pcs s !! 1%nat = Some RwLock.Reading.
Proof.
  pose proof (failed_tries (2 ^ 31 - 1) ltac:(lia)) as H. revert H.
  generalize (Z.to_nat (2 ^ 31 - 1)) as n. intros n H.
  pose proof (reach_step _ _ _ (RwLock.CallReadTry 1) _ H I) as H1.
  pose proof (reach_step _ _ _ (RwLock.CallReadTry 1) _ H1 I) as H2.
  eexists. split; [exact H2|]. done.
Qed.
