(* ===== verification/Radix.v ===== *)
(** The radix tree ([kernel/lib/radix.c], [kernel/include/common/radix.h]) that
    maps page offsets of a memory object to physical pages.

    A node is its array of words: words that were never stored are [NULL], as
    [kzalloc] leaves them.  The level of a node is part of its type: level 0
    holds values, a level above holds nodes.  Memory that runs out is the list of
    the answers of the allocator ([kmem]).  The theorems show that the tree is a
    map on 64-bit keys, that traversal visits it in key order, what is freed, and
    what a copy contains. *)
From stdpp Require Import sorting.
From S2P Require Import Prelude Words.

(** ** Data *)

Definition RADIX_NODE_BITS : Z := 4.
Definition RADIX_NODE_SIZE : Z := 16.
Definition RADIX_NODE_MASK : Z := RADIX_NODE_SIZE - 1.
Definition RADIX_LEVELS : nat := 16.
Definition ENOMEM : Z := 12.
Definition EINVAL : Z := 22.

Fixpoint node (l : nat) : Type :=
  match l with O => gmap Z Z | S l' => gmap Z (node l') end.
Definition values (n : node 0) : gmap Z Z := n.
Definition children {l} (n : node (S l)) : gmap Z (node l) := n.
Definition mk_leaf (m : gmap Z Z) : node 0 := m.
Definition mk_inner {l} (m : gmap Z (node l)) : node (S l) := m.
(** [kzalloc(sizeof(struct radix_node))] *)
Definition zero_node (l : nat) : node l := match l with O => ∅ | S _ => ∅ end.

(** [radix->root]: a node of level [RADIX_LEVELS - 1], or an error pointer that a
    failed allocation left there. *)
Inductive rootptr : Type := RNull | RErr | RNode (n : node 15).
Record radix := Radix { root : rootptr; locked : bool; value_deleter : bool }.

(** [deleted] are the arguments of [value_deleter], oldest first; [nfreed] the
    number of nodes given back; [frames] the contents of physical pages;
    [fresh_pages] the pages [get_pages] returns next (0 for none). *)
Record env := Env {
  kmem : list bool; deleted : list Z; nfreed : nat;
  frames : gmap Z (list Z); fresh_pages : list Z
}.

Definition set_root (o : rootptr) (r : radix) : radix := Radix o (locked r) (value_deleter r).
Definition set_locked (b : bool) (r : radix) : radix := Radix (root r) b (value_deleter r).
Definition set_kmem (m : list bool) (e : env) : env := Env m (deleted e) (nfreed e) (frames e) (fresh_pages e).
Definition set_frames (f : gmap Z (list Z)) (e : env) : env := Env (kmem e) (deleted e) (nfreed e) f (fresh_pages e).
Definition add_deleted (v : Z) (e : env) : env :=
  Env (kmem e) (deleted e ++ [v]) (nfreed e) (frames e) (fresh_pages e).
Definition add_freed (e : env) : env :=
  Env (kmem e) (deleted e) (S (nfreed e)) (frames e) (fresh_pages e).

(** ** Operations *)

(** The ticket lock: a second acquisition by the same CPU spins for ever. *)
Definition lock (r : radix) : M env radix :=
  if locked r then halt Spins else mret (set_locked true r).
Definition unlock (r : radix) : radix := set_locked false r.

(** Does the next allocation succeed? *)
Definition kzalloc : M env bool :=
  e ← get_state;
  match kmem e with
  | [] => mret false
  | b :: m => modify (set_kmem m);; mret b
  end.

Definition init_radix (r : radix) : M env radix :=
  ok ← kzalloc;
  bug_on (negb ok);;
  mret (Radix (RNode (zero_node 15)) false false).
Definition init_radix_w_deleter (r : radix) : M env radix :=
  r1 ← init_radix r;
  mret (Radix (root r1) (locked r1) true).

(** [None] is [ERR_PTR(-ENOMEM)]. *)
Definition new_radix_node (l : nat) : M env (option (node l)) :=
  ok ← kzalloc;
  mret (if (ok : bool) then Some (zero_node l) else None).

(** [for (i...) { index[i] = key & RADIX_NODE_MASK; key >>= RADIX_NODE_BITS; }] *)
Fixpoint indices (n : nat) (key : Z) : list Z :=
  match n with
  | O => []
  | S n' => Z.land key RADIX_NODE_MASK :: indices n' (Z.shiftr key RADIX_NODE_BITS)
  end.
Definition index (key : Z) (i : nat) : Z := nth i (indices RADIX_LEVELS key) 0.

(** The descent of [radix_add] from a node of level [l]: the result and the
    node as it is then. *)
Fixpoint add_loop (l : nat) (key value : Z) : node l → M env (Z * node l) :=
  match l with
  | O => λ n, mret (0, mk_leaf (<[index key 0 := value]> (values n)))
  | S l' => λ n,
      let k := index key (S l') in
      match children n !! k with
      | Some c =>
          '(ret, c') ← add_loop l' key value c;
          mret (ret, mk_inner (<[k := c']> (children n)))
      | None =>
          new ← new_radix_node l';
          match new with
          | None => mret (- ENOMEM, n)
          | Some c =>
              '(ret, c') ← add_loop l' key value c;
              mret (ret, mk_inner (<[k := c']> (children n)))
          end
      end
  end.

Definition radix_add (r : radix) (key value : Z) : M env (Z * radix) :=
  r ← lock r;
  new ← (match root r with
         | RNode n => mret (Some n) | RNull => new_radix_node 15 | RErr => halt BadAccess end);
  match new with
  | None => mret (- ENOMEM, unlock r)
  | Some n =>
      '(ret, n') ← add_loop 15 key value n;
      mret (ret, unlock (set_root (RNode n') r))
  end.

Definition radix_del (r : radix) (key : Z) : M env (Z * radix) := radix_add r key 0.

Fixpoint get_loop (l : nat) (key : Z) : node l → Z :=
  match l with
  | O => λ n, default 0 (values n !! index key 0)
  | S l' => λ n,
      match children n !! index key (S l') with
      | Some c => get_loop l' key c
      | None => 0
      end
  end.

Definition radix_get (r : radix) (key : Z) : M env (Z * radix) :=
  r ← lock r;
  match root r with
  | RNode n => mret (get_loop 15 key n, unlock r)
  | RNull => mret (0, unlock r)
  | RErr => halt BadAccess
  end.

(** [for (i = 0; i < RADIX_NODE_SIZE; i++)] *)
Definition slots : list Z := seqZ 0 RADIX_NODE_SIZE.

Fixpoint for_each (ixs : list Z) (body : Z → M env unit) : M env unit :=
  match ixs with [] => mret tt | i :: ixs' => body i;; for_each ixs' body end.

(** The value in slot [i] of a leaf, when it is not [NULL]. *)
Definition value_at (n : node 0) (i : Z) : option Z :=
  match values n !! i with Some v => if bool_decide (v = 0) then None else Some v | None => None end.

Fixpoint radix_free_node (l : nat) (deleter : bool) : node l → M env unit :=
  match l with
  | O => λ n,
      when deleter (for_each slots (λ i,
        match value_at n i with Some v => modify (add_deleted v) | None => mret tt end));;
      modify add_freed
  | S l' => λ n,
      for_each slots (λ i,
        match children n !! i with Some c => radix_free_node l' deleter c | None => mret tt end);;
      modify add_freed
  end.

(** The result, and the structure when it was not freed. *)
Definition radix_free (r : radix) : M env (Z * option radix) :=
  r ← lock r;
  match root r with
  | RNull => mret (- EINVAL, Some r)
  | RNode n => radix_free_node 15 (value_deleter r) n;; mret (0, None)
  | RErr => halt BadAccess
  end.

Fixpoint hash_page (initial : Z) (page : list Z) : Z :=
  match page with [] => initial | b :: bs => hash_page (wrap_u64 (initial * 307 + b + 1)) bs end.

(** [content pa] are the bytes of the page at [phys_to_virt(pa)]. *)
Fixpoint radix_checksum_node (content : Z → list Z) (l : nat) : Z → node l → Z :=
  match l with
  | O => λ initial n, foldl (λ h i,
           match value_at n i with Some v => hash_page h (content v) | None => h end) initial slots
  | S l' => λ initial n, foldl (λ h i,
           match children n !! i with Some c => radix_checksum_node content l' h c | None => h end) initial slots
  end.
Definition radix_checksum (content : Z → list Z) (r : radix) : outcome Z :=
  match root r with RNode n => Ret (radix_checksum_node content 15 0 n) | _ => Halt BadAccess end.

(** [pagecpy(phys_to_virt(dst), phys_to_virt(src))] *)
Definition pagecpy (dst src : Z) : M env unit :=
  e ← get_state;
  page ← from_opt (frames e !! src);
  modify (set_frames (<[dst := page]> (frames e))).

(** [get_pages(0, type)]: a page address, or 0. *)
Definition get_pages : M env Z :=
  e ← get_state;
  match fresh_pages e with
  | [] => mret 0
  | p :: ps => modify (λ e, Env (kmem e) (deleted e) (nfreed e) (frames e) ps);; mret p
  end.

Definition copy_slot (phy_alloc : bool) (src : node 0) (i : Z) (dst : node 0) : M env (node 0) :=
  match value_at src i, value_at dst i with
  | None, Some pa =>
      modify (λ e, set_frames (delete pa (frames e)) e);;
      mret (mk_leaf (<[i := 0]> (values dst)))
  | None, None => mret dst
  | Some sv, Some dv => pagecpy dv sv;; mret dst
  | Some sv, None =>
      if phy_alloc then
        newpage ← get_pages;
        bug_on (bool_decide (newpage = 0));;
        pagecpy newpage sv;;
        mret (mk_leaf (<[i := newpage]> (values dst)))
      else mret (mk_leaf (<[i := sv]> (values dst)))
  end.

Fixpoint copy_leaf (phy_alloc : bool) (src : node 0) (ixs : list Z) (dst : node 0) : M env (node 0) :=
  match ixs with
  | [] => mret dst
  | i :: ixs' => dst' ← copy_slot phy_alloc src i dst; copy_leaf phy_alloc src ixs' dst'
  end.

(** [rec] is the copy of a child. *)
Fixpoint copy_children {l} (rec : node l → node l → M env (Z * node l))
    (src : node (S l)) (ixs : list Z) (dst : node (S l)) : M env (Z * node (S l)) :=
  match ixs with
  | [] => mret (0, dst)
  | i :: ixs' =>
      match children src !! i with
      | None => copy_children rec src ixs' dst
      | Some c =>
          new ← new_radix_node l;
          match new with
          | None => mret (- ENOMEM, dst)
          | Some d =>
              '(err, d') ← rec c d;
              let dst' := mk_inner (<[i := d']> (children dst)) in
              if bool_decide (err = 0) then copy_children rec src ixs' dst' else mret (err, dst')
          end
      end
  end.

Fixpoint radix_deep_copy_node (phy_alloc : bool) (l : nat) : node l → node l → M env (Z * node l) :=
  match l with
  | O => λ src dst, d ← copy_leaf phy_alloc src slots dst; mret (0, d)
  | S l' => λ src dst, copy_children (radix_deep_copy_node phy_alloc l') src slots dst
  end.

(** The copy of a root to an error pointer: the first child stored faults. *)
Definition copy_to_err (src : node 15) : M env Z :=
  if bool_decide (Forall (λ i, children src !! i = None) slots) then mret 0
  else
    ok ← kzalloc;
    if (ok : bool) then halt BadAccess else mret (- ENOMEM).

(** When the root of [dst] cannot be allocated, [dst->root] becomes the error
    pointer and the copy goes on. *)
Definition radix_deep_copy (src dst : radix) (phy_alloc : bool) : M env (Z * (radix * radix)) :=
  src ← lock src;
  match root src with
  | RNull => mret (0, (unlock src, dst))
  | RErr => halt BadAccess
  | RNode sn =>
      new ← (match root dst with
             | RNode n => mret (Some n) | RNull => new_radix_node 15 | RErr => mret None end);
      match new with
      | None =>
          r ← copy_to_err sn;
          mret (r, (unlock src, set_root RErr dst))
      | Some dn =>
          '(r, dn') ← radix_deep_copy_node phy_alloc 15 sn dn;
          mret (r, (unlock src, set_root (RNode dn') dst))
      end
  end.

(** The calls [fn(va, pa)], in order. *)
Fixpoint radix_traverse_node (l : nat) (prefix : Z) : node l → list (Z * Z) :=
  let prefix := wrap_u64 (Z.shiftl prefix RADIX_NODE_BITS) in
  match l with
  | O => λ n, slots ≫= λ i,
      match value_at n i with Some v => [(Z.lor prefix i, v)] | None => [] end
  | S l' => λ n, slots ≫= λ i,
      match children n !! i with Some c => radix_traverse_node l' (Z.lor prefix i) c | None => [] end
  end.

Definition radix_traverse (r : radix) : M env (list (Z * Z) * radix) :=
  r ← lock r;
  match root r with
  | RNode n => mret (radix_traverse_node 15 0 n, unlock r)
  | RNull => mret ([], unlock r)
  | RErr => halt BadAccess
  end.

(** [fn va pa] is the result of the callback, 0 for [NULL]. *)
Fixpoint first_hit (fn : Z → option Z) (ixs : list Z) : Z :=
  match ixs with
  | [] => 0
  | i :: ixs' =>
      match fn i with
      | Some res => if bool_decide (res = 0) then first_hit fn ixs' else res
      | None => first_hit fn ixs'
      end
  end.

(** The intermediate levels return what the first child returns. *)
Fixpoint first_child {l} (rec : Z → node l → Z) (n : node (S l)) (ixs : list Z) : Z :=
  match ixs with
  | [] => 0
  | i :: ixs' =>
      match children n !! i with Some c => rec i c | None => first_child rec n ixs' end
  end.

Fixpoint radix_complex_traverse_node (fn : Z → Z → Z) (l : nat) (prefix : Z) : node l → Z :=
  let prefix := wrap_u64 (Z.shiftl prefix RADIX_NODE_BITS) in
  match l with
  | O => λ n, first_hit (λ i,
      match value_at n i with Some v => Some (fn (Z.lor prefix i) v) | None => None end) slots
  | S l' => λ n, first_child (λ i c, radix_complex_traverse_node fn l' (Z.lor prefix i) c) n slots
  end.

Definition radix_complex_traverse (r : radix) (fn : Z → Z → Z) : M env (Z * radix) :=
  r ← lock r;
  match root r with
  | RNode n => mret (radix_complex_traverse_node fn 15 0 n, unlock r)
  | RNull => mret (0, unlock r)
  | RErr => halt BadAccess
  end.

(** ** Keys *)

Lemma indices_nth n key i : (i < n)%nat → nth i (indices n key) 0 = (key / 16 ^ Z.of_nat i) mod 16.
Proof.
  revert key i. induction n as [|n IH]; intros key i Hi; [lia|]. destruct i as [|i]; simpl.
  - change RADIX_NODE_MASK with (Z.ones 4). rewrite Z.land_ones by done. by rewrite Z.div_1_r.
  - rewrite IH by lia. rewrite Z.shiftr_div_pow2 by done. change (2 ^ RADIX_NODE_BITS) with 16.
    rewrite Z.div_div by lia. f_equal. f_equal.
    change (Z.pos (Pos.of_succ_nat i)) with (Z.of_nat (S i)). rewrite Nat2Z.inj_succ, Z.pow_succ_r; lia.
Qed.

Lemma index_eq key i : (i < 16)%nat → index key i = (key / 16 ^ Z.of_nat i) mod 16.
Proof. apply indices_nth. Qed.

(** The part of a key that the levels up to [l] see. *)
Definition suffix (l : nat) (key : Z) : Z := key mod 16 ^ Z.of_nat (S l).

Lemma suffix_S l key : (S l < 16)%nat →
  suffix (S l) key = suffix l key + 16 ^ Z.of_nat (S l) * index key (S l).
Proof.
  intros Hl. unfold suffix. rewrite index_eq by done.
  rewrite (Nat2Z.inj_succ (S l)), Z.pow_succ_r by lia. rewrite (Z.mul_comm 16). apply Z.rem_mul_r; lia.
Qed.

Lemma suffix_0 key : suffix 0 key = index key 0.
Proof. rewrite index_eq by lia. unfold suffix. change (16 ^ Z.of_nat 1) with 16. by rewrite Z.div_1_r. Qed.

Lemma suffix_range l key : 0 ≤ suffix l key < 16 ^ Z.of_nat (S l).
Proof. apply Z.mod_pos_bound. lia. Qed.

Lemma index_range key i : (i < 16)%nat → 0 ≤ index key i < 16.
Proof. intros. rewrite index_eq by done. apply Z.mod_pos_bound. lia. Qed.

Lemma suffix_S_eq l k k' : (S l < 16)%nat →
  suffix (S l) k = suffix (S l) k' ↔ index k (S l) = index k' (S l) ∧ suffix l k = suffix l k'.
Proof.
  intros Hl. rewrite !suffix_S by done. pose proof (suffix_range l k). pose proof (suffix_range l k').
  split; [|by intros [-> ->]]. intros He.
  assert (index k (S l) = index k' (S l)) as Hi by nia. split; [done|]. rewrite Hi in He. lia.
Qed.

Lemma suffix_15 k : 0 ≤ k < 2 ^ 64 → suffix 15 k = k.
Proof. intros. apply Z.mod_small. change (16 ^ Z.of_nat 16) with (2 ^ 64). done. Qed.

(** ** The tree as a map *)

Lemma get_zero_node l key : get_loop l key (zero_node l) = 0.
Proof. destruct l; simpl; [unfold values|unfold children]; by rewrite lookup_empty. Qed.

Lemma get_insert l k key (c : node l) (n : gmap Z (node l)) :
  get_loop (S l) key (mk_inner (<[k := c]> n)) =
  if decide (index key (S l) = k) then get_loop l key c else get_loop (S l) key (mk_inner n).
Proof.
  simpl. unfold children, mk_inner. case_decide as Hk; [by rewrite Hk, lookup_insert_eq|].
  by rewrite lookup_insert_ne by done.
Qed.

Lemma get_0 key n : get_loop 0 key n = default 0 (values n !! index key 0).
Proof. done. Qed.

Lemma get_S l key n :
  get_loop (S l) key n = match children n !! index key (S l) with Some c => get_loop l key c | None => 0 end.
Proof. done. Qed.

(** What a run of [add_loop] does to the map: a success stores the value, a
    failure for lack of memory changes no mapping. *)
Definition added (l : nat) (key value : Z) (n : node l) (ret : Z) (n' : node l) : Prop :=
  (ret = 0 ∧ ∀ k, get_loop l k n' = if decide (suffix l k = suffix l key) then value else get_loop l k n) ∨
  (ret = - ENOMEM ∧ ∀ k, get_loop l k n' = get_loop l k n).

(** The next [n] allocations succeed. *)
Definition plenty (n : nat) (e : env) : Prop := take n (kmem e) = replicate n true.

Lemma wp_kzalloc e :
  wp kzalloc (λ b e', e' = set_kmem (tail (kmem e)) e ∧ ∀ n, plenty (S n) e → b = true ∧ plenty n e') e.
Proof.
  unfold kzalloc, plenty. wp_seq. destruct e as [[|b m] d nf fr fp]; simpl; wp_seq; simpl.
  - split; [done|]. intros n H. done.
  - split; [done|]. intros n H. by injection H as -> ->.
Qed.

Lemma wp_new_radix_node l e :
  wp (new_radix_node l) (λ o e', e' = set_kmem (tail (kmem e)) e ∧ (o = None ∨ o = Some (zero_node l)) ∧
    ∀ n, plenty (S n) e → o = Some (zero_node l) ∧ plenty n e') e.
Proof.
  unfold new_radix_node. wp_seq. eapply wp_mono; [apply wp_kzalloc|]. simpl. intros b e' [-> Hp]. wp_seq.
  split_and!; [done|by destruct b; auto|]. intros n [-> ?]%Hp. done.
Qed.

Lemma set_kmem_set_kmem m m' e : set_kmem m (set_kmem m' e) = set_kmem m e.
Proof. done. Qed.

Lemma added_child l k key value (c c' : node l) (n : gmap Z (node l)) ret :
  (S l < 16)%nat → index key (S l) = k → (∀ q, get_loop l q c = default 0 (get_loop l q <$> n !! k)) →
  added l key value c ret c' → added (S l) key value (mk_inner n) ret (mk_inner (<[k := c']> n)).
Proof.
  intros Hl Hk Hc Ha.
  assert (∀ q, index q (S l) = k → get_loop (S l) q (mk_inner n) = get_loop l q c) as Hn.
  { intros q Hq. rewrite Hc. simpl. unfold children, mk_inner. rewrite Hq. by destruct (n !! k). }
  destruct Ha as [[-> Ha]|[-> Ha]]; [left|right]; (split; [done|]); intros q;
    rewrite get_insert; case_decide as Hq; rewrite ?Hn by done.
  - rewrite Ha. destruct (decide (suffix l q = suffix l key)) as [He|He].
    + rewrite decide_True; [done|]. apply suffix_S_eq; [done|]. split; [congruence|done].
    + rewrite decide_False; [done|]. by intros [_ ?]%suffix_S_eq.
  - rewrite decide_False; [done|]. intros [? _]%suffix_S_eq; [congruence|done].
  - by rewrite Ha.
  - done.
Qed.

Lemma wp_add_loop l key value n e :
  (l < 16)%nat →
  wp (add_loop l key value n) (λ '(ret, n') e', added l key value n ret n' ∧
    (∃ m, e' = set_kmem m e) ∧ (plenty l e → ret = 0)) e.
Proof.
  revert n e. induction l as [|l IH]; intros n e Hl.
  - simpl. wp_seq. split_and!; [|exists (kmem e); by destruct e|done]. left. split; [done|]. intros k. simpl.
    unfold values, mk_leaf. rewrite !suffix_0. case_decide as Hk; [by rewrite Hk, lookup_insert_eq|].
    by rewrite lookup_insert_ne.
  - cbn [add_loop]. destruct (children n !! index key (S l)) as [c|] eqn:Hc.
    + wp_seq. eapply wp_mono; [apply IH; lia|]. intros [ret c'] e' (Ha&Hm&Hp). wp_seq. split_and!.
      * eapply added_child with (c := c); [done|done| |done]. intros q. unfold children in *. by rewrite Hc.
      * done.
      * intros HP. apply Hp. unfold plenty in *. apply (f_equal (take l)) in HP.
        rewrite take_take, take_replicate, Nat.min_l in HP by lia. done.
    + wp_seq. eapply wp_mono; [apply wp_new_radix_node|]. simpl. intros o e' (->&[-> | ->]&Hp).
      * wp_seq. split_and!; [right; done|by eexists|]. intros [? _]%Hp. done.
      * wp_seq. eapply wp_mono; [apply IH; lia|]. intros [ret c'] e' (Ha&[m ->]&Hp'). wp_seq. split_and!.
        -- eapply added_child with (c := zero_node l); [done|done| |done]. intros q. unfold children in *.
           rewrite Hc. apply get_zero_node.
        -- by exists m.
        -- intros [_ ?]%Hp. by apply Hp'.
Qed.

#[local] Arguments node : simpl never.
#[local] Arguments zero_node : simpl never.
#[local] Arguments get_loop : simpl never.
#[local] Arguments add_loop : simpl never.

(** The mappings of a tree, as [radix_get] reads them. *)
Definition mapping (r : radix) (key : Z) : Z :=
  match root r with RNode n => get_loop 15 key n | _ => 0 end.

Definition usable (r : radix) : Prop := locked r = false ∧ root r ≠ RErr.

Lemma wp_radix_get r key e :
  usable r → wp (radix_get r key) (λ '(v, r') e', v = mapping r key ∧ r' = r ∧ e' = e) e.
Proof.
  intros [Hl Hr]. unfold radix_get, lock, mapping. rewrite Hl. wp_seq. simpl.
  destruct r as [[| |n] lk d]; simpl in *; subst; [by wp_seq|done|by wp_seq].
Qed.

(** What [radix_add] did to the mappings. *)
Definition map_added (r : radix) (key value ret : Z) (r' : radix) : Prop :=
  (ret = 0 ∧ ∀ k, 0 ≤ k < 2 ^ 64 → mapping r' k = if decide (k = key) then value else mapping r k) ∨
  (ret = - ENOMEM ∧ ∀ k, mapping r' k = mapping r k).

Lemma added_map_added r r' key value n ret n' :
  0 ≤ key < 2 ^ 64 → added 15 key value n ret n' → (∀ k, get_loop 15 k n = mapping r k) →
  root r' = RNode n' → map_added r key value ret r'.
Proof.
  intros Hkey Ha Hn Hr'. assert (∀ k, mapping r' k = get_loop 15 k n') as Hm by (intros k; unfold mapping; by rewrite Hr').
  destruct Ha as [[-> Ha]|[-> Ha]]; [left|right]; (split; [done|]); intros k; rewrite Hm, Ha, Hn; [|done].
  intros Hk. by rewrite !suffix_15.
Qed.

Lemma kmem_plenty_le n m e : (n ≤ m)%nat → plenty m e → plenty n e.
Proof.
  unfold plenty. intros Hle HP. apply (f_equal (take n)) in HP.
  rewrite take_take, take_replicate, Nat.min_l in HP by done. done.
Qed.

Lemma wp_radix_add r key value e :
  usable r → 0 ≤ key < 2 ^ 64 →
  wp (radix_add r key value) (λ '(ret, r') e', usable r' ∧ value_deleter r' = value_deleter r ∧
    (∃ m, e' = set_kmem m e) ∧ map_added r key value ret r' ∧ (plenty 16 e → ret = 0)) e.
Proof.
  intros [Hl Hr] Hkey. unfold radix_add, lock. rewrite Hl. wp_seq. cbn [root set_locked].
  destruct (root r) as [| |n] eqn:Hroot; [|done|].
  - eapply wp_mono; [apply wp_new_radix_node|]. intros o e' (->&[-> | ->]&Hp); cbv beta iota.
    + wp_seq. split; [split; [done|cbn; congruence]|]. split_and!; [done|by eexists| |by intros [? _]%Hp]. right. split; [done|]. intros k.
      unfold mapping. simpl. by rewrite Hroot.
    + wp_seq. eapply wp_mono; [apply wp_add_loop; lia|]. intros [ret n'] e' (Ha&[m ->]&Hp'). wp_seq.
      split_and!; [done|done|by exists m| |].
      * eapply added_map_added; [done|exact Ha| |done]. intros k. rewrite get_zero_node. unfold mapping. by rewrite Hroot.
      * intros [_ HP]%Hp. by apply Hp'.
  - wp_seq. eapply wp_mono; [apply wp_add_loop; lia|]. intros [ret n'] e' (Ha&[m ->]&Hp'). wp_seq.
    split_and!; [done|done|by exists m| |].
    + eapply added_map_added; [done|exact Ha| |done]. intros k. unfold mapping. by rewrite Hroot.
    + intros HP. apply Hp'. eapply kmem_plenty_le; [|done]. lia.
Qed.

(** ** Traversal *)

Lemma elem_slots i : i ∈ slots ↔ 0 ≤ i < 16.
Proof. unfold slots, RADIX_NODE_SIZE. rewrite elem_of_seqZ. lia. Qed.

Lemma prefix_lor prefix i :
  0 ≤ prefix → prefix * 16 < 2 ^ 64 → 0 ≤ i < 16 →
  Z.lor (wrap_u64 (Z.shiftl prefix RADIX_NODE_BITS)) i = prefix * 16 + i.
Proof.
  intros Hp0 Hp Hi. unfold RADIX_NODE_BITS. rewrite wrap_u64_small by (rewrite Z.shiftl_mul_pow2 by done; lia).
  rewrite <-Z.add_lor_land. rewrite Z.shiftl_mul_pow2 by done. change (2 ^ 4) with 16.
  enough (Z.land (prefix * 16) i = 0) by lia. apply Z.bits_inj'. intros k Hk.
  change 16 with (2 ^ 4). rewrite <-Z.shiftl_mul_pow2, Z.land_spec, Z.bits_0 by done.
  destruct (decide (k < 4)); [by rewrite Z.shiftl_spec_low by lia|].
  rewrite (Z.bits_above_log2 i), andb_false_r; [done|lia|].
  destruct (decide (i = 0)) as [->|]; [simpl; lia|]. apply Z.log2_lt_pow2; [lia|].
  pose proof (Z.pow_le_mono_r 2 4 k). lia.
Qed.

Lemma value_at_spec n i v : value_at n i = Some v ↔ default 0 (values n !! i) = v ∧ v ≠ 0.
Proof.
  unfold value_at. destruct (values n !! i) as [w|]; simpl; [|naive_solver].
  case_bool_decide; naive_solver.
Qed.

Lemma index_low k : 0 ≤ k < 16 → index k 0 = k.
Proof. intros. rewrite index_eq by lia. simpl. rewrite Z.div_1_r. by apply Z.mod_small. Qed.

Lemma get_suffix l k k' n : (l < 16)%nat → suffix l k = suffix l k' → get_loop l k n = get_loop l k' n.
Proof.
  revert n. induction l as [|l IH]; intros n Hl He.
  - rewrite !suffix_0 in He. rewrite ?get_0, ?get_S. by rewrite He.
  - apply suffix_S_eq in He as [Hi He]; [|done]. rewrite ?get_0, ?get_S. rewrite Hi.
    destruct (children n !! _); [|done]. apply IH; [lia|done].
Qed.

(** The keys below child [i]. *)
Lemma index_high l i s : (S l < 16)%nat → 0 ≤ i < 16 → 0 ≤ s < 16 ^ Z.of_nat (S l) →
  index (i * 16 ^ Z.of_nat (S l) + s) (S l) = i ∧ suffix l (i * 16 ^ Z.of_nat (S l) + s) = suffix l s.
Proof.
  intros Hl Hi Hs. split.
  - rewrite index_eq by done. rewrite Z.div_add_l, Z.div_small, Z.add_0_r by lia. by apply Z.mod_small.
  - unfold suffix. by rewrite Z.add_comm, Z.mod_add by lia.
Qed.

(** The range of the keys below a node of level [l]. *)
Definition span (l : nat) : Z := 16 ^ Z.of_nat (S l).

Lemma span_S l : span (S l) = 16 * span l.
Proof. unfold span. rewrite (Nat2Z.inj_succ (S l)), Z.pow_succ_r; lia. Qed.

Lemma span_pos l : 0 < span l.
Proof. unfold span. lia. Qed.

(** The prefix leaves room for the levels below. *)
Definition prefix_ok (l : nat) (p : Z) : Prop := 0 ≤ p ∧ p * span l < 2 ^ 64 ∧ (p + 1) * span l ≤ 2 ^ 64.

Lemma prefix_ok_child l p i : prefix_ok (S l) p → 0 ≤ i < 16 → prefix_ok l (p * 16 + i).
Proof. unfold prefix_ok. rewrite span_S. pose proof (span_pos l). intros (?&?&?) ?. split_and!; nia. Qed.

Lemma prefix_ok_lor l p i : prefix_ok l p → 0 ≤ i < 16 →
  Z.lor (wrap_u64 (Z.shiftl p RADIX_NODE_BITS)) i = p * 16 + i.
Proof.
  intros (Hp&Hp1&_) Hi. apply prefix_lor; [done| |done].
  destruct l; [done|]. rewrite span_S in Hp1. pose proof (span_pos l). nia.
Qed.

Lemma traverse_elem l p n va v : (l < 16)%nat → prefix_ok l p →
  (va, v) ∈ radix_traverse_node l p n ↔
  ∃ s, 0 ≤ s < span l ∧ va = p * span l + s ∧ get_loop l s n = v ∧ v ≠ 0.
Proof.
  revert p n. induction l as [|l IH]; intros p n Hl Hp; cbn [radix_traverse_node]; rewrite list_elem_of_bind.
  - setoid_rewrite elem_slots. split.
    + intros (i&Hin&Hi). rewrite (prefix_ok_lor 0) in Hin by done.
      destruct (value_at n i) eqn:Hv; [|set_solver]. apply list_elem_of_singleton in Hin as [= -> ->].
      apply value_at_spec in Hv as [Hv Hnz]. change (span 0) with 16 in *.
      exists i. split_and!; [lia|lia|lia| |done].
      rewrite ?get_0, ?get_S. by rewrite index_low.
    + intros (i&Hi&->&Hg&Hnz). change (span 0) with 16 in *. exists i. split; [|done].
      rewrite (prefix_ok_lor 0) by done. rewrite ?get_0, ?get_S in Hg. rewrite index_low in Hg by done.
      rewrite (proj2 (value_at_spec n i v) (conj Hg Hnz)). set_solver.
  - setoid_rewrite elem_slots. split.
    + intros (i&Hin&Hi). rewrite (prefix_ok_lor (S l)) in Hin by done.
      destruct (children n !! i) as [c|] eqn:Hc; [|set_solver].
      apply IH in Hin as (s&Hs&->&Hg&Hnz); [|lia|by apply prefix_ok_child].
      exists (i * span l + s). rewrite span_S. destruct (index_high l i s) as [Hi1 Hs1]; [done..|].
      pose proof (span_pos l).
      split_and!; [nia|nia|nia| |done]. rewrite ?get_0, ?get_S.
      unfold span in *. rewrite Hi1, Hc. rewrite <-Hg. apply get_suffix; [lia|done].
    + intros (s&Hs&->&Hg&Hnz). rewrite span_S in Hs. pose proof (span_pos l).
      pose proof (Z.div_mod s (span l) ltac:(lia)) as Hdm. pose proof (Z.mod_pos_bound s (span l) ltac:(lia)) as Hb.
      set (i := s / span l) in *. set (s' := s mod span l) in *.
      assert (0 ≤ i < 16) as Hi by nia. exists i. split; [|done]. rewrite (prefix_ok_lor (S l)) by done.
      destruct (index_high l i s') as [Hi1 Hs1]; [done..|]. fold (span l) in Hi1, Hs1.
      replace (i * span l + s') with s in Hi1, Hs1 by lia. rewrite ?get_0, ?get_S in Hg. rewrite Hi1 in Hg.
      destruct (children n !! i) as [c|] eqn:Hc; [|lia].
      apply IH; [lia|by apply prefix_ok_child|]. exists s'. rewrite span_S. split_and!; [lia|lia|nia| |done].
      rewrite <-Hg. apply get_suffix; [lia|done].
Qed.

Lemma bind_sorted {A} (f : Z → list A) (key : A → Z) (g : Z → Z) ixs :
  StronglySorted Z.lt ixs →
  (∀ i, i ∈ ixs → StronglySorted (λ x y, key x < key y) (f i)) →
  (∀ i x, i ∈ ixs → x ∈ f i → g i ≤ key x < g (i + 1)) →
  (∀ i j, i ≤ j → g i ≤ g j) →
  StronglySorted (λ x y, key x < key y) (ixs ≫= f).
Proof.
  intros Hs. induction Hs as [|i ixs Hs IH Hi]; intros Hf Hg Hmono; [constructor|]. simpl.
  assert (StronglySorted (λ x y, key x < key y) (ixs ≫= f)) as Hrest by (apply IH; set_solver).
  assert (∀ x y, x ∈ f i → y ∈ ixs ≫= f → key x < key y) as Hxy.
  { intros x y Hx (j&Hy&Hj)%list_elem_of_bind. rewrite Forall_forall in Hi. pose proof (Hi _ Hj).
    pose proof (Hg i x ltac:(set_solver) Hx). pose proof (Hg j y ltac:(set_solver) Hy).
    pose proof (Hmono (i + 1) j ltac:(lia)). lia. }
  pose proof (Hf i ltac:(set_solver)) as Hfi. clear -Hfi Hrest Hxy. induction Hfi as [|x xs Hxs IHx Hx]; [done|].
  simpl. constructor; [apply IHx; set_solver|]. apply Forall_app. split; [done|].
  apply Forall_forall. intros y Hy. apply Hxy; set_solver.
Qed.

Lemma slots_sorted : StronglySorted Z.lt slots.
Proof. repeat (constructor; [|repeat constructor]). constructor. Qed.

Lemma traverse_sorted l p n : (l < 16)%nat → prefix_ok l p →
  StronglySorted (λ x y, x.1 < y.1) (radix_traverse_node l p n).
Proof.
  revert p n. induction l as [|l IH]; intros p n Hl Hp; cbn [radix_traverse_node].
  - apply (bind_sorted _ fst (λ i, p * 16 + i)); [apply slots_sorted| | |lia].
    + intros i _. destruct (value_at n i); repeat constructor.
    + intros i x Hi%elem_slots Hx. rewrite (prefix_ok_lor 0) in Hx by done.
      destruct (value_at n i); [|set_solver]. apply list_elem_of_singleton in Hx as ->. simpl. lia.
  - pose proof (span_pos l). apply (bind_sorted _ fst (λ i, (p * 16 + i) * span l)); [apply slots_sorted| | |nia].
    + intros i Hi%elem_slots. rewrite (prefix_ok_lor (S l)) by done. destruct (children n !! i); [|constructor].
      apply IH; [lia|by apply prefix_ok_child].
    + intros i [va v] Hi%elem_slots Hx. rewrite (prefix_ok_lor (S l)) in Hx by done.
      destruct (children n !! i); [|set_solver].
      apply traverse_elem in Hx as (s&Hs&->&_); [|lia|by apply prefix_ok_child]. simpl. lia.
Qed.

(** ** The values below a node, in slot order *)

Fixpoint values_in (l : nat) : node l → list Z :=
  match l with
  | O => λ n, slots ≫= λ i, match value_at n i with Some v => [v] | None => [] end
  | S l' => λ n, slots ≫= λ i, match children n !! i with Some c => values_in l' c | None => [] end
  end.

(** The number of nodes of a tree. *)
Fixpoint nodes_in (l : nat) : node l → nat :=
  match l with
  | O => λ _, 1%nat
  | S l' => λ n, S (sum_list_with (λ i, match children n !! i with Some c => nodes_in l' c | None => 0%nat end) slots)
  end.

Lemma bind_fmap {A B} (g : A → B) (f : Z → list A) ixs : g <$> (ixs ≫= f) = ixs ≫= λ i, g <$> f i.
Proof. induction ixs as [|i ixs IH]; [done|]. by rewrite !bind_cons, fmap_app, IH. Qed.

Lemma bind_ext {A} (f g : Z → list A) ixs : (∀ i, f i = g i) → ixs ≫= f = ixs ≫= g.
Proof. intros H. induction ixs as [|i ixs IH]; [done|]. by rewrite !bind_cons, H, IH. Qed.

Lemma traverse_values l p n : (radix_traverse_node l p n).*2 = values_in l n.
Proof.
  revert p n. induction l as [|l IH]; intros p n; cbn [radix_traverse_node values_in]; rewrite bind_fmap; apply bind_ext; intros i.
  - by destruct (value_at n i).
  - destruct (children n !! i); [apply IH|done].
Qed.

Lemma checksum_values content l h n :
  radix_checksum_node content l h n = foldl (λ h v, hash_page h (content v)) h (values_in l n).
Proof.
  revert h n. induction l as [|l IH]; intros h n; cbn [radix_checksum_node values_in];
    revert h; induction slots as [|i ixs IHi]; intros h; try done; simpl; rewrite foldl_app, IHi; f_equal.
  - by destruct (value_at n i).
  - destruct (children n !! i); [apply IH|done].
Qed.

Lemma wp_for_each (f : Z → list Z) (g : Z → nat) body ixs e :
  (∀ i e, wp (body i) (λ _ e', e' = Env (kmem e) (deleted e ++ f i) (nfreed e + g i) (frames e) (fresh_pages e)) e) →
  wp (for_each ixs body) (λ _ e', e' = Env (kmem e) (deleted e ++ (ixs ≫= f)) (nfreed e + sum_list_with g ixs)
    (frames e) (fresh_pages e)) e.
Proof.
  intros Hb. revert e. induction ixs as [|i ixs IH]; intros e; cbn [for_each]; wp_seq.
  - destruct e. simpl. by rewrite app_nil_r, Nat.add_0_r.
  - eapply wp_mono; [apply Hb|]. simpl. intros _ e' ->. eapply wp_mono; [apply IH|]. simpl. intros _ e' ->.
    by rewrite (assoc (++)), Nat.add_assoc.
Qed.

Lemma wp_radix_free_node l del n e :
  wp (radix_free_node l del n) (λ _ e',
    e' = Env (kmem e) (deleted e ++ if del then values_in l n else []) (nfreed e + nodes_in l n) (frames e) (fresh_pages e)) e.
Proof.
  revert n e. induction l as [|l IH]; intros n e; cbn [radix_free_node values_in nodes_in]; wp_seq.
  - destruct del; cbn [when]; wp_seq.
    + eapply wp_mono; [apply (wp_for_each (λ i, match value_at n i with Some v => [v] | None => [] end) (λ _, 0%nat))|].
      * intros i e'. destruct (value_at n i); wp_seq; destruct e'; unfold add_deleted; simpl; by rewrite ?app_nil_r, Nat.add_0_r.
      * simpl. intros _ e' ->. wp_seq. unfold add_freed. simpl. f_equal. lia.
    + destruct e. unfold add_freed. simpl. rewrite app_nil_r. f_equal. lia.
  - eapply wp_mono; [apply (wp_for_each
      (λ i, if del then match children n !! i with Some c => values_in l c | None => [] end else [])
      (λ i, match children n !! i with Some c => nodes_in l c | None => 0%nat end))|].
    + intros i e'. destruct (children n !! i) as [c|]; [apply IH|]. wp_seq. destruct e'. simpl.
      rewrite Nat.add_0_r. by destruct del; rewrite app_nil_r.
    + simpl. intros _ e' ->. wp_seq. unfold add_freed. simpl. destruct del.
      * f_equal. lia.
      * replace (slots ≫= λ _, []) with (@nil Z) by (by induction slots). f_equal. lia.
Qed.

(** ** Copies *)

Definition val (n : node 0) (i : Z) : Z := default 0 (values n !! i).
Definition val_list (n : node 0) (i : Z) : list Z := match value_at n i with Some v => [v] | None => [] end.

(** [dv] is the copy of [sv]: the same page, or a new page with the same
    contents. *)
Definition val_copied (phy_alloc : bool) (e e' : env) (sv dv : Z) : Prop :=
  (sv = 0 ∧ dv = 0) ∨
  (sv ≠ 0 ∧ dv ≠ 0 ∧
   if phy_alloc then frames e !! dv = None ∧ ∃ page, frames e !! sv = Some page ∧ frames e' !! dv = Some page
   else dv = sv).

(** Enough pages to copy [vs], none of them in use. *)
Definition pages_ok (phy_alloc : bool) (e : env) (vs : list Z) : Prop :=
  phy_alloc = true →
  (length vs ≤ length (fresh_pages e))%nat ∧ NoDup (fresh_pages e) ∧
  (∀ p, p ∈ fresh_pages e → p ≠ 0 ∧ frames e !! p = None) ∧ (∀ v, v ∈ vs → is_Some (frames e !! v)).

Lemma val_copied_mono phy e0 e1 e2 e3 sv dv :
  frames e0 ⊆ frames e1 → frames e2 ⊆ frames e3 → (phy = true → sv ≠ 0 → is_Some (frames e0 !! sv)) →
  val_copied phy e1 e2 sv dv → val_copied phy e0 e3 sv dv.
Proof.
  intros H01 H23 Hsv [?|(Hs&Hd&H)]; [by left|right]. split_and!; [done..|]. destruct phy; [|done].
  destruct H as (Hn&page&Hp&Hp'). split; [by eapply lookup_weaken_None|].
  destruct (Hsv eq_refl Hs) as [page' Hpage']. exists page.
  pose proof (lookup_weaken _ _ _ _ Hpage' H01). split; [congruence|by eapply lookup_weaken].
Qed.

Lemma pages_ok_app phy e vs ws : pages_ok phy e (vs ++ ws) → pages_ok phy e ws ∧ pages_ok phy e vs.
Proof.
  intros H. split; intros Hphy; destruct (H Hphy) as (Hl&?&?&Hv); rewrite length_app in Hl;
    (split_and!; [lia|done|done|]); set_solver.
Qed.

Lemma pages_ok_kmem phy e vs m : pages_ok phy e vs → pages_ok phy (set_kmem m e) vs.
Proof. done. Qed.

Lemma pages_ok_src phy e vs v : pages_ok phy e vs → v ∈ vs → phy = true → is_Some (frames e !! v).
Proof. intros H Hv Hphy. by apply (H Hphy). Qed.

Lemma val_value_at n i : value_at n i = None ↔ val n i = 0.
Proof.
  pose proof (value_at_spec n i) as Hs. unfold val in *. destruct (value_at n i) as [v|] eqn:Hv.
  - destruct (proj1 (Hs v) eq_refl). naive_solver.
  - split; [|done]. intros _. destruct (decide (default 0 (values n !! i) = 0)) as [|Hne]; [done|].
    by pose proof (proj2 (Hs _) (conj eq_refl Hne)).
Qed.

Lemma val_insert n i v j : val (mk_leaf (<[i := v]> (values n))) j = if decide (j = i) then v else val n j.
Proof.
  unfold val, values, mk_leaf. case_decide as Hj; [by rewrite Hj, lookup_insert_eq|]. by rewrite lookup_insert_ne.
Qed.

Lemma wp_copy_slot phy src i dst e rest :
  val dst i = 0 → pages_ok phy e (val_list src i ++ rest) →
  wp (copy_slot phy src i dst) (λ d e', frames e ⊆ frames e' ∧ pages_ok phy e' rest ∧
    val_copied phy e e' (val src i) (val d i) ∧ (∀ j, j ≠ i → val d j = val dst j) ∧ kmem e' = kmem e) e.
Proof.
  intros Hd Hp. unfold copy_slot. rewrite (proj2 (val_value_at dst i) Hd). unfold val_list in Hp.
  destruct (value_at src i) as [sv|] eqn:Hs.
  2: { wp_seq. apply val_value_at in Hs. split_and!; [done|done|by left|done|done]. }
  apply value_at_spec in Hs as [Hs Hnz]. fold (val src i) in Hs. rewrite Hs.
  destruct phy; wp_seq.
  2: { split_and!; [done|by apply pages_ok_app in Hp as [? _]| | |done]; [rewrite val_insert, decide_True by done; by right|].
       intros j Hj. by rewrite val_insert, decide_False. }
  destruct (Hp eq_refl) as (Hlen&Hnd&Hfresh&Hv). unfold get_pages. wp_seq.
  destruct e as [km dl nf fr [|p ps]]; simpl in *; [lia|]. wp_seq.
  destruct (Hfresh p ltac:(set_solver)) as [Hp0 Hpn]. destruct (Hv sv ltac:(set_solver)) as [page Hpage].
  apply NoDup_cons in Hnd as [Hpps Hnd].
  apply wp_bug_on; [by apply bool_decide_eq_false|]. unfold pagecpy. wp_seq. simpl.
  eapply wp_from_opt; [done|]. wp_seq. simpl. split_and!.
  - by apply insert_subseteq.
  - intros _. simpl. split_and!; [lia|done| |].
    + intros q Hq. rewrite lookup_insert_ne by set_solver. apply Hfresh. set_solver.
    + intros v Hv'. rewrite lookup_insert_is_Some. destruct (decide (p = v)); [by left|right]. split; [done|].
      apply Hv. set_solver.
  - right. rewrite val_insert, decide_True by done. split_and!; [done|done|done|]. exists page. simpl.
    by rewrite lookup_insert_eq.
  - intros j Hj. by rewrite val_insert, decide_False.
  - done.
Qed.

Lemma wp_copy_leaf phy src ixs dst e rest :
  NoDup ixs → (∀ i, i ∈ ixs → val dst i = 0) → pages_ok phy e ((ixs ≫= val_list src) ++ rest) →
  wp (copy_leaf phy src ixs dst) (λ d e', frames e ⊆ frames e' ∧ pages_ok phy e' rest ∧
    (∀ i, i ∈ ixs → val_copied phy e e' (val src i) (val d i)) ∧ (∀ j, j ∉ ixs → val d j = val dst j) ∧ kmem e' = kmem e) e.
Proof.
  intros Hnd. revert dst e. induction Hnd as [|i ixs Hi Hnd IH]; intros dst e Hd Hp; cbn [copy_leaf]; wp_seq.
  - split_and!; [done|done|set_solver|done|done].
  - rewrite bind_cons, <-(assoc (++)) in Hp.
    eapply wp_mono; [apply wp_copy_slot with (rest := (ixs ≫= val_list src) ++ rest); [apply Hd; set_solver|done]|].
    simpl. intros d1 e1 (Hf1&Hp1&Hc1&Ho1&Hk1).
    eapply wp_mono; [apply IH; [|done]|].
    { intros j Hj. rewrite Ho1 by set_solver. apply Hd. set_solver. }
    simpl. intros d2 e2 (Hf2&Hp2&Hc2&Ho2&Hk2). split_and!; [by etrans|done| | |congruence].
    + intros j [-> | Hj]%elem_of_cons.
      * rewrite Ho2 by done. eapply (val_copied_mono _ e e e1 e2); [done|done| |done]. intros Hphy Hnz.
        eapply pages_ok_src; [exact Hp| |done]. apply elem_of_app. left. unfold val_list.
        rewrite (proj2 (value_at_spec src i (val src i)) (conj eq_refl Hnz)). set_solver.
      * eapply (val_copied_mono _ e e1 e2 e2); [exact Hf1|done| |by apply Hc2]. intros Hphy Hnz.
        eapply pages_ok_src; [exact Hp| |done]. apply elem_of_app. right. apply elem_of_app. left.
        apply list_elem_of_bind. exists j. split; [|done]. unfold val_list.
        rewrite (proj2 (value_at_spec src j (val src j)) (conj eq_refl Hnz)). set_solver.
    + intros j Hj. rewrite Ho2, Ho1 by set_solver. done.
Qed.

(** The value a key has is one of the values below the node. *)
Lemma get_in_values l k n : (l < 16)%nat → get_loop l k n ≠ 0 → get_loop l k n ∈ values_in l n.
Proof.
  intros Hl Hnz. rewrite <-(traverse_values l 0 n).
  apply list_elem_of_fmap. exists (suffix l k, get_loop l k n). split; [done|].
  apply traverse_elem; [done| |].
  - split_and!; [done|done|]. rewrite Z.mul_1_l. unfold span. change (2 ^ 64) with (16 ^ 16). apply Z.pow_le_mono_r; lia.
  - exists (suffix l k). split_and!; [apply suffix_range..|lia| |done].
    apply get_suffix; [done|]. unfold suffix. apply Z.mod_mod. lia.
Qed.

Definition child_values {l} (n : node (S l)) (i : Z) : list Z :=
  match children n !! i with Some c => values_in l c | None => [] end.

Lemma get_inner_insert l k i (c : node l) (n : node (S l)) :
  get_loop (S l) k (mk_inner (<[i := c]> (children n))) =
  if decide (index k (S l) = i) then get_loop l k c else get_loop (S l) k n.
Proof. apply get_insert. Qed.

(** The memory a copy needs, and that what is left is left. *)
Definition enough (need : nat) (err : Z) (e e' : env) : Prop :=
  ∀ m, plenty (need + m) e → err = 0 ∧ plenty m e'.

(** The number of nodes below slot [i]. *)
Definition child_nodes {l} (n : node (S l)) (i : Z) : nat :=
  match children n !! i with Some c => nodes_in l c | None => 0%nat end.

(** [rec] copies a child to a node of zeros. *)
Definition copies (phy : bool) (l : nat) (rec : node l → node l → M env (Z * node l)) : Prop :=
  ∀ src e rest, pages_ok phy e (values_in l src ++ rest) →
  wp (rec src (zero_node l)) (λ '(err, d) e', frames e ⊆ frames e' ∧ enough (pred (nodes_in l src)) err e e' ∧
    (err = 0 ∧ pages_ok phy e' rest ∧ (∀ k, val_copied phy e e' (get_loop l k src) (get_loop l k d)) ∨
     err = - ENOMEM)) e.

(** What the loop over the children has done. *)
Definition children_copied (phy : bool) {l} (src dst : node (S l)) (ixs : list Z) (rest : list Z)
    (e : env) (err : Z) (d : node (S l)) (e' : env) : Prop :=
  frames e ⊆ frames e' ∧ enough (sum_list_with (child_nodes src) ixs) err e e' ∧
  (err = 0 ∧ pages_ok phy e' rest ∧
   (∀ k, index k (S l) ∈ ixs → is_Some (children src !! index k (S l)) →
      val_copied phy e e' (get_loop (S l) k src) (get_loop (S l) k d)) ∧
   (∀ k, index k (S l) ∉ ixs ∨ children src !! index k (S l) = None → get_loop (S l) k d = get_loop (S l) k dst) ∨
   err = - ENOMEM).

Lemma nodes_in_pos l n : (0 < nodes_in l n)%nat.
Proof. destruct l; simpl; lia. Qed.

Lemma children_copied_cons phy l (src dst : node (S l)) i ixs rest e c d1 e1 err d2 e2 :
  (S l < 16)%nat → i ∉ ixs → children src !! i = Some c →
  pages_ok phy e (values_in l c ++ (ixs ≫= child_values src) ++ rest) →
  frames e ⊆ frames e1 → enough (nodes_in l c) 0 e e1 →
  (∀ k, val_copied phy e e1 (get_loop l k c) (get_loop l k d1)) →
  children_copied phy src (mk_inner (<[i := d1]> (children dst))) ixs rest e1 err d2 e2 →
  children_copied phy src dst (i :: ixs) rest e err d2 e2.
Proof.
  intros Hl Hi Hc Hp Hf1 Hn1 Hk1 (Hf2&Hn2&H). split; [by etrans|]. split.
  { intros m HP. simpl in HP. unfold child_nodes in HP at 1. rewrite Hc, <-Nat.add_assoc in HP. by apply Hn2, Hn1. }
  destruct H as [(->&Hp2&Hk2&Ho2)| ->]; [left|by right]. split_and!; [done|done| |].
  - intros k [Hki|Hin]%elem_of_cons Hs.
    + rewrite Ho2 by (left; by rewrite Hki). rewrite get_inner_insert, decide_True by done.
      rewrite (get_S l k src), Hki, Hc. eapply (val_copied_mono _ e e e1 e2); [done|done| |apply Hk1].
      intros Hphy Hnz. eapply pages_ok_src; [exact Hp| |done]. apply elem_of_app. left. apply get_in_values; [lia|done].
    + eapply (val_copied_mono _ e e1 e2 e2); [done|done| |by apply Hk2].
      intros Hphy Hnz. eapply pages_ok_src; [exact Hp| |done]. apply elem_of_app. right. apply elem_of_app. left.
      apply list_elem_of_bind. exists (index k (S l)). split; [|done]. rewrite get_S in *. unfold child_values.
      destruct Hs as [c' Hs]. rewrite Hs in *. apply get_in_values; [lia|done].
  - intros k Hk. rewrite Ho2 by (set_solver). rewrite get_inner_insert, decide_False; [done|].
    destruct Hk as [Hk|Hk]; [set_solver|congruence].
Qed.

Lemma wp_copy_children phy l rec (src : node (S l)) ixs dst e rest :
  (S l < 16)%nat → copies phy l rec → NoDup ixs → pages_ok phy e ((ixs ≫= child_values src) ++ rest) →
  wp (copy_children rec src ixs dst) (λ '(err, d) e', children_copied phy src dst ixs rest e err d e') e.
Proof.
  intros Hl Hrec Hnd. revert dst e. induction Hnd as [|i ixs Hi Hnd IH]; intros dst e Hp; cbn [copy_children].
  { wp_seq. split_and!; [done|done|]. left. split_and!; [done|done|set_solver|done]. }
  rewrite bind_cons, <-(assoc (++)) in Hp. unfold child_values at 1 in Hp.
  destruct (children src !! i) as [c|] eqn:Hc.
  2: { eapply wp_mono; [by apply IH|]. intros [err d] e' (Hf&Hn&H). split; [done|]. split.
       { intros m HP. apply Hn. simpl in HP. unfold child_nodes in HP at 1. by rewrite Hc in HP. }
       destruct H as [(->&Hp'&Hk&Ho)| ->]; [left|by right]. split_and!; [done|done| |]; intros k Hin.
       - intros [x Hx]. apply Hk; [|by eexists]. apply elem_of_cons in Hin as [He|]; [congruence|done].
       - apply Ho. set_solver. }
  assert (sum_list_with (child_nodes src) (i :: ixs) = nodes_in l c + sum_list_with (child_nodes src) ixs)%nat as Hsum
    by (simpl; unfold child_nodes at 1; by rewrite Hc).
  pose proof (nodes_in_pos l c) as Hpos.
  wp_seq. eapply wp_mono; [apply wp_new_radix_node|]. simpl. intros o e1 (->&[-> | ->]&Hpl).
  { wp_seq. split_and!; [done| |by right]. intros m HP. rewrite Hsum in HP.
    apply (kmem_plenty_le 1) in HP; [|lia]. by destruct (Hpl 0%nat HP). }
  wp_seq. eapply wp_mono; [by apply Hrec, pages_ok_kmem|]. intros [err d1] e1 (Hf1&Hn1&Hr). cbv beta iota.
  assert (enough (nodes_in l c) err e e1) as Hn1'.
  { intros m HP. apply Hn1. destruct (nodes_in l c); [lia|]. by apply Hpl. }
  destruct Hr as [(->&Hp1&Hk1)| ->].
  - rewrite bool_decide_eq_true_2 by done. eapply wp_mono; [by apply IH|].
    intros [err d2] e2 H. by eapply children_copied_cons.
  - rewrite bool_decide_eq_false_2 by done. wp_seq. split_and!; [done| |by right].
    intros m HP. rewrite Hsum, <-Nat.add_assoc in HP. by destruct (Hn1' _ HP).
Qed.

Lemma NoDup_slots : NoDup slots.
Proof. apply NoDup_seqZ. Qed.

Lemma copies_node phy l : (l < 16)%nat → copies phy l (radix_deep_copy_node phy l).
Proof.
  induction l as [|l IH]; intros Hl src e rest Hp; cbn [radix_deep_copy_node].
  - wp_seq. eapply wp_mono; [apply wp_copy_leaf with (rest := rest); [apply NoDup_slots| |done]|].
    { intros i _. change (default 0 ((∅ : gmap Z Z) !! i) = 0). by rewrite lookup_empty. }
    simpl. intros d e' (Hf&Hp'&Hv&_&Hk). wp_seq. split_and!; [done| |].
    { intros m HP. unfold plenty in *. by rewrite Hk. }
    left. split_and!; [done|done|]. intros k. rewrite !get_0. apply Hv, elem_slots, index_range. done.
  - eapply wp_mono; [apply wp_copy_children with (phy := phy) (rest := rest); [done|apply IH; lia|apply NoDup_slots|done]|].
    intros [err d] e' (Hf&Hn&H). split; [done|]. split; [done|].
    destruct H as [(->&Hp'&Hk&Ho)| ->]; [left|by right].
    split_and!; [done|done|]. intros k.
    destruct (children src !! index k (S l)) as [c|] eqn:Hc.
    + apply Hk; [apply elem_slots, index_range; done|by eexists].
    + rewrite Ho, get_zero_node by auto. rewrite get_S, Hc. by left.
Qed.

(** ** Claims *)

#[local] Arguments radix_traverse_node : simpl never.
#[local] Arguments radix_free_node : simpl never.
#[local] Arguments radix_deep_copy_node : simpl never.
#[local] Arguments values_in : simpl never.
#[local] Arguments nodes_in : simpl never.

(** A tree with two keys, for the examples. *)
Definition env0 : env := Env (replicate 64 true) [] 0 (<[77 := [1; 2]]> (<[88 := [3]]> ∅)) [4096; 8192; 12288].
Definition radix0 : radix := Radix RNull false true.
Definition stored (r : radix) (key value : Z) : radix :=
  match radix_add r key value env0 with Ret ((_, r'), _) => r' | Halt _ => r end.
Definition radix2 : radix := stored (stored radix0 0x123 77) 0x2000000000000001 88.

(** C24: the radix tree is a map on 64-bit keys.  [radix_add] returns 0 and stores
    the value, leaving every other key alone, or runs out of memory, returns
    [-ENOMEM] and leaves every key alone; 16 successful allocations always suffice.
    [radix_get] returns what was stored last.  The lock is free afterwards. *)
Theorem radix_map_correct r key value e :
  usable r → 0 ≤ key < 2 ^ 64 →
  wp (radix_add r key value) (λ '(ret, r') e', usable r' ∧ (ret = 0 ∨ ret = - ENOMEM) ∧ (plenty 16 e → ret = 0) ∧
    ∀ k e2, 0 ≤ k < 2 ^ 64 →
      wp (radix_get r' k) (λ '(v, r2) _,
        v = (if decide (ret = 0 ∧ k = key) then value else mapping r k) ∧ r2 = r') e2) e.
Proof.
  intros Hu Hkey. eapply wp_mono; [by apply wp_radix_add|]. intros [ret r'] e' (Hu'&_&_&Ha&Hp).
  split_and!; [exact Hu'|destruct Ha as [[-> _]|[-> _]]; auto|done|].
  intros k e2 Hk. eapply wp_mono; [by apply wp_radix_get|]. intros [v r2] e3 (->&->&_). split; [|done].
  destruct Ha as [[-> Ha]|[-> Ha]]; rewrite Ha by done.
  - destruct (decide (k = key)); [rewrite decide_True|rewrite decide_False]; naive_solver.
  - rewrite decide_False; [done|]. by intros [? _].
Qed.

Lemma radix_map_correct_witness :
  wp (radix_add radix2 7 99) (λ '(ret, r') e', usable r' ∧ (ret = 0 ∨ ret = - ENOMEM) ∧ (plenty 16 env0 → ret = 0) ∧
    ∀ k e2, 0 ≤ k < 2 ^ 64 →
      wp (radix_get r' k) (λ '(v, r2) _,
        v = (if decide (ret = 0 ∧ k = 7) then 99 else mapping radix2 k) ∧ r2 = r') e2) env0.
Proof. apply radix_map_correct; [|done]. split; [vm_compute; done|vm_compute; discriminate]. Defined.

(** [radix_traverse] calls its function exactly on the keys that have a
    value, with that value, in strictly increasing key order, and leaves the tree
    unlocked and unchanged. *)
Theorem radix_traverse_correct r e :
  usable r →
  wp (radix_traverse r) (λ '(calls, r') e', r' = r ∧ e' = e ∧
    StronglySorted (λ x y, x.1 < y.1) calls ∧
    ∀ va v, (va, v) ∈ calls ↔ 0 ≤ va < 2 ^ 64 ∧ mapping r va = v ∧ v ≠ 0) e.
Proof.
  intros [Hl Hr]. unfold radix_traverse, lock, mapping. rewrite Hl. wp_seq. cbn [root set_locked].
  destruct r as [[| |n] lk d]; cbn [root locked] in *; subst; [|done|]; wp_seq.
  - split_and!; [done|done|constructor|]. intros va v. split; [intros ?%not_elem_of_nil; done|naive_solver].
  - assert (prefix_ok 15 0) as Hp by (split_and!; [done|done|by vm_compute]).
    split_and!; [done|done|by apply traverse_sorted; [lia|]|]. intros va v.
    rewrite traverse_elem by (done || lia). change (span 15) with (2 ^ 64). naive_solver.
Qed.

Lemma radix_traverse_correct_witness :
  wp (radix_traverse radix2) (λ '(calls, r') e', r' = radix2 ∧ e' = env0 ∧
    StronglySorted (λ x y, x.1 < y.1) calls ∧
    ∀ va v, (va, v) ∈ calls ↔ 0 ≤ va < 2 ^ 64 ∧ mapping radix2 va = v ∧ v ≠ 0) env0.
Proof. apply radix_traverse_correct. split; [vm_compute; done|vm_compute; discriminate]. Defined.

(** [radix_free] on a tree gives every value to the deleter exactly once, in
    key order (the order of [radix_traverse]), and frees every node once; without
    a deleter it only frees the nodes.  On a tree without a root it returns
    [-EINVAL] and keeps the lock, so that the next [radix_get] spins for ever. *)
Theorem radix_free_correct r e :
  usable r →
  wp (radix_free r) (λ '(ret, o) e',
    match root r with
    | RNode n => ret = 0 ∧ o = None ∧ nfreed e' = (nfreed e + nodes_in 15 n)%nat ∧
        deleted e' = deleted e ++ if value_deleter r then (radix_traverse_node 15 0 n).*2 else []
    | _ => ret = - EINVAL ∧ e' = e ∧ ∃ r', o = Some r' ∧ ∀ key, radix_get r' key e' = Halt Spins
    end) e.
Proof.
  intros [Hl Hr]. unfold radix_free, lock. rewrite Hl. wp_seq. cbn [root set_locked].
  destruct (root r) as [| |n] eqn:Hroot; [|done|].
  - wp_seq. split_and!; [done|done|]. by eexists.
  - wp_seq. eapply wp_mono; [apply wp_radix_free_node|]. intros [] e' ->. wp_seq. cbn.
    by rewrite traverse_values.
Qed.

Lemma radix_free_correct_witness :
  wp (radix_free radix2) (λ '(ret, o) e',
    match root radix2 with
    | RNode n => ret = 0 ∧ o = None ∧ nfreed e' = (nfreed env0 + nodes_in 15 n)%nat ∧
        deleted e' = deleted env0 ++ if value_deleter radix2 then (radix_traverse_node 15 0 n).*2 else []
    | _ => ret = - EINVAL ∧ e' = env0 ∧ ∃ r', o = Some r' ∧ ∀ key, radix_get r' key e' = Halt Spins
    end) env0.
Proof. apply radix_free_correct. split; [vm_compute; done|vm_compute; discriminate]. Defined.

(** [radix_checksum] is the hash of the pages in key order. *)
Theorem radix_checksum_correct content r n :
  root r = RNode n →
  radix_checksum content r = Ret (foldl (λ h v, hash_page h (content v)) 0 (radix_traverse_node 15 0 n).*2).
Proof. intros Hr. unfold radix_checksum. by rewrite Hr, checksum_values, traverse_values. Qed.

Lemma radix_checksum_correct_witness :
  radix_checksum (λ _, [1]) (Radix (RNode (zero_node 15)) false false) =
  Ret (foldl (λ h v, hash_page h [1]) 0 (radix_traverse_node 15 0 (zero_node 15)).*2).
Proof. by apply (radix_checksum_correct (λ _, [1]) (Radix (RNode (zero_node 15)) false false)). Defined.

(** [radix_deep_copy] to a tree without a root.  When it returns 0, every
    key has in the copy the same page (without [phy_alloc]), or a page that was
    not in use, with the same contents (with [phy_alloc]).  It returns 0 whenever
    there is memory for the nodes of the tree, and never stops when there are
    enough free pages. *)
Theorem radix_deep_copy_correct phy src dst n e :
  usable src → root src = RNode n → root dst = RNull → pages_ok phy e (values_in 15 n) → plenty 1 e →
  wp (radix_deep_copy src dst phy) (λ '(r, (src', dst')) e', src' = src ∧
    (plenty (nodes_in 15 n) e → r = 0) ∧
    (r = 0 ∧ (∀ k, val_copied phy e e' (mapping src k) (mapping dst' k)) ∨ r = - ENOMEM)) e.
Proof.
  intros [Hl _] Hs Hd Hp H1. unfold radix_deep_copy, lock, mapping. rewrite Hl. wp_seq.
  cbn [root set_locked]. rewrite Hs, Hd. wp_seq. eapply wp_mono; [apply wp_new_radix_node|].
  intros o e1 (->&_&Hpl). destruct (Hpl 0%nat H1) as [-> _]. cbv beta iota. wp_seq.
  eapply wp_mono; [apply (copies_node phy 15) with (rest := []); [lia|by rewrite app_nil_r]|].
  intros [r dn] e2 (Hf&Hn&H). wp_seq. split_and!.
  - destruct src. cbn in *. by subst.
  - intros HP. apply (Hn 0%nat). rewrite Nat.add_0_r. apply Hpl.
    pose proof (nodes_in_pos 15 n). by replace (S (pred (nodes_in 15 n))) with (nodes_in 15 n) by lia.
  - destruct H as [(->&_&Hk)| ->]; [left|by right]. split; [done|]. intros k. cbn [root set_root]. apply Hk.
Qed.

(** The root of a tree, for examples. *)
Definition root_node (r : radix) : node 15 := match root r with RNode n => n | _ => zero_node 15 end.

Lemma radix_deep_copy_correct_witness :
  wp (radix_deep_copy radix2 radix0 true) (λ '(r, (src', dst')) e', src' = radix2 ∧
    (plenty (nodes_in 15 (root_node radix2)) env0 → r = 0) ∧
    (r = 0 ∧ (∀ k, val_copied true env0 e' (mapping radix2 k) (mapping dst' k)) ∨ r = - ENOMEM)) env0.
Proof.
  apply (radix_deep_copy_correct true radix2 radix0 (root_node radix2) env0).
  - split; [vm_compute; done|vm_compute; discriminate].
  - vm_compute. done.
  - done.
  - intros _. replace (values_in 15 (root_node radix2)) with [77; 88] by (vm_compute; done).
    split_and!; [simpl; lia| | |].
    + apply (bool_decide_unpack _). vm_compute. done.
    + intros p Hp. apply list_elem_of_In in Hp. simpl in Hp. destruct Hp as [<-|[<-|[<-|[]]]]; split; vm_compute; done.
    + intros v Hv. apply list_elem_of_In in Hv. simpl in Hv. destruct Hv as [<-|[<-|[]]]; eexists; vm_compute; done.
  - vm_compute. done.
Defined.

(** [radix_complex_traverse] does not search the tree: its intermediate
    levels return the result of the first child, so a match in any later subtree
    is missed.  Here the callback accepts the page of a key that is present, and
    the search still returns [NULL]. *)
Theorem radix_complex_traverse_misses :
  let fn := λ va pa : Z, if bool_decide (pa = 88) then va else 0 in
  mapping radix2 0x2000000000000001 = 88 ∧ fn 0x2000000000000001 88 ≠ 0 ∧
  radix_complex_traverse radix2 fn env0 = Ret ((0, radix2), env0).
Proof. split_and!; [vm_compute; done|done|vm_compute; done]. Qed.
