(* ===== verification/Sched.v ===== *)
(** The scheduler core ([kernel/sched/sched.c]) and its two policies: round robin
    ([policy_rr.c], the default) and priority-based round robin
    ([policy_pbrr.c], for the real-time configuration).

    [sched] is the state that the functions share: the thread table, the ready
    queues of both policies, the queues shared between machines, the per-CPU
    current threads and the interrupts sent to other CPUs.  A ready queue is the
    sequence of the threads linked on its list head; the queue locks are held for
    whole operations, so an operation is one step.  [config] is what the code
    reads but does not change: the CPU it runs on and the layout of the cluster.
    Register, TLS and FPU contents are not modelled, the ownership of the FPU is. *)
From S2P Require Import Prelude Words.

(** ** Data *)

Definition EINVAL : Z := 22.
Definition ENOMEM : Z := 12.
Definition NO_AFF : Z := -1.
(** [NO_AFF] in an unsigned field *)
Definition NO_AFF_u32 : Z := 2 ^ 32 - 1.
Definition PLAT_CPU_NUM : Z := 12.
Definition MAX_PRIO : Z := 255.
Definition PRIO_NUM : Z := MAX_PRIO + 1.
Definition IDLE_PRIO : Z := 0.
Definition DEFAULT_BUDGET : Z := 1.
Definition MAX_SCHED_HISTORY : Z := 128.

Inductive thread_state : Set :=
  TS_INIT | TS_READY | TS_INTER | TS_TO_SCHED | TS_RUNNING | TS_EXIT | TS_WAITING | TS_WAITING_IPC.
Inductive thread_exit_state : Set :=
  TE_RUNNING | TE_EXITING | TE_EXITED | TE_MIGRATING | TE_STOPPING | TE_STOPPED.
Inductive thread_type : Set :=
  TYPE_IDLE | TYPE_KERNEL | TYPE_USER | TYPE_SHADOW | TYPE_REGISTER | TYPE_TESTS | TYPE_SERVICES.
Inductive prev : Set := PrevNull | THREAD_ITSELF | PrevThread (p : Z).

#[export] Instance thread_state_dec : EqDecision thread_state.
Proof. solve_decision. Defined.
#[export] Instance thread_exit_state_dec : EqDecision thread_exit_state.
Proof. solve_decision. Defined.
#[export] Instance thread_type_dec : EqDecision thread_type.
Proof. solve_decision. Defined.

Record sched_history := Hist { cpu_history : gmap Z Z; history_count : Z; history_index : Z }.

(** [struct thread] and [struct thread_ctx]; [budget] is [None] for a thread
    without scheduling context, [bridge] says that the object is a
    [DSM_TYPE_THREAD_NOTIFY_BRIDGE]. *)
Record thread := Thread {
  type : thread_type; state : thread_state; exit_state : thread_exit_state;
  prio : Z; affinity : Z; cpuid : Z; queue_cpuid : Z; ks_locked : bool;
  budget : option Z; is_fpu_owner : Z; machine_id : Z; bridge : bool;
  prev_thread : prev; history : sched_history
}.

Definition set_state x t := Thread (type t) x (exit_state t) (prio t) (affinity t) (cpuid t) (queue_cpuid t) (ks_locked t) (budget t) (is_fpu_owner t) (machine_id t) (bridge t) (prev_thread t) (history t).
Definition set_exit_state x t := Thread (type t) (state t) x (prio t) (affinity t) (cpuid t) (queue_cpuid t) (ks_locked t) (budget t) (is_fpu_owner t) (machine_id t) (bridge t) (prev_thread t) (history t).
Definition set_cpuid x t := Thread (type t) (state t) (exit_state t) (prio t) (affinity t) x (queue_cpuid t) (ks_locked t) (budget t) (is_fpu_owner t) (machine_id t) (bridge t) (prev_thread t) (history t).
Definition set_queue_cpuid x t := Thread (type t) (state t) (exit_state t) (prio t) (affinity t) (cpuid t) x (ks_locked t) (budget t) (is_fpu_owner t) (machine_id t) (bridge t) (prev_thread t) (history t).
Definition set_ks_locked x t := Thread (type t) (state t) (exit_state t) (prio t) (affinity t) (cpuid t) (queue_cpuid t) x (budget t) (is_fpu_owner t) (machine_id t) (bridge t) (prev_thread t) (history t).
Definition set_budget x t := Thread (type t) (state t) (exit_state t) (prio t) (affinity t) (cpuid t) (queue_cpuid t) (ks_locked t) x (is_fpu_owner t) (machine_id t) (bridge t) (prev_thread t) (history t).
Definition set_fpu_owner x t := Thread (type t) (state t) (exit_state t) (prio t) (affinity t) (cpuid t) (queue_cpuid t) (ks_locked t) (budget t) x (machine_id t) (bridge t) (prev_thread t) (history t).
Definition set_machine_id x t := Thread (type t) (state t) (exit_state t) (prio t) (affinity t) (cpuid t) (queue_cpuid t) (ks_locked t) (budget t) (is_fpu_owner t) x (bridge t) (prev_thread t) (history t).
Definition set_prev_thread x t := Thread (type t) (state t) (exit_state t) (prio t) (affinity t) (cpuid t) (queue_cpuid t) (ks_locked t) (budget t) (is_fpu_owner t) (machine_id t) (bridge t) x (history t).
Definition set_history x t := Thread (type t) (state t) (exit_state t) (prio t) (affinity t) (cpuid t) (queue_cpuid t) (ks_locked t) (budget t) (is_fpu_owner t) (machine_id t) (bridge t) (prev_thread t) x.

Record queue_meta := QMeta { queue : list Z; queue_len : Z }.

Record prio_bitmap := PBitmap { bitmap_lvl0 : Z; bitmap_lvl1 : list Z }.
Record pbrr_ready_queue := PQueue { queues : gmap Z (list Z); bitmap : prio_bitmap }.

(** [threads] by pointer (the pointer of [&idle_threads[i]] is [i]); [kicks] and
    [msis] are the interrupts sent to CPUs of this and of other machines. *)
Record sched := Sched {
  threads : gmap Z thread; rr_ready_queue_meta : gmap Z queue_meta; shared_queue : gmap Z (list Z);
  current_threads : gmap Z Z; fpu_owner : gmap Z Z;
  resched_bitmaps : gmap Z Z; pending_remote_resched : gmap Z Z; resched_flags : gmap Z bool;
  kicks : list Z; msis : list Z; pbrr_ready_queues : gmap Z pbrr_ready_queue
}.

Definition set_threads x s := Sched x (rr_ready_queue_meta s) (shared_queue s) (current_threads s) (fpu_owner s) (resched_bitmaps s) (pending_remote_resched s) (resched_flags s) (kicks s) (msis s) (pbrr_ready_queues s).
Definition set_rr x s := Sched (threads s) x (shared_queue s) (current_threads s) (fpu_owner s) (resched_bitmaps s) (pending_remote_resched s) (resched_flags s) (kicks s) (msis s) (pbrr_ready_queues s).
Definition set_shared x s := Sched (threads s) (rr_ready_queue_meta s) x (current_threads s) (fpu_owner s) (resched_bitmaps s) (pending_remote_resched s) (resched_flags s) (kicks s) (msis s) (pbrr_ready_queues s).
Definition set_current x s := Sched (threads s) (rr_ready_queue_meta s) (shared_queue s) x (fpu_owner s) (resched_bitmaps s) (pending_remote_resched s) (resched_flags s) (kicks s) (msis s) (pbrr_ready_queues s).
Definition set_fpu x s := Sched (threads s) (rr_ready_queue_meta s) (shared_queue s) (current_threads s) x (resched_bitmaps s) (pending_remote_resched s) (resched_flags s) (kicks s) (msis s) (pbrr_ready_queues s).
Definition set_resched_bitmaps x s := Sched (threads s) (rr_ready_queue_meta s) (shared_queue s) (current_threads s) (fpu_owner s) x (pending_remote_resched s) (resched_flags s) (kicks s) (msis s) (pbrr_ready_queues s).
Definition set_pending_remote x s := Sched (threads s) (rr_ready_queue_meta s) (shared_queue s) (current_threads s) (fpu_owner s) (resched_bitmaps s) x (resched_flags s) (kicks s) (msis s) (pbrr_ready_queues s).
Definition set_resched_flags x s := Sched (threads s) (rr_ready_queue_meta s) (shared_queue s) (current_threads s) (fpu_owner s) (resched_bitmaps s) (pending_remote_resched s) x (kicks s) (msis s) (pbrr_ready_queues s).
Definition set_kicks x s := Sched (threads s) (rr_ready_queue_meta s) (shared_queue s) (current_threads s) (fpu_owner s) (resched_bitmaps s) (pending_remote_resched s) (resched_flags s) x (msis s) (pbrr_ready_queues s).
Definition set_msis x s := Sched (threads s) (rr_ready_queue_meta s) (shared_queue s) (current_threads s) (fpu_owner s) (resched_bitmaps s) (pending_remote_resched s) (resched_flags s) (kicks s) x (pbrr_ready_queues s).
Definition set_pbrr x s := Sched (threads s) (rr_ready_queue_meta s) (shared_queue s) (current_threads s) (fpu_owner s) (resched_bitmaps s) (pending_remote_resched s) (resched_flags s) (kicks s) (msis s) x.

(** [local_meta] gives the first and last global CPU of each machine. *)
Record config := Config {
  cpu : Z; CPU_RANGE_LOW : Z; CPU_RANGE_HIGH : Z; CUR_MACHINE_ID : Z; CLUSTER_CPU_NUM : Z;
  local_meta : list (Z * Z)
}.

Definition idle_threads (i : Z) : Z := i.

(** ** Threads and queues *)

Definition thr (p : Z) : M sched thread := s ← get_state; from_opt (threads s !! p).
Definition upd (p : Z) (f : thread → thread) : M sched unit :=
  t ← thr p; modify (λ s, set_threads (<[p := f t]> (threads s)) s).

Definition rr_meta (i : Z) : M sched queue_meta := s ← get_state; from_opt (rr_ready_queue_meta s !! i).
Definition rr_store (i : Z) (q : queue_meta) : M sched unit :=
  modify (λ s, set_rr (<[i := q]> (rr_ready_queue_meta s)) s).

(** [list_del(&thread->ready_queue_node)]: the thread leaves the queue it is on. *)
Definition unlink (p : Z) (s : sched) : sched :=
  set_pbrr ((λ q, PQueue (filter (λ x, x ≠ p) <$> queues q) (bitmap q)) <$> pbrr_ready_queues s)
    (set_rr ((λ m, QMeta (filter (λ x, x ≠ p) (queue m)) (queue_len m)) <$> rr_ready_queue_meta s) s).

(** [thread_dq_enqueue], [thread_dq_dequeue] on a queue shared between machines. *)
Definition shared_append (g p : Z) : M sched unit :=
  s ← get_state; q ← from_opt (shared_queue s !! g);
  modify (set_shared (<[g := q ++ [p]]> (shared_queue s))).
Definition shared_pop (g : Z) : M sched (option Z) :=
  s ← get_state; q ← from_opt (shared_queue s !! g);
  match q with
  | [] => mret None
  | p :: q' => modify (set_shared (<[g := q']> (shared_queue s)));; mret (Some p)
  end.

Section sched.
Context (c : config).

(** ** dsm-single.h *)

Definition cpuid_l2g (x : Z) : Z := x + CPU_RANGE_LOW c.
Definition cpuid_g2l (x : Z) : Z := x - CPU_RANGE_LOW c.

Definition is_local_cpu (x : Z) : bool :=
  let u := wrap_u32 x in
  bool_decide (CPU_RANGE_LOW c ≤ u ≤ CPU_RANGE_HIGH c) || bool_decide (u = NO_AFF_u32).

Definition cpuid_l2g_with_mid (lcpuid mid : Z) : M sched Z :=
  '(lo, hi) ← from_opt (local_meta c !! Z.to_nat mid);
  if bool_decide (lcpuid = NO_AFF_u32) then mret lo
  else bug_on (bool_decide (lo + lcpuid > hi));; mret (lo + lcpuid).

Definition current : M sched (option Z) := s ← get_state; mret (current_threads s !! cpu c).
Definition is_current (p : Z) (s : sched) : bool := bool_decide (current_threads s !! cpu c = Some p).

(** ** Interrupts to other CPUs (sched.c) *)

(** [while (x) ... bsr(x)]: the highest set bit. *)
Definition bsr (x : Z) : Z := Z.log2 x.

Definition add_pending_resched (i : Z) : M sched unit :=
  bug_on (bool_decide (i >= PLAT_CPU_NUM));;
  modify (λ s, set_resched_bitmaps
    (<[cpu c := Z.lor (default 0 (resched_bitmaps s !! cpu c)) (BIT i)]> (resched_bitmaps s)) s).

Definition sched_kick_cpu (i : Z) : M sched unit :=
  bug_on (bool_decide (i >= PLAT_CPU_NUM));;
  bug_on (bool_decide (i = cpu c));;
  modify (λ s, set_resched_flags (<[i := true]> (resched_flags s)) s);;
  modify (λ s, set_kicks (kicks s ++ [i]) s).

Definition ivshmem_send_sched_msi (g : Z) : M sched unit := modify (λ s, set_msis (msis s ++ [g]) s).

Definition sched_defer_remote_kick (g : Z) : M sched unit :=
  bug_on (bool_decide (g >= CLUSTER_CPU_NUM c) || is_local_cpu g);;
  s ← get_state;
  bug_on (bool_decide (default (-1) (pending_remote_resched s !! cpu c) >= 0));;
  modify (set_pending_remote (<[cpu c := g]> (pending_remote_resched s))).

(** The loop clears one bit of a 32-bit word per round. *)
Fixpoint flush_loop (fuel : nat) : M sched unit :=
  match fuel with
  | O => halt OutOfFuel
  | S fuel' =>
      s ← get_state;
      let b := default 0 (resched_bitmaps s !! cpu c) in
      if bool_decide (b = 0) then mret tt
      else
        let i := bsr b in
        modify (set_resched_bitmaps (<[cpu c := Z.ldiff b (BIT i)]> (resched_bitmaps s)));;
        when (negb (bool_decide (i = cpu c))) (sched_kick_cpu i);;
        flush_loop fuel'
  end.

Definition flush_pending_resched_ipis : M sched unit :=
  flush_loop 33;;
  s ← get_state;
  let g := default (-1) (pending_remote_resched s !! cpu c) in
  modify (set_pending_remote (<[cpu c := -1]> (pending_remote_resched s)));;
  when (bool_decide (g >= 0)) (ivshmem_send_sched_msi g).

(** ** Choosing a CPU (sched.c) *)

(** arch/x86_64/sched/extended_state.c *)
Definition save_and_release_fpu (p i : Z) : M sched unit :=
  t ← thr p;
  bug_on (bool_decide (exit_state t = TE_EXITED));;
  s ← get_state;
  when (bool_decide (fpu_owner s !! i = Some p))
    (upd p (set_fpu_owner (-1));; modify (λ s, set_fpu (delete i (fpu_owner s)) s)).

Definition get_cpubind (p : Z) : M sched Z :=
  t ← thr p;
  let aff := affinity t in
  let owner := is_fpu_owner t in
  if negb (is_local_cpu aff) then mret aff
  else if bool_decide (owner < 0) then mret aff
  else if bool_decide (owner = cpu c) then
    if bool_decide (aff = cpu c) || bool_decide (aff = NO_AFF) then mret (cpuid_l2g (cpu c))
    else save_and_release_fpu p (cpu c);; mret aff
  else mret (cpuid_l2g owner).

(** [for (j = 0; j < PLAT_CPU_NUM; j++)]: the shortest queue seen so far. *)
Fixpoint choose_loop (n : nat) (j start : Z) (cpuid min_rr_len : Z) : M sched Z :=
  match n with
  | O => mret cpuid
  | S n' =>
      let i := (start + j) mod PLAT_CPU_NUM in
      if bool_decide (i = cpu c) then choose_loop n' (j + 1) start cpuid min_rr_len
      else
        m ← rr_meta i;
        if bool_decide (queue_len m < min_rr_len) then choose_loop n' (j + 1) start i (queue_len m)
        else choose_loop n' (j + 1) start cpuid min_rr_len
  end.

Definition rr_sched_choose_cpu : M sched Z :=
  m ← rr_meta (cpu c);
  if bool_decide (queue_len m ≤ 0) then mret (cpuid_l2g (cpu c))
  else
    i ← choose_loop (Z.to_nat PLAT_CPU_NUM) 0 ((cpu c + 1) mod PLAT_CPU_NUM) (cpu c) (queue_len m);
    mret (cpuid_l2g i).

(** ** Round robin: the queues *)

Definition __rr_sched_enqueue (p i : Z) : M sched Z :=
  t ← thr p;
  bug_on (negb (is_local_cpu (affinity t)));;
  if bool_decide (state t = TS_READY) then mret (- EINVAL)
  else
    upd p (λ t, set_queue_cpuid i (set_state TS_READY (set_cpuid i t)));;
    m ← rr_meta i;
    rr_store i (QMeta (queue m ++ [p]) (wrap_u32 (queue_len m + 1)));;
    mret 0.

Definition __rr_sched_enqueue_shared (p g : Z) : M sched Z := shared_append g p;; mret 0.

Definition rr_sched_migrate_to_remote (p : Z) : M sched Z :=
  t ← thr p;
  bug_on (is_local_cpu (affinity t));;
  when (bool_decide (is_fpu_owner t >= 0)) (save_and_release_fpu p (cpu c));;
  ret ← __rr_sched_enqueue_shared p (affinity t);
  when (bool_decide (ret = 0)) (sched_defer_remote_kick (affinity t));;
  mret ret.

Definition get_bridge_thread_gcpuid (p : Z) : M sched Z :=
  t ← thr p;
  if bool_decide (cpuid t = NO_AFF_u32) then mret (machine_id t)
  else cpuid_l2g_with_mid (cpuid t) (machine_id t).

(** [rr_sched_enqueue] once the CPU is known. *)
Definition rr_sched_place (p : Z) (t : thread) (gcpuid : Z) : M sched Z :=
  if bool_decide (prio t > MAX_PRIO) then mret (- EINVAL)
  else if bool_decide (wrap_u32 gcpuid >= CLUSTER_CPU_NUM c) then mret (- EINVAL)
  else if negb (is_local_cpu gcpuid) then
    ret ← __rr_sched_enqueue_shared p gcpuid;
    s ← get_state;
    when (bool_decide (ret = 0))
      (if is_current p s then sched_defer_remote_kick gcpuid else ivshmem_send_sched_msi gcpuid);;
    mret ret
  else
    let lcpuid := cpuid_g2l gcpuid in
    ret ← __rr_sched_enqueue p lcpuid;
    s ← get_state;
    when (bool_decide (ret = 0) && negb (bool_decide (lcpuid = cpu c)))
      (if is_current p s then add_pending_resched lcpuid else sched_kick_cpu lcpuid);;
    mret ret.

Definition rr_sched_enqueue (p : Z) : M sched Z :=
  t ← thr p;
  if bool_decide (type t = TYPE_IDLE) then mret 0
  else if bool_decide (exit_state t = TE_EXITING) then upd p (set_exit_state TE_EXITED);; mret 0
  else if bool_decide (exit_state t = TE_STOPPING) then upd p (set_exit_state TE_STOPPED);; mret 0
  else
    gcpuid ← (if bridge t then get_bridge_thread_gcpuid p
              else
                cpubind ← get_cpubind p;
                if bool_decide (cpubind = NO_AFF) then rr_sched_choose_cpu else mret cpubind);
    rr_sched_place p t gcpuid.

Definition rr_sched_enqueue_to_affinity (p : Z) : M sched Z :=
  t ← thr p;
  if bool_decide (type t = TYPE_IDLE) then mret 0
  else if bool_decide (exit_state t = TE_EXITING) then upd p (set_exit_state TE_EXITED);; mret 0
  else if bool_decide (exit_state t = TE_STOPPING) then upd p (set_exit_state TE_STOPPED);; mret 0
  else
    aff ← get_cpubind p;
    let remote (g : Z) : M sched Z :=
      upd p (set_state TS_READY);; shared_append g p;; ivshmem_send_sched_msi g;; mret 0 in
    if bool_decide (aff = NO_AFF) && negb (bool_decide (machine_id t = CUR_MACHINE_ID c)) then
      g ← cpuid_l2g_with_mid (cpuid t) (machine_id t); remote g
    else if bool_decide (aff = NO_AFF) || is_local_cpu aff then rr_sched_enqueue p
    else remote aff.

Definition __rr_sched_dequeue (p : Z) : M sched Z :=
  t ← thr p;
  if bool_decide (state t = TS_RUNNING ∨ state t = TS_WAITING ∨ state t = TS_WAITING_IPC) then mret (- EINVAL)
  else
    let i := queue_cpuid t in
    if bool_decide (i = NO_AFF_u32) then mret 0
    else
      modify (unlink p);;
      m ← rr_meta i;
      rr_store i (QMeta (queue m) (wrap_u32 (queue_len m - 1)));;
      upd p (set_queue_cpuid NO_AFF_u32);;
      mret 0.

Definition rr_sched_dequeue (p : Z) : M sched Z :=
  t ← thr p;
  bug_on (bool_decide (type t = TYPE_IDLE));;
  if bool_decide (queue_cpuid t = NO_AFF_u32) then mret 0
  else
    ret ← __rr_sched_dequeue p;
    upd p (set_state TS_INTER);;
    mret ret.

(** [for_each_in_list_safe]: the threads that were linked when the loop began. *)
Fixpoint find_runnable_thread (l : list Z) : M sched (option Z) :=
  match l with
  | [] => mret None
  | p :: l' =>
      t ← thr p;
      s ← get_state;
      match exit_state t with
      | TE_RUNNING =>
          if negb (ks_locked t) || is_current p s then mret (Some p) else find_runnable_thread l'
      | TE_EXITING =>
          __rr_sched_dequeue p;;
          upd p (λ t, set_exit_state TE_EXITED (set_state TS_EXIT t));;
          find_runnable_thread l'
      | TE_STOPPING =>
          __rr_sched_dequeue p;;
          upd p (set_exit_state TE_STOPPED);;
          find_runnable_thread l'
      | _ => find_runnable_thread l'
      end
  end.

(** [again:] is reached once more for each thread taken off the queue. *)
Fixpoint choose_again (fuel : nat) : M sched Z :=
  match fuel with
  | O => halt OutOfFuel
  | S fuel' =>
      m ← rr_meta (cpu c);
      match queue m with
      | [] => mret (idle_threads (cpu c))
      | _ :: _ =>
          o ← find_runnable_thread (queue m);
          match o with
          | None => mret (idle_threads (cpu c))
          | Some p =>
              ret ← __rr_sched_dequeue p;
              bug_on (negb (bool_decide (ret = 0)));;
              t ← thr p;
              if bool_decide (exit_state t = TE_EXITING) then
                upd p (λ t, set_exit_state TE_EXITED (set_state TS_EXIT t));; choose_again fuel'
              else
                upd p (set_state TS_TO_SCHED);;
                if bool_decide (exit_state t = TE_STOPPING) then
                  upd p (set_exit_state TE_STOPPED);; choose_again fuel'
                else
                  upd p (set_state TS_TO_SCHED);; mret p
          end
      end
  end.

Definition rr_sched_choose_thread : M sched Z :=
  m ← rr_meta (cpu c);
  match queue m with
  | [] => mret (idle_threads (cpu c))
  | q => choose_again (S (length q))
  end.

Definition rr_sched_refill_budget (p b : Z) : M sched unit :=
  t ← thr p;
  match budget t with Some _ => upd p (set_budget (Some b)) | None => halt BadAccess end.

(** ** Switching (sched.c) *)

Definition switch_to_thread (p : Z) : M sched unit :=
  t ← thr p;
  bug_on (bool_decide (state t = TS_READY));;
  bug_on (negb (bool_decide (exit_state t = TE_RUNNING)));;
  s ← get_state;
  if is_current p s then
    upd p (λ t, set_prev_thread THREAD_ITSELF (set_state TS_RUNNING t))
  else
    let pr := match current_threads s !! cpu c with Some o => PrevThread o | None => PrevNull end in
    upd p (λ t, set_ks_locked true (set_prev_thread pr (set_state TS_RUNNING (set_cpuid (cpu c) t))));;
    modify (λ s, set_current (<[cpu c := p]> (current_threads s)) s).

(** [finish_switch]; the capability of a shadow thread that exited is freed
    elsewhere ([cap_free]), here only [prev_thread] is reset. *)
Definition finish_switch : M sched unit :=
  o ← current; p ← from_opt o; t ← thr p;
  match prev_thread t with
  | PrevThread q =>
      tq ← thr q;
      if bool_decide (type tq = TYPE_SHADOW ∧ state tq = TS_EXIT) then upd p (set_prev_thread PrevNull)
      else upd q (set_ks_locked false)
  | _ => mret tt
  end.

(** What [eret_to_thread] does before it returns to user mode. *)
Definition eret_to_thread : M sched unit := finish_switch;; flush_pending_resched_ipis.

(** [while (kernel_stack_state != KS_FREE) handle_ipi();] *)
Definition wait_for_kernel_stack (p : Z) : M sched unit :=
  t ← thr p; if ks_locked t then halt Spins else mret tt.

(** ** Round robin: the policy *)

(** The body of the loop over the shared queue, then the loop: [tail] is
    [urgent_tail] (the thread after which the next urgent thread goes). *)
Definition insert_after (q : list Z) (tail : option Z) (p : Z) : list Z :=
  match tail with
  | None => p :: q
  | Some x => match list_find (λ y, y = x) q with
              | Some (i, _) => take (S i) q ++ p :: drop (S i) q
              | None => q
              end
  end.

Definition migrate_one (urgent : bool) (tail : option Z) (p : Z) : M sched (Z * option Z) :=
  t ← thr p;
  let lcpuid := if bool_decide (affinity t = NO_AFF) then cpu c else cpuid_g2l (affinity t) in
  _ ← from_opt (budget t);
  upd p (λ t, set_ks_locked false (set_machine_id (CUR_MACHINE_ID c)
          (set_budget (Some DEFAULT_BUDGET) (set_state TS_RUNNING (set_exit_state TE_RUNNING t)))));;
  ret ← __rr_sched_enqueue p lcpuid;
  if bool_decide (ret = 0) && urgent then
    modify (unlink p);;
    m ← rr_meta lcpuid;
    rr_store lcpuid (QMeta (insert_after (queue m) tail p) (queue_len m));;
    mret (ret, Some p)
  else mret (ret, tail).

Fixpoint migrate_loop (fuel : nat) (g : Z) (urgent : bool) (tail : option Z) (ret : Z) : M sched Z :=
  match fuel with
  | O => halt OutOfFuel
  | S fuel' =>
      o ← shared_pop g;
      match o with
      | None => mret ret
      | Some p => '(ret', tail') ← migrate_one urgent tail p; migrate_loop fuel' g urgent tail' ret'
      end
  end.

Definition rr_sched_migrate_from_shared_queue_internal (urgent : bool) : M sched Z :=
  let g := cpuid_l2g (cpu c) in
  s ← get_state;
  q ← from_opt (shared_queue s !! g);
  match q with
  | [] => mret 0
  | _ => migrate_loop (S (length q)) g urgent None 0
  end.

(** The ring of CPUs a thread ran on. *)
Definition record_history (t : thread) : thread :=
  let h := history t in
  let cur := cpuid_l2g (cpu c) in
  let last := cpu_history h !! ((history_index h + MAX_SCHED_HISTORY - 1) mod MAX_SCHED_HISTORY) in
  if bool_decide (history_count h = 0) || negb (bool_decide (default 0 last = cur)) then
    set_history (Hist (<[history_index h := cur]> (cpu_history h))
      (if bool_decide (history_count h < MAX_SCHED_HISTORY) then history_count h + 1 else history_count h)
      ((history_index h + 1) mod MAX_SCHED_HISTORY)) t
  else t.

(** What [rr_sched] does with the old thread: [true] when it keeps running. *)
Definition rr_sched_old (p : Z) : M sched bool :=
  t ← thr p;
  bug_on (negb (bool_decide (type t = TYPE_SHADOW ∨ type t = TYPE_REGISTER)) && bool_decide (budget t = None));;
  upd p record_history;;
  match exit_state t with
  | TE_EXITED => halt BugHit
  | TE_EXITING =>
      upd p (λ t, set_exit_state TE_EXITED (set_ks_locked false (set_state TS_EXIT t)));;
      ret ← rr_sched_dequeue p;
      bug_on (negb (bool_decide (ret = 0)));;
      upd p (set_state TS_EXIT);;
      mret false
  | TE_MIGRATING => rr_sched_migrate_to_remote p;; mret false
  | TE_STOPPING =>
      upd p (set_exit_state TE_STOPPED);;
      when (bool_decide (is_fpu_owner t >= 0)) (save_and_release_fpu p (cpu c));;
      mret false
  | TE_STOPPED =>
      when (bool_decide (is_fpu_owner t >= 0)) (save_and_release_fpu p (cpu c));;
      mret false
  | TE_RUNNING =>
      match state t with
      | TS_EXIT | TS_WAITING | TS_WAITING_IPC => mret false
      | TS_RUNNING =>
          bug_on (bool_decide (budget t = None));;
          b ← from_opt (budget t);
          if negb (bool_decide (b = 0)) then switch_to_thread p;; mret true
          else
            rr_sched_refill_budget p DEFAULT_BUDGET;;
            upd p (set_state TS_TO_SCHED);;
            ret ← rr_sched_enqueue p;
            bug_on (negb (bool_decide (ret = 0)));;
            mret false
      | _ => halt BugHit
      end
  end.

Definition rr_sched : M sched unit :=
  old ← current;
  stay ← (match old with Some p => rr_sched_old p | None => mret false end);
  if (stay : bool) then mret tt
  else
    rr_sched_migrate_from_shared_queue_internal false;;
    new ← rr_sched_choose_thread;
    switch_to_thread new.

Definition sched_force_reschedule : M sched unit :=
  rr_sched_migrate_from_shared_queue_internal true;;
  o ← current;
  match o with
  | Some p =>
      t ← thr p;
      when (negb (bool_decide (budget t = None))) (upd p (set_budget (Some 0)))
  | None => mret tt
  end;;
  rr_sched.

(** [switch_context()] changes the address space only. *)
Definition sched_to_thread (p : Z) : M sched unit :=
  t ← thr p;
  if bool_decide (exit_state t = TE_MIGRATING) then rr_sched
  else
    bug_on (negb (bool_decide (state t = TS_WAITING ∨ state t = TS_WAITING_IPC ∨ state t = TS_TO_SCHED)));;
    s ← get_state;
    bug_on (is_current p s);;
    wait_for_kernel_stack p;;
    if bool_decide (is_fpu_owner t >= 0) && negb (bool_decide (is_fpu_owner t = cpu c)) then
      upd p (set_state TS_TO_SCHED);;
      ret ← rr_sched_enqueue p;
      bug_on (negb (bool_decide (ret = 0)));;
      rr_sched;;
      eret_to_thread
    else
      o ← current; q ← from_opt o; tq ← thr q;
      when (negb (bool_decide (state tq = TS_WAITING_IPC)))
        (ret ← rr_sched_enqueue q; bug_on (negb (bool_decide (ret = 0))));;
      switch_to_thread p;;
      eret_to_thread.

Definition sys_yield : M sched unit :=
  o ← current;
  bug_on (bool_decide (o = None));;
  p ← from_opt o;
  t ← thr p;
  _ ← from_opt (budget t);
  upd p (set_budget (Some 0));;
  rr_sched;;
  eret_to_thread.

(** [for (i = 0; i < PLAT_CPU_NUM; i++)] *)
Definition cpus : list Z := seqZ 0 PLAT_CPU_NUM.

Definition init_current_threads (s : sched) : sched := set_current ∅ s.
Definition init_resched_bitmaps (s : sched) : sched :=
  set_pending_remote (list_to_map ((λ i, (i, -1)) <$> cpus))
    (set_resched_bitmaps (list_to_map ((λ i, (i, 0)) <$> cpus)) s).

(** The local part of [rr_sched_init]: the shared queues are made by the first
    machine ([thread_dq_init]). *)
Definition rr_sched_init (s : sched) : sched :=
  set_rr (list_to_map ((λ i, (i, QMeta [] 0)) <$> cpus)) s.

Definition rr_sched_clear (s : sched) : sched :=
  set_resched_flags (foldr (λ i f, if bool_decide (i = cpu c) then f else <[i := true]> f) (resched_flags s) cpus)
    (set_current (foldr (λ i m, if bool_decide (i = cpu c) then m else delete i m) (current_threads s) cpus)
       (set_rr (list_to_map ((λ i, (i, QMeta [] 0)) <$> cpus)) s)).

(** ** Priority-based round robin *)

Definition prio_bitmap_init : prio_bitmap := PBitmap 0 (replicate 32 0).

Definition prio_bitmap_set (b : prio_bitmap) (prio : Z) : outcome prio_bitmap :=
  let i0 := Z.shiftr prio 5 in
  let i1 := Z.land prio 0x1f in
  if bool_decide (i0 >= 32) then Halt BugHit
  else Ret (PBitmap (Z.lor (bitmap_lvl0 b) (BIT i0))
              (alter (λ w, Z.lor w (BIT i1)) (Z.to_nat i0) (bitmap_lvl1 b))).

Definition prio_bitmap_clear (b : prio_bitmap) (prio : Z) : outcome prio_bitmap :=
  let i0 := Z.shiftr prio 5 in
  let i1 := Z.land prio 0x1f in
  if bool_decide (i0 >= 32) then Halt BugHit
  else
    let lvl1 := alter (λ w, Z.ldiff w (BIT i1)) (Z.to_nat i0) (bitmap_lvl1 b) in
    Ret (PBitmap (if bool_decide (nth (Z.to_nat i0) lvl1 0 = 0) then Z.ldiff (bitmap_lvl0 b) (BIT i0)
                  else bitmap_lvl0 b) lvl1).

Definition prio_bitmap_is_empty (b : prio_bitmap) : bool := bool_decide (bitmap_lvl0 b = 0).

Definition get_highest_prio (b : prio_bitmap) : Z :=
  let i0 := bsr (bitmap_lvl0 b) in
  let i1 := bsr (nth (Z.to_nat i0) (bitmap_lvl1 b) 0) in
  Z.shiftl i0 5 + i1.

Definition pqueue (i : Z) : M sched pbrr_ready_queue := s ← get_state; from_opt (pbrr_ready_queues s !! i).
Definition pq_store (i : Z) (q : pbrr_ready_queue) : M sched unit :=
  modify (λ s, set_pbrr (<[i := q]> (pbrr_ready_queues s)) s).
Definition lift {A} (o : outcome A) : M sched A := λ s, match o with Ret a => Ret (a, s) | Halt w => Halt w end.

Definition pbrr_sched_enqueue (p : Z) : M sched Z :=
  t ← thr p;
  if bool_decide (state t = TS_READY) then mret (- EINVAL)
  else
    bug_on (bool_decide (prio t >= PRIO_NUM));;
    cpubind ← get_cpubind p;
    let i := if bool_decide (cpubind = NO_AFF) then cpu c else cpubind in
    upd p (λ t, set_state TS_READY (set_cpuid i t));;
    q ← pqueue i;
    b ← lift (prio_bitmap_set (bitmap q) (prio t));
    pq_store i (PQueue (<[prio t := default [] (queues q !! prio t) ++ [p]]> (queues q)) b);;
    add_pending_resched i;;
    mret 0.

Definition __pbrr_sched_dequeue (p : Z) : M sched unit :=
  t ← thr p;
  upd p (set_state TS_INTER);;
  modify (unlink p);;
  q ← pqueue (cpuid t);
  when (bool_decide (default [] (queues q !! prio t) = []))
    (b ← lift (prio_bitmap_clear (bitmap q) (prio t));
     pq_store (cpuid t) (PQueue (queues q) b)).

(** A thread of the queue [l], or the idle thread; [retry] for one that is exiting. *)
Definition pbrr_take (l : list Z) (runnable : bool) (retry : M sched Z) : M sched Z :=
  r ← find_runnable_thread l;
  let p := default (idle_threads (cpu c)) r in
  s ← get_state;
  if bool_decide (r = None) && is_current p s then bug_on (negb runnable);; mret p
  else
    __pbrr_sched_dequeue p;;
    t ← thr p;
    if bool_decide (exit_state t = TE_EXITING) then
      upd p (λ t, set_exit_state TE_EXITED (set_state TS_EXIT t));; retry
    else mret p.

(** [retry:] is reached again for each exiting thread taken off the queue. *)
Fixpoint pbrr_choose_loop (fuel : nat) (runnable : bool) : M sched Z :=
  match fuel with
  | O => halt OutOfFuel
  | S fuel' =>
      o ← current;
      q ← pqueue (cpu c);
      if prio_bitmap_is_empty (bitmap q) then
        p ← from_opt o; t ← thr p;
        bug_on (negb (bool_decide (type t = TYPE_IDLE)));;
        bug_on (negb runnable);;
        mret p
      else
        let highest_prio := get_highest_prio (bitmap q) in
        keep ← (match o with
          | Some p =>
              if runnable then
                t ← thr p;
                if bool_decide (prio t > highest_prio) then mret true
                else if bool_decide (prio t = highest_prio) then
                  b ← from_opt (budget t); mret (bool_decide (b > 0))
                else mret false
              else mret false
          | None => mret false
          end);
        if (keep : bool) then from_opt o
        else
          pbrr_take (default [] (queues q !! highest_prio)) runnable (pbrr_choose_loop fuel' runnable)
  end.

Definition pbrr_queued (q : pbrr_ready_queue) : nat := map_fold (λ _ l n, (length l + n)%nat) 0%nat (queues q).

Definition pbrr_sched_choose_thread : M sched Z :=
  o ← current;
  runnable ← (match o with
    | Some p =>
        t ← thr p;
        mret (bool_decide (state t = TS_RUNNING) &&
              (bool_decide (affinity t = NO_AFF) || bool_decide (wrap_u32 (affinity t) = cpu c)))
    | None => mret false
    end);
  q ← pqueue (cpu c);
  pbrr_choose_loop (S (S (pbrr_queued q))) runnable.

(** [switch_to_thread] as the real-time configuration has it. *)
Definition switch_to_thread_rt (p : Z) : M sched unit :=
  modify (λ s, set_resched_bitmaps
    (<[cpu c := Z.ldiff (default 0 (resched_bitmaps s !! cpu c)) (BIT (cpu c))]> (resched_bitmaps s)) s);;
  switch_to_thread p.

Definition pbrr_sched : M sched unit :=
  old ← current;
  match old with
  | Some p =>
      t ← thr p;
      when (bool_decide (exit_state t = TE_EXITING))
        (upd p (λ t, set_exit_state TE_EXITED (set_state TS_EXIT t)))
  | None => mret tt
  end;;
  new ← pbrr_sched_choose_thread;
  match old with
  | Some p =>
      t ← thr p;
      when (bool_decide (state t = TS_RUNNING) && negb (bool_decide (new = p)))
        (ret ← pbrr_sched_enqueue p; bug_on (negb (bool_decide (ret = 0))))
  | None => mret tt
  end;;
  t ← thr new;
  b ← from_opt (budget t);
  when (bool_decide (b = 0)) (upd new (set_budget (Some DEFAULT_BUDGET)));;
  switch_to_thread_rt new.

Fixpoint pbrr_enqueue_idle (l : list Z) : M sched unit :=
  match l with [] => mret tt | i :: l' => pbrr_sched_enqueue (idle_threads i);; pbrr_enqueue_idle l' end.

Definition pbrr_sched_init : M sched unit :=
  modify (set_pbrr (list_to_map ((λ i, (i, PQueue
    (list_to_map ((λ j, (j, [])) <$> seqZ 0 PRIO_NUM)) prio_bitmap_init)) <$> cpus)));;
  pbrr_enqueue_idle cpus.

End sched.
