(* ===== verification/SchedProofs.v ===== *)
(** Round robin: the invariant of the ready queues, and what enqueueing,
    dequeueing and choosing a thread do to them.  [wp_rr_sched_enqueue_any] is about every thread and every
    case of [rr_sched_enqueue]; [wp_rr_sched_enqueue], for the threads of this machine that own no FPU, is
    what notifications use. *)
From S2P Require Import Prelude Words Sched.

(** ** Invariant *)

(** The queues of the local CPUs hold distinct threads, each marked ready and
    pointing back to its queue, and [queue_len] is their length; a thread that
    points to a queue is on it. *)
Record rr_inv (s : sched) : Prop := {
  r_dom : ∀ i, is_Some (rr_ready_queue_meta s !! i) ↔ 0 ≤ i < PLAT_CPU_NUM;
  r_len : ∀ i m, rr_ready_queue_meta s !! i = Some m → queue_len m = Z.of_nat (length (queue m));
  r_nodup : ∀ i m, rr_ready_queue_meta s !! i = Some m → NoDup (queue m);
  r_in : ∀ i m p, rr_ready_queue_meta s !! i = Some m → p ∈ queue m →
    ∃ t, threads s !! p = Some t ∧ queue_cpuid t = i ∧ state t = TS_READY ∧ type t ≠ TYPE_IDLE;
  r_out : ∀ p t, threads s !! p = Some t → type t ≠ TYPE_IDLE → queue_cpuid t ≠ NO_AFF_u32 →
    ∃ m, rr_ready_queue_meta s !! queue_cpuid t = Some m ∧ p ∈ queue m;
  r_size : Z.of_nat (size (threads s)) + 1 < 2 ^ 32;
  r_pbrr : pbrr_ready_queues s = ∅
}.

(** A thread that is on no ready queue. *)
Definition off_queue (s : sched) (p : Z) (t : thread) : Prop :=
  threads s !! p = Some t ∧ type t ≠ TYPE_IDLE ∧ queue_cpuid t = NO_AFF_u32.

Definition with_queue (i : Z) (q : list Z) (s : sched) : sched :=
  set_rr (<[i := QMeta q (Z.of_nat (length q))]> (rr_ready_queue_meta s)) s.
Definition with_thread (p : Z) (t : thread) (s : sched) : sched :=
  set_threads (<[p := t]> (threads s)) s.

Lemma wp_thr p t (Q : thread → sched → Prop) s : threads s !! p = Some t → Q t s → wp (thr p) Q s.
Proof. intros Ht HQ. unfold thr. wp_seq. by eapply wp_from_opt. Qed.

Lemma wp_upd p f t (Q : unit → sched → Prop) s :
  threads s !! p = Some t → Q tt (with_thread p (f t) s) → wp (upd p f) Q s.
Proof. intros Ht HQ. unfold upd. wp_seq. eapply wp_thr; [done|]. by wp_seq. Qed.

Lemma wp_rr_meta i m (Q : queue_meta → sched → Prop) s :
  rr_ready_queue_meta s !! i = Some m → Q m s → wp (rr_meta i) Q s.
Proof. intros Hm HQ. unfold rr_meta. wp_seq. by eapply wp_from_opt. Qed.

Lemma off_queue_not_in s p t i m :
  rr_inv s → off_queue s p t → rr_ready_queue_meta s !! i = Some m → p ∉ queue m.
Proof.
  intros HI (Ht&_&Hq) Hm Hin. destruct (r_in s HI i m p Hm Hin) as (t'&Ht'&Hq'&_). simplify_eq.
  destruct (proj1 (r_dom s HI (queue_cpuid t)) ltac:(by eexists)) as [_ Hlt]. rewrite Hq in Hlt.
  by vm_compute in Hlt.
Qed.

Lemma queue_bound s i m : rr_inv s → rr_ready_queue_meta s !! i = Some m → (length (queue m) ≤ size (threads s))%nat.
Proof.
  intros HI Hm. rewrite <-(size_list_to_set (C := gset Z) (queue m)) by by eapply r_nodup.
  rewrite <-size_dom. apply subseteq_size. intros p Hp%elem_of_list_to_set.
  destruct (r_in s HI i m p Hm Hp) as (t&Ht&_). by apply elem_of_dom.
Qed.

Lemma size_insert_some {A} (m : gmap Z A) p x y : m !! p = Some x → size (<[p := y]> m) = size m.
Proof. intros Hp. rewrite map_size_insert, Hp. done. Qed.

(** One statement of the code. *)
Ltac s_thr := eapply wp_thr; [done|]; wp_seq.
Ltac s_upd := eapply wp_upd; [done|]; wp_seq.
Ltac s_bug := apply wp_bug_on; [|]; [|wp_seq].

(** ** Changing one thread and one queue *)

(** The thread table and a queue change together: [p] changes, the queue [i]
    becomes [q], which differs from the old one at most by [p]. *)
Lemma rr_inv_update s p t t' i m q :
  rr_inv s → threads s !! p = Some t → rr_ready_queue_meta s !! i = Some m → NoDup q →
  (∀ x, x ≠ p → x ∈ q ↔ x ∈ queue m) →
  (∀ j n, j ≠ i → rr_ready_queue_meta s !! j = Some n → p ∉ queue n) →
  (p ∈ q → queue_cpuid t' = i ∧ state t' = TS_READY ∧ type t' ≠ TYPE_IDLE) →
  (p ∉ q → type t' ≠ TYPE_IDLE → queue_cpuid t' = NO_AFF_u32) →
  rr_inv (with_queue i q (with_thread p t' s)).
Proof.
  intros HI Ht Hm Hnd Hq Hoth Hin Hout. split; simpl.
  - intros j. rewrite <-(r_dom s HI). rewrite lookup_insert_is_Some'.
    split; [intros [<-|?]; [by eexists|done]|by right].
  - intros j n [[<- <-]|[Hj Hn]]%lookup_insert_Some; [done|by eapply r_len].
  - intros j n [[<- <-]|[Hj Hn]]%lookup_insert_Some; [done|by eapply r_nodup].
  - intros j n x [[<- <-]|[Hj Hn]]%lookup_insert_Some Hx; simpl in *.
    + destruct (decide (x = p)) as [->|Hne]; [exists t'; rewrite lookup_insert_eq; naive_solver|].
      rewrite lookup_insert_ne by done. eapply r_in; [done|done|by apply Hq].
    + assert (x ≠ p) by (intros ->; by eapply Hoth). rewrite lookup_insert_ne by done. by eapply r_in.
  - intros x tx [[<- <-]|[Hx Htx]]%lookup_insert_Some Hty Hqc.
    + destruct (decide (p ∈ q)) as [Hp|Hp]; [|by destruct Hqc; apply Hout].
      destruct (Hin Hp) as (->&_&_). rewrite lookup_insert_eq. by eexists.
    + destruct (r_out s HI x tx Htx Hty Hqc) as (n&Hn&Hxn).
      destruct (decide (queue_cpuid tx = i)) as [Hi|Hi].
      * rewrite Hi in *. simplify_eq. rewrite lookup_insert_eq. eexists. split; [done|]. simpl. by apply Hq.
      * exists n. by rewrite lookup_insert_ne.
  - rewrite (size_insert_some _ _ t) by done. apply HI.
  - apply HI.
Qed.

(** Changing a thread without touching the queues. *)
Lemma rr_inv_thread s p t t' :
  rr_inv s → threads s !! p = Some t → queue_cpuid t' = queue_cpuid t → type t' = type t →
  (queue_cpuid t = NO_AFF_u32 ∨ type t = TYPE_IDLE ∨ state t' = state t) → rr_inv (with_thread p t' s).
Proof.
  intros HI Ht Hqc Hty Hst. split; simpl; try apply HI.
  - intros i m x Hm Hx. destruct (r_in s HI i m x Hm Hx) as (tx&Htx&Hq&Hs&Hi).
    destruct (decide (x = p)) as [->|]; [|rewrite lookup_insert_ne by done; by eexists].
    rewrite lookup_insert_eq. exists t'. assert (tx = t) as -> by congruence.
    split_and!; [done|congruence| |congruence]. destruct Hst as [Hno|[?|?]]; [|done|congruence].
    destruct (proj1 (r_dom s HI i) (mk_is_Some _ _ Hm)) as [_ Hlt]. rewrite <-Hq, Hno in Hlt. by vm_compute in Hlt.
  - intros x tx [[<- <-]|[Hx Htx]]%lookup_insert_Some Hi Hq; [|by eapply r_out].
    rewrite Hqc in *. eapply r_out; [done|done|congruence|done].
  - rewrite (size_insert_some _ _ t) by done. apply HI.
Qed.

Section ops.
Context (c : config).

(** ** Enqueue and dequeue *)

Lemma wp_enqueue s p t i m :
  rr_inv s → off_queue s p t → is_local_cpu c (affinity t) = true → state t ≠ TS_READY →
  rr_ready_queue_meta s !! i = Some m →
  wp (__rr_sched_enqueue c p i) (λ r s', r = 0 ∧
    s' = with_queue i (queue m ++ [p]) (with_thread p (set_queue_cpuid i (set_state TS_READY (set_cpuid i t))) s) ∧
    rr_inv s') s.
Proof.
  intros HI Hoff Hloc Hst Hm. pose proof Hoff as (Ht&Hty&Hqc). unfold __rr_sched_enqueue. wp_seq.
  s_thr. s_bug; [by rewrite Hloc|].
  rewrite bool_decide_eq_false_2 by done. wp_seq. s_upd. eapply wp_rr_meta; [done|].
  unfold rr_store. wp_seq. pose proof (off_queue_not_in _ _ _ _ _ HI Hoff Hm) as Hnin.
  split; [done|]. pose proof (queue_bound _ _ _ HI Hm). pose proof (r_size s HI).
  assert (rr_inv (with_queue i (queue m ++ [p]) (with_thread p (set_queue_cpuid i (set_state TS_READY (set_cpuid i t))) s))) as HI'.
  { eapply rr_inv_update; try done.
    - apply NoDup_app. split_and!; [by eapply r_nodup|set_solver|apply NoDup_singleton].
    - set_solver.
    - intros j n Hj Hn. by eapply off_queue_not_in.
    - set_solver. }
  match goal with |- ?a = ?b ∧ _ => assert (a = b) as ->; [|done] end.
  unfold with_queue. cbn. rewrite (r_len s HI i m Hm), wrap_u32_small by lia.
  rewrite length_app. simpl. by replace (Z.of_nat (length (queue m) + 1)) with (Z.of_nat (length (queue m)) + 1) by lia.
Qed.

Lemma unlink_queues s p i m :
  rr_inv s → rr_ready_queue_meta s !! i = Some m → p ∈ queue m →
  unlink p s = set_rr (<[i := QMeta (filter (λ x, x ≠ p) (queue m)) (queue_len m)]> (rr_ready_queue_meta s)) s.
Proof.
  intros HI Hm Hp. unfold unlink. rewrite (r_pbrr s HI), fmap_empty. unfold set_rr at 1, set_pbrr. simpl.
  rewrite <-(r_pbrr s HI). unfold set_rr. f_equal. apply map_eq. intros j. rewrite lookup_fmap.
  destruct (decide (j = i)) as [->|Hj]; [by rewrite lookup_insert_eq, Hm|]. rewrite lookup_insert_ne by done.
  destruct (rr_ready_queue_meta s !! j) as [n|] eqn:Hn; [|done]. simpl. f_equal. destruct n as [qn ln]. simpl. f_equal.
  assert (p ∉ qn) as Hpn.
  { intros Hin. destruct (r_in s HI j _ p Hn Hin) as (t&Ht&Hq&_).
    destruct (r_in s HI i _ p Hm Hp) as (t'&Ht'&Hq'&_). simplify_eq. }
  clear -Hpn. induction qn as [|x l IH]; [done|]. rewrite filter_cons.
  rewrite decide_True by set_solver. f_equal. apply IH. set_solver.
Qed.

Lemma filter_ne_length (l : list Z) p : NoDup l → p ∈ l → length l = S (length (filter (λ x, x ≠ p) l)).
Proof.
  induction 1 as [|x l Hx Hnd IH]; intros Hp; [set_solver|]. rewrite filter_cons.
  destruct (decide (x = p)) as [->|Hne].
  - rewrite decide_False by naive_solver. simpl. f_equal.
    clear -Hx. induction l as [|y l IH]; [done|]. rewrite filter_cons, decide_True by set_solver. simpl. f_equal.
    apply IH. set_solver.
  - rewrite decide_True by done. simpl. f_equal. apply IH. set_solver.
Qed.

Lemma wp_dequeue s p t i m :
  rr_inv s → rr_ready_queue_meta s !! i = Some m → p ∈ queue m → threads s !! p = Some t →
  wp (__rr_sched_dequeue p) (λ r s', r = 0 ∧
    s' = with_queue i (filter (λ x, x ≠ p) (queue m)) (with_thread p (set_queue_cpuid NO_AFF_u32 t) s) ∧ rr_inv s') s.
Proof.
  intros HI Hm Hp Ht. destruct (r_in s HI i m p Hm Hp) as (t'&Ht'&Hq&Hs&Hty).
  assert (t' = t) as -> by congruence. subst i.
  unfold __rr_sched_dequeue. wp_seq. s_thr. rewrite bool_decide_eq_false_2 by naive_solver congruence.
  rewrite bool_decide_eq_false_2.
  2: { intros Hno. destruct (proj1 (r_dom s HI (queue_cpuid t)) ltac:(by eexists)) as [_ Hlt]. rewrite Hno in Hlt.
       by vm_compute in Hlt. }
  wp_seq. rewrite (unlink_queues s p _ m HI Hm Hp). eapply wp_rr_meta; [apply lookup_insert_eq|].
  unfold rr_store. wp_seq. s_upd. split; [done|].
  pose proof (filter_ne_length (queue m) p ltac:(by eapply r_nodup) Hp) as Hlen.
  pose proof (queue_bound _ _ _ HI Hm). pose proof (r_size s HI).
  match goal with |- ?a = ?b ∧ _ => assert (a = b) as ->; [|split; [done|]] end.
  - unfold with_queue, with_thread. cbn. rewrite insert_insert_eq, (r_len s HI _ m Hm), wrap_u32_small by lia.
    unfold set_threads, set_rr. cbn. do 3 f_equal. lia.
  - eapply rr_inv_update; try done.
    + apply NoDup_filter. by eapply r_nodup.
    + intros x Hx. rewrite list_elem_of_filter. naive_solver.
    + intros j n Hj Hn Hin. destruct (r_in s HI j n p Hn Hin) as (t2&Ht2&Hq2&_). simplify_eq.
    + intros [? _]%list_elem_of_filter. done.
Qed.
(** ** Looking for a runnable thread *)

Definition runnable (s : sched) (p : Z) : bool :=
  match threads s !! p with
  | Some t => bool_decide (exit_state t = TE_RUNNING) && (negb (ks_locked t) || is_current c p s)
  | None => false
  end.
(** Threads that the search takes off the queue. *)
Definition leaving (s : sched) (p : Z) : bool :=
  match threads s !! p with
  | Some t => bool_decide (exit_state t = TE_EXITING ∨ exit_state t = TE_STOPPING)
  | None => false
  end.
Definition retire (t : thread) : thread :=
  match exit_state t with
  | TE_EXITING => set_exit_state TE_EXITED (set_state TS_EXIT (set_queue_cpuid NO_AFF_u32 t))
  | TE_STOPPING => set_exit_state TE_STOPPED (set_queue_cpuid NO_AFF_u32 t)
  | _ => t
  end.
(** The thread table after the threads of [l] were passed. *)
Fixpoint retire_all (l : list Z) (s : sched) : sched :=
  match l with
  | [] => s
  | p :: l' => retire_all l' (match threads s !! p with
                              | Some t => with_thread p (retire t) s | None => s end)
  end.

(** The first runnable thread of [l], with the threads before it. *)
Fixpoint first_runnable (s : sched) (l : list Z) : list Z * option (Z * list Z) :=
  match l with
  | [] => ([], None)
  | p :: l' =>
      if runnable s p then ([], Some (p, l'))
      else let '(pre, r) := first_runnable s l' in (p :: pre, r)
  end.

Definition stays (s : sched) (l : list Z) : list Z := filter (λ p, leaving s p = false) l.

Lemma with_queue_id i m s :
  rr_inv s → rr_ready_queue_meta s !! i = Some m → with_queue i (queue m) s = s.
Proof.
  intros HI Hm. unfold with_queue. rewrite <-(r_len s HI i m Hm), insert_id; [by destruct s|].
  by destruct m.
Qed.

Lemma with_thread_id p t s : threads s !! p = Some t → with_thread p t s = s.
Proof. intros Ht. unfold with_thread. rewrite insert_id by done. by destruct s. Qed.

Lemma with_queue_queue i q q' s : with_queue i q (with_queue i q' s) = with_queue i q s.
Proof. unfold with_queue. simpl. by rewrite insert_insert_eq. Qed.

Lemma with_thread_thread p t t' s : with_thread p t (with_thread p t' s) = with_thread p t s.
Proof. unfold with_thread. simpl. by rewrite insert_insert_eq. Qed.

Lemma retire_all_queue l i q s : retire_all l (with_queue i q s) = with_queue i q (retire_all l s).
Proof.
  revert s. induction l as [|p l IH]; intros s; [done|]. simpl.
  destruct (threads s !! p); rewrite <-IH; done.
Qed.

(** The search depends on the threads of the list only. *)
Lemma runnable_other s p t x : x ≠ p → runnable (with_thread p t s) x = runnable s x.
Proof. intros Hx. unfold runnable. simpl. by rewrite lookup_insert_ne. Qed.

Lemma leaving_other s p t x : x ≠ p → leaving (with_thread p t s) x = leaving s x.
Proof. intros Hx. unfold leaving. simpl. by rewrite lookup_insert_ne. Qed.

Lemma first_runnable_other s p t l : p ∉ l → first_runnable (with_thread p t s) l = first_runnable s l.
Proof.
  induction l as [|x l IH]; intros Hp; [done|]. simpl.
  rewrite runnable_other, IH by set_solver. done.
Qed.

Lemma first_runnable_queue s i q l : first_runnable (with_queue i q s) l = first_runnable s l.
Proof.
  induction l as [|x l IH]; [done|]. simpl. rewrite IH.
  by change (runnable (with_queue i q s) x) with (runnable s x).
Qed.

Lemma first_runnable_app s l pre r : first_runnable s l = (pre, r) →
  l = pre ++ match r with Some (p, post) => p :: post | None => [] end.
Proof.
  revert pre. induction l as [|x l IH]; intros pre; simpl; [by intros [= <- <-]|].
  destruct (runnable s x); [by intros [= <- <-]|].
  destruct (first_runnable s l) as [pre' r'] eqn:Hf. intros [= <- <-]. simpl. f_equal. by apply IH.
Qed.

Lemma stays_other s p t l : p ∉ l → stays (with_thread p t s) l = stays s l.
Proof.
  induction l as [|x l IH]; intros Hp; [done|]. unfold stays in *. rewrite !filter_cons.
  rewrite leaving_other, IH by set_solver. done.
Qed.

Lemma filter_middle (a b : list Z) p : NoDup (a ++ p :: b) → filter (λ x, x ≠ p) (a ++ p :: b) = a ++ b.
Proof.
  intros (Ha&Hab&Hb)%NoDup_app. apply NoDup_cons in Hb as [Hpb Hb]. rewrite filter_app, filter_cons.
  rewrite decide_False by naive_solver.
  assert (∀ l : list Z, p ∉ l → filter (λ x, x ≠ p) l = l) as Hid.
  { induction l as [|x l IH]; intros Hp; [done|]. rewrite filter_cons, decide_True by set_solver. f_equal. set_solver. }
  rewrite !Hid; [done|done|]. intros Hpa. apply (Hab p Hpa). set_solver.
Qed.

(** A thread of the queue leaves: what [find_runnable_thread] does to it. *)
Lemma wp_retire {A} (k : M sched A) (Q : A → sched → Prop) s i m p t a b f :
  rr_inv s → rr_ready_queue_meta s !! i = Some m → queue m = a ++ p :: b → threads s !! p = Some t →
  f (set_queue_cpuid NO_AFF_u32 t) = retire t → queue_cpuid (retire t) = NO_AFF_u32 → type (retire t) = type t →
  (∀ s', s' = with_queue i (a ++ b) (with_thread p (retire t) s) → rr_inv s' → wp k Q s') →
  wp (__rr_sched_dequeue p;; upd p f;; k) Q s.
Proof.
  intros HI Hm Hq Ht Hf Hqc Hty HQ. wp_seq. eapply wp_mono; [apply (wp_dequeue s p t i m HI Hm); [rewrite Hq; set_solver|done]|].
  intros r s1 (_&Hs1&HI1). assert (threads s1 !! p = Some (set_queue_cpuid NO_AFF_u32 t)) as Ht1
    by (rewrite Hs1; apply lookup_insert_eq).
  wp_seq. eapply wp_upd; [done|]. rewrite Hf. apply HQ.
  - rewrite Hs1, Hq, filter_middle; [|rewrite <-Hq; exact (r_nodup s HI i m Hm)]. unfold with_queue, with_thread. simpl.
    by rewrite insert_insert_eq.
  - eapply rr_inv_thread; [done|done|by rewrite Hqc|by rewrite Hty|by left].
Qed.

Lemma wp_find_runnable i l s m a :
  rr_inv s → rr_ready_queue_meta s !! i = Some m → queue m = a ++ l →
  wp (find_runnable_thread c l) (λ o s',
    let '(pre, r) := first_runnable s l in
    o = fst <$> r ∧ rr_inv s' ∧
    s' = with_queue i (a ++ stays s pre ++ match r with Some (p, post) => p :: post | None => [] end)
           (retire_all pre s)) s.
Proof.
  revert s m a. induction l as [|p l IH]; intros s m a HI Hm Hq; cbn [find_runnable_thread first_runnable].
  { wp_seq. split_and!; [done|done|]. rewrite app_nil_r in *. by rewrite <-Hq, (with_queue_id i m) by done. }
  pose proof (r_nodup s HI i m Hm) as Hnd. rewrite Hq in Hnd.
  assert (p ∉ l) as Hpl. { apply NoDup_app in Hnd as (_&_&[? _]%NoDup_cons). done. }
  destruct (r_in s HI i m p Hm) as (t&Ht&Hqc&_&_); [rewrite Hq; set_solver|].
  assert (∀ s', s' = with_queue i (a ++ l) (with_thread p (retire t) s) → rr_inv s' → leaving s p = true →
    wp (find_runnable_thread c l) (λ o s2,
      let '(pre, r) := first_runnable s l in o = fst <$> r ∧ rr_inv s2 ∧
      s2 = with_queue i (a ++ stays s (p :: pre) ++ match r with Some (x, post) => x :: post | None => [] end)
             (retire_all (p :: pre) s)) s') as Hleave.
  { intros s' Hs' HI' Hlv. eapply wp_mono; [apply (IH s' (QMeta (a ++ l) (Z.of_nat (length (a ++ l)))) a HI')|].
    - rewrite Hs'. apply lookup_insert_eq.
    - done.
    - intros o s2. rewrite Hs', first_runnable_queue, first_runnable_other by done.
      destruct (first_runnable s l) as [pre r] eqn:Hf. apply first_runnable_app in Hf.
      intros (->&HI2&->). split_and!; [done|done|].
      change (stays (with_queue i (a ++ l) (with_thread p (retire t) s)) pre)
        with (stays (with_thread p (retire t) s) pre).
      rewrite stays_other by (intros Hin; apply Hpl; rewrite Hf; set_solver).
      rewrite retire_all_queue, with_queue_queue. unfold stays. rewrite filter_cons, decide_False by congruence.
      simpl. by rewrite Ht. }
  assert (leaving s p = false → retire t = t →
    wp (find_runnable_thread c l) (λ o s2,
      let '(pre, r) := first_runnable s l in o = fst <$> r ∧ rr_inv s2 ∧
      s2 = with_queue i (a ++ stays s (p :: pre) ++ match r with Some (x, post) => x :: post | None => [] end)
             (retire_all (p :: pre) s)) s) as Hskip.
  { intros Hlv Hrt. eapply wp_mono; [apply (IH s m (a ++ [p]) HI Hm); by rewrite <-(assoc (++))|].
    intros o s2. destruct (first_runnable s l) as [pre r]. intros (->&HI2&->). split_and!; [done|done|].
    unfold stays. rewrite filter_cons, decide_True by done. simpl. rewrite Ht, Hrt, with_thread_id by done.
    by rewrite <-(assoc (++)). }
  assert (runnable s p = match exit_state t with TE_RUNNING => negb (ks_locked t) || is_current c p s | _ => false end) as Hrun
    by (unfold runnable; rewrite Ht; by destruct (exit_state t)).
  assert (leaving s p = match exit_state t with TE_EXITING | TE_STOPPING => true | _ => false end) as Hlv
    by (unfold leaving; rewrite Ht; by destruct (exit_state t)).
  wp_seq. s_thr. rewrite Hrun. unfold retire in *. destruct (exit_state t) eqn:Hex.
  - destruct (negb (ks_locked t) || is_current c p s).
    + wp_seq. split_and!; [done|done|]. simpl. by rewrite <-Hq, (with_queue_id i m).
    + eapply wp_mono; [by apply Hskip|]. intros o s2. by destruct (first_runnable s l).
  - eapply (wp_retire _ _ s i m p t a l); try done; unfold retire; rewrite ?Hex; try done.
    intros s' Hs' HI'. eapply wp_mono; [by apply (Hleave s')|]. intros o s2. by destruct (first_runnable s l).
  - eapply wp_mono; [by apply Hskip|]. intros o s2. by destruct (first_runnable s l).
  - eapply wp_mono; [by apply Hskip|]. intros o s2. by destruct (first_runnable s l).
  - eapply (wp_retire _ _ s i m p t a l); try done; unfold retire; rewrite ?Hex; try done.
    intros s' Hs' HI'. eapply wp_mono; [by apply (Hleave s')|]. intros o s2. by destruct (first_runnable s l).
  - eapply wp_mono; [by apply Hskip|]. intros o s2. by destruct (first_runnable s l).
Qed.

Lemma retire_all_other l s p : p ∉ l → threads (retire_all l s) !! p = threads s !! p.
Proof.
  revert s. induction l as [|x l IH]; intros s Hp; [done|]. simpl. rewrite IH by set_solver.
  destruct (threads s !! x); [|done]. simpl. by rewrite lookup_insert_ne by set_solver.
Qed.

Lemma first_runnable_Some s l pre p post : first_runnable s l = (pre, Some (p, post)) →
  runnable s p = true ∧ Forall (λ x, runnable s x = false) pre.
Proof.
  revert pre. induction l as [|x l IH]; intros pre; simpl; [done|].
  destruct (runnable s x) eqn:Hx; [by intros [= <- <- <-]|].
  destruct (first_runnable s l) as [pre' r] eqn:Hf. intros [= <- ->]. destruct (IH pre' eq_refl) as [? ?].
  split; [done|]. by constructor.
Qed.

(** The state after [rr_sched_choose_thread]. *)
Definition chosen (s : sched) (q : list Z) : Z * sched :=
  match first_runnable s q with
  | (pre, None) => (idle_threads (cpu c), with_queue (cpu c) (stays s pre) (retire_all pre s))
  | (pre, Some (p, post)) =>
      (p, with_queue (cpu c) (stays s pre ++ post)
            (match threads s !! p with
             | Some t => with_thread p (set_state TS_TO_SCHED (set_queue_cpuid NO_AFF_u32 t)) (retire_all pre s)
             | None => s
             end))
  end.

Lemma wp_choose_thread s m :
  rr_inv s → rr_ready_queue_meta s !! cpu c = Some m →
  wp (rr_sched_choose_thread c) (λ p s', rr_inv s' ∧ (p, s') = chosen s (queue m)) s.
Proof.
  intros HI Hm. unfold rr_sched_choose_thread, chosen. wp_seq. eapply wp_rr_meta; [done|].
  destruct (queue m) as [|x q] eqn:Hq.
  { wp_seq. split; [done|]. simpl. change (stays s []) with (@nil Z). by rewrite <-Hq, with_queue_id. }
  rewrite <-Hq. remember (length (queue m)) as n. cbn [choose_again]. wp_seq. eapply wp_rr_meta; [done|].
  rewrite Hq at 1. wp_seq. eapply wp_mono; [by apply (wp_find_runnable (cpu c) (queue m) s m [])|].
  intros o s1. destruct (first_runnable s (queue m)) as [pre r] eqn:Hf. simpl. intros (->&HI1&Hs1).
  destruct r as [[p post]|]; simpl.
  2: { wp_seq. split; [done|]. by rewrite Hs1, app_nil_r. }
  pose proof (first_runnable_app _ _ _ _ Hf) as Hql. simpl in Hql.
  destruct (first_runnable_Some _ _ _ _ _ Hf) as [Hrun _].
  unfold runnable in Hrun. destruct (threads s !! p) as [t|] eqn:Ht; [|done].
  apply andb_prop in Hrun as [Hex _]. apply bool_decide_eq_true in Hex.
  pose proof (r_nodup s HI _ _ Hm) as Hnd. rewrite Hql in Hnd.
  assert (p ∉ pre) as Hpre by (apply NoDup_app in Hnd as (_&Hd&_); intros Hp; apply (Hd p Hp); set_solver).
  assert (threads s1 !! p = Some t) as Ht1 by (rewrite Hs1; simpl; by rewrite retire_all_other).
  set (q1 := stays s pre ++ p :: post) in *.
  assert (rr_ready_queue_meta s1 !! cpu c = Some (QMeta q1 (Z.of_nat (length q1)))) as Hm1
    by (rewrite Hs1; simpl; by rewrite lookup_insert_eq).
  wp_seq. eapply wp_mono; [apply (wp_dequeue s1 p t (cpu c) _ HI1 Hm1); [simpl; set_solver|done]|].
  intros ret s2 (->&Hs2&HI2). simpl in Hs2. wp_seq. s_bug; [done|].
  assert (threads s2 !! p = Some (set_queue_cpuid NO_AFF_u32 t)) as Ht2 by (rewrite Hs2; apply lookup_insert_eq).
  s_thr. simpl. rewrite Hex. rewrite !bool_decide_eq_false_2 by done. wp_seq. s_upd. wp_seq.
  eapply wp_upd; [apply lookup_insert_eq|]. wp_seq. rewrite with_thread_thread. split.
  - eapply rr_inv_thread; [done|done|done|done|by left].
  - f_equal. rewrite Hs2, Hs1. unfold q1. rewrite filter_middle.
    + unfold with_queue, with_thread. simpl. by rewrite !insert_insert_eq.
    + pose proof (r_nodup s1 HI1 _ _ Hm1). done.
Qed.

(** ** Choosing a CPU *)

(** The CPUs of this machine are [CPU_RANGE_LOW .. CPU_RANGE_HIGH] of the cluster. *)
Record config_ok : Prop := {
  c_cpu : 0 ≤ cpu c < PLAT_CPU_NUM;
  c_low : 0 ≤ CPU_RANGE_LOW c;
  c_high : CPU_RANGE_HIGH c = CPU_RANGE_LOW c + PLAT_CPU_NUM - 1;
  c_num : CPU_RANGE_HIGH c < CLUSTER_CPU_NUM c ≤ 1024
}.

(** The length of the ready queue of a CPU. *)
Definition load (s : sched) (i : Z) : Z :=
  match rr_ready_queue_meta s !! i with Some m => queue_len m | None => 0 end.

Lemma wp_choose_loop n j start best s :
  rr_inv s → 0 ≤ start → 0 ≤ j → 0 ≤ best < PLAT_CPU_NUM → load s best ≤ load s (cpu c) →
  wp (choose_loop c n j start best (load s best)) (λ r s', s' = s ∧ 0 ≤ r < PLAT_CPU_NUM ∧
    load s r ≤ load s best ∧ load s r ≤ load s (cpu c) ∧
    ∀ k, j ≤ k < j + Z.of_nat n → load s r ≤ load s ((start + k) mod PLAT_CPU_NUM)) s.
Proof.
  intros HI Hstart. revert j best. induction n as [|n IH]; intros j best Hj Hb Hcpu; cbn [choose_loop].
  { wp_seq. split_and!; [done|lia..]. }
  set (i := (start + j) mod PLAT_CPU_NUM).
  assert (0 ≤ i < PLAT_CPU_NUM) as Hi by (apply Z.mod_pos_bound; done).
  assert (∀ b', 0 ≤ b' < PLAT_CPU_NUM → load s b' ≤ load s best → load s b' ≤ load s i →
    wp (choose_loop c n (j + 1) start b' (load s b')) (λ r s', s' = s ∧ 0 ≤ r < PLAT_CPU_NUM ∧
      load s r ≤ load s best ∧ load s r ≤ load s (cpu c) ∧
      ∀ k, j ≤ k < j + Z.of_nat (S n) → load s r ≤ load s ((start + k) mod PLAT_CPU_NUM)) s) as Hstep.
  { intros b' Hb' Hle Hlei. eapply wp_mono; [apply IH; lia|]. intros r s' (->&Hr&H1&H2&H3). split_and!; [done|lia..|].
    intros k Hk. destruct (decide (k = j)) as [->|]; [fold i; lia|apply H3; lia]. }
  case_bool_decide as Hloc; [apply Hstep; [done|done|by rewrite Hloc]|].
  destruct (proj2 (r_dom s HI i) Hi) as [m Hm]. assert (load s i = queue_len m) as Hl by (unfold load; by rewrite Hm).
  wp_seq. eapply wp_rr_meta; [done|]. rewrite <-Hl. case_bool_decide; apply Hstep; lia.
Qed.

Lemma wp_choose_cpu s :
  rr_inv s → config_ok →
  wp (rr_sched_choose_cpu c) (λ g s', s' = s ∧ ∃ i, g = cpuid_l2g c i ∧ 0 ≤ i < PLAT_CPU_NUM ∧
    ∀ j, 0 ≤ j < PLAT_CPU_NUM → load s i ≤ load s j) s.
Proof.
  intros HI Hc. pose proof (c_cpu Hc) as Hcpu. unfold rr_sched_choose_cpu. wp_seq.
  destruct (proj2 (r_dom s HI (cpu c)) Hcpu) as [m Hm].
  assert (load s (cpu c) = queue_len m) as Hl by (unfold load; by rewrite Hm).
  assert (∀ j, 0 ≤ load s j) as Hpos.
  { intros j. unfold load. destruct (rr_ready_queue_meta s !! j) eqn:Hj; [|done].
    rewrite (r_len s HI _ _ Hj). lia. }
  eapply wp_rr_meta; [done|]. rewrite <-Hl. case_bool_decide as Hz.
  { wp_seq. split; [done|]. exists (cpu c). split_and!; [done|lia..|]. intros j _. pose proof (Hpos j). lia. }
  wp_seq. eapply wp_mono; [apply wp_choose_loop; [done|apply Z.mod_pos_bound; done|done|done|done]|].
  intros r s' (->&Hr&_&_&Hmin). wp_seq. split; [done|]. exists r. split_and!; [done|lia..|].
  intros j Hj. set (st := (cpu c + 1) mod PLAT_CPU_NUM) in *.
  assert (0 ≤ st < PLAT_CPU_NUM) by (apply Z.mod_pos_bound; done).
  specialize (Hmin ((j - st) mod PLAT_CPU_NUM)). rewrite Zplus_mod_idemp_r in Hmin.
  replace (st + (j - st)) with j in Hmin by lia. rewrite (Z.mod_small j) in Hmin by done.
  apply Hmin. pose proof (Z.mod_pos_bound (j - st) PLAT_CPU_NUM ltac:(done)).
  change (Z.of_nat (Z.to_nat PLAT_CPU_NUM)) with PLAT_CPU_NUM. lia.
Qed.

(** ** Enqueueing *)

(** A word with bits for the CPUs of this machine only *)
Definition cpu_bits (b : Z) : Prop := 0 ≤ b < 2 ^ PLAT_CPU_NUM.

Lemma cpu_bits_add b i : cpu_bits b → 0 ≤ i < PLAT_CPU_NUM → cpu_bits (Z.lor b (BIT i)).
Proof.
  unfold cpu_bits, BIT, PLAT_CPU_NUM. intros Hb Hi. rewrite Z.shiftl_1_l.
  assert (0 < 2 ^ i < 2 ^ 12) by (split; [apply Z.pow_pos_nonneg; lia|apply Z.pow_lt_mono_r; lia]).
  split; [apply Z.lor_nonneg; lia|]. destruct (decide (Z.lor b (2 ^ i) = 0)) as [->|Hne]; [done|].
  apply Z.log2_lt_pow2; [pose proof (proj2 (Z.lor_nonneg b (2 ^ i))); lia|]. rewrite Z.log2_lor, Z.log2_pow2 by lia.
  apply Z.max_lub_lt; [|lia]. destruct (decide (b = 0)) as [->|]; [done|]. apply Z.log2_lt_pow2; lia.
Qed.

(** Nothing but the requests to other CPUs changes, and they are for CPUs of this machine. *)
Definition interrupts_only (s s' : sched) : Prop :=
  ∃ bm fl ks, s' = set_resched_bitmaps bm (set_resched_flags fl (set_kicks ks s)) ∧
    ∀ j, cpu_bits (default 0 (resched_bitmaps s !! j)) → cpu_bits (default 0 (bm !! j)).

(** CPU [i] is asked to look at its queue: at once, or when the thread that is
    still running here has been switched away. *)
Definition informed (s s' : sched) (p i : Z) : Prop :=
  i = cpu c ∨
  (if is_current c p s then Z.testbit (default 0 (resched_bitmaps s' !! cpu c)) i = true
   else kicks s' = kicks s ++ [i]).

Lemma rr_inv_interrupts s s' : interrupts_only s s' → rr_inv s → rr_inv s'.
Proof. intros (bm&fl&ks&->&_) HI. split; apply HI. Qed.

Lemma is_local_range a : config_ok → CPU_RANGE_LOW c ≤ a ≤ CPU_RANGE_HIGH c → is_local_cpu c a = true.
Proof.
  intros [_ Hl Hh Hn] Ha. unfold is_local_cpu. rewrite wrap_u32_small by lia. by rewrite bool_decide_eq_true_2.
Qed.

Lemma is_local_no_aff : is_local_cpu c NO_AFF = true.
Proof. unfold is_local_cpu. change (wrap_u32 NO_AFF) with NO_AFF_u32. rewrite (bool_decide_eq_true_2 (_ = _)) by done. apply orb_true_r. Qed.

Lemma wp_inform s p i :
  0 ≤ i < PLAT_CPU_NUM →
  wp (when (negb (bool_decide (i = cpu c)))
        (if is_current c p s then add_pending_resched c i else sched_kick_cpu c i))
     (λ _ s', interrupts_only s s' ∧ informed s s' p i) s.
Proof.
  intros Hi. case_bool_decide as Hl; simpl; wp_seq.
  { split; [|by left]. exists (resched_bitmaps s), (resched_flags s), (kicks s). split; [by destruct s|done]. }
  unfold informed. destruct (is_current c p s).
  - unfold add_pending_resched. wp_seq. s_bug; [apply bool_decide_eq_false; lia|]. split.
    + eexists _, (resched_flags s), (kicks s). split; [by destruct s|]. intros j Hj.
      destruct (decide (j = cpu c)) as [->|]; [rewrite lookup_insert_eq; by apply cpu_bits_add|by rewrite lookup_insert_ne].
    + right. simpl. rewrite lookup_insert_eq. simpl. unfold BIT. rewrite Z.lor_spec, Z.shiftl_1_l, Z.pow2_bits_true by lia.
      apply orb_true_r.
  - unfold sched_kick_cpu. wp_seq. s_bug; [apply bool_decide_eq_false; lia|]. s_bug; [by apply bool_decide_eq_false|].
    split; [|by right]. exists (resched_bitmaps s), (<[i := true]> (resched_flags s)), (kicks s ++ [i]). split; [by destruct s|done].
Qed.

(** Where a thread may go: its CPU, or the least loaded one. *)
Definition goes_to (s : sched) (t : thread) (i : Z) : Prop :=
  0 ≤ i < PLAT_CPU_NUM ∧
  if bool_decide (affinity t = NO_AFF) then ∀ j, 0 ≤ j < PLAT_CPU_NUM → load s i ≤ load s j
  else affinity t = cpuid_l2g c i.

(** A thread that can be put on a ready queue of this machine. *)
Record enqueueable (s : sched) (p : Z) (t : thread) : Prop := {
  e_off : off_queue s p t;
  e_exit : exit_state t = TE_RUNNING;
  e_bridge : bridge t = false;
  e_state : state t ≠ TS_READY;
  e_prio : prio t ≤ MAX_PRIO;
  e_fpu : is_fpu_owner t < 0;
  e_aff : affinity t = NO_AFF ∨ CPU_RANGE_LOW c ≤ affinity t ≤ CPU_RANGE_HIGH c
}.

Definition enqueued (i : Z) (t : thread) : thread := set_queue_cpuid i (set_state TS_READY (set_cpuid i t)).

(** What [rr_sched_enqueue] has done. *)
Definition placed (s : sched) (p : Z) (t : thread) (r : Z) (s' : sched) : Prop :=
  r = 0 ∧ rr_inv s' ∧ ∃ i m, goes_to s t i ∧ rr_ready_queue_meta s !! i = Some m ∧ informed s s' p i ∧
    interrupts_only (with_queue i (queue m ++ [p]) (with_thread p (enqueued i t) s)) s'.

Lemma wp_place s p t i :
  rr_inv s → config_ok → enqueueable s p t → goes_to s t i →
  wp (rr_sched_place c p t (cpuid_l2g c i)) (placed s p t) s.
Proof.
  intros HI Hc [Hoff Hex Hbr Hst Hpr Hfpu Haff] Hi. pose proof Hc as [Hcpu Hlow Hhigh Hnum].
  assert (is_local_cpu c (affinity t) = true) as Hloc.
  { destruct Haff as [-> | ?]; [apply is_local_no_aff|by apply is_local_range]. }
  pose proof Hi as [Hir _]. unfold rr_sched_place, cpuid_l2g in *. unfold PLAT_CPU_NUM in Hhigh, Hir.
  rewrite bool_decide_eq_false_2 by lia.
  rewrite bool_decide_eq_false_2 by (rewrite wrap_u32_small; lia).
  rewrite is_local_range by (done || lia). cbn [negb]. unfold cpuid_g2l.
  replace (i + CPU_RANGE_LOW c - CPU_RANGE_LOW c) with i by lia. cbv zeta.
  destruct (proj2 (r_dom s HI i) Hir) as [m Hm]. wp_seq.
  eapply wp_mono; [by apply (wp_enqueue s p t i m)|]. intros r s1 (->&->&HI1). wp_seq.
  rewrite (bool_decide_eq_true_2 (0 = 0)) by done. cbn [andb]. eapply wp_mono; [by apply wp_inform|].
  intros [] s2 [Hint Hinf]. wp_seq. split_and!; [done|by eapply rr_inv_interrupts|].
  by exists i, m.
Qed.

Lemma wp_rr_sched_enqueue s p t :
  rr_inv s → config_ok → enqueueable s p t → wp (rr_sched_enqueue c p) (placed s p t) s.
Proof.
  intros HI Hc He. pose proof He as [(Ht&Hty&_) Hex Hbr Hst Hpr Hfpu Haff].
  assert (is_local_cpu c (affinity t) = true) as Hloc.
  { destruct Haff as [-> | ?]; [apply is_local_no_aff|by apply is_local_range]. }
  unfold rr_sched_enqueue, get_cpubind. wp_seq. s_thr. rewrite Hbr, Hex, (bool_decide_eq_false_2 (type t = _)) by done.
  rewrite !bool_decide_eq_false_2 by done. wp_seq. s_thr.
  rewrite Hloc, (bool_decide_eq_true_2 (is_fpu_owner t < 0)) by done. cbn [negb]. wp_seq.
  case_bool_decide as Ha.
  - eapply wp_mono; [by apply wp_choose_cpu|]. intros g s1 (->&i&->&Hi&Hmin). apply wp_place; [done..|].
    split; [done|]. by rewrite bool_decide_eq_true_2.
  - wp_seq. destruct Haff as [?|Haff]; [done|]. pose proof Hc as [_ Hlow Hhigh _]. unfold PLAT_CPU_NUM in Hhigh.
    replace (affinity t) with (cpuid_l2g c (affinity t - CPU_RANGE_LOW c)) by (unfold cpuid_l2g; lia).
    apply wp_place; [done..|]. split; [unfold PLAT_CPU_NUM; lia|]. rewrite bool_decide_eq_false_2 by done.
    unfold cpuid_l2g. lia.
Qed.

(** ** Enqueueing any thread *)

(** [get_cpubind] takes the FPU of this CPU from a thread that is bound to another one. *)
Definition gives_up_fpu (t : thread) : bool :=
  is_local_cpu c (affinity t) && bool_decide (is_fpu_owner t = cpu c) &&
  negb (bool_decide (affinity t = cpu c) || bool_decide (affinity t = NO_AFF)).
Definition loses_fpu (s : sched) (p : Z) (t : thread) : bool :=
  negb (bridge t) && gives_up_fpu t && bool_decide (fpu_owner s !! cpu c = Some p).
Definition unbound (s : sched) (p : Z) (t : thread) : thread := if loses_fpu s p t then set_fpu_owner (-1) t else t.
Definition without_fpu (s : sched) (p : Z) (t : thread) : sched :=
  if loses_fpu s p t then set_fpu (delete (cpu c) (fpu_owner s)) (with_thread p (set_fpu_owner (-1) t) s) else s.

(** The CPU of the cluster that a thread goes to: a bridge thread to the machine of its thread, a thread bound to another machine there, an owner of
    an FPU to the CPU of that FPU (unless it has to leave this one), others to their CPU or to a least loaded one. *)
Definition destination (s : sched) (t : thread) (g : Z) : Prop :=
  if bridge t then
    if bool_decide (cpuid t = NO_AFF_u32) then g = machine_id t
    else ∃ lo hi, local_meta c !! Z.to_nat (machine_id t) = Some (lo, hi) ∧ lo + cpuid t ≤ hi ∧ g = lo + cpuid t
  else if negb (is_local_cpu c (affinity t)) then g = affinity t
  else if bool_decide (is_fpu_owner t < 0) then
    if bool_decide (affinity t = NO_AFF)
    then ∃ i, g = cpuid_l2g c i ∧ 0 ≤ i < PLAT_CPU_NUM ∧ ∀ j, 0 ≤ j < PLAT_CPU_NUM → load s i ≤ load s j
    else g = affinity t
  else if bool_decide (is_fpu_owner t = cpu c) then
    if bool_decide (affinity t = cpu c) || bool_decide (affinity t = NO_AFF) then g = cpuid_l2g c (cpu c) else g = affinity t
  else g = cpuid_l2g c (is_fpu_owner t).

(** A thread that is on no queue, unless it is marked ready, with fields in their ranges; what the code needs of the rest: a bridge thread that comes to this machine
    must be bound to it, the shared queues exist, and no other interrupt to a machine is put off when the running thread leaves. *)
Record schedulable (s : sched) (p : Z) (t : thread) : Prop := {
  sd_thread : threads s !! p = Some t;
  sd_queue : state t ≠ TS_READY → queue_cpuid t = NO_AFF_u32;
  sd_exit : gives_up_fpu t = true → exit_state t ≠ TE_EXITED;
  sd_aff : -1 ≤ affinity t < 2 ^ 31;
  sd_fpu : is_fpu_owner t < PLAT_CPU_NUM;
  sd_bridge : bridge t = true → 0 ≤ machine_id t < 2 ^ 31 ∧ 0 ≤ cpuid t < 2 ^ 32 ∧
    (cpuid t ≠ NO_AFF_u32 → ∃ lo hi, local_meta c !! Z.to_nat (machine_id t) = Some (lo, hi) ∧ 0 ≤ lo ∧ lo + cpuid t ≤ hi ∧ hi < 2 ^ 31) ∧
    is_local_cpu c (affinity t) = true;
  sd_shared : ∀ g, 0 ≤ g < CLUSTER_CPU_NUM c → is_Some (shared_queue s !! g);
  sd_pending : is_current c p s = true → default (-1) (pending_remote_resched s !! cpu c) < 0
}.

(** What [rr_sched_enqueue] does *)
Inductive enqueue_result (s : sched) (p : Z) (t : thread) : Z → sched → Prop :=
  | EnqIdle : type t = TYPE_IDLE → enqueue_result s p t 0 s
  | EnqExiting : type t ≠ TYPE_IDLE → exit_state t = TE_EXITING → enqueue_result s p t 0 (with_thread p (set_exit_state TE_EXITED t) s)
  | EnqStopping : type t ≠ TYPE_IDLE → exit_state t = TE_STOPPING → enqueue_result s p t 0 (with_thread p (set_exit_state TE_STOPPED t) s)
  | EnqRefused g : type t ≠ TYPE_IDLE → exit_state t ≠ TE_EXITING → exit_state t ≠ TE_STOPPING → destination s t g →
      prio t > MAX_PRIO ∨ g >= CLUSTER_CPU_NUM c ∨ (state t = TS_READY ∧ CPU_RANGE_LOW c ≤ g ≤ CPU_RANGE_HIGH c) → enqueue_result s p t (- EINVAL) (without_fpu s p t)
  | EnqRemote g q : type t ≠ TYPE_IDLE → exit_state t ≠ TE_EXITING → exit_state t ≠ TE_STOPPING → destination s t g →
      prio t ≤ MAX_PRIO → 0 ≤ g < CLUSTER_CPU_NUM c → ¬ (CPU_RANGE_LOW c ≤ g ≤ CPU_RANGE_HIGH c) → shared_queue s !! g = Some q →
      enqueue_result s p t 0
        (let s1 := set_shared (<[g := q ++ [p]]> (shared_queue s)) (without_fpu s p t) in
         if is_current c p s then set_pending_remote (<[cpu c := g]> (pending_remote_resched s)) s1 else set_msis (msis s ++ [g]) s1)
  | EnqLocal i m s' : type t ≠ TYPE_IDLE → exit_state t ≠ TE_EXITING → exit_state t ≠ TE_STOPPING → destination s t (cpuid_l2g c i) →
      prio t ≤ MAX_PRIO → state t ≠ TS_READY → 0 ≤ i < PLAT_CPU_NUM → rr_ready_queue_meta s !! i = Some m → informed s s' p i →
      interrupts_only (with_queue i (queue m ++ [p]) (with_thread p (enqueued i (unbound s p t)) (without_fpu s p t))) s' →
      enqueue_result s p t 0 s'.

Lemma destination_range s p t g : config_ok → schedulable s p t → destination s t g → 0 ≤ g < 2 ^ 32.
Proof.
  intros [Hcpu Hlow Hhigh Hnum] [_ _ _ Haff Hfpu Hbr _ _]. unfold PLAT_CPU_NUM in *. unfold destination, cpuid_l2g. destruct (bridge t) eqn:Eb.
  - destruct (Hbr eq_refl) as (?&?&Hlo&_). case_bool_decide as Hc; [lia|]. intros (lo&hi&Hl&?&->). destruct (Hlo Hc) as (lo'&hi'&Hl'&?&?&?). rewrite Hl in Hl'.
    injection Hl' as <- <-. lia.
  - destruct (is_local_cpu c (affinity t)) eqn:El; cbn [negb].
    + case_bool_decide; [case_bool_decide|case_bool_decide; [|lia]].
      * intros (i&->&?&_). unfold PLAT_CPU_NUM in *. lia.
      * intros ->. unfold NO_AFF in *. lia.
      * destruct (bool_decide (affinity t = cpu c)); cbn [orb]; [lia|]. case_bool_decide; [lia|]. intros ->. unfold NO_AFF in *. lia.
    + intros ->. assert (affinity t ≠ NO_AFF) by (intros E; by rewrite E, is_local_no_aff in El). unfold NO_AFF in *. lia.
Qed.

(** The step to a CPU that is known; [t] is the thread as it was read first. *)
Lemma wp_place_any s s0 p t t0 g : rr_inv s → config_ok → schedulable s p t → type t ≠ TYPE_IDLE → exit_state t ≠ TE_EXITING → exit_state t ≠ TE_STOPPING →
  destination s t g → rr_inv s0 → s0 = without_fpu s p t → t0 = unbound s p t →
  wp (rr_sched_place c p t g) (λ r s', rr_inv s' ∧ enqueue_result s p t r s') s0.
Proof.
  intros HI Hc Hsd Hty Hx1 Hx2 Hg HI0 Es0 Et0. pose proof (destination_range _ _ _ _ Hc Hsd Hg) as Hgr.
  pose proof Hsd as [Ht Hqc Hex Haff Hfpu Hbr Hsh Hpd]. pose proof Hc as [Hcpu Hlow Hhigh Hnum].
  assert (threads s0 !! p = Some t0) as Ht0.
  { subst s0 t0. unfold without_fpu, unbound. destruct (loses_fpu s p t); [cbn; by rewrite lookup_insert_eq|done]. }
  assert (shared_queue s0 = shared_queue s ∧ rr_ready_queue_meta s0 = rr_ready_queue_meta s ∧ pending_remote_resched s0 = pending_remote_resched s ∧
    msis s0 = msis s ∧ current_threads s0 = current_threads s ∧ kicks s0 = kicks s) as (Esh&Err&Epd&Ems&Ecu&Eki).
  { subst s0. unfold without_fpu. by destruct (loses_fpu s p t). }
  assert (queue_cpuid t0 = queue_cpuid t ∧ type t0 = type t ∧ state t0 = state t ∧ affinity t0 = affinity t) as (Eq0&Ety&Est&Eaf).
  { subst t0. unfold unbound. by destruct (loses_fpu s p t). }
  unfold rr_sched_place. rewrite wrap_u32_small by lia.
  case_bool_decide as Hpr; [wp_seq; split; [done|]; subst s0; by eapply EnqRefused; [..|left]|].
  case_bool_decide as Hcl; [wp_seq; split; [done|]; subst s0; by eapply EnqRefused; [..|right; left]|].
  destruct (decide (CPU_RANGE_LOW c ≤ g ≤ CPU_RANGE_HIGH c)) as [Hl|Hr].
  - rewrite is_local_range by done. cbn [negb]. unfold cpuid_g2l. set (i := g - CPU_RANGE_LOW c). cbv zeta.
    assert (0 ≤ i < PLAT_CPU_NUM) as Hi by (unfold i, PLAT_CPU_NUM in *; lia). destruct (proj2 (r_dom s0 HI0 i) Hi) as [m Hm]. wp_seq.
    assert (is_local_cpu c (affinity t0) = true) as Hloc.
    { rewrite Eaf. destruct (bridge t) eqn:Eb; [by apply (Hbr eq_refl)|]. destruct (is_local_cpu c (affinity t)) eqn:El; [done|].
      unfold destination in Hg. rewrite Eb, El in Hg. cbn in Hg. subst g. rewrite is_local_range in El by done. done. }
    destruct (decide (state t = TS_READY)) as [Hst|Hst].
    { unfold __rr_sched_enqueue. wp_seq. s_thr. s_bug; [by rewrite Hloc|]. rewrite Est, bool_decide_eq_true_2 by done. wp_seq. cbn.
      split; [done|]. subst s0. by eapply EnqRefused; [..|right; right]. }
    eapply wp_mono; [apply (wp_enqueue s0 p t0 i m); [done|split_and!; [done|by rewrite Ety|by rewrite Eq0, Hqc]|done|by rewrite Est|done]|]. intros r s1 (->&->&HI1). wp_seq.
    rewrite (bool_decide_eq_true_2 (0 = 0)) by done. cbn [andb]. eapply wp_mono; [by apply wp_inform|].
    intros [] s2 [Hint Hinf]. wp_seq. split; [by eapply rr_inv_interrupts|].
    apply (EnqLocal _ _ _ i m); try done.
    + unfold cpuid_l2g, i. by replace (g - CPU_RANGE_LOW c + CPU_RANGE_LOW c) with g by lia.
    + by rewrite <-Err.
    + unfold informed, is_current in *. cbn in Hinf. by rewrite Ecu, Eki in Hinf.
    + by rewrite <-Es0, <-Et0.
  - assert (is_local_cpu c g = false) as Hloc.
    { unfold is_local_cpu. rewrite wrap_u32_small by lia. rewrite (bool_decide_eq_false_2 (CPU_RANGE_LOW c ≤ g ≤ CPU_RANGE_HIGH c)) by done.
      rewrite bool_decide_eq_false_2; [done|]. unfold NO_AFF_u32. lia. }
    rewrite Hloc. cbn [negb]. unfold __rr_sched_enqueue_shared, shared_append. wp_seq. destruct (Hsh g ltac:(lia)) as [q Hq].
    eapply wp_from_opt; [by rewrite Esh|]. wp_seq. rewrite (bool_decide_eq_true_2 (0 = 0)) by done. unfold when.
    assert (is_current c p (set_shared (<[g := q ++ [p]]> (shared_queue s0)) s0) = is_current c p s) as -> by (unfold is_current; cbn; by rewrite Ecu).
    assert (∀ s', rr_ready_queue_meta s' = rr_ready_queue_meta s0 → threads s' = threads s0 → pbrr_ready_queues s' = pbrr_ready_queues s0 → rr_inv s') as Hinv.
    { intros s' E1 E2 E3. destruct HI0. split; rewrite ?E1, ?E2, ?E3; done. }
    pose proof (EnqRemote s p t g q Hty Hx1 Hx2 Hg ltac:(lia) ltac:(lia) Hr Hq) as Hres. cbv zeta in Hres. destruct (is_current c p s) eqn:Ecur.
    + unfold sched_defer_remote_kick. wp_seq. apply wp_bug_on; [rewrite Hloc, orb_false_r; by apply bool_decide_eq_false_2|]. wp_seq.
      apply wp_bug_on; [cbn; rewrite Epd; apply bool_decide_eq_false_2; specialize (Hpd eq_refl); lia|]. wp_seq. split; [by apply Hinv|].
      cbn. rewrite Esh, Epd, Es0. exact Hres.
    + unfold ivshmem_send_sched_msi. wp_seq. split; [by apply Hinv|]. cbn. rewrite Esh, Ems, Es0. exact Hres.
Qed.

Lemma wp_rr_sched_enqueue_any s p t : rr_inv s → config_ok → schedulable s p t →
  wp (rr_sched_enqueue c p) (λ r s', rr_inv s' ∧ enqueue_result s p t r s') s.
Proof.
  intros HI Hc Hsd. pose proof Hsd as [Ht Hqc Hex Haff Hfpu Hbr Hsh Hpd]. unfold rr_sched_enqueue. wp_seq. s_thr.
  assert (∀ t', type t' = type t → queue_cpuid t' = queue_cpuid t → state t' = state t → rr_inv (with_thread p t' s)) as Hkeep.
  { intros t' E1 E2 E3. eapply rr_inv_thread; [done|exact Ht|done|done|by right; right]. }
  case_bool_decide as Hty; [wp_seq; by split; [|constructor]|].
  case_bool_decide as Hx1; [wp_seq; s_upd; split; [by apply Hkeep|by constructor]|].
  case_bool_decide as Hx2; [wp_seq; s_upd; split; [by apply Hkeep|by constructor]|]. wp_seq.
  destruct (bridge t) eqn:Eb.
  - assert (without_fpu s p t = s ∧ unbound s p t = t) as [E1 E2] by (unfold without_fpu, unbound, loses_fpu; by rewrite Eb).
    unfold get_bridge_thread_gcpuid. wp_seq. s_thr. case_bool_decide as Hcp.
    + wp_seq. eapply wp_place_any; try done. unfold destination. by rewrite Eb, bool_decide_eq_true_2.
    + destruct (Hbr eq_refl) as (_&_&Hlo&_). destruct (Hlo Hcp) as (lo&hi&Hl&?&?&?). unfold cpuid_l2g_with_mid. wp_seq. eapply wp_from_opt; [exact Hl|].
      rewrite bool_decide_eq_false_2 by done. wp_seq. apply wp_bug_on; [apply bool_decide_eq_false_2; lia|]. wp_seq.
      eapply wp_place_any; try done. unfold destination. rewrite Eb, bool_decide_eq_false_2 by done. by exists lo, hi.
  - unfold get_cpubind. wp_seq. s_thr. destruct (is_local_cpu c (affinity t)) eqn:El; cbn [negb].
    2: { assert (without_fpu s p t = s ∧ unbound s p t = t) as [E1 E2] by (unfold without_fpu, unbound, loses_fpu, gives_up_fpu; rewrite El; cbn; by rewrite andb_false_r).
         wp_seq. rewrite bool_decide_eq_false_2 by (intros E; by rewrite E, is_local_no_aff in El). wp_seq.
         eapply wp_place_any; try done. unfold destination. by rewrite Eb, El. }
    case_bool_decide as Ho.
    + assert (without_fpu s p t = s ∧ unbound s p t = t) as [E1 E2].
      { unfold without_fpu, unbound, loses_fpu, gives_up_fpu. rewrite (bool_decide_eq_false_2 (is_fpu_owner t = cpu c)) by (pose proof (c_cpu Hc); lia).
        by rewrite andb_false_r, andb_false_l, andb_false_r. }
      wp_seq. case_bool_decide as Ha.
      * eapply wp_mono; [by apply wp_choose_cpu|]. intros g s1 (->&i&->&Hi&Hmin). eapply wp_place_any; try done. unfold destination.
        rewrite Eb, El, !bool_decide_eq_true_2 by done. by exists i.
      * wp_seq. eapply wp_place_any; try done. unfold destination. rewrite Eb, El, bool_decide_eq_true_2, bool_decide_eq_false_2 by done. done.
    + case_bool_decide as Hcp.
      2: { assert (without_fpu s p t = s ∧ unbound s p t = t) as [E1 E2].
           { unfold without_fpu, unbound, loses_fpu, gives_up_fpu. rewrite (bool_decide_eq_false_2 (is_fpu_owner t = cpu c)) by done.
             by rewrite andb_false_r, andb_false_l, andb_false_r. }
           wp_seq. rewrite (bool_decide_eq_false_2 (cpuid_l2g c _ = NO_AFF)) by (pose proof (c_low Hc); unfold cpuid_l2g, NO_AFF; lia). wp_seq.
           eapply wp_place_any; try done. unfold destination. by rewrite Eb, El, !bool_decide_eq_false_2 by done. }
      destruct (bool_decide (affinity t = cpu c) || bool_decide (affinity t = NO_AFF)) eqn:Ea.
      * assert (without_fpu s p t = s ∧ unbound s p t = t) as [E1 E2] by (unfold without_fpu, unbound, loses_fpu, gives_up_fpu; rewrite Ea; cbn; by rewrite !andb_false_r).
        wp_seq. rewrite (bool_decide_eq_false_2 (cpuid_l2g c _ = NO_AFF)) by (pose proof (c_low Hc); pose proof (c_cpu Hc); unfold cpuid_l2g, NO_AFF; lia). wp_seq.
        eapply wp_place_any; try done. unfold destination. by rewrite Eb, El, bool_decide_eq_false_2, bool_decide_eq_true_2, Ea by done.
      * assert (affinity t ≠ NO_AFF) as Hna by (apply orb_false_iff in Ea as [_ ?%bool_decide_eq_false]; done).
        assert (destination s t (affinity t)) as Hd by (unfold destination; by rewrite Eb, El, bool_decide_eq_false_2, bool_decide_eq_true_2, Ea by done).
        assert (loses_fpu s p t = bool_decide (fpu_owner s !! cpu c = Some p)) as Elo
          by (unfold loses_fpu, gives_up_fpu; by rewrite Eb, El, Ea, bool_decide_eq_true_2 by done).
        unfold save_and_release_fpu. wp_seq. s_thr. 
        apply wp_bug_on; [apply bool_decide_eq_false_2, Hex; unfold gives_up_fpu; by rewrite El, Ea, bool_decide_eq_true_2 by done|]. wp_seq. unfold when. rewrite <-Elo.
        pose proof (wp_place_any s (without_fpu s p t) p t (unbound s p t) (affinity t) HI Hc Hsd Hty Hx1 Hx2 Hd) as Hpl.
        unfold without_fpu in Hpl at 1 2 3. unfold without_fpu in Hpl. destruct (loses_fpu s p t) eqn:E.
        -- wp_seq. s_upd. rewrite bool_decide_eq_false_2 by done. wp_seq. apply Hpl; [|done|done].
           pose proof (Hkeep (set_fpu_owner (-1) t) eq_refl eq_refl eq_refl) as [H1 H2 H3 H4 H5 H6 H7]. by split.
        -- wp_seq. rewrite bool_decide_eq_false_2 by done. wp_seq. by apply Hpl.
Qed.
End ops.

(** ** After initialisation *)

Lemma rr_queues_lookup i m :
  (list_to_map ((λ i, (i, QMeta [] 0)) <$> cpus) : gmap Z queue_meta) !! i = Some m ↔
  0 ≤ i < PLAT_CPU_NUM ∧ m = QMeta [] 0.
Proof.
  rewrite <-elem_of_list_to_map.
  - rewrite list_elem_of_fmap. setoid_rewrite elem_of_seqZ. split; [intros (j&[= -> ->]&?); split; [lia|done]|].
    intros [? ->]. exists i. split; [done|lia].
  - rewrite <-list_fmap_compose. assert (fst ∘ (λ j : Z, (j, QMeta [] 0)) = id) as -> by done.
    rewrite list_fmap_id. apply NoDup_seqZ.
Qed.

(** [rr_sched_init] establishes the invariant when no thread is on a queue. *)
Lemma rr_sched_init_inv s :
  map_Forall (λ _ t, queue_cpuid t = NO_AFF_u32) (threads s) →
  Z.of_nat (size (threads s)) + 1 < 2 ^ 32 → pbrr_ready_queues s = ∅ → rr_inv (rr_sched_init s).
Proof.
  intros Hts Hsz Hp. split; cbn [rr_sched_init set_rr rr_ready_queue_meta threads pbrr_ready_queues]; [| | | | |done|done].
  - intros i. split; [intros [m [Hi _]%rr_queues_lookup]; done|].
    intros Hi. exists (QMeta [] 0). by apply rr_queues_lookup.
  - by intros i m [_ ->]%rr_queues_lookup.
  - intros i m [_ ->]%rr_queues_lookup. constructor.
  - intros i m p [_ ->]%rr_queues_lookup Hp'. by apply elem_of_nil in Hp'.
  - intros p t Ht _ Hq. by destruct Hq, (Hts p t Ht).
Qed.

(** ** A concrete machine *)

Definition no_history : sched_history := Hist ∅ 0 0.
Definition user_thread (st : thread_state) (ex : thread_exit_state) (pr aff : Z) : thread :=
  Thread TYPE_USER st ex pr aff 0 NO_AFF_u32 false (Some 1) (-1) 0 false PrevNull no_history.

Definition machine0 : config := Config 0 0 11 0 24 [(0, 11); (12, 23)].

Lemma machine0_ok : config_ok machine0.
Proof. split; simpl; unfold PLAT_CPU_NUM; lia. Qed.
