(* ===== verification/SchedTheorems.v ===== *)
(** What the round-robin scheduler guarantees: a thread is enqueued on the CPU it is bound to, of
    this or of another machine, or on a least loaded one; a thread whose time slice is over goes to the end of its
    queue and the first runnable thread runs. *)
From S2P Require Import Prelude Words Sched SchedProofs.

Section rr.
Context (c : config).

Lemma first_runnable_ext s s' l :
  (∀ x, runnable c s' x = runnable c s x) → first_runnable c s' l = first_runnable c s l.
Proof. intros H. induction l as [|x l IH]; [done|]. simpl. by rewrite H, IH. Qed.

Lemma stays_ext s s' l : (∀ x, leaving s' x = leaving s x) → stays s' l = stays s l.
Proof. intros H. unfold stays. induction l as [|x l IH]; [done|]. by rewrite !filter_cons, H, IH. Qed.

Lemma first_runnable_exists s q x : runnable c s x = true →
  ∃ pre p post, first_runnable c s (q ++ [x]) = (pre, Some (p, post)).
Proof.
  intros Hx. induction q as [|y q IH]; simpl; [rewrite Hx; by eexists _, _, _|].
  destruct (runnable c s y); [by eexists _, _, _|]. destruct IH as (pre&p&post&->). by eexists _, _, _.
Qed.

(** The thread that ran until now, as it goes back to the queue. *)
Definition preempted (t : thread) : thread :=
  set_state TS_TO_SCHED (set_budget (Some DEFAULT_BUDGET) (record_history c t)).

Lemma record_history_fields t :
  type (record_history c t) = type t ∧ exit_state (record_history c t) = exit_state t ∧
  queue_cpuid (record_history c t) = queue_cpuid t ∧ ks_locked (record_history c t) = ks_locked t ∧
  affinity (record_history c t) = affinity t ∧ budget (record_history c t) = budget t ∧
  bridge (record_history c t) = bridge t ∧ prio (record_history c t) = prio t ∧
  is_fpu_owner (record_history c t) = is_fpu_owner t.
Proof. unfold record_history. destruct (_ || _); done. Qed.

Lemma runnable_agree s s' p t t' :
  threads s !! p = Some t → exit_state t' = exit_state t → ks_locked t' = ks_locked t →
  (∀ x, x ≠ p → threads s' !! x = threads s !! x) → threads s' !! p = Some t' →
  current_threads s' = current_threads s →
  ∀ x, runnable c s' x = runnable c s x ∧ leaving s' x = leaving s x.
Proof.
  intros Ht He Hk Ho Hp Hc x. unfold runnable, leaving, is_current. rewrite Hc.
  destruct (decide (x = p)) as [->|Hx]; [by rewrite Hp, Ht, He, Hk|by rewrite Ho].
Qed.

(** A running thread that used up its time slice. *)
Record slice_over (s : sched) (old : Z) (t : thread) : Prop := {
  so_current : current_threads s !! cpu c = Some old;
  so_thread : off_queue s old t;
  so_exit : exit_state t = TE_RUNNING;
  so_state : state t = TS_RUNNING;
  so_budget : budget t = Some 0;
  so_bridge : bridge t = false;
  so_prio : prio t ≤ MAX_PRIO;
  so_fpu : is_fpu_owner t < 0;
  so_aff : affinity t = cpuid_l2g c (cpu c)
}.

Lemma preempted_enqueueable s old t :
  config_ok c → slice_over s old t → enqueueable c (with_thread old (preempted t) s) old (preempted t).
Proof.
  intros [Hcpu Hlow Hhigh _] [_ (Ht&Hty&Hqc) Hex _ _ Hbr Hpr Hfpu Haff].
  destruct (record_history_fields t) as (?&?&?&?&?&?&?&?&?). unfold preempted. unfold cpuid_l2g in *.
  split; simpl; try congruence; try lia.
  split_and!; [apply lookup_insert_eq|simpl; congruence|simpl; congruence].
Qed.

Lemma wp_old s old t m :
  rr_inv s → config_ok c → slice_over s old t → rr_ready_queue_meta s !! cpu c = Some m →
  wp (rr_sched_old c old) (λ stay s', stay = false ∧ rr_inv s' ∧
    interrupts_only (with_queue (cpu c) (queue m ++ [old]) (with_thread old (enqueued (cpu c) (preempted t)) s)) s') s.
Proof.
  intros HI Hc Hso Hm. pose proof Hso as [Hcur (Ht&Hty&Hqc) Hex Hst Hb Hbr Hpr Hfpu Haff].
  destruct (record_history_fields t) as (Hf1&Hf2&Hf3&Hf4&Hf5&Hf6&_).
  unfold rr_sched_old. wp_seq. s_thr. s_bug; [rewrite Hb; apply andb_false_r|]. s_upd.
  rewrite Hex, Hst. wp_seq. s_bug; [by rewrite Hb|]. eapply wp_from_opt; [exact Hb|]. cbn [bool_decide negb]. rewrite bool_decide_eq_true_2 by done.
  cbn [negb]. unfold rr_sched_refill_budget. wp_seq.
  eapply wp_thr; [apply lookup_insert_eq|]. rewrite Hf6, Hb.
  eapply wp_upd; [apply lookup_insert_eq|]. wp_seq. eapply wp_upd; [apply lookup_insert_eq|]. wp_seq.
  rewrite !with_thread_thread. fold (preempted t).
  eapply wp_mono; [apply wp_rr_sched_enqueue; [|done|by apply preempted_enqueueable]|].
  { eapply rr_inv_thread; [done|done|simpl; congruence|simpl; congruence|by left]. }
  intros r s1 (->&HI1&i&n&[Hi Hgo]&Hn&_&Hint). wp_seq. s_bug; [done|].
  rewrite bool_decide_eq_false_2 in Hgo.
  2: { simpl. rewrite Hf5, Haff. pose proof Hc as [[? ?] ? _ _]. unfold cpuid_l2g, NO_AFF. lia. }
  assert (i = cpu c) as -> by (simpl in Hgo; rewrite Hf5, Haff in Hgo; unfold cpuid_l2g in Hgo; lia).
  simpl in Hn. assert (n = m) as -> by congruence.
  split_and!; [done|done|]. by rewrite with_thread_thread in Hint.
Qed.

Lemma wp_switch s p t :
  rr_inv s → threads s !! p = Some t → state t ≠ TS_READY → exit_state t = TE_RUNNING →
  queue_cpuid t = NO_AFF_u32 ∨ type t = TYPE_IDLE →
  wp (switch_to_thread c p) (λ _ s', rr_inv s' ∧ current_threads s' !! cpu c = Some p ∧
    rr_ready_queue_meta s' = rr_ready_queue_meta s ∧ (∃ t', threads s' !! p = Some t' ∧ state t' = TS_RUNNING) ∧
    ∀ x, x ≠ p → threads s' !! x = threads s !! x) s.
Proof.
  intros HI Ht Hst Hex Hoff. unfold switch_to_thread. wp_seq. s_thr.
  s_bug; [by apply bool_decide_eq_false|]. s_bug; [by rewrite bool_decide_eq_true_2|].
  destruct (is_current c p s) eqn:Hcur.
  - apply bool_decide_eq_true in Hcur. eapply wp_upd; [done|]. split_and!; [|done|done| |].
    + eapply rr_inv_thread; [done|done|done|done|tauto].
    + eexists. split; [apply lookup_insert_eq|done].
    + intros x Hx. simpl. by rewrite lookup_insert_ne.
  - wp_seq. s_upd. split_and!; [|apply lookup_insert_eq|done| |].
    + assert (rr_inv (with_thread p (set_ks_locked true (set_prev_thread
        (match current_threads s !! cpu c with Some o => PrevThread o | None => PrevNull end)
        (set_state TS_RUNNING (set_cpuid (cpu c) t)))) s)) as [] by (eapply rr_inv_thread; [done|done|done|done|tauto]).
      by split.
    + eexists. split; [apply lookup_insert_eq|done].
    + intros x Hx. simpl. by rewrite lookup_insert_ne.
Qed.

Lemma wp_no_migration s urgent :
  shared_queue s !! cpuid_l2g c (cpu c) = Some [] →
  wp (rr_sched_migrate_from_shared_queue_internal c urgent) (λ r s', r = 0 ∧ s' = s) s.
Proof.
  intros Hs. unfold rr_sched_migrate_from_shared_queue_internal. wp_seq. eapply wp_from_opt; [done|]. by wp_seq.
Qed.

(** It could run on: it is current. *)
Lemma slice_over_runnable s old t : slice_over s old t → runnable c s old = true.
Proof.
  intros [Hcur (Ht&_) Hex _ _ _ _ _ _]. unfold runnable, is_current.
  rewrite Ht, Hex, Hcur, !bool_decide_eq_true_2 by done. by rewrite orb_true_r.
Qed.

(** The threads of the queue up to the first runnable one are not runnable; those
    that are exiting or stopping leave the queue, the others keep their place. *)
Lemma chosen_Some s q pre p post t :
  first_runnable c s q = (pre, Some (p, post)) → threads s !! p = Some t →
  chosen c s q = (p, with_queue (cpu c) (stays s pre ++ post)
    (with_thread p (set_state TS_TO_SCHED (set_queue_cpuid NO_AFF_u32 t)) (retire_all pre s))).
Proof. intros Hf Ht. unfold chosen. by rewrite Hf, Ht. Qed.

(** The queue on which the scheduler looks for a thread, and what it finds. *)
Definition rotated (s : sched) (old : Z) (m : queue_meta) (s' : sched) : Prop :=
  ∃ pre p post,
    first_runnable c s (queue m ++ [old]) = (pre, Some (p, post)) ∧
    current_threads s' !! cpu c = Some p ∧
    rr_ready_queue_meta s' !! cpu c = Some (QMeta (stays s pre ++ post) (Z.of_nat (length (stays s pre ++ post)))) ∧
    (∃ t', threads s' !! p = Some t' ∧ state t' = TS_RUNNING) ∧
    (p ≠ old → ∃ t', threads s' !! old = Some t' ∧ state t' = TS_READY ∧ budget t' = Some DEFAULT_BUDGET).

Lemma wp_preempt s old t m :
  rr_inv s → config_ok c → slice_over s old t →
  rr_ready_queue_meta s !! cpu c = Some m → shared_queue s !! cpuid_l2g c (cpu c) = Some [] →
  wp (rr_sched c) (λ _ s', rr_inv s' ∧ rotated s old m s') s.
Proof.
  intros HI Hc Hso Hm Hsh. pose proof Hso as [Hcur (Ht&Hty&Hqc) Hex _ _ _ _ _ _].
  destruct (record_history_fields t) as (_&Hf2&_&Hf4&_).
  unfold rr_sched, current. wp_seq. rewrite Hcur. wp_seq.
  eapply wp_mono; [by apply wp_old|]. intros stay s1 (->&HI1&bm&fl&ks&Hs1&_). wp_seq.
  eapply wp_mono; [apply wp_no_migration; by subst|]. intros r ? [-> ->]. wp_seq.
  set (q := queue m ++ [old]) in *. set (t1 := enqueued (cpu c) (preempted t)) in *.
  assert (threads s1 !! old = Some t1) as Hold by (subst; apply lookup_insert_eq).
  assert (∀ x, x ≠ old → threads s1 !! x = threads s !! x) as Hne.
  { intros x Hx. subst. by apply lookup_insert_ne. }
  assert (∀ x, runnable c s1 x = runnable c s x ∧ leaving s1 x = leaving s x) as Hrun.
  { eapply (runnable_agree s s1 old t t1); [done|done|done|done|done|by subst]. }
  assert (rr_ready_queue_meta s1 !! cpu c = Some (QMeta q (Z.of_nat (length q)))) as Hm1 by (subst s1; apply lookup_insert_eq).
  eapply wp_mono; [eapply wp_choose_thread; [done|exact Hm1]|]. intros p s2 [HI2 Hch]. simpl in Hch.
  destruct (first_runnable_exists s (queue m) old (slice_over_runnable s old t Hso)) as (pre&p'&post&Hf).
  fold q in Hf. pose proof (first_runnable_ext s s1 q (λ x, proj1 (Hrun x))) as Hf1. rewrite Hf in Hf1.
  pose proof (stays_ext s s1 pre (λ x, proj2 (Hrun x))) as Hst.
  destruct (first_runnable_Some c s1 q pre p' post Hf1) as [Hrp Hpre].
  unfold runnable in Hrp. destruct (threads s1 !! p') as [t'|] eqn:Ht'; [|done].
  apply andb_true_iff in Hrp as [Hex'%bool_decide_eq_true _].
  rewrite (chosen_Some s1 q pre p' post t' Hf1 Ht') in Hch.
  injection Hch as -> Hs2. subst s2.
  eapply wp_mono; [eapply wp_switch; [done|apply lookup_insert_eq|done|done|by left]|].
  intros _ s3 (HI3&Hc3&Hq3&Hp3&Ho3). split; [done|]. exists pre, p', post. split_and!; [done|done| |done|].
  - rewrite Hq3. simpl. rewrite Hst. apply lookup_insert_eq.
  - intros Hp. exists t1. rewrite Ho3 by done. simpl. rewrite lookup_insert_ne by done.
    rewrite retire_all_other, Hold; [done|]. intros Hin.
    rewrite Forall_forall in Hpre. specialize (Hpre old Hin). rewrite (proj1 (Hrun old)) in Hpre.
    by rewrite (slice_over_runnable s old t Hso) in Hpre.
Qed.
End rr.

(** ** Concrete queues *)

(** Thread 100 runs on CPU 0 with its slice used up, thread 200 is new, nothing is queued. *)
Definition spent : thread :=
  set_ks_locked true (set_budget (Some 0) (user_thread TS_RUNNING TE_RUNNING 10 0)).
Definition rr_start : sched :=
  rr_sched_init (Sched (<[100 := spent]> {[200 := user_thread TS_INIT TE_RUNNING 10 NO_AFF]})
    ∅ {[0 := []]} {[0 := 100]} ∅ ∅ ∅ ∅ [] [] ∅).

Lemma rr_start_inv : rr_inv rr_start.
Proof.
  apply rr_sched_init_inv; [|by vm_compute|done].
  cbn [threads]. apply map_Forall_insert_2; [done|]. by apply map_Forall_singleton.
Qed.

(** ** Claims *)






(** when the time slice of the running thread is over, [rr_sched] puts it at the end of
    the queue of its CPU with a new budget and runs the first runnable thread of that queue,
    which may be the same one: no thread that could run is passed over, threads that are
    exiting or stopping are dropped, the others keep their order, and the queues stay
    consistent.  No other machine has sent a thread. *)
Theorem rr_sched_preempts c s old t m :
  rr_inv s → config_ok c → slice_over c s old t →
  rr_ready_queue_meta s !! cpu c = Some m → shared_queue s !! cpuid_l2g c (cpu c) = Some [] →
  wp (rr_sched c) (λ _ s', rr_inv s' ∧ ∃ pre p post,
    first_runnable c s (queue m ++ [old]) = (pre, Some (p, post)) ∧
    current_threads s' !! cpu c = Some p ∧
    rr_ready_queue_meta s' !! cpu c = Some (QMeta (stays s pre ++ post) (Z.of_nat (length (stays s pre ++ post)))) ∧
    (∃ t', threads s' !! p = Some t' ∧ state t' = TS_RUNNING) ∧
    (p ≠ old → ∃ t', threads s' !! old = Some t' ∧ state t' = TS_READY ∧ budget t' = Some DEFAULT_BUDGET)) s.
Proof. apply wp_preempt. Qed.

Lemma rr_sched_preempts_witness :
  wp (rr_sched machine0) (λ _ s', rr_inv s' ∧ ∃ pre p post,
    first_runnable machine0 rr_start [100] = (pre, Some (p, post)) ∧
    current_threads s' !! 0 = Some p ∧
    rr_ready_queue_meta s' !! 0 =
      Some (QMeta (stays rr_start pre ++ post) (Z.of_nat (length (stays rr_start pre ++ post)))) ∧
    (∃ t', threads s' !! p = Some t' ∧ state t' = TS_RUNNING) ∧
    (p ≠ 100 → ∃ t', threads s' !! 100 = Some t' ∧ state t' = TS_READY ∧ budget t' = Some DEFAULT_BUDGET)) rr_start.
Proof.
  apply (rr_sched_preempts machine0 rr_start 100 spent (QMeta [] 0));
    [apply rr_start_inv|apply machine0_ok| |done|done].
  split; done.
Defined.
