(* ===== verification/Pbrr.v ===== *)
(** Priority-based round robin ([kernel/sched/policy_pbrr.c]): the two-level bitmap
    stands for the set of ready priorities, and the scheduler takes a thread of
    the highest one. *)
From S2P Require Import Prelude Words Sched SchedProofs.

(** ** The bitmap *)

Definition lvl1 (b : prio_bitmap) (i : Z) : Z := nth (Z.to_nat i) (bitmap_lvl1 b) 0.
Definition has_prio (b : prio_bitmap) (p : Z) : bool := Z.testbit (lvl1 b (Z.shiftr p 5)) (Z.land p 0x1f).

Record bitmap_wf (b : prio_bitmap) : Prop := {
  b_len : length (bitmap_lvl1 b) = 32%nat;
  b_lvl0 : 0 ≤ bitmap_lvl0 b < 2 ^ 32;
  b_lvl1 : ∀ i, 0 ≤ i < 32 → 0 ≤ lvl1 b i < 2 ^ 32;
  b_sum : ∀ i, 0 ≤ i < 32 → Z.testbit (bitmap_lvl0 b) i = negb (bool_decide (lvl1 b i = 0))
}.

(** [b] stands for the set [X] of priorities. *)
Definition bitmap_of (b : prio_bitmap) (X : gset Z) : Prop :=
  bitmap_wf b ∧ ∀ p, p ∈ X ↔ 0 ≤ p < 1024 ∧ has_prio b p = true.

Lemma prio_split p : 0 ≤ p < 1024 →
  ∃ i j, p = 32 * i + j ∧ 0 ≤ i < 32 ∧ 0 ≤ j < 32 ∧ Z.shiftr p 5 = i ∧ Z.land p 0x1f = j.
Proof.
  intros Hp. exists (p / 32), (p mod 32). pose proof (Z.div_mod p 32 ltac:(lia)). pose proof (Z.mod_pos_bound p 32 ltac:(lia)).
  assert (0 ≤ p / 32 < 32). { split; [apply Z.div_pos; lia|apply Z.div_lt_upper_bound; lia]. }
  split_and!; try lia.
  - by rewrite Z.shiftr_div_pow2.
  - change 31 with (Z.ones 5). by rewrite Z.land_ones.
Qed.

Lemma prio_join i j : 0 ≤ i < 32 → 0 ≤ j < 32 → Z.shiftr (32 * i + j) 5 = i ∧ Z.land (32 * i + j) 0x1f = j.
Proof.
  intros Hi Hj. destruct (prio_split (32 * i + j)) as (i'&j'&?&?&?&->&->); lia.
Qed.

(** A word of 32 bits is zero if its bits are. *)
Lemma word_zero w : 0 ≤ w < 2 ^ 32 → w = 0 ↔ ∀ j, 0 ≤ j < 32 → Z.testbit w j = false.
Proof.
  intros Hw. split; [intros -> j _; apply Z.bits_0|]. intros H. apply Z.bits_inj'. intros n Hn.
  rewrite Z.bits_0. destruct (decide (n < 32)); [by apply H|].
  destruct (decide (w = 0)) as [->|]; [apply Z.bits_0|].
  apply Z.bits_above_log2; [lia|]. assert (Z.log2 w < 32) by (apply Z.log2_lt_pow2; lia). lia.
Qed.

Lemma testbit_BIT i j : 0 ≤ i → Z.testbit (BIT i) j = bool_decide (i = j).
Proof.
  intros Hi. unfold BIT. rewrite Z.shiftl_1_l, Z.pow2_bits_eqb by done.
  destruct (Z.eqb_spec i j); [by rewrite bool_decide_eq_true_2|by rewrite bool_decide_eq_false_2].
Qed.

Lemma below_bits w : 0 ≤ w → (∀ j, 32 ≤ j → Z.testbit w j = false) → 0 ≤ w < 2 ^ 32.
Proof.
  intros Hw H. split; [done|]. destruct (decide (w = 0)) as [->|]; [lia|].
  apply Z.log2_lt_pow2; [lia|]. destruct (decide (Z.log2 w < 32)); [done|].
  pose proof (Z.bit_log2 w ltac:(lia)) as Hb. rewrite H in Hb by lia. done.
Qed.

Lemma above_bits w j : 0 ≤ w < 2 ^ 32 → 32 ≤ j → Z.testbit w j = false.
Proof.
  intros Hw Hj. destruct (decide (w = 0)) as [->|]; [apply Z.bits_0|].
  apply Z.bits_above_log2; [lia|]. assert (Z.log2 w < 32) by (apply Z.log2_lt_pow2; lia). lia.
Qed.

Lemma lor_BIT_range w i : 0 ≤ w < 2 ^ 32 → 0 ≤ i < 32 → 0 ≤ Z.lor w (BIT i) < 2 ^ 32.
Proof.
  intros Hw Hi. apply below_bits.
  - apply Z.lor_nonneg. split; [lia|]. unfold BIT. apply Z.shiftl_nonneg. lia.
  - intros j Hj. rewrite Z.lor_spec, above_bits, testbit_BIT, bool_decide_eq_false_2 by lia. done.
Qed.

Lemma ldiff_BIT_range w i : 0 ≤ w < 2 ^ 32 → 0 ≤ Z.ldiff w (BIT i) < 2 ^ 32.
Proof.
  intros Hw. apply below_bits; [apply Z.ldiff_nonneg; lia|].
  intros j Hj. by rewrite Z.ldiff_spec, above_bits by lia.
Qed.

(** Changing one word of the second level *)
Lemma lvl1_alter b x f i k : length (bitmap_lvl1 b) = 32%nat → 0 ≤ i < 32 → 0 ≤ k < 32 →
  lvl1 (PBitmap x (alter f (Z.to_nat i) (bitmap_lvl1 b))) k = if decide (k = i) then f (lvl1 b i) else lvl1 b k.
Proof.
  intros Hl Hi Hk. unfold lvl1. simpl. rewrite !nth_lookup. case_decide as He.
  - subst k. rewrite list_lookup_alter_eq. destruct (lookup_lt_is_Some_2 (bitmap_lvl1 b) (Z.to_nat i)) as [w ->]; [lia|done].
  - by rewrite list_lookup_alter_ne by lia.
Qed.

Lemma bitmap_of_init : bitmap_of prio_bitmap_init ∅.
Proof.
  assert (∀ i, lvl1 prio_bitmap_init i = 0) as H0.
  { intros i. unfold lvl1, prio_bitmap_init. cbn [bitmap_lvl1]. rewrite nth_lookup.
    destruct (_ !! _) eqn:E; [|done]. apply lookup_replicate in E as [-> _]. done. }
  split; [split|].
  - done.
  - simpl. lia.
  - intros i _. rewrite H0. lia.
  - intros i _. by rewrite H0, Z.bits_0.
  - intros p. unfold has_prio. rewrite H0, Z.bits_0. set_solver.
Qed.

Lemma bitmap_of_set b X p : bitmap_of b X → 0 ≤ p < 1024 →
  ∃ b', prio_bitmap_set b p = Ret b' ∧ bitmap_of b' ({[p]} ∪ X).
Proof.
  intros [[Hl H0 H1 Hs] HX] Hp. unfold prio_bitmap_set.
  destruct (prio_split p Hp) as (i&j&->&Hi&Hj&->&->). rewrite bool_decide_eq_false_2 by lia.
  eexists; split; [done|]. set (b' := PBitmap _ _).
  assert (∀ k, 0 ≤ k < 32 → lvl1 b' k = if decide (k = i) then Z.lor (lvl1 b i) (BIT j) else lvl1 b k) as Hb'.
  { intros k Hk. by apply lvl1_alter. }
  split; [split|].
  - simpl. by rewrite length_alter.
  - by apply lor_BIT_range.
  - intros k Hk. rewrite Hb' by done. case_decide; [apply lor_BIT_range; auto|auto].
  - intros k Hk. rewrite Hb' by done. simpl. rewrite Z.lor_spec, testbit_BIT, Hs by lia. case_decide as He.
    + subst k. rewrite (bool_decide_eq_true_2 (i = i)), orb_true_r by done. rewrite bool_decide_eq_false_2; [done|].
      rewrite word_zero by (apply lor_BIT_range; auto). intros Hz. specialize (Hz j Hj).
      rewrite Z.lor_spec, testbit_BIT, bool_decide_eq_true_2, orb_true_r in Hz by lia. done.
    + by rewrite (bool_decide_eq_false_2 (i = k)), orb_false_r by done.
  - intros q. rewrite elem_of_union, elem_of_singleton, HX.
    destruct (decide (0 ≤ q < 1024)) as [Hq|]; [|naive_solver lia].
    destruct (prio_split q Hq) as (i'&j'&->&Hi'&Hj'&Ei&Ej). unfold has_prio. rewrite Ei, Ej, Hb' by done.
    case_decide as He; [subst i'|naive_solver lia]. rewrite Z.lor_spec, testbit_BIT by lia.
    destruct (decide (j = j')) as [<-|].
    + rewrite bool_decide_eq_true_2, orb_true_r by done. naive_solver lia.
    + rewrite bool_decide_eq_false_2, orb_false_r by done. naive_solver lia.
Qed.

Lemma bitmap_of_clear b X p : bitmap_of b X → 0 ≤ p < 1024 →
  ∃ b', prio_bitmap_clear b p = Ret b' ∧ bitmap_of b' (X ∖ {[p]}).
Proof.
  intros [[Hl H0 H1 Hs] HX] Hp. unfold prio_bitmap_clear.
  destruct (prio_split p Hp) as (i&j&->&Hi&Hj&->&->). rewrite bool_decide_eq_false_2 by lia.
  eexists; split; [done|]. set (b' := PBitmap _ _).
  assert (∀ k, 0 ≤ k < 32 → lvl1 b' k = if decide (k = i) then Z.ldiff (lvl1 b i) (BIT j) else lvl1 b k) as Hb'.
  { intros k Hk. by apply lvl1_alter. }
  assert (bitmap_lvl0 b' = if bool_decide (lvl1 b' i = 0) then Z.ldiff (bitmap_lvl0 b) (BIT i) else bitmap_lvl0 b) as H0' by done.
  assert (length (bitmap_lvl1 b') = 32%nat) as Hl' by (simpl; by rewrite length_alter).
  clearbody b'. split; [split|].
  - done.
  - rewrite H0'. case_bool_decide; [by apply ldiff_BIT_range|done].
  - intros k Hk. rewrite Hb' by done. destruct (decide (k = i)); [apply ldiff_BIT_range; auto|auto].
  - intros k Hk. rewrite H0'. destruct (decide (k = i)) as [->|].
    + case_bool_decide as H; [|rewrite Hs by done].
      * by rewrite Z.ldiff_spec, testbit_BIT, (bool_decide_eq_true_2 (i = i)), andb_false_r by lia.
      * rewrite bool_decide_eq_false_2; [done|]. intros Hz. rewrite Hb', decide_True in H by done.
        apply H. by rewrite Hz, Z.ldiff_0_l.
    + rewrite (Hb' k), decide_False, <-Hs by done. case_bool_decide; [|done].
      rewrite Z.ldiff_spec, testbit_BIT, bool_decide_eq_false_2 by lia. apply andb_true_r.
  - intros q. rewrite elem_of_difference, elem_of_singleton, HX.
    destruct (decide (0 ≤ q < 1024)) as [Hq|]; [|naive_solver lia].
    destruct (prio_split q Hq) as (i'&j'&->&Hi'&Hj'&Ei&Ej). unfold has_prio. rewrite Ei, Ej, Hb' by done.
    destruct (decide (i' = i)) as [->|]; [|naive_solver lia]. rewrite Z.ldiff_spec, testbit_BIT by lia.
    destruct (decide (j = j')) as [<-|].
    + rewrite bool_decide_eq_true_2, andb_false_r by done. naive_solver lia.
    + rewrite bool_decide_eq_false_2, andb_true_r by done. naive_solver lia.
Qed.

Lemma bitmap_of_empty b X : bitmap_of b X → prio_bitmap_is_empty b = true ↔ X = ∅.
Proof.
  intros [[Hl H0 H1 Hs] HX]. unfold prio_bitmap_is_empty. rewrite bool_decide_eq_true. split.
  - intros Hz. apply set_eq. intros p. rewrite HX. split; [|set_solver]. intros [Hp Hh].
    destruct (prio_split p Hp) as (i&j&->&Hi&Hj&Ei&Ej). unfold has_prio in Hh. rewrite Ei, Ej in Hh.
    specialize (Hs i Hi). rewrite Hz, Z.bits_0 in Hs. case_bool_decide as Hw; [|done].
    by rewrite Hw, Z.bits_0 in Hh.
  - intros ->. apply word_zero; [done|]. intros i Hi. rewrite Hs by done. rewrite bool_decide_eq_true_2; [done|].
    apply word_zero; [by apply H1|]. intros j Hj. apply not_true_is_false. intros Hb.
    destruct (prio_join i j Hi Hj) as [Ei Ej].
    assert (32 * i + j ∈ (∅ : gset Z)); [|set_solver]. apply HX. split; [lia|].
    unfold has_prio. by rewrite Ei, Ej.
Qed.

(** The highest set bit *)
Lemma bsr_spec w : 0 < w < 2 ^ 32 →
  0 ≤ bsr w < 32 ∧ Z.testbit w (bsr w) = true ∧ ∀ j, Z.testbit w j = true → j ≤ bsr w.
Proof.
  intros Hw. unfold bsr. split_and!; [apply Z.log2_nonneg|apply Z.log2_lt_pow2; lia|apply Z.bit_log2; lia|].
  intros j Hj. destruct (decide (j ≤ Z.log2 w)); [done|]. rewrite Z.bits_above_log2 in Hj by lia. done.
Qed.

Lemma bitmap_of_highest b X : bitmap_of b X → X ≠ ∅ →
  get_highest_prio b ∈ X ∧ ∀ q, q ∈ X → q ≤ get_highest_prio b.
Proof.
  intros HbX Hne. pose proof HbX as [[Hl H0 H1 Hs] HX].
  assert (bitmap_lvl0 b ≠ 0) as Hnz.
  { intros Hz. apply Hne. apply (bitmap_of_empty b); [done|]. by apply bool_decide_eq_true. }
  destruct (bsr_spec (bitmap_lvl0 b)) as (Hr0&Hb0&Hm0); [lia|]. unfold get_highest_prio.
  set (i := bsr (bitmap_lvl0 b)) in *. fold (lvl1 b i).
  rewrite Hs in Hb0 by done. case_bool_decide as Hw; [done|]. pose proof (H1 i Hr0).
  destruct (bsr_spec (lvl1 b i)) as (Hr1&Hb1&Hm1); [lia|]. set (j := bsr (lvl1 b i)) in *.
  assert (Z.shiftl i 5 + j = 32 * i + j) as -> by (rewrite Z.shiftl_mul_pow2; lia).
  destruct (prio_join i j Hr0 Hr1) as [Ei Ej]. split.
  - apply HX. split; [lia|]. unfold has_prio. by rewrite Ei, Ej.
  - intros q [Hq Hh]%HX. destruct (prio_split q Hq) as (i'&j'&->&Hi'&Hj'&Ei'&Ej').
    unfold has_prio in Hh. rewrite Ei', Ej' in Hh.
    assert (i' ≤ i). { apply Hm0. rewrite Hs by done. rewrite bool_decide_eq_false_2; [done|].
      intros Hz. by rewrite Hz, Z.bits_0 in Hh. }
    destruct (decide (i' = i)) as [->|]; [pose proof (Hm1 j' Hh)|]; lia.
Qed.

(** ** Ready queues *)

(** Each bitmap stands for the priorities whose queue is not empty, and a queue
    holds distinct ready threads of its CPU and priority. *)
Record pbrr_inv (s : sched) : Prop := {
  p_rr : rr_ready_queue_meta s = ∅;
  p_keys : ∀ i q k, pbrr_ready_queues s !! i = Some q → is_Some (queues q !! k) ↔ 0 ≤ k < PRIO_NUM;
  p_bits : ∀ i q, pbrr_ready_queues s !! i = Some q →
    ∃ X, bitmap_of (bitmap q) X ∧ ∀ k, k ∈ X ↔ ∃ l, queues q !! k = Some l ∧ l ≠ [];
  p_nodup : ∀ i q k l, pbrr_ready_queues s !! i = Some q → queues q !! k = Some l → NoDup l;
  p_in : ∀ i q k l x, pbrr_ready_queues s !! i = Some q → queues q !! k = Some l → x ∈ l →
    ∃ t, threads s !! x = Some t ∧ cpuid t = i ∧ prio t = k ∧ state t = TS_READY
}.

(** Queue [k] of CPU [i] becomes [l], thread [p] becomes [t]. *)
Definition requeue (i k : Z) (q : pbrr_ready_queue) (l : list Z) (b : prio_bitmap) (p : Z) (t : thread) (s : sched) : sched :=
  set_pbrr (<[i := PQueue (<[k := l]> (queues q)) b]> (pbrr_ready_queues s)) (with_thread p t s).

Lemma requeue_inv s i k q l0 l b p t' :
  pbrr_inv s → pbrr_ready_queues s !! i = Some q → queues q !! k = Some l0 →
  (∃ X, bitmap_of b X ∧ ∀ k', k' ∈ X ↔ ∃ l', <[k := l]> (queues q) !! k' = Some l' ∧ l' ≠ []) →
  NoDup l → (∀ x, x ∈ l → x ≠ p → x ∈ l0) → (p ∈ l → cpuid t' = i ∧ prio t' = k ∧ state t' = TS_READY) →
  (∀ i' q' k' l', pbrr_ready_queues s !! i' = Some q' → queues q' !! k' = Some l' → p ∈ l' → i' = i ∧ k' = k) →
  pbrr_inv (requeue i k q l b p t' s).
Proof.
  intros [Hrr Hk Hb Hnd Hin] Hq Hl0 HX Hl Hsub Hp Hother.
  assert (0 ≤ k < PRIO_NUM) as Hkr by (eapply Hk; eauto).
  split; simpl; [done| | | |].
  - intros i' q' k' [[<- <-]|[? ?]]%lookup_insert_Some; [|by eapply Hk]. simpl.
    destruct (decide (k' = k)) as [->|]; [rewrite lookup_insert_eq; naive_solver|rewrite lookup_insert_ne by done; by eapply Hk].
  - intros i' q' [[<- <-]|[? ?]]%lookup_insert_Some; [done|by eapply Hb].
  - intros i' q' k' l' [[<- <-]|[? ?]]%lookup_insert_Some; [|by eapply Hnd].
    simpl. intros [[<- <-]|[? ?]]%lookup_insert_Some; [done|by eapply Hnd].
  - intros i' q' k' l' x Hq' Hl' Hx.
    destruct (decide (x = p)) as [->|Hxp].
    + rewrite lookup_insert_eq. exists t'. split; [done|].
      apply lookup_insert_Some in Hq' as [[<- <-]|[Hne Hq']]; simpl in Hl'.
      * apply lookup_insert_Some in Hl' as [[<- <-]|[Hne Hl']]; [by apply Hp|].
        destruct (Hother i q k' l' Hq Hl' Hx) as [_ ->]. done.
      * destruct (Hother i' q' k' l' Hq' Hl' Hx) as [-> _]. done.
    + rewrite lookup_insert_ne by done.
      apply lookup_insert_Some in Hq' as [[<- <-]|[Hne Hq']]; simpl in Hl'; [|by eapply Hin].
      apply lookup_insert_Some in Hl' as [[<- <-]|[Hne Hl']]; [|by eapply Hin].
      eapply Hin; [done|done|]. by apply Hsub.
Qed.

(** A thread is on one queue only. *)
Lemma queued_once s i q k l i' q' k' l' x :
  pbrr_inv s → pbrr_ready_queues s !! i = Some q → queues q !! k = Some l → x ∈ l →
  pbrr_ready_queues s !! i' = Some q' → queues q' !! k' = Some l' → x ∈ l' → i' = i ∧ k' = k.
Proof.
  intros HI Hq Hl Hx Hq' Hl' Hx'. destruct (p_in s HI i q k l x) as (t&Ht&?&?&_); [done..|].
  destruct (p_in s HI i' q' k' l' x) as (t'&Ht'&?&?&_); [done..|]. by simplify_eq.
Qed.

Lemma unlink_requeue s i q k l x t :
  pbrr_inv s → pbrr_ready_queues s !! i = Some q → queues q !! k = Some l → x ∈ l →
  unlink x (with_thread x t s) = requeue i k q (filter (λ y, y ≠ x) l) (bitmap q) x t s.
Proof.
  intros HI Hq Hl Hx. unfold unlink, requeue. simpl. rewrite (p_rr s HI), fmap_empty.
  assert (∀ (l' : list Z), x ∉ l' → filter (λ y, y ≠ x) l' = l') as Hid.
  { intros l' Hn. induction l' as [|y l' IH]; [done|]. rewrite filter_cons, decide_True by set_solver. f_equal. set_solver. }
  match goal with |- set_pbrr ?a (set_rr ∅ ?s1) = set_pbrr ?b ?s2 => assert (a = b) as ->; [|by rewrite <-(p_rr s HI)] end.
  apply map_eq. intros i'. rewrite lookup_fmap. destruct (decide (i' = i)) as [->|Hi].
  - rewrite lookup_insert_eq, Hq. simpl. do 2 f_equal. apply map_eq. intros k'. rewrite lookup_fmap.
    destruct (decide (k' = k)) as [->|Hk]; [by rewrite lookup_insert_eq, Hl|]. rewrite lookup_insert_ne by done.
    destruct (queues q !! k') as [l'|] eqn:Hl'; [|done]. simpl. f_equal. apply Hid. intros Hx'.
    by destruct (queued_once s i q k l i q k' l' x) as [_ ?].
  - rewrite lookup_insert_ne by done. destruct (pbrr_ready_queues s !! i') as [q'|] eqn:Hq'; [|done]. simpl. f_equal.
    destruct q' as [qs b]. simpl. f_equal. apply map_eq. intros k'. rewrite lookup_fmap.
    destruct (qs !! k') as [l'|] eqn:Hl'; [|done]. simpl. f_equal. apply Hid. intros Hx'.
    by destruct (queued_once s i q k l i' (PQueue qs b) k' l' x) as [? _].
Qed.

Lemma wp_pqueue i q (Q : pbrr_ready_queue → sched → Prop) s :
  pbrr_ready_queues s !! i = Some q → Q q s → wp (pqueue i) Q s.
Proof. intros Hq HQ. unfold pqueue. wp_seq. by eapply wp_from_opt. Qed.

Lemma wp_lift_outcome {A} (o : outcome A) a (Q : A → sched → Prop) s : o = Ret a → Q a s → wp (lift o) Q s.
Proof. by intros ->. Qed.

Lemma filter_nil_iff (l : list Z) x k (m : gmap Z (list Z)) k' :
  m !! k = Some l → x ∈ l → NoDup l →
  (∃ l', <[k := filter (λ y, y ≠ x) l]> m !! k' = Some l' ∧ l' ≠ []) ↔
  (∃ l', m !! k' = Some l' ∧ l' ≠ []) ∧ (k' = k → filter (λ y, y ≠ x) l ≠ []).
Proof.
  intros Hl Hx Hnd. destruct (decide (k' = k)) as [->|].
  - rewrite lookup_insert_eq. split; [intros (l'&[= <-]&Hne)|intros [_ Hne]; eauto].
    split; [|done]. exists l. split; [done|]. by intros ->.
  - rewrite lookup_insert_ne by done. naive_solver.
Qed.

Lemma prio_range s i q k l : pbrr_inv s → pbrr_ready_queues s !! i = Some q → queues q !! k = Some l → 0 ≤ k < 1024.
Proof.
  intros HI Hq Hl. assert (0 ≤ k < PRIO_NUM) by (eapply (p_keys s HI); eauto). unfold PRIO_NUM, MAX_PRIO in *. lia.
Qed.

Lemma wp_pbrr_dequeue s i q k l x t :
  pbrr_inv s → pbrr_ready_queues s !! i = Some q → queues q !! k = Some l → x ∈ l → threads s !! x = Some t →
  wp (__pbrr_sched_dequeue x) (λ _ s', pbrr_inv s' ∧
    ∃ b, s' = requeue i k q (filter (λ y, y ≠ x) l) b x (set_state TS_INTER t) s) s.
Proof.
  intros HI Hq Hl Hx Ht. destruct (p_in s HI i q k l x) as (t0&Ht0&Hi&Hk&_); [done..|].
  assert (t0 = t) as -> by congruence. pose proof (p_nodup s HI i q k l Hq Hl) as Hnd.
  destruct (p_bits s HI i q Hq) as (X&HbX&HX).
  assert (∀ b X', bitmap_of b X' →
    (∀ k', k' ∈ X' ↔ k' ∈ X ∧ (k' = k → filter (λ y, y ≠ x) l ≠ [])) →
    pbrr_inv (requeue i k q (filter (λ y, y ≠ x) l) b x (set_state TS_INTER t) s)) as Hinv.
  { intros b X' Hb HX'. eapply requeue_inv; [done|done|done| |by apply NoDup_filter| | |].
    - exists X'. split; [done|]. intros k'. rewrite HX', HX. symmetry. by apply filter_nil_iff.
    - intros y Hy _. apply list_elem_of_filter in Hy. by destruct Hy.
    - intros Hin. apply list_elem_of_filter in Hin. by destruct Hin.
    - intros i' q' k' l' Hq' Hl' Hx'. by eapply (queued_once s i q k l i' q' k' l' x). }
  unfold __pbrr_sched_dequeue. wp_seq. s_thr. s_upd. wp_seq. rewrite (unlink_requeue s i q k l) by done. rewrite Hi, Hk.
  eapply wp_pqueue; [apply lookup_insert_eq|]. simpl queues. rewrite lookup_insert_eq. simpl default.
  case_bool_decide as He; simpl; wp_seq.
  - destruct (bitmap_of_clear (bitmap q) X k) as (b&Hclr&HbX'); [done|by eapply prio_range|].
    eapply wp_lift_outcome; [done|]. wp_seq. unfold pq_store. wp_seq.
    assert (∀ t', set_pbrr (<[i := PQueue (<[k := filter (λ y, y ≠ x) l]> (queues q)) b]>
        (pbrr_ready_queues (requeue i k q (filter (λ y, y ≠ x) l) (bitmap q) x t' s)))
        (requeue i k q (filter (λ y, y ≠ x) l) (bitmap q) x t' s)
      = requeue i k q (filter (λ y, y ≠ x) l) b x t' s) as ->.
    { intros t'. unfold requeue. simpl. by rewrite insert_insert_eq. }
    split; [|by exists b]. eapply Hinv; [done|]. intros k'. set_solver.
  - split; [|by exists (bitmap q)]. eapply Hinv; [done|]. intros k'. naive_solver.
Qed.

Section pbrr.
Context (c : config).

(** Threads that are not on their way out are left alone by the search. *)
Lemma wp_find_staying l s :
  (∀ x, x ∈ l → is_Some (threads s !! x) ∧ leaving s x = false) →
  wp (find_runnable_thread c l) (λ o s', o = fst <$> snd (first_runnable c s l) ∧ s' = s) s.
Proof.
  induction l as [|x l IH]; intros Hl; simpl; [done|].
  destruct (Hl x) as [[t Ht] Hlv]; [set_solver|]. wp_seq. s_thr.
  assert (wp (find_runnable_thread c l) (λ o s', o = fst <$> snd (first_runnable c s l) ∧ s' = s) s) as IH' by (apply IH; set_solver).
  unfold runnable, leaving in *. rewrite Ht in *. destruct (first_runnable c s l) as [pre r].
  destruct (exit_state t); try (by rewrite bool_decide_eq_true_2 in Hlv by auto); try done.
  simpl. destruct (negb (ks_locked t) || is_current c x s); [by wp_seq|done].
Qed.

(** May the current thread go on?  [h] is the highest ready priority. *)
Definition current_runnable (s : sched) : bool :=
  match current_threads s !! cpu c with
  | Some p =>
      match threads s !! p with
      | Some t => bool_decide (state t = TS_RUNNING) &&
                  (bool_decide (affinity t = NO_AFF) || bool_decide (wrap_u32 (affinity t) = cpu c))
      | None => false
      end
  | None => false
  end.
Definition goes_on (s : sched) (h : Z) : bool :=
  current_runnable s &&
  match current_threads s !! cpu c ≫= λ p, threads s !! p with
  | Some t => bool_decide (h < prio t) || (bool_decide (prio t = h) && bool_decide (0 < default 0 (budget t)))
  | None => false
  end.

Definition top_queue (q : pbrr_ready_queue) : list Z := default [] (queues q !! get_highest_prio (bitmap q)).

(** The current thread has a context. *)
Definition current_ok (s : sched) : Prop :=
  ∀ p, current_threads s !! cpu c = Some p → ∃ t, threads s !! p = Some t ∧ budget t ≠ None.

Lemma top_queue_spec s i q x : pbrr_inv s → pbrr_ready_queues s !! i = Some q → x ∈ top_queue q →
  prio_bitmap_is_empty (bitmap q) = false ∧ queues q !! get_highest_prio (bitmap q) = Some (top_queue q) ∧
  ∀ k l y, queues q !! k = Some l → y ∈ l → k ≤ get_highest_prio (bitmap q).
Proof.
  intros HI Hq Hx. destruct (p_bits s HI i q Hq) as (X&HbX&HX). unfold top_queue in *.
  destruct (queues q !! get_highest_prio (bitmap q)) as [l|] eqn:Hl; simpl in *; [|set_solver].
  assert (get_highest_prio (bitmap q) ∈ X) as Hin.
  { apply HX. exists l. split; [done|]. by intros ->; apply elem_of_nil in Hx. }
  split_and!; [|done|].
  - apply not_true_is_false. rewrite (bitmap_of_empty _ X HbX). set_solver.
  - intros k l' y Hl' Hy. apply (bitmap_of_highest _ X HbX); [set_solver|]. apply HX.
    exists l'. split; [done|]. by intros ->; apply elem_of_nil in Hy.
Qed.

(** What taking the first runnable thread of the top queue does. *)
Definition taken (s : sched) (q : pbrr_ready_queue) (pre : list Z) (p : Z) (post : list Z) (r : Z) (s' : sched) : Prop :=
  r = p ∧ pbrr_inv s' ∧ ∃ b t, threads s !! p = Some t ∧ prio t = get_highest_prio (bitmap q) ∧
    s' = requeue (cpu c) (get_highest_prio (bitmap q)) q (pre ++ post) b p (set_state TS_INTER t) s.

Lemma wp_pbrr_take s q pre p post flag retry :
  pbrr_inv s → pbrr_ready_queues s !! cpu c = Some q →
  queues q !! get_highest_prio (bitmap q) = Some (top_queue q) →
  (∀ x, x ∈ top_queue q → leaving s x = false) →
  first_runnable c s (top_queue q) = (pre, Some (p, post)) →
  wp (pbrr_take c (top_queue q) flag retry) (taken s q pre p post) s.
Proof.
  intros HI Hq Hl Hlv Hf. pose proof (first_runnable_app c s _ _ _ Hf) as Htop. simpl in Htop.
  assert (p ∈ top_queue q) as Hp by (rewrite Htop; set_solver).
  destruct (p_in s HI (cpu c) q _ (top_queue q) p Hq Hl Hp) as (t&Ht&_&Hpr&_).
  destruct (first_runnable_Some c s _ _ _ _ Hf) as [Hrun _].
  pose proof (p_nodup s HI _ _ _ _ Hq Hl) as Hnd.
  assert (filter (λ y, y ≠ p) (top_queue q) = pre ++ post) as Hfil.
  { rewrite Htop in *. by apply filter_middle. }
  unfold pbrr_take. wp_seq. eapply wp_mono; [apply wp_find_staying|].
  { intros x Hx. split; [|by apply Hlv]. destruct (p_in s HI _ _ _ _ x Hq Hl Hx) as (?&?&_). eauto. }
  intros o s' [-> ->]. rewrite Hf. simpl. wp_seq.
  eapply wp_mono; [by eapply (wp_pbrr_dequeue s (cpu c) q _ (top_queue q) p t)|].
  rewrite Hfil. intros [] s1 (HI1&b&->). wp_seq. eapply wp_thr; [apply lookup_insert_eq|].
  unfold runnable in Hrun. rewrite Ht in Hrun. apply andb_true_iff in Hrun as [Hex%bool_decide_eq_true _].
  rewrite bool_decide_eq_false_2 by (simpl; congruence). wp_seq.
  split_and!; [done|done|]. by exists b, t.
Qed.

Lemma wp_pbrr_choose s q pre p post :
  pbrr_inv s → current_ok s → pbrr_ready_queues s !! cpu c = Some q →
  (∀ x, x ∈ top_queue q → leaving s x = false) →
  first_runnable c s (top_queue q) = (pre, Some (p, post)) →
  wp (pbrr_sched_choose_thread c) (λ r s',
    (∀ k l y, queues q !! k = Some l → y ∈ l → k ≤ get_highest_prio (bitmap q)) ∧
    if goes_on s (get_highest_prio (bitmap q)) then Some r = current_threads s !! cpu c ∧ s' = s
    else taken s q pre p post r s') s.
Proof.
  intros HI Hcur Hq Hlv Hf. pose proof (first_runnable_app c s _ _ _ Hf) as Htop. simpl in Htop.
  destruct (top_queue_spec s (cpu c) q p) as (He&Hl&Hmax); [done|done|rewrite Htop; set_solver|].
  pose proof (λ flag retry, wp_pbrr_take s q pre p post flag retry HI Hq Hl Hlv Hf) as Htake.
  set (h := get_highest_prio (bitmap q)) in *.
  unfold pbrr_sched_choose_thread, current. wp_seq. unfold goes_on, current_runnable.
  destruct (current_threads s !! cpu c) as [x|] eqn:Hx; simpl.
  - destruct (Hcur x Hx) as (t&Ht&Hb). destruct (budget t) as [n|] eqn:Hn; [|done].
    wp_seq. s_thr. wp_seq. eapply wp_pqueue; [done|]. unfold current. wp_seq.
    eapply wp_pqueue; [done|]. rewrite He, Hx, Ht. wp_seq.
    change (default [] (queues q !! get_highest_prio (bitmap q))) with (top_queue q). fold h.
    set (flag := bool_decide (state t = TS_RUNNING) && _). destruct flag; cbn [andb].
    + wp_seq. s_thr. replace (bool_decide (prio t > h)) with (bool_decide (h < prio t)) by (apply bool_decide_ext; lia).
      case_bool_decide; wp_seq; [done|]. cbn [orb]. case_bool_decide; wp_seq; cbn [andb].
      * eapply wp_from_opt; [done|]. wp_seq. rewrite Hn. simpl.
        replace (bool_decide (n > 0)) with (bool_decide (0 < n)) by (apply bool_decide_ext; lia).
        case_bool_decide; [done|]. eapply wp_mono; [apply Htake|done].
      * eapply wp_mono; [apply Htake|done].
    + wp_seq. eapply wp_mono; [apply Htake|done].
  - wp_seq. eapply wp_pqueue; [done|]. unfold current. wp_seq. eapply wp_pqueue; [done|]. rewrite He, Hx. wp_seq.
    eapply wp_mono; [apply Htake|done].
Qed.

(** The CPU whose queue the thread joins; CPU numbers are those of this machine. *)
Definition bound_to (t : thread) : Z := if bool_decide (affinity t = NO_AFF) then cpu c else affinity t.

Lemma wp_pbrr_enqueue s p t q l :
  pbrr_inv s → config_ok c → CPU_RANGE_LOW c = 0 →
  threads s !! p = Some t → state t ≠ TS_READY → is_fpu_owner t < 0 →
  affinity t = NO_AFF ∨ 0 ≤ affinity t < PLAT_CPU_NUM →
  pbrr_ready_queues s !! bound_to t = Some q → queues q !! prio t = Some l →
  wp (pbrr_sched_enqueue c p) (λ r s', r = 0 ∧ pbrr_inv s' ∧ ∃ b, interrupts_only
    (requeue (bound_to t) (prio t) q (l ++ [p]) b p (set_state TS_READY (set_cpuid (bound_to t) t)) s) s') s.
Proof.
  intros HI Hc H0 Ht Hst Hfpu Haff Hq Hl. pose proof Hc as [Hcpu Hlow Hhigh Hnum].
  assert (is_local_cpu c (affinity t) = true) as Hloc.
  { destruct Haff as [-> | ?]; [apply is_local_no_aff|apply is_local_range; [done|lia]]. }
  assert (0 ≤ bound_to t < PLAT_CPU_NUM) as Hi.
  { unfold bound_to. case_bool_decide; [done|]. by destruct Haff. }
  pose proof (proj1 (p_keys s HI _ q _ Hq) (ex_intro _ l Hl)) as Hk.
  destruct (p_bits s HI _ q Hq) as (X&HbX&HX).
  destruct (bitmap_of_set (bitmap q) X (prio t)) as (b&Hset&HbX'); [done|unfold PRIO_NUM, MAX_PRIO in *; lia|].
  assert (∀ i' q' k' l', pbrr_ready_queues s !! i' = Some q' → queues q' !! k' = Some l' → p ∈ l' → False) as Hnot.
  { intros i' q' k' l' Hq' Hl' Hp. destruct (p_in s HI i' q' k' l' p Hq' Hl' Hp) as (t'&Ht'&_&_&?). by simplify_eq. }
  unfold pbrr_sched_enqueue, get_cpubind. wp_seq. s_thr. rewrite bool_decide_eq_false_2 by done. wp_seq.
  s_bug; [apply bool_decide_eq_false; lia|]. s_thr. rewrite Hloc, (bool_decide_eq_true_2 (is_fpu_owner t < 0)) by done.
  cbn [negb]. wp_seq. fold (bound_to t). s_upd. eapply wp_pqueue; [done|]. wp_seq. eapply wp_lift_outcome; [done|]. wp_seq.
  unfold pq_store. wp_seq. rewrite Hl. simpl default. unfold add_pending_resched. wp_seq.
  s_bug; [apply bool_decide_eq_false; lia|]. wp_seq.
  assert (pbrr_inv (requeue (bound_to t) (prio t) q (l ++ [p]) b p (set_state TS_READY (set_cpuid (bound_to t) t)) s)) as HI'.
  { eapply requeue_inv; [done|done|done| | | | |].
    - eexists. split; [done|]. intros k'. rewrite elem_of_union, elem_of_singleton, HX.
      destruct (decide (k' = prio t)) as [->|]; [rewrite lookup_insert_eq|by rewrite lookup_insert_ne; naive_solver].
      split; [|tauto]. intros _. eexists. split; [done|]. by destruct l.
    - apply NoDup_app. split_and!; [by eapply (p_nodup s HI)| |by apply NoDup_singleton].
      intros x Hx Hxp%list_elem_of_singleton. subst x. eauto.
    - intros x Hx Hxp. set_solver.
    - done.
    - intros i' q' k' l' Hq' Hl' Hp. by destruct (Hnot i' q' k' l'). }
  split_and!; [done|destruct HI'; by split|]. exists b. eexists _, (resched_flags s), (kicks s). split; [done|].
  intros j Hj. destruct (decide (j = cpu c)) as [->|]; [rewrite lookup_insert_eq; by apply cpu_bits_add|by rewrite lookup_insert_ne].
Qed.
End pbrr.

(** the two-level bitmap of the priority scheduler implements a set of
    priorities below 1024: [prio_bitmap_init] is the empty set, setting and clearing a
    priority never hit the [BUG_ON] and insert and remove exactly it, [prio_bitmap_is_empty]
    tests for the empty set, and [get_highest_prio] is the greatest element. *)
Theorem prio_bitmap_correct :
  bitmap_of prio_bitmap_init ∅ ∧
  ∀ b X, bitmap_of b X →
    (∀ p, 0 ≤ p < 1024 → ∃ b', prio_bitmap_set b p = Ret b' ∧ bitmap_of b' ({[p]} ∪ X)) ∧
    (∀ p, 0 ≤ p < 1024 → ∃ b', prio_bitmap_clear b p = Ret b' ∧ bitmap_of b' (X ∖ {[p]})) ∧
    (prio_bitmap_is_empty b = true ↔ X = ∅) ∧
    (X ≠ ∅ → get_highest_prio b ∈ X ∧ ∀ q, q ∈ X → q ≤ get_highest_prio b).
Proof.
  split; [apply bitmap_of_init|]. intros b X Hb. split_and!.
  - intros p. by apply bitmap_of_set.
  - intros p. by apply bitmap_of_clear.
  - by apply bitmap_of_empty.
  - by apply bitmap_of_highest.
Qed.

(** [pbrr_sched_enqueue] puts a thread that is not ready on the queue of its
    priority, at the end, on the CPU it is bound to (this one if it has no affinity),
    marks it ready and sets its priority in the bitmap; it returns 0 and the queues
    and bitmaps of all CPUs stay consistent. *)
Theorem pbrr_enqueue_correct c s p t q l :
  pbrr_inv s → config_ok c → CPU_RANGE_LOW c = 0 →
  threads s !! p = Some t → state t ≠ TS_READY → is_fpu_owner t < 0 →
  affinity t = NO_AFF ∨ 0 ≤ affinity t < PLAT_CPU_NUM →
  pbrr_ready_queues s !! bound_to c t = Some q → queues q !! prio t = Some l →
  wp (pbrr_sched_enqueue c p) (λ r s', r = 0 ∧ pbrr_inv s' ∧ ∃ b, interrupts_only
    (requeue (bound_to c t) (prio t) q (l ++ [p]) b p (set_state TS_READY (set_cpuid (bound_to c t) t)) s) s') s.
Proof. apply wp_pbrr_enqueue. Qed.

(** [pbrr_sched_choose_thread] never passes over a higher priority: no queued thread
    of this CPU has a priority above that of the queue it looks at; the current thread
    goes on if it may run here and has a higher priority, or the same one and budget
    left; otherwise the first runnable thread of that queue is taken off it, and the
    queues and bitmaps stay consistent.  Threads on their way out are excluded here. *)
Theorem pbrr_choose_correct c s q pre p post :
  pbrr_inv s → current_ok c s → pbrr_ready_queues s !! cpu c = Some q →
  (∀ x, x ∈ top_queue q → leaving s x = false) →
  first_runnable c s (top_queue q) = (pre, Some (p, post)) →
  wp (pbrr_sched_choose_thread c) (λ r s',
    (∀ k l y, queues q !! k = Some l → y ∈ l → k ≤ get_highest_prio (bitmap q)) ∧
    if goes_on c s (get_highest_prio (bitmap q)) then Some r = current_threads s !! cpu c ∧ s' = s
    else taken c s q pre p post r s') s.
Proof. apply wp_pbrr_choose. Qed.

(** ** Concrete queues *)

Definition empty_queues : gmap Z (list Z) := list_to_map ((λ j, (j, [])) <$> seqZ 0 PRIO_NUM).

Arguments empty_queues : simpl never.

Lemma empty_queues_lookup k l : empty_queues !! k = Some l ↔ 0 ≤ k < PRIO_NUM ∧ l = [].
Proof.
  unfold empty_queues. rewrite <-elem_of_list_to_map.
  - rewrite list_elem_of_fmap. setoid_rewrite elem_of_seqZ. split; [intros (j&[= -> ->]&?); split; [lia|done]|].
    intros [? ->]. exists k. split; [done|lia].
  - rewrite <-list_fmap_compose. assert (fst ∘ (λ j : Z, (j, @nil Z)) = id) as -> by done.
    rewrite list_fmap_id. apply NoDup_seqZ.
Qed.

(** The state after the queues of CPU 0 were initialised. *)
Definition pbrr_start (ts : gmap Z thread) (cur : gmap Z Z) : sched :=
  Sched ts ∅ ∅ cur ∅ ∅ ∅ ∅ [] [] {[0 := PQueue empty_queues prio_bitmap_init]}.

Lemma pbrr_start_inv ts cur : pbrr_inv (pbrr_start ts cur).
Proof.
  split; simpl; [done| | | |].
  - intros i q k [<- <-]%lookup_singleton_Some. simpl. split.
    + intros [l Hl%empty_queues_lookup]. by destruct Hl.
    + intros Hk. exists []. by apply empty_queues_lookup.
  - intros i q [<- <-]%lookup_singleton_Some. exists ∅. split; [apply bitmap_of_init|]. intros k.
    split; [set_solver|]. intros (l&Hl%empty_queues_lookup&Hne). by destruct Hl.
  - intros i q k l [<- <-]%lookup_singleton_Some [_ ->]%empty_queues_lookup. constructor.
  - intros i q k l x [<- <-]%lookup_singleton_Some [_ ->]%empty_queues_lookup Hx. by apply elem_of_nil in Hx.
Qed.

Lemma prio_bitmap_correct_witness :
  ∃ b', prio_bitmap_set prio_bitmap_init 200 = Ret b' ∧ bitmap_of b' ({[200]} ∪ ∅).
Proof.
  destruct prio_bitmap_correct as [H1 H2]. destruct (H2 prio_bitmap_init ∅ H1) as [H3 _].
  apply H3. lia.
Defined.

Definition newcomer : thread := user_thread TS_INIT TE_RUNNING 10 NO_AFF.

Lemma pbrr_enqueue_correct_witness :
  wp (pbrr_sched_enqueue machine0 100) (λ r s', r = 0 ∧ pbrr_inv s' ∧ ∃ b, interrupts_only
    (requeue 0 10 (PQueue empty_queues prio_bitmap_init) [100] b 100
       (set_state TS_READY (set_cpuid 0 newcomer)) (pbrr_start {[100 := newcomer]} ∅)) s')
    (pbrr_start {[100 := newcomer]} ∅).
Proof.
  apply (pbrr_enqueue_correct machine0 (pbrr_start {[100 := newcomer]} ∅) 100 newcomer
           (PQueue empty_queues prio_bitmap_init) []).
  - apply pbrr_start_inv.
  - apply machine0_ok.
  - done.
  - by vm_compute.
  - done.
  - simpl. lia.
  - by left.
  - done.
  - by vm_compute.
Defined.

(** One ready thread of priority 10 *)
Definition waiting : thread := set_state TS_READY newcomer.
Definition one_ready : sched :=
  requeue 0 10 (PQueue empty_queues prio_bitmap_init) [100] (PBitmap 1 (1024 :: replicate 31 0)) 100 waiting
    (pbrr_start {[100 := waiting]} ∅).

Lemma one_ready_inv : pbrr_inv one_ready.
Proof.
  destruct (bitmap_of_set prio_bitmap_init ∅ 10) as (b&Hb&HX); [apply bitmap_of_init|lia|].
  vm_compute in Hb. injection Hb as <-. apply (requeue_inv _ 0 10 _ []).
  - apply pbrr_start_inv.
  - done.
  - by apply empty_queues_lookup.
  - exists ({[10]} ∪ ∅). split; [exact HX|]. intros k. cbn [queues]. destruct (decide (k = 10)) as [->|].
    + rewrite lookup_insert_eq. split; [|set_solver]. intros _. by exists [100].
    + rewrite lookup_insert_ne by done. split; [set_solver|]. by intros (l&[_ ->]%empty_queues_lookup&?).
  - apply NoDup_singleton.
  - set_solver.
  - done.
  - cbn [pbrr_start pbrr_ready_queues].
    intros i q k l [<- <-]%lookup_singleton_Some [_ ->]%empty_queues_lookup Hx. by apply elem_of_nil in Hx.
Qed.

Lemma pbrr_choose_correct_witness :
  let q := PQueue (<[10 := [100]]> empty_queues) (PBitmap 1 (1024 :: replicate 31 0)) in
  wp (pbrr_sched_choose_thread machine0) (λ r s',
    (∀ k l y, queues q !! k = Some l → y ∈ l → k ≤ 10) ∧
    taken machine0 one_ready q [] 100 [] r s') one_ready.
Proof.
  intros q. apply (pbrr_choose_correct machine0 one_ready q [] 100 []).
  - apply one_ready_inv.
  - intros p Hp. by vm_compute in Hp.
  - done.
  - intros x Hx. vm_compute in Hx. apply list_elem_of_singleton in Hx. subst x. by vm_compute.
  - by vm_compute.
Defined.

(** ** A thread that exits while it is ready *)

(** Thread 101, of priority 20, is asked to exit while it waits on its queue;
    thread 100, of priority 10, is ready; the idle thread runs. *)
Definition idle_thread : thread :=
  Thread TYPE_IDLE TS_RUNNING TE_RUNNING IDLE_PRIO NO_AFF 0 NO_AFF_u32 true (Some 1) (-1) 0 false THREAD_ITSELF no_history.
Definition exiting_ready : sched :=
  Sched (<[0 := idle_thread]> (<[100 := waiting]> {[101 := user_thread TS_READY TE_EXITING 20 NO_AFF]}))
    ∅ ∅ {[0 := 0]} ∅ ∅ ∅ ∅ [] []
    {[0 := PQueue (<[10 := [100]]> (<[20 := [101]]> empty_queues)) (PBitmap 1 (1049600 :: replicate 31 0))]}.

Definition starved : sched :=
  set_threads (<[101 := user_thread TS_EXIT TE_EXITED 20 NO_AFF]> (threads exiting_ready)) exiting_ready.

(** a thread that is asked to exit while it is ready blocks the priorities below its
    own: the search, which [sched.c] shares with the round-robin policy, marks it as
    exited but takes it off a round-robin queue only, so it stays on its priority queue with
    its bit set; the scheduler chooses the idle thread although thread 100 is ready,
    free to run and queued, and does so again on every later call. *)
Theorem pbrr_exit_starves_lower_priorities :
  ∃ s', pbrr_sched_choose_thread machine0 exiting_ready = Ret (idle_threads 0, s') ∧
    pbrr_sched_choose_thread machine0 s' = Ret (idle_threads 0, s') ∧
    runnable machine0 s' 100 = true ∧
    (∃ q, pbrr_ready_queues s' !! 0 = Some q ∧ queues q !! 10 = Some [100] ∧ queues q !! 20 = Some [101]).
Proof.
  exists starved. split_and!; [by vm_compute..|].
  exists (PQueue (<[10 := [100]]> (<[20 := [101]]> empty_queues)) (PBitmap 1 (1049600 :: replicate 31 0))).
  split_and!; by vm_compute.
Qed.
