(* ===== verification/ThreadDq.v ===== *)
(** The queues of threads that the machines share ([kernel/mm/shm.c], the
    "thread durable queue" part): Michael-Scott queues whose nodes come from one
    pool with a Treiber stack as free list.

    Nodes are named by their offset from [dsm_meta]; [base] is the offset of
    [pool->nodes[0]].  A thread is named by its physical address, a queue by a
    number.  The operations are functions of the pool here, each run from its beginning to its
    end: their compare-and-swaps then find what was read before.  The operations on one queue are
    kept apart by a lock ([queue_lock] or the lock of the notification); the pool has no
    lock, and its pop and push are also modelled access by access (module [Treiber]). *)
From S2P Require Import Prelude Words.

Definition QPTR_NULL : Z := -1.
Definition THREAD_DQ_POOL_SIZE : Z := 4096.
(** [sizeof(struct thread_dq_node)] *)
Definition NODE_SIZE : Z := 16.

Inductive dq_status : Set :=
  DQ_FREE | DQ_INIT | DQ_DOING | DQ_DONE | DQ_CONSUMED | DQ_CRASH | DQ_CANCELLED.
#[export] Instance dq_status_dec : EqDecision dq_status.
Proof. solve_decision. Defined.

Record thread_dq_node := DqNode { next : Z; status : dq_status; thread_pa : Z }.
Record thread_durable_queue := TDQ { head : Z; tail : Z }.

Record dq_pool := Pool {
  nodes : gmap Z thread_dq_node; free_list : Z;
  dqs : gmap Z thread_durable_queue; notif_dq_node_off : gmap Z Z
}.
Definition set_nodes x s := Pool x (free_list s) (dqs s) (notif_dq_node_off s).
Definition set_free_list x s := Pool (nodes s) x (dqs s) (notif_dq_node_off s).
Definition set_dqs x s := Pool (nodes s) (free_list s) x (notif_dq_node_off s).
Definition set_notif_off x s := Pool (nodes s) (free_list s) (dqs s) x.

Definition read_node (off : Z) : M dq_pool thread_dq_node := s ← get_state; from_opt (nodes s !! off).
Definition write_node (off : Z) (f : thread_dq_node → thread_dq_node) : M dq_pool unit :=
  n ← read_node off; modify (λ s, set_nodes (<[off := f n]> (nodes s)) s).
Definition set_next x n := DqNode x (status n) (thread_pa n).
Definition set_status x n := DqNode (next n) x (thread_pa n).
Definition set_thread_pa x n := DqNode (next n) (status n) x.
Definition read_dq (q : Z) : M dq_pool thread_durable_queue := s ← get_state; from_opt (dqs s !! q).
Definition write_dq (q : Z) (d : thread_durable_queue) : M dq_pool unit :=
  modify (λ s, set_dqs (<[q := d]> (dqs s)) s).

Section dq.
Context (base : Z).

(** [thread_ptr_to_qptr(&pool->nodes[j])] *)
Definition node_off (j : Z) : Z := base + j * NODE_SIZE.

(** [for (j = THREAD_DQ_POOL_SIZE - 1; j >= 1; j--)] *)
Fixpoint pool_init_loop (j : nat) : M dq_pool unit :=
  match j with
  | O => mret tt
  | S j' =>
      s ← get_state;
      write_node (node_off (Z.of_nat j)) (λ n, set_next (free_list s) (set_status DQ_FREE n));;
      modify (set_free_list (node_off (Z.of_nat j)));;
      pool_init_loop j'
  end.
Definition thread_dq_pool_init : M dq_pool unit :=
  modify (set_free_list QPTR_NULL);; pool_init_loop (Z.to_nat (THREAD_DQ_POOL_SIZE - 1)).

(** [compare_and_swap_32]: the value found, which is replaced where it is the one expected *)
Definition cas_free_list (expected new : Z) : M dq_pool Z :=
  s ← get_state;
  when (bool_decide (free_list s = expected)) (modify (set_free_list new));;
  mret (free_list s).
Definition cas_next (off expected new : Z) : M dq_pool Z :=
  n ← read_node off;
  when (bool_decide (next n = expected)) (write_node off (set_next new));;
  mret (next n).
Definition cas_head (q expected new : Z) : M dq_pool Z :=
  d ← read_dq q;
  when (bool_decide (head d = expected)) (write_dq q (TDQ new (tail d)));;
  mret (head d).
Definition cas_tail (q expected new : Z) : M dq_pool Z :=
  d ← read_dq q;
  when (bool_decide (tail d = expected)) (write_dq q (TDQ (head d) new));;
  mret (tail d).

(** The rounds of [while (1)]; an operation that no other one overlaps needs one. *)
Fixpoint alloc_try_loop (fuel : nat) : M dq_pool (option Z) :=
  match fuel with
  | O => halt OutOfFuel
  | S fuel' =>
      s ← get_state;
      let h := free_list s in
      if bool_decide (h = QPTR_NULL) then mret None
      else
        n ← read_node h;
        found ← cas_free_list h (next n);
        if bool_decide (found = h) then mret (Some h) else alloc_try_loop fuel'
  end.
Definition thread_dq_alloc_node_try : M dq_pool (option Z) := alloc_try_loop 1.

Definition thread_dq_node_off_valid (off : Z) : bool :=
  if bool_decide (off = QPTR_NULL) then false
  else
    let first := node_off 0 in
    let last := first + THREAD_DQ_POOL_SIZE * NODE_SIZE in
    bool_decide (off >= first) && bool_decide (off < last) && bool_decide ((off - first) mod NODE_SIZE = 0).

(** An exhausted pool is waited for. *)
Definition thread_dq_alloc_node : M dq_pool Z :=
  o ← thread_dq_alloc_node_try;
  match o with Some n => mret n | None => halt Spins end.

Fixpoint free_node_loop (fuel : nat) (off : Z) : M dq_pool unit :=
  match fuel with
  | O => halt OutOfFuel
  | S fuel' =>
      s ← get_state;
      let h := free_list s in
      write_node off (set_next h);;
      found ← cas_free_list h off;
      if bool_decide (found = h) then mret tt else free_node_loop fuel' off
  end.
Definition thread_dq_free_node (off : Z) : M dq_pool unit := free_node_loop 1 off.

Definition thread_dq_init (q : Z) : M dq_pool Z :=
  off ← thread_dq_alloc_node;
  write_node off (λ n, set_status DQ_CONSUMED (set_next QPTR_NULL n));;
  write_dq q (TDQ off off);;
  mret 0.

Fixpoint deinit_walk (fuel : nat) (cur walked : Z) : M dq_pool unit :=
  match fuel with
  | O => halt OutOfFuel
  | S fuel' =>
      if bool_decide (cur = QPTR_NULL) then mret tt
      else if negb (thread_dq_node_off_valid cur) then mret tt
      else if bool_decide (walked + 1 > THREAD_DQ_POOL_SIZE) then mret tt
      else
        n ← read_node cur;
        thread_dq_free_node cur;;
        deinit_walk fuel' (next n) (walked + 1)
  end.
(** [while (1)]: the head is claimed with a compare-and-swap. *)
Fixpoint deinit_claim (fuel : nat) (q : Z) : M dq_pool (option Z) :=
  match fuel with
  | O => halt OutOfFuel
  | S fuel' =>
      d ← read_dq q;
      let cur := head d in
      if negb (thread_dq_node_off_valid cur) then mret None
      else
        found ← cas_head q cur QPTR_NULL;
        if bool_decide (found = cur) then mret (Some cur) else deinit_claim fuel' q
  end.
Definition thread_dq_deinit (q : Z) : M dq_pool unit :=
  claimed ← deinit_claim 1 q;
  match claimed with
  | None => mret tt
  | Some cur =>
      d ← read_dq q;
      write_dq q (TDQ (head d) QPTR_NULL);;
      deinit_walk (S (S (Z.to_nat THREAD_DQ_POOL_SIZE))) cur 0
  end.

#[global] Arguments thread_dq_deinit : simpl never.

(** The rounds of [while (1)]: an enqueue goes round again when the tail lags. *)
Fixpoint enqueue_loop (fuel : nat) (q off : Z) : M dq_pool unit :=
  match fuel with
  | O => halt OutOfFuel
  | S fuel' =>
      d ← read_dq q;
      let last := tail d in
      l ← read_node last;
      d' ← read_dq q;
      if negb (bool_decide (last = tail d')) then enqueue_loop fuel' q off
      else if bool_decide (next l = QPTR_NULL) then
        found ← cas_next last QPTR_NULL off;
        if bool_decide (found = QPTR_NULL) then _ ← cas_tail q last off; mret tt
        else enqueue_loop fuel' q off
      else
        _ ← cas_tail q last (next l);
        enqueue_loop fuel' q off
  end.
Definition thread_dq_enqueue (q p : Z) : M dq_pool unit :=
  off ← thread_dq_alloc_node;
  write_node off (λ n, set_status DQ_INIT (set_next QPTR_NULL (set_thread_pa p n)));;
  modify (λ s, set_notif_off (<[p := off]> (notif_dq_node_off s)) s);;
  enqueue_loop (Z.to_nat THREAD_DQ_POOL_SIZE) q off.

(** A dequeue goes round again for a cancelled node and when the tail lags. *)
Fixpoint dequeue_loop (fuel : nat) (q : Z) : M dq_pool (option Z) :=
  match fuel with
  | O => halt OutOfFuel
  | S fuel' =>
      d ← read_dq q;
      h ← read_node (head d);
      d' ← read_dq q;
      if negb (bool_decide (head d = head d')) then dequeue_loop fuel' q
      else if bool_decide (head d = tail d) then
        if bool_decide (next h = QPTR_NULL) then mret None
        else _ ← cas_tail q (tail d) (next h); dequeue_loop fuel' q
      else
        n ← read_node (next h);
        if bool_decide (status n = DQ_CANCELLED) then
          found ← cas_head q (head d) (next h);
          when (bool_decide (found = head d)) (thread_dq_free_node (head d));;
          dequeue_loop fuel' q
        else
          found ← cas_head q (head d) (next h);
          if bool_decide (found = head d) then
            n ← read_node (next h);
            thread_dq_free_node (head d);;
            mret (Some (thread_pa n))
          else dequeue_loop fuel' q
  end.
Definition thread_dq_dequeue (q : Z) : M dq_pool (option Z) :=
  dequeue_loop (S (Z.to_nat THREAD_DQ_POOL_SIZE)) q.

Definition thread_dq_cancel_node (off : Z) : M dq_pool unit :=
  if bool_decide (off = QPTR_NULL) then mret tt else write_node off (set_status DQ_CANCELLED).

(** ** Invariant *)

(** The nodes reached from [off] are [l]. *)
Fixpoint chain (ns : gmap Z thread_dq_node) (off : Z) (l : list Z) : Prop :=
  match l with
  | [] => off = QPTR_NULL
  | x :: l' => off = x ∧ ∃ n, ns !! x = Some n ∧ chain ns (next n) l'
  end.

(** [F] is the free list; [Q] gives the nodes of each queue, the sentinel first.
    Each node of the pool is on one of them at most. *)
Record dq_inv (s : dq_pool) (F : list Z) (Q : gmap Z (list Z)) : Prop := {
  d_free : chain (nodes s) (free_list s) F;
  d_queue : ∀ q l, Q !! q = Some l →
    ∃ d, dqs s !! q = Some d ∧ l ≠ [] ∧ chain (nodes s) (head d) l ∧ last l = Some (tail d);
  d_nodup : NoDup F;
  d_nodups : ∀ q l, Q !! q = Some l → NoDup l ∧ (∀ x, x ∈ l → x ∉ F);
  d_disj : ∀ q q' l l' x, Q !! q = Some l → Q !! q' = Some l' → x ∈ l → x ∈ l' → q = q';
  d_valid : (∀ x, x ∈ F → thread_dq_node_off_valid x = true) ∧
            ∀ q l x, Q !! q = Some l → x ∈ l → thread_dq_node_off_valid x = true
}.

(** What a queue holds: threads, and whether their node was cancelled. *)
Definition entry (ns : gmap Z thread_dq_node) (x : Z) : Z * bool :=
  match ns !! x with Some n => (thread_pa n, bool_decide (status n = DQ_CANCELLED)) | None => (0, true) end.
Definition entries (ns : gmap Z thread_dq_node) (l : list Z) : list (Z * bool) := entry ns <$> list.tail l.

(** The first thread that was not cancelled, and what is left behind it. *)
Fixpoint pop (es : list (Z * bool)) : option Z * list (Z * bool) :=
  match es with
  | [] => (None, [])
  | (p, cancelled) :: es' => if (cancelled : bool) then pop es' else (Some p, es')
  end.

(** ** Chains *)

Lemma chain_ne ns off l x n : x ∉ l → chain (<[x := n]> ns) off l ↔ chain ns off l.
Proof.
  revert off. induction l as [|y l IH]; intros off Hx; [done|]. simpl.
  rewrite lookup_insert_ne by set_solver. setoid_rewrite IH; [done|set_solver].
Qed.

Lemma chain_same_next ns off l x n n' :
  ns !! x = Some n → next n' = next n → chain ns off l → chain (<[x := n']> ns) off l.
Proof.
  intros Hx Hn. revert off. induction l as [|y l IH]; intros off; [done|]. simpl. intros [-> (m&Hm&Hc)]. split; [done|].
  destruct (decide (y = x)) as [->|].
  - rewrite lookup_insert_eq. exists n'. split; [done|]. rewrite Hn. apply IH. by simplify_eq.
  - rewrite lookup_insert_ne by done. exists m. auto.
Qed.

Lemma chain_elem ns off l x : chain ns off l → x ∈ l → is_Some (ns !! x).
Proof.
  revert off. induction l as [|y l IH]; intros off; simpl; [set_solver|]. intros [_ (n&Hn&Hc)] [->|?]%elem_of_cons; eauto.
Qed.

Lemma chain_last ns off l t : chain ns off l → last l = Some t → ∃ n, ns !! t = Some n ∧ next n = QPTR_NULL.
Proof.
  revert off. induction l as [|y l IH]; intros off; [done|]. intros [_ (n&Hn&Hc)]. destruct l as [|z l].
  - intros [= <-]. by exists n.
  - change (last (y :: z :: l)) with (last (z :: l)). by apply IH with (next n).
Qed.

Lemma chain_snoc ns off l t n y ny :
  chain ns off l → last l = Some t → NoDup l → ns !! t = Some n → y ∉ l → ns !! y = Some ny → next ny = QPTR_NULL →
  chain (<[t := set_next y n]> ns) off (l ++ [y]).
Proof.
  intros Hc Hl Hnd Ht Hy Hny Hnull. revert off Hc. induction l as [|x l IH]; intros off; [done|].
  intros [-> (m&Hm&Hc)]. apply NoDup_cons in Hnd as [Hx Hnd]. destruct l as [|z l].
  - injection Hl as ->. simpl. split; [done|]. rewrite lookup_insert_eq. eexists. split; [done|]. split; [done|].
    rewrite lookup_insert_ne by set_solver. by exists ny.
  - change (last (x :: z :: l)) with (last (z :: l)) in Hl.
    assert (t ∈ z :: l) by (by apply last_Some_elem_of). simpl. split; [done|].
    rewrite lookup_insert_ne by set_solver. exists m. split; [done|]. apply IH; [done|done|set_solver|done].
Qed.

Lemma entry_ne ns x y n : x ≠ y → entry (<[x := n]> ns) y = entry ns y.
Proof. intros H. unfold entry. by rewrite lookup_insert_ne. Qed.

Lemma entries_ext ns ns' l : (∀ x, x ∈ list.tail l → entry ns' x = entry ns x) → entries ns' l = entries ns l.
Proof. intros H. unfold entries. apply list_fmap_ext. intros i x Hx. apply H. by eapply list_elem_of_lookup_2. Qed.

Lemma elem_of_tail (l : list Z) x : x ∈ list.tail l → x ∈ l.
Proof. destruct l; set_solver. Qed.

(** ** Nodes on no list *)

(** [x] is a node of the pool that is on no list. *)
Definition loose (s : dq_pool) (F : list Z) (Q : gmap Z (list Z)) (x : Z) : Prop :=
  (x ∉ F) ∧ (∀ q l, Q !! q = Some l → x ∉ l) ∧ thread_dq_node_off_valid x = true ∧ is_Some (nodes s !! x).

Lemma loose_write s F Q x n :
  dq_inv s F Q → loose s F Q x → dq_inv (set_nodes (<[x := n]> (nodes s)) s) F Q.
Proof.
  intros [Hf Hq Hnd Hnds Hdj Hv] (HF&HQ&_). split; simpl; try done.
  - by apply chain_ne.
  - intros q l Hl. destruct (Hq q l Hl) as (d&?&?&?&?). exists d. split_and!; try done.
    apply chain_ne; [by eapply HQ|done].
Qed.

Lemma loose_other s F Q x f : dq_inv s F Q → loose s F Q x → dq_inv (set_notif_off f s) F Q.
Proof. intros [] _. by split. Qed.

Lemma wp_read_node s x n (P : thread_dq_node → dq_pool → Prop) :
  nodes s !! x = Some n → P n s → wp (read_node x) P s.
Proof. intros Hn HP. unfold read_node. wp_seq. by eapply wp_from_opt. Qed.

Lemma wp_write_node s x f n (P : unit → dq_pool → Prop) :
  nodes s !! x = Some n → P tt (set_nodes (<[x := f n]> (nodes s)) s) → wp (write_node x f) P s.
Proof. intros Hn HP. unfold write_node. wp_seq. eapply wp_read_node; [done|]. by wp_seq. Qed.

Lemma wp_read_dq s q d (P : thread_durable_queue → dq_pool → Prop) :
  dqs s !! q = Some d → P d s → wp (read_dq q) P s.
Proof. intros Hn HP. unfold read_dq. wp_seq. by eapply wp_from_opt. Qed.

(** A compare-and-swap that finds what was read before *)
Lemma wp_cas_free_list s new (P : Z → dq_pool → Prop) : P (free_list s) (set_free_list new s) → wp (cas_free_list (free_list s) new) P s.
Proof. intros HP. unfold cas_free_list. wp_seq. rewrite bool_decide_eq_true_2 by done. by wp_seq. Qed.

Lemma wp_cas_next s x n new (P : Z → dq_pool → Prop) : nodes s !! x = Some n →
  P (next n) (set_nodes (<[x := set_next new n]> (nodes s)) s) → wp (cas_next x (next n) new) P s.
Proof.
  intros Hn HP. unfold cas_next. wp_seq. eapply wp_read_node; [done|]. wp_seq. rewrite bool_decide_eq_true_2 by done.
  eapply wp_write_node; [done|]. by wp_seq.
Qed.

Lemma wp_cas_head s q d old new (P : Z → dq_pool → Prop) : dqs s !! q = Some d → head d = old →
  P old (set_dqs (<[q := TDQ new (tail d)]> (dqs s)) s) → wp (cas_head q old new) P s.
Proof. intros Hd <- HP. unfold cas_head, write_dq. wp_seq. eapply wp_read_dq; [done|]. wp_seq. rewrite bool_decide_eq_true_2 by done. by wp_seq. Qed.

Lemma wp_cas_tail s q d new (P : Z → dq_pool → Prop) : dqs s !! q = Some d →
  P (tail d) (set_dqs (<[q := TDQ (head d) new]> (dqs s)) s) → wp (cas_tail q (tail d) new) P s.
Proof. intros Hd HP. unfold cas_tail, write_dq. wp_seq. eapply wp_read_dq; [done|]. wp_seq. rewrite bool_decide_eq_true_2 by done. by wp_seq. Qed.

Lemma wp_alloc s x F Q :
  dq_inv s (x :: F) Q →
  wp thread_dq_alloc_node (λ r s', r = x ∧ nodes s' = nodes s ∧ dqs s' = dqs s ∧ dq_inv s' F Q ∧ loose s' F Q x) s.
Proof.
  intros [Hf Hq Hnd Hnds Hdj [Hv1 Hv2]]. destruct Hf as [Hh (n&Hn&Hc)].
  assert (thread_dq_node_off_valid x = true) as Hvx by (apply Hv1; set_solver).
  assert (x ≠ QPTR_NULL) as Hx. { intros ->. done. }
  unfold thread_dq_alloc_node, thread_dq_alloc_node_try, read_node. cbn [alloc_try_loop]. wp_seq. rewrite Hh, bool_decide_eq_false_2 by done.
  wp_seq. eapply wp_from_opt; [exact Hn|]. wp_seq. rewrite <-Hh. apply wp_cas_free_list. rewrite bool_decide_eq_true_2 by done. wp_seq.
  rewrite Hh. apply NoDup_cons in Hnd as [HxF Hnd]. split_and!; try done.
  - split; simpl; try done.
    + intros q l Hl. destruct (Hnds q l Hl). split; [done|]. set_solver.
    + split; [set_solver|done].
  - split_and!; simpl; try done. intros q l Hl Hin. destruct (Hnds q l Hl) as [_ H]. apply (H x Hin). set_solver.
Qed.

Lemma wp_free s F Q x :
  dq_inv s F Q → loose s F Q x →
  wp (thread_dq_free_node x) (λ _ s', dqs s' = dqs s ∧ dq_inv s' (x :: F) Q ∧
    (∀ y, y ≠ x → nodes s' !! y = nodes s !! y) ∧ ∀ y, entry (nodes s') y = entry (nodes s) y) s.
Proof.
  intros HI Hloose. pose proof (loose_write s F Q x) as Hw. destruct Hloose as (HF&HQ&Hv&[n Hn]).
  unfold thread_dq_free_node. cbn [free_node_loop]. wp_seq. eapply wp_write_node; [exact Hn|]. wp_seq.
  apply (wp_cas_free_list (set_nodes _ s)). rewrite bool_decide_eq_true_2 by done. wp_seq.
  destruct (Hw (set_next (free_list s) n) HI) as [Hf Hq Hnd Hnds Hdj [Hv1 Hv2]]; [split_and!; eauto|].
  split_and!; [done| | |].
  - split; simpl in *; try done.
    + split; [done|]. rewrite lookup_insert_eq. eexists. split; [done|]. done.
    + by apply NoDup_cons.
    + intros q l Hl. destruct (Hnds q l Hl) as [? Hx]. split; [done|]. intros y Hy [->|?]%elem_of_cons; [by eapply HQ|by eapply Hx].
    + split; [|done]. intros y [->|?]%elem_of_cons; auto.
  - intros y Hy. simpl. by rewrite lookup_insert_ne.
  - intros y. simpl. unfold entry. destruct (decide (y = x)) as [->|]; [by rewrite lookup_insert_eq, Hn|by rewrite lookup_insert_ne].
Qed.

(** ** Queues *)

Lemma pool_size_pos : ∃ k, Z.to_nat THREAD_DQ_POOL_SIZE = S k.
Proof. exists (Z.to_nat 4095). unfold THREAD_DQ_POOL_SIZE. lia. Qed.

(** Queue [q] becomes [l], with head and tail [d], in the nodes [ns]. *)
Lemma set_queue_inv s F Q q l d ns off :
  dq_inv s F Q → l ≠ [] → chain ns (head d) l → last l = Some (tail d) → NoDup l →
  (∀ x, x ∈ l → (x ∉ F) ∧ thread_dq_node_off_valid x = true ∧ ∀ q' l', q' ≠ q → Q !! q' = Some l' → x ∉ l') →
  (∀ o l', (∀ x, x ∈ l' → x ∉ l) → chain (nodes s) o l' → chain ns o l') →
  dq_inv (Pool ns (free_list s) (<[q := d]> (dqs s)) off) F (<[q := l]> Q).
Proof.
  intros [Hf Hq Hnd Hnds Hdj [Hv1 Hv2]] Hne Hc Hlast Hl Hx Hframe. split; simpl.
  - apply Hframe; [|done]. intros x HF Hin. by destruct (Hx x Hin).
  - intros q' l' [[<- <-]|[Hq' Hl']]%lookup_insert_Some; [exists d; by rewrite lookup_insert_eq|].
    destruct (Hq q' l' Hl') as (d'&Hd'&?&Hc'&?). exists d'. rewrite lookup_insert_ne by done. split_and!; try done.
    apply Hframe; [|done]. intros x Hx' Hin. destruct (Hx x Hin) as (_&_&Hoth). by apply (Hoth q' l').
  - done.
  - intros q' l' [[<- <-]|[Hq' Hl']]%lookup_insert_Some; [|by eapply Hnds]. split; [done|]. intros x Hin. by apply Hx.
  - intros q1 q2 l1 l2 x [[<- <-]|[H1 Hl1]]%lookup_insert_Some [[<- <-]|[H2 Hl2]]%lookup_insert_Some Hx1 Hx2; try done.
    + destruct (Hx x Hx1) as (_&_&H). by destruct (H q2 l2).
    + destruct (Hx x Hx2) as (_&_&H). by destruct (H q1 l1).
    + by eapply (Hdj q1 q2 l1 l2 x).
  - split; [done|]. intros q' l' x [[<- <-]|[Hq' Hl']]%lookup_insert_Some Hin; [by apply Hx|by eapply Hv2].
Qed.

Lemma wp_dq_init s x F Q q :
  dq_inv s (x :: F) Q → Q !! q = None →
  wp (thread_dq_init q) (λ r s', r = 0 ∧ dq_inv s' F (<[q := [x]]> Q) ∧
    ∀ y, y ≠ x → nodes s' !! y = nodes s !! y) s.
Proof.
  intros HI Hq. unfold thread_dq_init, write_dq. wp_seq. eapply wp_mono; [by apply wp_alloc|].
  intros r s1 (->&Hn1&Hd1&HI1&HF&HQ&Hv&[n Hn]). wp_seq. eapply wp_write_node; [done|]. wp_seq.
  split_and!; [done| |intros y Hy; simpl; by rewrite lookup_insert_ne, Hn1 by done].
  apply (set_queue_inv s1 F Q q [x]); try done.
  - simpl. split; [done|]. rewrite lookup_insert_eq. by eexists.
  - apply NoDup_singleton.
  - intros y ->%list_elem_of_singleton. split_and!; [done|done|]. intros q' l' _ Hl'. by eapply HQ.
  - intros o l' Hl' Hc. apply chain_ne; [|done]. intros Hin. apply (Hl' x Hin). set_solver.
Qed.

Lemma wp_dq_enqueue s x F Q q l p :
  dq_inv s (x :: F) Q → Q !! q = Some l →
  wp (thread_dq_enqueue q p) (λ _ s', dq_inv s' F (<[q := l ++ [x]]> Q) ∧ entry (nodes s') x = (p, false) ∧
    notif_dq_node_off s' !! p = Some x ∧ ∀ y, y ≠ x → entry (nodes s') y = entry (nodes s) y) s.
Proof.
  intros HI Hl. unfold thread_dq_enqueue. wp_seq. eapply wp_mono; [by apply wp_alloc|].
  intros r s1 (->&Hn1&Hd1&HI1&Hloose). destruct Hloose as (HF&HQ&Hv&[n Hn]) eqn:E. clear E. wp_seq.
  eapply wp_write_node; [done|]. wp_seq.
  set (nx := set_status DQ_INIT (set_next QPTR_NULL (set_thread_pa p n))).
  pose proof (loose_write s1 F Q x nx HI1 Hloose) as HI2.
  destruct (d_queue _ _ _ HI2 q l Hl) as (d&Hd&Hne&Hc&Hlast). cbn [set_nodes nodes dqs] in Hd, Hc.
  destruct (chain_last _ _ _ _ Hc Hlast) as (t&Ht&Hnull).
  assert (x ∉ l) as Hxl by (by eapply HQ).
  assert (tail d ∈ l) as Htl by (by apply last_Some_elem_of). assert (tail d ≠ x) as Htx by set_solver.
  assert (nodes s1 !! tail d = Some t) as Ht1 by (by rewrite lookup_insert_ne in Ht by done).
  destruct pool_size_pos as [k ->]. cbn [enqueue_loop]. wp_seq. eapply wp_read_dq; [exact Hd|]. wp_seq. eapply wp_read_node; [exact Ht|]. wp_seq. eapply wp_read_dq; [exact Hd|].
  rewrite !bool_decide_eq_true_2 by done. cbn [negb]. wp_seq. rewrite <-Hnull. eapply wp_cas_next; [exact Ht|]. rewrite bool_decide_eq_true_2 by done.
  wp_seq. eapply wp_cas_tail; [exact Hd|]. wp_seq.
  pose proof (d_nodups _ _ _ HI2 q l Hl) as [Hnd HlF]. split_and!.
  - apply (set_queue_inv _ F Q q (l ++ [x]) (TDQ (head d) x) _ _ HI2).
    + by destruct l.
    + simpl. eapply (chain_snoc _ _ _ _ _ x nx); try done. apply lookup_insert_eq.
    + simpl. by rewrite last_snoc.
    + apply NoDup_app. split_and!; [done|set_solver|apply NoDup_singleton].
    + intros y Hy. apply elem_of_app in Hy as [Hy|Hy]; [|apply list_elem_of_singleton in Hy as ->].
      * split_and!; [by apply HlF|by eapply (d_valid _ _ _ HI2)|]. intros q' l' Hq' Hl' Hy'.
        by destruct Hq'; eapply (d_disj _ _ _ HI2 q' q l' l y).
      * split_and!; [done|done|]. intros q' l' _ Hl'. by eapply HQ.
    + intros o l' Hl' Hc'. simpl in Hc' |- *. apply chain_ne; [|done]. intros Hin. apply (Hl' _ Hin). set_solver.
  - simpl. rewrite entry_ne by done. unfold entry. by rewrite lookup_insert_eq.
  - simpl. apply lookup_insert_eq.
  - intros y Hy. simpl. destruct (decide (y = tail d)) as [->|].
    + unfold entry. rewrite lookup_insert_eq, <-Hn1, Ht1. done.
    + by rewrite !entry_ne, Hn1 by done.
Qed.

(** The sentinel leaves the queue. *)
Lemma advance_head s F Q q h y l d :
  dq_inv s F Q → Q !! q = Some (h :: y :: l) → dqs s !! q = Some d →
  let s1 := set_dqs (<[q := TDQ y (tail d)]> (dqs s)) s in
  let Q1 := <[q := y :: l]> Q in
  dq_inv s1 F Q1 ∧ loose s1 F Q1 h.
Proof.
  intros HI Hl Hd s1 Q1. destruct (d_queue _ _ _ HI q _ Hl) as (d'&Hd'&_&Hc&Hlast). assert (d' = d) as -> by congruence.
  destruct Hc as [Hh (n&Hn&Hc)]. destruct (d_nodups _ _ _ HI q _ Hl) as [Hnd HF]. apply NoDup_cons in Hnd as [Hhl Hnd].
  assert (∀ x, x ∈ h :: y :: l → thread_dq_node_off_valid x = true) as Hv by (intros x; exact (proj2 (d_valid _ _ _ HI) q _ x Hl)).
  assert (∀ x q' l', x ∈ h :: y :: l → q' ≠ q → Q !! q' = Some l' → x ∉ l') as Hoth.
  { intros x q' l' Hx Hq' Hl' Hx'. destruct Hq'. by eapply (d_disj _ _ _ HI q' q l' _ x). }
  split.
  - apply (set_queue_inv s F Q q (y :: l) (TDQ y (tail d)) (nodes s)); try done.
    + by destruct Hc as [_ Hc].
    + intros x Hx. split_and!; [apply HF; set_solver|apply Hv; set_solver|].
      intros q' l' Hq' Hl'. apply (Hoth x q'); [set_solver|done|done].
  - split_and!; [apply HF; set_solver| |apply Hv; set_solver|by eexists].
    intros q' l' [[<- <-]|[Hq' Hl']]%lookup_insert_Some; [done|]. apply (Hoth h q'); [set_solver|done|done].
Qed.

Lemma wp_dequeue_loop fuel s F Q q h l :
  dq_inv s F Q → Q !! q = Some (h :: l) → (length l < fuel)%nat →
  wp (dequeue_loop fuel q) (λ r s', ∃ F' l', dq_inv s' F' (<[q := l']> Q) ∧
    (r, entries (nodes s') l') = pop (entries (nodes s) (h :: l)) ∧
    (length F' + length l' = length F + length (h :: l))%nat ∧ l' `suffix_of` h :: l ∧
    ∀ y, entry (nodes s') y = entry (nodes s) y) s.
Proof.
  revert s F Q h l. induction fuel as [|fuel IH]; intros s F Q h l HI Hl Hfuel; [lia|]. cbn [dequeue_loop].
  destruct (d_queue _ _ _ HI q _ Hl) as (d&Hd&_&[Hh (n&Hn&Hc)]&Hlast). wp_seq.
  eapply wp_read_dq; [done|]. rewrite Hh. wp_seq. eapply wp_read_node; [done|]. wp_seq. eapply wp_read_dq; [done|].
  rewrite Hh, (bool_decide_eq_true_2 (h = h)) by done. cbn [negb]. destruct l as [|y l].
  - simpl in Hlast, Hc. injection Hlast as Ht. rewrite <-Ht, Hc, !bool_decide_eq_true_2 by done. wp_seq.
    exists F, [h]. rewrite insert_id by done. done.
  - destruct (d_nodups _ _ _ HI q _ Hl) as [Hnd _].
    assert (tail d ∈ y :: l) as Ht by (by apply last_Some_elem_of).
    rewrite bool_decide_eq_false_2 by (intros Heq; apply NoDup_cons in Hnd as [Hno _]; apply Hno; by rewrite Heq).
    destruct Hc as [Hy (ny&Hny&_)]. rewrite Hy in *. wp_seq. eapply wp_read_node; [done|].
    destruct (advance_head s F Q q h y l d HI Hl Hd) as [HI1 Hloose].
    pose proof (wp_free _ F (<[q := y :: l]> Q) h HI1 Hloose) as Hfree.
    assert (entries (nodes s) (h :: y :: l) = entry (nodes s) y :: entries (nodes s) (y :: l)) as -> by done.
    assert (entry (nodes s) y = (thread_pa ny, bool_decide (status ny = DQ_CANCELLED))) as -> by (unfold entry; by rewrite Hny).
    case_bool_decide as Hcan; simpl; wp_seq; (eapply wp_cas_head; [done|done|]); rewrite bool_decide_eq_true_2 by done; wp_seq.
    + eapply wp_mono; [exact Hfree|]. intros [] s2 (_&HI2&_&He2). cbn [set_dqs nodes] in He2.
      eapply wp_mono; [apply (IH s2 (h :: F) (<[q := y :: l]> Q) y l HI2 (lookup_insert_eq _ _ _)); simpl in *; lia|].
      intros r s3 (F'&l'&HI3&Hr&Hlen&Hsuf&He3). rewrite insert_insert_eq in HI3. exists F', l'. split_and!; [done| |simpl in *; lia|by apply suffix_cons_r|].
      * rewrite Hr. f_equal. by apply entries_ext.
      * intros x. by rewrite He3, He2.
    + eapply wp_read_node; [exact Hny|]. wp_seq. eapply wp_mono; [exact Hfree|]. intros [] s2 (_&HI2&_&He2). cbn [set_dqs nodes] in He2.
      wp_seq. exists (h :: F), (y :: l). split_and!; [done| |simpl; lia|by apply suffix_cons_r|done]. f_equal. by apply entries_ext.
Qed.

(** A queue fits in the pool. *)
Lemma valid_length l : NoDup l → (∀ x, x ∈ l → thread_dq_node_off_valid x = true) →
  (length l ≤ Z.to_nat THREAD_DQ_POOL_SIZE)%nat.
Proof.
  intros Hnd Hv. assert (l ⊆+ node_off <$> seqZ 0 THREAD_DQ_POOL_SIZE) as Hsub;
    [|apply submseteq_length in Hsub; by rewrite length_fmap, length_seqZ in Hsub].
  apply NoDup_submseteq; [done|]. intros x Hx. specialize (Hv x Hx).
  unfold thread_dq_node_off_valid in Hv. case_bool_decide; [done|].
  apply andb_true_iff in Hv as [[H1%bool_decide_eq_true H2%bool_decide_eq_true]%andb_true_iff H3%bool_decide_eq_true].
  apply list_elem_of_fmap. exists ((x - node_off 0) / NODE_SIZE). unfold node_off, NODE_SIZE, THREAD_DQ_POOL_SIZE in *.
  pose proof (Z.div_mod (x - (base + 0 * 16)) 16 ltac:(lia)). split; [lia|]. apply elem_of_seqZ.
  split; [apply Z.div_pos; lia|]. apply Z.div_lt_upper_bound; lia.
Qed.

Lemma wp_dq_dequeue s F Q q h l :
  dq_inv s F Q → Q !! q = Some (h :: l) →
  wp (thread_dq_dequeue q) (λ r s', ∃ F' l', dq_inv s' F' (<[q := l']> Q) ∧
    (r, entries (nodes s') l') = pop (entries (nodes s) (h :: l)) ∧
    (length F' + length l' = length F + length (h :: l))%nat ∧ l' `suffix_of` h :: l ∧
    ∀ y, entry (nodes s') y = entry (nodes s) y) s.
Proof.
  intros HI Hl. apply wp_dequeue_loop; [done|done|].
  pose proof (valid_length (h :: l) (proj1 (d_nodups _ _ _ HI q _ Hl)) (λ x, proj2 (d_valid _ _ _ HI) q _ x Hl)) as H.
  simpl in H. lia.
Qed.

(** ** Tear-down and cancellation *)

Lemma wp_deinit_walk fuel s F Q cur l walked :
  dq_inv s F Q → chain (nodes s) cur l → NoDup l → (∀ x, x ∈ l → loose s F Q x) →
  (length l < fuel)%nat → walked + Z.of_nat (length l) ≤ THREAD_DQ_POOL_SIZE →
  wp (deinit_walk fuel cur walked) (λ _ s', dqs s' = dqs s ∧ dq_inv s' (rev l ++ F) Q ∧
    ∀ y, entry (nodes s') y = entry (nodes s) y) s.
Proof.
  revert s F cur l walked. induction fuel as [|fuel IH]; intros s F cur l walked HI Hc Hnd Hl Hfuel Hw; [lia|].
  cbn [deinit_walk]. destruct l as [|x l]; simpl in *.
  - by rewrite Hc, bool_decide_eq_true_2.
  - destruct Hc as [-> (n&Hn&Hc)]. apply NoDup_cons in Hnd as [Hx Hnd]. pose proof (Hl x ltac:(set_solver)) as Hlx.
    pose proof Hlx as (_&_&Hv&_). rewrite Hv, bool_decide_eq_false_2 by (intros ->; done). cbn [negb].
    rewrite bool_decide_eq_false_2 by lia. wp_seq. eapply wp_read_node; [done|].
    wp_seq. eapply wp_mono; [by apply wp_free|]. intros [] s1 (Hd1&HI1&Hn1&He1).
    eapply wp_mono; [apply (IH s1 (x :: F) (next n) l (walked + 1) HI1)|].
    + assert (nodes s1 = <[x := default n (nodes s1 !! x)]> (nodes s)) as ->.
      { apply map_eq. intros y. destruct (decide (y = x)) as [->|]; [|rewrite lookup_insert_ne by done; auto].
        rewrite lookup_insert_eq. destruct (chain_elem _ _ _ x (d_free _ _ _ HI1)) as [m ->]; [set_solver|done]. }
      by apply chain_ne.
    + done.
    + intros y Hy. destruct (Hl y ltac:(set_solver)) as (HF&HQ&Hvy&Hs). split_and!; [set_solver|done|done|].
      rewrite Hn1 by set_solver. done.
    + lia.
    + lia.
    + intros [] s2 (Hd2&HI2&He2). split_and!; [congruence| |intros y; by rewrite He2, He1].
      by rewrite <-(assoc (++)).
Qed.

Lemma wp_dq_deinit s F Q q l :
  dq_inv s F Q → Q !! q = Some l →
  wp (thread_dq_deinit q) (λ _ s', dqs s' !! q = Some (TDQ QPTR_NULL QPTR_NULL) ∧ dq_inv s' (rev l ++ F) (delete q Q) ∧
    ∀ y, entry (nodes s') y = entry (nodes s) y) s.
Proof.
  intros HI Hl. destruct (d_queue _ _ _ HI q _ Hl) as (d&Hd&Hne&Hc&_). destruct (d_nodups _ _ _ HI q _ Hl) as [Hnd HlF].
  pose proof (valid_length l Hnd (λ x, proj2 (d_valid _ _ _ HI) q _ x Hl)) as Hlen.
  assert (∀ x, x ∈ l → thread_dq_node_off_valid x = true) as Hv by (intros x; exact (proj2 (d_valid _ _ _ HI) q _ x Hl)).
  unfold thread_dq_deinit, write_dq. cbn [deinit_claim]. wp_seq. eapply wp_read_dq; [done|].
  assert (thread_dq_node_off_valid (head d) = true) as ->.
  { destruct l; [done|]. destruct Hc as [-> _]. apply Hv. set_solver. }
  cbn [negb]. wp_seq. eapply wp_cas_head; [done|done|]. rewrite bool_decide_eq_true_2 by done. wp_seq. eapply wp_read_dq; [apply lookup_insert_eq|]. wp_seq.
  cbn [set_dqs dqs head]. rewrite insert_insert_eq. eapply wp_mono; [apply (wp_deinit_walk _ _ F (delete q Q) (head d) l)|].
  - destruct HI as [Hf Hq Hn1 Hn2 Hdj [Hv1 Hv2]]. split; simpl; try done.
    + intros q' l' [Hq' Hl']%lookup_delete_Some. destruct (Hq q' l' Hl') as (d'&?&?). exists d'. by rewrite lookup_insert_ne.
    + intros q' l' [Hq' Hl']%lookup_delete_Some. by apply (Hn2 q').
    + intros q1 q2 l1 l2 x [_ H1]%lookup_delete_Some [_ H2]%lookup_delete_Some. by eapply Hdj.
    + split; [done|]. intros q' l' x [Hq' Hl']%lookup_delete_Some. by eapply Hv2.
  - done.
  - done.
  - intros x Hx. split_and!; [by apply HlF| |by apply Hv|by eapply chain_elem].
    intros q' l' [Hq' Hl']%lookup_delete_Some Hx'. by destruct Hq'; eapply (d_disj _ _ _ HI q q' l l' x).
  - lia.
  - unfold THREAD_DQ_POOL_SIZE in *. lia.
  - intros [] s' (Hd'&HI'&He). split_and!; [|done|done]. rewrite Hd'. apply lookup_insert_eq.
Qed.

Lemma wp_dq_deinit_again s q : dqs s !! q = Some (TDQ QPTR_NULL QPTR_NULL) →
  wp (thread_dq_deinit q) (λ _ s', s' = s) s.
Proof. intros Hd. unfold thread_dq_deinit. cbn [deinit_claim]. wp_seq. by eapply wp_read_dq. Qed.

Lemma wp_dq_cancel s F Q q l x :
  dq_inv s F Q → Q !! q = Some l → x ∈ l →
  wp (thread_dq_cancel_node x) (λ _ s', dq_inv s' F Q ∧ entry (nodes s') x = ((entry (nodes s) x).1, true) ∧
    ∀ y, y ≠ x → entry (nodes s') y = entry (nodes s) y) s.
Proof.
  intros HI Hl Hx. destruct (d_queue _ _ _ HI q _ Hl) as (d&Hd&Hne&Hc&_). destruct (chain_elem _ _ _ x Hc Hx) as [n Hn].
  pose proof (proj2 (d_valid _ _ _ HI) q l x Hl Hx) as Hv. unfold thread_dq_cancel_node.
  rewrite bool_decide_eq_false_2 by (intros ->; done). eapply wp_write_node; [done|]. split_and!.
  - destruct HI as [Hf Hq Hn1 Hn2 Hdj Hvs]. split; simpl; try done.
    + by eapply chain_same_next.
    + intros q' l' Hl'. destruct (Hq q' l' Hl') as (d'&?&?&?&?). exists d'. split_and!; try done. by eapply chain_same_next.
  - simpl. unfold entry. by rewrite lookup_insert_eq, Hn.
  - intros y Hy. simpl. by rewrite entry_ne.
Qed.

(** ** Initialisation *)

(** The pool has its nodes. *)
Definition pool_nodes (s : dq_pool) : Prop := ∀ j, 0 ≤ j < THREAD_DQ_POOL_SIZE → is_Some (nodes s !! node_off j).

Lemma node_off_valid j : 0 ≤ base → 0 ≤ j < THREAD_DQ_POOL_SIZE → thread_dq_node_off_valid (node_off j) = true.
Proof.
  intros Hb Hj. unfold thread_dq_node_off_valid, node_off, NODE_SIZE, QPTR_NULL, THREAD_DQ_POOL_SIZE in *.
  rewrite bool_decide_eq_false_2 by lia. rewrite !bool_decide_eq_true_2; [done| |lia|lia].
  replace (base + j * 16 - (base + 0 * 16)) with (j * 16) by lia. apply Z.mod_mul. lia.
Qed.

Lemma wp_pool_init_loop N j s :
  0 ≤ base → Z.of_nat j < N → (∀ k, 0 ≤ k < N → is_Some (nodes s !! node_off k)) →
  chain (nodes s) (free_list s) (node_off <$> seqZ (Z.of_nat j + 1) (N - 1 - Z.of_nat j)) →
  wp (pool_init_loop j) (λ _ s', dqs s' = dqs s ∧
    chain (nodes s') (free_list s') (node_off <$> seqZ 1 (N - 1))) s.
Proof.
  intros Hb. revert s. induction j as [|j IH]; intros s Hj Hp Hc; cbn [pool_init_loop].
  - wp_seq. split; [done|]. replace (N - 1) with (N - 1 - Z.of_nat 0) by lia. done.
  - wp_seq. destruct (Hp (Z.of_nat (S j)) ltac:(lia)) as [n Hn]. eapply wp_write_node; [done|]. wp_seq.
    eapply wp_mono; [apply IH|]; simpl; [lia| | |done].
    + intros k Hk. simpl. destruct (decide (node_off k = node_off (Z.of_nat (S j)))) as [->|].
      * by rewrite lookup_insert_eq.
      * rewrite lookup_insert_ne by done. by apply Hp.
    + rewrite seqZ_cons by lia. simpl. replace (Z.of_nat j + 1) with (Z.of_nat (S j)) by lia. split; [done|].
      rewrite lookup_insert_eq. eexists. split; [done|]. simpl. apply chain_ne.
      * intros (k&Hk&Hin%elem_of_seqZ)%list_elem_of_fmap. unfold node_off, NODE_SIZE in Hk. lia.
      * replace (Z.succ (Z.of_nat (S j))) with (Z.of_nat (S j) + 1) by lia.
        replace (Z.pred (N - 1 - Z.of_nat j)) with (N - 1 - Z.of_nat (S j)) by lia. done.
Qed.

Lemma wp_pool_init s :
  0 ≤ base → pool_nodes s →
  wp thread_dq_pool_init (λ _ s', dq_inv s' (node_off <$> seqZ 1 (THREAD_DQ_POOL_SIZE - 1)) ∅) s.
Proof.
  intros Hb Hp. unfold thread_dq_pool_init. wp_seq.
  assert (Z.of_nat (Z.to_nat (THREAD_DQ_POOL_SIZE - 1)) = THREAD_DQ_POOL_SIZE - 1) as HN by done.
  eapply wp_mono; [apply (wp_pool_init_loop THREAD_DQ_POOL_SIZE); [done|rewrite HN; lia|done|]|].
  - rewrite HN, Z.sub_diag. done.
  - intros [] s' [_ Hc]. split; try done.
    + apply NoDup_fmap_2_strong; [|apply NoDup_seqZ]. intros x y _ _. unfold node_off, NODE_SIZE. lia.
    + split; [|done]. intros x (k&->&Hk%elem_of_seqZ)%list_elem_of_fmap. apply node_off_valid; [done|lia].
Qed.

(** ** Queues as lists *)

(** [n] nodes are free and the queues hold [C]. *)
Definition dq_holds (s : dq_pool) (n : nat) (C : gmap Z (list (Z * bool))) : Prop :=
  ∃ F Q, dq_inv s F Q ∧ length F = n ∧ C = entries (nodes s) <$> Q.

Lemma holds_insert (ns ns' : gmap Z thread_dq_node) (Q : gmap Z (list Z)) q l :
  (∀ q' l', q' ≠ q → Q !! q' = Some l' → entries ns' l' = entries ns l') →
  entries ns' <$> <[q := l]> Q = <[q := entries ns' l]> (entries ns <$> Q).
Proof.
  intros H. apply map_eq. intros q'. rewrite lookup_fmap. destruct (decide (q' = q)) as [->|].
  - by rewrite !lookup_insert_eq.
  - rewrite !lookup_insert_ne, lookup_fmap by done. destruct (Q !! q') as [l'|] eqn:Hl'; [|done].
    simpl. f_equal. by apply (H q').
Qed.

Lemma holds_init s n C q : dq_holds s (S n) C → C !! q = None →
  wp (thread_dq_init q) (λ r s', r = 0 ∧ dq_holds s' n (<[q := []]> C)) s.
Proof.
  intros ([|x F]&Q&HI&[= <-]&->) Hq. rewrite lookup_fmap in Hq. destruct (Q !! q) eqn:Hq'; [done|].
  eapply wp_mono; [by apply (wp_dq_init s x F Q q)|]. intros r s' (->&HI'&He). split; [done|].
  exists F, (<[q := [x]]> Q). split_and!; [done|done|]. symmetry. apply (holds_insert (nodes s) (nodes s') Q q [x]).
  intros q' l' _ Hl'. apply entries_ext. intros y Hy%elem_of_tail. unfold entry. rewrite He; [done|].
  intros ->. destruct (d_nodups _ _ _ HI q' l' Hl') as [_ Hno]. apply (Hno x Hy). set_solver.
Qed.

Lemma holds_enqueue s n C q es p : dq_holds s (S n) C → C !! q = Some es →
  wp (thread_dq_enqueue q p) (λ _ s', dq_holds s' n (<[q := es ++ [(p, false)]]> C)) s.
Proof.
  intros ([|x F]&Q&HI&[= <-]&->) Hq. rewrite lookup_fmap in Hq. destruct (Q !! q) as [l|] eqn:Hl; [|done].
  injection Hq as <-. eapply wp_mono; [by apply (wp_dq_enqueue s x F Q q l p)|]. intros [] s' (HI'&Hx&_&He).
  assert (∀ q' l', Q !! q' = Some l' → entries (nodes s') l' = entries (nodes s) l') as Hext.
  { intros q' l' Hl'. apply entries_ext. intros y Hy%elem_of_tail. apply He.
    intros ->. destruct (d_nodups _ _ _ HI q' l' Hl') as [_ Hno]. apply (Hno x Hy). set_solver. }
  exists F, (<[q := l ++ [x]]> Q). split_and!; [done|done|].
  rewrite (holds_insert (nodes s) (nodes s')) by eauto. f_equal. rewrite <-(Hext q l Hl).
  destruct (d_queue _ _ _ HI q l Hl) as (_&_&Hne&_). destruct l as [|h l]; [done|].
  unfold entries. simpl. by rewrite fmap_app, <-Hx.
Qed.

Lemma pop_length es : (length (pop es).2 ≤ length es)%nat.
Proof. induction es as [|[p []] es IH]; simpl; lia. Qed.

Lemma holds_dequeue s n C q es : dq_holds s n C → C !! q = Some es →
  wp (thread_dq_dequeue q) (λ r s', r = (pop es).1 ∧
    dq_holds s' (n + (length es - length (pop es).2)) (<[q := (pop es).2]> C)) s.
Proof.
  intros (F&Q&HI&<-&->) Hq. rewrite lookup_fmap in Hq. destruct (Q !! q) as [l|] eqn:Hl; [|done]. injection Hq as <-.
  destruct (d_queue _ _ _ HI q l Hl) as (_&_&Hne&_). destruct l as [|h l]; [done|].
  eapply wp_mono; [by apply (wp_dq_dequeue s F Q q h l)|]. intros r s' (F'&l'&HI'&Hr&Hlen&_&He).
  pose proof (pop_length (entries (nodes s) (h :: l))) as Hpop. rewrite <-Hr in *. split; [done|].
  exists F', (<[q := l']> Q). split_and!; [done| |].
  - unfold entries in *. simpl in Hpop |- *. rewrite !length_fmap in *. simpl in *.
    destruct (d_queue _ _ _ HI' q l' (lookup_insert_eq _ _ _)) as (_&_&Hne'&_). destruct l'; [done|]. simpl in *. lia.
  - symmetry. apply holds_insert. intros q' l0 _ _. by apply entries_ext.
Qed.

Lemma holds_deinit s n C q es : dq_holds s n C → C !! q = Some es →
  wp (thread_dq_deinit q) (λ _ s', dq_holds s' (n + S (length es)) (delete q C) ∧
    wp (thread_dq_deinit q) (λ _ s'', s'' = s') s') s.
Proof.
  intros (F&Q&HI&<-&->) Hq. rewrite lookup_fmap in Hq. destruct (Q !! q) as [l|] eqn:Hl; [|done]. injection Hq as <-.
  eapply wp_mono; [by apply (wp_dq_deinit s F Q q l)|]. intros [] s' (Hd&HI'&He).
  split; [|by apply wp_dq_deinit_again]. exists (rev l ++ F), (delete q Q). split_and!; [done| |].
  - destruct (d_queue _ _ _ HI q l Hl) as (_&_&Hne&_). unfold entries. rewrite length_app, length_rev, length_fmap.
    destruct l; [done|]. simpl. lia.
  - rewrite <-fmap_delete. apply map_fmap_ext. intros q' l' _. symmetry. by apply entries_ext.
Qed.

Lemma exhausted s C q p : dq_holds s 0 C → thread_dq_enqueue q p s = Halt Spins.
Proof.
  intros (F&Q&HI&Hn&_). destruct F; [|done]. pose proof (d_free _ _ _ HI) as Hf. simpl in Hf.
  unfold thread_dq_enqueue, thread_dq_alloc_node, thread_dq_alloc_node_try, get_state, mbind, M_bind. cbn. unfold mbind, M_bind. cbn. by rewrite Hf.
Qed.
End dq.

(** ** The free list, access by access *)

(** Two CPUs, possibly of two machines, run [thread_dq_alloc_node_try] and
    [thread_dq_free_node] at the same time; [own] collects the nodes a CPU has
    been given and has not freed. *)
Module Treiber.

Inductive pc : Set :=
  | Idle
  | PopStart | PopHead (head : Z) | PopNext (head next : Z)
  | PushStart (node : Z) | PushHead (node head : Z) | PushLinked (node head : Z).

Record cpu := Cpu { at_pc : pc; own : list Z }.
Record state := State { nexts : gmap Z Z; top : Z; cpu1 : cpu; cpu2 : cpu }.

Inductive event : Set := CallAlloc | CallFree (x : Z) | Access.

(** One access of a CPU to the shared words; [None] when it has no such step. *)
Definition access (m : gmap Z Z) (t : Z) (c : cpu) (e : event) : option (gmap Z Z * Z * cpu) :=
  match at_pc c, e with
  | Idle, CallAlloc => Some (m, t, Cpu PopStart (own c))
  | Idle, CallFree x =>
      if bool_decide (x ∈ own c) then Some (m, t, Cpu (PushStart x) (filter (λ y, y ≠ x) (own c))) else None
  | PopStart, Access =>
      (* head = pool->free_list *)
      Some (m, t, Cpu (if bool_decide (t = QPTR_NULL) then Idle else PopHead t) (own c))
  | PopHead h, Access =>
      (* next = node->next *)
      n ← m !! h; Some (m, t, Cpu (PopNext h n) (own c))
  | PopNext h n, Access =>
      (* compare_and_swap_32(&pool->free_list, head, next) *)
      if bool_decide (t = h) then Some (m, n, Cpu Idle (h :: own c)) else Some (m, t, Cpu PopStart (own c))
  | PushStart x, Access =>
      (* head = pool->free_list *)
      Some (m, t, Cpu (PushHead x t) (own c))
  | PushHead x h, Access =>
      (* node->next = head *)
      Some (<[x := h]> m, t, Cpu (PushLinked x h) (own c))
  | PushLinked x h, Access =>
      (* compare_and_swap_32(&pool->free_list, head, node_off) *)
      if bool_decide (t = h) then Some (m, x, Cpu Idle (own c)) else Some (m, t, Cpu (PushStart x) (own c))
  | _, _ => None
  end.

Definition step (s : state) (who : bool) (e : event) : option state :=
  if who then
    '(m, t, c) ← access (nexts s) (top s) (cpu1 s) e; Some (State m t c (cpu2 s))
  else
    '(m, t, c) ← access (nexts s) (top s) (cpu2 s) e; Some (State m t (cpu1 s) c).

Fixpoint run (s : state) (es : list (bool * event)) : option state :=
  match es with [] => Some s | (who, e) :: es' => s' ← step s who e; run s' es' end.

Definition start (s : dq_pool) : state := State (next <$> nodes s) (free_list s) (Cpu Idle []) (Cpu Idle []).

(** CPU 1 reads the head [a] and its successor [b] and is delayed; CPU 2 takes [a] and
    [b] and frees [a]; the compare-and-swap of CPU 1 then makes [b] the head. *)
Definition pop (who : bool) : list (bool * event) := (who, CallAlloc) :: replicate 3 (who, Access).
Definition push (who : bool) (x : Z) : list (bool * event) := (who, CallFree x) :: replicate 3 (who, Access).
Definition aba (a : Z) : list (bool * event) :=
  [(true, CallAlloc); (true, Access); (true, Access)] ++ pop false ++ pop false ++ push false a ++
  [(true, Access)] ++ pop true.

End Treiber.

Lemma chain_next ns off l x y : chain ns off l → (∃ a b, l = a ++ x :: y :: b) → next <$> ns !! x = Some y.
Proof.
  intros Hc (a&b&->). revert off Hc. induction a as [|z a IH]; intros off [-> (n&Hn&Hc)]; simpl in *.
  - destruct Hc as [Hy _]. rewrite Hn. simpl. by rewrite Hy.
  - by eapply IH.
Qed.

(** the free list of the pool, which all machines pop and push without a lock, is
    not safe: offsets are compared and swapped without a generation counter, so
    whenever three nodes are free there is an interleaving after which two CPUs have been given
    the same node. *)
Lemma treiber_double_allocation base s F Q a b d :
  dq_inv base s (a :: b :: d :: F) Q →
  ∃ t, Treiber.run (Treiber.start s) (Treiber.aba a) = Some t ∧
    b ∈ Treiber.own (Treiber.cpu1 t) ∧ b ∈ Treiber.own (Treiber.cpu2 t).
Proof.
  intros HI. pose proof (d_free _ _ _ _ HI) as Hc. pose proof (d_nodup _ _ _ _ HI) as Hnd.
  destruct (d_valid _ _ _ _ HI) as [Hv _].
  assert (next <$> nodes s !! a = Some b) as Ha by (eapply chain_next; [done|by exists [], (d :: F)]).
  assert (next <$> nodes s !! b = Some d) as Hb by (eapply chain_next; [done|by exists [a], F]).
  assert (free_list s = a) as Htop by (by destruct Hc).
  assert (a ≠ QPTR_NULL ∧ b ≠ QPTR_NULL) as [Hna Hnb].
  { split; intros ->; [specialize (Hv QPTR_NULL ltac:(set_solver))|specialize (Hv QPTR_NULL ltac:(set_solver))]; done. }
  assert (a ≠ b) as Hab by (apply NoDup_cons in Hnd as [? _]; set_solver).
  unfold Treiber.start, Treiber.aba, Treiber.pop, Treiber.push. rewrite Htop.
  do 20 (cbn; rewrite ?lookup_insert_eq, ?lookup_fmap, ?Ha, ?Hb; cbn;
    repeat first [rewrite bool_decide_eq_false_2 by done | rewrite bool_decide_eq_true_2 by (done || set_solver)]).
  rewrite lookup_insert_ne, lookup_fmap, Hb by done. cbn. rewrite bool_decide_eq_true_2 by done.
  rewrite (decide_True (P := b ≠ a)) by done. eexists. split; [done|]. cbn. set_solver.
Qed.

(** C17: operations that do not overlap in time make the queues FIFO queues that share a stock of
    4095 nodes: a queue is made from one node and is empty; enqueueing takes a node and
    appends the thread; dequeueing returns the first thread whose node was not cancelled
    and gives back the nodes it passed; tearing a queue down gives all its nodes back,
    once, however often it is called; the other queues are not changed, and no node is
    lost or used twice.  Without a free node an enqueue waits for ever.  Operations that overlap do not
    keep this: the pool has no lock, and whenever three nodes are free there is an
    interleaving of two CPUs, access by access, after which both own the same node. *)
Theorem thread_dq_correct base (s0 : dq_pool) :
  0 ≤ base → pool_nodes base s0 →
  wp (thread_dq_pool_init base) (λ _ s, dq_holds base s 4095 ∅) s0 ∧
  ∀ s n C, dq_holds base s n C →
    (∀ q,
      (∀ m, n = S m → C !! q = None → wp (thread_dq_init q) (λ r s', r = 0 ∧ dq_holds base s' m (<[q := []]> C)) s) ∧
      (∀ es, C !! q = Some es →
        (∀ p m, n = S m → wp (thread_dq_enqueue q p) (λ _ s', dq_holds base s' m (<[q := es ++ [(p, false)]]> C)) s) ∧
        wp (thread_dq_dequeue q) (λ r s', r = (pop es).1 ∧
          dq_holds base s' (n + (length es - length (pop es).2)) (<[q := (pop es).2]> C)) s ∧
        wp (thread_dq_deinit base q) (λ _ s', dq_holds base s' (n + S (length es)) (delete q C) ∧
          wp (thread_dq_deinit base q) (λ _ s'', s'' = s') s') s) ∧
      (n = O → ∀ p, thread_dq_enqueue q p s = Halt Spins)) ∧
    ((3 ≤ n)%nat → ∃ a b t, Treiber.run (Treiber.start s) (Treiber.aba a) = Some t ∧
      b ∈ Treiber.own (Treiber.cpu1 t) ∧ b ∈ Treiber.own (Treiber.cpu2 t)).
Proof.
  intros Hb Hp. split.
  - eapply wp_mono; [by apply wp_pool_init|]. intros [] s HI. eexists _, ∅. split_and!; [done| |done].
    by rewrite length_fmap, length_seqZ.
  - intros s n C Hs. split; [intros q; split_and!|].
    + intros m ->. by apply holds_init.
    + intros es Hes. split_and!; [|by apply holds_dequeue|by apply holds_deinit]. intros p m ->. by apply holds_enqueue.
    + intros -> p. by eapply exhausted.
    + intros Hn. destruct Hs as ([|a [|b [|d F]]]&Q&HI&<-&_); simpl in Hn; try lia. exists a, b. by eapply treiber_double_allocation.
Qed.

(** ** Concrete pools *)

(** A pool of zeroed nodes at offset [base]. *)
Definition zero_pool (base : Z) : dq_pool :=
  Pool (list_to_map ((λ j, (node_off base j, DqNode 0 DQ_FREE 0)) <$> seqZ 0 THREAD_DQ_POOL_SIZE)) 0 ∅ ∅.

Lemma zero_pool_nodes base : pool_nodes base (zero_pool base).
Proof.
  intros j Hj. exists (DqNode 0 DQ_FREE 0). apply elem_of_list_to_map_1.
  - rewrite <-list_fmap_compose. apply NoDup_fmap_2_strong; [|apply NoDup_seqZ].
    intros x y _ _. simpl. unfold node_off, NODE_SIZE. lia.
  - apply list_elem_of_fmap. exists j. split; [done|]. apply elem_of_seqZ. lia.
Qed.

(** Two threads are queued and the first is taken out again; then the pool is also used by two CPUs at once. *)
Lemma thread_dq_correct_witness :
  wp (thread_dq_pool_init 64;; _ ← thread_dq_init 7; thread_dq_enqueue 7 100;; thread_dq_enqueue 7 200;; thread_dq_dequeue 7)
    (λ r s, r = Some 100 ∧ dq_holds 64 s 4093 {[7 := [(200, false)]]} ∧
      ∃ a b t, Treiber.run (Treiber.start s) (Treiber.aba a) = Some t ∧ b ∈ Treiber.own (Treiber.cpu1 t) ∧ b ∈ Treiber.own (Treiber.cpu2 t))
    (zero_pool 64).
Proof.
  destruct (thread_dq_correct 64 (zero_pool 64)) as [H0 H]; [lia|exact (zero_pool_nodes 64)|].
  wp_seq. eapply wp_mono; [exact H0|]. intros [] s1 Hs1. wp_seq.
  destruct (H _ _ _ Hs1) as [Hq1 _]. eapply wp_mono; [apply (proj1 (Hq1 7) 4094%nat eq_refl eq_refl)|]. intros r s2 [_ Hs2]. wp_seq.
  destruct (H _ _ _ Hs2) as [Hq2 _]. destruct (Hq2 7) as (_&He2&_). destruct (He2 [] (lookup_insert_eq _ _ _)) as [He2' _].
  eapply wp_mono; [apply (He2' 100 4093%nat eq_refl)|]. intros [] s3 Hs3. wp_seq. rewrite insert_insert_eq in Hs3.
  destruct (H _ _ _ Hs3) as [Hq3 _]. destruct (Hq3 7) as (_&He3&_). destruct (He3 [(100, false)] (lookup_insert_eq _ _ _)) as [He3' _].
  eapply wp_mono; [apply (He3' 200 4092%nat eq_refl)|]. intros [] s4 Hs4. rewrite insert_insert_eq in Hs4.
  destruct (H _ _ _ Hs4) as [Hq4 _]. destruct (Hq4 7) as (_&He4&_). destruct (He4 [(100, false); (200, false)] (lookup_insert_eq _ _ _)) as (_&Hd&_).
  eapply wp_mono; [exact Hd|]. intros r5 s5 [-> Hs5]. rewrite insert_insert_eq in Hs5. split; [reflexivity|]. split; [exact Hs5|].
  destruct (H _ _ _ Hs5) as [_ Habs]. apply Habs. change (3 ≤ 3 + 4090)%nat. lia.
Defined.

