(* ===== verification/RemoteFree.v ===== *)
(** Pages freed by a machine that does not own them ([kernel/mm/remote_free.c]).

    A machine collects the physical addresses in batches, one per owner, and pushes
    full batches, or all batches on a flush, on the owner's stack in shared memory;
    the owner pops the whole stack and frees the pages.  [cluster] is the shared memory with the
    static variables of every machine.  A batch is named by its kernel address, 0 is
    [NULL].  [kfreed] lists the pages given to the page allocator, with the machine
    that did it, and [leaked] the pages the code gives up.  The result of [kmalloc]
    and what an unlocked read of [rpf_pending] sees are arguments; the statistics counters do
    not wrap. *)
From S2P Require Import Prelude Words.

Definition MACHINE_ID_SHARED_MEMORY : Z := -1.
Definition MACHINE_ID_INVALID : Z := -2.
Definition CLUSTER_MAX_MACHINE_NUM : Z := 8.
Definition DRAM_PAGE_FREE_BATCH_MAX : Z := 254.
Definition RPF_POLL_INTERVAL : Z := 64.
Definition RPF_OFF_BITS : Z := 40.
Definition RPF_OFF_MASK : Z := Z.shiftl 1 RPF_OFF_BITS - 1.
Definition RPF_GEN_BITS : Z := 64 - RPF_OFF_BITS.
Definition RPF_GEN_MASK : Z := Z.shiftl 1 RPF_GEN_BITS - 1.

Record dram_page_free_batch := Batch { next : Z; count : Z; owner : Z; pas : list Z }.
Definition set_next x b := Batch x (count b) (owner b) (pas b).

(** The static variables of [remote_free.c] on one machine. *)
Record rpf_local := Local {
  rpf_pending : gmap Z Z; rpf_has_pending : bool; rpf_draining : Z; rpf_ready : bool;
  rpf_queued : Z; rpf_drained : Z; rpf_dropped : Z; rpf_alloc_ticks : Z
}.
Definition set_pending x l := Local x (rpf_has_pending l) (rpf_draining l) (rpf_ready l) (rpf_queued l) (rpf_drained l) (rpf_dropped l) (rpf_alloc_ticks l).
Definition set_has_pending x l := Local (rpf_pending l) x (rpf_draining l) (rpf_ready l) (rpf_queued l) (rpf_drained l) (rpf_dropped l) (rpf_alloc_ticks l).
Definition set_draining x l := Local (rpf_pending l) (rpf_has_pending l) x (rpf_ready l) (rpf_queued l) (rpf_drained l) (rpf_dropped l) (rpf_alloc_ticks l).
Definition set_ready x l := Local (rpf_pending l) (rpf_has_pending l) (rpf_draining l) x (rpf_queued l) (rpf_drained l) (rpf_dropped l) (rpf_alloc_ticks l).
Definition add_queued l := Local (rpf_pending l) (rpf_has_pending l) (rpf_draining l) (rpf_ready l) (rpf_queued l + 1) (rpf_drained l) (rpf_dropped l) (rpf_alloc_ticks l).
Definition add_drained l := Local (rpf_pending l) (rpf_has_pending l) (rpf_draining l) (rpf_ready l) (rpf_queued l) (rpf_drained l + 1) (rpf_dropped l) (rpf_alloc_ticks l).
Definition add_dropped l := Local (rpf_pending l) (rpf_has_pending l) (rpf_draining l) (rpf_ready l) (rpf_queued l) (rpf_drained l) (rpf_dropped l + 1) (rpf_alloc_ticks l).
Definition set_ticks x l := Local (rpf_pending l) (rpf_has_pending l) (rpf_draining l) (rpf_ready l) (rpf_queued l) (rpf_drained l) (rpf_dropped l) x.

Record cluster := Cluster {
  batches : gmap Z dram_page_free_batch; heads : gmap Z Z; locals : gmap Z rpf_local;
  kfreed : list (Z * Z); leaked : list Z
}.
Definition set_batches x s := Cluster x (heads s) (locals s) (kfreed s) (leaked s).
Definition set_heads x s := Cluster (batches s) x (locals s) (kfreed s) (leaked s).
Definition set_locals x s := Cluster (batches s) (heads s) x (kfreed s) (leaked s).
Definition log_kfree m pa s := Cluster (batches s) (heads s) (locals s) ((m, pa) :: kfreed s) (leaked s).
Definition log_leak pa s := Cluster (batches s) (heads s) (locals s) (kfreed s) (pa :: leaked s).

Definition get_local (m : Z) : M cluster rpf_local := s ← get_state; from_opt (locals s !! m).
Definition upd_local (m : Z) (f : rpf_local → rpf_local) : M cluster unit :=
  l ← get_local m; modify (λ s, set_locals (<[m := f l]> (locals s)) s).
Definition get_batch (x : Z) : M cluster dram_page_free_batch := s ← get_state; from_opt (batches s !! x).
Definition upd_batch (x : Z) (f : dram_page_free_batch → dram_page_free_batch) : M cluster unit :=
  b ← get_batch x; modify (λ s, set_batches (<[x := f b]> (batches s)) s).
Definition get_head (o : Z) : M cluster Z := s ← get_state; from_opt (heads s !! o).
Definition set_head (o h : Z) : M cluster unit := modify (λ s, set_heads (<[o := h]> (heads s)) s).
(** [kfree] of a batch, and of the page at [pa] *)
Definition kfree_batch (x : Z) : M cluster unit := modify (λ s, set_batches (delete x (batches s)) s).
Definition kfree_page (m pa : Z) : M cluster unit := modify (log_kfree m pa).

(** The address of [dsm_meta], the shared range and the memory of each machine, as
    first address and size. *)
Record rpf_config := RpfConfig { dsm_meta : Z; shm : Z * Z; local_mem : list (Z * Z) }.

Section rpf.
Context (c : rpf_config).

(** ** Owners (buddy.c, dsm-single.h) *)

Definition CLUSTER_MACHINE_NUM : Z := Z.of_nat (length (local_mem c)).

(** [IS_SHM_PADDR], [IS_LOCAL_PADDR] *)
Definition in_range (paddr : Z) (r : Z * Z) : bool :=
  bool_decide (paddr >= r.1) && bool_decide (paddr < wrap_u64 (r.1 + r.2)).

(** [for (i = 0; i < CLUSTER_MACHINE_NUM; i++)] *)
Fixpoint find_machine (paddr i : Z) (l : list (Z * Z)) : Z :=
  match l with
  | [] => MACHINE_ID_INVALID
  | r :: l' => if in_range paddr r then i else find_machine paddr (i + 1) l'
  end.
Definition get_paddr_machine_id (paddr : Z) : Z :=
  if in_range paddr (shm c) then MACHINE_ID_SHARED_MEMORY else find_machine paddr 0 (local_mem c).

(** ** Stack heads *)

Definition rpf_encode (generation batch : Z) : M cluster Z :=
  let off := wrap_u64 (batch - dsm_meta c) in
  bug_on (bool_decide (off = 0) || bool_decide (off > RPF_OFF_MASK));;
  mret (Z.lor (Z.shiftl (Z.land generation RPF_GEN_MASK) RPF_OFF_BITS) off).

Definition rpf_decode (head : Z) : Z :=
  let off := Z.land head RPF_OFF_MASK in
  if bool_decide (off = 0) then 0 else wrap_u64 (dsm_meta c + off).

Definition rpf_next_generation (head : Z) : Z := wrap_u64 (Z.shiftr head RPF_OFF_BITS + 1).

Definition rpf_push (o x : Z) : M cluster unit :=
  old ← get_head o;
  upd_batch x (set_next (rpf_decode old));;
  desired ← rpf_encode (rpf_next_generation old) x;
  set_head o desired.

Definition emptied (old : Z) : Z := Z.shiftl (Z.land (rpf_next_generation old) RPF_GEN_MASK) RPF_OFF_BITS.

Definition rpf_pop_all (o : Z) : M cluster Z :=
  old ← get_head o;
  if bool_decide (Z.land old RPF_OFF_MASK = 0) then mret 0
  else set_head o (emptied old);; mret (rpf_decode old).

Definition rpf_discard_all (o : Z) : M cluster unit :=
  old ← get_head o; set_head o (emptied old).

(** ** Giving a page back *)

Definition owners : list Z := seqZ 0 CLUSTER_MAX_MACHINE_NUM.

Definition rpf_any_pending (l : rpf_local) : bool :=
  existsb (λ i, bool_decide (is_Some (rpf_pending l !! i))) owners.

(** [while (1)]: [looks] are what the unlocked reads of [rpf_pending[owner]] saw, [true] for
    [NULL], as long as they are stale; [a] is the result of [kmalloc].  The result is
    the batch to fill and a batch that was not needed. *)
Definition install (m o a : Z) : M cluster unit :=
  upd_batch a (λ _, Batch 0 0 o []);;
  upd_local m (λ l, set_has_pending true (set_pending (<[o := a]> (rpf_pending l)) l)).

Fixpoint find_batch (m o pa : Z) (looks : list bool) (a : option Z) (spare : option Z)
    : M cluster (option (Z * option Z)) :=
  l ← get_local m;
  let null := match looks with seen :: _ => seen | [] => bool_decide (rpf_pending l !! o = None) end in
  '(ok, spare) ← (match spare, null with
    | None, true =>
        match a with
        | Some x => modify (λ s, set_batches (<[x := Batch 0 0 0 []]> (batches s)) s);; mret (true, Some x)
        | None => upd_local m add_dropped;; modify (log_leak pa);; mret (false, None)
        end
    | _, _ => mret (true, spare)
    end);
  if negb ok then mret None
  else
    match rpf_pending l !! o, spare, looks with
    | Some x, _, _ => mret (Some (x, spare))
    | None, Some x, _ => install m o x;; mret (Some (x, None))
    | None, None, _ :: looks' => find_batch m o pa looks' a None
    | None, None, [] => halt OutOfFuel
    end.

(** The page goes to batch [x]; a full batch is pushed. *)
Definition fill_batch (m o pa x : Z) : M cluster unit :=
  b ← get_batch x;
  when (bool_decide (count b >= DRAM_PAGE_FREE_BATCH_MAX)) (halt BadAccess);;
  upd_batch x (λ b, Batch (next b) (count b + 1) (owner b) (pas b ++ [pa]));;
  upd_local m add_queued;;
  when (bool_decide (count b + 1 = DRAM_PAGE_FREE_BATCH_MAX))
    (upd_local m (λ l, set_pending (delete o (rpf_pending l)) l);;
     rpf_push o x;;
     upd_local m (λ l, set_has_pending (rpf_any_pending l) l)).

Definition remote_page_free (m o pa : Z) (looks : list bool) (a : option Z) : M cluster unit :=
  if bool_decide (o < 0) || bool_decide (o >= CLUSTER_MACHINE_NUM) || bool_decide (o = m) then
    upd_local m add_dropped;; modify (log_leak pa)
  else
    r ← find_batch m o pa looks a None;
    match r with
    | None => mret tt
    | Some (x, spare) =>
        fill_batch m o pa x;;
        match spare with Some y => kfree_batch y | None => mret tt end
    end.

(** [for (i = 0; i < CLUSTER_MAX_MACHINE_NUM; i++)] *)
Fixpoint flush_loop (m : Z) (os : list Z) : M cluster unit :=
  match os with
  | [] => mret tt
  | o :: os' =>
      l ← get_local m;
      match rpf_pending l !! o with
      | Some x => upd_local m (λ l, set_pending (delete o (rpf_pending l)) l);; rpf_push o x
      | None => mret tt
      end;;
      flush_loop m os'
  end.
Definition remote_page_free_flush (m : Z) : M cluster unit :=
  flush_loop m owners;; upd_local m (set_has_pending false).

(** ** Taking pages back *)

(** [for (i = 0; i < batch->count; i++)] *)
Fixpoint drain_pages (m : Z) (l : list Z) : M cluster unit :=
  match l with
  | [] => mret tt
  | pa :: l' =>
      (if negb (bool_decide (get_paddr_machine_id pa = m)) then
         upd_local m add_dropped;; modify (log_leak pa)
       else kfree_page m pa;; upd_local m add_drained);;
      drain_pages m l'
  end.

(** [while (batch != NULL)] *)
Fixpoint drain_batches (fuel : nat) (m x : Z) : M cluster unit :=
  match fuel with
  | O => halt OutOfFuel
  | S fuel' =>
      if bool_decide (x = 0) then mret tt
      else
        b ← get_batch x;
        drain_pages m (take (Z.to_nat (count b)) (pas b));;
        kfree_batch x;;
        drain_batches fuel' m (next b)
  end.

Definition drain_remote_page_free (m : Z) : M cluster bool :=
  l ← get_local m;
  if negb (rpf_ready l) then mret false
  else
    h ← get_head m;
    if bool_decide (Z.land h RPF_OFF_MASK = 0) then mret false
    else if negb (bool_decide (rpf_draining l = 0)) then mret false
    else
      upd_local m (set_draining 1);;
      x ← rpf_pop_all m;
      s ← get_state;
      drain_batches (S (size (batches s))) m x;;
      upd_local m (set_draining 0);;
      l' ← get_local m;
      mret (negb (bool_decide (rpf_drained l' = rpf_drained l))).

Definition remote_page_free_poll (m : Z) : M cluster unit :=
  upd_local m (λ l, set_ticks (rpf_alloc_ticks l + 1) l);;
  l ← get_local m;
  if bool_decide (rpf_alloc_ticks l < RPF_POLL_INTERVAL) then mret tt
  else
    upd_local m (set_ticks 0);;
    if negb (rpf_ready l) then mret tt
    else
      when (rpf_has_pending l) (remote_page_free_flush m);;
      drain_remote_page_free m;;
      mret tt.

Definition remote_page_free_init (m : Z) : M cluster unit :=
  rpf_discard_all m;; upd_local m (set_ready true).

Definition free_machine_page (m pa : Z) (looks : list bool) (a : option Z) : M cluster unit :=
  let o := get_paddr_machine_id pa in
  if negb (bool_decide (o = MACHINE_ID_SHARED_MEMORY)) && negb (bool_decide (o = m)) then
    remote_page_free m o pa looks a
  else kfree_page m pa.
End rpf.
