(* ===== verification/RemoteFreeProofs.v ===== *)
(** Invariant of the remote page release: each batch is either being filled by one
    machine or on the stack of one owner, and no page is lost or freed twice. *)
From S2P Require Import Prelude Words RemoteFree.

(** ** Pages in batches *)

Definition flight (bs : gmap Z dram_page_free_batch) : list Z := concat (pas <$> (map_to_list bs).*2).

Lemma flight_delete bs x b : bs !! x = Some b → flight bs ≡ₚ pas b ++ flight (delete x bs).
Proof. intros H. unfold flight. by rewrite <-(map_to_list_delete bs x b H). Qed.

Lemma flight_insert_new bs x b : bs !! x = None → flight (<[x := b]> bs) ≡ₚ pas b ++ flight bs.
Proof. intros H. unfold flight. by rewrite (map_to_list_insert bs x b H). Qed.

Lemma flight_insert bs x b : flight (<[x := b]> bs) ≡ₚ pas b ++ flight (delete x bs).
Proof.
  rewrite (flight_delete _ x b) by apply lookup_insert_eq. by rewrite delete_insert_eq.
Qed.

Lemma flight_update bs x b b' : bs !! x = Some b → pas b' = pas b → flight (<[x := b']> bs) ≡ₚ flight bs.
Proof. intros H Hp. by rewrite flight_insert, (flight_delete bs x b H), Hp. Qed.

(** All pages the cluster has been asked to free. *)
Definition total (s : cluster) : list Z := flight (batches s) ++ (kfreed s).*2 ++ leaked s.

(** ** Invariant *)

Inductive place : Set := Pending (m o : Z) | Stacked (o : Z).
#[export] Instance place_dec : EqDecision place.
Proof. solve_decision. Defined.

Fixpoint chain (bs : gmap Z dram_page_free_batch) (x : Z) (l : list Z) : Prop :=
  match l with
  | [] => x = 0
  | y :: l' => x = y ∧ ∃ b, bs !! y = Some b ∧ chain bs (next b) l'
  end.

Lemma batches_chain_ne bs x l y b : y ∉ l → chain (<[y := b]> bs) x l ↔ chain bs x l.
Proof.
  revert x. induction l as [|z l IH]; intros x Hy; [done|]. simpl.
  rewrite lookup_insert_ne by set_solver. setoid_rewrite IH; [done|set_solver].
Qed.

Lemma chain_delete bs x l y : y ∉ l → chain (delete y bs) x l ↔ chain bs x l.
Proof.
  revert x. induction l as [|z l IH]; intros x Hy; [done|]. simpl.
  rewrite lookup_delete_ne by set_solver. setoid_rewrite IH; [done|set_solver].
Qed.

Section inv.
Context (c : rpf_config).

(** An address [rpf_encode] accepts. *)
Definition enc_ok (x : Z) : Prop := 0 < x - dsm_meta c < 2 ^ 40 ∧ 0 ≤ dsm_meta c ∧ 0 < x < 2 ^ 64.

Record batch_ok (o : Z) (b : dram_page_free_batch) : Prop := {
  k_owner : owner b = o;
  k_count : count b = Z.of_nat (length (pas b));
  k_pages : ∀ pa, pa ∈ pas b → get_paddr_machine_id c pa = o
}.

(** [S] gives the stack of each owner, [W] the place of each batch; the batches of
    [L] are in no place. *)
Record inv (s : cluster) (S : Z → list Z) (W : gmap Z place) (L : list Z) : Prop := {
  i_num : CLUSTER_MACHINE_NUM c ≤ CLUSTER_MAX_MACHINE_NUM;
  i_local : ∀ m l, locals s !! m = Some l → 0 ≤ m < CLUSTER_MACHINE_NUM c ∧ rpf_ready l = true ∧
    ∀ o x, rpf_pending l !! o = Some x → rpf_has_pending l = true ∧ 0 ≤ o < CLUSTER_MACHINE_NUM c;
  i_pend : ∀ m o x, (∃ l, locals s !! m = Some l ∧ rpf_pending l !! o = Some x) ↔ W !! x = Some (Pending m o);
  i_filling : ∀ m o x, W !! x = Some (Pending m o) →
    ∃ b, batches s !! x = Some b ∧ batch_ok o b ∧ count b < DRAM_PAGE_FREE_BATCH_MAX;
  i_stacked : ∀ o x, W !! x = Some (Stacked o) → ∃ b, batches s !! x = Some b ∧ batch_ok o b;
  i_stack : ∀ o x, x ∈ S o ↔ W !! x = Some (Stacked o);
  i_nodup : ∀ o, NoDup (S o);
  i_head : ∀ o, 0 ≤ o < CLUSTER_MACHINE_NUM c →
    ∃ h, heads s !! o = Some h ∧ chain (batches s) (rpf_decode c h) (S o);
  i_all : ∀ x, is_Some (batches s !! x) ↔ is_Some (W !! x) ∨ x ∈ L;
  i_loose : NoDup L ∧ ∀ x, x ∈ L → W !! x = None;
  i_enc : ∀ x, is_Some (batches s !! x) → enc_ok x
}.

(** ** Stack heads *)

Lemma off_mask x : Z.land x RPF_OFF_MASK = x mod 2 ^ 40.
Proof. change RPF_OFF_MASK with (Z.ones 40). by apply Z.land_ones. Qed.

Lemma emptied_off h : Z.land (emptied h) RPF_OFF_MASK = 0.
Proof.
  rewrite off_mask. unfold emptied, RPF_OFF_BITS. rewrite Z.shiftl_mul_pow2 by lia. by apply Z.mod_mul.
Qed.

Lemma rpf_decode_emptied h : rpf_decode c (emptied h) = 0.
Proof. unfold rpf_decode. by rewrite emptied_off. Qed.

(** What was encoded is decoded, whatever the generation. *)
Lemma wp_encode s g x :
  enc_ok x → wp (rpf_encode c g x) (λ h s', s' = s ∧ rpf_decode c h = x) s.
Proof.
  intros (Hx&Hd&Hr). unfold rpf_encode. rewrite wrap_u64_small by lia. wp_seq.
  apply wp_bug_on. { rewrite !bool_decide_eq_false_2; [done| |lia]. change RPF_OFF_MASK with (2 ^ 40 - 1). lia. }
  wp_seq. split; [done|]. unfold rpf_decode.
  assert (Z.land (Z.lor (Z.shiftl (Z.land g RPF_GEN_MASK) RPF_OFF_BITS) (x - dsm_meta c)) RPF_OFF_MASK = x - dsm_meta c) as ->.
  { rewrite Z.land_lor_distr_l, !off_mask. unfold RPF_OFF_BITS. rewrite Z.shiftl_mul_pow2 by lia.
    rewrite Z.mod_mul, Z.lor_0_l by lia. apply Z.mod_small. lia. }
  rewrite bool_decide_eq_false_2 by lia. replace (dsm_meta c + (x - dsm_meta c)) with x by lia.
  apply wrap_u64_small. lia.
Qed.

Lemma decode_off h x : rpf_decode c h = x → x ≠ 0 → Z.land h RPF_OFF_MASK ≠ 0.
Proof. unfold rpf_decode. case_bool_decide; congruence. Qed.

(** ** Steps *)

Lemma wp_get_local s m l (Q : rpf_local → cluster → Prop) :
  locals s !! m = Some l → Q l s → wp (get_local m) Q s.
Proof. intros Hl HQ. unfold get_local. wp_seq. by eapply wp_from_opt. Qed.

Lemma wp_upd_local s m f l (Q : unit → cluster → Prop) :
  locals s !! m = Some l → Q tt (set_locals (<[m := f l]> (locals s)) s) → wp (upd_local m f) Q s.
Proof. intros Hl HQ. unfold upd_local. wp_seq. eapply wp_get_local; [done|]. by wp_seq. Qed.

Lemma wp_get_batch s x b (Q : dram_page_free_batch → cluster → Prop) :
  batches s !! x = Some b → Q b s → wp (get_batch x) Q s.
Proof. intros Hb HQ. unfold get_batch. wp_seq. by eapply wp_from_opt. Qed.

Lemma wp_upd_batch s x f b (Q : unit → cluster → Prop) :
  batches s !! x = Some b → Q tt (set_batches (<[x := f b]> (batches s)) s) → wp (upd_batch x f) Q s.
Proof. intros Hb HQ. unfold upd_batch. wp_seq. eapply wp_get_batch; [done|]. by wp_seq. Qed.

(** Nothing but flags and statistics of machine [m] changes. *)
Lemma inv_local_stats s S W L m l l' :
  inv s S W L → locals s !! m = Some l → rpf_pending l' = rpf_pending l → rpf_ready l' = rpf_ready l →
  (∀ o x, rpf_pending l !! o = Some x → rpf_has_pending l = true → o ∈ owners → rpf_has_pending l' = true) →
  inv (set_locals (<[m := l']> (locals s)) s) S W L.
Proof.
  intros [Hnum Hloc Hpend Hfill Hst Hstack Hnd Hhead Hall Hloose Henc] Hl Hp Hr Hh. split; simpl; try done.
  - intros m' l1 [[<- <-]|[? ?]]%lookup_insert_Some; [|by apply Hloc].
    destruct (Hloc m l Hl) as (?&?&Hx). split_and!; [lia|lia|congruence|]. intros o x. rewrite Hp. intros Ho.
    destruct (Hx o x Ho). split; [|done]. eapply Hh; [done|done|]. apply elem_of_seqZ. lia.
  - intros m' o x. rewrite <-Hpend. destruct (decide (m' = m)) as [->|].
    + rewrite lookup_insert_eq. split; [intros (?&[= <-]&?)|intros (?&?&?)]; [exists l; by rewrite <-Hp|].
      exists l'. split; [done|]. rewrite Hp. by simplify_eq.
    + by rewrite lookup_insert_ne.
Qed.

(** A batch that is being filled is taken out. *)
Lemma inv_take s S W L m l o x :
  inv s S W L → locals s !! m = Some l → rpf_pending l !! o = Some x →
  inv (set_locals (<[m := set_pending (delete o (rpf_pending l)) l]> (locals s)) s) S (delete x W) (x :: L).
Proof.
  intros [Hnum Hloc Hpend Hfill Hst Hstack Hnd Hhead Hall [HL HLW] Henc] Hl Hx.
  assert (W !! x = Some (Pending m o)) as HW by (apply Hpend; eauto). split; simpl; try done.
  - intros m' l1 [[<- <-]|[? ?]]%lookup_insert_Some; [|by apply Hloc].
    destruct (Hloc m l Hl) as (?&?&Hy). split_and!; [lia|lia|done|]. simpl. intros o' y [_ Ho']%lookup_delete_Some. eauto.
  - intros m' o' y. rewrite lookup_delete_Some, <-Hpend. split.
    + intros (l1&Hl1&Hy). destruct (decide (m' = m)) as [->|].
      * rewrite lookup_insert_eq in Hl1. injection Hl1 as <-. simpl in Hy. apply lookup_delete_Some in Hy as [Ho Hy].
        split; [|eauto]. intros <-. assert (W !! x = Some (Pending m o')) by (apply Hpend; eauto). congruence.
      * rewrite lookup_insert_ne in Hl1 by done. split; [|eauto]. intros <-.
        assert (W !! x = Some (Pending m' o')) by (apply Hpend; eauto). congruence.
    + intros (Hxy&l1&Hl1&Hy). destruct (decide (m' = m)) as [->|].
      * rewrite lookup_insert_eq. eexists. split; [done|]. simpl. assert (l1 = l) as -> by congruence.
        rewrite lookup_delete_ne; [done|]. intros <-. congruence.
      * rewrite lookup_insert_ne by done. eauto.
  - intros m' o' y [_ Hy]%lookup_delete_Some. eauto.
  - intros o' y [_ Hy]%lookup_delete_Some. eauto.
  - intros o' y. rewrite lookup_delete_Some, Hstack. split; [intros Hy; split; [|done]; intros <-; congruence|by intros [_ ?]].
  - intros y. rewrite Hall. destruct (decide (y = x)) as [->|].
    + rewrite lookup_delete_eq. split; [set_solver|]. intros _. left. eauto.
    + rewrite lookup_delete_ne by done. set_solver.
  - split.
    + apply NoDup_cons. split; [|done]. intros Hin. specialize (HLW x Hin). congruence.
    + intros y [->|Hy]%elem_of_cons; [apply lookup_delete_eq|]. destruct (decide (y = x)) as [->|]; [apply lookup_delete_eq|].
      rewrite lookup_delete_ne by done. auto.
Qed.

Definition restack (S : Z → list Z) (o : Z) (l : list Z) : Z → list Z := λ o', if decide (o' = o) then l else S o'.

(** The batches of [s] are in [s'] with the same pages. *)
Definition same_pages (s s' : cluster) : Prop :=
  ∀ y b, batches s !! y = Some b → ∃ b', batches s' !! y = Some b' ∧ pas b' = pas b.

(** Only the contents of the batch being filled, which is in no place, changes. *)
Lemma loose_update s S W L x b' :
  inv s S W L → x ∈ L → inv (set_batches (<[x := b']> (batches s)) s) S W L.
Proof.
  intros [Hnum Hloc Hpend Hfill Hst Hstack Hnd Hhead Hall [HL HLW] Henc] Hx. pose proof (HLW x Hx) as HWx.
  assert (∀ y, is_Some (<[x := b']> (batches s) !! y) ↔ is_Some (batches s !! y)) as Hdom.
  { intros y. destruct (decide (y = x)) as [->|]; [|by rewrite lookup_insert_ne].
    rewrite lookup_insert_eq. split; [|by eexists]. intros _. apply Hall. by right. }
  split; simpl; try done.
  - intros m o y Hy. rewrite lookup_insert_ne by congruence. eauto.
  - intros o y Hy. rewrite lookup_insert_ne by congruence. eauto.
  - intros o Ho. destruct (Hhead o Ho) as (h&?&?). exists h. split; [done|]. apply batches_chain_ne; [|done].
    rewrite Hstack. congruence.
  - intros y. by rewrite Hdom.
  - intros y. rewrite Hdom. apply Henc.
Qed.

(** A loose batch is put on the stack of [o]. *)
Lemma inv_stack s S W L o x b h :
  inv s S W (x :: L) → batches s !! x = Some b → batch_ok o b → 0 ≤ o < CLUSTER_MACHINE_NUM c →
  chain (batches s) (next b) (S o) → rpf_decode c h = x →
  inv (set_heads (<[o := h]> (heads s)) s) (restack S o (x :: S o)) (<[x := Stacked o]> W) L.
Proof.
  intros [Hnum Hloc Hpend Hfill Hst Hstack Hnd Hhead Hall [HL HLW] Henc] Hb Hok Ho Hc Hh.
  pose proof (HLW x ltac:(set_solver)) as HWx. apply NoDup_cons in HL as [HxL HL]. split; simpl; try done.
  - intros m o' y. rewrite Hpend. destruct (decide (y = x)) as [->|]; [rewrite lookup_insert_eq; naive_solver|by rewrite lookup_insert_ne].
  - intros m o' y [[<- ?]|[? ?]]%lookup_insert_Some; [done|eauto].
  - intros o' y [[<- [= <-]]|[? ?]]%lookup_insert_Some; [eauto|eauto].
  - intros o' y. unfold restack. destruct (decide (y = x)) as [->|Hy].
    + rewrite lookup_insert_eq. case_decide as Ho'; [subst; split; [done|set_solver]|]. rewrite Hstack. split; [congruence|naive_solver].
    + rewrite lookup_insert_ne, <-Hstack by done. case_decide as Ho'; [subst; set_solver|done].
  - intros o'. unfold restack. case_decide; [|done]. apply NoDup_cons. split; [|done]. rewrite Hstack. congruence.
  - intros o' Hr. unfold restack. case_decide as Ho'.
    + subst o'. exists h. rewrite lookup_insert_eq. split; [done|]. simpl. split; [done|]. eauto.
    + rewrite lookup_insert_ne by done. auto.
  - intros y. rewrite Hall. destruct (decide (y = x)) as [->|].
    + rewrite lookup_insert_eq. split; [by left; eauto|set_solver].
    + rewrite lookup_insert_ne by done. set_solver.
  - split; [done|]. intros y Hy. rewrite lookup_insert_ne by set_solver. apply HLW. set_solver.
Qed.

Lemma wp_push s S W L o x b :
  inv s S W (x :: L) → batches s !! x = Some b → batch_ok o b → 0 ≤ o < CLUSTER_MACHINE_NUM c →
  wp (rpf_push c o x) (λ _ s', inv s' (restack S o (x :: S o)) (<[x := Stacked o]> W) L ∧
    locals s' = locals s ∧ kfreed s' = kfreed s ∧ leaked s' = leaked s ∧ total s' ≡ₚ total s ∧
    (∀ y, y ≠ x → batches s' !! y = batches s !! y) ∧ same_pages s s') s.
Proof.
  intros HI Hb Hok Ho. pose proof (i_head _ _ _ _ HI o Ho) as (h&Hh&Hc). unfold rpf_push, get_head, set_head. wp_seq.
  eapply wp_from_opt; [done|]. wp_seq. eapply wp_upd_batch; [done|]. wp_seq.
  eapply wp_mono; [apply wp_encode; eapply (i_enc _ _ _ _ HI); eauto|]. intros h' s1 [-> Hh']. wp_seq.
  split_and!; try done.
  - apply (inv_stack (set_batches (<[x := set_next (rpf_decode c h) b]> (batches s)) s) S W L o x (set_next (rpf_decode c h) b) h').
    + apply loose_update; [done|set_solver].
    + apply lookup_insert_eq.
    + by destruct Hok.
    + done.
    + simpl. apply batches_chain_ne; [|done]. rewrite (i_stack _ _ _ _ HI). rewrite (proj2 (i_loose _ _ _ _ HI) x); [done|set_solver].
    + done.
  - unfold total. simpl. by rewrite (flight_update _ x b).
  - intros y Hy. simpl. by rewrite lookup_insert_ne.
  - intros y b' Hy. simpl. destruct (decide (y = x)) as [->|]; [|rewrite lookup_insert_ne by done; eauto].
    rewrite lookup_insert_eq. eexists. split; [done|]. simpl. congruence.
Qed.

(** ** Publishing *)

Lemma take_and_push s S W m l o x :
  inv s S W [] → locals s !! m = Some l → rpf_pending l !! o = Some x →
  wp (upd_local m (λ l, set_pending (delete o (rpf_pending l)) l);; rpf_push c o x)
     (λ _ s', inv s' (restack S o (x :: S o)) (<[x := Stacked o]> (delete x W)) [] ∧
        locals s' = <[m := set_pending (delete o (rpf_pending l)) l]> (locals s) ∧
        kfreed s' = kfreed s ∧ leaked s' = leaked s ∧ total s' ≡ₚ total s ∧ same_pages s s') s.
Proof.
  intros HI Hl Hx. wp_seq. eapply wp_upd_local; [done|].
  assert (W !! x = Some (Pending m o)) as HW by (apply (i_pend _ _ _ _ HI); eauto).
  destruct (i_filling _ _ _ _ HI m o x HW) as (b&Hb&Hok&_).
  destruct (i_local _ _ _ _ HI m l Hl) as (_&_&Ho). destruct (Ho o x Hx) as [_ Hor]. pose proof (i_num _ _ _ _ HI).
  eapply wp_mono; [eapply wp_push; [by apply inv_take|done|done|lia]|].
  by intros [] s' (?&?&?&?&?&_&?).
Qed.

Lemma wp_flush_loop os s S W m l :
  inv s S W [] → locals s !! m = Some l →
  wp (flush_loop c m os) (λ _ s', ∃ S' W' l', inv s' S' W' [] ∧ locals s' = <[m := l']> (locals s) ∧
    (∀ o, o ∈ os → rpf_pending l' !! o = None) ∧ (∀ o x, rpf_pending l' !! o = Some x → rpf_pending l !! o = Some x) ∧
    rpf_draining l' = rpf_draining l ∧
    (∀ o x, x ∈ S o → x ∈ S' o) ∧ (∀ o x, o ∈ os → rpf_pending l !! o = Some x → x ∈ S' o) ∧
    kfreed s' = kfreed s ∧ leaked s' = leaked s ∧ total s' ≡ₚ total s ∧ same_pages s s') s.
Proof.
  revert s S W l. induction os as [|o os IH]; intros s S W l HI Hl; cbn [flush_loop]; wp_seq.
  { exists S, W, l. rewrite insert_id by done. split_and!; try done; [set_solver..|]. intros y b; eauto. }
  eapply wp_get_local; [done|]. destruct (rpf_pending l !! o) as [x|] eqn:Hx.
  - rewrite wp_bind. eapply wp_mono; [by apply take_and_push|]. intros [] s1 (HI1&Hl1&Hk1&Hk2&Ht1&Hsp1).
    eapply wp_mono; [eapply IH; [done|rewrite Hl1; apply lookup_insert_eq]|].
    intros [] s2 (S'&W'&l'&HI2&Hl2&Hnone&Hsub&Hdr&HS&Hpush&?&?&Ht2&Hsp2). exists S', W', l'. simpl in *.
    split_and!; try done; try congruence.
    + by rewrite Hl2, Hl1, insert_insert_eq.
    + intros o' [->|?]%elem_of_cons; [|auto]. destruct (rpf_pending l' !! o) as [y|] eqn:Hy; [|done].
      apply Hsub in Hy. by rewrite lookup_delete_eq in Hy.
    + intros o' y Hy. apply Hsub, lookup_delete_Some in Hy. by destruct Hy.
    + intros o' y Hy. apply HS. unfold restack. case_decide; [subst; set_solver|done].
    + intros o' y Ho' Hy. destruct (decide (o' = o)) as [->|].
      * apply HS. unfold restack. rewrite decide_True by done. set_solver.
      * apply Hpush; [set_solver|]. by rewrite lookup_delete_ne.
    + by rewrite Ht2.
    + intros y b Hy. destruct (Hsp1 y b Hy) as (b1&Hb1&<-). eauto.
  - wp_seq. eapply wp_mono; [by eapply IH|].
    intros [] s2 (S'&W'&l'&HI2&Hl2&Hnone&Hsub&Hdr&HS&Hpush&?&?&Ht2&Hsp2). exists S', W', l'. split_and!; try done.
    + intros o' [->|?]%elem_of_cons; [|auto]. destruct (rpf_pending l' !! o) as [y|] eqn:Hy; [|done].
      apply Hsub in Hy. congruence.
    + intros o' y [->|?]%elem_of_cons Hy; [congruence|auto].
Qed.

Lemma wp_flush s S W m l :
  inv s S W [] → locals s !! m = Some l →
  wp (remote_page_free_flush c m) (λ _ s', ∃ S' W' l', inv s' S' W' [] ∧ locals s' = <[m := l']> (locals s) ∧
    rpf_pending l' = ∅ ∧ rpf_draining l' = rpf_draining l ∧
    (∀ o x, x ∈ S o → x ∈ S' o) ∧ (∀ o x, rpf_pending l !! o = Some x → x ∈ S' o) ∧
    kfreed s' = kfreed s ∧ leaked s' = leaked s ∧ total s' ≡ₚ total s ∧ same_pages s s') s.
Proof.
  intros HI Hl. unfold remote_page_free_flush. wp_seq. eapply wp_mono; [by eapply wp_flush_loop|].
  intros [] s1 (S'&W'&l'&HI1&Hl1&Hnone&Hsub&Hdr&HS&Hpush&?&?&?&?).
  assert (∀ o x, rpf_pending l !! o = Some x → o ∈ owners) as Hown.
  { intros o x Ho. destruct (i_local _ _ _ _ HI m l Hl) as (_&_&H'). destruct (H' o x Ho) as [_ ?].
    pose proof (i_num _ _ _ _ HI). apply elem_of_seqZ. lia. }
  assert (rpf_pending l' = ∅) as Hempty.
  { apply map_empty. intros o. destruct (rpf_pending l' !! o) as [x|] eqn:Hx; [|done].
    rewrite Hnone in Hx; [done|]. by eapply Hown, Hsub. }
  eapply wp_upd_local; [rewrite Hl1; apply lookup_insert_eq|]. exists S', W', (set_has_pending false l').
  split_and!; try done.
  - eapply inv_local_stats; [done|rewrite Hl1; apply lookup_insert_eq|done|done|]. intros o x Hx. by rewrite Hempty in Hx.
  - simpl. by rewrite Hl1, insert_insert_eq.
  - intros o x Ho. eauto.
Qed.

(** ** Filling a batch *)

Definition option_list (o : option Z) : list Z := match o with Some y => [y] | None => [] end.

Lemma inv_alloc s S W L y b :
  inv s S W L → batches s !! y = None → enc_ok y → inv (set_batches (<[y := b]> (batches s)) s) S W (y :: L).
Proof.
  intros [Hnum Hloc Hpend Hfill Hst Hstack Hnd Hhead Hall [HL HLW] Henc] Hy He.
  assert (W !! y = None ∧ y ∉ L) as [HWy HyL].
  { split; [destruct (W !! y) eqn:E; [|done]|intros Hin]; assert (is_Some (batches s !! y)) as [? ?] by (apply Hall; eauto); congruence. }
  split; simpl; try done.
  - intros m o x Hx. rewrite lookup_insert_ne by congruence. eauto.
  - intros o x Hx. rewrite lookup_insert_ne by congruence. eauto.
  - intros o Ho. destruct (Hhead o Ho) as (h&?&?). exists h. split; [done|]. apply batches_chain_ne; [|done]. rewrite Hstack. congruence.
  - intros x. destruct (decide (x = y)) as [->|]; [rewrite lookup_insert_eq; set_solver|].
    rewrite lookup_insert_ne, Hall by done. set_solver.
  - split; [by apply NoDup_cons|]. intros x [->|?]%elem_of_cons; auto.
  - intros x. destruct (decide (x = y)) as [->|]; [done|]. rewrite lookup_insert_ne by done. apply Henc.
Qed.

Lemma inv_kfree s S W L y : inv s S W (y :: L) → inv (set_batches (delete y (batches s)) s) S W L.
Proof.
  intros [Hnum Hloc Hpend Hfill Hst Hstack Hnd Hhead Hall [HL HLW] Henc].
  pose proof (HLW y ltac:(set_solver)) as HWy. apply NoDup_cons in HL as [HyL HL]. split; simpl; try done.
  - intros m o x Hx. rewrite lookup_delete_ne by congruence. eauto.
  - intros o x Hx. rewrite lookup_delete_ne by congruence. eauto.
  - intros o Ho. destruct (Hhead o Ho) as (h&?&?). exists h. split; [done|]. apply chain_delete; [|done]. rewrite Hstack. congruence.
  - intros x. destruct (decide (x = y)) as [->|].
    + rewrite lookup_delete_eq, HWy. split; [by intros [? ?]|intros [[? ?]|?]; done].
    + rewrite lookup_delete_ne, Hall by done. set_solver.
  - split; [done|]. intros x Hx. apply HLW. set_solver.
  - intros x [b Hb]. apply lookup_delete_Some in Hb as [_ Hb]. eauto.
Qed.

Lemma inv_install s S W L m l o y b :
  inv s S W (y :: L) → locals s !! m = Some l → rpf_pending l !! o = None → 0 ≤ o < CLUSTER_MACHINE_NUM c →
  batches s !! y = Some b → batch_ok o b → count b < DRAM_PAGE_FREE_BATCH_MAX →
  inv (set_locals (<[m := set_has_pending true (set_pending (<[o := y]> (rpf_pending l)) l)]> (locals s)) s)
    S (<[y := Pending m o]> W) L.
Proof.
  intros [Hnum Hloc Hpend Hfill Hst Hstack Hnd Hhead Hall [HL HLW] Henc] Hl Ho Hr Hb Hok Hc.
  pose proof (HLW y ltac:(set_solver)) as HWy. apply NoDup_cons in HL as [HyL HL]. split; simpl; try done.
  - intros m' l1 [[<- <-]|[? ?]]%lookup_insert_Some; [|by apply Hloc].
    destruct (Hloc m l Hl) as (?&?&Hx). split_and!; [lia|lia|done|]. simpl.
    intros o' x [[<- _]|[_ Hx']]%lookup_insert_Some; [split; [done|lia]|]. by destruct (Hx o' x Hx').
  - intros m' o' x. destruct (decide (x = y)) as [->|Hx].
    + rewrite (lookup_insert_eq W). split.
      * intros (l1&Hl1&Hy). destruct (decide (m' = m)) as [->|].
        -- rewrite lookup_insert_eq in Hl1. injection Hl1 as <-. simpl in Hy. apply lookup_insert_Some in Hy as [[-> _]|[_ Hy]]; [done|].
           assert (W !! y = Some (Pending m o')) by (apply Hpend; eauto). congruence.
        -- rewrite lookup_insert_ne in Hl1 by done. assert (W !! y = Some (Pending m' o')) by (apply Hpend; eauto). congruence.
      * intros [= <- <-]. rewrite lookup_insert_eq. eexists. split; [done|]. simpl. apply lookup_insert_eq.
    + rewrite (lookup_insert_ne W), <-Hpend by done. destruct (decide (m' = m)) as [->|].
      * rewrite lookup_insert_eq. split.
        -- intros (l1&[= <-]&Hy). simpl in Hy. apply lookup_insert_Some in Hy as [[_ ?]|[_ Hy]]; [congruence|eauto].
        -- intros (l1&Hl1&Hy). assert (l1 = l) as -> by congruence. eexists. split; [done|]. simpl.
           rewrite lookup_insert_ne; [done|]. congruence.
      * by rewrite lookup_insert_ne.
  - intros m' o' x [[<- [= <- <-]]|[? ?]]%lookup_insert_Some; [eauto|eauto].
  - intros o' x [[<- ?]|[? ?]]%lookup_insert_Some; [done|eauto].
  - intros o' x. rewrite Hstack. destruct (decide (x = y)) as [->|]; [rewrite lookup_insert_eq; naive_solver|by rewrite lookup_insert_ne].
  - intros x. rewrite Hall. destruct (decide (x = y)) as [->|].
    + rewrite lookup_insert_eq. split; [by left; eauto|set_solver].
    + rewrite lookup_insert_ne by done. set_solver.
  - split; [done|]. intros x Hx. rewrite lookup_insert_ne by set_solver. apply HLW. set_solver.
Qed.

Lemma inv_fill s S W L m o x b' :
  inv s S W L → W !! x = Some (Pending m o) → batch_ok o b' → count b' < DRAM_PAGE_FREE_BATCH_MAX →
  inv (set_batches (<[x := b']> (batches s)) s) S W L.
Proof.
  intros [Hnum Hloc Hpend Hfill Hst Hstack Hnd Hhead Hall HL Henc] HW Hok Hc.
  assert (∀ y, is_Some (<[x := b']> (batches s) !! y) ↔ is_Some (batches s !! y)) as Hdom.
  { intros y. destruct (decide (y = x)) as [->|]; [|by rewrite lookup_insert_ne].
    rewrite lookup_insert_eq. split; [|by eexists]. intros _. apply Hall. left. eauto. }
  split; simpl; try done.
  - intros m' o' y Hy. destruct (decide (y = x)) as [->|]; [|rewrite lookup_insert_ne by done; eauto].
    rewrite lookup_insert_eq. assert (o' = o) as -> by congruence. eauto.
  - intros o' y Hy. rewrite lookup_insert_ne by congruence. eauto.
  - intros o' Ho. destruct (Hhead o' Ho) as (h&?&?). exists h. split; [done|]. apply batches_chain_ne; [|done].
    rewrite Hstack. congruence.
  - intros y. by rewrite Hdom.
  - intros y. rewrite Hdom. apply Henc.
Qed.

(** What [kmalloc] may return. *)
Definition fresh (s : cluster) (a : option Z) : Prop := ∀ y, a = Some y → batches s !! y = None ∧ enc_ok y.

(** A batch for [o] is being filled by [m]; [spare] is a batch that is not needed. *)
Definition found (s : cluster) (S : Z → list Z) (m o x : Z) (spare : option Z) (l : rpf_local) (s' : cluster) : Prop :=
  ∃ W' l', inv s' S W' (option_list spare) ∧ locals s' = <[m := l']> (locals s) ∧ rpf_pending l' !! o = Some x ∧
    rpf_draining l' = rpf_draining l ∧ kfreed s' = kfreed s ∧ leaked s' = leaked s ∧ total s' ≡ₚ total s ∧
    (∀ y, spare = Some y → ∃ b, batches s' !! y = Some b ∧ pas b = []).

Lemma alloc_total s y : batches s !! y = None →
  total (set_batches (<[y := Batch 0 0 0 []]> (batches s)) s) ≡ₚ total s.
Proof. intros Hy. unfold total. simpl. by rewrite flight_insert_new. Qed.

Lemma wp_install s S W m l o y :
  inv s S W [] → locals s !! m = Some l → rpf_pending l !! o = None → 0 ≤ o < CLUSTER_MACHINE_NUM c →
  batches s !! y = None → enc_ok y →
  wp (install m o y) (λ _, found s S m o y None l) (set_batches (<[y := Batch 0 0 0 []]> (batches s)) s).
Proof.
  intros HI Hl Hp Ho Hy He. unfold install. wp_seq. eapply wp_upd_batch; [apply lookup_insert_eq|].
  eapply wp_upd_local; [done|]. simpl. exists (<[y := Pending m o]> W). eexists. split_and!; try done.
  - rewrite insert_insert_eq.
    eapply (inv_install (set_batches (<[y := Batch 0 0 o []]> (batches s)) s) S W [] m l o y); try done.
    + by apply inv_alloc.
    + apply lookup_insert_eq.
    + split; [done|done|]. simpl. set_solver.
    + simpl. unfold DRAM_PAGE_FREE_BATCH_MAX. lia.
  - simpl. apply lookup_insert_eq.
  - unfold total. simpl. by rewrite insert_insert_eq, flight_insert_new.
Qed.

Lemma wp_find_batch looks s S W m l o pa a :
  inv s S W [] → locals s !! m = Some l → 0 ≤ o < CLUSTER_MACHINE_NUM c → fresh s a →
  wp (find_batch m o pa looks a None) (λ r s',
    (r = None ∧ a = None ∧ s' = log_leak pa (set_locals (<[m := add_dropped l]> (locals s)) s)) ∨
    (∃ x spare, r = Some (x, spare) ∧ found s S m o x spare l s')) s.
Proof.
  intros HI Hl Ho Ha.
  assert (∀ x, rpf_pending l !! o = Some x → found s S m o x None l s) as Hfound.
  { intros x Hx. exists W, l. rewrite insert_id by done. by split_and!. }
  assert (∀ y x, a = Some y → rpf_pending l !! o = Some x →
    found s S m o x (Some y) l (set_batches (<[y := Batch 0 0 0 []]> (batches s)) s)) as Hspare.
  { intros y x Hy Hx. destruct (Ha y Hy) as [Hno He]. exists W, l. simpl. rewrite (insert_id (locals s)) by done. split_and!; try done.
    - by apply inv_alloc.
    - by apply alloc_total.
    - intros y' [= <-]. rewrite lookup_insert_eq. by eexists. }
  assert (wp (upd_local m add_dropped;; modify (log_leak pa);; mret (false, @None Z))
    (λ r s', r = (false, None) ∧ s' = log_leak pa (set_locals (<[m := add_dropped l]> (locals s)) s)) s) as Hleak.
  { wp_seq. eapply wp_upd_local; [done|]. by wp_seq. }
  induction looks as [|seen looks IH]; cbn [find_batch]; wp_seq; (eapply wp_get_local; [done|]); wp_seq.
  - destruct (rpf_pending l !! o) as [x|] eqn:Hx; simpl.
    + wp_seq. cbn [negb]. wp_seq. right. exists x, None. auto.
    + destruct a as [y|]; [|eapply wp_mono; [apply Hleak|]; intros r s' [-> ->]; cbn [negb]; wp_seq; by left].
      wp_seq. cbn [negb]. wp_seq. destruct (Ha y eq_refl) as [Hy He].
      eapply wp_mono; [by apply (wp_install s S W m l o y)|]. intros [] s' Hf. wp_seq. right. by exists y, None.
  - destruct seen.
    + destruct a as [y|]; [|eapply wp_mono; [apply Hleak|]; intros r s' [-> ->]; cbn [negb]; wp_seq; by left].
      wp_seq. cbn [negb]. destruct (rpf_pending l !! o) as [x|] eqn:Hx.
      * wp_seq. right. exists x, (Some y). auto.
      * wp_seq. destruct (Ha y eq_refl) as [Hy He].
        eapply wp_mono; [by apply (wp_install s S W m l o y)|]. intros [] s' Hf. wp_seq. right. by exists y, None.
    + wp_seq. cbn [negb]. destruct (rpf_pending l !! o) as [x|] eqn:Hx.
      * wp_seq. right. exists x, None. auto.
      * apply IH.
Qed.

(** A page is added to the batch. *)
Definition with_page (b : dram_page_free_batch) (pa : Z) : dram_page_free_batch :=
  Batch (next b) (count b + 1) (owner b) (pas b ++ [pa]).

Lemma with_page_ok o b pa : batch_ok o b → get_paddr_machine_id c pa = o → batch_ok o (with_page b pa).
Proof.
  intros [? ? Hp] Hpa. split; simpl; [done|rewrite length_app; simpl; lia|].
  intros x Hx. apply elem_of_app in Hx as [?|Hx]; [auto|]. apply list_elem_of_singleton in Hx as ->. done.
Qed.

Lemma total_with_page s x b pa : batches s !! x = Some b →
  flight (<[x := with_page b pa]> (batches s)) ≡ₚ pa :: flight (batches s).
Proof.
  intros Hb. rewrite flight_insert, (flight_delete _ x b Hb). simpl. rewrite <-(assoc (++)). simpl.
  symmetry. apply Permutation_middle.
Qed.

Lemma wp_free_spare s S W spare :
  inv s S W (option_list spare) → (∀ y, spare = Some y → ∃ b, batches s !! y = Some b ∧ pas b = []) →
  wp (match spare with Some y => kfree_batch y | None => mret tt end) (λ _ s', inv s' S W [] ∧ locals s' = locals s ∧
    kfreed s' = kfreed s ∧ leaked s' = leaked s ∧ total s' ≡ₚ total s) s.
Proof.
  intros HI Hsp. destruct spare as [y|]; [|done]. unfold kfree_batch. wp_seq. split_and!; try done; [by apply inv_kfree|].
  destruct (Hsp y eq_refl) as (b&Hb&Hp). unfold total. simpl. by rewrite (flight_delete (batches s) y b Hb), Hp.
Qed.

(** What giving a page back does: it is in a batch, or it is lost. *)
Definition queued (s : cluster) (m pa : Z) (l : rpf_local) (lost : Prop) (s' : cluster) : Prop :=
  ∃ S' W' l', inv s' S' W' [] ∧ locals s' = <[m := l']> (locals s) ∧ rpf_draining l' = rpf_draining l ∧
    kfreed s' = kfreed s ∧ total s' ≡ₚ pa :: total s ∧
    (leaked s' = leaked s ∨ (lost ∧ leaked s' = pa :: leaked s)).

Lemma queued_leak s S W m l pa (lost : Prop) :
  inv s S W [] → locals s !! m = Some l → lost →
  queued s m pa l lost (log_leak pa (set_locals (<[m := add_dropped l]> (locals s)) s)).
Proof.
  intros HI Hl Hlost. exists S, W, (add_dropped l). split_and!; try done; [| |by right].
  - assert (inv (set_locals (<[m := add_dropped l]> (locals s)) s) S W []) as [] by (by eapply inv_local_stats). by split.
  - unfold total. simpl. by rewrite <-!Permutation_middle.
Qed.

Lemma any_pending_true l o x : rpf_pending l !! o = Some x → o ∈ owners → rpf_any_pending l = true.
Proof.
  intros Hx Ho. unfold rpf_any_pending. apply existsb_exists. exists o. split; [by apply list_elem_of_In|].
  apply bool_decide_eq_true. eauto.
Qed.

Lemma wp_fill_batch s S W L m l o x pa :
  inv s S W L → locals s !! m = Some l → rpf_pending l !! o = Some x → get_paddr_machine_id c pa = o →
  wp (fill_batch c m o pa x) (λ _ s', ∃ S' W' l', inv s' S' W' L ∧ locals s' = <[m := l']> (locals s) ∧
    rpf_draining l' = rpf_draining l ∧ kfreed s' = kfreed s ∧ leaked s' = leaked s ∧ total s' ≡ₚ pa :: total s ∧
    ∀ y, y ≠ x → batches s' !! y = batches s !! y) s.
Proof.
  intros HI Hl Hx Hpa. assert (W !! x = Some (Pending m o)) as HW by (apply (i_pend _ _ _ _ HI); eauto).
  destruct (i_filling _ _ _ _ HI m o x HW) as (b&Hb&Hok&Hcnt). unfold fill_batch. wp_seq. eapply wp_get_batch; [done|]. wp_seq.
  rewrite (bool_decide_eq_false_2 (count b >= _)) by lia. cbn [when]. wp_seq.
  eapply wp_upd_batch; [done|]. wp_seq. fold (with_page b pa). eapply wp_upd_local; [exact Hl|]. wp_seq.
  case_bool_decide as Hfull; cbn [when].
  - wp_seq. eapply wp_upd_local; [apply lookup_insert_eq|]. wp_seq.
    set (l2 := set_pending (delete o (rpf_pending l)) (add_queued l)).
    match goal with |- wp _ _ ?st =>
      assert (st = set_batches (<[x := with_page b pa]> (batches s)) (set_locals (<[m := l2]> (locals s)) s)) as ->
        by (unfold set_locals, set_batches; simpl; by rewrite insert_insert_eq) end.
    destruct (i_local _ _ _ _ HI m l Hl) as (_&_&Hr). destruct (Hr o x Hx) as [_ Ho].
    eapply wp_mono; [eapply (wp_push _ S (delete x W) L o x (with_page b pa)); [|apply lookup_insert_eq|by apply with_page_ok|done]|].
    + apply (loose_update (set_locals (<[m := l2]> (locals s)) s)); [|by left].
      assert (inv (set_locals (<[m := add_queued l]> (locals s)) s) S W L) as HI2 by (by eapply inv_local_stats).
      pose proof (inv_take _ S W _ m (add_queued l) o x HI2 (lookup_insert_eq _ _ _) Hx) as HI3.
      simpl in HI3. by rewrite insert_insert_eq in HI3.
    + intros [] s2 (HI2&Hl2&Hk3&Hk4&Ht2&Hbs2&_). simpl in Hl2, Hk3, Hk4, Hbs2.
      eapply wp_upd_local; [rewrite Hl2; apply lookup_insert_eq|].
      eexists _, _, (set_has_pending (rpf_any_pending l2) l2). split_and!; try done.
      * eapply inv_local_stats; [exact HI2|rewrite Hl2; apply lookup_insert_eq|done|done|].
        intros o' y Hy _ Ho'. simpl. by eapply any_pending_true.
      * simpl. by rewrite Hl2, insert_insert_eq.
      * change (total s2 ≡ₚ pa :: total s). rewrite Ht2. unfold total. simpl. by rewrite (total_with_page s x b pa Hb).
      * intros y Hy. simpl. by rewrite Hbs2, lookup_insert_ne by done.
  - wp_seq. exists S, W, (add_queued l). split_and!; try done.
    + apply (inv_local_stats (set_batches (<[x := with_page b pa]> (batches s)) s) S W _ m l); try done.
      eapply inv_fill; [done|done|by apply with_page_ok|]. simpl. lia.
    + unfold total. simpl. by rewrite (total_with_page s x b pa Hb).
    + intros y Hy. simpl. by rewrite lookup_insert_ne.
Qed.

Lemma wp_remote_page_free s S W m l o pa looks a :
  inv s S W [] → locals s !! m = Some l → fresh s a → get_paddr_machine_id c pa = o →
  wp (remote_page_free c m o pa looks a) (λ _, queued s m pa l (a = None ∨ ¬ (0 ≤ o < CLUSTER_MACHINE_NUM c) ∨ o = m)) s.
Proof.
  intros HI Hl Ha Hpa. unfold remote_page_free. destruct (_ || _ || _) eqn:Hbad.
  { wp_seq. eapply wp_upd_local; [done|]. wp_seq. eapply queued_leak; [done|done|]. right.
    rewrite !orb_true_iff, !bool_decide_eq_true in Hbad. lia. }
  rewrite !orb_false_iff, !bool_decide_eq_false in Hbad. assert (0 ≤ o < CLUSTER_MACHINE_NUM c) as Ho by lia. clear Hbad.
  wp_seq. eapply wp_mono; [by eapply wp_find_batch|]. intros r s1 [(->&->&->)|(x&spare&->&Hf)].
  { wp_seq. eapply queued_leak; [done|done|]. by left. }
  destruct Hf as (W1&l1&HI1&Hl1&Hx&Hdr&Hk1&Hk2&Ht1&Hsp).
  assert (W1 !! x = Some (Pending m o)) as HW by (apply (i_pend _ _ _ _ HI1); rewrite Hl1; setoid_rewrite lookup_insert_eq; eauto).
  wp_seq. eapply wp_mono; [eapply wp_fill_batch; [exact HI1|rewrite Hl1; apply lookup_insert_eq|done|done]|].
  intros [] s2 (S2&W2&l2&HI2&Hl2&Hdr2&Hk3&Hk4&Ht2&Hbs2). eapply wp_mono; [eapply (wp_free_spare _ S2 W2 spare HI2)|].
  - intros y Hy. rewrite Hbs2; [by apply Hsp|]. intros ->. rewrite (proj2 (i_loose _ _ _ _ HI1) x) in HW; [done|]. rewrite Hy. by left.
  - intros [] s3 (HI3&Hl3&Hk5&Hk6&Ht3). exists S2, W2, l2. split_and!; try done; try congruence.
    + by rewrite Hl3, Hl2, Hl1, insert_insert_eq.
    + by rewrite Ht3, Ht2, Ht1.
    + left. congruence.
Qed.

(** ** Draining *)

Lemma inv_logs s S W L ks ls :
  inv s S W L → inv (Cluster (batches s) (heads s) (locals s) ks ls) S W L.
Proof. intros []. by split. Qed.

Lemma wp_drain_pages ps s S W L m l :
  inv s S W L → locals s !! m = Some l → (∀ pa, pa ∈ ps → get_paddr_machine_id c pa = m) →
  wp (drain_pages c m ps) (λ _ s', ∃ l', inv s' S W L ∧ locals s' = <[m := l']> (locals s) ∧
    rpf_draining l' = rpf_draining l ∧ rpf_pending l' = rpf_pending l ∧ batches s' = batches s ∧
    kfreed s' = rev ((m,.) <$> ps) ++ kfreed s ∧ leaked s' = leaked s) s.
Proof.
  revert s l. induction ps as [|pa ps IH]; intros s l HI Hl Hps; cbn [drain_pages].
  { wp_seq. exists l. by rewrite insert_id. }
  wp_seq. rewrite bool_decide_eq_true_2 by (apply Hps; set_solver). cbn [negb]. unfold kfree_page. wp_seq.
  eapply wp_upd_local; [done|]. eapply wp_mono; [eapply IH|].
  - eapply inv_local_stats; [by apply inv_logs|done|done|done|done].
  - apply lookup_insert_eq.
  - intros p Hp. apply Hps. set_solver.
  - intros [] s' (l'&HI'&Hl'&Hd'&Hp'&Hb'&Hk'&Hlk'). exists l'. simpl in *. split_and!; try done.
    + by rewrite Hl', insert_insert_eq.
    + by rewrite Hk', <-(assoc (++)).
Qed.

Lemma wp_drain_batches fuel s S W m lo x l :
  inv s S W l → locals s !! m = Some lo → chain (batches s) x l →
  (∀ y, y ∈ l → ∃ b, batches s !! y = Some b ∧ batch_ok m b) → (length l < fuel)%nat →
  wp (drain_batches c fuel m x) (λ _ s', ∃ lo' ps, inv s' S W [] ∧ locals s' = <[m := lo']> (locals s) ∧
    rpf_draining lo' = rpf_draining lo ∧ rpf_pending lo' = rpf_pending lo ∧
    kfreed s' = ps ++ kfreed s ∧ leaked s' = leaked s ∧ total s' ≡ₚ total s ∧
    (∀ k pa, (k, pa) ∈ ps → k = m ∧ get_paddr_machine_id c pa = m) ∧
    (∀ y b pa, y ∈ l → batches s !! y = Some b → pa ∈ pas b → (m, pa) ∈ ps)) s.
Proof.
  revert s lo x l. induction fuel as [|fuel IH]; intros s lo x l HI Hlo Hc Hok Hf; [lia|]. cbn [drain_batches].
  destruct l as [|y l]; simpl in Hc.
  { rewrite Hc, bool_decide_eq_true_2 by done. wp_seq. exists lo, []. rewrite insert_id by done. split_and!; try done.
    - by intros k pa ?%elem_of_nil.
    - by intros y b pa ?%elem_of_nil. }
  destruct Hc as [-> (b&Hb&Hc)]. destruct (Hok y ltac:(by left)) as (b'&Hb'&Hko). assert (b' = b) as -> by congruence.
  destruct (i_enc _ _ _ _ HI y ltac:(eauto)) as (_&_&Hy). rewrite bool_decide_eq_false_2 by lia. wp_seq.
  eapply wp_get_batch; [done|]. wp_seq. destruct Hko as [_ Hcnt Hpg]. rewrite Hcnt, Nat2Z.id, firstn_all.
  eapply wp_mono; [by eapply wp_drain_pages|]. intros [] s1 (l1&HI1&Hl1&Hd1&Hp1&Hb1&Hk1&Hlk1). unfold kfree_batch. wp_seq.
  pose proof (proj1 (i_loose _ _ _ _ HI)) as [Hyl Hnd]%NoDup_cons.
  eapply wp_mono; [apply (IH (set_batches (delete y (batches s1)) s1) l1 (next b) l)|].
  - by apply inv_kfree.
  - simpl. rewrite Hl1. apply lookup_insert_eq.
  - simpl. rewrite Hb1. by apply chain_delete.
  - intros z Hz. simpl. rewrite Hb1, lookup_delete_ne by (intros ->; done). apply Hok. by right.
  - simpl in Hf. lia.
  - intros [] s2 (lo'&ps&HI2&Hl2&Hd2&Hp2&Hk2&Hlk2&Ht2&Hown&Hall). simpl in *. exists lo', (ps ++ rev ((m,.) <$> pas b)).
    split_and!; try done; try congruence.
    + by rewrite Hl2, Hl1, insert_insert_eq.
    + by rewrite Hk2, Hk1, <-(assoc (++)).
    + rewrite Ht2. unfold total. simpl. rewrite Hb1, Hk1, Hlk1, (flight_delete _ y b Hb), fmap_app.
      assert ((rev ((m,.) <$> pas b)).*2 ≡ₚ pas b) as ->.
      { rewrite <-Permutation_rev, <-list_fmap_compose.
        assert (snd ∘ (m,.) = @id Z) as -> by done. by rewrite list_fmap_id. }
      rewrite !(assoc (++)). do 2 f_equiv. apply Permutation_app_comm.
    + intros k pa Hin. apply elem_of_app in Hin as [Hin|Hin]; [by apply Hown|].
      rewrite <-Permutation_rev in Hin. apply list_elem_of_fmap in Hin as (pa'&[= -> ->]&Hin). auto.
    + intros z bz pa Hz Hbz Hpa. apply elem_of_app. apply elem_of_cons in Hz as [->|Hz].
      * right. rewrite <-Permutation_rev. apply list_elem_of_fmap. assert (bz = b) as -> by congruence. eauto.
      * left. eapply Hall; [done| |done]. by rewrite Hb1, lookup_delete_ne by (intros ->; done).
Qed.

(** The whole stack becomes loose. *)
Lemma inv_pop_all s S W m h :
  inv s S W [] →
  inv (set_heads (<[m := emptied h]> (heads s)) s) (restack S m []) (filter (λ kp, kp.2 ≠ Stacked m) W) (S m).
Proof.
  intros [Hnum Hloc Hpend Hfill Hst Hstack Hnd Hhead Hall HL Henc].
  assert (∀ x p, filter (λ kp, kp.2 ≠ Stacked m) W !! x = Some p ↔ W !! x = Some p ∧ p ≠ Stacked m) as Hflt.
  { intros x p. by rewrite map_lookup_filter_Some. }
  split; simpl; try done.
  - intros m' o x. rewrite Hflt, <-Hpend. naive_solver.
  - intros m' o x [? _]%Hflt. eauto.
  - intros o x [? _]%Hflt. eauto.
  - intros o x. rewrite Hflt, <-Hstack. unfold restack. case_decide; [subst; set_solver|]. naive_solver.
  - intros o. unfold restack. case_decide; [constructor|done].
  - intros o Ho. unfold restack. case_decide as Hom.
    + subst o. exists (emptied h). rewrite lookup_insert_eq. split; [done|]. apply rpf_decode_emptied.
    + rewrite lookup_insert_ne by done. auto.
  - intros x. rewrite Hall. split.
    + intros [[p Hp]|Hin]; [|set_solver]. destruct (decide (p = Stacked m)) as [->|]; [right; by apply Hstack|].
      left. exists p. by apply Hflt.
    + intros [[p [Hp _]%Hflt]|Hin]; [left; eauto|]. left. exists (Stacked m). by apply Hstack.
  - split; [done|]. intros x Hx%Hstack. destruct (filter _ _ !! x) eqn:E; [|done]. apply Hflt in E as [? ?]. congruence.
Qed.

Lemma stack_size s S W L o : inv s S W L → (length (S o) ≤ size (batches s))%nat.
Proof.
  intros HI. rewrite <-size_dom, <-(size_list_to_set (C := gset Z)) by apply (i_nodup _ _ _ _ HI).
  apply subseteq_size. intros x Hx%elem_of_list_to_set. apply elem_of_dom.
  apply (i_stack _ _ _ _ HI) in Hx. destruct (i_stacked _ _ _ _ HI o x Hx) as (b&?&_). eauto.
Qed.

(** What a drain by [m] has done: its stack is empty and the pages are freed. *)
Definition drained (s : cluster) (S : Z → list Z) (m : Z) (l : rpf_local) (s' : cluster) : Prop :=
  ∃ W' l' ps, inv s' (restack S m []) W' [] ∧ locals s' = <[m := l']> (locals s) ∧
    rpf_draining l' = 0 ∧ rpf_pending l' = rpf_pending l ∧
    kfreed s' = ps ++ kfreed s ∧ leaked s' = leaked s ∧ total s' ≡ₚ total s ∧
    (∀ k pa, (k, pa) ∈ ps → k = m ∧ get_paddr_machine_id c pa = m) ∧
    (∀ y b pa, y ∈ S m → batches s !! y = Some b → pa ∈ pas b → (m, pa) ∈ ps).

Lemma inv_restack_nil s S W L m : inv s S W L → S m = [] → inv s (restack S m []) W L.
Proof.
  intros [Hnum Hloc Hpend Hfill Hst Hstack Hnd Hhead Hall Hloose Henc] Hm. assert (∀ o, restack S m [] o = S o) as HS.
  { intros o. unfold restack. case_decide; congruence. }
  split; try done.
  - intros o x. by rewrite HS.
  - intros o. by rewrite HS.
  - intros o Ho. destruct (Hhead o Ho) as (h&?&?). exists h. by rewrite HS.
Qed.

Lemma wp_drain s S W m l :
  inv s S W [] → locals s !! m = Some l → rpf_draining l = 0 →
  wp (drain_remote_page_free c m) (λ _, drained s S m l) s.
Proof.
  intros HI Hl Hdr. destruct (i_local _ _ _ _ HI m l Hl) as (Hm&Hready&_). pose proof (i_num _ _ _ _ HI) as Hnum.
  destruct (i_head _ _ _ _ HI m ltac:(lia)) as (h&Hh&Hc). unfold drain_remote_page_free, get_head. wp_seq.
  eapply wp_get_local; [done|]. rewrite Hready. cbn [negb]. wp_seq. eapply wp_from_opt; [done|]. case_bool_decide as Hoff.
  { wp_seq. assert (S m = []) as HSm.
    { destruct (S m) as [|x q] eqn:E; [done|]. destruct Hc as [Hx _]. exfalso. eapply decode_off; [exact Hx| |exact Hoff].
      assert (W !! x = Some (Stacked m)) as HW by (apply (i_stack _ _ _ _ HI); rewrite E; by left).
      destruct (i_stacked _ _ _ _ HI m x HW) as (b&Hb&_). destruct (i_enc _ _ _ _ HI x ltac:(eauto)) as (_&_&?). lia. }
    exists W, l, []. rewrite insert_id by done. split_and!; try done; [by apply inv_restack_nil| |].
    - by intros k pa ?%elem_of_nil.
    - rewrite HSm. by intros y b pa ?%elem_of_nil. }
  rewrite bool_decide_eq_true_2 by done. cbn [negb]. wp_seq. eapply wp_upd_local; [done|].
  unfold rpf_pop_all, get_head, set_head. wp_seq. eapply wp_from_opt; [exact Hh|]. rewrite bool_decide_eq_false_2 by done. wp_seq.
  set (l1 := set_draining 1 l). set (s1 := set_heads _ _). cbv zeta.
  assert (inv (set_locals (<[m := l1]> (locals s)) s) S W []) as HI0 by (by eapply inv_local_stats).
  pose proof (inv_pop_all _ S W m h HI0) as HI1. simpl in HI1. fold s1 in HI1.
  eapply wp_mono; [apply (wp_drain_batches _ s1 (restack S m []) _ m l1 (rpf_decode c h) (S m) HI1)|].
  - apply lookup_insert_eq.
  - exact Hc.
  - intros y Hy%(i_stack _ _ _ _ HI). by apply (i_stacked _ _ _ _ HI).
  - pose proof (stack_size _ _ _ _ m HI0). simpl in *. lia.
  - intros [] s2 (lo'&ps&HI2&Hl2&Hd2&Hp2&Hk2&Hlk2&Ht2&Hown&Hall). simpl in Hl2. rewrite insert_insert_eq in Hl2. wp_seq.
    eapply wp_upd_local; [rewrite Hl2; apply lookup_insert_eq|]. wp_seq.
    eapply wp_get_local; [simpl; apply lookup_insert_eq|]. wp_seq. eexists _, _, ps. split_and!.
    + eapply inv_local_stats; [exact HI2|rewrite Hl2; apply lookup_insert_eq|done|done|done].
    + simpl. by rewrite Hl2, insert_insert_eq.
    + done.
    + simpl. by rewrite Hp2.
    + done.
    + done.
    + exact Ht2.
    + done.
    + done.
Qed.

(** ** Between operations *)

Definition good (s : cluster) : Prop :=
  (∃ S W, inv s S W []) ∧ (∀ m l, locals s !! m = Some l → rpf_draining l = 0) ∧
  ∀ m pa, (m, pa) ∈ kfreed s → get_paddr_machine_id c pa = m ∨ get_paddr_machine_id c pa = MACHINE_ID_SHARED_MEMORY.

Lemma good_intro s S W m l' ls :
  inv s S W [] → locals s = <[m := l']> ls → rpf_draining l' = 0 → (∀ k l, ls !! k = Some l → rpf_draining l = 0) →
  (∀ m pa, (m, pa) ∈ kfreed s → get_paddr_machine_id c pa = m ∨ get_paddr_machine_id c pa = MACHINE_ID_SHARED_MEMORY) → good s.
Proof.
  intros HI Hl Hd Hls Hk. split_and!; [eauto| |done]. intros k l. rewrite Hl.
  intros [[_ <-]|[_ ?]]%lookup_insert_Some; eauto.
Qed.

Lemma good_free s m pa looks a :
  good s → is_Some (locals s !! m) → fresh s a →
  wp (free_machine_page c m pa looks a) (λ _ s', good s' ∧ total s' ≡ₚ pa :: total s ∧
    (leaked s' = leaked s ∨ (leaked s' = pa :: leaked s ∧
       (a = None ∨ ¬ (0 ≤ get_paddr_machine_id c pa < CLUSTER_MACHINE_NUM c))))) s.
Proof.
  intros ((S&W&HI)&Hd&Hk) [l Hl] Ha. unfold free_machine_page. destruct (_ && _) eqn:Hrem.
  - apply andb_true_iff in Hrem as [Hr1%negb_true_iff Hr2%negb_true_iff]. rewrite bool_decide_eq_false in Hr1, Hr2.
    eapply wp_mono; [by eapply wp_remote_page_free|]. intros [] s' (S'&W'&l'&HI'&Hl'&Hdr&Hk'&Ht'&Hlk). split_and!; [|done|].
    + eapply good_intro; [done|done|rewrite Hdr; eauto|eauto|]. by rewrite Hk'.
    + destruct Hlk as [?|[Hlost ?]]; [by left|right]. split; [done|]. tauto.
  - apply andb_false_iff in Hrem. rewrite !negb_false_iff, !bool_decide_eq_true in Hrem. unfold kfree_page. wp_seq.
    split_and!; [| |by left].
    + split_and!; [exists S, W; by apply inv_logs|done|]. simpl. intros k p [[= -> ->]|?]%elem_of_cons; [tauto|auto].
    + unfold total. simpl. by rewrite <-Permutation_middle.
Qed.

Lemma good_flush s m :
  good s → is_Some (locals s !! m) →
  wp (remote_page_free_flush c m) (λ _ s', good s' ∧ total s' ≡ₚ total s ∧ leaked s' = leaked s ∧ kfreed s' = kfreed s) s.
Proof.
  intros ((S&W&HI)&Hd&Hk) [l Hl]. eapply wp_mono; [by eapply wp_flush|].
  intros [] s' (S'&W'&l'&HI'&Hl'&_&Hdr&_&_&Hk'&Hlk&Ht&_). split_and!; try done.
  eapply good_intro; [done|done|rewrite Hdr; eauto|eauto|]. by rewrite Hk'.
Qed.

(** The pages that an operation of machine [m] gave to its page allocator. *)
Definition gave (m : Z) (s s' : cluster) : Prop :=
  ∃ ps, kfreed s' = ps ++ kfreed s ∧ ∀ k pa, (k, pa) ∈ ps → k = m ∧ get_paddr_machine_id c pa = m.

Lemma gave_none m s s' : kfreed s' = kfreed s → gave m s s'.
Proof. intros Hk. exists []. split; [done|]. by intros k pa ?%elem_of_nil. Qed.

Lemma gave_same m s1 s2 s3 : kfreed s2 = kfreed s1 → gave m s2 s3 → gave m s1 s3.
Proof. intros E (ps&Hk&?). exists ps. by rewrite Hk, E. Qed.

Lemma good_drain s m :
  good s → is_Some (locals s !! m) →
  wp (drain_remote_page_free c m) (λ _ s', good s' ∧ total s' ≡ₚ total s ∧ leaked s' = leaked s ∧
    is_Some (locals s' !! m) ∧ gave m s s') s.
Proof.
  intros ((S&W&HI)&Hd&Hk) [l Hl]. eapply wp_mono; [by eapply wp_drain; eauto|].
  intros r s' (W'&l'&ps&HI'&Hl'&Hdr&_&Hk'&Hlk&Ht&Hown&_). split_and!; try done.
  - eapply good_intro; [done|done|done|eauto|]. rewrite Hk'. intros k pa Hin.
    apply elem_of_app in Hin as [Hin|?]; [|auto]. destruct (Hown k pa Hin) as [-> ?]. by left.
  - rewrite Hl'. eexists. apply lookup_insert_eq.
  - by exists ps.
Qed.

Lemma good_poll s m :
  good s → is_Some (locals s !! m) →
  wp (remote_page_free_poll c m) (λ _ s', good s' ∧ total s' ≡ₚ total s ∧ leaked s' = leaked s ∧
    is_Some (locals s' !! m) ∧ gave m s s') s.
Proof.
  intros ((S&W&HI)&Hd&Hk) [l Hl]. unfold remote_page_free_poll. wp_seq. eapply wp_upd_local; [done|]. wp_seq.
  eapply wp_get_local; [apply lookup_insert_eq|].
  assert (∀ x l1 s1, locals s1 !! m = Some l1 → good s1 → good (set_locals (<[m := set_ticks x l1]> (locals s1)) s1)) as Htick.
  { intros x l1 s1 Hl1 ((S1&W1&HI1)&Hd1&Hk1). eapply (good_intro _ S1 W1 m); [|done| |done|done]; [by eapply inv_local_stats|].
    simpl. eauto. }
  assert (good (set_locals (<[m := set_ticks (rpf_alloc_ticks l + 1) l]> (locals s)) s)) as Hg1.
  { apply Htick; [done|]. split_and!; eauto. }
  case_bool_decide; [wp_seq; split_and!; try done; [eexists; apply lookup_insert_eq|by apply gave_none]|].
  wp_seq. eapply wp_upd_local; [apply lookup_insert_eq|].
  pose proof (Htick 0 _ _ (lookup_insert_eq _ _ _) Hg1) as Hg2. set (s2 := set_locals _ (set_locals _ s)) in *.
  assert (is_Some (locals s2 !! m)) as Hs2 by (eexists; apply lookup_insert_eq).
  destruct (negb _); [by wp_seq; split_and!; try done; apply gave_none|]. wp_seq.
  assert (∀ s3, good s3 → is_Some (locals s3 !! m) → total s3 ≡ₚ total s → leaked s3 = leaked s → kfreed s3 = kfreed s →
    wp (drain_remote_page_free c m) (λ a s', wp (mret tt) (λ _ s'', good s'' ∧ total s'' ≡ₚ total s ∧ leaked s'' = leaked s ∧
      is_Some (locals s'' !! m) ∧ gave m s s'') s') s3) as Hdrain.
  { intros s3 Hg3 Hs3 Ht3 Hlk3 Hk3. eapply wp_mono; [by apply good_drain|]. intros r s4 (?&Ht4&?&?&?). wp_seq.
    split_and!; [done|by rewrite Ht4|congruence|done|by eapply gave_same]. }
  cbn [rpf_has_pending set_ticks]. destruct (rpf_has_pending l); cbn [when]; [|wp_seq; by apply Hdrain].
  pose proof Hg2 as ((S2&W2&HI2)&Hd2&Hk2). destruct Hs2 as [l2 Hl2].
  eapply wp_mono; [by eapply wp_flush|]. intros [] s3 (S3&W3&l3&HI3&Hl3&_&Hdr3&_&_&Hk3&Hlk3&Ht3&_).
  wp_seq. apply Hdrain; [|rewrite Hl3; eexists; apply lookup_insert_eq|by rewrite Ht3|done|done].
  eapply good_intro; [done|done|rewrite Hdr3; eauto|eauto|]. by rewrite Hk3.
Qed.
End inv.
