(* ===== verification/RemoteFreeTheorems.v ===== *)
(** What the remote page release guarantees: over any sequence of operations of the
    machines each page given to it is freed once, by its owner, or is still on its
    way; and a flush followed by a drain brings a page home. *)
From S2P Require Import Prelude Words RemoteFree RemoteFreeProofs.

Section steps.
Context (c : rpf_config).

(** One operation of a machine; the list collects the pages given to
    [free_machine_page]. *)
Inductive rpf_step : list Z * cluster → list Z * cluster → Prop :=
  | Step_free g s m pa looks a s' :
      is_Some (locals s !! m) → fresh c s a → free_machine_page c m pa looks a s = Ret (tt, s') →
      rpf_step (g, s) (pa :: g, s')
  | Step_flush g s m s' :
      is_Some (locals s !! m) → remote_page_free_flush c m s = Ret (tt, s') → rpf_step (g, s) (g, s')
  | Step_drain g s m r s' :
      is_Some (locals s !! m) → drain_remote_page_free c m s = Ret (r, s') → rpf_step (g, s) (g, s')
  | Step_poll g s m s' :
      is_Some (locals s !! m) → remote_page_free_poll c m s = Ret (tt, s') → rpf_step (g, s) (g, s').

Lemma wp_Ret {A} (m : M cluster A) Q s a s' : wp m Q s → m s = Ret (a, s') → Q a s'.
Proof. unfold wp. by intros H Hr; rewrite Hr in H. Qed.

Lemma steps_good g s g' s' :
  rtc rpf_step (g, s) (g', s') → good c s → g ≡ₚ total s → good c s' ∧ g' ≡ₚ total s'.
Proof.
  intros H. remember (g, s) as x eqn:Hx. remember (g', s') as y eqn:Hy. revert g s Hx.
  induction H as [z|x1 [g1 s1] z Hstep _ IH]; intros g s ->; [by simplify_eq|]. intros Hg Ht.
  apply (IH Hy g1 s1 eq_refl); inversion Hstep as [? ? m pa looks a ? Hm Ha Hr|? ? m ? Hm Hr|? ? m r ? Hm Hr|? ? m ? Hm Hr]; subst.
  - by destruct (wp_Ret _ _ _ _ _ (good_free c s m pa looks a Hg Hm Ha) Hr).
  - by destruct (wp_Ret _ _ _ _ _ (good_flush c s m Hg Hm) Hr).
  - by destruct (wp_Ret _ _ _ _ _ (good_drain c s m Hg Hm) Hr).
  - by destruct (wp_Ret _ _ _ _ _ (good_poll c s m Hg Hm) Hr).
  - destruct (wp_Ret _ _ _ _ _ (good_free c s m pa looks a Hg Hm Ha) Hr) as (_&Ht'&_). by rewrite Ht', Ht.
  - destruct (wp_Ret _ _ _ _ _ (good_flush c s m Hg Hm) Hr) as (_&Ht'&_). by rewrite Ht', Ht.
  - destruct (wp_Ret _ _ _ _ _ (good_drain c s m Hg Hm) Hr) as (_&Ht'&_). by rewrite Ht', Ht.
  - destruct (wp_Ret _ _ _ _ _ (good_poll c s m Hg Hm) Hr) as (_&Ht'&_). by rewrite Ht', Ht.
Qed.

(** ** Boot *)

Definition machines : list Z := seqZ 0 (CLUSTER_MACHINE_NUM c).

(** The machines boot with stale stacks [h] and no batch allocated. *)
Definition cold (h : gmap Z Z) : cluster :=
  Cluster ∅ h (list_to_map ((λ m, (m, Local ∅ false 0 false 0 0 0 0)) <$> machines)) [] [].
Fixpoint boot (ms : list Z) : M cluster unit :=
  match ms with [] => mret tt | m :: ms' => remote_page_free_init m;; boot ms' end.

Definition booting (s : cluster) (done : Z) : Prop :=
  batches s = ∅ ∧ kfreed s = [] ∧ leaked s = [] ∧
  (∀ m, is_Some (locals s !! m) ↔ 0 ≤ m < CLUSTER_MACHINE_NUM c) ∧
  (∀ m l, locals s !! m = Some l → rpf_pending l = ∅ ∧ rpf_draining l = 0 ∧ (m < done → rpf_ready l = true)) ∧
  (∀ o, 0 ≤ o < CLUSTER_MACHINE_NUM c → ∃ h, heads s !! o = Some h ∧ (o < done → rpf_decode c h = 0)).

Lemma wp_boot n s done :
  0 ≤ done → done + Z.of_nat n = CLUSTER_MACHINE_NUM c → booting s done →
  wp (boot (seqZ done (Z.of_nat n))) (λ _ s', booting s' (CLUSTER_MACHINE_NUM c)) s.
Proof.
  revert s done. induction n as [|n IH]; intros s done H0 Hn HB.
  { simpl. wp_seq. by replace (CLUSTER_MACHINE_NUM c) with done by lia. }
  rewrite seqZ_cons by lia. cbn [boot]. destruct HB as (Hb&Hk&Hlk&Hm&Hl&Hh).
  destruct (proj2 (Hm done) ltac:(lia)) as [l Hdone]. destruct (Hh done ltac:(lia)) as (h&Hhd&_).
  unfold remote_page_free_init, rpf_discard_all, get_head, set_head. wp_seq. eapply wp_from_opt; [done|]. wp_seq.
  eapply wp_upd_local; [exact Hdone|]. replace (Z.pred (Z.of_nat (S n))) with (Z.of_nat n) by lia.
  apply IH; [lia|lia|]. unfold booting. simpl. split_and!; try done.
  - intros m. rewrite <-Hm. destruct (decide (m = done)) as [->|]; [rewrite lookup_insert_eq, Hdone; split; eauto|by rewrite lookup_insert_ne].
  - intros m l' [[<- <-]|[Hne Hl']]%lookup_insert_Some; [by destruct (Hl done l Hdone) as (?&?&_)|].
    destruct (Hl m l' Hl') as (?&?&Hrd). split_and!; try done. intros. apply Hrd. lia.
  - intros o Ho. destruct (decide (o = done)) as [->|].
    + rewrite lookup_insert_eq. eexists. split; [done|]. intros _. apply rpf_decode_emptied.
    + rewrite lookup_insert_ne by done. destruct (Hh o Ho) as (h'&?&Hdec). exists h'. split; [done|]. intros. apply Hdec. lia.
Qed.

Lemma booted_good s :
  CLUSTER_MACHINE_NUM c ≤ CLUSTER_MAX_MACHINE_NUM → booting s (CLUSTER_MACHINE_NUM c) → good c s ∧ total s = [].
Proof.
  intros Hnum (Hb&Hk&Hlk&Hm&Hl&Hh). split; [|unfold total; by rewrite Hb, Hk, Hlk].
  split_and!; [|intros m l Hml; by destruct (Hl m l Hml) as (_&?&_)|rewrite Hk; by intros m pa ?%elem_of_nil].
  exists (λ _, []), ∅. split; try done.
  - intros m l Hml. assert (0 ≤ m < CLUSTER_MACHINE_NUM c) as Hr by (apply Hm; eauto).
    destruct (Hl m l Hml) as (Hp&_&Hrd). split_and!; [lia|lia|apply Hrd; lia|]. rewrite Hp. by intros o x ?.
  - intros m o x. rewrite lookup_empty. split; [|done]. intros (l&Hml&Hx). destruct (Hl m l Hml) as (Hp&_). by rewrite Hp in Hx.
  - intros o x. rewrite lookup_empty. split; [by intros ?%elem_of_nil|done].
  - intros o. constructor.
  - intros o Ho. destruct (Hh o Ho) as (h&?&Hd). exists h. split; [done|]. simpl. apply Hd. lia.
  - intros x. rewrite Hb, !lookup_empty. split; [by intros [? ?]|by intros [[? ?]|?%elem_of_nil]].
  - split; [constructor|]. by intros x ?%elem_of_nil.
  - intros x. rewrite Hb, lookup_empty. by intros [? ?].
Qed.

Lemma cold_booting h : (∀ o, 0 ≤ o < CLUSTER_MACHINE_NUM c → is_Some (h !! o)) → booting (cold h) 0.
Proof.
  intros Hh. assert (∀ m l, locals (cold h) !! m = Some l ↔ 0 ≤ m < CLUSTER_MACHINE_NUM c ∧ l = Local ∅ false 0 false 0 0 0 0) as Hlk.
  { intros m l. unfold cold. cbn [locals]. rewrite <-elem_of_list_to_map.
    - rewrite list_elem_of_fmap. setoid_rewrite elem_of_seqZ. split; [intros (j&[= -> ->]&?); split; [lia|done]|].
      intros [? ->]. exists m. split; [done|lia].
    - rewrite <-list_fmap_compose. assert (fst ∘ (λ m : Z, (m, Local ∅ false 0 false 0 0 0 0)) = id) as -> by done.
      rewrite list_fmap_id. apply NoDup_seqZ. }
  unfold booting. split_and!; try done.
  - intros m. split; [intros [l [Hr _]%Hlk]; done|]. intros Hr. eexists. by apply Hlk.
  - intros m l [Hr ->]%Hlk. split_and!; [done|done|]. lia.
  - intros o Ho. destruct (Hh o Ho) as [x Hx]. exists x. split; [done|]. lia.
Qed.
End steps.

(** C16: after the machines have booted, with whatever their stacks in shared memory held,
    and whatever operations they then run in whatever order (with stale unlocked reads and
    allocation failures), each page given to [free_machine_page] is in exactly one of three
    places: in a batch that a machine fills or has pushed, given to the page allocator, once, by
    the machine that owns it (or by the caller, if it is shared memory), or counted as lost; and no
    operation reaches a [BUG], a bad access or an endless loop. *)
Theorem remote_free_exactly_once c h :
  CLUSTER_MACHINE_NUM c ≤ CLUSTER_MAX_MACHINE_NUM → (∀ o, 0 ≤ o < CLUSTER_MACHINE_NUM c → is_Some (h !! o)) →
  wp (boot (machines c)) (λ _ s0, ∀ g s, rtc (rpf_step c) ([], s0) (g, s) →
    g ≡ₚ flight (batches s) ++ (kfreed s).*2 ++ leaked s ∧
    (∀ m pa, (m, pa) ∈ kfreed s →
       get_paddr_machine_id c pa = m ∨ get_paddr_machine_id c pa = MACHINE_ID_SHARED_MEMORY) ∧
    ∀ m, is_Some (locals s !! m) →
      (∀ pa looks a, fresh c s a → ∃ s', free_machine_page c m pa looks a s = Ret (tt, s')) ∧
      (∃ s', remote_page_free_flush c m s = Ret (tt, s')) ∧
      (∃ r s', drain_remote_page_free c m s = Ret (r, s')) ∧
      (∃ s', remote_page_free_poll c m s = Ret (tt, s'))) (cold c h).
Proof.
  intros Hnum Hh. unfold machines. rewrite <-(Z2Nat.id (CLUSTER_MACHINE_NUM c)) by (unfold CLUSTER_MACHINE_NUM; lia).
  eapply wp_mono; [apply (wp_boot c); [lia|unfold CLUSTER_MACHINE_NUM; lia|by apply cold_booting]|].
  intros [] s0 HB g s Hsteps. destruct (booted_good c s0 Hnum HB) as [Hg0 Ht0].
  destruct (steps_good c [] s0 g s Hsteps Hg0) as [Hg Ht]; [by rewrite Ht0|]. split_and!; [done|apply Hg|].
  intros m Hm. split_and!.
  - intros pa looks a Ha. destruct (wp_inv _ _ _ (good_free c s m pa looks a Hg Hm Ha)) as ([]&s'&?&_). eauto.
  - destruct (wp_inv _ _ _ (good_flush c s m Hg Hm)) as ([]&s'&?&_). eauto.
  - destruct (wp_inv _ _ _ (good_drain c s m Hg Hm)) as (r&s'&?&_). eauto.
  - destruct (wp_inv _ _ _ (good_poll c s m Hg Hm)) as ([]&s'&?&_). eauto.
Qed.

(** Two machines with 4 GiB each and shared memory above. *)
Definition two_machines : rpf_config :=
  RpfConfig (2 ^ 46) (2 ^ 36, 2 ^ 36) [(2 ^ 32, 2 ^ 32); (2 ^ 33, 2 ^ 32)].

Lemma remote_free_exactly_once_witness :
  wp (boot (machines two_machines)) (λ _ s0, ∀ g s, rtc (rpf_step two_machines) ([], s0) (g, s) →
    g ≡ₚ flight (batches s) ++ (kfreed s).*2 ++ leaked s) (cold two_machines {[0 := 5; 1 := 2 ^ 50]}).
Proof.
  eapply wp_mono; [apply (remote_free_exactly_once two_machines {[0 := 5; 1 := 2 ^ 50]})|].
  - vm_compute. discriminate.
  - intros o Ho. change (CLUSTER_MACHINE_NUM two_machines) with 2 in Ho.
    assert (o = 0 ∨ o = 1) as [-> | ->] by lia; by eexists.
  - intros [] s0 H g s Hs. by destruct (H g s Hs).
Defined.

(** C36: a page that waits in a batch which machine [m] fills for owner [o] is freed by [o] when
    [m] flushes its batches and [o] then drains its stack. *)
Theorem remote_free_delivers c s m l o x b pa :
  good c s → locals s !! m = Some l → is_Some (locals s !! o) →
  rpf_pending l !! o = Some x → batches s !! x = Some b → pa ∈ pas b →
  wp (remote_page_free_flush c m;; drain_remote_page_free c o) (λ _ s',
    good c s' ∧ total s' ≡ₚ total s ∧ (o, pa) ∈ kfreed s') s.
Proof.
  intros ((S&W&HI)&Hd&Hk) Hl Ho Hx Hb Hpa. wp_seq. eapply wp_mono; [by eapply wp_flush|].
  intros [] s1 (S'&W'&l'&HI1&Hl1&_&Hdr&_&Hpush&Hk1&Hlk1&Ht1&Hsp).
  assert (good c s1) as Hg1. { eapply good_intro; [done|done|rewrite Hdr; eauto|eauto|]. by rewrite Hk1. }
  assert (is_Some (locals s1 !! o)) as [lo Hlo].
  { rewrite Hl1. destruct (decide (o = m)) as [->|]; [rewrite lookup_insert_eq; eauto|by rewrite lookup_insert_ne]. }
  destruct (Hsp x b Hb) as (b'&Hb'&Hpas).
  eapply wp_mono; [eapply wp_drain; [done|done|]; by destruct Hg1 as (_&?&_); eauto|].
  intros r s2 (W2&l2&ps&HI2&Hl2&Hdr2&_&Hk2&Hlk2&Ht2&Hown&Hall). split_and!.
  - eapply good_intro; [done|done|done|destruct Hg1 as (_&?&_); eauto|]. rewrite Hk2. intros k p Hin.
    apply elem_of_app in Hin as [Hin|?]; [destruct (Hown k p Hin) as [-> ?]; by left|]. destruct Hg1 as (_&_&?). auto.
  - by rewrite Ht2, Ht1.
  - rewrite Hk2. apply elem_of_app. left. eapply Hall; [by apply Hpush|done|by rewrite Hpas].
Qed.

(** Machine 0 gives back a page of machine 1. *)
Definition page_of_1 : Z := 2 ^ 33 + 4096.
Definition batch_addr : Z := 2 ^ 46 + 2048.
Definition one_queued : outcome (unit * cluster) :=
  (boot (machines two_machines);; free_machine_page two_machines 0 page_of_1 [] (Some batch_addr))
    (cold two_machines {[0 := 5; 1 := 2 ^ 50]}).

Lemma one_queued_good : ∃ s, one_queued = Ret (tt, s) ∧ good two_machines s.
Proof.
  assert (booting two_machines (cold two_machines {[0 := 5; 1 := 2 ^ 50]}) 0) as HB.
  { apply cold_booting. intros o Ho. change (CLUSTER_MACHINE_NUM two_machines) with 2 in Ho.
    assert (o = 0 ∨ o = 1) as [-> | ->] by lia; by eexists. }
  pose proof (wp_boot two_machines 2 _ 0 ltac:(lia) eq_refl HB) as Hboot.
  destruct (wp_inv _ _ _ Hboot) as ([]&s0&Hs0&HB0).
  destruct (booted_good two_machines s0 ltac:(vm_compute; discriminate) HB0) as [Hg0 _].
  assert (wp (free_machine_page two_machines 0 page_of_1 [] (Some batch_addr)) (λ _ s, good two_machines s) s0) as Hfree.
  { eapply wp_mono; [apply good_free; [done| |]|by intros [] s (?&_)].
    - destruct HB0 as (_&_&_&Hm&_). apply Hm. change (CLUSTER_MACHINE_NUM two_machines) with 2. lia.
    - intros y [= <-]. destruct HB0 as (Hb&_). rewrite Hb. split; [done|]. vm_compute. split_and!; congruence. }
  destruct (wp_inv _ _ _ Hfree) as ([]&s&Hs&Hg). exists s. split; [|done].
  unfold one_queued, mbind, M_bind. change (machines two_machines) with (seqZ 0 (Z.of_nat 2)). by rewrite Hs0.
Qed.

Lemma remote_free_delivers_witness :
  ∃ s, one_queued = Ret (tt, s) ∧
    wp (remote_page_free_flush two_machines 0;; drain_remote_page_free two_machines 1) (λ _ s',
      good two_machines s' ∧ total s' ≡ₚ total s ∧ (1, page_of_1) ∈ kfreed s') s.
Proof.
  destruct one_queued_good as (s&Hs&Hg). exists s. split; [exact Hs|]. vm_compute in Hs. injection Hs as <-.
  eapply remote_free_delivers; [exact Hg|vm_compute; reflexivity|vm_compute; by eexists|vm_compute; reflexivity|vm_compute; reflexivity|].
  vm_compute. by left.
Defined.
