(* ===== verification/PageTable.v ===== *)
(** Page tables ([kernel/arch/x86_64/mm/page_table.c], [arch/mm/page_table.h]).

    Four levels of tables of 512 entries.  The state holds the tables by their address in the direct map,
    as lists of entry values, and the source of their pages.  Bit fields of [pte_t] are written out as
    shifts and masks; an entry is addressed by its table and index. *)
From S2P Require Import Prelude Words Buddy RemoteFree.

(** ** The source of pages *)

(** What the page table code asks of the allocator.  0 is [NULL]. *)
Class PageSource (A : Type) := {
  (** [get_pages(0, __MT_PGTABLE__)] *)
  get_page : M A Z;
  (** [kfree] of such a page *)
  put_page : Z → M A unit
}.

(** ** Constants *)

Definition PAGE_SHIFT : Z := 12.
Definition PAGE_SIZE : Z := BUDDY_PAGE_SIZE.
Definition PAGE_ORDER : Z := 9.
Definition PTP_ENTRIES : Z := Z.shiftl 1 PAGE_ORDER.
Definition PTP_INDEX_MASK : Z := Z.shiftl 1 PAGE_ORDER - 1.
Definition L0_INDEX_SHIFT : Z := 3 * PAGE_ORDER + PAGE_SHIFT.
Definition L1_INDEX_SHIFT : Z := 2 * PAGE_ORDER + PAGE_SHIFT.
Definition L2_INDEX_SHIFT : Z := 1 * PAGE_ORDER + PAGE_SHIFT.
Definition L3_INDEX_SHIFT : Z := 0 * PAGE_ORDER + PAGE_SHIFT.

Definition GET_L0_INDEX (addr : Z) : Z := Z.land (Z.shiftr addr L0_INDEX_SHIFT) PTP_INDEX_MASK.
Definition GET_L1_INDEX (addr : Z) : Z := Z.land (Z.shiftr addr L1_INDEX_SHIFT) PTP_INDEX_MASK.
Definition GET_L2_INDEX (addr : Z) : Z := Z.land (Z.shiftr addr L2_INDEX_SHIFT) PTP_INDEX_MASK.
Definition GET_L3_INDEX (addr : Z) : Z := Z.land (Z.shiftr addr L3_INDEX_SHIFT) PTP_INDEX_MASK.

Definition L1_PER_ENTRY_PAGES : Z := Z.shiftl 1 18.
Definition L2_PER_ENTRY_PAGES : Z := Z.shiftl 1 9.
Definition L0_PER_ENTRY_PAGES : Z := PTP_ENTRIES * L1_PER_ENTRY_PAGES.

Definition GET_VA_OFFSET_L1 (va : Z) : Z := Z.land va (Z.shiftl 1 L1_INDEX_SHIFT - 1).
Definition GET_VA_OFFSET_L2 (va : Z) : Z := Z.land va (Z.shiftl 1 L2_INDEX_SHIFT - 1).
Definition GET_VA_OFFSET_L3 (va : Z) : Z := Z.land va (Z.shiftl 1 L3_INDEX_SHIFT - 1).

Definition PAGE_PRESENT : Z := Z.shiftl 1 0.
Definition PAGE_RW : Z := Z.shiftl 1 1.
Definition PAGE_USER : Z := Z.shiftl 1 2.
Definition PAGE_PCD : Z := Z.shiftl 1 4.
Definition PAGE_DIRTY : Z := Z.shiftl 1 6.
Definition PAGE_PSE : Z := Z.shiftl 1 7.
Definition PAGE_NX : Z := Z.shiftl 1 63.

Definition VMR_WRITE : Z := Z.shiftl 1 1.
Definition VMR_EXEC : Z := Z.shiftl 1 2.
Definition VMR_NOCACHE : Z := Z.shiftl 1 4.

Definition ENOMAPPING : Z := 203.
Definition EINVAL : Z := 22.

Definition PCID_MASK : Z := 0xfff.
Definition remove_pcid (pgtbl : Z) : Z := Z.land pgtbl (Z.lnot PCID_MASK).

(** ** Entries *)

(** [e & mask] as a condition *)
Definition has (e mask : Z) : bool := negb (bool_decide (Z.land e mask = 0)).

(** [table.next_table_addr] and [pte_4K.pfn]: the 36 bits from bit 12. *)
Definition pte_pfn (e : Z) : Z := Z.land (Z.shiftr e PAGE_SHIFT) (Z.ones 36).
Definition pte_set_pfn (e pfn : Z) : Z :=
  Z.lor (Z.land e (Z.lnot (Z.shiftl (Z.ones 36) PAGE_SHIFT))) (Z.shiftl (Z.land pfn (Z.ones 36)) PAGE_SHIFT).

Definition GET_PADDR_IN_PTE (e : Z) : Z := Z.shiftl (pte_pfn e) PAGE_SHIFT.
Definition GET_NEXT_PTP (e : Z) : Z := phys_to_virt (GET_PADDR_IN_PTE e).
Definition IS_PTE_INVALID (e : Z) : bool := negb (has e PAGE_PRESENT).

(** [kind] is [USER_PTE] in every call. *)
Definition set_pte_flags (e flags : Z) : Z :=
  let e := Z.lor e PAGE_USER in
  let e := if has flags VMR_WRITE then Z.lor e PAGE_RW else Z.land e (Z.lnot PAGE_RW) in
  let e := if has flags VMR_EXEC then Z.land e (Z.lnot PAGE_NX) else Z.lor e PAGE_NX in
  if has flags VMR_NOCACHE then Z.lor e PAGE_PCD else Z.land e (Z.lnot PAGE_PCD).

Definition set_pte_write_flag (e : Z) (flag : bool) : Z :=
  if flag then Z.lor e PAGE_RW else Z.land e (Z.lnot PAGE_RW).

Definition set_pte_dirty (e : Z) : Z := Z.lor e PAGE_DIRTY.
Definition clear_pte_dirty (e : Z) : Z := Z.land e (Z.lnot PAGE_DIRTY).
Definition is_pte_dirty (e : Z) : bool := has e PAGE_DIRTY.

Definition MIGRATION_ENTRY : Z := 0xcaffee.
Definition set_migration_entry (e : Z) : Z :=
  pte_set_pfn (Z.land e (Z.lnot PAGE_PRESENT)) MIGRATION_ENTRY.
Definition is_migration_entry (e : Z) : bool :=
  negb (has e PAGE_PRESENT) && bool_decide (pte_pfn e = MIGRATION_ENTRY).

Definition remap_page_in_pgtbl (e new_pa : Z) : Z := pte_set_pfn e (Z.shiftr new_pa PAGE_SHIFT).

(** [pteval = 0; pte_4K.present = 1; pte_4K.pfn = pa >> PAGE_SHIFT; set_pte_flags(...)] *)
Definition new_pte (pa flags : Z) : Z :=
  set_pte_flags (pte_set_pfn PAGE_PRESENT (Z.shiftr pa PAGE_SHIFT)) flags.

(** [table.present = table.user = table.writeable = 1; table.next_table_addr = paddr >> PAGE_SHIFT] *)
Definition table_pte (paddr : Z) : Z :=
  pte_set_pfn (Z.lor (Z.lor PAGE_PRESENT PAGE_USER) PAGE_RW) (Z.shiftr paddr PAGE_SHIFT).

(** ** State *)

Record pgmem (A : Type) := PgMem {
  src : A;
  ptps : gmap Z (list Z)
}.
Arguments PgMem {A}.
Arguments src {A} p.
Arguments ptps {A} p.

(** A table without entries *)
Definition zero_ptp : list Z := replicate (Z.to_nat PTP_ENTRIES) 0.
#[global] Arguments zero_ptp : simpl never.

(** Result of [get_next_ptp]: [-ENOMAPPING], or its return value with [*next_ptp] and [*pte]. *)
Inductive next_ptp := NoMapping | NextPtp (ret next : Z) (pte : Z * Z).
Definition NORMAL_PTP : Z := 0.
Definition BLOCK_PTP : Z := 1.

Section page_table.
Context {A : Type} `{PageSource A}.
Abbreviation MP := (M (pgmem A)).

Definition set_src (x : A) (s : pgmem A) := PgMem x (ptps s).
Definition set_ptps x (s : pgmem A) := PgMem (src s) x.
Definition on_src {B} (m : M A B) : MP B := λ s,
  match m (src s) with Ret (b, a) => Ret (b, set_src a s) | Halt w => Halt w end.

Definition read_pte (p : Z * Z) : MP Z :=
  s ← get_state; es ← from_opt (ptps s !! p.1); from_opt (es !! Z.to_nat p.2).
Definition write_pte (p : Z * Z) (v : Z) : MP unit :=
  read_pte p;;
  modify (λ s, set_ptps (alter (<[Z.to_nat p.2 := v]>) p.1 (ptps s)) s).
(** [get_pages], [BUG_ON(NULL)], [memset] *)
Definition new_ptp : MP Z :=
  p ← on_src get_page;
  bug_on (bool_decide (p = 0));;
  modify (λ s, set_ptps (<[p := zero_ptp]> (ptps s)) s);;
  mret p.

(** ** Roots *)

(** [pte_clear_user_bit] *)
Definition pte_clear_user_bit (e : Z) : Z := Z.ldiff e PAGE_USER.

(** [CHCORE_PGD i] is entry [i] of the kernel's root table, which the boot code fills. *)
Definition __arch_vmspace_init_single (CHCORE_PGD : Z → Z) (pgtbl : Z) : MP unit :=
  let share address n :=
    let index := GET_L0_INDEX address in
    bug_on (negb (bool_decide (index = n)));;
    write_pte (pgtbl, index) (CHCORE_PGD index);;
    entry_u ← read_pte (pgtbl, index);
    write_pte (pgtbl, index) (pte_clear_user_bit entry_u) in
  share KCODE 511;; share KBASE 510.

(** The roots in [vmspace->pgtbl], one for each machine; [vmspace_init] has the first loop. *)
Fixpoint alloc_roots (n : nat) : MP (list Z) :=
  match n with
  | O => mret []
  | S n' => p ← new_ptp; ps ← alloc_roots n'; mret (p :: ps)
  end.

Fixpoint arch_vmspace_init (CHCORE_PGD : Z → Z) (pcid : Z) (pgtbl : list Z) : MP (list Z) :=
  match pgtbl with
  | [] => mret []
  | p :: ps =>
      p' ← (if negb (bool_decide (p = 0))
            then __arch_vmspace_init_single CHCORE_PGD p;; mret (Z.lor p pcid) else mret p);
      ps' ← arch_vmspace_init CHCORE_PGD pcid ps;
      mret (p' :: ps')
  end.

(** The page tables of [vmspace_init]. *)
Definition vmspace_init_pgtbl (CHCORE_PGD : Z → Z) (pcid : Z) : MP (list Z) :=
  pgtbl ← alloc_roots (Z.to_nat CLUSTER_MAX_MACHINE_NUM);
  arch_vmspace_init CHCORE_PGD pcid pgtbl.

(** ** Walking *)

Definition get_next_ptp (cur_ptp level va : Z) (alloc : bool) : MP next_ptp :=
  if bool_decide (cur_ptp = 0) then mret NoMapping
  else
    index ← (match level with
             | 0 => mret (GET_L0_INDEX va)
             | 1 => mret (GET_L1_INDEX va)
             | 2 => mret (GET_L2_INDEX va)
             | 3 => mret (GET_L3_INDEX va)
             | _ => halt BugHit
             end);
    let entry := (cur_ptp, index) in
    let found :=
      e ← read_pte entry;
      mret (NextPtp (if bool_decide (level = 3) || has e PAGE_PSE then BLOCK_PTP else NORMAL_PTP) (GET_NEXT_PTP e) entry) in
    e ← read_pte entry;
    if negb (has e PAGE_PRESENT) && negb (is_migration_entry e) then
      if negb alloc then mret NoMapping
      else
        p ← new_ptp;
        new_ptp_paddr ← virt_to_phys p;
        write_pte entry (table_pte new_ptp_paddr);;
        found
    else found.

(** [int] result, [*pa] (if asked for) and [*entry] *)
Definition query_result := (Z + option Z * (Z * Z))%type.

Definition found_page (want_pa : bool) (page offset : Z) (pte : Z * Z) : MP query_result :=
  if want_pa then pa ← virt_to_phys page; mret (inr (Some (wrap_u64 (pa + offset)), pte))
  else mret (inr (None, pte)).

Definition query_in_pgtbl (want_pa : bool) (pgtbl va : Z) : MP query_result :=
  r0 ← get_next_ptp (remove_pcid pgtbl) 0 va false;
  match r0 with NoMapping => mret (inl (- ENOMAPPING)) | NextPtp _ l1_ptp _ =>
  r1 ← get_next_ptp l1_ptp 1 va false;
  match r1 with NoMapping => mret (inl (- ENOMAPPING)) | NextPtp ret l2_ptp pte =>
  if bool_decide (ret = BLOCK_PTP) then found_page want_pa l2_ptp (GET_VA_OFFSET_L1 va) pte else
  r2 ← get_next_ptp l2_ptp 2 va false;
  match r2 with NoMapping => mret (inl (- ENOMAPPING)) | NextPtp ret l3_ptp pte =>
  if bool_decide (ret = BLOCK_PTP) then found_page want_pa l3_ptp (GET_VA_OFFSET_L2 va) pte else
  r3 ← get_next_ptp l3_ptp 3 va false;
  match r3 with NoMapping => mret (inl (- ENOMAPPING)) | NextPtp _ phys_page pte =>
  found_page want_pa phys_page (GET_VA_OFFSET_L3 va) pte
  end end end end.

(** [for (int i = 0; i < CLUSTER_MACHINE_NUM; i++)] over the tables of the machines *)
Fixpoint query_in_all_pgtbls (want_pa : bool) (pgtbls : list (option Z)) (va : Z) : MP query_result :=
  match pgtbls with
  | [] => mret (inl (- ENOMAPPING))
  | None :: l => query_in_all_pgtbls want_pa l va
  | Some pgtbl :: l =>
      r ← query_in_pgtbl want_pa pgtbl va;
      match r with inr x => mret (inr x) | inl _ => query_in_all_pgtbls want_pa l va end
  end.

(** ** Mapping *)

(** The table of the last level for [va], with the tables on the way. *)
Definition alloc_l3 (l0_ptp va : Z) : MP Z :=
  r0 ← get_next_ptp l0_ptp 0 va true;
  match r0 with NoMapping => halt BugHit | NextPtp ret l1_ptp _ =>
  bug_on (negb (bool_decide (ret = 0)));;
  r1 ← get_next_ptp l1_ptp 1 va true;
  match r1 with NoMapping => halt BugHit | NextPtp ret l2_ptp _ =>
  bug_on (negb (bool_decide (ret = 0)));;
  r2 ← get_next_ptp l2_ptp 2 va true;
  match r2 with NoMapping => halt BugHit | NextPtp ret l3_ptp _ =>
  bug_on (negb (bool_decide (ret = 0)));;
  mret l3_ptp
  end end end.

(** [for (i = pte_index; i < PTP_ENTRIES; ++i)], [n] rounds left; the new [va], [pa] and [total_page_cnt]. *)
Fixpoint map_ptes (n : nat) (l3_ptp i va pa total flags : Z) : MP (Z * Z * Z) :=
  match n with
  | O => mret (va, pa, total)
  | S n' =>
      write_pte (l3_ptp, i) (new_pte pa flags);;
      let va := wrap_u64 (va + PAGE_SIZE) in
      let pa := wrap_u64 (pa + PAGE_SIZE) in
      let total := total - 1 in
      if bool_decide (total = 0) then mret (va, pa, total) else map_ptes n' l3_ptp (i + 1) va pa total flags
  end.

(** [while (total_page_cnt > 0)] *)
Fixpoint map_loop (fuel : nat) (l0_ptp va pa total flags : Z) : MP unit :=
  if bool_decide (total > 0) then
    match fuel with
    | O => halt OutOfFuel
    | S fuel' =>
        l3_ptp ← alloc_l3 l0_ptp va;
        let pte_index := GET_L3_INDEX va in
        '(va, pa, total) ← map_ptes (Z.to_nat (PTP_ENTRIES - pte_index)) l3_ptp pte_index va pa total flags;
        map_loop fuel' l0_ptp va pa total flags
    end
  else mret tt.

Definition page_cnt (len : Z) : Z := len / PAGE_SIZE + (if bool_decide (len mod PAGE_SIZE > 0) then 1 else 0).

Definition map_range_in_pgtbl (pgtbl va pa len flags : Z) : MP Z :=
  bug_on (bool_decide (pgtbl = 0));;
  bug_on (negb (bool_decide (va mod PAGE_SIZE = 0)));;
  let total_page_cnt := page_cnt len in
  map_loop (Z.to_nat total_page_cnt) (remove_pcid pgtbl) va pa total_page_cnt flags;;
  mret 0.

(** The result is [*out_pte]. *)
Definition map_page_in_pgtbl (pgtbl va pa flags : Z) : MP (Z * Z) :=
  bug_on (bool_decide (pgtbl = 0));;
  bug_on (negb (bool_decide (va mod PAGE_SIZE = 0)));;
  l3_ptp ← alloc_l3 (remove_pcid pgtbl) va;
  let pte_index := GET_L3_INDEX va in
  write_pte (l3_ptp, pte_index) (new_pte pa flags);;
  mret (l3_ptp, pte_index).

(** ** Changing a range

    [unmap_range_in_pgtbl], [mprotect_in_pgtbl] and [set_write_in_pgtbl] share the loop: where a table is missing they go on
    by [skip level va] pages, elsewhere they apply [f] to the entries. *)
Section range.
Context (skip : Z → Z → Z) (f : Z → Z).

Fixpoint walk_ptes (n : nat) (l3_ptp i va total : Z) : MP (Z * Z) :=
  match n with
  | O => mret (va, total)
  | S n' =>
      e ← read_pte (l3_ptp, i);
      write_pte (l3_ptp, i) (f e);;
      let va := wrap_u64 (va + PAGE_SIZE) in
      let total := total - 1 in
      if bool_decide (total = 0) then mret (va, total) else walk_ptes n' l3_ptp (i + 1) va total
  end.

Fixpoint walk_loop (fuel : nat) (l0_ptp va total : Z) : MP unit :=
  if bool_decide (total > 0) then
    match fuel with
    | O => halt OutOfFuel
    | S fuel' =>
        let go_on level := walk_loop fuel' l0_ptp (wrap_u64 (va + skip level va * PAGE_SIZE)) (total - skip level va) in
        r0 ← get_next_ptp l0_ptp 0 va false;
        match r0 with NoMapping => go_on 0 | NextPtp _ l1_ptp _ =>
        r1 ← get_next_ptp l1_ptp 1 va false;
        match r1 with NoMapping => go_on 1 | NextPtp _ l2_ptp _ =>
        r2 ← get_next_ptp l2_ptp 2 va false;
        match r2 with NoMapping => go_on 2 | NextPtp _ l3_ptp _ =>
        let pte_index := GET_L3_INDEX va in
        '(va, total) ← walk_ptes (Z.to_nat (PTP_ENTRIES - pte_index)) l3_ptp pte_index va total;
        walk_loop fuel' l0_ptp va total
        end end end
    end
  else mret tt.
End range.

(** [total_page_cnt -= Lk_PER_ENTRY_PAGES; va += Lk_PER_ENTRY_PAGES * PAGE_SIZE] *)
Definition skip_whole (level va : Z) : Z :=
  match level with 0 => L0_PER_ENTRY_PAGES | 1 => L1_PER_ENTRY_PAGES | _ => L2_PER_ENTRY_PAGES end.

Definition unmap_range_in_pgtbl (pgtbl va len : Z) : MP Z :=
  bug_on (bool_decide (pgtbl = 0));;
  bug_on (negb (bool_decide (va mod PAGE_SIZE = 0)));;
  let total_page_cnt := page_cnt len in
  walk_loop skip_whole (λ _, 0) (Z.to_nat total_page_cnt) (remove_pcid pgtbl) va total_page_cnt;;
  mret 0.

Definition mprotect_in_pgtbl (pgtbl va len flags : Z) : MP Z :=
  bug_on (bool_decide (pgtbl = 0));;
  bug_on (negb (bool_decide (va mod PAGE_SIZE = 0)));;
  let total_page_cnt := page_cnt len in
  walk_loop skip_whole (λ e, if has e PAGE_PRESENT then set_pte_flags e flags else e)
    (Z.to_nat total_page_cnt) (remove_pcid pgtbl) va total_page_cnt;;
  mret 0.

(** [tmp_page_cnt]: the pages up to the end of the missing entry. *)
Definition skip_rest (level va : Z) : Z :=
  match level with
  | 0 => L0_PER_ENTRY_PAGES - Z.land (Z.shiftr va PAGE_SHIFT) (Z.shiftl 1 (3 * PAGE_ORDER) - 1)
  | 1 => L1_PER_ENTRY_PAGES - GET_VA_OFFSET_L1 va / PAGE_SIZE
  | _ => L2_PER_ENTRY_PAGES - GET_VA_OFFSET_L2 va / PAGE_SIZE
  end.

(** [pgtbl] is the table of this machine. *)
Definition set_write_in_pgtbl (pgtbl va len : Z) (flag : bool) : MP Z :=
  if bool_decide (pgtbl = 0) then mret 0
  else
    bug_on (negb (bool_decide (va mod PAGE_SIZE = 0)));;
    let total_page_cnt := page_cnt len in
    walk_loop skip_rest (λ e, if has e PAGE_PRESENT then set_pte_write_flag e flag else e)
      (Z.to_nat total_page_cnt) (remove_pcid pgtbl) va total_page_cnt;;
    mret 0.

(** [get_and_clear_pte]: the compare-and-swap of a value just read. *)
Definition get_and_clear_pte (p : Z * Z) : MP Z :=
  e ← read_pte p; write_pte p 0;; mret e.

(** ** Release *)

Definition kfree_ptp (p : Z) : MP unit :=
  bug_on (negb (bool_decide (p mod PAGE_SIZE = 0)));;
  on_src (put_page p);;
  modify (λ s, set_ptps (delete p (ptps s)) s).

(** The entries of a table in turn; [body] gets the table of the next level. *)
Definition each_table (n ptp : Z) (body : Z → MP unit) : MP unit :=
  for_up (Z.to_nat n) 0 (λ i,
    e ← read_pte (ptp, i);
    if IS_PTE_INVALID e then mret tt else body (GET_NEXT_PTP e)).

Definition free_page_table (pgtbl : Z) : MP unit :=
  if bool_decide (pgtbl = 0) then mret tt
  else
    let l0_ptp := remove_pcid pgtbl in
    each_table (PTP_ENTRIES - 2) l0_ptp (λ l1_ptp,
      each_table PTP_ENTRIES l1_ptp (λ l2_ptp,
        each_table PTP_ENTRIES l2_ptp kfree_ptp;;
        kfree_ptp l2_ptp);;
      kfree_ptp l1_ptp);;
    kfree_ptp l0_ptp.

(** ** Copy *)

(** [k] levels below: [level = 3 - k]. *)
Fixpoint __pgtbl_deep_copy (k : nat) (src_ptp dst_ptp : Z) : MP unit :=
  for_up (Z.to_nat PTP_ENTRIES) 0 (λ i,
    e ← read_pte (src_ptp, i);
    if negb (has e PAGE_PRESENT) then mret tt
    else
      match k with
      | O => write_pte (dst_ptp, i) e
      | S k' =>
          if has e PAGE_PSE then write_pte (dst_ptp, i) e
          else
            p ← new_ptp;
            new_ptp_paddr ← virt_to_phys p;
            write_pte (dst_ptp, i) e;;
            d ← read_pte (dst_ptp, i);
            write_pte (dst_ptp, i) (pte_set_pfn d (Z.shiftr new_ptp_paddr PAGE_SHIFT));;
            e ← read_pte (src_ptp, i);
            __pgtbl_deep_copy k' (GET_NEXT_PTP e) p
      end).

Definition pgtbl_deep_copy (src_pgtbl dst_pgtbl : Z) : MP unit :=
  bug_on (bool_decide (src_pgtbl = 0) || bool_decide (dst_pgtbl = 0));;
  __pgtbl_deep_copy 3 (remove_pcid src_pgtbl) (remove_pcid dst_pgtbl).

(** ** Checks *)

(** [get_page_type(virt_to_page(va))] *)
Context (page_type_of : Z → M A page_type).

(** One entry of the innermost loop; the result is the new [ret]. *)
Definition check_unwritable (l3_ptp l : Z) (ret : bool) : MP bool :=
  e ← read_pte (l3_ptp, l);
  if has e PAGE_PRESENT && has e PAGE_RW then
    ty ← on_src (page_type_of (GET_NEXT_PTP e));
    match ty with DRAM_CACHED_PAGE => mret ret | _ => mret false end
  else mret ret.

Fixpoint fold_up (n : nat) (i : Z) (body : Z → bool → MP bool) (ret : bool) : MP bool :=
  match n with O => mret ret | S n' => ret ← body i ret; fold_up n' (i + 1) body ret end.

(** The offset of the page in [va], which is always 0, is left out. *)
Definition check_vmspace_unwritable (pgtbl : Z) : MP bool :=
  let level ptp (body : Z → bool → MP bool) i ret :=
    e ← read_pte (ptp, i);
    if has e PAGE_PRESENT then body (GET_NEXT_PTP e) ret else mret ret in
  fold_up (Z.to_nat (PTP_ENTRIES - 2)) 0 (level (remove_pcid pgtbl) (λ l1_ptp,
    fold_up (Z.to_nat PTP_ENTRIES) 0 (level l1_ptp (λ l2_ptp,
      fold_up (Z.to_nat PTP_ENTRIES) 0 (level l2_ptp (λ l3_ptp,
        fold_up (Z.to_nat PTP_ENTRIES) 0 (check_unwritable l3_ptp))))))) true.
End page_table.
