(* ===== verification/PageTableProofs.v ===== *)
(** The invariant of a page table and the effect of walking and changing it. *)
From S2P Require Import Prelude Words PageTable.

(** ** Entries bit by bit *)

Definition u64 (e : Z) : Prop := 0 ≤ e < 2 ^ 64.

Lemma has_bit e k : 0 ≤ k → has e (Z.shiftl 1 k) = Z.testbit e k.
Proof.
  intros Hk. unfold has. rewrite Z.shiftl_1_l. destruct (Z.testbit e k) eqn:Hb.
  - rewrite bool_decide_eq_false_2; [done|]. intros E. apply (f_equal (λ x, Z.testbit x k)) in E.
    by rewrite Z.land_spec, Hb, Z.pow2_bits_true, Z.bits_0 in E by lia.
  - rewrite bool_decide_eq_true_2; [done|]. apply Z.bits_inj'. intros n Hn.
    rewrite Z.land_spec, Z.pow2_bits_eqb, Z.bits_0 by lia. destruct (Z.eqb_spec k n) as [<-|]; [by rewrite Hb|apply andb_false_r].
Qed.

(** A value is determined by its 64 bits. *)
Lemma u64_bits e : 0 ≤ e → (∀ n, 64 ≤ n → Z.testbit e n = false) → u64 e.
Proof.
  intros H0 Hb. split; [done|]. destruct (decide (e = 0)) as [->|]; [done|].
  apply Z.log2_lt_pow2; [lia|]. destruct (decide (Z.log2 e < 64)); [done|].
  pose proof (Z.bit_log2 e ltac:(lia)). rewrite Hb in *; [done|lia].
Qed.

Lemma u64_high e n : u64 e → 64 ≤ n → Z.testbit e n = false.
Proof.
  intros [H0 H1] Hn. destruct (decide (e = 0)) as [->|]; [apply Z.bits_0|]. apply Z.bits_above_log2; [done|].
  apply (Z.lt_le_trans _ 64); [by apply Z.log2_lt_pow2; [lia|]|done].
Qed.

(** The fields of the entries. *)
Lemma mask_bit e k n : 0 ≤ k → 0 ≤ n → Z.testbit (Z.land e (Z.lnot (Z.shiftl 1 k))) n = Z.testbit e n && negb (n =? k).
Proof.
  intros Hk Hn. rewrite Z.land_spec, Z.lnot_spec, Z.shiftl_1_l, Z.pow2_bits_eqb by lia. by rewrite Z.eqb_sym.
Qed.

Lemma set_bit_at e k n : 0 ≤ k → 0 ≤ n → Z.testbit (Z.lor e (Z.shiftl 1 k)) n = Z.testbit e n || (n =? k).
Proof. intros Hk Hn. rewrite Z.lor_spec, Z.shiftl_1_l, Z.pow2_bits_eqb by lia. by rewrite Z.eqb_sym. Qed.

Lemma pte_set_pfn_bit e pfn n : 0 ≤ n →
  Z.testbit (pte_set_pfn e pfn) n = if decide (12 ≤ n < 48) then Z.testbit pfn (n - 12) else Z.testbit e n.
Proof.
  intros Hn. unfold pte_set_pfn, PAGE_SHIFT. rewrite Z.lor_spec, Z.land_spec, Z.lnot_spec, !Z.shiftl_spec, Z.land_spec by lia.
  case_decide as Hd.
  - rewrite !Z.ones_spec_low by lia. cbn [negb]. by rewrite andb_false_r, andb_true_r.
  - destruct (decide (n < 12)).
    + rewrite (Z.testbit_neg_r _ (n - 12)), (Z.testbit_neg_r pfn) by lia. simpl. by rewrite andb_true_r, orb_false_r.
    + rewrite (Z.ones_spec_high 36) by lia. simpl. by rewrite andb_true_r, andb_false_r, orb_false_r.
Qed.

Lemma pte_pfn_bit e n : 0 ≤ n → Z.testbit (pte_pfn e) n = (n <? 36) && Z.testbit e (n + 12).
Proof.
  intros Hn. unfold pte_pfn, PAGE_SHIFT. rewrite Z.land_spec, Z.shiftr_spec by lia. destruct (Z.ltb_spec n 36).
  - by rewrite Z.ones_spec_low, andb_true_r by lia.
  - by rewrite Z.ones_spec_high, andb_false_r by lia.
Qed.

Lemma pte_pfn_set e pfn : pte_pfn (pte_set_pfn e pfn) = pfn mod 2 ^ 36.
Proof.
  apply Z.bits_inj'. intros n Hn. rewrite pte_pfn_bit, pte_set_pfn_bit by lia.
  destruct (Z.ltb_spec n 36).
  - rewrite decide_True, Z.mod_pow2_bits_low by lia. simpl. f_equal. lia.
  - by rewrite Z.mod_pow2_bits_high by lia.
Qed.

Lemma pte_pfn_range e : 0 ≤ pte_pfn e < 2 ^ 36.
Proof. unfold pte_pfn. rewrite Z.land_ones by lia. by apply Z.mod_pos_bound. Qed.

Lemma pte_set_pfn_u64 e pfn : u64 e → u64 (pte_set_pfn e pfn).
Proof.
  intros He. apply u64_bits.
  - unfold pte_set_pfn. apply Z.lor_nonneg. split; [apply Z.land_nonneg; left; apply He|].
    apply Z.shiftl_nonneg, Z.land_nonneg. right. by vm_compute.
  - intros n Hn. rewrite pte_set_pfn_bit, decide_False by lia. by apply u64_high.
Qed.

Lemma u64_mask e k : 0 ≤ k → u64 e → u64 (Z.land e (Z.lnot (Z.shiftl 1 k))).
Proof.
  intros Hk He. apply u64_bits; [apply Z.land_nonneg; left; apply He|]. intros n Hn.
  rewrite mask_bit by lia. by rewrite (u64_high e).
Qed.

Lemma u64_set e k : 0 ≤ k < 64 → u64 e → u64 (Z.lor e (Z.shiftl 1 k)).
Proof.
  intros Hk He. apply u64_bits; [apply Z.lor_nonneg; split; [apply He|apply Z.shiftl_nonneg; lia]|]. intros n Hn.
  rewrite set_bit_at, (u64_high e) by (done || lia). simpl. apply Z.eqb_neq. lia.
Qed.

Lemma set_pte_flags_u64 e flags : u64 e → u64 (set_pte_flags e flags).
Proof.
  intros He. unfold set_pte_flags, PAGE_RW, PAGE_NX, PAGE_PCD, PAGE_USER.
  repeat match goal with |- context [if ?b then _ else _] => destruct b end; repeat first [apply u64_mask; [lia|]|apply u64_set; [lia|]]; done.
Qed.

Lemma set_pte_write_flag_u64 e flag : u64 e → u64 (set_pte_write_flag e flag).
Proof. intros He. unfold set_pte_write_flag, PAGE_RW. destruct flag; [by apply u64_set|by apply u64_mask]. Qed.

(** What [set_pte_flags] does to each bit. *)
Lemma set_pte_flags_bit e flags n : 0 ≤ n →
  Z.testbit (set_pte_flags e flags) n =
    if decide (n = 1) then has flags VMR_WRITE else if decide (n = 2) then true
    else if decide (n = 4) then has flags VMR_NOCACHE else if decide (n = 63) then negb (has flags VMR_EXEC) else Z.testbit e n.
Proof.
  intros Hn. unfold set_pte_flags, PAGE_RW, PAGE_NX, PAGE_PCD, PAGE_USER.
  destruct (has flags VMR_WRITE), (has flags VMR_EXEC), (has flags VMR_NOCACHE);
    repeat first [rewrite mask_bit by lia|rewrite set_bit_at by lia];
    repeat case_decide; subst; repeat (rewrite (proj2 (Z.eqb_neq n _)) by done);
    match goal with |- context [Z.testbit e ?k] => by destruct (Z.testbit e k) end.
Qed.

Lemma set_pte_flags_pfn e flags : pte_pfn (set_pte_flags e flags) = pte_pfn e.
Proof.
  apply Z.bits_inj'. intros n Hn. rewrite !pte_pfn_bit by lia. destruct (Z.ltb_spec n 36); [|done].
  rewrite set_pte_flags_bit by lia. by repeat (rewrite decide_False by lia).
Qed.

Lemma has_present e : has e PAGE_PRESENT = Z.testbit e 0.
Proof. by apply has_bit. Qed.

(** A new entry for a page. *)
Lemma new_pte_pfn pa flags : pte_pfn (new_pte pa flags) = Z.shiftr pa 12 mod 2 ^ 36.
Proof. unfold new_pte. by rewrite set_pte_flags_pfn, pte_pfn_set. Qed.

Lemma new_pte_present pa flags : has (new_pte pa flags) PAGE_PRESENT = true.
Proof.
  rewrite has_present. unfold new_pte. rewrite set_pte_flags_bit by lia. repeat (rewrite decide_False by lia).
  by rewrite pte_set_pfn_bit, decide_False by lia.
Qed.

Lemma new_pte_u64 pa flags : u64 (new_pte pa flags).
Proof. apply set_pte_flags_u64, pte_set_pfn_u64. by split. Qed.

(** A new entry for a table. *)
Lemma table_pte_bit pa n : 0 ≤ n < 12 ∨ 48 ≤ n → Z.testbit (table_pte pa) n = Z.testbit 7 n.
Proof. intros Hn. unfold table_pte. rewrite pte_set_pfn_bit, decide_False by lia. done. Qed.

Lemma set_pfn_next e a : aligned a 12 → KBASE ≤ a < KCODE → GET_NEXT_PTP (pte_set_pfn e (Z.shiftr (a - KBASE) PAGE_SHIFT)) = a.
Proof.
  intros [q Hq] Ha. unfold KBASE, KCODE in *. change (2 ^ 12) with 4096 in Hq.
  unfold GET_NEXT_PTP, GET_PADDR_IN_PTE, PAGE_SHIFT. rewrite pte_pfn_set, Z.shiftr_div_pow2, Z.shiftl_mul_pow2 by lia.
  unfold phys_to_virt, KBASE. change (2 ^ 12) with 4096. rewrite Z.mod_small.
  - rewrite wrap_u64_small; [|]; pose proof (Z.div_mod (a - 18446742974197923840) 4096 ltac:(lia));
      assert ((a - 18446742974197923840) mod 4096 = 0) by (apply Z.mod_divide; [lia|]; exists (q - 4503599358935040); lia); lia.
  - split; [apply Z.div_pos; lia|]. apply Z.div_lt_upper_bound; lia.
Qed.

(** ** Addresses *)

(** The part of page number [v] that selects the table of level [l]; level 4 are the pages. *)
Definition pre (l v : Z) : Z := v / 2 ^ (9 * (4 - l)).

Lemma pre_step l v : 0 ≤ l < 4 → pre l v = pre (l + 1) v / 512.
Proof.
  intros Hl. unfold pre. change 512 with (2 ^ 9). rewrite Z.div_div, <-Z.pow_add_r by lia. do 2 f_equal. lia.
Qed.

Lemma pre_split l v : 0 ≤ l < 4 → pre (l + 1) v = pre l v * 512 + pre (l + 1) v mod 512.
Proof. intros Hl. rewrite (pre_step l v) by done. pose proof (Z.div_mod (pre (l + 1) v) 512 ltac:(lia)). lia. Qed.

Lemma pre_index l v : 0 ≤ pre (l + 1) v mod 512 < 512.
Proof. by apply Z.mod_pos_bound. Qed.

Lemma pre_4 v : pre 4 v = v.
Proof. unfold pre. change (2 ^ (9 * (4 - 4))) with 1. apply Z.div_1_r. Qed.

Lemma index_mod va s : 0 ≤ s → Z.land (Z.shiftr va s) PTP_INDEX_MASK = va / 2 ^ s mod 512.
Proof. intros Hs. change PTP_INDEX_MASK with (Z.ones 9). by rewrite Z.land_ones, Z.shiftr_div_pow2. Qed.

Lemma index_pre l va : 0 ≤ l ≤ 3 → va / 2 ^ (9 * (3 - l) + 12) mod 512 = pre (l + 1) (va / 4096) mod 512.
Proof.
  intros Hl. unfold pre. change 4096 with (2 ^ 12). rewrite Z.div_div, <-Z.pow_add_r by lia. do 3 f_equal. lia.
Qed.

Lemma l3_index va : GET_L3_INDEX va = va / 4096 mod 512.
Proof. unfold GET_L3_INDEX. by rewrite index_mod. Qed.

(** Pages below the first [lim] entries of the root. *)
Definition user (lim v : Z) : Prop := 0 ≤ v < lim * 2 ^ 27.

Lemma user_pre lim v : 0 ≤ lim ≤ 512 → user lim v → pre 0 v = 0 ∧ 0 ≤ pre 1 v < lim.
Proof.
  intros Hl [H0 H1]. unfold pre. split; [apply Z.div_small; change (2 ^ (9 * (4 - 0))) with (512 * 2 ^ 27); lia|].
  change (9 * (4 - 1)) with 27. split; [by apply Z.div_pos|]. apply Z.div_lt_upper_bound; lia.
Qed.

(** ** The source of pages *)

Class PageSourceSpec (A : Type) `{PageSource A} := {
  (** [U] are the pages handed out. *)
  ps_inv : A → gset Z → Prop;
  ps_addr a U p : ps_inv a U → p ∈ U → aligned p 12 ∧ KBASE ≤ p < KCODE;
  ps_get a U : ps_inv a U →
    wp get_page (λ p a', (p = 0 ∧ ps_inv a' U) ∨ ((p ∉ U) ∧ ps_inv a' ({[p]} ∪ U))) a;
  ps_put a U p : ps_inv a U → p ∈ U → wp (put_page p) (λ _ a', ps_inv a' (U ∖ {[p]})) a
}.

(** [n] pages can be had. *)
Fixpoint room {A} `{PageSource A} (n : nat) (a : A) : Prop :=
  match n with
  | O => True
  | S n' => match get_page a with Ret (p, a') => p ≠ 0 ∧ room n' a' | Halt _ => False end
  end.

Lemma room_le {A} `{PageSource A} n m a : (m ≤ n)%nat → room n a → room m a.
Proof.
  revert m a. induction n as [|n IH]; intros [|m] a Hle; simpl; [done|lia|done|].
  destruct (get_page a) as [[p a']|]; [|done]. intros [? ?]. split; [done|]. apply IH; [lia|done].
Qed.

(** ** Invariant *)

Section proofs.
Context {A : Type} `{Hops : PageSource A, Hlaws : !PageSourceSpec A} (lim : Z).
Abbreviation tables := (gmap (Z * Z) Z).
Implicit Types (s : pgmem A) (T : tables) (U : gset Z) (a b p v e : Z).

Definition entry s (a i : Z) : option Z := es ← ptps s !! a; es !! Z.to_nat i.

(** The entry [e] of a table above the last level leads to the table [o]. *)
Definition leads e (o : option Z) : Prop :=
  match o with
  | Some b => has e PAGE_PRESENT = true ∧ has e PAGE_PSE = false ∧ GET_NEXT_PTP e = b
  | None => has e PAGE_PRESENT = false ∧ is_migration_entry e = false
  end.

(** The tables [T] of the page table at [root], by level and position: the table of level [l] for the pages [v] is
    [T !! (l, pre l v)]. *)
Record pt_ok s (root : Z) T U : Prop := {
  pt_lim : 0 ≤ lim ≤ 512;
  pt_src : ps_inv (src s) U;
  pt_root : T !! (0, 0) = Some root;
  pt_key l q a : T !! (l, q) = Some a → 0 ≤ l ≤ 3 ∧ 0 ≤ q ∧ (l = 0 → q = 0) ∧ (0 < l → q / 2 ^ (9 * (l - 1)) < lim);
  pt_own k a : T !! k = Some a → a ∈ U;
  pt_table k a : T !! k = Some a → ∃ es, ptps s !! a = Some es ∧ length es = 512%nat ∧ Forall u64 es;
  pt_inj k k' a : T !! k = Some a → T !! k' = Some a → k = k';
  pt_child l q a i e : T !! (l, q) = Some a → l < 3 → 0 ≤ i < 512 → (l = 0 → i < lim) → entry s a i = Some e →
    leads e (T !! (l + 1, q * 512 + i));
  pt_parent l q a : T !! (l, q) = Some a → 0 < l → is_Some (T !! (l - 1, q / 512))
}.

(** The entry for page [v]; where a table is missing there is no entry, which is the same as the entry 0. *)
Definition entry_of s T v : Z := default 0 (a ← T !! (3, pre 3 v); entry s a (v mod 512)).

Lemma pt_addr s root T U k a : pt_ok s root T U → T !! k = Some a → aligned a 12 ∧ KBASE ≤ a < KCODE.
Proof. intros HI Ha. eapply ps_addr; [apply HI|]. by eapply pt_own. Qed.

Lemma pt_entry s root T U k a i : pt_ok s root T U → T !! k = Some a → 0 ≤ i < 512 → ∃ e, entry s a i = Some e ∧ u64 e.
Proof.
  intros HI Ha Hi. destruct (pt_table _ _ _ _ HI _ _ Ha) as (es&Hes&Hlen&Hu).
  destruct (lookup_lt_is_Some_2 es (Z.to_nat i)) as [e He]; [lia|]. exists e. unfold entry. rewrite Hes. simpl.
  split; [done|]. by eapply Forall_lookup_1.
Qed.

Lemma pt_missing s root T U l q : pt_ok s root T U → T !! (l, q) = None → 0 ≤ l → ∀ i, 0 ≤ i < 512 → T !! (l + 1, q * 512 + i) = None.
Proof.
  intros HI Hn Hl i Hi. apply eq_None_not_Some. intros [b Hb].
  destruct (pt_parent _ _ _ _ HI _ _ _ Hb ltac:(lia)) as [a Ha].
  rewrite Z.add_simpl_r, Z.div_add_l, Z.div_small, Z.add_0_r in Ha by lia. congruence.
Qed.

(** A table has the tables above it. *)
Lemma pt_up s root T U l l' q' b :
  pt_ok s root T U → T !! (l', q') = Some b → 0 ≤ l ≤ l' → is_Some (T !! (l, q' / 2 ^ (9 * (l' - l)))).
Proof.
  intros HI Hb Hl. assert (∀ j : nat, Z.of_nat j ≤ l' - l → is_Some (T !! (l' - Z.of_nat j, q' / 2 ^ (9 * Z.of_nat j)))) as Hj.
  { induction j as [|j IH]; intros Hj; [rewrite Z.sub_0_r; change (2 ^ (9 * Z.of_nat 0)) with 1; rewrite Z.div_1_r; by eexists|].
    destruct IH as [c Hc]; [lia|]. apply (pt_parent _ _ _ _ HI) in Hc; [|lia]. change 512 with (2 ^ 9) in Hc.
    rewrite Z.div_div, <-Z.pow_add_r in Hc by (try apply Z.pow_pos_nonneg; lia).
    by replace (l' - Z.of_nat (S j)) with (l' - Z.of_nat j - 1) by lia; replace (9 * Z.of_nat (S j)) with (9 * Z.of_nat j + 9) by lia. }
  specialize (Hj (Z.to_nat (l' - l)) ltac:(lia)). rewrite Z2Nat.id in Hj by lia. by replace (l' - (l' - l)) with l in Hj by lia.
Qed.

(** Nothing below a missing table. *)
Lemma missing_below s root T U l v w :
  pt_ok s root T U → 0 ≤ l ≤ 3 → T !! (l, pre l v) = None → pre l w = pre l v → T !! (3, pre 3 w) = None.
Proof.
  intros HI Hl Hn Hw. apply eq_None_not_Some. intros [b Hb]. destruct (pt_up _ _ _ _ l _ _ _ HI Hb Hl) as [c Hc].
  unfold pre in Hc at 1. rewrite Z.div_div, <-Z.pow_add_r in Hc by (try apply Z.pow_pos_nonneg; lia).
  replace (9 * (4 - 3) + 9 * (3 - l)) with (9 * (4 - l)) in Hc by lia. fold (pre l w) in Hc. congruence.
Qed.

(** ** Reading and writing entries *)

Lemma wp_on_src {B} (m : M A B) (Q : B → pgmem A → Prop) s : wp m (λ r x, Q r (set_src x s)) (src s) → wp (on_src m) Q s.
Proof. unfold wp, on_src. by destruct (m (src s)) as [[??]|]. Qed.

Lemma wp_read_pte s a i e (Q : Z → pgmem A → Prop) : entry s a i = Some e → Q e s → wp (read_pte (a, i)) Q s.
Proof.
  unfold entry. intros He HQ. unfold read_pte. wp_seq. cbn [fst snd]. destruct (ptps s !! a) as [es|] eqn:Hes; [|done].
  eapply wp_from_opt; [reflexivity|]. eapply wp_from_opt; [exact He|done].
Qed.

Definition put_entry s (a i v : Z) : pgmem A := set_ptps (alter (<[Z.to_nat i := v]>) a (ptps s)) s.

Lemma wp_write_pte s a i e v (Q : unit → pgmem A → Prop) : entry s a i = Some e → Q tt (put_entry s a i v) → wp (write_pte (a, i) v) Q s.
Proof. intros He HQ. unfold write_pte. wp_seq. eapply wp_read_pte; [done|]. wp_seq. done. Qed.

Lemma entry_put s a i v b j : 0 ≤ i → 0 ≤ j → is_Some (entry s a i) →
  entry (put_entry s a i v) b j = if decide (b = a ∧ j = i) then Some v else entry s b j.
Proof.
  intros Hi Hj [e He]. unfold entry, put_entry in *. simpl. destruct (decide (b = a)) as [->|Hne].
  - rewrite lookup_alter_eq. destruct (ptps s !! a) as [es|]; [|done]. simpl in *. destruct (decide (j = i)) as [->|].
    + rewrite decide_True by done. apply list_lookup_insert_eq. by eapply lookup_lt_Some.
    + rewrite decide_False by naive_solver. apply list_lookup_insert_ne. lia.
  - rewrite decide_False by naive_solver. by rewrite lookup_alter_ne.
Qed.
(** Changing one entry: the invariant asks only that it still leads to the same table. *)
Lemma pt_put s root T U l q a i v :
  pt_ok s root T U → T !! (l, q) = Some a → 0 ≤ i < 512 → u64 v →
  (l < 3 → (l = 0 → i < lim) → leads v (T !! (l + 1, q * 512 + i))) → pt_ok (put_entry s a i v) root T U.
Proof.
  intros HI Ha Hi Hv Hl. destruct (pt_entry _ _ _ _ _ _ _ HI Ha Hi) as (e0&He0&_). pose proof HI as [Hm Hs Hr Hk Ho Ht Hinj Hc Hp].
  split; try done.
  - intros k b Hb. destruct (Ht k b Hb) as (es&Hes&Hlen&Hu). unfold put_entry. simpl. destruct (decide (b = a)) as [->|].
    + rewrite lookup_alter_eq, Hes. eexists. split; [done|]. rewrite length_insert. split; [done|]. by apply Forall_insert.
    + rewrite lookup_alter_ne by done. eauto.
  - intros l' q' b j e Hb Hl' Hj Hj' He. rewrite entry_put in He by (lia || by eexists). case_decide as Hd; [|by eapply Hc].
    destruct Hd as [-> ->]. injection He as <-. pose proof (Hinj _ _ _ Ha Hb) as E. injection E as <- <-. by apply Hl.
Qed.

Lemma entry_of_put s root T U q a i v w :
  pt_ok s root T U → T !! (3, q) = Some a → 0 ≤ i < 512 → 0 ≤ w →
  entry_of (put_entry s a i v) T w = if decide (w = q * 512 + i) then v else entry_of s T w.
Proof.
  intros HI Ha Hi Hw. destruct (pt_entry _ _ _ _ _ _ _ HI Ha Hi) as (e0&He0&_). unfold entry_of.
  pose proof (pre_split 3 w ltac:(lia)) as Es. change (3 + 1) with 4 in Es. rewrite pre_4 in Es. pose proof (Z.mod_pos_bound w 512 ltac:(lia)).
  destruct (T !! (3, pre 3 w)) as [b|] eqn:Hb; simpl.
  - rewrite entry_put by (lia || by eexists). destruct (decide (b = a)) as [->|Hne].
    + pose proof (pt_inj _ _ _ _ HI _ _ _ Ha Hb) as E. injection E as E. destruct (decide (w mod 512 = i)).
      * rewrite !decide_True by (done || lia). done.
      * rewrite !decide_False by (naive_solver || lia). done.
    + rewrite !decide_False; [done| |naive_solver]. intros E. apply Hne. assert (q = pre 3 w) by lia. congruence.
  - rewrite decide_False; [done|]. intros E. assert (q = pre 3 w) by lia. congruence.
Qed.

(** An entry above the last level may change in a way that keeps the pages. *)
Lemma entry_of_put_above s root T U l q a i v w :
  pt_ok s root T U → T !! (l, q) = Some a → l < 3 → 0 ≤ i < 512 → entry_of (put_entry s a i v) T w = entry_of s T w.
Proof.
  intros HI Ha Hl Hi. destruct (pt_entry _ _ _ _ _ _ _ HI Ha Hi) as (e0&He0&_). unfold entry_of.
  destruct (T !! (3, pre 3 w)) as [b|] eqn:Hb; [|done]. simpl. pose proof (Z.mod_pos_bound w 512 ltac:(lia)).
  rewrite entry_put, decide_False; [done| |lia|lia|by eexists]. intros [-> _].
  pose proof (pt_inj _ _ _ _ HI _ _ _ Ha Hb). simplify_eq. lia.
Qed.

(** ** One step of the walk *)

Lemma index_of_level l va : 0 ≤ l ≤ 3 →
  (match l with 0 => mret (GET_L0_INDEX va) | 1 => mret (GET_L1_INDEX va) | 2 => mret (GET_L2_INDEX va)
   | 3 => mret (GET_L3_INDEX va) | _ => halt BugHit end : M (pgmem A) Z) = mret (pre (l + 1) (va / 4096) mod 512).
Proof.
  intros Hl. assert (l = 0 ∨ l = 1 ∨ l = 2 ∨ l = 3) as Hc by lia.
  repeat destruct Hc as [-> | Hc]; [..|subst l]; rewrite <-(index_pre _ va) by lia;
    unfold GET_L0_INDEX, GET_L1_INDEX, GET_L2_INDEX, GET_L3_INDEX; by rewrite index_mod.
Qed.

Lemma leads_dec e o : leads e o →
  (negb (has e PAGE_PRESENT) && negb (is_migration_entry e)) = bool_decide (o = None).
Proof. destruct o; simpl; [intros (->&_)|intros (->&->)]; done. Qed.

Lemma wp_next s root T U l v va a alloc (Q : next_ptp → pgmem A → Prop) :
  pt_ok s root T U → 0 ≤ l < 3 → v = va / 4096 → (l = 0 → pre 1 v < lim) → T !! (l, pre l v) = Some a →
  (∀ b, T !! (l + 1, pre (l + 1) v) = Some b → Q (NextPtp 0 b (a, pre (l + 1) v mod 512)) s) →
  (T !! (l + 1, pre (l + 1) v) = None → alloc = false → Q NoMapping s) →
  (T !! (l + 1, pre (l + 1) v) = None → alloc = true →
    wp (p ← new_ptp; x ← virt_to_phys p; write_pte (a, pre (l + 1) v mod 512) (table_pte x);;
        e ← read_pte (a, pre (l + 1) v mod 512);
        mret (NextPtp (if has e PAGE_PSE then BLOCK_PTP else NORMAL_PTP) (GET_NEXT_PTP e) (a, pre (l + 1) v mod 512))) Q s) →
  wp (get_next_ptp a l va alloc) Q s.
Proof.
  intros HI Hl Hv Hu Ha Hfound Hno Hnew. pose proof (pre_index l v) as Hi.
  destruct (pt_entry _ _ _ _ _ _ _ HI Ha Hi) as (e&He&_).
  assert (leads e (T !! (l + 1, pre (l + 1) v))) as Hle.
  { rewrite (pre_split l v) by lia. eapply (pt_child _ _ _ _ HI); [done|lia|done| |done].
    intros ->. change (0 + 1) with 1 in *. specialize (Hu eq_refl). pose proof (Z.mod_le (pre 1 v) 512).
    destruct (decide (0 ≤ pre 1 v)); [lia|]. pose proof (pt_key _ _ _ _ HI _ _ _ Ha) as (_&?&Hz&_).
    specialize (Hz eq_refl). pose proof (pre_split 0 v ltac:(lia)). change (0 + 1) with 1 in *. lia. }
  destruct (pt_addr _ _ _ _ _ _ HI Ha) as [_ Hk]. unfold get_next_ptp.
  rewrite bool_decide_eq_false_2 by (unfold KBASE in Hk; lia). rewrite index_of_level, <-Hv by lia. wp_seq.
  rewrite (bool_decide_eq_false_2 (l = 3)) by lia. cbn [orb].
  eapply wp_read_pte; [done|]. rewrite (leads_dec _ _ Hle).
  destruct (T !! (l + 1, pre (l + 1) v)) as [b|] eqn:Hb.
  - rewrite bool_decide_eq_false_2 by done. wp_seq. eapply wp_read_pte; [done|]. wp_seq.
    destruct Hle as (_&->&->). by apply Hfound.
  - rewrite bool_decide_eq_true_2 by done. destruct alloc; cbn [negb]; [by apply Hnew|]. wp_seq. by apply Hno.
Qed.

(** *** A new table *)

Lemma zero_ptp_lookup j : 0 ≤ j → zero_ptp !! Z.to_nat j = if decide (j < 512) then Some 0 else None.
Proof.
  intros Hj. unfold zero_ptp. change (Z.to_nat PTP_ENTRIES) with 512%nat. case_decide.
  - apply lookup_replicate. split; [done|lia].
  - apply lookup_replicate_None. lia.
Qed.

(** The state with the new table [p] for entry [i] of table [a], which becomes [v]. *)
Definition with_table s (x : A) (a i p v : Z) : pgmem A :=
  put_entry (set_ptps (<[p := zero_ptp]> (ptps s)) (set_src x s)) a i v.

Lemma leads_zero : leads 0 None.
Proof. done. Qed.

Lemma leads_table p : aligned p 12 → KBASE ≤ p < KCODE → leads (table_pte (p - KBASE)) (Some p).
Proof.
  intros Ha Hp. simpl. split_and!; [| |by apply set_pfn_next].
  - rewrite has_present, table_pte_bit by lia. done.
  - change PAGE_PSE with (Z.shiftl 1 7). rewrite has_bit, table_pte_bit by lia. done.
Qed.

Lemma entry_with_table s x a i p v b j : 0 ≤ i → 0 ≤ j → p ≠ a → is_Some (entry s a i) →
  entry (with_table s x a i p v) b j =
    if decide (b = p) then (if decide (j < 512) then Some 0 else None)
    else if decide (b = a ∧ j = i) then Some v else entry s b j.
Proof.
  intros Hi Hj Hne He. assert (∀ c k, entry (set_ptps (<[p := zero_ptp]> (ptps s)) (set_src x s)) c k =
    if decide (c = p) then zero_ptp !! Z.to_nat k else entry s c k) as E.
  { intros c k. unfold entry. simpl. case_decide as Hd; [subst c; by rewrite lookup_insert_eq|by rewrite lookup_insert_ne]. }
  unfold with_table. rewrite entry_put by (try done; rewrite E; by rewrite decide_False). rewrite E.
  destruct (decide (b = p)) as [->|]; [|done]. rewrite decide_False by naive_solver. by apply zero_ptp_lookup.
Qed.
Lemma key_next l q i : 0 ≤ l ≤ 3 → 0 ≤ q → 0 ≤ i < 512 → (l = 0 → q = 0 ∧ i < lim) → (0 < l → q / 2 ^ (9 * (l - 1)) < lim) →
  (q * 512 + i) / 2 ^ (9 * (l + 1 - 1)) < lim.
Proof.
  intros Hl Hq Hi H0 H1. destruct (decide (l = 0)) as [->|].
  - destruct H0 as [-> ?]; [done|]. change (2 ^ (9 * (0 + 1 - 1))) with 1. rewrite Z.div_1_r. lia.
  - replace (9 * (l + 1 - 1)) with (9 + 9 * (l - 1)) by lia. rewrite Z.pow_add_r, <-Z.div_div by (try apply Z.pow_pos_nonneg; lia).
    change (2 ^ 9) with 512. rewrite Z.div_add_l, (Z.div_small i), Z.add_0_r by lia. apply H1. lia.
Qed.

Lemma pt_new s root T U l q a i p v x :
  pt_ok s root T U → T !! (l, q) = Some a → 0 ≤ l < 3 → 0 ≤ i < 512 → (l = 0 → i < lim) → T !! (l + 1, q * 512 + i) = None →
  p ∉ U → ps_inv x ({[p]} ∪ U) → u64 v → leads v (Some p) →
  pt_ok (with_table s x a i p v) root (<[(l + 1, q * 512 + i) := p]> T) ({[p]} ∪ U).
Proof.
  intros HI Ha Hl Hi Hi' Hn Hp Hx Hv Hlv. destruct (pt_entry _ _ _ _ _ _ _ HI Ha Hi) as (e0&He0&_).
  destruct (pt_key _ _ _ _ HI _ _ _ Ha) as (_&Hq&Hq0&Hq1). pose proof (pt_own _ _ _ _ HI _ _ Ha) as HaU.
  assert (p ≠ a) as Hpa by congruence. assert (∀ k b, T !! k = Some b → b ≠ p) as Hfresh by (intros k b Hb ->; by apply Hp, (pt_own _ _ _ _ HI k)).
  split; try done; [apply HI|..].
  - rewrite lookup_insert_ne; [apply HI|]. intros [=]. lia.
  - intros l' q' b [[E _]|[_ Hb]]%lookup_insert_Some; [|by eapply (pt_key _ _ _ _ HI)]. injection E as <- <-.
    split_and!; [lia|lia|lia|lia|]. intros _. apply key_next; [lia|lia|done|naive_solver|done].
  - intros k b [[_ <-]|[_ Hb]]%lookup_insert_Some; [set_solver|]. apply elem_of_union_r. by eapply (pt_own _ _ _ _ HI).
  - intros k b Hb. unfold with_table, put_entry. simpl. apply lookup_insert_Some in Hb as [[_ <-]|[_ Hb]].
    + rewrite lookup_alter_ne, lookup_insert_eq by done. eexists. split_and!; [done|done|]. by apply Forall_replicate.
    + destruct (pt_table _ _ _ _ HI _ _ Hb) as (es&Hes&Hlen&Hu). destruct (decide (b = a)) as [->|].
      * rewrite lookup_alter_eq, lookup_insert_ne, Hes by done. eexists. split; [done|]. rewrite length_insert. split; [done|].
        by apply Forall_insert.
      * rewrite lookup_alter_ne, lookup_insert_ne by (done || (apply not_eq_sym; by eapply Hfresh)). eauto.
  - intros k k' b [[Ek Eb]|[_ Hb]]%lookup_insert_Some [[Ek' Eb']|[_ Hb']]%lookup_insert_Some; [congruence| | |by eapply (pt_inj _ _ _ _ HI)];
      subst b; exfalso; by eapply Hfresh.
  - intros l' q' b j e Hb Hl' Hj Hj' He. rewrite entry_with_table in He by (done || lia || by eexists).
    apply lookup_insert_Some in Hb as [[E <-]|[_ Hb]].
    + injection E as <- <-. rewrite decide_True in He by done. rewrite decide_True in He by lia. injection He as <-.
      rewrite lookup_insert_ne by (intros [=]; lia). rewrite (pt_missing _ _ _ _ _ _ HI Hn ltac:(lia) j Hj). done.
    + rewrite decide_False in He by (by eapply Hfresh). case_decide as Hd.
      * destruct Hd as [-> ->]. injection He as <-. pose proof (pt_inj _ _ _ _ HI _ _ _ Ha Hb) as E. injection E as <- <-.
        by rewrite lookup_insert_eq.
      * rewrite lookup_insert_ne; [by eapply (pt_child _ _ _ _ HI)|]. intros E. injection E as E1 E2. apply Hd.
        assert (q' = q ∧ j = i) as [-> ->] by lia. assert (l' = l) as -> by lia. split; [congruence|done].
  - intros l' q' b [[E <-]|[_ Hb]]%lookup_insert_Some Hl'.
    + injection E as <- <-. rewrite Z.add_simpl_r, Z.div_add_l, Z.div_small, Z.add_0_r by lia.
      rewrite lookup_insert_ne by (intros [=]; lia). by eexists.
    + destruct (pt_parent _ _ _ _ HI _ _ _ Hb Hl') as [b' Hb']. destruct (decide ((l + 1, q * 512 + i) = (l' - 1, q' / 512))) as [<-|].
      * rewrite lookup_insert_eq. by eexists.
      * rewrite lookup_insert_ne by done. by eexists.
Qed.

Lemma entry_of_new s root T U l q a i p v x w :
  pt_ok s root T U → T !! (l, q) = Some a → l < 3 → 0 ≤ i < 512 → T !! (l + 1, q * 512 + i) = None → p ∉ U →
  entry_of (with_table s x a i p v) (<[(l + 1, q * 512 + i) := p]> T) w = entry_of s T w.
Proof.
  intros HI Ha Hl Hi Hn Hp. destruct (pt_entry _ _ _ _ _ _ _ HI Ha Hi) as (e0&He0&_). unfold entry_of.
  pose proof (pt_own _ _ _ _ HI _ _ Ha) as HaU. assert (p ≠ a) as Hpa by congruence. pose proof (Z.mod_pos_bound w 512 ltac:(lia)).
  destruct (decide ((l + 1, q * 512 + i) = (3, pre 3 w))) as [E|Hne].
  - rewrite E in *. rewrite lookup_insert_eq, Hn. simpl. rewrite entry_with_table by (done || lia || by eexists).
    rewrite decide_True by done. rewrite decide_True by lia. done.
  - rewrite lookup_insert_ne by done. destruct (T !! (3, pre 3 w)) as [b|] eqn:Hb; [|done]. simpl.
    rewrite entry_with_table by (done || lia || by eexists). rewrite decide_False by (intros ->; by apply Hp, (pt_own _ _ _ _ HI _ _ Hb)).
    rewrite decide_False; [done|]. intros [-> _]. pose proof (pt_inj _ _ _ _ HI _ _ _ Ha Hb). by simplify_eq.
Qed.

(** The pages [U] that are not tables of [T] are as they were. *)
Definition beside T U s s' : Prop := ∀ a, a ∈ U → (∀ k, T !! k ≠ Some a) → ptps s' !! a = ptps s !! a.

Lemma beside_trans T U s1 s2 s3 : beside T U s1 s2 → beside T U s2 s3 → beside T U s1 s3.
Proof. intros H1 H2 a Ha Hn. rewrite H2 by done. by apply H1. Qed.

Lemma beside_put T U s k a i v : T !! k = Some a → beside T U s (put_entry s a i v).
Proof. intros Ha b Hb Hn. simpl. apply lookup_alter_ne. intros ->. by apply (Hn k). Qed.

(** The tables that [T'] adds to [T] were not among the pages [U], which were kept. *)
Record added T U T' U' : Prop := {
  ad_tables : T ⊆ T';
  ad_pages : U ⊆ U';
  ad_new k a : T' !! k = Some a → a ∈ U → T !! k = Some a
}.

Lemma added_refl T U : added T U T U.
Proof. done. Qed.

Lemma added_trans T1 U1 T2 U2 T3 U3 : added T1 U1 T2 U2 → added T2 U2 T3 U3 → added T1 U1 T3 U3.
Proof. intros [A1 A2 A3] [B1 B2 B3]. split; [by etrans|by etrans|]. intros k a Ha Hu. apply A3; [|done]. apply B3; [done|by apply A2]. Qed.

Lemma beside_added T1 U1 T2 U2 s1 s2 s3 : added T1 U1 T2 U2 → beside T1 U1 s1 s2 → beside T2 U2 s2 s3 → beside T1 U1 s1 s3.
Proof.
  intros [A1 A2 A3] H1 H2 a Ha Hn. rewrite H2; [by apply H1|by apply A2|]. intros k Hk. by apply (Hn k), A3.
Qed.

(** From [s] to [s'] only tables were added. *)
Record grown s T U s' T' U' : Prop := {
  gr_added : added T U T' U';
  gr_beside : beside T U s s';
  gr_entries w : entry_of s' T' w = entry_of s T w
}.

Lemma grown_refl s T U : grown s T U s T U.
Proof. done. Qed.

Lemma grown_trans s1 T1 U1 s2 T2 U2 s3 T3 U3 : grown s1 T1 U1 s2 T2 U2 → grown s2 T2 U2 s3 T3 U3 → grown s1 T1 U1 s3 T3 U3.
Proof. intros [A1 A2 A3] [B1 B2 B3]. split; [by eapply added_trans|by eapply beside_added|]. intros w. by rewrite B3. Qed.

(** Another page table that shares no table with [T] *)
Lemma pt_other s root T U s' T' U' r2 T2 :
  pt_ok s' root T' U' → U ⊆ U' → beside T U s s' → pt_ok s r2 T2 U → (∀ k k' a, T !! k = Some a → T2 !! k' = Some a → False) →
  pt_ok s' r2 T2 U' ∧ ∀ w, entry_of s' T2 w = entry_of s T2 w.
Proof.
  intros HI' HU Hb HI Hd. assert (∀ k a, T2 !! k = Some a → ptps s' !! a = ptps s !! a) as E.
  { intros k a Ha. apply Hb; [by eapply pt_own|]. intros k' Hk'. by eapply Hd. }
  assert (∀ k a i, T2 !! k = Some a → entry s' a i = entry s a i) as Ee by (intros k a i Ha; unfold entry; by rewrite (E k a Ha)). split.
  - split; try apply HI; [apply HI'| | |].
    + intros k a Ha. apply HU. by eapply pt_own.
    + intros k a Ha. rewrite (E k a Ha). by eapply pt_table.
    + intros l q a i e Ha. rewrite (Ee _ _ _ Ha). by eapply pt_child.
  - intros w. unfold entry_of. destruct (T2 !! (3, pre 3 w)) as [a|] eqn:Ha; [|done]. simpl. by rewrite (Ee _ _ _ Ha).
Qed.

(** A new table comes from the source, holds no entries, and leaves the other tables as they are. *)
Lemma wp_new_ptp s U n : ps_inv (src s) U → room (S n) (src s) →
  wp new_ptp (λ p s', (p ∉ U) ∧ ps_inv (src s') ({[p]} ∪ U) ∧ room n (src s') ∧ p ≠ 0 ∧
    s' = set_ptps (<[p := zero_ptp]> (ptps s)) (set_src (src s') s)) s.
Proof.
  intros Hs Hroom. unfold new_ptp. wp_seq. simpl in Hroom. pose proof (ps_get _ _ Hs) as (p&x&Hget&Hp)%wp_inv. rewrite Hget in Hroom.
  destruct Hroom as [Hp0 Hroom]. destruct Hp as [[? _]|[Hp Hx]]; [done|]. apply wp_on_src. eapply wp_intro; [exact Hget|]. wp_seq.
  apply wp_bug_on; [by apply bool_decide_eq_false_2|]. by wp_seq.
Qed.

(** Its physical address *)
Lemma wp_table_paddr s U p (Q : Z → pgmem A → Prop) : ps_inv (src s) U → p ∈ U → Q (p - KBASE) s → wp (virt_to_phys p) Q s.
Proof.
  intros Hs Hp HQ. destruct (ps_addr _ _ p Hs Hp) as [_ Hk]. unfold virt_to_phys. wp_seq.
  apply wp_bug_on; [by rewrite !bool_decide_eq_false_2 by lia|]. by wp_seq.
Qed.

Lemma wp_next_alloc s root T U l v va a n :
  pt_ok s root T U → 0 ≤ l < 3 → v = va / 4096 → (l = 0 → pre 1 v < lim) → T !! (l, pre l v) = Some a → room (S n) (src s) →
  wp (get_next_ptp a l va true) (λ r s', ∃ b T' U', r = NextPtp 0 b (a, pre (l + 1) v mod 512) ∧
    T' !! (l + 1, pre (l + 1) v) = Some b ∧ pt_ok s' root T' U' ∧ grown s T U s' T' U' ∧ room n (src s') ∧
    ∀ k, is_Some (T' !! k) → k = (l + 1, pre (l + 1) v) ∨ is_Some (T !! k)) s.
Proof.
  intros HI Hl Hv Hu Ha Hroom. pose proof (pre_index l v) as Hi. eapply wp_next; try done.
  - intros b Hb. exists b, T, U. split_and!; [done|done|done|done|by eapply room_le; [|done]; lia|by right].
  - intros Hn _. destruct (pt_entry _ _ _ _ _ _ _ HI Ha Hi) as (e0&He0&_).
    assert (l = 0 → pre (l + 1) v mod 512 < lim) as Hi'.
    { intros ->. change (0 + 1) with 1 in *. specialize (Hu eq_refl). destruct (pt_key _ _ _ _ HI _ _ _ Ha) as (_&_&Hz&_).
      specialize (Hz eq_refl). pose proof (pre_split 0 v ltac:(lia)). change (0 + 1) with 1 in *. lia. }
    rewrite (pre_split l v) in Hn by lia. wp_seq. eapply wp_mono; [by eapply wp_new_ptp; [apply HI|]|].
    intros p s1 (Hp&Hx&Hroom1&_&E). wp_seq. eapply wp_table_paddr; [exact Hx|set_solver|]. wp_seq.
    destruct (ps_addr _ _ p Hx) as [Hal Hk]; [set_solver|]. generalize dependent (src s1). intros x ???. subst s1.
    pose proof (pt_own _ _ _ _ HI _ _ Ha) as HaU. assert (p ≠ a) as Hpa by congruence. set (s1 := set_ptps _ _).
    assert (entry s1 a (pre (l + 1) v mod 512) = Some e0) as He1.
    { unfold s1, entry. simpl. by rewrite lookup_insert_ne. }
    eapply wp_write_pte; [done|]. wp_seq. set (i := pre (l + 1) v mod 512) in *.
    set (e1 := table_pte _). change (put_entry s1 a i e1) with (with_table s x a i p e1). eapply wp_read_pte.
    { rewrite entry_with_table by (lia || done || by eexists). rewrite decide_False by done. by rewrite decide_True. }
    wp_seq. destruct (leads_table p Hal Hk) as (_&E1&E2). fold e1 in E1, E2. rewrite E1, E2. exists p, (<[(l + 1, pre l v * 512 + i) := p]> T), ({[p]} ∪ U).
    split_and!; [done| | | |done|].
    + rewrite (pre_split l v) by lia. apply lookup_insert_eq.
    + apply pt_new; try done; [apply pte_set_pfn_u64; by split|by apply leads_table].
    + split; [split|intros b Hb Hnb|intros w; eapply entry_of_new; (done || lia)].
      * by apply insert_subseteq.
      * set_solver.
      * intros k b [[_ <-]|[_ Hb]]%lookup_insert_Some Hu'; done.
      * simpl. rewrite lookup_alter_ne by (intros ->; by apply (Hnb (l, pre l v))). rewrite lookup_insert_ne; [done|by intros ->].
    + intros k [b [[<- _]|[_ Hb]]%lookup_insert_Some]; [left; by rewrite (pre_split l v) by lia|right; by eexists].
Qed.

Lemma wp_alloc_l3 s root T U v va n :
  pt_ok s root T U → v = va / 4096 → user lim v → room (3 + n) (src s) →
  wp (alloc_l3 root va) (λ a s', ∃ T' U', T' !! (3, pre 3 v) = Some a ∧ pt_ok s' root T' U' ∧ grown s T U s' T' U' ∧ room n (src s') ∧
    ∀ q, is_Some (T' !! (3, q)) → q = pre 3 v ∨ is_Some (T !! (3, q))) s.
Proof.
  intros HI Hv Hu Hroom. destruct (user_pre _ _ (pt_lim _ _ _ _ HI) Hu) as [E0 E1]. assert (T !! (0, pre 0 v) = Some root) as Hr by (rewrite E0; apply HI).
  unfold alloc_l3. wp_seq. eapply wp_mono; [eapply (wp_next_alloc _ _ _ _ 0 v); try done; lia|].
  intros r1 s1 (a1&T1&U1&->&H1&HI1&Hg1&Hroom1&Hk1). wp_seq. apply wp_bug_on; [done|]. wp_seq.
  eapply wp_mono; [eapply (wp_next_alloc _ _ _ _ 1 v); try done; lia|].
  intros r2 s2 (a2&T2&U2&->&H2&HI2&Hg2&Hroom2&Hk2). wp_seq. apply wp_bug_on; [done|]. wp_seq.
  eapply wp_mono; [eapply (wp_next_alloc _ _ _ _ 2 v); try done; lia|].
  intros r3 s3 (a3&T3&U3&->&H3&HI3&Hg3&Hroom3&Hk3). wp_seq. apply wp_bug_on; [done|]. wp_seq.
  exists T3, U3. split_and!; [done|done|eapply grown_trans; [|done]; by eapply grown_trans|done|].
  intros q [E|[E|[E|?]%Hk1]%Hk2]%Hk3; [injection E as ->; by left|injection E as E'; lia|injection E as E'; lia|by right].
Qed.


(** ** Mapping a range *)

(** The pages from [v] to [v + k] changed by [f], the others are the same. *)
Definition changed (f : Z → Z → Z) (v k : Z) (g g' : Z → Z) : Prop :=
  ∀ w, 0 ≤ w → g' w = if decide (v ≤ w < v + k) then f w (g w) else g w.

Lemma changed_trans f v k1 k2 g1 g2 g3 :
  0 ≤ k1 → 0 ≤ k2 → changed f v k1 g1 g2 → changed f (v + k1) k2 g2 g3 → changed f v (k1 + k2) g1 g3.
Proof. intros ?? H1 H2 w Hw. rewrite (H2 w Hw), (H1 w Hw). repeat case_decide; done || lia. Qed.

Lemma changed_ext f v k g1 g2 g3 : (∀ w, g2 w = g1 w) → changed f v k g2 g3 → changed f v k g1 g3.
Proof. intros E H1 w Hw. rewrite (H1 w Hw). by rewrite E. Qed.

Lemma changed_one s root T U q a i v f : pt_ok s root T U → T !! (3, q) = Some a → 0 ≤ i < 512 →
  (∀ e, entry s a i = Some e → v = f (q * 512 + i) e) → changed f (q * 512 + i) 1 (entry_of s T) (entry_of (put_entry s a i v) T).
Proof.
  intros HI Ha Hi Hv w Hw. rewrite (entry_of_put _ root _ U q) by done. repeat case_decide; try done; [|lia|lia]. subst w.
  destruct (pt_entry _ _ _ _ _ _ _ HI Ha Hi) as (e&He&_). rewrite (Hv e He). f_equal. unfold entry_of.
  assert (pre 3 (q * 512 + i) = q) as ->.
  { unfold pre. change (2 ^ (9 * (4 - 3))) with 512. rewrite Z.div_add_l, Z.div_small by lia. lia. }
  rewrite Ha. simpl. replace ((q * 512 + i) mod 512) with i; [by rewrite He|].
  rewrite Z.add_comm, Z.mod_add, Z.mod_small by lia. done.
Qed.

(** The source is not asked while entries change. *)
Lemma wp_map_ptes n s root T U q a i pa total flags :
  pt_ok s root T U → T !! (3, q) = Some a → 0 ≤ q < 2 ^ 27 → 0 ≤ i → i + Z.of_nat n = 512 → u64 pa → 0 < total →
  let v := q * 512 + i in let k := Z.min (Z.of_nat n) total in
  wp (map_ptes n a i (v * 4096) pa total flags) (λ r s', r = ((v + k) * 4096, wrap_u64 (pa + k * 4096), total - k) ∧
    pt_ok s' root T U ∧ src s' = src s ∧ beside T U s s' ∧
    changed (λ w _, new_pte (wrap_u64 (pa + (w - v) * 4096)) flags) v k (entry_of s T) (entry_of s' T)) s.
Proof.
  cbv zeta. revert s i pa total. induction n as [|n IH]; intros s i pa total HI Ha Hq Hi Hn Hpa Ht; cbn [map_ptes].
  { wp_seq. rewrite Z.min_l by lia. rewrite Z.add_0_r, Z.mul_0_l, Z.add_0_r, wrap_u64_small, Z.sub_0_r by done.
    split_and!; [done..|]. intros w Hw. rewrite decide_False by lia. done. }
  assert (0 ≤ i < 512) as Hi' by lia. destruct (pt_entry _ _ _ _ _ _ _ HI Ha Hi') as (e&He&_).
  wp_seq. eapply wp_write_pte; [done|]. set (s1 := put_entry _ _ _ _). assert (beside T U s s1) as Hb1 by (by eapply beside_put).
  assert (pt_ok s1 root T U) as HI1 by (eapply pt_put; [done|done|done|apply new_pte_u64|lia]).
  assert (changed (λ w _, new_pte (wrap_u64 (pa + (w - (q * 512 + i)) * 4096)) flags) (q * 512 + i) 1 (entry_of s T) (entry_of s1 T)) as Hc1.
  { eapply changed_one; [done..|]. intros e' _. by rewrite Z.sub_diag, Z.mul_0_l, Z.add_0_r, wrap_u64_small. }
  unfold PAGE_SIZE, BUDDY_PAGE_SIZE. rewrite (wrap_u64_small (_ * 4096 + _)) by lia. case_bool_decide as Hd.
  - wp_seq. rewrite Z.min_r by lia. assert (total = 1) as -> by lia. split_and!; [|done..].
    f_equal. f_equal. lia.
  - replace ((q * 512 + i) * 4096 + 4096) with ((q * 512 + (i + 1)) * 4096) by lia.
    eapply wp_mono; [apply (IH s1 (i + 1)); try done; try lia; by apply Z.mod_pos_bound|].
    intros r s' (->&HI'&Es&Hb&Hc). replace (Z.min (Z.of_nat (S n)) total) with (1 + Z.min (Z.of_nat n) (total - 1)) by lia.
    set (k := Z.min (Z.of_nat n) (total - 1)) in *. split_and!; [|done|done|by eapply beside_trans|].
    + unfold wrap_u64. rewrite Zplus_mod_idemp_l. f_equal; [f_equal; [lia|f_equal; lia]|lia].
    + eapply changed_trans; [lia|lia|exact Hc1|]. intros w Hw. replace (q * 512 + i + 1) with (q * 512 + (i + 1)) by lia.
      rewrite (Hc w Hw). case_decide; [|done]. f_equal. unfold wrap_u64. rewrite Zplus_mod_idemp_l. f_equal. lia.
Qed.

Lemma page_split v : v = pre 3 v * 512 + v mod 512.
Proof. pose proof (pre_split 3 v ltac:(lia)) as E. change (3 + 1) with 4 in E. by rewrite pre_4 in E. Qed.

Lemma user_l3 s root T U v : pt_ok s root T U → user lim v → 0 ≤ pre 3 v < 2 ^ 27.
Proof.
  intros HI Hu. pose proof (pt_lim _ _ _ _ HI). unfold user in Hu. pose proof (page_split v). pose proof (Z.mod_pos_bound v 512 ltac:(lia)). nia.
Qed.

(** [c] bounds the number of tables of the last level that the range touches. *)
Lemma wp_map_loop c fuel s root T U v pa total flags :
  pt_ok s root T U → 0 ≤ v → v + total ≤ lim * 2 ^ 27 → u64 pa → (Z.to_nat total ≤ fuel)%nat → 0 ≤ total →
  (0 < total → v mod 512 + total ≤ 512 * Z.of_nat c) → room (3 * c) (src s) →
  wp (map_loop fuel root (v * 4096) pa total flags) (λ _ s', ∃ T' U', pt_ok s' root T' U' ∧ added T U T' U' ∧ beside T U s s' ∧
    changed (λ w _, new_pte (wrap_u64 (pa + (w - v) * 4096)) flags) v total (entry_of s T) (entry_of s' T')) s.
Proof.
  revert c s T U v pa total. induction fuel as [|fuel IH]; intros c s T U v pa total HI Hv Hr Hpa Hf Ht Hc Hroom; cbn [map_loop].
  { rewrite bool_decide_eq_false_2 by lia. wp_seq. exists T, U. split_and!; [done..|]. intros w Hw. by rewrite decide_False by lia. }
  case_bool_decide as Hd; [|wp_seq; exists T, U; split_and!; [done..|]; intros w Hw; by rewrite decide_False by lia].
  pose proof (Z.mod_pos_bound v 512 ltac:(lia)) as Hm. destruct c as [|c]; [lia|].
  assert (user lim v) as Hu by (split; lia). assert (v * 4096 / 4096 = v) as Ev by (by apply Z.div_mul).
  replace (3 * S c)%nat with (3 + 3 * c)%nat in Hroom by lia. wp_seq.
  eapply wp_mono; [eapply (wp_alloc_l3 _ _ _ _ v); [done|done|done|exact Hroom]|].
  intros a s1 (T1&U1&Ha&HI1&[Ha1 Hb1 He1]&Hroom1&_). wp_seq.
  rewrite l3_index, Ev.
  change PTP_ENTRIES with 512. rewrite (page_split v) at 3.
  eapply wp_mono; [apply (wp_map_ptes _ s1 root T1 U1 (pre 3 v) a (v mod 512) pa total flags); try done; try lia; by eapply user_l3|].
  intros r s2 (->&HI2&Es&Hb2&Hch). rewrite <-page_split in *. rewrite Z2Nat.id in * by lia. cbv beta iota.
  set (k := Z.min (512 - v mod 512) total) in *. assert (0 < k ≤ total) as Hk by lia.
  eapply wp_mono; [apply (IH c s2 T1 U1 (v + k) (wrap_u64 (pa + k * 4096)) (total - k)); try done; try lia|].
  - by apply Z.mod_pos_bound.
  - intros Hlt. assert (k = 512 - v mod 512) as -> by lia.
    replace (v + (512 - v mod 512)) with ((pre 3 v + 1) * 512) by (pose proof (page_split v); lia). rewrite Z.mod_mul by lia. lia.
  - by rewrite Es.
  - intros [] s3 (T3&U3&HI3&Ha3&Hb3&Hch3). exists T3, U3.
    split_and!; [done|by eapply added_trans|eapply beside_added; [exact Ha1|done|by eapply beside_trans]|].
    replace total with (k + (total - k)) by lia. eapply changed_trans; [lia|lia|eapply changed_ext; [done|exact Hch]|].
    intros w Hw. rewrite (Hch3 w Hw). case_decide; [|done]. f_equal. unfold wrap_u64. rewrite Zplus_mod_idemp_l. f_equal. lia.
Qed.
(** ** Changing a range *)

Section walk.
Context (skip : Z → Z → Z) (f : Z → Z).
Hypothesis Hskip : ∀ l w, 0 ≤ w → 0 < skip l (w * 4096) ≤ 2 ^ 27.
Hypothesis Hf : ∀ e, u64 e → u64 (f e).

Lemma wp_walk_ptes n s root T U q a i total :
  pt_ok s root T U → T !! (3, q) = Some a → 0 ≤ q < 2 ^ 27 → 0 ≤ i → i + Z.of_nat n = 512 → 0 < total →
  let v := q * 512 + i in let k := Z.min (Z.of_nat n) total in
  wp (walk_ptes f n a i (v * 4096) total) (λ r s', r = ((v + k) * 4096, total - k) ∧
    pt_ok s' root T U ∧ src s' = src s ∧ beside T U s s' ∧ changed (λ _, f) v k (entry_of s T) (entry_of s' T)) s.
Proof.
  cbv zeta. revert s i total. induction n as [|n IH]; intros s i total HI Ha Hq Hi Hn Ht; cbn [walk_ptes].
  { wp_seq. rewrite Z.min_l by lia. rewrite Z.add_0_r, Z.sub_0_r by done.
    split_and!; [done..|]. intros w Hw. by rewrite decide_False by lia. }
  assert (0 ≤ i < 512) as Hi' by lia. destruct (pt_entry _ _ _ _ _ _ _ HI Ha Hi') as (e&He&Hu).
  wp_seq. eapply wp_read_pte; [done|]. wp_seq. eapply wp_write_pte; [done|]. set (s1 := put_entry _ _ _ _).
  assert (pt_ok s1 root T U) as HI1 by (eapply pt_put; [done|done|done|by apply Hf|lia]).
  assert (beside T U s s1) as Hb1 by (by eapply beside_put).
  assert (changed (λ _, f) (q * 512 + i) 1 (entry_of s T) (entry_of s1 T)) as Hc1.
  { eapply changed_one; [done..|]. intros e' He'. congruence. }
  unfold PAGE_SIZE, BUDDY_PAGE_SIZE. rewrite (wrap_u64_small (_ * 4096 + _)) by lia. case_bool_decide as Hd.
  - wp_seq. rewrite Z.min_r by lia. assert (total = 1) as -> by lia. split_and!; [|done..]. f_equal. lia.
  - replace ((q * 512 + i) * 4096 + 4096) with ((q * 512 + (i + 1)) * 4096) by lia.
    eapply wp_mono; [apply (IH s1 (i + 1)); done || lia|].
    intros r s' (->&HI'&Es&Hb&Hc). replace (Z.min (Z.of_nat (S n)) total) with (1 + Z.min (Z.of_nat n) (total - 1)) by lia.
    set (k := Z.min (Z.of_nat n) (total - 1)) in *. split_and!; [f_equal; lia|done|done|by eapply beside_trans|].
    eapply changed_trans; [lia|lia|exact Hc1|]. by replace (q * 512 + i + 1) with (q * 512 + (i + 1)) by lia.
Qed.

(** Where a table is missing the walk skips only pages without tables. *)
Definition exact T (v n : Z) : Prop :=
  ∀ l w x, 0 ≤ l < 3 → v ≤ w < v + n → T !! (l + 1, pre (l + 1) w) = None →
    w ≤ x < w + skip l (w * 4096) → x < v + n → T !! (3, pre 3 x) = None.

(** Each page of the range was changed, or skipped.  None is skipped before the first one whose table is missing, and it is known when none
    with an entry is skipped. *)
Record walked T (v n : Z) (g g' : Z → Z) : Prop := {
  wk_outside w : 0 ≤ w → ¬ (v ≤ w < v + n) → g' w = g w;
  wk_inside w : v ≤ w < v + n → g' w = g w ∨ g' w = f (g w);
  wk_exact : exact T v n → f 0 = 0 → changed (λ _, f) v n g g';
  wk_prefix w : v ≤ w < v + n → (∀ y, v ≤ y ≤ w → is_Some (T !! (3, pre 3 y))) → g' w = f (g w)
}.

Lemma walked_none T v n g : n ≤ 0 → walked T v n g g.
Proof. intros Hn. split; [done|lia| |lia]. intros _ _ w Hw. by rewrite decide_False by lia. Qed.

Lemma walked_skip s T v n l g' :
  0 ≤ v → 0 < n → 0 ≤ l < 3 → T !! (l + 1, pre (l + 1) v) = None → T !! (3, pre 3 v) = None →
  walked T (v + skip l (v * 4096)) (n - skip l (v * 4096)) (entry_of s T) g' → walked T v n (entry_of s T) g'.
Proof.
  intros Hv Hn Hl Hm Hm3 [H1 H2 H3 _]. pose proof (Hskip l v Hv). set (k := skip l (v * 4096)) in *. split.
  - intros w Hw Ho. apply H1; [done|lia].
  - intros w Hw. destruct (decide (v + k ≤ w)); [apply H2; lia|left; apply H1; lia].
  - intros Hx Hf0 w Hw. assert (exact T (v + k) (n - k)) as Hx' by (intros l' w' x' ?????; eapply Hx; try done; lia).
    rewrite (H3 Hx' Hf0 w Hw). destruct (decide (v ≤ w < v + n)) as [Hr|]; [|by rewrite decide_False by lia].
    destruct (decide (v + k ≤ w)); [by rewrite decide_True by lia|]. rewrite decide_False by lia.
    unfold entry_of. rewrite (Hx l v w) by (done || lia). done.
  - intros w Hw Ht. destruct (Ht v ltac:(lia)) as [b Hb]. congruence.
Qed.

Lemma walked_step T v n k g g1 g' :
  0 ≤ v → 0 < k ≤ n → changed (λ _, f) v k g g1 → walked T (v + k) (n - k) g1 g' → walked T v n g g'.
Proof.
  intros Hv Hk Hc [H1 H2 H3 H4]. split.
  - intros w Hw Ho. rewrite H1 by lia. rewrite (Hc w Hw). by rewrite decide_False by lia.
  - intros w Hw. assert (0 ≤ w) as Hw0 by lia. pose proof (Hc w Hw0) as Ec. destruct (decide (v + k ≤ w)).
    + rewrite decide_False in Ec by lia. rewrite <-Ec. apply H2. lia.
    + rewrite decide_True in Ec by lia. right. rewrite <-Ec. apply H1; lia.
  - intros Hx Hf0. replace n with (k + (n - k)) by lia. eapply changed_trans; [lia|lia|done|]. apply H3; [|done].
    intros l w x ?????. eapply Hx; try done; lia.
  - intros w Hw Ht. pose proof (Hc w ltac:(lia)) as Ec. destruct (decide (v + k ≤ w)).
    + rewrite decide_False in Ec by lia. rewrite <-Ec. apply H4; [lia|]. intros y Hy. apply Ht. lia.
    + rewrite decide_True in Ec by lia. rewrite <-Ec. apply H1; lia.
Qed.

Lemma wp_walk_loop fuel s root T U v total :
  pt_ok s root T U → 0 ≤ v → (0 < total → v + total ≤ lim * 2 ^ 27) → (Z.to_nat total ≤ fuel)%nat →
  wp (walk_loop skip f fuel root (v * 4096) total) (λ _ s', pt_ok s' root T U ∧ src s' = src s ∧ beside T U s s' ∧
    walked T v total (entry_of s T) (entry_of s' T)) s.
Proof.
  revert s v total. induction fuel as [|fuel IH]; intros s v total HI Hv Hr Hfuel; cbn [walk_loop].
  { rewrite bool_decide_eq_false_2 by lia. wp_seq. split_and!; [done..|]. apply walked_none. lia. }
  case_bool_decide as Hd; [|wp_seq; split_and!; [done..|]; apply walked_none; lia].
  assert (user lim v) as Hu by (split; lia). destruct (user_pre _ _ (pt_lim _ _ _ _ HI) Hu) as [E0 E1].
  assert (v * 4096 / 4096 = v) as Ev by (by apply Z.div_mul).
  assert (T !! (0, pre 0 v) = Some root) as H0 by (rewrite E0; apply HI).
  assert (∀ l, 0 ≤ l < 3 → T !! (l + 1, pre (l + 1) v) = None →
    wp (walk_loop skip f fuel root (wrap_u64 (v * 4096 + skip l (v * 4096) * PAGE_SIZE)) (total - skip l (v * 4096)))
      (λ _ s', pt_ok s' root T U ∧ src s' = src s ∧ beside T U s s' ∧ walked T v total (entry_of s T) (entry_of s' T)) s) as Hgo.
  { intros l Hl Hm. pose proof (Hskip l v Hv) as Hk. pose proof (pt_lim _ _ _ _ HI). unfold user in Hu. unfold PAGE_SIZE, BUDDY_PAGE_SIZE.
    rewrite wrap_u64_small by lia. rewrite <-Z.mul_add_distr_r. eapply wp_mono; [apply IH; done || lia|].
    intros [] s' (?&?&?&?). split_and!; [done..|]. eapply walked_skip; try done; try lia. by eapply (missing_below _ _ _ _ (l + 1) v v); [..|reflexivity]; [done|lia|done]. }
  wp_seq. eapply (wp_next _ _ _ _ 0 v); try done; [lia| |by intros; apply (Hgo 0)]. intros a1 H1. wp_seq.
  eapply (wp_next _ _ _ _ 1 v); try done; [|by intros; apply (Hgo 1)]. intros a2 H2. wp_seq.
  eapply (wp_next _ _ _ _ 2 v); try done; [|by intros; apply (Hgo 2)]. intros a3 H3. wp_seq.
  rewrite l3_index, Ev.
  change PTP_ENTRIES with 512. pose proof (Z.mod_pos_bound v 512 ltac:(lia)). rewrite (page_split v) at 3.
  eapply wp_mono; [apply (wp_walk_ptes _ s root T U (pre 3 v) a3 (v mod 512) total); try done; try lia; by eapply user_l3|].
  intros r s2 (->&HI2&Es&Hb2&Hch). rewrite <-page_split in *. rewrite Z2Nat.id in * by lia. cbv beta iota.
  set (k := Z.min (512 - v mod 512) total) in *. assert (0 < k ≤ total) as Hk by lia.
  eapply wp_mono; [apply (IH s2 (v + k) (total - k)); done || lia|].
  intros [] s3 (HI3&Es3&Hb3&Hw). split_and!; [done|by rewrite Es3|by eapply beside_trans|]. by eapply walked_step.
Qed.
End walk.
(** ** Looking up an address *)

(** An entry that stands for a page. *)
Definition mapped e : bool := has e PAGE_PRESENT || is_migration_entry e.

Lemma wp_next_leaf s root T U v va a :
  pt_ok s root T U → v = va / 4096 → T !! (3, pre 3 v) = Some a →
  wp (get_next_ptp a 3 va false) (λ r s', s' = s ∧ entry s a (v mod 512) = Some (entry_of s T v) ∧
    r = if mapped (entry_of s T v) then NextPtp BLOCK_PTP (GET_NEXT_PTP (entry_of s T v)) (a, v mod 512) else NoMapping) s.
Proof.
  intros HI Hv Ha. pose proof (Z.mod_pos_bound v 512 ltac:(lia)) as Hi. destruct (pt_entry _ _ _ _ _ _ _ HI Ha Hi) as (e&He&_).
  assert (entry_of s T v = e) as -> by (unfold entry_of; rewrite Ha; simpl; by rewrite He).
  destruct (pt_addr _ _ _ _ _ _ HI Ha) as [_ Hk]. unfold get_next_ptp.
  rewrite bool_decide_eq_false_2 by (unfold KBASE in Hk; lia). rewrite l3_index, <-Hv. wp_seq.
  rewrite (bool_decide_eq_true_2 (3 = 3)) by done. cbn [orb]. eapply wp_read_pte; [done|].
  rewrite <-negb_orb. fold (mapped e). destruct (mapped e); cbn [negb]; wp_seq; [|done]. eapply wp_read_pte; [done|]. wp_seq. done.
Qed.

(** The direct map does not reach page frames from [KCODE - KBASE] on. *)
Definition reachable e : Prop := pte_pfn e * 4096 < KCODE - KBASE.

Lemma wp_found_page s e want va (p : Z * Z) (Q : query_result → pgmem A → Prop) :
  (want = true → reachable e) →
  Q (inr (if want then Some (pte_pfn e * 4096 + va mod 4096) else None, p)) s →
  wp (found_page want (GET_NEXT_PTP e) (GET_VA_OFFSET_L3 va) p) Q s.
Proof.
  intros Hr HQ. unfold found_page. destruct want; [|by wp_seq]. specialize (Hr eq_refl). unfold reachable, KCODE, KBASE in Hr.
  pose proof (pte_pfn_range e). pose proof (Z.mod_pos_bound va 4096 ltac:(lia)). wp_seq. unfold virt_to_phys. wp_seq.
  unfold GET_NEXT_PTP, GET_PADDR_IN_PTE, phys_to_virt, KBASE, KCODE, PAGE_SHIFT. rewrite Z.shiftl_mul_pow2 by lia.
  change (2 ^ 12) with 4096. rewrite (wrap_u64_small (_ + 18446742974197923840)) by lia.
  apply wp_bug_on; [rewrite !bool_decide_eq_false_2 by lia; done|]. wp_seq.
  unfold GET_VA_OFFSET_L3. change (Z.shiftl 1 L3_INDEX_SHIFT - 1) with (Z.ones 12). rewrite Z.land_ones by lia.
  change (2 ^ 12) with 4096. rewrite Z.add_simpl_r. rewrite wrap_u64_small by lia. done.
Qed.

Lemma wp_query s root T U want pgtbl v va :
  pt_ok s root T U → remove_pcid pgtbl = root → v = va / 4096 → user lim v →
  (want = true → mapped (entry_of s T v) = true → reachable (entry_of s T v)) →
  wp (query_in_pgtbl want pgtbl va) (λ r s', s' = s ∧
    if mapped (entry_of s T v) then ∃ p : Z * Z, entry s p.1 p.2 = Some (entry_of s T v) ∧
      r = inr (if want then Some (pte_pfn (entry_of s T v) * 4096 + va mod 4096) else None, p)
    else r = inl (- ENOMAPPING)) s.
Proof.
  intros HI Hp Hv Hu Hr. destruct (user_pre _ _ (pt_lim _ _ _ _ HI) Hu) as [E0 E1].
  assert (T !! (0, pre 0 v) = Some root) as H0 by (rewrite E0; apply HI).
  assert (∀ l, 0 ≤ l < 3 → T !! (l + 1, pre (l + 1) v) = None → mapped (entry_of s T v) = false) as Hno.
  { intros l Hl Hm. unfold entry_of. by rewrite (missing_below _ _ _ _ (l + 1) v v HI ltac:(lia) Hm eq_refl). }
  unfold query_in_pgtbl. rewrite Hp. wp_seq.
  eapply (wp_next _ _ _ _ 0 v); try done; [lia| |intros Hm _; wp_seq; by rewrite (Hno 0)]. intros a1 H1. wp_seq.
  eapply (wp_next _ _ _ _ 1 v); try done; [|intros Hm _; wp_seq; by rewrite (Hno 1)]. intros a2 H2.
  rewrite bool_decide_eq_false_2 by done. wp_seq.
  eapply (wp_next _ _ _ _ 2 v); try done; [|intros Hm _; wp_seq; by rewrite (Hno 2)]. intros a3 H3.
  rewrite bool_decide_eq_false_2 by done. wp_seq.
  eapply wp_mono; [by eapply (wp_next_leaf _ _ _ _ v)|]. intros r s' (->&He&->).
  destruct (mapped (entry_of s T v)) eqn:Hmap; [|by wp_seq].
  apply wp_found_page; [by intros; apply Hr|]. split; [done|]. by exists (a3, v mod 512).
Qed.

(** ** Release *)

(** The tables at [(l, q)] and below. *)
Definition sub T (l q b : Z) : Prop := ∃ l' q', T !! (l', q') = Some b ∧ l ≤ l' ∧ q' / 2 ^ (9 * (l' - l)) = q.

Lemma sub_split T l q b : 0 ≤ l → sub T l q b ↔ T !! (l, q) = Some b ∨ ∃ i, 0 ≤ i < 512 ∧ sub T (l + 1) (q * 512 + i) b.
Proof.
  intros Hl. split.
  - intros (l'&q'&Hb&Hle&Hq). destruct (decide (l' = l)) as [->|Hne].
    + left. rewrite Z.sub_diag in Hq. change (2 ^ (9 * 0)) with 1 in Hq. rewrite Z.div_1_r in Hq. congruence.
    + right. set (x := q' / 2 ^ (9 * (l' - (l + 1)))).
      assert (x / 512 = q) as Hx.
      { unfold x. change 512 with (2 ^ 9). rewrite Z.div_div, <-Z.pow_add_r by (try apply Z.pow_pos_nonneg; lia). rewrite <-Hq. do 2 f_equal. lia. }
      exists (x mod 512). split; [by apply Z.mod_pos_bound|]. exists l', q'. split_and!; [done|lia|].
      fold x. pose proof (Z.div_mod x 512 ltac:(lia)). lia.
  - intros [Hb|(i&Hi&l'&q'&Hb&Hle&Hq)].
    + exists l, q. split_and!; [done|lia|]. rewrite Z.sub_diag. change (2 ^ (9 * 0)) with 1. apply Z.div_1_r.
    + exists l', q'. split_and!; [done|lia|]. replace (9 * (l' - l)) with (9 * (l' - (l + 1)) + 9) by lia.
      rewrite Z.pow_add_r, <-Z.div_div, Hq by (try apply Z.pow_pos_nonneg; lia). change (2 ^ 9) with 512.
      rewrite Z.div_add_l, Z.div_small by lia. lia.
Qed.

Lemma sub_unique s root T U l q q' b : pt_ok s root T U → sub T l q b → sub T l q' b → q = q'.
Proof. intros HI (l1&x1&H1&_&<-) (l2&x2&H2&_&<-). pose proof (pt_inj _ _ _ _ HI _ _ _ H1 H2). by simplify_eq. Qed.

Section free.
Context (s : pgmem A) (root : Z) (T : tables) (U : gset Z).
Hypothesis HI : pt_ok s root T U.

(** The pages [F] were given back; the others are as in [s]. *)
Definition freed (F : Z → Prop) (s' : pgmem A) : Prop :=
  (∃ U', ps_inv (src s') U' ∧ ∀ b, b ∈ U' ↔ b ∈ U ∧ ¬ F b) ∧ ∀ b, ¬ F b → ptps s' !! b = ptps s !! b.

Lemma freed_ext F F' s' : (∀ b, F b ↔ F' b) → freed F s' → freed F' s'.
Proof. intros E [(U'&?&HU) Hp]. split; [exists U'; split; [done|]; intros b; by rewrite HU, E|]. intros b Hb. apply Hp. by rewrite E. Qed.

Lemma wp_kfree_ptp s' F k a : freed F s' → T !! k = Some a → ¬ F a → wp (kfree_ptp a) (λ _, freed (λ b, F b ∨ b = a)) s'.
Proof.
  intros [(U'&Hps&HU) Hp] Ha HF. destruct (pt_addr _ _ _ _ _ _ HI Ha) as [Hal _]. unfold kfree_ptp. wp_seq.
  apply wp_bug_on; [|wp_seq; apply wp_on_src; eapply wp_mono; [by eapply ps_put; [done|]; apply HU; split; [by eapply pt_own|]|]].
  - rewrite bool_decide_eq_true_2; [done|]. apply Z.mod_divide; [done|]. exact Hal.
  - intros [] x Hx. wp_seq. split; simpl.
    + eexists. split; [exact Hx|]. intros b. rewrite elem_of_difference, elem_of_singleton, HU. naive_solver.
    + intros b Hb. rewrite lookup_delete_ne by naive_solver. apply Hp. naive_solver.
Qed.

Definition frees (l : Z) (body : Z → M (pgmem A) unit) : Prop :=
  ∀ q a s' F, T !! (l, q) = Some a → freed F s' → (∀ b, sub T l q b → ¬ F b) →
    wp (body a) (λ _, freed (λ b, F b ∨ sub T l q b)) s'.

Lemma frees_leaf : frees 3 kfree_ptp.
Proof.
  intros q a s' F Ha Hfr HF. assert (sub T 3 q a) as Hs by (apply sub_split; [lia|by left]).
  eapply wp_mono; [eapply wp_kfree_ptp; [done|done|by apply HF]|]. intros [] s2. apply freed_ext. intros b. split; [naive_solver|].
  intros [?|(l'&q'&Hb&Hl&Hq)]; [by left|right]. destruct (pt_key _ _ _ _ HI _ _ _ Hb) as (?&_). assert (l' = 3) as -> by lia.
  change (2 ^ (9 * (3 - 3))) with 1 in Hq. rewrite Z.div_1_r in Hq. congruence.
Qed.

Lemma sub_child l q a i b : 0 ≤ l → T !! (l, q) = Some a → 0 ≤ i < 512 → sub T (l + 1) (q * 512 + i) b → sub T l q b ∧ b ≠ a.
Proof.
  intros Hl Ha Hi Hb. split; [apply sub_split; [lia|right; eauto]|]. intros ->. destruct Hb as (l'&q'&Hb&Hle&_).
  pose proof (pt_inj _ _ _ _ HI _ _ _ Ha Hb). simplify_eq. lia.
Qed.

(** The pages freed when the loop over the entries of table [q] of level [l] is at [i]. *)
Definition freed_below (F : Z → Prop) (l q i b : Z) : Prop := F b ∨ ∃ j, 0 ≤ j < i ∧ sub T (l + 1) (q * 512 + j) b.

Lemma freed_below_S F l q i b : 0 ≤ i → freed_below F l q (i + 1) b ↔ freed_below F l q i b ∨ sub T (l + 1) (q * 512 + i) b.
Proof.
  intros Hi. unfold freed_below. split.
  - intros [?|(j&?&?)]; [by left; left|]. destruct (decide (j = i)) as [->|]; [by right|left; right; exists j; split; [lia|done]].
  - intros [[?|(j&?&?)]|?]; [by left|right; exists j; split; [lia|done]|right; exists i; split; [lia|done]].
Qed.

Lemma root_not_freed F l q a i : 0 ≤ l → T !! (l, q) = Some a → (∀ b, sub T l q b → ¬ F b) → i ≤ 512 → ¬ freed_below F l q i a.
Proof.
  intros Hl Ha HF Hi [Hfa|(j&Hj&Hs)]; [eapply HF; [apply sub_split; [lia|by left]|done]|]. by destruct (sub_child l q a j a) as [_ ?]; [lia|done|lia|..].
Qed.

Lemma frees_entry l q a i body s2 F :
  0 ≤ l < 3 → frees (l + 1) body → T !! (l, q) = Some a → (∀ b, sub T l q b → ¬ F b) → 0 ≤ i < 512 → (l = 0 → i < lim) →
  freed (freed_below F l q i) s2 →
  wp (e ← read_pte (a, i); if IS_PTE_INVALID e then mret tt else body (GET_NEXT_PTP e)) (λ _, freed (freed_below F l q (i + 1))) s2.
Proof.
  intros Hl Hbody Ha HF Hi Hi' Hf2. pose proof (root_not_freed F l q a i ltac:(lia) Ha HF ltac:(lia)) as Hfa.
  destruct (pt_entry _ _ _ _ _ _ i HI Ha ltac:(lia)) as (e&He&_). wp_seq.
  assert (entry s2 a i = Some e) as He2 by (unfold entry in *; by rewrite (proj2 Hf2 a Hfa)). eapply wp_read_pte; [exact He2|].
  assert (leads e (T !! (l + 1, q * 512 + i))) as Hle by (eapply (pt_child _ _ _ _ HI); (done || lia)).
  unfold IS_PTE_INVALID. destruct (T !! (l + 1, q * 512 + i)) as [b|] eqn:Hb.
  - destruct Hle as (->&_&->). cbn [negb]. eapply wp_mono; [eapply Hbody; [done|done|]|].
    + intros c Hc [Hfc|(j&Hj&Hs)]; [eapply HF; [by apply (sub_child l q a i); [lia|..]|done]|].
      pose proof (sub_unique _ _ _ _ _ _ _ _ HI Hc Hs). lia.
    + intros [] s3. apply freed_ext. intros c. by rewrite freed_below_S by lia.
  - destruct Hle as (->&_). cbn [negb]. wp_seq. eapply freed_ext; [|exact Hf2]. intros c. rewrite freed_below_S by lia. split; [by left|].
    intros [?|Hs]; [done|]. destruct Hs as (l'&q'&Hc&Hle&Hq). destruct (pt_up _ _ _ _ (l + 1) l' q' c HI Hc ltac:(lia)) as [d Hd].
    rewrite Hq in Hd. congruence.
Qed.

Lemma frees_level l n body : 0 ≤ l < 3 → n = (if decide (l = 0) then lim else 512) → frees (l + 1) body →
  frees l (λ a, each_table n a body;; kfree_ptp a).
Proof.
  intros Hl Hn Hbody q a s' F Ha Hfr HF. pose proof (pt_lim _ _ _ _ HI). assert (0 ≤ n ≤ 512) as Hn' by (case_decide; lia).
  wp_seq. eapply wp_mono; [unfold each_table; apply (wp_for_up (λ i s2, freed (freed_below F l q i) s2)); [|]|].
  - eapply freed_ext; [|exact Hfr]. intros b. split; [by left|]. intros [?|(j&?&_)]; [done|lia].
  - intros i s2 Hi Hf2. rewrite Z2Nat.id, Z.add_0_l in Hi by lia. eapply frees_entry; try done; [lia|]. intros ->. case_decide; [lia|done].
  - intros [] s2 Hf2. rewrite Z2Nat.id, Z.add_0_l in Hf2 by lia.
    eapply wp_mono; [eapply wp_kfree_ptp; [exact Hf2|done|by eapply root_not_freed; [lia|done..|lia]]|].
    intros [] s3. apply freed_ext. intros b. rewrite (sub_split T l q b) by lia. split.
    + intros [[?|(j&?&?)]| ->]; [by left|right; right; exists j; split; [lia|done]|right; by left].
    + intros [?|[Hb|(j&Hj&Hs)]]; [by left; left|right; congruence|]. left; right. exists j. split; [|done].
      destruct (decide (l = 0)) as [->|]; [|lia]. split; [lia|]. destruct Hs as (l'&q'&Hb&Hle&Hq).
      destruct (pt_key _ _ _ _ HI _ _ _ Ha) as (_&_&Hz&_). specialize (Hz eq_refl).
      destruct (pt_key _ _ _ _ HI _ _ _ Hb) as (_&_&_&Hlt). specialize (Hlt ltac:(lia)).
      replace (l' - (0 + 1)) with (l' - 1) in Hq by lia. subst n q. lia.
Qed.
End free.
End proofs.
