(* ===== verification/PageTableCopy.v ===== *)
(** The copy of a page table ([pgtbl_deep_copy]), with pages of any size, the tables of the boot code that every root leads to, and a destination
    root that has entries already. *)
From S2P Require Import Prelude Words PageTable PageTableProofs.

(** What a page table says, without the places of its tables: for each entry nothing, a page (of 4K, 2M or 1G), or the flags of the entry
    and the table that it leads to.  Entries that are not present say nothing, those of pages under migration among them. *)
Inductive vent : Set := VNone | VPage (e : Z) | VTable (flags : Z) (sub : list vent).

Section copy.
Context {A : Type} `{Hops : PageSource A, Hlaws : !PageSourceSpec A}.
Implicit Types (s : pgmem A) (U K N : gset Z) (a b d e p x : Z) (es ds : list Z) (k n : nat).

Definition entries s a : list Z := default [] (ptps s !! a).

(** An entry with [k] levels of tables below it *)
Fixpoint vent_of k s e : vent :=
  if negb (has e PAGE_PRESENT) then VNone
  else match k with
       | O => VPage e
       | S k' => if has e PAGE_PSE then VPage e else VTable (pte_set_pfn e 0) (vent_of k' s <$> entries s (GET_NEXT_PTP e))
       end.
Definition view k s a : list vent := vent_of k s <$> entries s a.

(** The tables below an entry, once for each entry that leads to them *)
Fixpoint below k s e : list Z :=
  match k with
  | O => []
  | S k' =>
      if has e PAGE_PRESENT && negb (has e PAGE_PSE) then GET_NEXT_PTP e :: concat (below k' s <$> entries s (GET_NEXT_PTP e)) else []
  end.
Definition tables_of k s a : list Z := a :: concat (below k s <$> entries s a).

Definition is_table s a : Prop := ∃ es, ptps s !! a = Some es ∧ length es = Z.to_nat PTP_ENTRIES.

(** The next [n] pages of the allocator exist and are none of [K]. *)
Fixpoint room_off K n (x : A) : Prop :=
  match n with
  | O => True
  | S n' => match get_page x with Ret (p, x') => p ≠ 0 ∧ p ∉ K ∧ room_off K n' x' | Halt _ => False end
  end.

(** ** What a table says depends on its tables only *)

Lemma concat_in {B C} (f : B → list C) (l : list B) (c : C) : c ∈ concat (f <$> l) ↔ ∃ y, y ∈ l ∧ c ∈ f y.
Proof.
  induction l as [|y l IH]; cbn.
  - split; [by intros ?%not_elem_of_nil|]. by intros (?&?%not_elem_of_nil&_).
  - rewrite elem_of_app, IH. split.
    + intros [?|(z&?&?)]; [exists y; split; [by left|done]|exists z; split; [by right|done]].
    + intros (z&[->|?]%elem_of_cons&?); [by left|right; eauto].
Qed.

Lemma vent_frame k s s' : ∀ e, (∀ b, b ∈ below k s e → ptps s' !! b = ptps s !! b) →
  vent_of k s' e = vent_of k s e ∧ below k s' e = below k s e.
Proof.
  induction k as [|k IH]; intros e Hb; cbn [vent_of below] in *; [done|].
  destruct (has e PAGE_PRESENT); cbn [negb andb] in *; [|done]. destruct (has e PAGE_PSE); cbn [negb] in *; [done|].
  assert (entries s' (GET_NEXT_PTP e) = entries s (GET_NEXT_PTP e)) as -> by (unfold entries; rewrite Hb; [done|by left]).
  assert (∀ y, y ∈ entries s (GET_NEXT_PTP e) → vent_of k s' y = vent_of k s y ∧ below k s' y = below k s y) as Hy.
  { intros y Hy. apply IH. intros b Hin. apply Hb. right. apply concat_in. eauto. }
  assert (∀ B (f g : Z → B), (∀ y, y ∈ entries s (GET_NEXT_PTP e) → f y = g y) → f <$> entries s (GET_NEXT_PTP e) = g <$> entries s (GET_NEXT_PTP e)) as Hext.
  { intros B f g Hfg. apply list_fmap_ext. intros i y Hi%list_elem_of_lookup_2. by apply Hfg. }
  by split; (erewrite Hext; [reflexivity|]); intros y ?; apply Hy.
Qed.

Lemma flags_copy e pfn : pte_set_pfn (pte_set_pfn e pfn) 0 = pte_set_pfn e 0.
Proof. apply Z.bits_inj'. intros n Hn. rewrite !pte_set_pfn_bit by lia. by case_decide. Qed.

Lemma leads_copy e p : has e PAGE_PRESENT = true → has e PAGE_PSE = false → aligned p 12 → KBASE ≤ p < KCODE →
  leads (pte_set_pfn e (Z.shiftr (p - KBASE) PAGE_SHIFT)) (Some p).
Proof.
  intros H1 H2 Ha Hp. rewrite has_present in H1. change PAGE_PSE with (Z.shiftl 1 7) in *. rewrite has_bit in H2 by lia.
  split_and!; [| |by apply set_pfn_next].
  - by rewrite has_present, pte_set_pfn_bit, decide_False by lia.
  - change PAGE_PSE with (Z.shiftl 1 7). by rewrite has_bit, pte_set_pfn_bit, decide_False by lia.
Qed.

Lemma put_put s a i v v' : put_entry (put_entry s a i v) a i v' = put_entry s a i v'.
Proof.
  unfold put_entry, set_ptps. simpl. f_equal. apply map_eq. intros b. destruct (decide (b = a)) as [->|].
  - rewrite !lookup_alter_eq. destruct (ptps s !! a); [|done]. simpl. by rewrite list_insert_insert_eq.
  - by rewrite !lookup_alter_ne.
Qed.

(** ** One level *)

(** The tables below [es] are tables, are known, and [d] is not one of them. *)
Definition below_ok k s U K d es : Prop := ∀ e b, e ∈ es → b ∈ below k s e → b ∈ U ∪ K ∧ b ≠ d ∧ is_table s b.

Definition present_in es ds : Prop := ∀ j e x, es !! j = Some e → ds !! j = Some x → has x PAGE_PRESENT = true → has e PAGE_PRESENT = true.

(** After [i] entries of [es] have been copied to the table [d]; [N] are the new tables. *)
Record copying k s U K d es ds n (i : nat) s' N : Prop := {
  cy_entries : ∃ ds', ptps s' !! d = Some ds' ∧ length ds' = length es ∧
    (∀ j e x, (j < i)%nat → es !! j = Some e → ds' !! j = Some x → vent_of k s' x = vent_of k s e ∧ ∀ b, b ∈ below k s' x → b ∈ N) ∧
    (∀ j, (i ≤ j)%nat → ds' !! j = ds !! j);
  cy_frame b : b ≠ d → b ∉ N → ptps s' !! b = ptps s !! b;
  cy_new : N ## U ∪ K;
  cy_inv : ps_inv (src s') (N ∪ U);
  cy_room : room_off K (length (concat (below k s <$> drop i es)) + n) (src s')
}.

Definition copies k : Prop := ∀ s U K a d es ds n, ps_inv (src s) U → a ∈ U ∪ K → d ∈ U → a ≠ d →
  ptps s !! a = Some es → ptps s !! d = Some ds → length es = Z.to_nat PTP_ENTRIES → length ds = Z.to_nat PTP_ENTRIES →
  below_ok k s U K d es → present_in es ds → room_off K (length (concat (below k s <$> es)) + n) (src s) →
  wp (__pgtbl_deep_copy k a d) (λ _ s', ∃ N, copying k s U K d es ds n (Z.to_nat PTP_ENTRIES) s' N) s.

(** The entry of [d] is set, or is left alone when the entry of the source is not present. *)
Lemma copying_entry k s U K d es ds n i s1 s2 N N2 e x : copying k s U K d es ds n i s1 N → (i < length es)%nat → es !! i = Some e →
  (d ∉ N) → N ⊆ N2 → N2 ## U ∪ K → d ∈ U →
  (∀ b, b ∈ N → ptps s2 !! b = ptps s1 !! b) → (∀ b, b ≠ d → b ∉ N2 → ptps s2 !! b = ptps s1 !! b) →
  (∃ ds', ptps s1 !! d = Some ds' ∧ ptps s2 !! d = Some (<[i := x]> ds')) →
  vent_of k s2 x = vent_of k s e → (∀ b, b ∈ below k s2 x → b ∈ N2) →
  ps_inv (src s2) (N2 ∪ U) → room_off K (length (concat (below k s <$> drop (S i) es)) + n) (src s2) →
  copying k s U K d es ds n (S i) s2 N2.
Proof.
  intros [(ds'&Hd&Hlen&Hdone&Hrest) Hfr Hnew _ _] Hi He HdN HN HN2 HdU Hold Hframe (ds1&Hd1&Hd2) Hv Hb Hinv Hroom.
  rewrite Hd in Hd1. injection Hd1 as <-. split; [|by intros b ??; rewrite Hframe, Hfr by set_solver|done|done|done].
  exists (<[i := x]> ds'). split_and!; [done|by rewrite length_insert| |].
  - intros j e' x' Hj He' Hx'. destruct (decide (j = i)) as [->|Hne].
    + rewrite list_lookup_insert_eq in Hx' by lia. injection Hx' as <-. rewrite He in He'. injection He' as <-. done.
    + rewrite list_lookup_insert_ne in Hx' by done. destruct (Hdone j e' x' ltac:(lia) He' Hx') as [Hv' Hb'].
      destruct (vent_frame k s1 s2 x') as [E1 E2]; [intros b Hin; by apply Hold, Hb'|]. rewrite E1, E2. split; [done|].
      intros b Hin. by apply HN, Hb'.
  - intros j Hj. rewrite list_lookup_insert_ne by lia. apply Hrest. lia.
Qed.

(** The loop over the entries, from what it does for one entry *)
Lemma wp_copy_loop k s U K a d es ds n (body : Z → M (pgmem A) unit) : ps_inv (src s) U → a ∈ U ∪ K → d ∈ U → a ≠ d →
  ptps s !! a = Some es → ptps s !! d = Some ds → length es = Z.to_nat PTP_ENTRIES → length ds = Z.to_nat PTP_ENTRIES →
  room_off K (length (concat (below k s <$> es)) + n) (src s) →
  (∀ i s1 N e, es !! i = Some e → copying k s U K d es ds n i s1 N → d ∉ N → entry s1 a (Z.of_nat i) = Some e →
    wp (body (Z.of_nat i)) (λ _ s2, ∃ N2, copying k s U K d es ds n (S i) s2 N2) s1) →
  wp (for_up (Z.to_nat PTP_ENTRIES) 0 body) (λ _ s', ∃ N, copying k s U K d es ds n (Z.to_nat PTP_ENTRIES) s' N) s.
Proof.
  intros Hps Ha Hd Hne Hes Hds Hle Hld Hroom Hbody. eapply wp_mono.
  - apply (wp_for_up (λ i s1, ∃ N, copying k s U K d es ds n (Z.to_nat i) s1 N)).
    + exists ∅. split; [|done|set_solver|by rewrite union_empty_l_L|done]. exists ds. split_and!; [done|lia|intros; lia|done].
    + intros i s1 Hi (N&HC). assert (is_Some (es !! Z.to_nat i)) as [e He] by (apply lookup_lt_is_Some_2; lia).
      assert (d ∉ N ∧ a ∉ N) as [HdN HaN] by (pose proof (cy_new _ _ _ _ _ _ _ _ _ _ _ HC); set_solver).
      specialize (Hbody _ s1 N e He HC HdN). rewrite Z2Nat.id in Hbody by lia. replace (Z.to_nat (i + 1)) with (S (Z.to_nat i)) by lia.
      apply Hbody. unfold entry. by rewrite (cy_frame _ _ _ _ _ _ _ _ _ _ _ HC), Hes by done.
  - intros [] s' (N&HC). exists N. by rewrite Z.add_0_l, Nat2Z.id in HC.
Qed.

(** An entry without a table below it *)
Lemma copying_leaf k s U K d es ds n i s1 N e ds' : copying k s U K d es ds n i s1 N → es !! i = Some e → d ∉ N → d ∈ U →
  present_in es ds → ptps s1 !! d = Some ds' → below k s e = [] → (∀ s', vent_of k s' e = vent_of k s e ∧ below k s' e = []) →
  copying k s U K d es ds n (S i) (if has e PAGE_PRESENT then put_entry s1 d (Z.of_nat i) e else s1) N.
Proof.
  intros HC He HdN HdU Hpr Hd Hb Hv. pose proof HC as [(ds1&Hd1&Hlen&_&Hrest) _ Hnew Hinv Hroom]. rewrite Hd in Hd1. injection Hd1 as <-.
  pose proof (lookup_lt_Some _ _ _ He) as Hi. rewrite (drop_S _ _ _ He) in Hroom. cbn in Hroom. rewrite Hb in Hroom. cbn in Hroom.
  assert (is_Some (ds' !! i)) as [x Hx] by (apply lookup_lt_is_Some_2; lia).
  eapply (copying_entry k s U K d es ds n i s1 _ N N e (if has e PAGE_PRESENT then e else x)); try done.
  - intros b HbN. destruct (has e PAGE_PRESENT); [|done]. cbn. rewrite lookup_alter_ne; [done|]. by intros ->.
  - intros b Hbd _. destruct (has e PAGE_PRESENT); [|done]. cbn. by rewrite lookup_alter_ne.
  - exists ds'. split; [done|]. destruct (has e PAGE_PRESENT); [cbn; by rewrite lookup_alter_eq, Hd, Nat2Z.id|]. by rewrite list_insert_id.
  - destruct (has e PAGE_PRESENT) eqn:Hp; [apply Hv|]. assert (has x PAGE_PRESENT = false) as Hxp.
    { destruct (has x PAGE_PRESENT) eqn:E; [|done]. rewrite Hrest in Hx by lia. rewrite (Hpr i e x He Hx E) in Hp. done. }
    destruct k; cbn; by rewrite Hp, Hxp.
  - intros b. destruct (has e PAGE_PRESENT) eqn:Hp; [rewrite (proj2 (Hv _)); by intros ?%not_elem_of_nil|].
    assert (has x PAGE_PRESENT = false) as Hxp.
    { destruct (has x PAGE_PRESENT) eqn:E; [|done]. rewrite Hrest in Hx by lia. rewrite (Hpr i e x He Hx E) in Hp. done. }
    destruct k; cbn; rewrite ?Hxp; by intros ?%not_elem_of_nil.
  - by destruct (has e PAGE_PRESENT).
  - by destruct (has e PAGE_PRESENT).
Qed.

Lemma copying_lookup k s U K d es ds n i s1 N e : copying k s U K d es ds n i s1 N → es !! i = Some e →
  ∃ ds' x, ptps s1 !! d = Some ds' ∧ entry s1 d (Z.of_nat i) = Some x.
Proof.
  intros [(ds'&Hd&Hlen&_) _ _ _ _] He%lookup_lt_Some. assert (is_Some (ds' !! i)) as [x Hx] by (apply lookup_lt_is_Some_2; lia).
  exists ds', x. split; [done|]. unfold entry. rewrite Hd. cbn. by rewrite Nat2Z.id.
Qed.

Lemma copies_last : copies 0.
Proof.
  intros s U K a d es ds n Hps Ha Hd Hne Hes Hds Hle Hld Hok Hpr Hroom. cbn [__pgtbl_deep_copy].
  eapply (wp_copy_loop 0); try done. intros i s1 N e He HC HdN Hea. wp_seq. eapply wp_read_pte; [exact Hea|].
  destruct (copying_lookup _ _ _ _ _ _ _ _ _ _ _ _ HC He) as (ds'&x&Hd'&Hx).
  pose proof (copying_leaf 0 s U K d es ds n i s1 N e ds' HC He HdN Hd Hpr Hd' eq_refl (λ _, conj eq_refl eq_refl)) as HC'.
  destruct (has e PAGE_PRESENT); cbn [negb]; [eapply wp_write_pte; [exact Hx|]|]; by exists N.
Qed.

(** What the whole loop leaves *)
Lemma copying_view k s U K d es ds n s' N : copying k s U K d es ds n (Z.to_nat PTP_ENTRIES) s' N → length es = Z.to_nat PTP_ENTRIES →
  ∃ ds', ptps s' !! d = Some ds' ∧ vent_of k s' <$> ds' = vent_of k s <$> es ∧ (∀ x b, x ∈ ds' → b ∈ below k s' x → b ∈ N) ∧
    room_off K n (src s').
Proof.
  intros [(ds'&Hd&Hlen&Hdone&_) _ _ _ Hroom] Hle. exists ds'. split_and!; [done| | |].
  - apply list_eq. intros j. rewrite !list_lookup_fmap. destruct (es !! j) as [e|] eqn:He.
    + pose proof (lookup_lt_Some _ _ _ He). assert (is_Some (ds' !! j)) as [x Hx] by (apply lookup_lt_is_Some_2; lia).
      rewrite Hx. cbn. f_equal. by eapply Hdone; [|exact He|exact Hx]; lia.
    + apply lookup_ge_None in He. by rewrite lookup_ge_None_2 by lia.
  - intros x b [j Hx]%list_elem_of_lookup Hb. pose proof (lookup_lt_Some _ _ _ Hx).
    assert (is_Some (es !! j)) as [e He] by (apply lookup_lt_is_Some_2; lia). by eapply (Hdone j e x); [lia|..].
  - rewrite drop_ge in Hroom by lia. done.
Qed.

(** The tables of the source are as they were: they are not new, and [d] is not one of them. *)
Lemma below_same k s s3 U K N d p es e : below_ok k s U K d es → N ## U ∪ K → p ∉ U ∪ K → e ∈ es →
  (∀ b, b ≠ d → b ≠ p → b ∉ N → ptps s3 !! b = ptps s !! b) →
  vent_of k s3 e = vent_of k s e ∧ below k s3 e = below k s e.
Proof. intros Hok HN Hp He Hfr. apply vent_frame. intros b Hb. destruct (Hok e b He Hb) as (HbU&Hbd&_). apply Hfr; [done|set_solver..]. Qed.

(** A new table, to be filled with what [es0] says *)
Lemma new_table_ready k s U K d es e i s1 N ds n (y : A) p v es0 : below_ok (S k) s U K d es → e ∈ es →
  copying (S k) s U K d es ds n i s1 N → has e PAGE_PRESENT = true → has e PAGE_PSE = false → p ∉ N ∪ U → p ∉ K →
  ptps s !! GET_NEXT_PTP e = Some es0 →
  let s3 := with_table s1 y d (Z.of_nat i) p v in
  let U3 := {[p]} ∪ (N ∪ U) in
  GET_NEXT_PTP e ∈ U3 ∪ K ∧ GET_NEXT_PTP e ≠ p ∧ ptps s3 !! GET_NEXT_PTP e = Some es0 ∧ below_ok k s3 U3 K p es0 ∧
  vent_of k s3 <$> es0 = vent_of k s <$> es0 ∧ below k s3 <$> es0 = below k s <$> es0.
Proof.
  intros Hok He HC Hp Hpse HpN HpK Hes0 s3 U3. pose proof HC as [_ Hfr Hnew _ _].
  assert (∀ b, b ≠ d → b ≠ p → b ∉ N → ptps s3 !! b = ptps s !! b) as Hfr3.
  { intros b ???. unfold s3, with_table, put_entry. cbn. rewrite lookup_alter_ne, lookup_insert_ne by congruence. by apply Hfr. }
  assert (below (S k) s e = GET_NEXT_PTP e :: concat (below k s <$> es0)) as Eb by (cbn; unfold entries; by rewrite Hp, Hpse, Hes0).
  destruct (Hok e (GET_NEXT_PTP e) He) as (HbU&Hbd&_); [rewrite Eb; by left|].
  assert (below_ok k s U K d es0) as Hok0.
  { intros e' b He' Hb. apply (Hok e); [done|]. rewrite Eb. right. apply concat_in. eauto. }
  assert (∀ e', e' ∈ es0 → vent_of k s3 e' = vent_of k s e' ∧ below k s3 e' = below k s e') as Hsame.
  { intros e' He'. eapply below_same; try done. clear -HpN HpK. set_solver. }
  assert (∀ b, b ∈ U ∪ K → b ∈ U3 ∪ K ∧ b ≠ p ∧ b ∉ N) as Hknown by (unfold U3; clear -HpN HpK Hnew; set_solver).
  destruct (Hknown _ HbU) as (HbU3&Hbp&HbN). split_and!.
  - done.
  - done.
  - by rewrite Hfr3.
  - intros e' b He' Hb. rewrite (proj2 (Hsame e' He')) in Hb. destruct (Hok0 e' b He' Hb) as (HbU'&Hbd'&es'&Hes'&Hl').
    destruct (Hknown _ HbU') as (?&?&?). split_and!; [done|done|]. exists es'. split; [|done]. by rewrite Hfr3.
  - apply list_fmap_ext. intros j e' He'%list_elem_of_lookup_2. by apply Hsame.
  - apply list_fmap_ext. intros j e' He'%list_elem_of_lookup_2. by apply Hsame.
Qed.

Lemma zero_present es : present_in es zero_ptp.
Proof. intros j e x _ [-> _]%lookup_replicate. done. Qed.

(** The table below the entry has been copied to [p]. *)
Lemma copying_table k s U K d es ds n i s1 N e (y : A) p s4 N4 es0 : copying (S k) s U K d es ds n i s1 N → es !! i = Some e →
  d ∈ U → d ∉ N → has e PAGE_PRESENT = true → has e PAGE_PSE = false → p ∉ N ∪ U → p ∉ K → aligned p 12 → KBASE ≤ p < KCODE →
  length es0 = Z.to_nat PTP_ENTRIES → ptps s !! GET_NEXT_PTP e = Some es0 →
  let v := pte_set_pfn e (Z.shiftr (p - KBASE) PAGE_SHIFT) in
  let s3 := with_table s1 y d (Z.of_nat i) p v in
  vent_of k s3 <$> es0 = vent_of k s <$> es0 →
  copying k s3 ({[p]} ∪ (N ∪ U)) K p es0 zero_ptp (length (concat (below (S k) s <$> drop (S i) es)) + n) (Z.to_nat PTP_ENTRIES) s4 N4 →
  copying (S k) s U K d es ds n (S i) s4 ({[p]} ∪ N ∪ N4).
Proof.
  intros HC He HdU HdN Hp Hpse HpN HpK Hal Hkb Hl0 Hes0 v s3 Hvs H4. pose proof HC as [(ds'&Hd'&Hlen&_) _ Hnew _ _].
  pose proof (lookup_lt_Some _ _ _ He) as Hi. destruct (copying_view _ _ _ _ _ _ _ _ _ _ H4 Hl0) as (ds4&Hd4&Hv4&Hb4&Hroom4).
  pose proof H4 as [_ Hfr4 Hnew4 Hinv4 _]. destruct (leads_copy e p Hp Hpse Hal Hkb) as (Hvp&Hvs'&Hvn). fold v in Hvp, Hvs', Hvn.
  assert (∀ b, b ≠ d → b ≠ p → ptps s3 !! b = ptps s1 !! b) as Hfr3.
  { intros b ??. unfold s3, with_table, put_entry. cbn. by rewrite lookup_alter_ne, lookup_insert_ne by congruence. }
  assert (d ≠ p ∧ p ∉ N ∧ d ∉ N4 ∧ N ## N4 ∧ {[p]} ∪ N ∪ N4 ## U ∪ K) as (Hdp&HpN'&HdN4&HNN&HN2) by (clear -HpN HpK HdU Hnew Hnew4; set_solver).
  eapply (copying_entry (S k) s U K d es ds n i s1 s4 N _ e v); try done.
  - clear. set_solver.
  - intros b HbN. assert (b ≠ d ∧ b ≠ p ∧ b ∉ N4) as (?&?&?) by (clear -HbN HdN HpN' HNN; set_solver). by rewrite Hfr4, Hfr3.
  - intros b Hbd Hb. assert (b ≠ p ∧ b ∉ N4) as (?&?) by (clear -Hb; set_solver). by rewrite Hfr4, Hfr3.
  - exists ds'. split; [done|]. rewrite Hfr4 by done. unfold s3, with_table, put_entry. cbn.
    by rewrite lookup_alter_eq, lookup_insert_ne, Hd', Nat2Z.id by done.
  - cbn [vent_of]. rewrite Hp, Hpse, Hvp, Hvs', Hvn. cbn [negb]. unfold entries. rewrite Hd4, Hes0. cbn. rewrite Hv4, Hvs. f_equal. apply flags_copy.
  - intros b. cbn [below]. rewrite Hvp, Hvs', Hvn. cbn [negb andb]. unfold entries. rewrite Hd4. cbn.
    intros [->|(z&Hz&Hb)%concat_in]%elem_of_cons; [clear; set_solver|]. specialize (Hb4 z b Hz Hb). clear -Hb4. set_solver.
  - by replace ({[p]} ∪ N ∪ N4 ∪ U) with (N4 ∪ ({[p]} ∪ (N ∪ U))) by (clear; set_solver).
Qed.

Lemma copies_next k : copies k → copies (S k).
Proof.
  intros Hrec s U K a d es ds n Hps Ha Hd Hne Hes Hds Hle Hld Hok Hpr Hroom. cbn [__pgtbl_deep_copy].
  eapply (wp_copy_loop (S k)); try done. intros i s1 N e He HC HdN Hea. rewrite wp_bind. eapply wp_read_pte; [exact Hea|]. cbv beta.
  destruct (copying_lookup _ _ _ _ _ _ _ _ _ _ _ _ HC He) as (ds'&x&Hd'&Hx). pose proof HC as [_ _ Hnew Hinv Hr].
  pose proof (copying_leaf (S k) s U K d es ds n i s1 N e ds' HC He HdN Hd Hpr Hd') as Hleaf.
  destruct (has e PAGE_PRESENT) eqn:Hp; cbn [negb].
  2: { wp_seq. exists N. apply Hleaf; [by cbn; rewrite Hp|]. intros s'. cbn. by rewrite Hp. }
  destruct (has e PAGE_PSE) eqn:Hpse.
  { eapply wp_write_pte; [exact Hx|]. exists N. apply Hleaf; [by cbn; rewrite Hp, Hpse|]. intros s'. cbn. by rewrite Hp, Hpse. }
  clear Hleaf. assert (e ∈ es) as Hin by (by eapply list_elem_of_lookup_2).
  destruct (Hok e (GET_NEXT_PTP e) Hin) as (_&_&es0&Hes0&Hl0); [cbn; rewrite Hp, Hpse; by left|].
  rewrite (drop_S _ _ _ He) in Hr. cbn [fmap list_fmap concat] in Hr.
  assert (below (S k) s e = GET_NEXT_PTP e :: concat (below k s <$> es0)) as Eb by (cbn; unfold entries; by rewrite Hp, Hpse, Hes0).
  rewrite Eb, length_app in Hr. cbn [length Nat.add room_off] in Hr.
  destruct (wp_inv _ _ _ (ps_get _ _ Hinv)) as (p&y&Hg&Hgot). rewrite Hg in Hr. destruct Hr as (Hp0&HpK&Hr).
  destruct Hgot as [[? _]|[Hpu Hy]]; [done|]. destruct (ps_addr _ _ p Hy) as [Hal Hkb]; [clear; set_solver|].
  assert (p ≠ a ∧ p ≠ d) as [Hpa Hpd] by (clear -Hpu HpK Ha Hd; set_solver).
  unfold new_ptp. wp_seq. apply wp_on_src. eapply wp_intro; [exact Hg|]. wp_seq. apply wp_bug_on; [by apply bool_decide_eq_false_2|]. wp_seq.
  unfold virt_to_phys. wp_seq. apply wp_bug_on; [by rewrite !bool_decide_eq_false_2 by lia|]. wp_seq.
  set (s2 := set_ptps _ _). assert (entry s2 d (Z.of_nat i) = Some x) as Hx2.
  { unfold s2, entry. cbn. by rewrite lookup_insert_ne. }
  eapply wp_write_pte; [exact Hx2|]. wp_seq. eapply wp_read_pte; [rewrite entry_put by (lia || by eexists); by rewrite decide_True|]. wp_seq.
  eapply wp_write_pte; [rewrite entry_put by (lia || by eexists); by rewrite decide_True|]. rewrite put_put. wp_seq.
  set (v := pte_set_pfn e _). change (put_entry s2 d (Z.of_nat i) v) with (with_table s1 y d (Z.of_nat i) p v).
  destruct (new_table_ready k s U K d es e i s1 N ds n y p v es0 Hok Hin HC Hp Hpse Hpu HpK Hes0) as (HbU&Hbp&Hes3&Hok3&Hv3&Hb3).
  set (s3 := with_table s1 y d (Z.of_nat i) p v) in *. assert (entry s3 a (Z.of_nat i) = Some e) as Hea3.
  { unfold s3, with_table. rewrite entry_put, decide_False by (lia || (by eexists) || by intros [? _]). unfold entry in *. cbn.
    by rewrite lookup_insert_ne. }
  eapply wp_read_pte; [exact Hea3|]. eapply wp_mono.
  - eapply (Hrec s3 ({[p]} ∪ (N ∪ U)) K (GET_NEXT_PTP e) p es0 zero_ptp (length (concat (below (S k) s <$> drop (S i) es)) + n)%nat); try done.
    + clear. set_solver.
    + unfold s3, with_table, put_entry. cbn. rewrite lookup_alter_ne by done. apply lookup_insert_eq.
    + apply zero_present.
    + by rewrite Hb3, Nat.add_assoc.
  - intros [] s4 (N4&H4). eexists. by eapply copying_table.
Qed.

Lemma wp_deep_copy s U K sroot droot : ps_inv (src s) U → (∀ b, b ∈ tables_of 3 s sroot → b ∈ U ∪ K ∧ b ≠ droot ∧ is_table s b) →
  droot ∈ U → is_table s droot → present_in (entries s sroot) (entries s droot) → room_off K (length (tables_of 3 s sroot) - 1) (src s) →
  wp (__pgtbl_deep_copy 3 sroot droot) (λ _ s', ∃ N, ps_inv (src s') (N ∪ U) ∧ N ## U ∪ K ∧ view 3 s' droot = view 3 s sroot ∧
    (∀ b, b ∈ tables_of 3 s' droot → b = droot ∨ b ∈ N) ∧ ∀ b, b ≠ droot → b ∉ N → ptps s' !! b = ptps s !! b) s.
Proof.
  intros Hps Hsrc Hd (ds&Hds&Hld) Hpr Hroom. destruct (Hsrc sroot) as (HaU&Hne&es&Hes&Hle); [by left|].
  unfold entries in Hpr. rewrite Hes, Hds in Hpr. cbn in Hpr. unfold tables_of, entries in Hroom. rewrite Hes in Hroom. cbn [default length] in Hroom.
  eapply wp_mono; [eapply (copies_next 2 (copies_next 1 (copies_next 0 copies_last)) s U K sroot droot es ds 0%nat); try done|].
  - intros e b He Hb. apply Hsrc. right. unfold entries. rewrite Hes. apply concat_in. eauto.
  - rewrite Nat.sub_succ, Nat.sub_0_r in Hroom. by rewrite Nat.add_0_r.
  - intros [] s' (N&HC). exists N. destruct (copying_view _ _ _ _ _ _ _ _ _ _ HC Hle) as (ds'&Hd'&Hv&Hb&_). destruct HC as [_ Hfr Hnew Hinv _].
    split_and!; [done|done| | |done].
    + unfold view, entries. by rewrite Hd', Hes.
    + unfold tables_of, entries. rewrite Hd'. intros b [->|(x&Hx&Hin)%concat_in]%elem_of_cons; [by left|right; by eapply Hb].
Qed.
End copy.
