(* ===== verification/PageTableRoots.v ===== *)
(** The roots of a new address space: page tables without user pages, which share the tables of the kernel. *)
From S2P Require Import Prelude Words RemoteFree PageTable PageTableProofs.

(** A root with the process's identifier in the lower 12 bits *)
Lemma lor_pcid p pcid : aligned p 12 → 0 ≤ pcid < 4096 → Z.lor p pcid = p + pcid.
Proof.
  intros [q ->] Hp. change (2 ^ 12) with 4096. assert (Z.land (q * 4096) pcid = 0) as E.
  { change 4096 with (2 ^ 12). rewrite <-Z.shiftl_mul_pow2 by done. apply Z.bits_inj'. intros n Hn.
    rewrite Z.land_spec, Z.bits_0, Z.shiftl_spec by lia. destruct (decide (n < 12)); [by rewrite Z.testbit_neg_r by lia|].
    rewrite (Z.bits_above_log2 pcid), andb_false_r; [done|lia|]. destruct (decide (pcid = 0)) as [->|]; [simpl; lia|].
    assert (Z.log2 pcid < 12) by (apply Z.log2_lt_pow2; lia). lia. }
  pose proof (Z.add_lor_land (q * 4096) pcid). lia.
Qed.

Lemma remove_lor_pcid p pcid : aligned p 12 → 0 ≤ pcid < 4096 → remove_pcid (Z.lor p pcid) = p ∧ Z.lor p pcid mod 4096 = pcid.
Proof.
  intros Ha Hp. rewrite lor_pcid by done. destruct Ha as [q ->]. change (2 ^ 12) with 4096. unfold remove_pcid.
  change PCID_MASK with (Z.ones 12). rewrite <-Z.ldiff_land, Z.ldiff_ones_r, Z.shiftl_mul_pow2, Z.shiftr_div_pow2 by lia.
  change (2 ^ 12) with 4096. rewrite Z.div_add_l, Z.div_small by lia. split; [lia|]. rewrite Z.add_comm, Z.mod_add, Z.mod_small by lia. done.
Qed.

Section roots.
Context {A : Type} `{Hops : PageSource A, Hlaws : !PageSourceSpec A}.
Implicit Types (s : pgmem A) (U : gset Z) (p : Z).

(** A table with no user entries is a page table. *)
Lemma pt_root_only lim s p U es : 0 ≤ lim ≤ 512 → ps_inv (src s) U → p ∈ U → ptps s !! p = Some es → length es = 512%nat → Forall u64 es →
  (∀ i, 0 ≤ i < lim → es !! Z.to_nat i = Some 0) → pt_ok lim s p {[(0, 0) := p]} U.
Proof.
  intros Hl Hs Hp He Hlen Hu Hz. split; try done.
  - intros l q a [[= <- <-] <-]%lookup_singleton_Some. done.
  - intros k a [_ <-]%lookup_singleton_Some. done.
  - intros k a [_ <-]%lookup_singleton_Some. eauto.
  - intros k k' a [<- _]%lookup_singleton_Some [<- _]%lookup_singleton_Some. done.
  - intros l q a i e [[= <- <-] <-]%lookup_singleton_Some _ Hi Hi' E. unfold entry in E. rewrite He in E. simpl in E.
    rewrite Hz in E by lia. injection E as <-. rewrite lookup_singleton_ne by done. done.
  - intros l q a [[= <- <-] <-]%lookup_singleton_Some. done.
Qed.

Lemma entry_of_root s p w : entry_of s {[(0, 0) := p]} w = 0.
Proof. unfold entry_of. by rewrite lookup_singleton_ne. Qed.

Lemma wp_alloc_roots n s U : ps_inv (src s) U → room n (src s) →
  wp (alloc_roots n) (λ ps s', length ps = n ∧ NoDup ps ∧ ps_inv (src s') (list_to_set ps ∪ U) ∧
    (∀ p, p ∈ ps → (p ∉ U) ∧ p ≠ 0 ∧ ptps s' !! p = Some zero_ptp) ∧ ∀ a, a ∉ ps → ptps s' !! a = ptps s !! a) s.
Proof.
  revert s U. induction n as [|n IH]; intros s U Hs Hroom; cbn [alloc_roots]; wp_seq.
  { split_and!; [done|by apply NoDup_nil|by rewrite list_to_set_nil, union_empty_l_L| |done]. by intros p ?%elem_of_nil. }
  eapply wp_mono; [by eapply wp_new_ptp|]. intros p s1 (Hp&Hs1&Hr1&Hp0&E1). wp_seq.
  eapply wp_mono; [by eapply IH|]. intros ps s2 (Hlen&Hnd&Hs2&Hps&Hot). wp_seq.
  assert (p ∉ ps) as Hpn by (intros [Hx _]%Hps; apply Hx; by apply elem_of_union_l, elem_of_singleton). split_and!.
  - simpl. by rewrite Hlen.
  - by apply NoDup_cons.
  - by rewrite list_to_set_cons, (comm_L (∪) {[p]}), <-(assoc_L (∪)).
  - intros q [->|Hq]%elem_of_cons.
    + split_and!; [done|done|]. rewrite Hot, E1 by done. apply lookup_insert_eq.
    + destruct (Hps q Hq) as (Hq'&?&?). split_and!; [|done|done]. intros Hu. by apply Hq', elem_of_union_r.
  - intros a [Hne Ha]%not_elem_of_cons. rewrite Hot, E1 by done. by apply lookup_insert_ne.
Qed.

(** The root after [__arch_vmspace_init_single] *)
Definition root_ptp (CHCORE_PGD : Z → Z) : list Z :=
  <[510%nat := pte_clear_user_bit (CHCORE_PGD 510)]> (<[511%nat := pte_clear_user_bit (CHCORE_PGD 511)]> zero_ptp).

Lemma root_ptp_length pgd : length (root_ptp pgd) = 512%nat.
Proof. unfold root_ptp. by rewrite !length_insert. Qed.

Lemma wp_write_entry s p i v es x (Q : unit → pgmem A → Prop) : ptps s !! p = Some es → es !! Z.to_nat i = Some x →
  Q tt (set_ptps (<[p := <[Z.to_nat i := v]> es]> (ptps s)) s) → wp (write_pte (p, i) v) Q s.
Proof.
  intros Hes Hx HQ. eapply wp_write_pte; [unfold entry; rewrite Hes; exact Hx|]. unfold put_entry.
  replace (<[p := <[Z.to_nat i := v]> es]> (ptps s)) with (alter (<[Z.to_nat i := v]>) p (ptps s)) in HQ; [done|].
  apply map_eq. intros j. destruct (decide (j = p)) as [->|]; [by rewrite lookup_alter_eq, Hes, lookup_insert_eq|].
  by rewrite lookup_alter_ne, lookup_insert_ne.
Qed.

Lemma wp_share pgd address n s p es x (Q : unit → pgmem A → Prop) :
  GET_L0_INDEX address = n → ptps s !! p = Some es → es !! Z.to_nat n = Some x →
  Q tt (set_ptps (<[p := <[Z.to_nat n := pte_clear_user_bit (pgd n)]> es]> (ptps s)) s) →
  wp (let index := GET_L0_INDEX address in
      bug_on (negb (bool_decide (index = n)));;
      write_pte (p, index) (pgd index);;
      entry_u ← read_pte (p, index);
      write_pte (p, index) (pte_clear_user_bit entry_u)) Q s.
Proof.
  intros -> Hes Hx HQ. cbv zeta. wp_seq. apply wp_bug_on; [by rewrite bool_decide_eq_true_2|]. wp_seq. eapply wp_write_entry; [done|done|]. wp_seq.
  assert (<[Z.to_nat n := pgd n]> es !! Z.to_nat n = Some (pgd n)) as E by (apply list_lookup_insert_eq; by eapply lookup_lt_Some).
  eapply wp_read_pte; [unfold entry; simpl; rewrite lookup_insert_eq; exact E|]. eapply wp_write_entry; [apply lookup_insert_eq|exact E|].
  unfold set_ptps in *. simpl. by rewrite insert_insert_eq, list_insert_insert_eq.
Qed.

Lemma wp_init_single pgd s p : ptps s !! p = Some zero_ptp →
  wp (__arch_vmspace_init_single pgd p) (λ _ s', s' = set_ptps (<[p := root_ptp pgd]> (ptps s)) s) s.
Proof.
  intros Hp. unfold __arch_vmspace_init_single. wp_seq. eapply (wp_share pgd KCODE 511); [by vm_compute|done|by vm_compute|].
  eapply (wp_share pgd KBASE 510); [by vm_compute|apply lookup_insert_eq|by rewrite list_lookup_insert_ne; [vm_compute|]|].
  unfold set_ptps. simpl. by rewrite insert_insert_eq.
Qed.

Lemma wp_arch_vmspace_init pgd pcid ps s : NoDup ps → (∀ p, p ∈ ps → p ≠ 0 ∧ ptps s !! p = Some zero_ptp) →
  wp (arch_vmspace_init pgd pcid ps) (λ rs s', rs = (λ p, Z.lor p pcid) <$> ps ∧ src s' = src s ∧
    (∀ p, p ∈ ps → ptps s' !! p = Some (root_ptp pgd)) ∧ ∀ a, a ∉ ps → ptps s' !! a = ptps s !! a) s.
Proof.
  revert s. induction ps as [|p ps IH]; intros s Hnd Hps; cbn [arch_vmspace_init]; wp_seq.
  { split_and!; [done|done| |done]. by intros p ?%elem_of_nil. }
  apply NoDup_cons in Hnd as [Hpn Hnd]. destruct (Hps p) as [Hp0 Hpz]; [by left|]. rewrite bool_decide_eq_false_2 by done. cbn [negb].
  wp_seq. eapply wp_mono; [by apply wp_init_single|]. intros [] s1 ->. wp_seq. eapply wp_mono; [apply IH; [done|]|].
  - intros q Hq. destruct (Hps q) as [? E]; [by right|]. split; [done|]. simpl. rewrite lookup_insert_ne; [done|]. by intros ->.
  - intros rs s2 (->&Hs2&Hr2&Ho2). wp_seq. split_and!; [done|done| |].
    + intros q [->|Hq]%elem_of_cons; [|by apply Hr2]. rewrite Ho2 by done. apply lookup_insert_eq.
    + intros a [Hne Ha]%not_elem_of_cons. rewrite Ho2 by done. by apply lookup_insert_ne.
Qed.

Lemma pte_clear_user_bit_u64 e : u64 e → u64 (pte_clear_user_bit e).
Proof.
  intros [He0 He1]. unfold pte_clear_user_bit. split; [apply Z.ldiff_nonneg; by left|].
  rewrite <-(Z.mod_small e (2 ^ 64)), <-Z.land_ones by lia. rewrite Z.ldiff_land, <-Z.land_assoc, (Z.land_comm _ (Z.lnot _)), Z.land_assoc, Z.land_ones by lia.
  apply Z.mod_pos_bound. lia.
Qed.

Lemma root_ptp_u64 pgd : u64 (pgd 510) → u64 (pgd 511) → Forall u64 (root_ptp pgd).
Proof.
  intros H0 H1. unfold root_ptp. apply Forall_insert; [apply Forall_insert|]; [|by apply pte_clear_user_bit_u64..]. by apply Forall_replicate.
Qed.

Lemma root_ptp_user pgd i : 0 ≤ i < 510 → root_ptp pgd !! Z.to_nat i = Some 0.
Proof.
  intros Hi. unfold root_ptp. rewrite !list_lookup_insert_ne by lia. unfold zero_ptp. apply lookup_replicate_2. change (Z.to_nat PTP_ENTRIES) with 512%nat. lia.
Qed.

Lemma root_ptp_kernel pgd i : i = 510 ∨ i = 511 → root_ptp pgd !! Z.to_nat i = Some (pte_clear_user_bit (pgd i)).
Proof.
  unfold root_ptp. intros [-> | ->]; [by rewrite list_lookup_insert_eq by (rewrite length_insert; vm_compute; lia)|].
  rewrite list_lookup_insert_ne by lia. by rewrite list_lookup_insert_eq by (vm_compute; lia).
Qed.
End roots.
