(* ===== verification/PageLayer.v ===== *)
(** The interface between page allocation and its clients.

    The slab allocator and [kmalloc] ask the pools of physical memory for chunks of pages and read and
    write some fields of [struct page] ([kernel/include/mm/buddy.h]).  [PageLayer] lists these
    operations, [PageLayerSpec] states what they promise in terms of a view of the memory: the chunks
    handed out, and the [slab] and [ref_cnt] fields of the pages.  DramPages.v implements the
    interface with the buddy allocator; Slab.v uses it. *)
From S2P Require Import Prelude Words Buddy.

(** Addresses are virtual addresses, 0 is [NULL]. *)
Class PageLayer (P : Type) := {
  (** [buddy_get_pages] on one pool after the other, then [page->ref_cnt = 1] and [page_to_virt]; 0
      if no pool has a chunk of that order. *)
  get_from_pools : Z → M P Z;
  (** [virt_to_page(addr)->slab] *)
  page_slab : Z → M P Z;
  page_set_slab : Z → Z → M P unit;
  (** [virt_to_page(addr)->pool->type] *)
  page_pool_type : Z → M P page_type;
  (** [atomic_fetch_sub_64(&virt_to_page(addr)->ref_cnt, 1)] *)
  page_ref_sub : Z → M P Z;
  (** [buddy_free_pages(page->pool, page)] for [page = virt_to_page(addr)] *)
  page_buddy_free : Z → M P unit
}.

(** The view: chunks handed out, as address and order; fields of the pages, by page number; first page
    and size of each pool. *)
Record pages_view := View {
  live : gmap Z Z; slab_field : gmap Z Z; ref_field : gmap Z Z; extents : list (Z * Z)
}.

Definition pfn (a : Z) : Z := a / BUDDY_PAGE_SIZE.
Definition with_live l V := View l (slab_field V) (ref_field V) (extents V).
Definition with_slab f V := View (live V) f (ref_field V) (extents V).
Definition with_ref f V := View (live V) (slab_field V) f (extents V).

(** [n] is the number of a page of the chunk of order [k] at [a]. *)
Definition chunk_page (a k n : Z) : Prop := pfn a ≤ n < pfn a + 2 ^ k.

Class PageLayerSpec (P : Type) `{PageLayer P} := {
  pl_inv : P → pages_view → Prop;
  (** No pool has a free chunk of order [ord] or more. *)
  pl_exhausted : P → Z → Prop;
  pl_live s V a k :
    pl_inv s V → live V !! a = Some k →
    0 ≤ k < BUDDY_MAX_ORDER ∧ 0 < a ∧ aligned a (k + 12) ∧ a + 2 ^ (k + 12) ≤ 2 ^ 64;
  pl_fields s V a k n :
    pl_inv s V → live V !! a = Some k → chunk_page a k n →
    is_Some (slab_field V !! n) ∧ is_Some (ref_field V !! n);
  pl_disj s V a k b m :
    pl_inv s V → live V !! a = Some k → live V !! b = Some m →
    a < b + 2 ^ (m + 12) → b < a + 2 ^ (k + 12) → a = b;
  pl_get_spec s V ord :
    pl_inv s V → 0 ≤ ord < BUDDY_MAX_ORDER →
    wp (get_from_pools ord) (λ a s',
      (a = 0 ∧ pl_inv s' V ∧ pl_exhausted s' ord) ∨
      (a ≠ 0 ∧ live V !! a = None ∧
       pl_inv s' (with_ref (<[pfn a := 1]> (ref_field V)) (with_live (<[a := ord]> (live V)) V)))) s;
  pl_free_spec s V a k :
    pl_inv s V → live V !! a = Some k →
    wp (page_buddy_free a) (λ _ s', pl_inv s' (with_live (delete a (live V)) V)) s;
  pl_slab_spec s V a v :
    pl_inv s V → 0 ≤ a → slab_field V !! pfn a = Some v → wp (page_slab a) (λ r s', r = v ∧ s' = s) s;
  pl_set_slab_spec s V a v w :
    pl_inv s V → 0 ≤ a → slab_field V !! pfn a = Some v →
    wp (page_set_slab a w) (λ _ s', pl_inv s' (with_slab (<[pfn a := w]> (slab_field V)) V)) s;
  pl_type_spec s V a v :
    pl_inv s V → 0 ≤ a → slab_field V !! pfn a = Some v → wp (page_pool_type a) (λ r s', r = DRAM_PAGE ∧ s' = s) s;
  pl_ref_sub_spec s V a r :
    pl_inv s V → 0 ≤ a → ref_field V !! pfn a = Some r →
    wp (page_ref_sub a) (λ x s', x = r ∧ pl_inv s' (with_ref (<[pfn a := to_s32 (r - 1)]> (ref_field V)) V)) s
}.
