(* ===== verification/DramPages.v ===== *)
(** The DRAM pools behind the page interface: [virt_to_page] over the pools ([kernel/mm/buddy.c]), the
    search of a pool with free pages ([get_dram_pages] in [kernel/mm/dram_alloc.c]), and the proof that
    the buddy allocator implements [PageLayerSpec]. *)
From S2P Require Import Prelude Words ListHead Buddy BuddyProofs BuddySpec PageLayer.

(** [global_dram_mem[0..physmem_map_num-1]] *)
Abbreviation pools := (list phys_mem_pool).

(** [global_dram_mem[j]] *)
Definition on_pool {A} (j : nat) (m : M phys_mem_pool A) : M pools A := λ s,
  match s !! j with
  | None => Halt BadAccess
  | Some p => match m p with Ret (a, p') => Ret (a, <[j := p']> s) | Halt w => Halt w end
  end.

(** [page = virt_to_page(addr); ...]: no pool is a [BUG]. *)
Definition on_page {A} (addr : Z) (f : Z → M phys_mem_pool A) : M pools A := λ s,
  match find_pool s addr with
  | None => Halt BugHit
  | Some j => on_pool j (i ← virt_to_page addr; f i) s
  end.

(** [for (i = 0; i < physmem_map_num; ++i)]; the result is the pool and the page. *)
Fixpoint pools_loop (n : nat) (i : nat) (ord : Z) : M pools (option (nat * Z)) :=
  match n with
  | O => mret None
  | S n' =>
      page ← on_pool i (buddy_get_pages ord);
      match page with Some p => mret (Some (i, p)) | None => pools_loop n' (S i) ord end
  end.

Definition dram_get_from_pools (ord : Z) : M pools Z :=
  s ← get_state;
  page ← pools_loop (length s) 0 ord;
  match page with
  | None => mret 0
  | Some (j, p) => on_pool j (upd_page p (set_ref_cnt 1);; page_to_virt p)
  end.

#[export] Instance dram_page_layer : PageLayer pools := {
  get_from_pools := dram_get_from_pools;
  page_slab a := on_page a (λ i, p ← read_page i; mret (slab p));
  page_set_slab a v := on_page a (λ i, upd_page i (set_slab v));
  page_pool_type a := on_page a (λ _, s ← get_state; mret (pool_ty s));
  page_ref_sub a := on_page a (λ i, p ← read_page i; upd_page i (set_ref_cnt (to_s32 (ref_cnt p - 1)));; mret (ref_cnt p));
  page_buddy_free a := on_page a buddy_free_pages
}.

(** ** Invariant *)

(** A pool: its first page number, its size in pages, its chunks. *)
Abbreviation pool_view := (Z * Z * tiles)%type.
Implicit Types (t : pool_view) (Ts : list pool_view) (V : pages_view) (p : phys_mem_pool) (s : pools).

Definition in_pool t (n : Z) : Prop := t.1.1 ≤ n < t.1.1 + t.1.2.

Definition pool_ok p t : Prop :=
  inv t.1.1 t.1.2 p t.2 ∧ settled t.2 ∧ pool_ty p = DRAM_PAGE ∧ 0 < t.1.1.

Record dram_ok s Ts V : Prop := {
  d_pools : Forall2 pool_ok s Ts;
  d_extents : Ts.*1 = extents V;
  d_apart i j t u n : Ts !! i = Some t → Ts !! j = Some u → in_pool t n → in_pool u n → i = j;
  d_fields j p t n : s !! j = Some p → Ts !! j = Some t → in_pool t n →
    ∃ pg, page_metadata p !! (n - t.1.1) = Some pg ∧
      slab_field V !! n = Some (slab pg) ∧ ref_field V !! n = Some (ref_cnt pg);
  d_range n : is_Some (slab_field V !! n) ∨ is_Some (ref_field V !! n) → ∃ j t, Ts !! j = Some t ∧ in_pool t n;
  d_live a k : live V !! a = Some k ↔
    ∃ j t i, Ts !! j = Some t ∧ t.2 !! i = Some (Alloc, k) ∧ a = (t.1.1 + i) * BUDDY_PAGE_SIZE
}.

Definition dram_inv s V : Prop := ∃ Ts, dram_ok s Ts V.

Definition dram_exhausted s (ord : Z) : Prop :=
  ∃ Ts, Forall2 pool_ok s Ts ∧ ∀ t i k, t ∈ Ts → t.2 !! i = Some (Free, k) → k < ord.

Lemma pool_at s Ts V j t : dram_ok s Ts V → Ts !! j = Some t → ∃ p, s !! j = Some p ∧ pool_ok p t.
Proof. intros Hd Hj. destruct (Forall2_lookup_r _ _ _ _ _ (d_pools _ _ _ Hd) Hj) as (p&?&?). eauto. Qed.

Lemma chunk_in_pool p t i st k : pool_ok p t → t.2 !! i = Some (st, k) →
  0 ≤ k < BUDDY_MAX_ORDER ∧ aligned (t.1.1 + i) k ∧ in_pool t (t.1.1 + i) ∧ t.1.1 + i + 2 ^ k ≤ t.1.1 + t.1.2.
Proof.
  intros (HI&_) Hi. destruct (t_wf _ _ _ (inv_tiling _ _ _ _ HI) _ _ _ Hi) as (?&?&?&?).
  pose proof (pow2_pos k ltac:(lia)). split_and!; try done; unfold in_pool; lia.
Qed.

Lemma pool_top p t : pool_ok p t → 0 < t.1.1 ∧ 0 ≤ t.1.2 ∧ (t.1.1 + t.1.2 + 2 ^ 19) * BUDDY_PAGE_SIZE ≤ 2 ^ 64 ∧
  pool_start_addr p = t.1.1 * BUDDY_PAGE_SIZE ∧ pool_mem_size p = t.1.2 * BUDDY_PAGE_SIZE.
Proof. intros (HI&_&_&?). destruct (inv_geo _ _ _ _ HI) as (?&?&?&?&?). done. Qed.

(** ** Finding the page *)

Lemma find_pool_spec s Ts V j t a :
  dram_ok s Ts V → Ts !! j = Some t → 0 ≤ a → in_pool t (pfn a) → find_pool s a = Some j.
Proof.
  intros Hd Hj Ha Hin. destruct (pool_at _ _ _ _ _ Hd Hj) as (p&Hp&Hok).
  assert (∀ q u, pool_ok q u →
    (pool_start_addr q ≤ a < wrap_u64 (pool_start_addr q + pool_mem_size q)) ↔ in_pool u (pfn a)) as Hr.
  { intros q u Hq. destruct (pool_top _ _ Hq) as (?&?&Ht&->&->). unfold in_pool, pfn, BUDDY_PAGE_SIZE in *.
    rewrite wrap_u64_small by lia. rewrite <-Z.mul_add_distr_r.
    pose proof (Z.div_mod a 0x1000 ltac:(lia)). pose proof (Z.mod_pos_bound a 0x1000 ltac:(lia)). lia. }
  unfold find_pool. apply fmap_Some. exists (j, p). split; [|done].
  apply list_find_Some. split; [done|]. split; [by eapply Hr|].
  intros j' q Hq Hlt Hra. destruct (Forall2_lookup_l _ _ _ _ _ (d_pools _ _ _ Hd) Hq) as (u&Hu&Hqu).
  assert (j' = j); [|lia]. eapply (d_apart _ _ _ Hd); [done|done| |done]. by apply (Hr q u).
Qed.

Lemma wp_on_pool {A} j (m : M phys_mem_pool A) (Q : A → pools → Prop) s p :
  s !! j = Some p → wp m (λ a p', Q a (<[j := p']> s)) p → wp (on_pool j m) Q s.
Proof. unfold wp, on_pool. intros ->. by destruct (m p) as [[??]|]. Qed.

Lemma wp_on_page {A} (f : Z → M phys_mem_pool A) (Q : A → pools → Prop) s Ts V j p t a :
  dram_ok s Ts V → Ts !! j = Some t → s !! j = Some p → 0 ≤ a → in_pool t (pfn a) →
  wp (f (pfn a - t.1.1)) (λ x p', Q x (<[j := p']> s)) p → wp (on_page a f) Q s.
Proof.
  intros Hd Hj Hp Ha Hin Hf. unfold on_page, wp. rewrite (find_pool_spec _ _ _ _ _ _ Hd Hj Ha Hin).
  apply (wp_on_pool j _ Q s p Hp). unfold virt_to_page. wp_seq.
  destruct (pool_at _ _ _ _ _ Hd Hj) as (p'&?&Hok). simplify_eq.
  destruct (pool_top _ _ Hok) as (?&?&Ht&->&_). destruct Hok as (HI&_).
  assert (wrap_u64 (a - t.1.1 * BUDDY_PAGE_SIZE) / BUDDY_PAGE_SIZE = pfn a - t.1.1) as ->.
  { unfold in_pool, pfn, BUDDY_PAGE_SIZE in *.
    pose proof (Z.div_mod a 0x1000 ltac:(lia)). pose proof (Z.mod_pos_bound a 0x1000 ltac:(lia)).
    rewrite wrap_u64_small by lia. replace (a - t.1.1 * 4096) with (a + - t.1.1 * 4096) by lia.
    rewrite Z.div_add by lia. lia. }
  destruct (po_exists _ _ _ (inv_pages _ _ _ _ HI) (pfn a - t.1.1)) as (pg&Hpg&Hset); [unfold in_pool in Hin; lia|].
  eapply wp_read_page; [done|]. wp_seq. apply wp_bug_on; [by rewrite Hset|]. wp_seq. done.
Qed.

(** ** Changing one pool *)

Lemma pfn_page n : pfn (n * BUDDY_PAGE_SIZE) = n.
Proof. unfold pfn, BUDDY_PAGE_SIZE. by rewrite Z.div_mul. Qed.

Lemma live_in_pool s Ts V j t a k :
  dram_ok s Ts V → Ts !! j = Some t → in_pool t (pfn a) →
  live V !! a = Some k ↔ ∃ i, t.2 !! i = Some (Alloc, k) ∧ a = (t.1.1 + i) * BUDDY_PAGE_SIZE.
Proof.
  intros Hd Hj Hin. rewrite (d_live _ _ _ Hd). split; [|intros (i&?&?); by exists j, t, i].
  intros (j'&u&i&Hu&Hi&->). rewrite pfn_page in Hin.
  destruct (pool_at _ _ _ _ _ Hd Hu) as (q&_&Hq).
  destruct (chunk_in_pool _ _ _ _ _ Hq Hi) as (?&?&?&?).
  assert (j' = j) as -> by (by eapply (d_apart _ _ _ Hd)). simplify_eq. eauto.
Qed.

Lemma dram_step s Ts V j p t p' C' V' :
  dram_ok s Ts V → s !! j = Some p → Ts !! j = Some t → pool_ok p' (t.1, C') → extents V' = extents V →
  (∀ n, in_pool t n → ∃ pg, page_metadata p' !! (n - t.1.1) = Some pg ∧
     slab_field V' !! n = Some (slab pg) ∧ ref_field V' !! n = Some (ref_cnt pg)) →
  (∀ n, ¬ in_pool t n → slab_field V' !! n = slab_field V !! n ∧ ref_field V' !! n = ref_field V !! n) →
  (∀ a k, ¬ in_pool t (pfn a) → live V' !! a = Some k ↔ live V !! a = Some k) →
  (∀ a k, in_pool t (pfn a) → live V' !! a = Some k ↔
     ∃ i, C' !! i = Some (Alloc, k) ∧ a = (t.1.1 + i) * BUDDY_PAGE_SIZE) →
  dram_ok (<[j := p']> s) (<[j := (t.1, C')]> Ts) V'.
Proof.
  intros Hd Hp Hj Hok He Hf Hfo Hlo Hl.
  assert (∀ i u, <[j := (t.1, C')]> Ts !! i = Some u →
    (i = j ∧ u = (t.1, C')) ∨ (i ≠ j ∧ Ts !! i = Some u)) as Hlk.
  { intros i u. destruct (decide (i = j)) as [->|].
    - rewrite list_lookup_insert_eq by (by eapply lookup_lt_Some). intros [= <-]. by left.
    - rewrite list_lookup_insert_ne by done. by right. }
  assert (∀ i u n, i ≠ j → Ts !! i = Some u → in_pool u n → ¬ in_pool t n) as Hap.
  { intros i u n Hne Hu ??. apply Hne. by eapply (d_apart _ _ _ Hd). }
  split.
  - apply Forall2_insert; [apply Hd|done].
  - rewrite He, <-(d_extents _ _ _ Hd), list_fmap_insert. apply list_insert_id. by rewrite list_lookup_fmap, Hj.
  - intros i i' u u' n [[-> ->]|[? Hu]]%Hlk [[-> ->]|[? Hu']]%Hlk Hn Hn'; [done| | |by eapply (d_apart _ _ _ Hd)].
    + by destruct (Hap i' u' n).
    + by destruct (Hap i u n).
  - intros i q u n Hq [[-> ->]|[Hne Hu]]%Hlk Hn.
    + rewrite list_lookup_insert_eq in Hq by (by eapply lookup_lt_Some). simplify_eq. by apply Hf.
    + rewrite list_lookup_insert_ne in Hq by done.
      destruct (d_fields _ _ _ Hd _ _ _ _ Hq Hu Hn) as (pg&?&?&?).
      destruct (Hfo n) as [-> ->]; [by eapply Hap|]. eauto.
  - intros n Hn. destruct (decide (t.1.1 ≤ n < t.1.1 + t.1.2)) as [Hin|Hout].
    + exists j, (t.1, C'). split; [|done]. apply list_lookup_insert_eq. by eapply lookup_lt_Some.
    + destruct (Hfo n Hout) as [H1 H2]. rewrite H1, H2 in Hn. destruct (d_range _ _ _ Hd n Hn) as (i&u&Hu&?).
      exists i, u. split; [|done]. rewrite list_lookup_insert_ne; [done|]. intros ->. by simplify_eq.
  - intros a k. destruct (decide (t.1.1 ≤ pfn a < t.1.1 + t.1.2)) as [Hin|Hout].
    + rewrite Hl by done. split.
      * intros (i&?&?). exists j, (t.1, C'), i. split; [|done]. apply list_lookup_insert_eq. by eapply lookup_lt_Some.
      * intros (i'&u&i&[[-> ->]|[Hne Hu]]%Hlk&Hi&->); [by exists i|]. exfalso.
        destruct (pool_at _ _ _ _ _ Hd Hu) as (q&_&Hq). rewrite pfn_page in Hin.
        destruct (chunk_in_pool _ _ _ _ _ Hq Hi) as (?&?&?&?). by eapply Hap.
    + rewrite Hlo by done. rewrite (d_live _ _ _ Hd). split.
      * intros (i'&u&i&Hu&Hi&->). exists i', u, i. split; [|done]. rewrite list_lookup_insert_ne; [done|].
        intros ->. simplify_eq. apply Hout. destruct (pool_at _ _ _ _ _ Hd Hj) as (q&_&Hq). rewrite pfn_page.
        by destruct (chunk_in_pool _ _ _ _ _ Hq Hi) as (?&?&?&?).
      * intros (i'&u&i&[[-> ->]|[Hne Hu]]%Hlk&Hi&->); [|by exists i', u, i]. exfalso. apply Hout. rewrite pfn_page.
        by destruct (chunk_in_pool _ _ _ _ _ Hok Hi) as (?&?&?&?).
Qed.

(** An operation that keeps the fields of the clients. *)
Lemma client_fields_page p p' i pg : client_fields p' = client_fields p → page_metadata p !! i = Some pg →
  ∃ pg', page_metadata p' !! i = Some pg' ∧ slab pg' = slab pg ∧ ref_cnt pg' = ref_cnt pg.
Proof.
  intros [= Hf _] Hpg. apply (f_equal (.!! i)) in Hf. rewrite !lookup_fmap, Hpg in Hf.
  destruct (page_metadata p' !! i) as [pg'|]; [|done]. exists pg'. by injection Hf as <- <-.
Qed.

Lemma client_fields_ty p p' : client_fields p' = client_fields p → pool_ty p' = pool_ty p.
Proof. by intros [=]. Qed.

(** Pages taken from or given back to one pool. *)
Lemma dram_chunks s Ts V j p t p' C' l :
  dram_ok s Ts V → s !! j = Some p → Ts !! j = Some t →
  inv t.1.1 t.1.2 p' C' → settled C' → client_fields p' = client_fields p →
  (∀ a k, ¬ in_pool t (pfn a) → l !! a = Some k ↔ live V !! a = Some k) →
  (∀ a k, in_pool t (pfn a) → l !! a = Some k ↔ ∃ i, C' !! i = Some (Alloc, k) ∧ a = (t.1.1 + i) * BUDDY_PAGE_SIZE) →
  dram_ok (<[j := p']> s) (<[j := (t.1, C')]> Ts) (with_live l V).
Proof.
  intros Hd Hp Hj HI' Hs' Hf ??. destruct (pool_at _ _ _ _ _ Hd Hj) as (p0&Hp0&HI&Hs&Hty&?).
  rewrite Hp in Hp0. injection Hp0 as <-.
  eapply dram_step; try done.
  - split_and!; try done. by rewrite (client_fields_ty _ _ Hf).
  - intros n Hn. destruct (d_fields _ _ _ Hd _ _ _ _ Hp Hj Hn) as (pg&Hpg&?&?).
    destruct (client_fields_page _ _ _ _ Hf Hpg) as (pg'&?&Es&Er). exists pg'. by rewrite Es, Er.
Qed.

(** A write to a field of the clients. *)
Lemma inv_client base N p C i pg pg' :
  inv base N p C → page_metadata p !! i = Some pg →
  order pg' = order pg → flags pg' = flags pg → pool_set pg' = pool_set pg →
  inv base N (set_pages (<[i := pg']> (page_metadata p)) p) C.
Proof.
  intros [Hg HT [He Ho Hfl] HL HN] Hpg Eo Ef Es. split; try done. split; simpl.
  - intros j Hj. destruct (He j Hj) as (q&Hq&?). destruct (decide (j = i)) as [->|].
    + exists pg'. rewrite lookup_insert_eq. split; [done|]. assert (q = pg) as -> by congruence. congruence.
    + exists q. by rewrite lookup_insert_ne.
  - intros j st k Hj. destruct (Ho j st k Hj) as (q&Hq&?). destruct (decide (j = i)) as [->|].
    + exists pg'. rewrite lookup_insert_eq. split; [done|]. assert (q = pg) as -> by congruence. congruence.
    + exists q. by rewrite lookup_insert_ne.
  - intros j st k q Hj Hq. destruct (Hfl j st k q Hj Hq) as (pq&Hpq&?). destruct (decide (q = i)) as [->|].
    + exists pg'. rewrite lookup_insert_eq. split; [done|]. simplify_eq. by rewrite Ef.
    + exists pq. by rewrite lookup_insert_ne.
Qed.

Lemma dram_write s Ts V j p t n pg pg' :
  dram_ok s Ts V → s !! j = Some p → Ts !! j = Some t → in_pool t n → page_metadata p !! (n - t.1.1) = Some pg →
  order pg' = order pg → flags pg' = flags pg → pool_set pg' = pool_set pg →
  dram_ok (<[j := set_pages (<[n - t.1.1 := pg']> (page_metadata p)) p]> s) Ts
    (View (live V) (<[n := slab pg']> (slab_field V)) (<[n := ref_cnt pg']> (ref_field V)) (extents V)).
Proof.
  intros Hd Hp Hj Hn Hpg ???. destruct (pool_at _ _ _ _ _ Hd Hj) as (p0&Hp0&HI&Hs&Hty&?).
  rewrite Hp in Hp0. injection Hp0 as <-.
  replace Ts with (<[j := (t.1, t.2)]> Ts) by (rewrite <-surjective_pairing; by apply list_insert_id).
  eapply dram_step; try done; simpl.
  - split_and!; try done. by eapply inv_client.
  - intros m Hm. destruct (decide (m = n)) as [->|Hne]; [exists pg'; by rewrite !lookup_insert_eq|].
    destruct (d_fields _ _ _ Hd _ _ _ _ Hp Hj Hm) as (q&?&?&?). exists q. rewrite !lookup_insert_ne by lia. done.
  - intros m Hm. rewrite !lookup_insert_ne by congruence. done.
  - intros a k Hin. by eapply live_in_pool.
Qed.

(** ** The specification *)

Lemma dram_live_wf s V a k :
  dram_inv s V → live V !! a = Some k →
  0 ≤ k < BUDDY_MAX_ORDER ∧ 0 < a ∧ aligned a (k + 12) ∧ a + 2 ^ (k + 12) ≤ 2 ^ 64.
Proof.
  intros [Ts Hd] (j&t&i&Hj&Hi&->)%(d_live _ _ _ Hd). destruct (pool_at _ _ _ _ _ Hd Hj) as (p&_&Hok).
  destruct (chunk_in_pool _ _ _ _ _ Hok Hi) as (?&Ha&Hin&?). destruct (pool_top _ _ Hok) as (?&?&Ht&_).
  unfold in_pool, BUDDY_PAGE_SIZE in *. split_and!; [lia|lia|lia| |].
  - destruct Ha as [x Hx]. exists x. rewrite Hx, Z.pow_add_r by lia. change (2 ^ 12) with 4096. lia.
  - rewrite Z.pow_add_r by lia. change (2 ^ 12) with 4096. lia.
Qed.

Lemma dram_fields s V a k n :
  dram_inv s V → live V !! a = Some k → chunk_page a k n → is_Some (slab_field V !! n) ∧ is_Some (ref_field V !! n).
Proof.
  intros [Ts Hd] (j&t&i&Hj&Hi&->)%(d_live _ _ _ Hd) Hn. destruct (pool_at _ _ _ _ _ Hd Hj) as (p&Hp&Hok).
  destruct (chunk_in_pool _ _ _ _ _ Hok Hi) as (?&_&Hin&?). unfold chunk_page in Hn. rewrite pfn_page in Hn.
  destruct (d_fields _ _ _ Hd _ _ _ n Hp Hj) as (pg&_&->&->); [unfold in_pool in *; lia|]. by split; eexists.
Qed.

Lemma dram_disj s V a k b m :
  dram_inv s V → live V !! a = Some k → live V !! b = Some m →
  a < b + 2 ^ (m + 12) → b < a + 2 ^ (k + 12) → a = b.
Proof.
  intros [Ts Hd] (j&t&i&Hj&Hi&->)%(d_live _ _ _ Hd) (j'&u&i'&Hj'&Hi'&->)%(d_live _ _ _ Hd) H1 H2.
  destruct (pool_at _ _ _ _ _ Hd Hj) as (p&Hp&Hok). destruct (pool_at _ _ _ _ _ Hd Hj') as (p'&Hp'&Hok').
  destruct (chunk_in_pool _ _ _ _ _ Hok Hi) as (?&_&?&?). destruct (chunk_in_pool _ _ _ _ _ Hok' Hi') as (?&_&?&?).
  rewrite Z.pow_add_r in H1, H2 by lia. change (2 ^ 12) with 4096 in *. unfold BUDDY_PAGE_SIZE, in_pool in *.
  pose proof (pow2_pos k ltac:(lia)). pose proof (pow2_pos m ltac:(lia)).
  assert (j = j') as <-.
  { apply (d_apart _ _ _ Hd j j' t u (Z.max (t.1.1 + i) (u.1.1 + i'))); unfold in_pool; try done; lia. }
  simplify_eq. assert (i = i') as ->; [|done].
  eapply (t_disj _ _ _ (inv_tiling _ _ _ _ (proj1 Hok))); [done|done|lia|lia].
Qed.

Lemma wp_pools_loop n i ord s Ts V :
  dram_ok s Ts V → 0 ≤ ord < BUDDY_MAX_ORDER → (i + n = length s)%nat →
  (∀ j t x k, (j < i)%nat → Ts !! j = Some t → t.2 !! x = Some (Free, k) → k < ord) →
  wp (pools_loop n i ord) (λ r s',
    match r with
    | None => dram_ok s' Ts V ∧ ∀ t x k, t ∈ Ts → t.2 !! x = Some (Free, k) → k < ord
    | Some (j, x) => ∃ Ts' t, Ts' !! j = Some t ∧ t.2 !! x = Some (Alloc, ord) ∧
        live V !! ((t.1.1 + x) * BUDDY_PAGE_SIZE) = None ∧
        dram_ok s' Ts' (with_live (<[(t.1.1 + x) * BUDDY_PAGE_SIZE := ord]> (live V)) V)
    end) s.
Proof.
  intros Hd Hord. revert i s Hd. induction n as [|n IH]; intros i s Hd Hn Hnone; cbn [pools_loop].
  { wp_seq. split; [done|]. intros t x k (j&Hj)%list_elem_of_lookup Hx. eapply Hnone; [|done|done].
    apply lookup_lt_Some in Hj. rewrite <-(Forall2_length _ _ _ (d_pools _ _ _ Hd)) in Hj. lia. }
  destruct (lookup_lt_is_Some_2 s i ltac:(lia)) as [p Hp].
  destruct (Forall2_lookup_l _ _ _ _ _ (d_pools _ _ _ Hd) Hp) as (t&Hj&Hok).
  pose proof Hok as (HI&Hset&Hty&Hb). wp_seq. eapply wp_on_pool; [done|].
  destruct (wp_inv _ _ _ (wp_buddy_get_pages _ _ _ _ _ HI Hset Hord)) as (r&p'&Hr&C'&HI'&Hs'&HR).
  eapply wp_intro; [exact Hr|]. pose proof (buddy_get_pages_fields _ _ _ _ Hr) as Hf.
  assert (pool_ok p' (t.1, C')) as Hok' by (split_and!; try done; by rewrite (client_fields_ty _ _ Hf)).
  destruct r as [x|]; wp_seq.
  - destruct HR as (Hx&Hnew&Hkeep). exists (<[i := (t.1, C')]> Ts), (t.1, C'). split_and!; [|done|..].
    { apply list_lookup_insert_eq. by eapply lookup_lt_Some. }
    + simpl. apply eq_None_not_Some. intros [k Hk].
      destruct (chunk_in_pool _ _ _ _ _ Hok' Hx) as (_&_&Hin&_).
      apply (live_in_pool _ _ _ _ _ _ _ Hd Hj) in Hk as (y&Hy&He); [|by rewrite pfn_page].
      unfold BUDDY_PAGE_SIZE in He. assert (x = y) as -> by lia. by destruct (Hnew k).
    + simpl. eapply dram_chunks; try done; simpl.
      * intros a k Hin. rewrite lookup_insert_ne; [done|]. intros <-. rewrite pfn_page in Hin. apply Hin.
        by destruct (chunk_in_pool _ _ _ _ _ Hok' Hx) as (_&_&?&_).
      * intros a k Hin. rewrite lookup_insert_Some. split.
        -- intros [[<- <-]|[Hne Hk]]; [by exists x|]. apply (live_in_pool _ _ _ _ _ _ _ Hd Hj Hin) in Hk as (y&Hy&->).
           exists y. split; [|done]. apply Hkeep; [|done]. by intros ->.
        -- intros (y&Hy&->). destruct (decide (y = x)) as [->|]; [left; split; [done|congruence]|right].
           split; [unfold BUDDY_PAGE_SIZE; lia|]. apply (live_in_pool _ _ _ _ _ _ _ Hd Hj Hin). exists y. split; [|done]. by apply Hkeep.
  - destruct HR as [-> Hfree]. apply IH; [|rewrite length_insert; lia|].
    + replace Ts with (<[i := (t.1, t.2)]> Ts) by (rewrite <-surjective_pairing; by apply list_insert_id).
      replace V with (with_live (live V) V) by (by destruct V).
      eapply dram_chunks; try done. intros a k Hin. by eapply live_in_pool.
    + intros j u y k Hlt Hu Hy. destruct (decide (j = i)) as [->|]; [simplify_eq; eauto|eapply Hnone; [|done|done]; lia].
Qed.

Lemma dram_get_spec s V ord :
  dram_inv s V → 0 ≤ ord < BUDDY_MAX_ORDER →
  wp (dram_get_from_pools ord) (λ a s',
    (a = 0 ∧ dram_inv s' V ∧ dram_exhausted s' ord) ∨
    (a ≠ 0 ∧ live V !! a = None ∧
     dram_inv s' (with_ref (<[pfn a := 1]> (ref_field V)) (with_live (<[a := ord]> (live V)) V)))) s.
Proof.
  intros [Ts Hd] Hord. unfold dram_get_from_pools. wp_seq.
  eapply wp_mono; [apply (wp_pools_loop _ _ _ _ Ts V Hd Hord); [done|lia]|].
  intros [[j x]|] s1; wp_seq; [|intros [Hd1 Hno]; left; split_and!; [done|by exists Ts|exists Ts; split; [apply Hd1|done]]].
  intros (Ts'&t&Hj&Hx&Hnew&Hd1). destruct (pool_at _ _ _ _ _ Hd1 Hj) as (p&Hp&Hok).
  destruct (chunk_in_pool _ _ _ _ _ Hok Hx) as (?&_&Hin&_). destruct (pool_top _ _ Hok) as (?&_).
  destruct (d_fields _ _ _ Hd1 _ _ _ _ Hp Hj Hin) as (pg&Hpg&Hs&Hr).
  pose proof (dram_write _ _ _ _ _ _ _ _ (set_ref_cnt 1 pg) Hd1 Hp Hj Hin Hpg eq_refl eq_refl eq_refl) as Hd2.
  replace (t.1.1 + x - t.1.1) with x in * by lia.
  eapply wp_on_pool; [done|]. wp_seq. eapply wp_upd_page; [done|].
  eapply wp_mono; [apply (wp_page_to_virt t.1.1 t.1.2 _ t.2); [eapply inv_client; [apply Hok|done..]|unfold in_pool in Hin; lia]|].
  intros a p' [-> ->]. right. split_and!; [unfold BUDDY_PAGE_SIZE, in_pool in *; lia|done|]. rewrite pfn_page. exists Ts'.
  unfold with_ref, with_live in *. simpl in *. by rewrite (insert_id (slab_field V)) in Hd2.
Qed.

Lemma dram_free_spec s V a k :
  dram_inv s V → live V !! a = Some k →
  wp (on_page a buddy_free_pages) (λ _ s', dram_inv s' (with_live (delete a (live V)) V)) s.
Proof.
  intros [Ts Hd] (j&t&i&Hj&Hi&->)%(d_live _ _ _ Hd). destruct (pool_at _ _ _ _ _ Hd Hj) as (p&Hp&Hok).
  destruct (chunk_in_pool _ _ _ _ _ Hok Hi) as (?&_&Hin&_). destruct (pool_top _ _ Hok) as (?&_).
  assert (0 ≤ (t.1.1 + i) * BUDDY_PAGE_SIZE) by (unfold BUDDY_PAGE_SIZE, in_pool in *; lia).
  eapply wp_on_page; [done|done|done|done|by rewrite pfn_page|]. rewrite pfn_page.
  replace (t.1.1 + i - t.1.1) with i by lia. pose proof Hok as (HI&Hset&Hty&_).
  destruct (wp_inv _ _ _ (wp_buddy_free_pages _ _ _ _ _ _ HI Hset Hi)) as ([]&p'&Hr&C'&HI'&Hs'&HA).
  eapply wp_intro; [exact Hr|]. exists (<[j := (t.1, C')]> Ts).
  eapply dram_chunks; try done; [by eapply buddy_free_pages_fields| |].
  - intros b m Hb. rewrite lookup_delete_ne; [done|]. intros <-. by rewrite pfn_page in Hb.
  - intros b m Hb. rewrite lookup_delete_Some. rewrite (live_in_pool _ _ _ _ _ _ _ Hd Hj Hb). split.
    + intros (Hne&y&Hy&->). exists y. split; [|done]. apply HA. split; [by intros ->|done].
    + intros (y&[Hne Hy]%HA&->). split; [unfold BUDDY_PAGE_SIZE; lia|eauto].
Qed.

(** The page of an address whose field the view knows. *)
Lemma dram_page s V a :
  dram_inv s V → is_Some (slab_field V !! pfn a) ∨ is_Some (ref_field V !! pfn a) →
  ∃ Ts j p t pg, dram_ok s Ts V ∧ s !! j = Some p ∧ Ts !! j = Some t ∧ in_pool t (pfn a) ∧ pool_ty p = DRAM_PAGE ∧
    page_metadata p !! (pfn a - t.1.1) = Some pg ∧
    slab_field V !! pfn a = Some (slab pg) ∧ ref_field V !! pfn a = Some (ref_cnt pg).
Proof.
  intros [Ts Hd] Hf. destruct (d_range _ _ _ Hd _ Hf) as (j&t&Hj&Hin). destruct (pool_at _ _ _ _ _ Hd Hj) as (p&Hp&Hok).
  destruct (d_fields _ _ _ Hd _ _ _ _ Hp Hj Hin) as (pg&?&?&?). exists Ts, j, p, t, pg. by destruct Hok as (_&_&?&_).
Qed.

(** ** A machine at boot *)

(** The view of one pool in which nothing is handed out and all fields are clear. *)
Definition fresh_view (base N : Z) : pages_view :=
  let zeros := gset_to_gmap 0 (list_to_set (seqZ base N) : gset Z) in View ∅ zeros zeros [(base, N)].

Lemma fresh_view_lookup base N n v :
  gset_to_gmap 0 (list_to_set (seqZ base N) : gset Z) !! n = Some v ↔ (base ≤ n < base + N) ∧ v = 0.
Proof. rewrite lookup_gset_to_gmap_Some, elem_of_list_to_set, elem_of_seqZ. naive_solver. Qed.

Lemma wp_init_pool (s : phys_mem_pool) base N :
  0 < base → 0 ≤ N → (base + N + 2 ^ 19) * BUDDY_PAGE_SIZE ≤ 2 ^ 64 →
  (∀ k, 0 ≤ k < BUDDY_MAX_ORDER → is_Some (free_heap s !! FLHead k)) →
  wp (init_buddy (base * BUDDY_PAGE_SIZE) N DRAM_PAGE) (λ _ p, dram_inv [p] (fresh_view base N)) s.
Proof.
  intros Hb HN Ht Hh. destruct (wp_inv _ _ _ (wp_init_buddy base N s _ DRAM_PAGE ltac:(lia) HN eq_refl Ht Hh)) as ([]&p&Hp&C&HI&Hs&Hno).
  eapply wp_intro; [exact Hp|]. apply init_buddy_fields in Hp as [Hty Hz]. exists [(base, N, C)]. split.
  - by apply Forall2_cons; split; [|apply Forall2_nil].
  - done.
  - intros [|[|?]] [|[|?]]; by intros.
  - intros [|[|j]] q t n; [|done..]. intros [= <-] [= <-] Hn. unfold in_pool in Hn. cbn [fst snd] in *.
    specialize (Hz (n - base) ltac:(lia)). apply fmap_Some in Hz as (pg&Hpg&Hf). injection Hf as Hf1 Hf2.
    exists pg. rewrite <-Hf1, <-Hf2. split_and!; [done|by apply fresh_view_lookup..].
  - intros n Hn. exists 0%nat, (base, N, C). split; [done|]. destruct Hn as [[v [? _]%fresh_view_lookup]|[v [? _]%fresh_view_lookup]]; done.
  - intros a k. simpl. rewrite lookup_empty. split; [done|]. intros ([|[|?]]&t&i&Ht'&Hi&_); [|done..].
    injection Ht' as <-. by destruct (Hno i k).
Qed.

#[export] Program Instance dram_page_layer_spec : PageLayerSpec pools := {
  pl_inv := dram_inv; pl_exhausted := dram_exhausted;
  pl_live := dram_live_wf; pl_fields := dram_fields; pl_disj := dram_disj;
  pl_get_spec := dram_get_spec; pl_free_spec := dram_free_spec
}.
Next Obligation.
  intros s V a v HI Ha Hv. destruct (dram_page s V a HI) as (Ts&j&p&t&pg&Hd&Hp&Hj&Hin&_&Hpg&Hs&_); [by rewrite Hv; eauto|].
  simpl. eapply wp_on_page; [done..|]. wp_seq. eapply wp_read_page; [done|]. wp_seq.
  split; [congruence|by apply list_insert_id].
Qed.
Next Obligation.
  intros s V a v w HI Ha Hv. destruct (dram_page s V a HI) as (Ts&j&p&t&pg&Hd&Hp&Hj&Hin&_&Hpg&Hs&Hr); [by rewrite Hv; eauto|].
  simpl. eapply wp_on_page; [done..|]. eapply wp_upd_page; [done|]. exists Ts.
  pose proof (dram_write _ _ _ _ _ _ _ _ (set_slab w pg) Hd Hp Hj Hin Hpg eq_refl eq_refl eq_refl) as Hd2.
  simpl in Hd2. by rewrite (insert_id (ref_field V)) in Hd2.
Qed.
Next Obligation.
  intros s V a v HI Ha Hv. destruct (dram_page s V a HI) as (Ts&j&p&t&pg&Hd&Hp&Hj&Hin&?&_); [by rewrite Hv; eauto|].
  simpl. eapply wp_on_page; [done..|]. wp_seq. split; [done|by apply list_insert_id].
Qed.
Next Obligation.
  intros s V a r HI Ha Hv. destruct (dram_page s V a HI) as (Ts&j&p&t&pg&Hd&Hp&Hj&Hin&_&Hpg&Hs&Hr); [by rewrite Hv; eauto|].
  simpl. eapply wp_on_page; [done..|]. wp_seq. eapply wp_read_page; [done|]. wp_seq. eapply wp_upd_page; [done|]. wp_seq.
  split; [congruence|]. exists Ts.
  pose proof (dram_write _ _ _ _ _ _ _ _ (set_ref_cnt (to_s32 (ref_cnt pg - 1)) pg) Hd Hp Hj Hin Hpg eq_refl eq_refl eq_refl) as Hd2.
  simpl in Hd2. rewrite (insert_id (slab_field V)) in Hd2 by done. replace r with (ref_cnt pg) by congruence. done.
Qed.
