(* ===== verification/Slab.v ===== *)
(** The DRAM slab allocator and [kmalloc] ([kernel/mm/dram_slab.c], [slab.c], [kmalloc.c],
    [dram_alloc.c]).

    A slab is a chunk of 2 MiB cut into objects of one size; its header and the links between its free
    objects lie in the chunk itself.  Every CPU has, for each order of object, a current slab and a list of
    partial slabs.  The state joins these with the pages ([PageLayer]) and with the cluster's remote release
    ([RemoteFree]), because a page allocation first takes back the pages other machines have freed. *)
From S2P Require Import Prelude Words ListHead Buddy PageLayer RemoteFree.

Definition SLAB_MIN_ORDER : Z := 5.
Definition SLAB_MAX_ORDER : Z := 11.
Definition SIZE_OF_ONE_SLAB : Z := 2 * 1024 * 1024.
Definition SLAB_MAX_SIZE : Z := Z.shiftl 1 SLAB_MAX_ORDER.
Definition ZERO_SIZE_PTR : Z := wrap_u64 (-1).
Definition PLAT_CPU_NUM : Z := 12.
Definition sizeof_slab_header : Z := 40.

(** Addresses of [struct list_head]s: [dram_slab_pool[cpu][order].partial_slab_list] and
    [slab->node]. *)
Inductive snode : Set := SNull | PartialHead (cpu order : Z) | SlabNode (a : Z).

#[export] Instance snode_eq_dec : EqDecision snode.
Proof. solve_decision. Defined.
#[export] Instance snode_countable : Countable snode.
Proof.
  refine (inj_countable'
    (λ n, match n with SNull => inl () | PartialHead c o => inr (inl (c, o)) | SlabNode a => inr (inr a) end)
    (λ x, match x with inl () => SNull | inr (inl (c, o)) => PartialHead c o | inr (inr a) => SlabNode a end) _).
  by intros [].
Defined.

#[export] Instance SlabNode_inj : Inj (=) (=) SlabNode.
Proof. by intros ?? [=]. Qed.

(** [struct slab_header] without its list node; the counters are unsigned shorts. *)
Record slab_header := SlabHeader {
  free_list_head : Z; order : Z; owner_cpu : Z; total_free_cnt : Z; current_free_cnt : Z
}.

Definition set_free_list_head x h := SlabHeader x (order h) (owner_cpu h) (total_free_cnt h) (current_free_cnt h).
Definition set_current_free_cnt x h :=
  SlabHeader (free_list_head h) (order h) (owner_cpu h) (total_free_cnt h) (wrap_u16 x).

(** [headers] is by the address of the slab, [next_free] holds the first word of the free objects,
    [current_slab] and [locked] are by CPU and order; [locked] are the slab locks held. *)
Record mem (P : Type) := Mem {
  rpf : cluster;
  phys : P;
  headers : gmap Z slab_header;
  nodes : gmap snode (list_head snode);
  next_free : gmap Z Z;
  current_slab : gmap (Z * Z) (option Z);
  locked : gset (Z * Z)
}.
Arguments Mem {P}.
Arguments rpf {P} m.
Arguments phys {P} m.
Arguments headers {P} m.
Arguments nodes {P} m.
Arguments next_free {P} m.
Arguments current_slab {P} m.
Arguments locked {P} m.

Section slab.
Context {P : Type} `{PageLayer P}.
Abbreviation MM := (M (mem P)).

Definition set_rpf x (s : mem P) := Mem x (phys s) (headers s) (nodes s) (next_free s) (current_slab s) (locked s).
Definition set_phys (x : P) (s : mem P) := Mem (rpf s) x (headers s) (nodes s) (next_free s) (current_slab s) (locked s).
Definition set_headers x (s : mem P) := Mem (rpf s) (phys s) x (nodes s) (next_free s) (current_slab s) (locked s).
Definition set_nodes x (s : mem P) := Mem (rpf s) (phys s) (headers s) x (next_free s) (current_slab s) (locked s).
Definition set_next_free x (s : mem P) := Mem (rpf s) (phys s) (headers s) (nodes s) x (current_slab s) (locked s).
Definition set_current_slab x (s : mem P) := Mem (rpf s) (phys s) (headers s) (nodes s) (next_free s) x (locked s).
Definition set_locked x (s : mem P) := Mem (rpf s) (phys s) (headers s) (nodes s) (next_free s) (current_slab s) x.

Definition on_phys {A} (m : M P A) : MM A := λ s,
  match m (phys s) with Ret (a, p) => Ret (a, set_phys p s) | Halt w => Halt w end.
Definition on_rpf {A} (m : M cluster A) : MM A := λ s,
  match m (rpf s) with Ret (a, r) => Ret (a, set_rpf r s) | Halt w => Halt w end.
Definition node_op (f : gmap snode (list_head snode) → outcome (gmap snode (list_head snode))) : MM unit := λ s,
  match f (nodes s) with Ret h => Ret (tt, set_nodes h s) | Halt w => Halt w end.
Definition node_read {A} (f : gmap snode (list_head snode) → outcome A) : MM A := λ s,
  match f (nodes s) with Ret a => Ret (a, s) | Halt w => Halt w end.
Definition read_header (a : Z) : MM slab_header := s ← get_state; from_opt (headers s !! a).
Definition upd_header (a : Z) (f : slab_header → slab_header) : MM unit :=
  h ← read_header a; modify (λ s, set_headers (<[a := f h]> (headers s)) s).
(** [slot->next_free] *)
Definition read_slot (x : Z) : MM Z := s ← get_state; from_opt (next_free s !! x).
Definition write_slot (x v : Z) : MM unit := modify (λ s, set_next_free (<[x := v]> (next_free s)) s).
Definition get_current (cpu ord : Z) : MM (option Z) := s ← get_state; from_opt (current_slab s !! (cpu, ord)).
Definition set_current (cpu ord : Z) (v : option Z) : MM unit :=
  get_current cpu ord;; modify (λ s, set_current_slab (<[(cpu, ord) := v]> (current_slab s)) s).

(** [lock(&dram_slabs_locks[cpu][order])]: a lock that the caller itself holds is never released. *)
Definition lock_slab (cpu ord : Z) : MM unit := λ s,
  if bool_decide ((cpu, ord) ∈ locked s) then Halt Spins
  else Ret (tt, set_locked ({[(cpu, ord)]} ∪ locked s) s).
Definition unlock_slab (cpu ord : Z) : MM unit := modify (λ s, set_locked (locked s ∖ {[(cpu, ord)]}) s).

(** ** slab.c *)

Definition set_or_clear_slab_in_page (addr size : Z) (set_or_clear : bool) : MM unit :=
  let order := size_to_order (size / BUDDY_PAGE_SIZE) in
  let page_num := order_to_size order in
  for_up (Z.to_nat page_num) 0 (λ i,
    on_phys (page_set_slab (wrap_u64 (addr + i * BUDDY_PAGE_SIZE)) (if set_or_clear then addr else 0))).

(** ** Releasing an object *)

(** [list_entry(list->next, struct slab_header, node)] *)
Definition choose_new_current_slab (cpu ord : Z) : MM unit :=
  e ← node_read (list_empty (PartialHead cpu ord));
  if e : bool then set_current cpu ord None
  else
    n ← node_read (λ h, rd_next h (PartialHead cpu ord));
    match n with
    | SlabNode slab => set_current cpu ord (Some slab);; node_op (list_del n)
    | _ => halt BadAccess
    end.

(** [while (cur_slot != NULL)] *)
Fixpoint check_loop (fuel : nat) (cur slot : Z) : MM bool :=
  match fuel with
  | O => halt OutOfFuel
  | S fuel' =>
      if bool_decide (cur = 0) then mret false
      else if bool_decide (cur = slot) then mret true
      else nxt ← read_slot cur; check_loop fuel' nxt slot
  end.
Definition check_slot_is_free (slab slot : Z) : MM bool :=
  h ← read_header slab;
  s ← get_state;
  check_loop (S (size (next_free s))) (free_list_head h) slot.

Definition try_insert_full_slab_to_partial (slab : Z) : MM unit :=
  h ← read_header slab;
  if negb (bool_decide (current_free_cnt h = 0)) then mret tt
  else
    bug_on (bool_decide (owner_cpu h >= PLAT_CPU_NUM));;
    node_op (list_append (SlabNode slab) (PartialHead (owner_cpu h) (order h))).

(** Code of the other kinds of memory; no DRAM page reaches it. *)
Context (dsm_cxl_free_page free_in_cxl_slab free_in_temp_slab : Z → MM unit).
(** [DETECTING_DOUBLE_FREE_IN_SLAB] *)
Context (detect : bool).

Definition free_pages (addr : Z) : MM unit :=
  ty ← on_phys (page_pool_type addr);
  match ty with
  | CXL_MEM_PAGE => dsm_cxl_free_page addr
  | _ => on_phys (page_buddy_free addr)
  end.

Definition try_return_slab_to_buddy (slab ord : Z) : MM unit :=
  h ← read_header slab;
  bug_on (bool_decide (owner_cpu h >= PLAT_CPU_NUM));;
  if negb (bool_decide (current_free_cnt h = total_free_cnt h)) then mret tt
  else
    cur ← get_current (owner_cpu h) ord;
    (if bool_decide (cur = Some slab) then choose_new_current_slab (owner_cpu h) ord
     else node_op (list_del (SlabNode slab)));;
    set_or_clear_slab_in_page slab SIZE_OF_ONE_SLAB false;;
    free_pages slab.

Definition free_in_dram_slab (addr : Z) : MM unit :=
  slab ← on_phys (page_slab addr);
  h ← read_header slab;
  let ord := order h in
  let owner := owner_cpu h in
  bug_on (bool_decide (owner >= PLAT_CPU_NUM));;
  lock_slab owner ord;;
  try_insert_full_slab_to_partial slab;;
  (if detect then dbl ← check_slot_is_free slab addr; bug_on dbl else mret tt);;
  h ← read_header slab;
  write_slot addr (free_list_head h);;
  upd_header slab (set_free_list_head addr);;
  upd_header slab (λ h, set_current_free_cnt (current_free_cnt h + 1) h);;
  try_return_slab_to_buddy slab ord;;
  unlock_slab owner ord.

(** ** kfree *)

Definition kfree (ptr : Z) : MM unit :=
  if bool_decide (ptr = ZERO_SIZE_PTR) then mret tt
  else
    slab ← on_phys (page_slab ptr);
    if negb (bool_decide (slab = 0)) then
      ty ← on_phys (page_pool_type ptr);
      match ty with
      | DRAM_PAGE => free_in_dram_slab ptr
      | CXL_MEM_PAGE => free_in_cxl_slab ptr
      | TEMP_PAGE => free_in_temp_slab ptr
      | _ => halt BugHit
      end
    else
      old_refcnt ← on_phys (page_ref_sub ptr);
      when (bool_decide (to_s32 old_refcnt = 1))
        (ty ← on_phys (page_pool_type ptr);
         match ty with
         | CXL_MEM_PAGE => dsm_cxl_free_page ptr
         | _ => on_phys (page_buddy_free ptr)
         end).

(** ** Page allocation *)

Context (c : rpf_config) (mid : Z).

(** The pages that a step of the remote release gave to [kfree], in its order. *)
Fixpoint kfree_all (l : list (Z * Z)) : MM unit :=
  match l with [] => mret tt | (_, pa) :: l' => kfree (phys_to_virt pa);; kfree_all l' end.
Definition with_kfree {A} (m : M cluster A) : MM A :=
  s ← get_state;
  a ← on_rpf m;
  s' ← get_state;
  kfree_all (rev (take (length (kfreed (rpf s')) - length (kfreed (rpf s))) (kfreed (rpf s'))));;
  mret a.

Definition get_dram_pages (ord : Z) : MM Z :=
  with_kfree (remote_page_free_poll c mid);;
  page ← on_phys (get_from_pools ord);
  if negb (bool_decide (page = 0)) then mret page
  else
    more ← with_kfree (drain_remote_page_free c mid);
    if more : bool then on_phys (get_from_pools ord) else mret 0.

(** ** Allocating an object *)

Definition alloc_slab_memory (size : Z) : MM Z :=
  let order := size_to_order (size / BUDDY_PAGE_SIZE) in
  addr ← get_dram_pages order;
  if bool_decide (addr = 0) then mret 0
  else set_or_clear_slab_in_page addr size true;; mret addr.

(** [for (i = 0; i < cnt - 1; ++i)], then the last slot. *)
Fixpoint link_slots (n : nat) (slot obj_size : Z) : MM unit :=
  match n with
  | O => write_slot slot 0
  | S n' => write_slot slot (wrap_u64 (slot + obj_size));; link_slots n' (wrap_u64 (slot + obj_size)) obj_size
  end.

(** The words of the header, its list node among them, are those of the new pages. *)
Definition init_slab_cache (ord size owner : Z) : MM (option Z) :=
  addr ← alloc_slab_memory size;
  if bool_decide (addr = 0) then mret None
  else
    let obj_size := order_to_size ord in
    let total_slots := size / obj_size in
    let meta_slots := ROUND_UP sizeof_slab_header obj_size / obj_size in
    bug_on (bool_decide (meta_slots = 0) || bool_decide (meta_slots >= total_slots));;
    let cnt := total_slots - meta_slots in
    let slot := wrap_u64 (addr + meta_slots * obj_size) in
    modify (λ s, set_nodes (<[SlabNode addr := default (ListNode SNull SNull) (nodes s !! SlabNode addr)]> (nodes s)) s);;
    modify (λ s, set_headers (<[addr := SlabHeader slot ord (wrap_u16 owner) (wrap_u16 cnt) (wrap_u16 cnt)]> (headers s)) s);;
    link_slots (Z.to_nat (cnt - 1)) slot obj_size;;
    mret (Some addr).

(** The first free object of the current slab; a slab without free objects is replaced. *)
Definition take_slot (cpu ord slab : Z) : MM Z :=
  h ← read_header slab;
  let free_list := free_list_head h in
  bug_on (bool_decide (free_list = 0));;
  next_slot ← read_slot free_list;
  upd_header slab (set_free_list_head next_slot);;
  upd_header slab (λ h, set_current_free_cnt (current_free_cnt h - 1) h);;
  h ← read_header slab;
  when (bool_decide (current_free_cnt h = 0)) (choose_new_current_slab cpu ord);;
  unlock_slab cpu ord;;
  mret free_list.

(** [cpu] is [smp_get_cpu_id()]. *)
Definition alloc_in_dram_slab_impl (cpu ord : Z) : MM Z :=
  bug_on (bool_decide (cpu >= PLAT_CPU_NUM));;
  lock_slab cpu ord;;
  cur ← get_current cpu ord;
  match cur with
  | Some slab => take_slot cpu ord slab
  | None =>
      new ← init_slab_cache ord SIZE_OF_ONE_SLAB cpu;
      match new with
      | None => unlock_slab cpu ord;; mret 0
      | Some slab => set_current cpu ord (Some slab);; take_slot cpu ord slab
      end
  end.

Definition alloc_in_dram_slab (cpu size : Z) : MM Z :=
  bug_on (bool_decide (size > order_to_size SLAB_MAX_ORDER));;
  let order := size_to_order size in
  let order := if bool_decide (order < SLAB_MIN_ORDER) then SLAB_MIN_ORDER else order in
  alloc_in_dram_slab_impl cpu order.

Definition dram_kmalloc (cpu size : Z) : MM Z :=
  if bool_decide (size = 0) then mret ZERO_SIZE_PTR
  else
    addr ← (if bool_decide (size <= SLAB_MAX_SIZE) then alloc_in_dram_slab cpu size
            else
              let order := if bool_decide (size <= BUDDY_PAGE_SIZE) then 0 else size_to_page_order size in
              get_dram_pages order);
    bug_on (bool_decide (addr = 0));;
    mret addr.

(** ** Initialisation and statistics *)

Definition init_dram_slab : MM unit :=
  for_up (Z.to_nat PLAT_CPU_NUM) 0 (λ cpu,
    for_up (Z.to_nat (SLAB_MAX_ORDER + 1 - SLAB_MIN_ORDER)) SLAB_MIN_ORDER (λ ord,
      modify (λ s, set_locked (locked s ∖ {[(cpu, ord)]}) s);;
      modify (λ s, set_current_slab (<[(cpu, ord) := None]> (current_slab s)) s);;
      node_op (init_list_head (PartialHead cpu ord)))).

(** [while (slot != NULL)] *)
Fixpoint count_slots (fuel : nat) (slot n : Z) : MM Z :=
  match fuel with
  | O => halt OutOfFuel
  | S fuel' =>
      if bool_decide (slot = 0) then mret n
      else nxt ← read_slot slot; count_slots fuel' nxt (n + 1)
  end.
(** One slab: the slots on its free list, and its counter. *)
Definition count_slab (slab : Z) (n : Z * Z) : MM (Z * Z) :=
  h ← read_header slab;
  s ← get_state;
  cur ← count_slots (S (size (next_free s))) (free_list_head h) n.1;
  mret (cur, n.2 + current_free_cnt h).

(** [for_each_in_list] over the partial slabs *)
Fixpoint count_partial (fuel : nat) (cpu ord : Z) (node : snode) (n : Z * Z) : MM (Z * Z) :=
  match fuel with
  | O => halt OutOfFuel
  | S fuel' =>
      if bool_decide (node = PartialHead cpu ord) then mret n
      else
        match node with
        | SlabNode slab =>
            n ← count_slab slab n;
            nxt ← node_read (λ h, rd_next h node);
            count_partial fuel' cpu ord nxt n
        | _ => halt BadAccess
        end
  end.

(** [for (cpu_id = 0; cpu_id < PLAT_CPU_NUM; cpu_id++)] *)
Fixpoint count_cpus (k : nat) (cpu ord : Z) (n : Z * Z) : MM (Z * Z) :=
  match k with
  | O => mret n
  | S k' =>
      lock_slab cpu ord;;
      cur ← get_current cpu ord;
      n ← (match cur with Some slab => count_slab slab n | None => mret n end);
      e ← node_read (list_empty (PartialHead cpu ord));
      n ← (if e : bool then mret n
           else
             first ← node_read (λ h, rd_next h (PartialHead cpu ord));
             s ← get_state;
             count_partial (S (size (nodes s))) cpu ord first n);
      unlock_slab cpu ord;;
      count_cpus k' (cpu + 1) ord n
  end.

Definition dram_get_free_slot_number (ord : Z) : MM Z :=
  n ← count_cpus (Z.to_nat PLAT_CPU_NUM) 0 ord (0, 0);
  bug_on (negb (bool_decide (n.2 = n.1)));;
  mret n.1.

Fixpoint slab_mem_loop (k : nat) (ord total : Z) : MM Z :=
  match k with
  | O => mret total
  | S k' =>
      slot_num ← dram_get_free_slot_number ord;
      slab_mem_loop k' (ord + 1) (wrap_u64 (total + order_to_size ord * slot_num))
  end.
Definition dram_get_free_mem_size_from_slab : MM Z :=
  slab_mem_loop (Z.to_nat (SLAB_MAX_ORDER + 1 - SLAB_MIN_ORDER)) SLAB_MIN_ORDER 0.
End slab.
