(* ===== verification/SlabProofs.v ===== *)
(** Invariant of the slab allocator and the specifications of its functions.

    The abstract state gives, for every slab, its CPU, its order and its free objects.  It is proved against
    the page interface of PageLayer.v. *)
From S2P Require Import Prelude Words ListHead Buddy PageLayer RemoteFree RemoteFreeProofs Slab.

(** ** Geometry of a slab *)

Definition obj_size (o : Z) : Z := 2 ^ o.
Definition meta_slots (o : Z) : Z := ROUND_UP sizeof_slab_header (obj_size o) / obj_size o.
Definition slot_cnt (o : Z) : Z := SIZE_OF_ONE_SLAB / obj_size o - meta_slots o.
Definition slot_addr (a o j : Z) : Z := a + (meta_slots o + j) * obj_size o.
Definition slot_of (a o x : Z) : Prop := ∃ j, 0 ≤ j < slot_cnt o ∧ x = slot_addr a o j.

Definition in_orders (o : Z) : Prop := SLAB_MIN_ORDER ≤ o ≤ SLAB_MAX_ORDER.

Lemma slab_geometry o : in_orders o →
  1 ≤ meta_slots o ∧ 2 ≤ slot_cnt o < 2 ^ 16 ∧ (meta_slots o + slot_cnt o) * obj_size o = SIZE_OF_ONE_SLAB ∧
  32 ≤ obj_size o ≤ 2048.
Proof.
  intros Ho. unfold in_orders, SLAB_MIN_ORDER, SLAB_MAX_ORDER in Ho.
  assert (o = 5 ∨ o = 6 ∨ o = 7 ∨ o = 8 ∨ o = 9 ∨ o = 10 ∨ o = 11) as Hc by lia.
  repeat destruct Hc as [-> | Hc]; [..|subst o]; vm_compute; split_and!; congruence.
Qed.

Lemma slot_of_range a o x : in_orders o → slot_of a o x →
  a < x ∧ x + obj_size o ≤ a + SIZE_OF_ONE_SLAB ∧ (obj_size o | x - a).
Proof.
  intros Ho (j&Hj&->). destruct (slab_geometry o Ho) as (?&?&<-&?). unfold slot_addr. split_and!.
  - assert (0 < (meta_slots o + j) * obj_size o) by (apply Z.mul_pos_pos; lia). lia.
  - assert ((meta_slots o + j + 1) * obj_size o ≤ (meta_slots o + slot_cnt o) * obj_size o)
      by (apply Z.mul_le_mono_nonneg_r; lia). lia.
  - exists (meta_slots o + j). lia.
Qed.

Lemma slot_of_disj a o x y : in_orders o → slot_of a o x → slot_of a o y →
  x < y + obj_size o → y < x + obj_size o → x = y.
Proof.
  intros Ho (i&?&->) (j&?&->) H1 H2. destruct (slab_geometry o Ho) as (_&_&_&?). unfold slot_addr in *.
  assert (i = j) as ->; [|done].
  assert (i < j + 1) by (apply (Z.mul_lt_mono_pos_r (obj_size o)); lia).
  assert (j < i + 1) by (apply (Z.mul_lt_mono_pos_r (obj_size o)); lia). lia.
Qed.

(** ** Abstract state *)

Record sinfo := SInfo { si_cpu : Z; si_ord : Z; si_free : list Z }.
Definition set_free l i := SInfo (si_cpu i) (si_ord i) l.
Abbreviation slabs := (gmap Z sinfo).

(** The free list that starts at [x]. *)
Fixpoint fchain (nf : gmap Z Z) (x : Z) (l : list Z) : Prop :=
  match l with
  | [] => x = 0
  | y :: l' => x = y ∧ ∃ v, nf !! y = Some v ∧ fchain nf v l'
  end.

Lemma fchain_frame nf nf' x l : (∀ y, y ∈ l → nf' !! y = nf !! y) → fchain nf x l → fchain nf' x l.
Proof.
  revert x. induction l as [|y l IH]; intros x Hf; [done|]. simpl. intros (->&v&Hv&Hc).
  split; [done|]. exists v. rewrite Hf by set_solver. split; [done|]. apply IH; [|done]. intros; apply Hf. set_solver.
Qed.

Lemma fchain_dom nf y l z : fchain nf y l → z ∈ l → is_Some (nf !! z).
Proof.
  revert y. induction l as [|w l IH]; intros y; [by intros _ ?%elem_of_nil|]. simpl.
  intros (->&v&Hv&Hc) [->|Hz]%elem_of_cons; [by eexists|by eapply IH].
Qed.

Lemma fchain_size nf y l : fchain nf y l → NoDup l → (length l ≤ size nf)%nat.
Proof.
  intros Hc Hnd. rewrite <-size_dom, <-(size_list_to_set (C := gset Z) l Hnd). apply subseteq_size.
  intros z Hz%elem_of_list_to_set. apply elem_of_dom. by eapply fchain_dom.
Qed.

Definition in_range (cpu o : Z) : Prop := 0 ≤ cpu < PLAT_CPU_NUM ∧ in_orders o.

(** [Av cpu o a]: slab [a] is the current slab or a partial slab of [cpu] for order [o]. *)
Record lists_via (h : gmap snode (list_head snode)) (cur : gmap (Z * Z) (option Z)) (Av : Z → Z → Z → Prop)
    (W : gmap snode (list snode)) : Prop := {
  lv_rep : Rep h W;
  lv_pool cpu o : in_range cpu o → ∃ c ps, cur !! (cpu, o) = Some c ∧ W !! PartialHead cpu o = Some (SlabNode <$> ps) ∧
    NoDup (option_list c ++ ps) ∧ ∀ a, a ∈ option_list c ++ ps ↔ Av cpu o a;
  lv_only hd xs : W !! hd = Some xs → ∃ cpu o, in_range cpu o ∧ hd = PartialHead cpu o
}.
Definition lists h cur Av : Prop := ∃ W, lists_via h cur Av W.

Lemma lists_ext h cur Av Av' : (∀ cpu o a, in_range cpu o → Av cpu o a ↔ Av' cpu o a) → lists h cur Av → lists h cur Av'.
Proof.
  intros He (W&[HR HW ?]). exists W. split; [done| |done]. intros cpu o Hr.
  destruct (HW cpu o Hr) as (c&ps&?&?&?&Ha). exists c, ps. split_and!; [done..|]. intros a. by rewrite Ha, He.
Qed.

Definition plus (Av : Z → Z → Z → Prop) (cpu o a : Z) : Z → Z → Z → Prop :=
  λ cpu' o' b, Av cpu' o' b ∨ (cpu' = cpu ∧ o' = o ∧ b = a).
Definition minus (Av : Z → Z → Z → Prop) (cpu o a : Z) : Z → Z → Z → Prop :=
  λ cpu' o' b, Av cpu' o' b ∧ ¬ (cpu' = cpu ∧ o' = o ∧ b = a).

(** A slab that is listed nowhere is on no list. *)
Lemma not_on_list h cur Av W a :
  lists_via h cur Av W → (∀ cpu o, in_range cpu o → ¬ Av cpu o a) → ¬ on_list W (SlabNode a).
Proof.
  intros [HR HW Ho] Ha (hd&xs&Hx&Hin). destruct (Ho _ _ Hx) as (cpu&o&Hr&->).
  destruct (HW cpu o Hr) as (c&ps&_&Hps&_&Hav). rewrite Hx in Hps. simplify_eq.
  apply elem_of_cons in Hin as [?|Hin]; [done|]. apply list_elem_of_fmap in Hin as (b&[= <-]&Hb).
  apply (Ha cpu o Hr), Hav, elem_of_app. by right.
Qed.

(** Replacing the lists of one CPU and order. *)
Lemma lists_change h cur Av W cpu o h' c' ps' Av' :
  lists_via h cur Av W → in_range cpu o → Rep h' (<[PartialHead cpu o := SlabNode <$> ps']> W) →
  NoDup (option_list c' ++ ps') → (∀ a, a ∈ option_list c' ++ ps' ↔ Av' cpu o a) →
  (∀ cpu' o' a, (cpu', o') ≠ (cpu, o) → Av' cpu' o' a ↔ Av cpu' o' a) →
  lists h' (<[(cpu, o) := c']> cur) Av'.
Proof.
  intros [HR HW Ho] Hr HR' Hnd Hav Hother. exists (<[PartialHead cpu o := SlabNode <$> ps']> W). split; [done| |].
  - intros cpu' o' Hr'. destruct (decide (PartialHead cpu o = PartialHead cpu' o')) as [[= <- <-]|Hne].
    + exists c', ps'. by rewrite !lookup_insert_eq.
    + rewrite !lookup_insert_ne by congruence. destruct (HW _ _ Hr') as (c&ps&?&?&?&Hav'). exists c, ps. split_and!; [done..|].
      intros b. rewrite Hav', Hother by congruence. done.
  - intros hd xs [[<- _]|[_ ?]]%lookup_insert_Some; eauto.
Qed.

Lemma lists_append h cur Av cpu o a :
  lists h cur Av → in_range cpu o → is_Some (h !! SlabNode a) → (∀ cpu o, in_range cpu o → ¬ Av cpu o a) →
  ∃ h', list_append (SlabNode a) (PartialHead cpu o) h = Ret h' ∧ dom h' = dom h ∧ lists h' cur (plus Av cpu o a).
Proof.
  intros [W HL] Hr Hn Ha. destruct (lv_pool _ _ _ _ HL cpu o Hr) as (c&ps&Hc&Hps&Hnd&Hav).
  destruct (list_append_rep h W _ _ (SlabNode a) (lv_rep _ _ _ _ HL) Hps Hn) as (h'&?&?&HR'); [by eapply not_on_list|].
  exists h'. split_and!; [done..|]. rewrite <-(insert_id cur (cpu, o) c Hc).
  eapply (lists_change _ _ _ _ _ _ _ c (ps ++ [a])); [done|done|by rewrite fmap_app|..].
  - rewrite (assoc (++)). apply NoDup_app. split_and!; [done| |apply NoDup_singleton].
    intros x Hx ->%list_elem_of_singleton. by apply (Ha cpu o Hr), Hav.
  - intros b. rewrite (assoc (++)), elem_of_app, Hav, list_elem_of_singleton. unfold plus. naive_solver.
  - intros cpu' o' b Hne. unfold plus. naive_solver.
Qed.

Lemma lists_del h cur Av cpu o a :
  lists h cur Av → in_range cpu o → Av cpu o a → cur !! (cpu, o) ≠ Some (Some a) →
  ∃ h', list_del (SlabNode a) h = Ret h' ∧ dom h' = dom h ∧ lists h' cur (minus Av cpu o a).
Proof.
  intros [W HL] Hr Ha Hcur. destruct (lv_pool _ _ _ _ HL cpu o Hr) as (c&ps&Hc&Hps&Hnd&Hav).
  assert (a ∈ ps) as Hin.
  { apply Hav, elem_of_app in Ha as [Ha|]; [|done]. destruct c as [b|]; [|by apply elem_of_nil in Ha].
    apply list_elem_of_singleton in Ha as ->. congruence. }
  apply list_elem_of_split in Hin as (l1&l2&->).
  rewrite fmap_app, fmap_cons in Hps. destruct (list_del_rep h W _ _ _ _ (lv_rep _ _ _ _ HL) Hps) as (h'&?&?&HR').
  exists h'. split_and!; [done..|]. rewrite <-(insert_id cur (cpu, o) c Hc).
  assert (option_list c ++ l1 ++ a :: l2 ≡ₚ a :: option_list c ++ l1 ++ l2) as Hperm.
  { rewrite !(assoc (++) (option_list c)). symmetry. apply Permutation_middle. }
  rewrite Hperm in Hnd. apply NoDup_cons in Hnd as [Hna Hnd].
  eapply (lists_change _ _ _ _ _ _ _ c (l1 ++ l2)); [done|done|by rewrite fmap_app|done|..].
  - intros b. unfold minus. rewrite <-Hav, Hperm, elem_of_cons. naive_solver.
  - intros cpu' o' b Hne. unfold minus. naive_solver.
Qed.

Lemma lists_set_current h cur Av cpu o a :
  lists h cur Av → in_range cpu o → cur !! (cpu, o) = Some None → (∀ cpu o, in_range cpu o → ¬ Av cpu o a) →
  lists h (<[(cpu, o) := Some a]> cur) (plus Av cpu o a).
Proof.
  intros [W HL] Hr Hc Ha. destruct (lv_pool _ _ _ _ HL cpu o Hr) as (c&ps&Hc'&Hps&Hnd&Hav). simplify_eq.
  eapply (lists_change _ _ _ _ _ _ _ (Some a) ps); [done|done|rewrite insert_id by done; apply HL|..].
  - simpl. apply NoDup_cons. split; [|done]. intros Hin. by apply (Ha cpu o Hr), Hav.
  - intros b. simpl. rewrite elem_of_cons. unfold plus. rewrite <-Hav. simpl. naive_solver.
  - intros cpu' o' b Hne. unfold plus. naive_solver.
Qed.

(** The first of the list, if there is one, becomes the current slab. *)
Lemma lists_next h cur Av cpu o a :
  lists h cur Av → in_range cpu o → cur !! (cpu, o) = Some (Some a) →
  (list_empty (PartialHead cpu o) h = Ret true ∧ lists h (<[(cpu, o) := None]> cur) (minus Av cpu o a)) ∨
  (∃ b h', list_empty (PartialHead cpu o) h = Ret false ∧ rd_next h (PartialHead cpu o) = Ret (SlabNode b) ∧
     list_del (SlabNode b) h = Ret h' ∧ dom h' = dom h ∧
     lists h' (<[(cpu, o) := Some b]> cur) (minus Av cpu o a)).
Proof.
  intros [W HL] Hr Hc. destruct (lv_pool _ _ _ _ HL cpu o Hr) as (c&ps&Hc'&Hps&Hnd&Hav). simplify_eq.
  pose proof (lv_rep _ _ _ _ HL) as HR. simpl in Hnd. apply NoDup_cons in Hnd as [Hna Hnd].
  assert (∀ b, b ∈ ps ↔ minus Av cpu o a cpu o b) as Hav'.
  { intros b. unfold minus. rewrite <-Hav. simpl. rewrite elem_of_cons. naive_solver. }
  assert (∀ cpu' o' b, (cpu', o') ≠ (cpu, o) → minus Av cpu o a cpu' o' b ↔ Av cpu' o' b) as Hother.
  { intros cpu' o' b Hne. unfold minus. naive_solver. }
  rewrite (list_empty_rep _ _ _ _ HR Hps), (rd_next_rep _ _ _ _ HR Hps).
  destruct ps as [|b ps]; [left|right]; simpl in Hps.
  - split; [done|]. eapply (lists_change _ _ _ _ _ _ _ None []); [done|done|rewrite insert_id by done; apply HL|done..].
  - destruct (list_del_rep h W _ [] (SlabNode b) (SlabNode <$> ps) HR Hps) as (h'&?&?&HR').
    exists b, h'. split_and!; try done. by eapply (lists_change _ _ _ _ _ _ _ (Some b) ps).
Qed.

Lemma unlock_lock (cpu o : Z) (L : gset (Z * Z)) : (cpu, o) ∉ L → ({[(cpu, o)]} ∪ L) ∖ {[(cpu, o)]} = L.
Proof. set_solver. Qed.

(** ** Invariant *)

Section ops.
Context {P : Type} `{PageLayerSpec P}.
Implicit Types (s : mem P) (V : pages_view) (S : slabs) (i : sinfo) (a b x : Z).

Definition header_of (hd : Z) i : slab_header :=
  SlabHeader hd (si_ord i) (si_cpu i) (slot_cnt (si_ord i)) (Z.of_nat (length (si_free i))).

Record slab_ok s V a i : Prop := {
  so_live : live V !! a = Some 9;
  so_range : in_range (si_cpu i) (si_ord i);
  so_header : ∃ hd, headers s !! a = Some (header_of hd i) ∧ fchain (next_free s) hd (si_free i);
  so_nodup : NoDup (si_free i);
  so_len : Z.of_nat (length (si_free i)) ≤ slot_cnt (si_ord i);
  so_slots x : x ∈ si_free i → slot_of a (si_ord i) x;
  so_node : is_Some (nodes s !! SlabNode a);
  so_pages n : chunk_page a 9 n → slab_field V !! n = Some a
}.

Record sinv s V S (Av : Z → Z → Z → Prop) : Prop := {
  s_phys : pl_inv (phys s) V;
  s_slab a i : S !! a = Some i → slab_ok s V a i;
  s_plain n v : slab_field V !! n = Some v → v ≠ 0 → is_Some (S !! v) ∧ chunk_page v 9 n;
  s_lists : lists (nodes s) (current_slab s) Av
}.

(** The slabs that can serve an allocation. *)
Definition avail S : Z → Z → Z → Prop := λ cpu o a,
  ∃ i, S !! a = Some i ∧ si_cpu i = cpu ∧ si_ord i = o ∧ si_free i ≠ [].

(** Between two operations no slab is entirely free. *)
Definition used S : Prop := ∀ a i, S !! a = Some i → Z.of_nat (length (si_free i)) < slot_cnt (si_ord i).

Lemma wp_on_phys {A} (m : M P A) (Q : A → mem P → Prop) s :
  wp m (λ r p, Q r (set_phys p s)) (phys s) → wp (on_phys m) Q s.
Proof. unfold wp, on_phys. by destruct (m (phys s)) as [[??]|]. Qed.

Lemma wp_on_rpf {A} (m : M cluster A) (Q : A → mem P → Prop) s :
  wp m (λ r p, Q r (set_rpf p s)) (rpf s) → wp (on_rpf m) Q s.
Proof. unfold wp, on_rpf. by destruct (m (rpf s)) as [[??]|]. Qed.

Lemma wp_node_op f h (Q : unit → mem P → Prop) s :
  f (nodes s) = Ret h → Q tt (set_nodes h s) → wp (node_op f) Q s.
Proof. unfold wp, node_op. by intros ->. Qed.

Lemma wp_node_read {A} (f : _ → outcome A) v (Q : A → mem P → Prop) s :
  f (nodes s) = Ret v → Q v s → wp (node_read f) Q s.
Proof. unfold wp, node_read. by intros ->. Qed.

Lemma wp_read_header a h (Q : slab_header → mem P → Prop) s :
  headers s !! a = Some h → Q h s → wp (read_header a) Q s.
Proof. unfold read_header. intros Hh HQ. wp_seq. by eapply wp_from_opt. Qed.

Lemma wp_upd_header a f h (Q : unit → mem P → Prop) s :
  headers s !! a = Some h → Q tt (set_headers (<[a := f h]> (headers s)) s) → wp (upd_header a f) Q s.
Proof. unfold upd_header. intros Hh HQ. wp_seq. eapply wp_read_header; [done|]. by wp_seq. Qed.

Lemma wp_get_current cpu o v (Q : option Z → mem P → Prop) s :
  current_slab s !! (cpu, o) = Some v → Q v s → wp (get_current cpu o) Q s.
Proof. unfold get_current. intros Hv HQ. wp_seq. by eapply wp_from_opt. Qed.

Lemma wp_set_current cpu o v w (Q : unit → mem P → Prop) s :
  current_slab s !! (cpu, o) = Some w → Q tt (set_current_slab (<[(cpu, o) := v]> (current_slab s)) s) →
  wp (set_current cpu o v) Q s.
Proof. unfold set_current. intros Hv HQ. wp_seq. eapply wp_get_current; [done|]. by wp_seq. Qed.

Lemma wp_lock_slab cpu o (Q : unit → mem P → Prop) s :
  (cpu, o) ∉ locked s → Q tt (set_locked ({[(cpu, o)]} ∪ locked s) s) → wp (lock_slab cpu o) Q s.
Proof. intros Hl HQ. unfold wp, lock_slab. by rewrite bool_decide_eq_false_2. Qed.

(** *** Frames *)

Lemma slab_ok_frame s s' V V' a i :
  slab_ok s V a i → headers s' !! a = headers s !! a → (∀ x, x ∈ si_free i → next_free s' !! x = next_free s !! x) →
  (is_Some (nodes s !! SlabNode a) → is_Some (nodes s' !! SlabNode a)) → live V' !! a = live V !! a →
  (∀ n, chunk_page a 9 n → slab_field V' !! n = slab_field V !! n) → slab_ok s' V' a i.
Proof.
  intros [Hl Hr (hd&Hh&Hc) Hnd Hlen Hsl Hn Hp] Eh Ef En El Ep. split; try done.
  - by rewrite El.
  - exists hd. rewrite Eh. split; [done|]. by eapply fchain_frame.
  - auto.
  - intros n Hch. rewrite Ep by done. auto.
Qed.

Lemma sinv_lists s V S Av h cur Av' :
  sinv s V S Av → dom h = dom (nodes s) → lists h cur Av' → sinv (set_nodes h (set_current_slab cur s)) V S Av'.
Proof.
  intros [Hp Hs Hpl _] Hd Hl. split; try done. intros a i Ha. eapply slab_ok_frame; [by apply Hs|done..| |done|done].
  simpl. by rewrite <-!elem_of_dom, Hd.
Qed.

Lemma sinv_ext s V S Av Av' :
  (∀ cpu o a, in_range cpu o → Av cpu o a ↔ Av' cpu o a) → sinv s V S Av → sinv s V S Av'.
Proof. intros He []. split; try done. by eapply lists_ext. Qed.

(** Two slabs share no page, and no object. *)
Lemma slab_pages_disj s V S Av a i b j n :
  sinv s V S Av → S !! a = Some i → S !! b = Some j → chunk_page a 9 n → chunk_page b 9 n → a = b.
Proof.
  intros HI Ha Hb Hna Hnb. pose proof (so_pages _ _ _ _ (s_slab _ _ _ _ HI _ _ Ha) n Hna) as E1.
  pose proof (so_pages _ _ _ _ (s_slab _ _ _ _ HI _ _ Hb) n Hnb) as E2. congruence.
Qed.

Lemma slot_chunk_page a o x : aligned a (9 + 12) → in_orders o → slot_of a o x → chunk_page a 9 (pfn x).
Proof.
  intros [z Hz] Ho Hx. destruct (slot_of_range _ _ _ Ho Hx) as (?&?&_). destruct (slab_geometry _ Ho) as (_&_&_&?).
  change (2 ^ (9 + 12)) with (512 * 4096) in Hz. unfold chunk_page, pfn, BUDDY_PAGE_SIZE, SIZE_OF_ONE_SLAB in *.
  replace a with (z * 512 * 4096) in * by lia. rewrite Z.div_mul by lia. change (2 ^ 9) with 512.
  split; [apply Z.div_le_lower_bound; lia|apply Z.div_lt_upper_bound; lia].
Qed.

Lemma slot_page s V S Av b i x :
  sinv s V S Av → S !! b = Some i → slot_of b (si_ord i) x → 0 < x ∧ chunk_page b 9 (pfn x) ∧ x + obj_size (si_ord i) ≤ 2 ^ 64.
Proof.
  intros HI Hb Hx. pose proof (s_slab _ _ _ _ HI _ _ Hb) as Hok. destruct (so_range _ _ _ _ Hok) as [_ Ho].
  destruct (slot_of_range _ _ _ Ho Hx) as (?&?&_).
  destruct (pl_live _ _ _ _ (s_phys _ _ _ _ HI) (so_live _ _ _ _ Hok)) as (_&?&Hal&Htop).
  change (2 ^ (9 + 12)) with SIZE_OF_ONE_SLAB in Htop. split_and!; [lia|by eapply slot_chunk_page|lia].
Qed.

Lemma slot_other s V S Av a i b j x :
  sinv s V S Av → S !! a = Some i → S !! b = Some j → slot_of a (si_ord i) x → slot_of b (si_ord j) x → a = b.
Proof.
  intros HI Ha Hb Hxa Hxb. destruct (slot_page _ _ _ _ _ _ _ HI Ha Hxa) as (_&?&_).
  destruct (slot_page _ _ _ _ _ _ _ HI Hb Hxb) as (_&?&_). by eapply slab_pages_disj.
Qed.
(** *** Steps on the lists *)

Lemma wp_choose s V S Av cpu o a (Q : unit → mem P → Prop) :
  sinv s V S Av → in_range cpu o → current_slab s !! (cpu, o) = Some (Some a) →
  (∀ h cur, sinv (set_nodes h (set_current_slab cur s)) V S (minus Av cpu o a) →
     Q tt (set_nodes h (set_current_slab cur s))) →
  wp (choose_new_current_slab cpu o) Q s.
Proof.
  intros HI Hr Hc HQ. unfold choose_new_current_slab.
  destruct (lists_next _ _ _ _ _ _ (s_lists _ _ _ _ HI) Hr Hc) as [(He&Hl)|(b&h'&He&Hn&Hd&Hdom&Hl)]; wp_seq;
    (eapply wp_node_read; [exact He|]); cbv iota.
  - eapply wp_set_current; [done|].
    set (cur := <[(cpu, o) := None]> (current_slab s)) in *.
    assert (set_current_slab cur s = set_nodes (nodes s) (set_current_slab cur s)) as -> by done.
    apply HQ. by eapply sinv_lists.
  - wp_seq. eapply wp_node_read; [exact Hn|]. cbv iota. wp_seq. eapply wp_set_current; [done|].
    eapply wp_node_op; [exact Hd|]. apply HQ. by eapply sinv_lists.
Qed.

Lemma avail_fun S cpu o cpu' o' a : avail S cpu o a → avail S cpu' o' a → cpu = cpu' ∧ o = o'.
Proof. intros (i&?&<-&<-&_) (j&?&<-&<-&_). by simplify_eq. Qed.

(** The slab of the object is listed, whether it was full or not. *)
Lemma wp_try_insert s V S a i (Q : unit → mem P → Prop) :
  sinv s V S (avail S) → S !! a = Some i →
  (∀ h, sinv (set_nodes h s) V S (plus (avail S) (si_cpu i) (si_ord i) a) → Q tt (set_nodes h s)) →
  wp (try_insert_full_slab_to_partial a) Q s.
Proof.
  intros HI Ha HQ. pose proof (s_slab _ _ _ _ HI _ _ Ha) as Hok. destruct (so_header _ _ _ _ Hok) as (hd&Hh&_).
  pose proof (so_range _ _ _ _ Hok) as Hr. unfold try_insert_full_slab_to_partial. wp_seq.
  eapply wp_read_header; [done|]. simpl. case_bool_decide as Hcnt; simpl.
  - wp_seq. apply wp_bug_on; [apply bool_decide_eq_false_2; destruct Hr; lia|].
    destruct (lists_append _ _ _ _ _ a (s_lists _ _ _ _ HI) Hr (so_node _ _ _ _ Hok)) as (h&Happ&Hdom&Hl).
    { intros cpu o _ (j&Hj&_&_&Hne). simplify_eq. by destruct (si_free i). }
    eapply wp_node_op; [exact Happ|]. apply HQ.
    assert (set_nodes h s = set_nodes h (set_current_slab (current_slab s) s)) as -> by done. by eapply sinv_lists.
  - wp_seq. replace s with (set_nodes (nodes s) s) by (by destruct s). apply HQ.
    replace (set_nodes (nodes s) s) with s by (by destruct s).
    eapply sinv_ext; [|done]. intros cpu o b _. unfold plus. split; [by left|].
    intros [?|(->&->&->)]; [done|]. exists i. split_and!; try done. intros E. by rewrite E in Hcnt.
Qed.

(** *** Marking the pages of a slab *)

Lemma size_of_slab_pages : Z.to_nat (order_to_size (size_to_order (SIZE_OF_ONE_SLAB / BUDDY_PAGE_SIZE))) = 512%nat.
Proof. vm_compute. reflexivity. Qed.

Lemma wp_mark s V a k v n :
  pl_inv (phys s) V → live V !! a = Some k → Z.of_nat n ≤ 2 ^ k →
  wp (for_up n 0 (λ j, on_phys (page_set_slab (wrap_u64 (a + j * BUDDY_PAGE_SIZE)) v))) (λ _ s', ∃ p f,
    s' = set_phys p s ∧ pl_inv p (with_slab f V) ∧
    ∀ m, f !! m = if decide (pfn a ≤ m < pfn a + Z.of_nat n) then Some v else slab_field V !! m) s.
Proof.
  intros Hp Hl Hn. destruct (pl_live _ _ _ _ Hp Hl) as (Hk&Ha&Hal&Htop).
  eapply wp_mono.
  - apply (wp_for_up (λ j s', ∃ p f, s' = set_phys p s ∧ pl_inv p (with_slab f V) ∧
      ∀ m, f !! m = if decide (pfn a ≤ m < pfn a + j) then Some v else slab_field V !! m)).
    { exists (phys s), (slab_field V). split_and!; [by destruct s|by destruct V|].
      intros m. rewrite decide_False by lia. done. }
    intros j s' Hj (p&f&->&Hpi&Hf).
    assert (wrap_u64 (a + j * BUDDY_PAGE_SIZE) = a + j * BUDDY_PAGE_SIZE) as ->.
    { apply wrap_u64_small. rewrite Z.pow_add_r in Htop by lia. change (2 ^ 12) with BUDDY_PAGE_SIZE in Htop.
      unfold BUDDY_PAGE_SIZE in *. lia. }
    assert (pfn (a + j * BUDDY_PAGE_SIZE) = pfn a + j) as Hpf.
    { unfold pfn, BUDDY_PAGE_SIZE. by rewrite Z.div_add. }
    destruct (pl_fields _ _ _ _ (pfn a + j) Hp Hl) as [[w Hw] _]; [unfold chunk_page; lia|].
    apply wp_on_phys. simpl. eapply wp_mono.
    { eapply (pl_set_slab_spec _ _ (a + j * BUDDY_PAGE_SIZE) w); [done|unfold BUDDY_PAGE_SIZE; lia|].
      simpl. rewrite Hpf, Hf. by rewrite decide_False by lia. }
    intros [] p' Hp'. rewrite Hpf in Hp'. exists p', (<[pfn a + j := v]> f). split_and!; [done|done|].
    intros m. destruct (decide (m = pfn a + j)) as [->|].
    + rewrite lookup_insert_eq. by rewrite decide_True by lia.
    + rewrite lookup_insert_ne by done. rewrite Hf. repeat case_decide; try done; lia.
  - intros [] s' (p&f&?&?&?). exists p, f. done.
Qed.

Lemma wp_mark_slab s V a (b : bool) :
  pl_inv (phys s) V → live V !! a = Some 9 →
  wp (set_or_clear_slab_in_page a SIZE_OF_ONE_SLAB b) (λ _ s', ∃ p f,
    s' = set_phys p s ∧ pl_inv p (with_slab f V) ∧
    (∀ m, chunk_page a 9 m → f !! m = Some (if b then a else 0)) ∧
    (∀ m, ¬ chunk_page a 9 m → f !! m = slab_field V !! m)) s.
Proof.
  intros Hp Hl. unfold set_or_clear_slab_in_page. rewrite size_of_slab_pages.
  eapply wp_mono; [by apply (wp_mark s V a 9)|].
  intros [] s' (p&f&->&?&Hf). exists p, f. change (Z.of_nat 512) with (2 ^ 9) in Hf. unfold chunk_page.
  split_and!; [done|done|..]; intros m Hm; rewrite Hf; by case_decide.
Qed.
(** *** Looking for a double free *)

Lemma wp_check_loop fuel y x l (Q : bool → mem P → Prop) s :
  fchain (next_free s) y l → (length l < fuel)%nat → (∀ z, z ∈ l → z ≠ 0) →
  Q (bool_decide (x ∈ l)) s → wp (check_loop fuel y x) Q s.
Proof.
  revert y l. induction fuel as [|fuel IH]; intros y l Hc Hf Hnz HQ; [lia|]. cbn [check_loop].
  destruct l as [|w l]; simpl in Hc.
  { subst y. rewrite bool_decide_eq_true_2 by done. wp_seq. rewrite bool_decide_eq_false_2 in HQ; [done|]. apply not_elem_of_nil. }
  destruct Hc as (->&v&Hv&Hc). rewrite (bool_decide_eq_false_2 (w = 0)) by (apply Hnz; by left).
  destruct (decide (w = x)) as [->|Hwx]; [rewrite (bool_decide_eq_true_2 (x = x)) by done|rewrite (bool_decide_eq_false_2 (w = x)) by done].
  - wp_seq. rewrite (bool_decide_eq_true_2 (x ∈ x :: l)) in HQ by (by left). done.
  - wp_seq. unfold read_slot. wp_seq. eapply wp_from_opt; [done|]. eapply IH; [done|simpl in Hf; lia| |].
    + intros z Hz. apply Hnz. by right.
    + rewrite (bool_decide_ext (x ∈ l) (x ∈ w :: l)); [done|]. rewrite elem_of_cons. naive_solver.
Qed.

Lemma wp_check_slot_is_free s V S Av b i x (Q : bool → mem P → Prop) :
  sinv s V S Av → S !! b = Some i → Q (bool_decide (x ∈ si_free i)) s → wp (check_slot_is_free b x) Q s.
Proof.
  intros HI Hb HQ. pose proof (s_slab _ _ _ _ HI _ _ Hb) as Hok. destruct (so_header _ _ _ _ Hok) as (hd&Hh&Hc).
  unfold check_slot_is_free. wp_seq. eapply wp_read_header; [done|]. wp_seq. cbn [header_of free_list_head].
  eapply wp_check_loop; [done| | |done].
  - pose proof (fchain_size _ _ _ Hc (so_nodup _ _ _ _ Hok)). lia.
  - intros z Hz. destruct (slot_page _ _ _ _ _ _ _ HI Hb (so_slots _ _ _ _ Hok z Hz)) as (?&_). lia.
Qed.

(** *** Releasing an object *)

Context (dsm_cxl_free_page : Z → M (mem P) unit) (detect : bool).

(** The view once slab [b] has gone back to the pools. *)
Record unmapped V b V' : Prop := {
  um_live : live V' = delete b (live V);
  um_ref : ref_field V' = ref_field V;
  um_in n : chunk_page b 9 n → slab_field V' !! n = Some 0;
  um_out n : ¬ chunk_page b 9 n → slab_field V' !! n = slab_field V !! n
}.

Lemma wp_free_pages s V a k v (Q : unit → mem P → Prop) :
  pl_inv (phys s) V → live V !! a = Some k → slab_field V !! pfn a = Some v →
  (∀ p, pl_inv p (with_live (delete a (live V)) V) → Q tt (set_phys p s)) →
  wp (free_pages dsm_cxl_free_page a) Q s.
Proof.
  intros Hp Hl Hv HQ. destruct (pl_live _ _ _ _ Hp Hl) as (_&?&_).
  unfold free_pages. wp_seq. apply wp_on_phys.
  eapply wp_mono; [by eapply pl_type_spec; [|lia|]|]. intros ty p [-> ->]. cbv iota.
  apply wp_on_phys. simpl. eapply wp_mono; [by eapply pl_free_spec|]. intros [] p' Hp'. by apply HQ.
Qed.

Lemma sinv_drop s V S b i p V' :
  sinv s V S (minus (avail S) (si_cpu i) (si_ord i) b) → S !! b = Some i → unmapped V b V' → pl_inv p V' →
  sinv (set_phys p s) V' (delete b S) (avail (delete b S)).
Proof.
  intros HI Hb [Hl Hr Hin Hout] Hp. split; [done|..].
  - intros a j [Hne Ha]%lookup_delete_Some. eapply slab_ok_frame; [by eapply (s_slab _ _ _ _ HI)|done..| |].
    + by rewrite Hl, lookup_delete_ne.
    + intros n Hn. apply Hout. intros Hn'. apply Hne. by eapply slab_pages_disj.
  - intros n v Hv Hne. destruct (decide (pfn b ≤ n < pfn b + 2 ^ 9)) as [Hc|Hc].
    { rewrite Hin in Hv by done. congruence. }
    rewrite Hout in Hv by done. destruct (s_plain _ _ _ _ HI n v Hv Hne) as [Hs Hn]. split; [|done].
    rewrite lookup_delete_ne; [done|]. by intros ->.
  - eapply lists_ext; [|apply (s_lists _ _ _ _ HI)]. intros cpu o a _. unfold minus, avail. split.
    + intros [(j&Ha&<-&<-&?) Hno]. exists j. split_and!; try done. rewrite lookup_delete_ne; [done|].
      intros ->. simplify_eq. naive_solver.
    + intros (j&[Hne Ha]%lookup_delete_Some&<-&<-&?). split; [by exists j|]. naive_solver.
Qed.

Lemma pfn_head a k : 0 ≤ k → chunk_page a k (pfn a).
Proof. intros. unfold chunk_page. pose proof (pow2_pos k). lia. Qed.

Lemma wp_try_return s V S b i :
  sinv s V S (avail S) → S !! b = Some i → si_free i ≠ [] →
  wp (try_return_slab_to_buddy dsm_cxl_free_page b (si_ord i)) (λ _ s', ∃ V' S',
    sinv s' V' S' (avail S') ∧ rpf s' = rpf s ∧ locked s' = locked s ∧
    ((Z.of_nat (length (si_free i)) < slot_cnt (si_ord i) ∧ V' = V ∧ S' = S) ∨
     (Z.of_nat (length (si_free i)) = slot_cnt (si_ord i) ∧ S' = delete b S ∧ unmapped V b V'))) s.
Proof.
  intros HI Hb Hne. pose proof (s_slab _ _ _ _ HI _ _ Hb) as Hok. destruct (so_header _ _ _ _ Hok) as (hd&Hh&_).
  pose proof (so_range _ _ _ _ Hok) as Hr. unfold try_return_slab_to_buddy. wp_seq. eapply wp_read_header; [done|].
  wp_seq. apply wp_bug_on; [apply bool_decide_eq_false_2; simpl; destruct Hr; lia|]. simpl.
  pose proof (so_len _ _ _ _ Hok) as Hlen. case_bool_decide as Hfull; simpl.
  2: { wp_seq. exists V, S. split_and!; [done..|]. left. split_and!; [lia|done..]. }
  assert (∃ cur, current_slab s !! (si_cpu i, si_ord i) = Some cur) as [cur Hcur].
  { destruct (s_lists _ _ _ _ HI) as [W HL]. destruct (lv_pool _ _ _ _ HL _ _ Hr) as (c&_&?&_). eauto. }
  wp_seq. eapply wp_get_current; [done|]. wp_seq.
  assert (∀ s', sinv s' V S (minus (avail S) (si_cpu i) (si_ord i) b) → rpf s' = rpf s → locked s' = locked s →
    wp (set_or_clear_slab_in_page b SIZE_OF_ONE_SLAB false;; free_pages dsm_cxl_free_page b)
      (λ _ s', ∃ V' S', sinv s' V' S' (avail S') ∧ rpf s' = rpf s ∧ locked s' = locked s ∧
        ((Z.of_nat (length (si_free i)) < slot_cnt (si_ord i) ∧ V' = V ∧ S' = S) ∨
         (Z.of_nat (length (si_free i)) = slot_cnt (si_ord i) ∧ S' = delete b S ∧ unmapped V b V'))) s') as Hrest.
  { intros s' HI' Erpf Elock. pose proof (so_live _ _ _ _ Hok) as Hl. wp_seq.
    eapply wp_mono; [by apply wp_mark_slab; [apply HI'|]|]. intros [] s2 (p&f&->&Hp&Hin&Hout).
    eapply wp_free_pages; [exact Hp|exact Hl|simpl; by apply Hin, pfn_head|].
    intros p' Hp'. eexists _, (delete b S).
    split; [eapply (sinv_drop s' V S b i p' _ HI' Hb); [|exact Hp']; by split|]. split_and!; [done..|].
    right. split_and!; [lia|done|]. by split. }
  case_bool_decide as Hc.
  - subst cur. eapply wp_choose; [done|done|done|]. intros h cur HI'. by apply Hrest.
  - destruct (lists_del _ _ _ (si_cpu i) (si_ord i) b (s_lists _ _ _ _ HI)) as (h&Hd&Hdom&Hl); [done|by exists i|congruence|].
    eapply wp_node_op; [exact Hd|]. apply Hrest; [|done..].
    assert (set_nodes h s = set_nodes h (set_current_slab (current_slab s) s)) as -> by done. by eapply sinv_lists.
Qed.
(** A change to one slab: its header and its free list. *)
Lemma sinv_update s V S Av b i i' hd nf Av' :
  sinv s V S Av → S !! b = Some i → si_cpu i' = si_cpu i → si_ord i' = si_ord i →
  fchain nf hd (si_free i') → NoDup (si_free i') → Z.of_nat (length (si_free i')) ≤ slot_cnt (si_ord i) →
  (∀ x, x ∈ si_free i' → slot_of b (si_ord i) x) →
  (∀ x, ¬ slot_of b (si_ord i) x → nf !! x = next_free s !! x) →
  (∀ cpu o a, in_range cpu o → Av cpu o a ↔ Av' cpu o a) →
  sinv (set_headers (<[b := header_of hd i']> (headers s)) (set_next_free nf s)) V (<[b := i']> S) Av'.
Proof.
  intros HI Hb Ec Eo Hc Hnd Hlen Hsl Hnf Hav. pose proof (s_slab _ _ _ _ HI _ _ Hb) as Hok. split; simpl; [apply HI|..].
  - intros a j. destruct (decide (a = b)) as [->|Hne].
    + rewrite lookup_insert_eq. intros [= <-]. destruct Hok as [? ? _ _ _ _ ? ?]. split; simpl; try done.
      * by rewrite Ec, Eo.
      * exists hd. by rewrite lookup_insert_eq.
      * by rewrite Eo.
      * by rewrite Eo.
    + rewrite lookup_insert_ne by done. intros Ha. pose proof (s_slab _ _ _ _ HI _ _ Ha) as Hoka.
      eapply slab_ok_frame; [done|simpl; by rewrite lookup_insert_ne| |done..].
      intros x Hx. simpl. apply Hnf. intros Hx'. apply Hne.
      by eapply (slot_other _ _ _ _ a j b i x HI Ha Hb); [apply Hoka|].
  - intros n v Hv Hne. destruct (s_plain _ _ _ _ HI n v Hv Hne) as [Hs ?]. split; [|done].
    destruct (decide (v = b)) as [->|]; [rewrite lookup_insert_eq; by eexists|by rewrite lookup_insert_ne].
  - eapply lists_ext; [exact Hav|apply HI].
Qed.

Lemma avail_update S b i i' cpu o a :
  S !! b = Some i → si_cpu i' = si_cpu i → si_ord i' = si_ord i → si_free i' ≠ [] →
  plus (avail S) (si_cpu i) (si_ord i) b cpu o a ↔ avail (<[b := i']> S) cpu o a.
Proof.
  intros Hb Ec Eo Hne. unfold plus, avail. destruct (decide (a = b)) as [->|Hab].
  - rewrite lookup_insert_eq. split; [|intros (j&[= <-]&<-&<-&_); right; by rewrite Ec, Eo].
    intros [(j&?&<-&<-&_)|(->&->&_)]; exists i'; split_and!; congruence.
  - rewrite lookup_insert_ne by done. naive_solver.
Qed.

(** Giving back an object [x] of slab [b] that is in use. *)
Lemma wp_free_in_dram_slab s V S b i x :
  sinv s V S (avail S) → used S → S !! b = Some i → slot_of b (si_ord i) x → x ∉ si_free i →
  (si_cpu i, si_ord i) ∉ locked s →
  wp (free_in_dram_slab dsm_cxl_free_page detect x) (λ _ s', ∃ V' S', let i' := set_free (x :: si_free i) i in
    sinv s' V' S' (avail S') ∧ rpf s' = rpf s ∧ locked s' = locked s ∧
    ((Z.of_nat (length (si_free i')) < slot_cnt (si_ord i) ∧ V' = V ∧ S' = <[b := i']> S) ∨
     (Z.of_nat (length (si_free i')) = slot_cnt (si_ord i) ∧ S' = delete b S ∧ unmapped V b V'))) s.
Proof.
  intros HI Hu Hb Hx Hxf Hlk. pose proof (s_slab _ _ _ _ HI _ _ Hb) as Hok. pose proof (so_range _ _ _ _ Hok) as Hr.
  destruct (slot_page _ _ _ _ _ _ _ HI Hb Hx) as (Hx0&Hxp&_). destruct (so_header _ _ _ _ Hok) as (hd&Hh&Hc).
  unfold free_in_dram_slab. wp_seq. apply wp_on_phys.
  eapply wp_mono; [eapply pl_slab_spec; [apply HI|lia|by apply (so_pages _ _ _ _ Hok)]|]. intros r p [-> ->].
  replace (set_phys (phys s) s) with s by (by destruct s). wp_seq. eapply wp_read_header; [done|]. wp_seq. simpl.
  apply wp_bug_on; [apply bool_decide_eq_false_2; destruct Hr; lia|]. wp_seq. apply wp_lock_slab; [done|].
  set (s1 := set_locked ({[(si_cpu i, si_ord i)]} ∪ locked s) s).
  assert (sinv s1 V S (avail S)) as HI1 by (destruct HI as [? Hs ? ?]; split; try done; intros a j Ha; by destruct (Hs a j Ha)).
  wp_seq. eapply wp_try_insert; [exact HI1|done|]. intros h HI2. wp_seq.
  assert (∀ Q : unit → mem P → Prop, Q tt (set_nodes h s1) →
    wp (if detect then dbl ← check_slot_is_free b x; bug_on dbl else mret tt) Q (set_nodes h s1)) as Hdet.
  { intros Q HQ. destruct detect; [|done]. wp_seq. eapply wp_check_slot_is_free; [done|done|]. by rewrite bool_decide_eq_false_2. }
  apply Hdet. wp_seq. destruct (so_header _ _ _ _ (s_slab _ _ _ _ HI2 _ _ Hb)) as (hd'&Hh'&_).
  
  assert (hd' = hd) as -> by (change (headers s !! b = Some (header_of hd' i)) in Hh'; rewrite Hh in Hh'; by injection Hh').
  eapply wp_read_header; [done|]. wp_seq. unfold write_slot. wp_seq.
  eapply wp_upd_header; [exact Hh'|]. wp_seq. eapply wp_upd_header; [simpl; apply lookup_insert_eq|]. wp_seq. simpl.
  rewrite insert_insert_eq. pose proof (Hu _ _ Hb) as Hlen. destruct (slab_geometry _ (proj2 Hr)) as (_&?&_).
  set (i' := set_free (x :: si_free i) i).
  assert (set_current_free_cnt (Z.of_nat (length (si_free i)) + 1) (set_free_list_head x (header_of hd i)) = header_of x i') as ->.
  { unfold set_current_free_cnt, header_of. simpl. rewrite wrap_u16_small by lia. f_equal. lia. }
  eapply wp_mono.
  { eapply (wp_try_return _ V (<[b := i']> S) b i'); [|apply lookup_insert_eq|done].
    apply (sinv_update (set_nodes h s1) V S (plus (avail S) (si_cpu i) (si_ord i) b) b i i' x (<[x := hd]> (next_free s)));
      try done; simpl.
    - split; [done|]. exists hd. rewrite lookup_insert_eq. split; [done|]. eapply fchain_frame; [|done].
      intros y Hy. rewrite lookup_insert_ne; [done|]. by intros ->.
    - apply NoDup_cons. split; [done|apply Hok].
    - lia.
    - intros y [->|Hy]%elem_of_cons; [done|by apply Hok].
    - intros y Hy. rewrite lookup_insert_ne; [done|]. by intros ->.
    - intros cpu o a _. by apply avail_update. }
  intros [] s3 (V'&S'&HI'&Er&El&Hres). wp_seq. exists V', S'. simpl in Er, El. rewrite El. split_and!; [|done|by apply unlock_lock|].
  - destruct HI' as [? Hs ? ?]; split; try done. intros a j Ha. by destruct (Hs a j Ha).
  - destruct Hres as [?|(?&->&?)]; [by left|right]. split_and!; [done| |done]. by rewrite delete_insert_eq.
Qed.
End ops.
