(* ===== verification/KmallocProofs.v ===== *)
(** Page and object allocation together: [kfree], the pages taken back from other machines,
    [get_dram_pages], and the allocation of objects. *)
From S2P Require Import Prelude Words ListHead Buddy PageLayer RemoteFree RemoteFreeProofs Slab SlabProofs.

Section kmalloc.
Context {P : Type} `{PageLayerSpec P}.
Context (dsm_cxl_free_page free_in_cxl_slab free_in_temp_slab : Z → M (mem P) unit) (detect : bool).
Context (c : rpf_config) (mid : Z).
Implicit Types (s : mem P) (V : pages_view) (S : slabs) (i : sinfo) (a b x : Z) (r : cluster).

Abbreviation kfree := (kfree dsm_cxl_free_page free_in_cxl_slab free_in_temp_slab detect).
Abbreviation kfree_all := (kfree_all dsm_cxl_free_page free_in_cxl_slab free_in_temp_slab detect).
Abbreviation with_kfree := (with_kfree dsm_cxl_free_page free_in_cxl_slab free_in_temp_slab detect).
Abbreviation get_dram_pages := (get_dram_pages dsm_cxl_free_page free_in_cxl_slab free_in_temp_slab detect c mid).

(** ** Invariant *)

(** The pages of this machine that other machines have given back and that have not arrived. *)
Definition home_pages r : list Z := filter (λ pa, get_paddr_machine_id c pa = mid) (flight (batches r)).
Definition home_addrs r : list Z := phys_to_virt <$> home_pages r.

(** A page on its way: a chunk of one page with one reference. *)
Definition is_home V x : Prop :=
  live V !! x = Some 0 ∧ slab_field V !! pfn x = Some 0 ∧ ref_field V !! pfn x = Some 1.

Record cinv r V : Prop := {
  c_good : good c r;
  c_mid : is_Some (locals r !! mid);
  c_nodup : NoDup (home_addrs r);
  c_home x : x ∈ home_addrs r → is_home V x
}.

Definition minv_with s V S Av : Prop := sinv s V S Av ∧ cinv (rpf s) V.
(** No slab lock is held. *)
Definition unlocked s : Prop := ∀ cpu o, in_range cpu o → (cpu, o) ∉ locked s.

Definition minv s V S : Prop := minv_with s V S (avail S) ∧ used S.

Lemma sinv_view s V S Av p V' :
  sinv s V S Av → pl_inv p V' → slab_field V' = slab_field V →
  (∀ a i, S !! a = Some i → live V' !! a = live V !! a) → sinv (set_phys p s) V' S Av.
Proof.
  intros [Hp Hs Hpl Hl] Hp' Ef El. split; try done.
  - intros a i Ha. eapply slab_ok_frame; [by apply Hs|done..|by eapply El|]. intros n _. by rewrite Ef.
  - intros n v. rewrite Ef. apply Hpl.
Qed.

Lemma sinv_rpf s V S Av r : sinv s V S Av → sinv (set_rpf r s) V S Av.
Proof. intros [? Hs ? ?]. split; try done. intros a i Ha. by destruct (Hs a i Ha). Qed.

Lemma sinv_locked s V S Av L : sinv s V S Av → sinv (set_locked L s) V S Av.
Proof. intros [? Hs ? ?]. split; try done. intros a i Ha. by destruct (Hs a i Ha). Qed.

(** The address of a chunk is that of its first page. *)
Lemma live_addr (p : P) V a k : pl_inv p V → live V !! a = Some k → 0 < a < 2 ^ 64 ∧ a = pfn a * BUDDY_PAGE_SIZE.
Proof.
  intros Hp Hl. destruct (pl_live _ _ _ _ Hp Hl) as (?&?&[z Hz]&?). pose proof (pow2_pos (k + 12) ltac:(lia)).
  split; [lia|]. rewrite Z.pow_add_r in Hz by lia. unfold pfn, BUDDY_PAGE_SIZE. change (2 ^ 12) with 4096 in Hz.
  replace a with (z * 2 ^ k * 4096) by lia. by rewrite Z.div_mul.
Qed.

Lemma live_pfn_inj (p : P) V a k b m :
  pl_inv p V → live V !! a = Some k → live V !! b = Some m → pfn a = pfn b → a = b.
Proof.
  intros Hp Ha Hb E. destruct (live_addr _ _ _ _ Hp Ha) as [_ ->]. destruct (live_addr _ _ _ _ Hp Hb) as [_ ->].
  by rewrite E.
Qed.

Lemma slab_not_plain s V S Av a i : sinv s V S Av → S !! a = Some i → slab_field V !! pfn a ≠ Some 0.
Proof.
  intros HI Ha. pose proof (s_slab _ _ _ _ HI _ _ Ha) as Hok. rewrite (so_pages _ _ _ _ Hok) by (by apply pfn_head).
  destruct (pl_live _ _ _ _ (s_phys _ _ _ _ HI) (so_live _ _ _ _ Hok)) as (_&?&_). intros [= ->]. lia.
Qed.

(** ** kfree *)

Lemma zero_size_ptr_page (p : P) V a k : pl_inv p V → live V !! a = Some k → a ≠ ZERO_SIZE_PTR.
Proof.
  intros Hp Hl E. destruct (live_addr _ _ _ _ Hp Hl) as [_ Ha]. unfold BUDDY_PAGE_SIZE in Ha.
  change ZERO_SIZE_PTR with (2 ^ 64 - 1) in E. lia.
Qed.

(** A chunk of pages: the last reference frees it. *)
Lemma wp_kfree_pages s V x k n :
  pl_inv (phys s) V → live V !! x = Some k → slab_field V !! pfn x = Some 0 →
  ref_field V !! pfn x = Some n → - 2 ^ 31 ≤ n - 1 < 2 ^ 31 - 1 →
  wp (kfree x) (λ _ s', ∃ p, s' = set_phys p s ∧
    pl_inv p (with_ref (<[pfn x := n - 1]> (ref_field V))
                (with_live (if bool_decide (n = 1) then delete x (live V) else live V) V))) s.
Proof.
  intros Hp Hl Hs Hr Hn. destruct (live_addr _ _ _ _ Hp Hl) as [? _]. unfold Slab.kfree.
  rewrite bool_decide_eq_false_2 by (by eapply zero_size_ptr_page). wp_seq. apply wp_on_phys.
  eapply wp_mono; [eapply pl_slab_spec; [done|lia|done]|]. intros ? ? [-> ->]. rewrite bool_decide_eq_true_2 by done. cbn [negb].
  replace (set_phys (phys s) s) with s by (by destruct s). wp_seq. apply wp_on_phys.
  eapply wp_mono; [eapply pl_ref_sub_spec; [done|lia|done]|]. intros ? p [-> Hp1]. rewrite (to_s32_small (n - 1)) in Hp1 by lia.
  rewrite to_s32_small by lia. case_bool_decide as Hone; cbn [when]; [|wp_seq; eexists; split; [done|by destruct V]].
  wp_seq. apply wp_on_phys. simpl.
  eapply wp_mono; [eapply pl_type_spec; [done|lia|done]|]. intros ? ? [-> ->]. cbv iota. apply wp_on_phys. simpl.
  eapply wp_mono; [by eapply pl_free_spec|]. intros [] p' Hp'. by exists p'.
Qed.

(** Freeing the pages that have come home. *)
Record returned V (xs : list Z) V' : Prop := {
  rt_slab : slab_field V' = slab_field V;
  rt_extents : extents V' = extents V;
  rt_live a k : live V' !! a = Some k ↔ live V !! a = Some k ∧ a ∉ xs;
  rt_ref a k : live V' !! a = Some k → ref_field V' !! pfn a = ref_field V !! pfn a
}.

Lemma wp_kfree_all l s V :
  pl_inv (phys s) V → NoDup ((λ e : Z * Z, phys_to_virt e.2) <$> l) →
  (∀ x, x ∈ (λ e : Z * Z, phys_to_virt e.2) <$> l → is_home V x) →
  wp (kfree_all l) (λ _ s', ∃ p V', s' = set_phys p s ∧ pl_inv p V' ∧
    returned V ((λ e : Z * Z, phys_to_virt e.2) <$> l) V') s.
Proof.
  revert s V. induction l as [|[k0 pa] l IH]; intros s V Hp Hnd Hh; cbn [Slab.kfree_all].
  { wp_seq. exists (phys s), V. split_and!; [by destruct s|done|]. split; [done|done| |done].
    intros a k. split; [intros ?; split; [done|apply not_elem_of_nil]|by intros [? _]]. }
  rewrite fmap_cons in Hnd, Hh. cbn [snd] in *. apply NoDup_cons in Hnd as [Hx Hnd]. set (x := phys_to_virt pa) in *.
  destruct (Hh x ltac:(by left)) as (Hl&Hs&Hr). wp_seq.
  eapply wp_mono; [eapply wp_kfree_pages; [done..|lia]|]. intros [] s1 (p&->&Hp1). cbn [bool_decide] in Hp1.
  rewrite bool_decide_eq_true_2 in Hp1 by done. set (V1 := with_ref _ _) in Hp1.
  assert (∀ y m, y ≠ x → live V !! y = Some m → pfn y ≠ pfn x) as Hpf.
  { intros y m Hne Hy E. apply Hne. by apply (live_pfn_inj _ V y m x 0 Hp). }
  eapply wp_mono; [apply (IH (set_phys p s) V1 Hp1 Hnd)|].
  - intros y Hy. assert (y ≠ x) as Hne by congruence. destruct (Hh y ltac:(by right)) as (H1&H2&H3). split_and!; simpl.
    + by rewrite lookup_delete_ne.
    + done.
    + rewrite lookup_insert_ne; [done|]. apply not_eq_sym. by eapply Hpf.
  - intros [] s2 (p2&V2&->&Hp2&[E1 E0 E2 E3]). exists p2, V2. split_and!; [done|done|]. split.
    + by rewrite E1.
    + by rewrite E0.
    + intros a k. rewrite E2. simpl. rewrite lookup_delete_Some, not_elem_of_cons. fold x. naive_solver.
    + intros a k Ha. rewrite (E3 a k Ha). simpl. apply E2 in Ha as [Ha _]. simpl in Ha.
      apply lookup_delete_Some in Ha as [Hne Ha]. rewrite lookup_insert_ne; [done|]. apply not_eq_sym. by eapply Hpf.
Qed.
(** ** Taking pages back *)

(** From [s] to [s'] some of the pages on their way were freed. *)
Record taken s V s' V' : Prop := {
  tk_state : s' = set_rpf (rpf s') (set_phys (phys s') s);
  tk_slab : slab_field V' = slab_field V;
  tk_extents : extents V' = extents V;
  tk_live a k : live V' !! a = Some k → live V !! a = Some k;
  tk_keep a k : live V !! a = Some k → a ∉ home_addrs (rpf s) → live V' !! a = Some k;
  tk_home x : x ∈ home_addrs (rpf s') → x ∈ home_addrs (rpf s);
  tk_ref a k : live V' !! a = Some k → ref_field V' !! pfn a = ref_field V !! pfn a
}.

Lemma taken_trans s1 V1 s2 V2 s3 V3 : taken s1 V1 s2 V2 → taken s2 V2 s3 V3 → taken s1 V1 s3 V3.
Proof.
  intros [A1 A2 A0 A3 A4 A5 A6] [B1 B2 B0 B3 B4 B5 B6]. split; [|congruence|congruence|auto|auto|auto|].
  - rewrite B1, A1 at 1. done.
  - intros a k Ha. rewrite (B6 a k Ha). by eapply A6, B3.
Qed.

(** The pages that were given to [kfree] are the ones missing from the way. *)
Lemma home_split r r' ps :
  total r' ≡ₚ total r → leaked r' = leaked r → kfreed r' = ps ++ kfreed r →
  (∀ k pa, (k, pa) ∈ ps → k = mid ∧ get_paddr_machine_id c pa = mid) →
  home_addrs r ≡ₚ ((λ e : Z * Z, phys_to_virt e.2) <$> ps) ++ home_addrs r'.
Proof.
  unfold total. intros Ht Hl Hk Hps. rewrite Hk, Hl, fmap_app in Ht.
  assert (flight (batches r) ≡ₚ ps.*2 ++ flight (batches r')) as Hf.
  { symmetry. apply (Permutation_app_inv_r ((kfreed r).*2 ++ leaked r)). rewrite <-Ht.
    rewrite (Permutation_app_comm ps.*2 (flight _)), <-!(assoc (++)). done. }
  unfold home_addrs, home_pages. rewrite Hf, filter_app, fmap_app.
  assert (filter (λ pa, get_paddr_machine_id c pa = mid) ps.*2 = ps.*2) as ->; [|by rewrite <-list_fmap_compose].
  clear - Hps. induction ps as [|[k pa] ps IH]; [done|]. simpl.
  rewrite filter_cons_True by (by eapply (Hps k); left). f_equal. apply IH. intros. apply Hps. by right.
Qed.

Lemma wp_with_kfree {A} (m : M cluster A) s V S :
  minv s V S →
  wp m (λ _ r', good c r' ∧ total r' ≡ₚ total (rpf s) ∧ leaked r' = leaked (rpf s) ∧
    is_Some (locals r' !! mid) ∧ gave c mid (rpf s) r') (rpf s) →
  wp (with_kfree m) (λ _ s', ∃ V', minv s' V' S ∧ taken s V s' V') s.
Proof.
  intros [[HI [Hg Hm Hnd Hh]] Hu] Hwp. unfold Slab.with_kfree. wp_seq. apply wp_on_rpf. eapply wp_mono; [exact Hwp|].
  intros v r' (Hg'&Ht&Hlk&Hm'&ps&Hk&Hps). wp_seq. simpl.
  assert (take (length (kfreed r') - length (kfreed (rpf s))) (kfreed r') = ps) as ->.
  { rewrite Hk, length_app, Nat.add_sub. by rewrite take_app_length. }
  pose proof (home_split _ _ _ Ht Hlk Hk Hps) as Hsplit. set (xs := (λ e : Z * Z, phys_to_virt e.2) <$> ps) in *.
  assert ((λ e : Z * Z, phys_to_virt e.2) <$> rev ps ≡ₚ xs) as Hrev.
  { unfold xs. apply fmap_Permutation. symmetry. apply Permutation_rev. }
  rewrite Hsplit in Hnd. apply NoDup_app in Hnd as (Hnx&Hdis&Hn').
  eapply wp_mono; [apply (wp_kfree_all (rev ps) _ V)|].
  - apply HI.
  - by rewrite Hrev.
  - intros x. rewrite Hrev. intros Hx. apply Hh. rewrite Hsplit. apply elem_of_app. by left.
  - intros [] s2 (p&V'&->&Hp&[E1 E0 E2 E3]). setoid_rewrite Hrev in E2. wp_seq. exists V'.
    assert (∀ x, x ∈ xs ↔ x ∈ home_addrs (rpf s) ∧ x ∉ home_addrs r') as Hxs.
    { intros x. rewrite Hsplit, elem_of_app. naive_solver. }
    split.
    + split; [|done]. split.
      * apply (sinv_view (set_rpf r' s) V); [by apply sinv_rpf|done|done|]. intros a i Ha.
        destruct (so_live _ _ _ _ (s_slab _ _ _ _ HI _ _ Ha)). apply option_eq. intros k. rewrite E2. split; [by intros [? _]|].
        intros Hl. split; [done|]. intros [Hx _]%Hxs. destruct (Hh a Hx) as (_&Hs&_). by eapply slab_not_plain.
      * split; simpl; try done. intros x Hx. destruct (Hh x) as (H1&H2&H3); [rewrite Hsplit; apply elem_of_app; by right|].
        assert (live V' !! x = Some 0) as Hx' by (apply E2; split; [done|]; intros [_ ?]%Hxs; done).
        split_and!; [done|by rewrite E1|by rewrite (E3 x 0)].
    + split; simpl; try done.
      * intros a k [? _]%E2. done.
      * intros a k Ha Hn. apply E2. split; [done|]. intros [? _]%Hxs. done.
      * intros x Hx. rewrite Hsplit. apply elem_of_app. by right.
Qed.

Lemma wp_poll s V S : minv s V S →
  wp (with_kfree (remote_page_free_poll c mid)) (λ _ s', ∃ V', minv s' V' S ∧ taken s V s' V') s.
Proof. intros Hm. pose proof Hm as [[_ [Hg Hl _ _]] _]. apply wp_with_kfree; [done|]. by apply good_poll. Qed.

Lemma wp_drain_home s V S : minv s V S →
  wp (with_kfree (drain_remote_page_free c mid)) (λ _ s', ∃ V', minv s' V' S ∧ taken s V s' V') s.
Proof. intros Hm. pose proof Hm as [[_ [Hg Hl _ _]] _]. apply wp_with_kfree; [done|]. by apply good_drain. Qed.

(** ** Page allocation *)

(** No memory: at the last attempt the same pools, with no chunk handed out but chunks of [V], had no free
    chunk of this order or more. *)
Definition no_chunk V (ord : Z) : Prop :=
  ∃ (p : P) V0, pl_inv p V0 ∧ pl_exhausted p ord ∧ slab_field V0 = slab_field V ∧ extents V0 = extents V ∧
    ∀ a k, live V0 !! a = Some k → live V !! a = Some k.

Definition new_chunk V a ord : pages_view :=
  with_ref (<[pfn a := 1]> (ref_field V)) (with_live (<[a := ord]> (live V)) V).

(** The pages of a new chunk belong to no slab. *)
Lemma new_chunk_plain s V S Av p a ord n :
  sinv s V S Av → live V !! a = None → pl_inv p (new_chunk V a ord) → chunk_page a ord n → slab_field V !! n = Some 0.
Proof.
  intros HI Hn Hp Hc. assert (live (new_chunk V a ord) !! a = Some ord) as Ha by apply lookup_insert_eq.
  destruct (pl_fields _ _ _ _ n Hp Ha Hc) as [[v Hv] _]. simpl in Hv. destruct (decide (v = 0)) as [->|Hne]; [done|].
  destruct (s_plain _ _ _ _ HI n v Hv Hne) as [[i Hi] Hcv]. pose proof (so_live _ _ _ _ (s_slab _ _ _ _ HI _ _ Hi)) as Hl.
  assert (v ≠ a) as Hva by congruence.
  assert (live (new_chunk V a ord) !! v = Some 9) as Hv' by (simpl; by rewrite lookup_insert_ne).
  destruct Hva. destruct (live_addr _ _ _ _ Hp Ha) as [_ Ea]. destruct (live_addr _ _ _ _ Hp Hv') as [_ Ev].
  destruct (pl_live _ _ _ _ Hp Ha) as (?&_). eapply (pl_disj _ _ _ _ _ _ Hp Hv' Ha); rewrite Ev, Ea;
    rewrite Z.pow_add_r by lia; change (2 ^ 12) with BUDDY_PAGE_SIZE; unfold chunk_page, BUDDY_PAGE_SIZE in *; lia.
Qed.

Lemma minv_new_chunk s V S p a ord :
  minv s V S → live V !! a = None → pl_inv p (new_chunk V a ord) → minv (set_phys p s) (new_chunk V a ord) S.
Proof.
  intros [[HI [Hg Hm Hnd Hh]] Hu] Hn Hp. split; [|done]. split.
  - eapply sinv_view; [done|done|done|]. intros b i Hb. simpl. rewrite lookup_insert_ne; [done|]. intros <-.
    pose proof (so_live _ _ _ _ (s_slab _ _ _ _ HI _ _ Hb)). congruence.
  - split; simpl; try done. intros x Hx. destruct (Hh x Hx) as (H1&H2&H3).
    assert (x ≠ a) as Hne by congruence.
    assert (live (new_chunk V a ord) !! x = Some 0) as Hx' by (simpl; by rewrite lookup_insert_ne).
    split_and!; [done|done|]. simpl. rewrite lookup_insert_ne; [done|]. intros E. apply Hne.
    eapply (live_pfn_inj p _ x 0 a ord Hp Hx'); [apply lookup_insert_eq|done].
Qed.

(** The result of an attempt to get pages; [V1] is the view when the pools were asked. *)
Definition got_pages s V S (ord a : Z) s' : Prop :=
  ∃ V1, (a = 0 ∧ minv s' V1 S ∧ taken s V s' V1 ∧ no_chunk V ord) ∨
    (a ≠ 0 ∧ live V1 !! a = None ∧ minv s' (new_chunk V1 a ord) S ∧
     ∃ s1, minv s1 V1 S ∧ taken s V s1 V1 ∧ s' = set_phys (phys s') s1).

Lemma wp_get_from_pools s0 V0 S s V ord :
  minv s V S → taken s0 V0 s V → 0 ≤ ord < BUDDY_MAX_ORDER →
  wp (on_phys (get_from_pools ord)) (got_pages s0 V0 S ord) s.
Proof.
  intros Hm Ht Hord. pose proof Hm as [[HI _] _]. apply wp_on_phys. eapply wp_mono; [by eapply pl_get_spec; [apply HI|]|].
  intros a p [(->&Hp&Hex)|(Ha&Hn&Hp)]; exists V; [left|right].
  - split_and!; [done| | |].
    + destruct Hm as [[HI' HC] Hu]. split; [|done]. split; [by eapply sinv_view|done].
    + destruct Ht as [E1 E2 E0 E3 E4 E5 E6]. split; try done. rewrite E1 at 1. done.
    + exists p, V. split_and!; [done|done|apply Ht..].
  - split_and!; [done|done|by apply minv_new_chunk|]. by exists s.
Qed.

Lemma wp_get_dram_pages s V S ord :
  minv s V S → 0 ≤ ord < BUDDY_MAX_ORDER → wp (get_dram_pages ord) (got_pages s V S ord) s.
Proof.
  intros Hm Hord. unfold Slab.get_dram_pages. wp_seq. eapply wp_mono; [by eapply wp_poll|].
  intros [] s1 (V1&Hm1&Ht1). wp_seq. eapply wp_mono; [by eapply wp_get_from_pools|].
  intros a s2 (V2&[(->&Hm2&Ht2&Hno)|(Ha&HR)]).
  - rewrite bool_decide_eq_true_2 by done. cbn [negb]. wp_seq. eapply wp_mono; [by eapply wp_drain_home|].
    intros more s3 (V3&Hm3&Ht3). pose proof (taken_trans _ _ _ _ _ _ Ht2 Ht3) as Ht. destruct more.
    + by eapply wp_get_from_pools.
    + wp_seq. exists V3. by left.
  - rewrite bool_decide_eq_false_2 by done. wp_seq. exists V2. by right.
Qed.
(** ** A new slab *)

(** The objects of a new slab. *)
Fixpoint slot_list (n : nat) (x sz : Z) : list Z :=
  match n with O => [x] | Datatypes.S n' => x :: slot_list n' (x + sz) sz end.

Lemma elem_of_slot_list n x sz y : y ∈ slot_list n x sz ↔ ∃ j, 0 ≤ j ≤ Z.of_nat n ∧ y = x + j * sz.
Proof.
  revert x. induction n as [|n IH]; intros x; simpl.
  - rewrite list_elem_of_singleton. split; [intros ->; exists 0; lia|]. intros (j&?&->). assert (j = 0) as -> by lia. lia.
  - rewrite elem_of_cons, IH. split.
    + intros [->|(j&?&->)]; [exists 0; lia|exists (j + 1); lia].
    + intros (j&?&->). destruct (decide (j = 0)) as [->|]; [left; lia|right; exists (j - 1); lia].
Qed.

Lemma slot_list_nodup n x sz : 0 < sz → NoDup (slot_list n x sz).
Proof.
  intros Hsz. revert x. induction n as [|n IH]; intros x; simpl; [apply NoDup_singleton|]. apply NoDup_cons. split; [|apply IH].
  intros (j&?&?)%elem_of_slot_list. assert (0 < (j + 1) * sz) by (apply Z.mul_pos_pos; lia). lia.
Qed.

Lemma slot_list_length n x sz : length (slot_list n x sz) = Datatypes.S n.
Proof. revert x. induction n as [|n IH]; intros x; simpl; [done|]. by rewrite IH. Qed.

Lemma wp_link_slots n x sz s :
  0 ≤ x → 0 < sz → x + Z.of_nat n * sz < 2 ^ 64 →
  wp (link_slots n x sz) (λ _ s', ∃ nf, s' = set_next_free nf s ∧ fchain nf x (slot_list n x sz) ∧
    ∀ y, y ∉ slot_list n x sz → nf !! y = next_free s !! y) s.
Proof.
  revert x s. induction n as [|n IH]; intros x s Hx Hsz Htop; cbn [link_slots slot_list]; unfold write_slot; wp_seq.
  - eexists. split; [done|]. split.
    + simpl. split; [done|]. exists 0. by rewrite lookup_insert_eq.
    + intros y Hy. rewrite lookup_insert_ne; [done|]. intros <-. apply Hy. by left.
  - assert (0 ≤ Z.of_nat n * sz) by (apply Z.mul_nonneg_nonneg; lia).
    rewrite wrap_u64_small by lia. eapply wp_mono; [apply IH; lia|]. intros [] s' (nf&->&Hc&Hf). simpl in Hf.
    exists nf. split; [done|]. split.
    + simpl. split; [done|]. exists (x + sz). split; [|done]. rewrite Hf; [apply lookup_insert_eq|].
      pose proof (slot_list_nodup (Datatypes.S n) x sz Hsz) as Hnd. simpl in Hnd. by apply NoDup_cons in Hnd as [? _].
    + intros y Hy. apply not_elem_of_cons in Hy as [Hne Hy]. rewrite Hf by done. by rewrite lookup_insert_ne.
Qed.

Definition all_slots a o : list Z := slot_list (Z.to_nat (slot_cnt o - 1)) (slot_addr a o 0) (obj_size o).

Lemma elem_of_all_slots a o x : in_orders o → x ∈ all_slots a o ↔ slot_of a o x.
Proof.
  intros Ho. destruct (slab_geometry o Ho) as (?&?&_). unfold all_slots, slot_of, slot_addr. rewrite elem_of_slot_list.
  rewrite Z2Nat.id by lia. split; intros (j&?&->); exists j; split; lia.
Qed.

Lemma all_slots_length a o : in_orders o → Z.of_nat (length (all_slots a o)) = slot_cnt o.
Proof. intros Ho. destruct (slab_geometry o Ho) as (?&?&_). unfold all_slots. rewrite slot_list_length. lia. Qed.

(** A slab in a chunk that belonged to no slab; it is on no list yet. *)
Lemma sinv_new s V S p V' a i hd nf h :
  sinv s V S (avail S) → live V !! a = None → pl_inv p V' → live V' !! a = Some 9 →
  (∀ b j, S !! b = Some j → live V' !! b = live V !! b) →
  (∀ n, chunk_page a 9 n → slab_field V !! n = Some 0 ∧ slab_field V' !! n = Some a) →
  (∀ n, ¬ chunk_page a 9 n → slab_field V' !! n = slab_field V !! n) →
  in_range (si_cpu i) (si_ord i) → si_free i = all_slots a (si_ord i) →
  fchain nf hd (si_free i) → (∀ x, x ∉ si_free i → nf !! x = next_free s !! x) →
  is_Some (h !! SlabNode a) → (∀ n, n ≠ SlabNode a → h !! n = nodes s !! n) →
  sinv (set_headers (<[a := header_of hd i]> (headers s)) (set_next_free nf (set_nodes h (set_phys p s)))) V' (<[a := i]> S) (avail S).
Proof.
  intros HI Hn Hp Hl Hlive Hin Hout Hr Hfree Hc Hnf Hh Hho. pose proof (proj2 Hr) as Ho.
  assert (S !! a = None) as Ha.
  { destruct (S !! a) as [j|] eqn:E; [|done]. pose proof (so_live _ _ _ _ (s_slab _ _ _ _ HI _ _ E)). congruence. }
  assert (∀ b j n, S !! b = Some j → chunk_page b 9 n → ¬ chunk_page a 9 n) as Hdis.
  { intros b j n Hb Hcb Hca. destruct (Hin n Hca) as [H1 _]. pose proof (s_slab _ _ _ _ HI _ _ Hb) as Hok.
    rewrite (so_pages _ _ _ _ Hok n Hcb) in H1. destruct (pl_live _ _ _ _ (s_phys _ _ _ _ HI) (so_live _ _ _ _ Hok)) as (_&?&_). injection H1 as ->. lia. }
  destruct (pl_live _ _ _ _ Hp Hl) as (_&Ha0&Hal&_). split; [done|..].
  - intros b j. destruct (decide (b = a)) as [->|Hne].
    + rewrite lookup_insert_eq. intros [= <-]. destruct (slab_geometry _ Ho) as (_&_&_&?). split; simpl; try done.
      * exists hd. by rewrite lookup_insert_eq.
      * rewrite Hfree. apply slot_list_nodup. lia.
      * by rewrite Hfree, all_slots_length.
      * intros x. by rewrite Hfree, elem_of_all_slots.
      * intros n Hcn. by apply Hin.
    + rewrite lookup_insert_ne by done. intros Hb. pose proof (s_slab _ _ _ _ HI _ _ Hb) as Hok.
      eapply slab_ok_frame; [done|simpl; by rewrite lookup_insert_ne|..|by eapply Hlive|].
      * intros x Hx. apply Hnf. rewrite Hfree, elem_of_all_slots by done. intros Hs.
        destruct (slot_page _ _ _ _ _ _ _ HI Hb (so_slots _ _ _ _ Hok x Hx)) as (_&Hcb&_).
        eapply Hdis; [done|done|]. by eapply slot_chunk_page.
      * simpl. rewrite Hho by congruence. done.
      * intros n Hcn. apply Hout. by eapply Hdis.
  - intros n v Hv Hne. destruct (decide (pfn a ≤ n < pfn a + 2 ^ 9)) as [Hca|Hca].
    + destruct (Hin n Hca) as [_ E]. assert (v = a) as -> by congruence. rewrite lookup_insert_eq. split; [by eexists|done].
    + rewrite Hout in Hv by done. destruct (s_plain _ _ _ _ HI n v Hv Hne) as [[j Hj] ?]. split; [|done].
      destruct (decide (v = a)) as [->|]; [rewrite lookup_insert_eq; by eexists|rewrite lookup_insert_ne by done; by eexists].
  - simpl. destruct (s_lists _ _ _ _ HI) as [W HL]. exists W. pose proof HL as [HR HW Ho']. split; [|done|done].
    eapply rep_frame; [done|]. intros x Hx. apply Hho. intros ->. eapply not_on_list; [done| |done].
    intros cpu o _ (j&?&_). congruence.
Qed.
Lemma order_to_size_pow o : 0 ≤ o < 64 → order_to_size o = 2 ^ o.
Proof.
  intros Ho. unfold order_to_size. rewrite Z.shiftl_1_l. apply wrap_u64_small.
  split; [apply Z.pow_nonneg; lia|apply Z.pow_lt_mono_r; lia].
Qed.

Definition new_info a cpu o : sinfo := SInfo cpu o (all_slots a o).

Abbreviation init_slab_cache := (init_slab_cache dsm_cxl_free_page free_in_cxl_slab free_in_temp_slab detect c mid).
Abbreviation alloc_in_dram_slab_impl :=
  (alloc_in_dram_slab_impl dsm_cxl_free_page free_in_cxl_slab free_in_temp_slab detect c mid).

Lemma minv_mark s V S p a f :
  minv s V S → live V !! a = Some 9 → (∀ n, chunk_page a 9 n → slab_field V !! n = Some 0) →
  pl_inv p (with_slab f V) → (∀ n, ¬ chunk_page a 9 n → f !! n = slab_field V !! n) → a ∉ home_addrs (rpf s) →
  cinv (rpf s) (with_slab f V).
Proof.
  intros [[HI [Hg Hm Hnd Hh]] Hu] Hl Hz Hp Hout Ha. split; try done. intros x Hx.
  destruct (Hh x Hx) as (H1&H2&H3). split_and!; [done| |done]. simpl. rewrite Hout; [done|]. intros Hc.
  pose proof (s_phys _ _ _ _ HI) as HP. destruct (live_addr _ _ _ _ HP Hl) as [_ Ea]. destruct (live_addr _ _ _ _ HP H1) as [_ Ex].
  assert (x = a) as ->; [|done]. eapply (pl_disj _ _ _ _ _ _ HP H1 Hl); rewrite Ex, Ea; unfold chunk_page, BUDDY_PAGE_SIZE in *; lia.
Qed.

(** [V1] is the view when the pools were asked, [s1] the state. *)
Lemma wp_init_slab_cache s V S cpu o :
  minv s V S → in_range cpu o →
  wp (init_slab_cache o SIZE_OF_ONE_SLAB cpu) (λ ra s', ∃ s1 V1, taken s V s1 V1 ∧
    match ra with
    | None => s' = s1 ∧ minv s1 V1 S ∧ no_chunk V 9
    | Some a => ∃ f, live V1 !! a = None ∧ a ≠ 0 ∧
        minv_with s' (with_slab f (new_chunk V1 a 9)) (<[a := new_info a cpu o]> S) (avail S) ∧
        rpf s' = rpf s1 ∧ current_slab s' = current_slab s1 ∧ locked s' = locked s1
    end) s.
Proof.
  intros Hm Hr. pose proof (proj2 Hr) as Ho. destruct (slab_geometry o Ho) as (Hmeta&Hcnt&Hsz&Hobj).
  assert (size_to_order (SIZE_OF_ONE_SLAB / BUDDY_PAGE_SIZE) = 9) as E9 by (vm_compute; reflexivity).
  unfold Slab.init_slab_cache, alloc_slab_memory. rewrite E9. wp_seq. eapply wp_mono; [by apply (wp_get_dram_pages _ V S 9)|].
  intros a s' (V1&[(->&Hm1&Ht&Hno)|(Ha&Hn&Hm2&s1&[[HI1 _] _]&Ht&Es)]).
  { rewrite bool_decide_eq_true_2 by done. wp_seq. rewrite bool_decide_eq_true_2 by done. wp_seq. exists s', V1. done. }
  remember (phys s') as q eqn:Eq. clear Eq. subst s'.
  rewrite bool_decide_eq_false_2 by done. wp_seq. pose proof Hm2 as [[HI2 HC2] Hu].
  assert (live (new_chunk V1 a 9) !! a = Some 9) as Hl by apply lookup_insert_eq.
  assert (∀ n, chunk_page a 9 n → slab_field V1 !! n = Some 0) as Hz.
  { intros n Hcn. eapply (new_chunk_plain s1 V1 S _ q a 9); [done|done|apply HI2|done]. }
  assert (a ∉ home_addrs (rpf s1)) as Hhome.
  { intros Hx. destruct (c_home _ _ HC2 a Hx) as (Hx'&_). rewrite Hl in Hx'. done. }
  destruct (pl_live _ _ _ _ (s_phys _ _ _ _ HI2) Hl) as (_&Hpos&Hal&Htop). change (2 ^ (9 + 12)) with SIZE_OF_ONE_SLAB in Htop.
  eapply wp_mono; [by apply (wp_mark_slab _ (new_chunk V1 a 9)); [apply HI2|]|].
  intros [] s2 (p&f&->&Hp&Hin&Hout). wp_seq. rewrite bool_decide_eq_false_2 by done. wp_seq.
  rewrite order_to_size_pow by (unfold in_orders, SLAB_MIN_ORDER, SLAB_MAX_ORDER in Ho; lia).
  fold (obj_size o). fold (meta_slots o). fold (slot_cnt o).
  apply wp_bug_on.
  { rewrite !bool_decide_eq_false_2; [done| |lia]. unfold slot_cnt in Hcnt. lia. }
  assert (0 < meta_slots o * obj_size o) by (apply Z.mul_pos_pos; lia).
  assert (0 < slot_cnt o * obj_size o) by (apply Z.mul_pos_pos; lia).
  rewrite wrap_u64_small by lia. replace (a + meta_slots o * obj_size o) with (slot_addr a o 0) by (unfold slot_addr; lia).
  wp_seq. eapply wp_mono.
  { apply wp_link_slots; [unfold slot_addr; lia|lia|]. rewrite Z2Nat.id by lia. unfold slot_addr. lia. }
  intros [] s3 (nf&->&Hc&Hf). wp_seq. exists s1, V1. split; [done|]. exists f. split_and!; [done|done| |done..].
  rewrite !wrap_u16_small by (destruct Hr; unfold PLAT_CPU_NUM in *; lia). split.
  - assert (SlabHeader (slot_addr a o 0) o cpu (slot_cnt o) (slot_cnt o) = header_of (slot_addr a o 0) (new_info a cpu o)) as ->
      by (unfold header_of; simpl; by rewrite all_slots_length).
    set (h := <[SlabNode a := _]> _).
    change (sinv (set_headers (<[a := header_of (slot_addr a o 0) (new_info a cpu o)]> (headers s1))
      (set_next_free nf (set_nodes h (set_phys p s1)))) (with_slab f (new_chunk V1 a 9)) (<[a := new_info a cpu o]> S) (avail S)).
    apply (sinv_new s1 V1 S p _ a (new_info a cpu o)); try done; simpl.
    + intros b j Hb. rewrite lookup_insert_ne; [done|]. intros <-.
      pose proof (so_live _ _ _ _ (s_slab _ _ _ _ HI1 _ _ Hb)). congruence.
    + intros n Hcn. split; [by apply Hz|by apply Hin].
    + unfold h. apply lookup_insert_is_Some. by left.
    + intros n Hne. unfold h. by rewrite lookup_insert_ne.
  - by apply (minv_mark (set_phys q s1) (new_chunk V1 a 9) S p a f).
Qed.
(** ** Allocating an object *)

Lemma avail_pop S a i l cpu o b :
  S !! a = Some i → l ≠ [] → si_free i ≠ [] → avail S cpu o b ↔ avail (<[a := set_free l i]> S) cpu o b.
Proof.
  intros Ha Hl Hf. unfold avail. destruct (decide (b = a)) as [->|Hne].
  - rewrite lookup_insert_eq, Ha. split; intros (j&[= <-]&<-&<-&?); [by exists (set_free l i)|by exists i].
  - by rewrite lookup_insert_ne.
Qed.

Lemma avail_pop_last S a i cpu o b :
  S !! a = Some i → minus (avail S) (si_cpu i) (si_ord i) a cpu o b ↔ avail (<[a := set_free [] i]> S) cpu o b.
Proof.
  intros Ha. unfold avail, minus. destruct (decide (b = a)) as [->|Hne].
  - rewrite lookup_insert_eq, Ha. split; [|by intros (j&[= <-]&_&_&?)].
    intros [(j&[= <-]&<-&<-&_) []]. done.
  - rewrite lookup_insert_ne by done. split; [by intros [? _]|]. intros ?. split; [done|]. naive_solver.
Qed.

Lemma wp_take_slot s V S a i x l :
  sinv s V S (avail S) → S !! a = Some i → si_free i = x :: l → current_slab s !! (si_cpu i, si_ord i) = Some (Some a) →
  wp (take_slot (si_cpu i) (si_ord i) a) (λ y s', y = x ∧ x ≠ 0 ∧
    sinv s' V (<[a := set_free l i]> S) (avail (<[a := set_free l i]> S)) ∧
    rpf s' = rpf s ∧ locked s' = locked s ∖ {[(si_cpu i, si_ord i)]}) s.
Proof.
  intros HI Ha Hx Hcur. pose proof (s_slab _ _ _ _ HI _ _ Ha) as Hok. pose proof (so_range _ _ _ _ Hok) as Hr.
  destruct (so_header _ _ _ _ Hok) as (hd&Hh&Hc). pose proof (so_slots _ _ _ _ Hok) as Hsl. pose proof (so_nodup _ _ _ _ Hok) as Hnd.
  pose proof (so_len _ _ _ _ Hok) as Hlen. destruct (slab_geometry _ (proj2 Hr)) as (_&?&_).
  rewrite Hx in Hc, Hsl, Hnd, Hlen. destruct Hc as (->&v&Hv&Hc). apply NoDup_cons in Hnd as [_ Hnd]. simpl in Hlen.
  destruct (slot_page _ _ _ _ _ _ _ HI Ha (Hsl x ltac:(by left))) as (Hx0&_).
  unfold take_slot. wp_seq. eapply wp_read_header; [done|]. wp_seq. cbn [header_of free_list_head].
  apply wp_bug_on; [apply bool_decide_eq_false_2; lia|]. wp_seq. unfold read_slot. wp_seq. eapply wp_from_opt; [done|]. wp_seq.
  eapply wp_upd_header; [done|]. wp_seq. eapply wp_upd_header; [simpl; apply lookup_insert_eq|]. wp_seq.
  eapply wp_read_header; [simpl; apply lookup_insert_eq|]. wp_seq. simpl. rewrite insert_insert_eq.
  assert (set_current_free_cnt (Z.of_nat (length (si_free i)) - 1) (set_free_list_head v (header_of x i)) = header_of v (set_free l i)) as ->.
  { unfold set_current_free_cnt, header_of. simpl. rewrite Hx. simpl. rewrite wrap_u16_small by lia. f_equal. lia. }
  rewrite Hx. cbn [length]. rewrite wrap_u16_small by lia.
  set (s1 := set_headers _ _).
  assert (sinv s1 V (<[a := set_free l i]> S) (avail S)) as HI1.
  { replace s1 with (set_headers (<[a := header_of v (set_free l i)]> (headers s)) (set_next_free (next_free s) s)) by (by destruct s).
    apply (sinv_update s V S (avail S) a i); try done; simpl; [lia|]. intros y Hy. apply Hsl. by right. }
  destruct l as [|z l]; cbn [length].
  - rewrite bool_decide_eq_true_2 by lia. cbn [when]. eapply (wp_choose s1 V _ (avail S) _ _ a); [done|done|done|].
    intros h cur HI2. wp_seq. split_and!; [done|lia| |done|done]. apply sinv_locked.
    eapply sinv_ext; [|exact HI2]. intros cpu o b _. by apply avail_pop_last.
  - rewrite bool_decide_eq_false_2 by lia. cbn [when]. wp_seq. split_and!; [done|lia| |done|done]. apply sinv_locked.
    eapply sinv_ext; [|exact HI1]. intros cpu o b _. apply avail_pop; [done|done|]. by rewrite Hx.
Qed.

(** Part of the pages on their way to this machine have been freed between the two views. *)
Record shrunk r V V' : Prop := {
  sh_slab : slab_field V' = slab_field V;
  sh_live a k : live V' !! a = Some k → live V !! a = Some k;
  sh_keep a k : live V !! a = Some k → a ∉ home_addrs r → live V' !! a = Some k;
  sh_ref a k : live V' !! a = Some k → ref_field V' !! pfn a = ref_field V !! pfn a
}.

Lemma taken_shrunk s V s' V' : taken s V s' V' → shrunk (rpf s) V V' ∧ ∀ x, x ∈ home_addrs (rpf s') → x ∈ home_addrs (rpf s).
Proof. intros []. by split. Qed.

Lemma shrunk_refl r V : shrunk r V V.
Proof. by split. Qed.

Lemma used_pop S a i x l : used S → Z.of_nat (length (si_free i)) ≤ slot_cnt (si_ord i) → si_free i = x :: l → used (<[a := set_free l i]> S).
Proof.
  intros Hu Hlen Hx b j [[<- <-]|[_ Hb]]%lookup_insert_Some; [|by eapply Hu]. rewrite Hx in Hlen. simpl in *. lia.
Qed.

Lemma avail_new S a cpu o cpu' o' b : S !! a = None → all_slots a o ≠ [] →
  plus (avail S) cpu o a cpu' o' b ↔ avail (<[a := new_info a cpu o]> S) cpu' o' b.
Proof.
  intros Ha Hne. unfold plus, avail. destruct (decide (b = a)) as [->|Hba].
  - rewrite lookup_insert_eq. split; [|intros (j&[= <-]&<-&<-&_); by right].
    intros [(j&?&_)|(->&->&_)]; [congruence|]. by exists (new_info a cpu o).
  - rewrite lookup_insert_ne by done. naive_solver.
Qed.

(** The object [x] comes from a slab that has it free, or from a new slab. *)
Definition took S V1 (cpu o x : Z) V' S' : Prop :=
  ∃ b i l, si_cpu i = cpu ∧ si_ord i = o ∧ si_free i = x :: l ∧ S' = <[b := set_free l i]> S ∧
    ((S !! b = Some i ∧ V' = V1) ∨
     (S !! b = None ∧ i = new_info b cpu o ∧ live V1 !! b = None ∧ ∃ f, V' = with_slab f (new_chunk V1 b 9))).

Lemma wp_alloc_impl s V S cpu o :
  minv s V S → in_range cpu o → (cpu, o) ∉ locked s →
  wp (alloc_in_dram_slab_impl cpu o) (λ x s', locked s' = locked s ∧
    (∀ y, y ∈ home_addrs (rpf s') → y ∈ home_addrs (rpf s)) ∧
    ∃ V1, shrunk (rpf s) V V1 ∧
      ((x = 0 ∧ minv s' V1 S ∧ no_chunk V 9) ∨ (x ≠ 0 ∧ ∃ V' S', minv s' V' S' ∧ took S V1 cpu o x V' S'))) s.
Proof.
  intros Hm Hr Hlk. unfold Slab.alloc_in_dram_slab_impl. wp_seq.
  apply wp_bug_on; [apply bool_decide_eq_false_2; destruct Hr; lia|]. wp_seq. apply wp_lock_slab; [done|].
  set (s0 := set_locked ({[(cpu, o)]} ∪ locked s) s).
  assert (minv s0 V S) as Hm0. { destruct Hm as [[HI HC] Hu]. split; [|done]. split; [by apply sinv_locked|done]. }
  pose proof Hm0 as [[HI HC] Hu]. destruct (s_lists _ _ _ _ HI) as [W HL].
  destruct (lv_pool _ _ _ _ HL cpu o Hr) as (cur&ps&Hcur&_&_&Hav). wp_seq. eapply wp_get_current; [exact Hcur|].
  destruct cur as [a|].
  - destruct (proj1 (Hav a)) as (i&Ha&<-&<-&Hne); [by left|]. destruct (si_free i) as [|x l] eqn:Hf; [done|].
    eapply wp_mono; [by eapply (wp_take_slot s0 V S a i x l)|]. intros y s' (->&Hx0&HI'&Er&El). split_and!.
    + rewrite El. by apply unlock_lock.
    + by rewrite Er.
    + exists V. split; [apply shrunk_refl|]. right. split; [done|]. exists V, (<[a := set_free l i]> S). split.
      * split; [split; [done|by rewrite Er]|]. eapply used_pop; [done| |done]. apply (s_slab _ _ _ _ HI _ _ Ha).
      * exists a, i, l. split_and!; try done. by left.
  - wp_seq. eapply wp_mono; [by apply (wp_init_slab_cache s0 V S)|]. intros ra s' (s1&V1&Ht&HR).
    pose proof (tk_state _ _ _ _ Ht) as Es. destruct (taken_shrunk _ _ _ _ Ht) as [Hsh Hhome].
    assert (locked s1 ∖ {[(cpu, o)]} = locked s) as El1 by (rewrite Es; by apply unlock_lock).
    destruct ra as [a|]; [|].
    + destruct HR as (f&Hn&Ha0&[HI' HC']&Er&Ec&El). wp_seq.
      assert (S !! a = None) as HSa.
      { destruct (S !! a) as [j|] eqn:E; [|done]. exfalso. pose proof (so_live _ _ _ _ (s_slab _ _ _ _ HI _ _ E)) as Hl.
        apply (sh_keep _ _ _ Hsh) in Hl; [congruence|]. intros Hx. destruct (c_home _ _ HC a Hx) as (_&Hs&_). exact (slab_not_plain _ _ _ _ _ _ HI E Hs). }
      destruct (slab_geometry o (proj2 Hr)) as (_&?&_).
      destruct (all_slots a o) as [|x l] eqn:Hsl.
      { pose proof (all_slots_length a o (proj2 Hr)) as E. rewrite Hsl in E. simpl in E. lia. }
      eapply wp_set_current; [rewrite Ec, Es; done|].
      eapply wp_mono.
      { eapply (wp_take_slot _ (with_slab f (new_chunk V1 a 9)) (<[a := new_info a cpu o]> S) a (new_info a cpu o) x l).
        - set (cur := <[(cpu, o) := Some a]> (current_slab s')).
          change (sinv (set_nodes (nodes s') (set_current_slab cur s')) (with_slab f (new_chunk V1 a 9)) (<[a := new_info a cpu o]> S)
            (avail (<[a := new_info a cpu o]> S))).
          eapply sinv_lists; [exact HI'|done|]. eapply lists_ext; [intros; apply avail_new; [done|by rewrite Hsl]|].
          apply lists_set_current; [apply HI'|done|rewrite Ec, Es; done|]. intros ?? _ (j&?&_). congruence.
        - apply lookup_insert_eq.
        - done.
        - simpl. apply lookup_insert_eq. }
      intros y s3 (->&Hx0&HI3&Er3&El3). simpl in Er3, El3. rewrite insert_insert_eq in HI3. split_and!.
      * by rewrite El3, El.
      * rewrite Er3, Er. done.
      * exists V1. split; [done|]. right. split; [done|]. eexists _, _. split.
        -- split; [split; [exact HI3|by rewrite Er3]|]. eapply used_pop; [done| |exact Hsl]. simpl. rewrite all_slots_length by apply Hr. lia.
        -- exists a, (new_info a cpu o), l. split_and!; try done. right. split_and!; eauto.
    + destruct HR as (->&Hm1&Hno). wp_seq. split_and!; [done|done|]. exists V1. split; [done|]. left. split_and!; [done| |done].
      destruct Hm1 as [[HI1 HC1] ?]. split; [|done]. split; [by apply sinv_locked|done].
Qed.
(** ** Blocks of memory in use *)

(** An object of a slab, by its order. *)
Definition object S x o : Prop :=
  ∃ b i, S !! b = Some i ∧ slot_of b (si_ord i) x ∧ (x ∉ si_free i) ∧ si_ord i = o.

(** What [kmalloc] hands out: objects, and chunks of pages that are no slab. *)
Definition block V S x (sz : Z) : Prop :=
  (∃ o, object S x o ∧ sz = 2 ^ o) ∨ (∃ k, live V !! x = Some k ∧ S !! x = None ∧ sz = 2 ^ (k + 12)).

Lemma object_chunk s V S Av x o : sinv s V S Av → object S x o →
  ∃ b i, S !! b = Some i ∧ slot_of b o x ∧ (x ∉ si_free i) ∧ si_ord i = o ∧ live V !! b = Some 9 ∧ in_orders o ∧
    b ≤ x ∧ x + 2 ^ o ≤ b + 2 ^ (9 + 12) ∧ 0 < 2 ^ o.
Proof.
  intros HI (b&i&Hb&Hx&Hf&<-). pose proof (s_slab _ _ _ _ HI _ _ Hb) as Hok. pose proof (proj2 (so_range _ _ _ _ Hok)) as Ho.
  destruct (slot_of_range _ _ _ Ho Hx) as (?&?&_). destruct (slab_geometry _ Ho) as (_&_&_&?). unfold obj_size in *.
  change (2 ^ (9 + 12)) with SIZE_OF_ONE_SLAB. exists b, i. split_and!; try done; [apply Hok|lia..].
Qed.

(** No object starts where a chunk does. *)
Lemma object_not_chunk s V S Av x o k :
  sinv s V S Av → object S x o → live V !! x = Some k → S !! x = None → False.
Proof.
  intros HI Ho Hk Hn. destruct (object_chunk _ _ _ _ _ _ HI Ho) as (b&i&Hb&_&_&_&Hl&_&?&?&?).
  pose proof (s_phys _ _ _ _ HI) as Hp. destruct (pl_live _ _ _ _ Hp Hk) as (?&_). pose proof (pow2_pos (k + 12) ltac:(lia)).
  assert (b = x) by (apply (pl_disj _ _ _ _ _ _ Hp Hl Hk); lia). congruence.
Qed.

Lemma block_disj s V S Av x m y n :
  sinv s V S Av → block V S x m → block V S y n → x < y + n → y < x + m → x = y ∧ m = n.
Proof.
  intros HI Hx Hy H1 H2. pose proof (s_phys _ _ _ _ HI) as Hp.
  destruct Hx as [(o&Ho&->)|(k&Hk&Hs&->)], Hy as [(o'&Ho'&->)|(k'&Hk'&Hs'&->)].
  - destruct (object_chunk _ _ _ _ _ _ HI Ho) as (b&i&Hb&Hbx&_&<-&Hl&Hr&?&?&?).
    destruct (object_chunk _ _ _ _ _ _ HI Ho') as (b'&i'&Hb'&Hby&_&<-&Hl'&_&?&?&?).
    assert (b = b') as <- by (apply (pl_disj _ _ _ _ _ _ Hp Hl Hl'); lia). simplify_eq.
    split; [by eapply slot_of_disj|done].
  - destruct (object_chunk _ _ _ _ _ _ HI Ho) as (b&i&Hb&_&_&_&Hl&_&?&?&?).
    assert (b = y) as -> by (apply (pl_disj _ _ _ _ _ _ Hp Hl Hk'); lia). congruence.
  - destruct (object_chunk _ _ _ _ _ _ HI Ho') as (b&i&Hb&_&_&_&Hl&_&?&?&?).
    assert (b = x) as -> by (apply (pl_disj _ _ _ _ _ _ Hp Hl Hk); lia). congruence.
  - assert (x = y) as <- by (by apply (pl_disj _ _ _ _ _ _ Hp Hk Hk')). split; [done|]. congruence.
Qed.

(** The pages of a chunk that is no slab are not marked. *)
Lemma plain_chunk s V S Av x k : sinv s V S Av → live V !! x = Some k → S !! x = None → slab_field V !! pfn x = Some 0.
Proof.
  intros HI Hl Hn. pose proof (s_phys _ _ _ _ HI) as Hp. destruct (pl_live _ _ _ _ Hp Hl) as (Hk&_).
  destruct (pl_fields _ _ _ _ _ Hp Hl (pfn_head x k ltac:(lia))) as [[v Hv] _].
  destruct (decide (v = 0)) as [->|Hne]; [done|]. destruct (s_plain _ _ _ _ HI _ v Hv Hne) as [[i Hi] Hc].
  pose proof (so_live _ _ _ _ (s_slab _ _ _ _ HI _ _ Hi)) as Hlv. pose proof (pow2_pos k ltac:(lia)).
  destruct (live_addr _ _ _ _ Hp Hl) as [_ Ex]. destruct (live_addr _ _ _ _ Hp Hlv) as [_ Ev].
  assert (v = x); [|congruence]. eapply (pl_disj _ _ _ _ _ _ Hp Hlv Hl); rewrite Ex, Ev; rewrite Z.pow_add_r by lia;
    change (2 ^ 12) with BUDDY_PAGE_SIZE; unfold chunk_page, BUDDY_PAGE_SIZE in *; lia.
Qed.

Lemma home_block s V S x : minv s V S → x ∈ home_addrs (rpf s) → block V S x 4096 ∧ S !! x = None.
Proof.
  intros [[HI HC] _] Hx. destruct (c_home _ _ HC x Hx) as (Hl&Hs&_).
  assert (S !! x = None) as Hn. { destruct (S !! x) as [i|] eqn:E; [|done]. by destruct (slab_not_plain _ _ _ _ _ _ HI E). }
  split; [|done]. right. by exists 0.
Qed.

(** ** dram_kmalloc *)

(** [kmalloc] returned the block [x] of [sz] bytes. *)
Record malloced s V S x (sz : Z) s' V' S' : Prop := {
  ml_inv : minv s' V' S';
  ml_locked : locked s' = locked s;
  ml_home y : y ∈ home_addrs (rpf s') → y ∈ home_addrs (rpf s);
  ml_new : block V' S' x sz;
  ml_ref : S' !! x = None → (∃ k, live V' !! x = Some k) → ref_field V' !! pfn x = Some 1;
  ml_only y n : block V' S' y n → (y = x ∧ n = sz) ∨ block V S y n;
  ml_keep y n : block V S y n → y ∉ home_addrs (rpf s) → block V' S' y n ∧ y ≠ x
}.

Lemma shrunk_block r V V1 S y n : shrunk r V V1 → block V1 S y n → block V S y n.
Proof. intros Hs [?|(k&Hk&?&->)]; [by left|right]. exists k. split_and!; [by eapply sh_live|done..]. Qed.

Lemma block_shrunk r V V1 S y n : shrunk r V V1 → block V S y n → y ∉ home_addrs r → block V1 S y n.
Proof. intros Hs [?|(k&Hk&?&->)] Hy; [by left|right]. exists k. split_and!; [by eapply sh_keep|done..]. Qed.

Lemma object_pop S b i x l y o :
  S !! b = Some i → si_free i = x :: l → NoDup (si_free i) → slot_of b (si_ord i) x →
  object (<[b := set_free l i]> S) y o ↔ (y = x ∧ o = si_ord i) ∨ object S y o.
Proof.
  intros Hb Hf Hnd Hsx. rewrite Hf in Hnd. apply NoDup_cons in Hnd as [Hxl _]. unfold object. split.
  - intros (b'&j&[[<- <-]|[Hne Hb']]%lookup_insert_Some&Hs&Hyf&<-); [|right; by exists b', j]. simpl in *.
    destruct (decide (y = x)) as [->|Hyx]; [by left|right]. exists b, i. split_and!; try done.
    rewrite Hf. by apply not_elem_of_cons.
  - intros [[-> ->]|(b'&j&Hb'&Hs&Hyf&<-)].
    + exists b, (set_free l i). by rewrite lookup_insert_eq.
    + destruct (decide (b' = b)) as [->|Hne].
      * simplify_eq. exists b, (set_free l i). rewrite lookup_insert_eq. split_and!; try done. simpl. rewrite Hf in Hyf.
        by apply not_elem_of_cons in Hyf as [_ ?].
      * exists b', j. by rewrite lookup_insert_ne.
Qed.

Lemma object_new S b cpu o0 y o :
  S !! b = None → in_orders o0 → object (<[b := new_info b cpu o0]> S) y o ↔ object S y o.
Proof.
  intros Hb Ho. unfold object. split.
  - intros (b'&j&[[<- <-]|[Hne Hb']]%lookup_insert_Some&Hs&Hyf&<-); [|by exists b', j]. simpl in *. by rewrite elem_of_all_slots in Hyf.
  - intros (b'&j&Hb'&?). exists b', j. rewrite lookup_insert_ne; [done|]. congruence.
Qed.

Lemma took_malloced s V S s' V1 cpu o x V' S' :
  minv s V S → shrunk (rpf s) V V1 → minv s' V' S' → locked s' = locked s →
  (∀ y, y ∈ home_addrs (rpf s') → y ∈ home_addrs (rpf s)) → in_range cpu o →
  took S V1 cpu o x V' S' → malloced s V S x (2 ^ o) s' V' S'.
Proof.
  intros [[HI HC] Hu] Hsh Hm' Hl Hh Hr (b&i&l&<-&<-&Hf&->&Hcase). pose proof Hm' as [[HI' HC'] Hu'].
  pose proof (proj2 Hr) as Ho.
  assert (slot_of b (si_ord i) x ∧ NoDup (si_free i)) as [Hsx Hnd].
  { destruct Hcase as [[Hb _]|(Hb&Hi&_)].
    - pose proof (s_slab _ _ _ _ HI _ _ Hb) as Hok. split; [apply (so_slots _ _ _ _ Hok); rewrite Hf; by left|apply Hok].
    - assert (si_free i = all_slots b (si_ord i)) as Ef by (by rewrite Hi at 1). destruct (slab_geometry _ Ho) as (_&_&_&?).
      split; [apply elem_of_all_slots; [done|]; rewrite <-Ef, Hf; by left|rewrite Ef; apply slot_list_nodup; lia]. }
  assert (∀ y o, object (<[b := set_free l i]> S) y o ↔ (y = x ∧ o = si_ord i) ∨ object S y o) as Hobj.
  { intros y o. destruct Hcase as [[Hb _]|(Hb&Hi&_)]; [by apply object_pop|].
    rewrite <-(insert_insert_eq S b (set_free l i) i), object_pop by (try done; apply lookup_insert_eq).
    rewrite <-(object_new S b (si_cpu i) (si_ord i) y o Hb Ho), <-Hi. done. }
  assert (∀ y k, live V' !! y = Some k ∧ <[b := set_free l i]> S !! y = None ↔ live V1 !! y = Some k ∧ S !! y = None) as Hch.
  { intros y k. destruct Hcase as [[Hb ->]|(Hb&_&Hn&f&->)]; simpl; destruct (decide (y = b)) as [->|Hne];
      rewrite ?lookup_insert_eq, ?lookup_insert_ne by done; try done; split; intros [? ?]; congruence. }
  assert (∀ y n, block V' (<[b := set_free l i]> S) y n ↔ (y = x ∧ n = 2 ^ si_ord i) ∨ block V1 S y n) as Hbl.
  { intros y n. unfold block. split.
    - intros [(o&[[-> ->]|?]%Hobj&->)|(k&Hk&Hs&->)]; [by left|right; left; eauto|right; right].
      exists k. destruct (proj1 (Hch y k)); [done|]. done.
    - intros [[-> ->]|[(o&?&->)|(k&Hk&Hs&->)]]; [left; exists (si_ord i); split; [|done]; apply Hobj; by left|left; exists o; split; [|done]; apply Hobj; by right|right].
      exists k. destruct (proj2 (Hch y k)); [done|]. done. }
  assert (∀ k, live V' !! x = Some k → <[b := set_free l i]> S !! x = None → False) as Hnochunk.
  { intros k. eapply object_not_chunk; [exact HI'|]. apply Hobj. by left. }
  split; try done.
  - apply Hbl. by left.
  - intros Hnx [k Hk]. by destruct (Hnochunk k).
  - intros y n Hy%Hbl. destruct Hy as [?|Hy]; [by left|right]. by eapply shrunk_block.
  - intros y n Hy Hnh. pose proof (block_shrunk _ _ _ _ _ _ Hsh Hy Hnh) as Hy1. split; [apply Hbl; by right|]. intros ->.
    destruct Hy1 as [(o&(b'&j&Hb'&Hs'&Hnf&_)&_)|(k&Hk&Hs&_)]; [|by destruct (proj2 (Hch x k)); [done|]; eapply Hnochunk].
    assert (b' = b) as ->.
    { destruct (decide (b' = b)) as [|Hne]; [done|]. eapply (slot_other _ _ _ _ b' j b (set_free l i) x HI'); [|apply lookup_insert_eq|done|done].
      by rewrite lookup_insert_ne. }
    destruct Hcase as [[Hb _]|(Hb&_)]; [|congruence]. simplify_eq. rewrite Hf in Hnf. apply Hnf. by left.
Qed.
Lemma got_malloced s V S ord a s' :
  minv s V S → got_pages s V S ord a s' → a ≠ 0 → ∃ V', malloced s V S a (2 ^ (ord + 12)) s' V' S.
Proof.
  intros _ (V1&[(?&_)|(_&Hn&Hm'&s1&[[HI1 _] _]&Ht&Es)]) Ha; [done|]. destruct (taken_shrunk _ _ _ _ Ht) as [Hsh Hh].
  assert (rpf s' = rpf s1 ∧ locked s' = locked s) as [Er El] by (rewrite Es; split; [done|]; simpl; by rewrite (tk_state _ _ _ _ Ht)).
  assert (S !! a = None) as HS.
  { destruct (S !! a) as [j|] eqn:E; [|done]. pose proof (so_live _ _ _ _ (s_slab _ _ _ _ HI1 _ _ E)). congruence. }
  exists (new_chunk V1 a ord). split; [done|done|by rewrite Er|..].
  - right. exists ord. simpl. by rewrite lookup_insert_eq.
  - intros _ _. simpl. by rewrite lookup_insert_eq.
  - intros y n [?|(k&Hk&Hs&->)]; [right; by left|]. simpl in Hk. apply lookup_insert_Some in Hk as [[<- <-]|[Hne Hk]]; [by left|].
    right. right. exists k. split_and!; [by eapply sh_live|done..].
  - intros y n Hy Hnh. pose proof (block_shrunk _ _ _ _ _ _ Hsh Hy Hnh) as Hy1. destruct Hy1 as [(o&Ho&->)|(k&Hk&Hs&->)].
    + split; [left; eauto|]. intros ->. destruct Hm' as [[HI' _] _].
      eapply (object_not_chunk _ _ _ _ _ _ ord HI' Ho); [simpl; apply lookup_insert_eq|done].
    + assert (y ≠ a) as Hne by congruence. split; [|done]. right. exists k. simpl. by rewrite lookup_insert_ne.
Qed.

Lemma size_to_page_order_spec size : 4096 < size ≤ 2 ^ 31 →
  0 ≤ size_to_page_order size < BUDDY_MAX_ORDER ∧ size ≤ 2 ^ (size_to_page_order size + 12).
Proof.
  intros Hs. unfold size_to_page_order. change BUDDY_PAGE_SIZE with (2 ^ 12). rewrite ROUND_UP_pow2, Z.div_mul by lia.
  change (2 ^ 12) with 4096. set (pg := (size + 4096 - 1) / 4096).
  assert (2 ≤ pg < 2 ^ 19 + 1) as Hpg by (unfold pg; split; [apply Z.div_le_lower_bound; lia|apply Z.div_lt_upper_bound; lia]).
  rewrite log2_round_up by lia. pose proof (Z.log2_up_spec pg ltac:(lia)) as [_ Hup].
  assert (Z.log2_up pg ≤ 19) by (rewrite <-(Z.log2_up_pow2 19) by lia; apply Z.log2_up_le_mono; lia).
  pose proof (Z.log2_up_nonneg pg). split; [unfold BUDDY_MAX_ORDER; lia|]. rewrite Z.pow_add_r by lia. change (2 ^ 12) with 4096.
  pose proof (Z.div_mod (size + 4096 - 1) 4096 ltac:(lia)) as Hdm. pose proof (Z.mod_pos_bound (size + 4096 - 1) 4096 ltac:(lia)).
  fold pg in Hdm. lia.
Qed.

Lemma size_class size : 0 < size ≤ SLAB_MAX_SIZE →
  let o := if bool_decide (size_to_order size < SLAB_MIN_ORDER) then SLAB_MIN_ORDER else size_to_order size in
  in_orders o ∧ size ≤ 2 ^ o.
Proof.
  intros Hs. change SLAB_MAX_SIZE with 2048 in Hs. rewrite size_to_order_log2_up by lia.
  assert (Z.log2_up size ≤ 11) by (rewrite <-(Z.log2_up_pow2 11) by lia; apply Z.log2_up_le_mono; lia).
  assert (size ≤ 2 ^ Z.log2_up size) as Hup.
  { destruct (decide (size = 1)) as [->|]; [done|]. by apply (Z.log2_up_spec size); lia. }
  unfold in_orders, SLAB_MIN_ORDER, SLAB_MAX_ORDER. case_bool_decide as Hlt; (split; [lia|]); [|done].
  change (2 ^ 5) with 32. assert (2 ^ Z.log2_up size < 2 ^ 5) by (apply Z.pow_lt_mono_r; lia). lia.
Qed.

Abbreviation dram_kmalloc := (dram_kmalloc dsm_cxl_free_page free_in_cxl_slab free_in_temp_slab detect c mid).

Lemma dram_kmalloc_spec s V S cpu size :
  minv s V S → unlocked s → 0 ≤ cpu < PLAT_CPU_NUM → 0 < size ≤ 2 ^ 31 →
  match dram_kmalloc cpu size s with
  | Ret (x, s') => ∃ sz V' S', size ≤ sz ∧ (size ≤ SLAB_MAX_SIZE → sz ≤ SLAB_MAX_SIZE) ∧ x ≠ 0 ∧ malloced s V S x sz s' V' S'
  | Halt w => w = BugHit ∧ ∃ ord, 0 ≤ ord < BUDDY_MAX_ORDER ∧ no_chunk V ord
  end.
Proof.
  intros Hm Hl Hcpu Hs. unfold Slab.dram_kmalloc. rewrite bool_decide_eq_false_2 by lia.
  set (m := if bool_decide (size <= SLAB_MAX_SIZE) then _ else _).
  assert (wp m (λ x s', (x = 0 ∧ ∃ ord, 0 ≤ ord < BUDDY_MAX_ORDER ∧ no_chunk V ord) ∨
    (x ≠ 0 ∧ ∃ sz V' S', size ≤ sz ∧ (size ≤ SLAB_MAX_SIZE → sz ≤ SLAB_MAX_SIZE) ∧ malloced s V S x sz s' V' S')) s) as Hwp.
  { unfold m. case_bool_decide as Hsz.
    - destruct (size_class size ltac:(lia)) as [Ho Hle]. unfold alloc_in_dram_slab. wp_seq.
      apply wp_bug_on; [apply bool_decide_eq_false_2; change (order_to_size SLAB_MAX_ORDER) with 2048; change SLAB_MAX_SIZE with 2048 in Hsz; lia|].
      set (o := if bool_decide (size_to_order size < SLAB_MIN_ORDER) then SLAB_MIN_ORDER else size_to_order size) in *.
      assert (in_range cpu o) as Hr by (by split).
      eapply wp_mono; [apply (wp_alloc_impl s V S cpu o Hm Hr); by apply Hl|].
      intros x s' (El&Hh&V1&Hsh&[(->&_&Hno)|(Hx&V'&S'&Hm'&Htook)]); [left|right].
      + split; [done|]. exists 9. done.
      + split; [done|]. exists (2 ^ o), V', S'. split_and!; [done| |by eapply took_malloced].
        intros _. change SLAB_MAX_SIZE with (2 ^ SLAB_MAX_ORDER). apply Z.pow_le_mono_r; [lia|apply Ho].
    - set (ord := if bool_decide (size <= BUDDY_PAGE_SIZE) then 0 else size_to_page_order size).
      assert (0 ≤ ord < BUDDY_MAX_ORDER ∧ size ≤ 2 ^ (ord + 12)) as [Hord Hle].
      { unfold ord. case_bool_decide as Hp; [change (2 ^ (0 + 12)) with BUDDY_PAGE_SIZE; unfold BUDDY_MAX_ORDER; lia|].
        apply size_to_page_order_spec. unfold BUDDY_PAGE_SIZE in Hp. lia. }
      eapply wp_mono; [by apply (wp_get_dram_pages s V S ord)|]. intros x s' HG. destruct (decide (x = 0)) as [->|Hx]; [left|right].
      + split; [done|]. destruct HG as (V1&[(_&_&_&Hno)|(?&_)]); [eauto|done].
      + split; [done|]. destruct (got_malloced _ _ _ _ _ _ Hm HG Hx) as (V'&?).
        exists (2 ^ (ord + 12)), V', S. split_and!; [done|lia|done]. }
  clearbody m. destruct (wp_inv _ _ _ Hwp) as (x&s'&Hrun&HR). unfold mbind, M_bind. rewrite Hrun. unfold bug_on.
  destruct HR as [(->&Hno)|(Hx&sz&V'&S'&?&?&?)].
  - by rewrite bool_decide_eq_true_2.
  - rewrite bool_decide_eq_false_2 by done. simpl. by exists sz, V', S'.
Qed.
(** ** kfree of a block *)

Lemma all_slots_free s V S Av b i l :
  sinv s V S Av → S !! b = Some i → NoDup l → (∀ y, y ∈ l → slot_of b (si_ord i) y) →
  Z.of_nat (length l) = slot_cnt (si_ord i) → ∀ y, slot_of b (si_ord i) y → y ∈ l.
Proof.
  intros HI Hb Hnd Hsl Hlen y Hy. pose proof (proj2 (so_range _ _ _ _ (s_slab _ _ _ _ HI _ _ Hb))) as Ho.
  assert (l ≡ₚ all_slots b (si_ord i)) as ->; [|by apply elem_of_all_slots].
  apply submseteq_length_Permutation.
  - apply NoDup_submseteq; [done|]. intros z Hz. by apply elem_of_all_slots, Hsl.
  - pose proof (all_slots_length b _ Ho). lia.
Qed.

Lemma object_put S b i x y o :
  S !! b = Some i → slot_of b (si_ord i) x → x ∉ si_free i → (∀ b' j, S !! b' = Some j → slot_of b' (si_ord j) x → b' = b) →
  object (<[b := set_free (x :: si_free i) i]> S) y o ↔ y ≠ x ∧ object S y o.
Proof.
  intros Hb Hsx Hxf Huniq. unfold object. split.
  - intros (b'&j&[[<- <-]|[Hne Hb']]%lookup_insert_Some&Hs&Hyf&<-); simpl in *.
    + apply not_elem_of_cons in Hyf as [? ?]. split; [done|]. by exists b, i.
    + split; [|by exists b', j]. intros ->. apply Hne. symmetry. by eapply Huniq.
  - intros (Hne&b'&j&Hb'&Hs&Hyf&<-). destruct (decide (b' = b)) as [->|Hbb].
    + assert (j = i) as -> by congruence. exists b, (set_free (x :: si_free i) i). rewrite lookup_insert_eq. split_and!; try done. simpl. by apply not_elem_of_cons.
    + exists b', j. by rewrite lookup_insert_ne.
Qed.

Lemma object_drop S b i x y o :
  S !! b = Some i → (∀ y, slot_of b (si_ord i) y → y ∈ x :: si_free i) →
  (∀ b' j, S !! b' = Some j → slot_of b' (si_ord j) x → b' = b) →
  object (delete b S) y o ↔ y ≠ x ∧ object S y o.
Proof.
  intros Hb Hall Huniq. unfold object. split.
  - intros (b'&j&[Hne Hb']%lookup_delete_Some&Hs&Hyf&<-). split; [|by exists b', j]. intros ->. apply Hne. symmetry. by eapply Huniq.
  - intros (Hne&b'&j&Hb'&Hs&Hyf&<-). exists b', j. split_and!; try done. rewrite lookup_delete_ne; [done|]. intros <-. simplify_eq.
    by apply Hall, elem_of_cons in Hs as [?|?].
Qed.

Lemma cinv_unmapped s V S V' b i :
  minv s V S → S !! b = Some i → unmapped V b V' → cinv (rpf s) V'.
Proof.
  intros [[HI [Hg Hm Hnd Hh]] _] Hb [El Er Ein Eout]. split; try done. intros x Hx. destruct (Hh x Hx) as (H1&H2&H3).
  assert (x ≠ b) as Hne by (intros ->; by eapply (slab_not_plain _ _ _ _ _ _ HI Hb)). split_and!.
  - rewrite El. by rewrite lookup_delete_ne.
  - rewrite Eout; [done|]. intros Hc. pose proof (s_slab _ _ _ _ HI _ _ Hb) as Hok. rewrite (so_pages _ _ _ _ Hok _ Hc) in H2.
    destruct (pl_live _ _ _ _ (s_phys _ _ _ _ HI) (so_live _ _ _ _ Hok)) as (_&?&_). injection H2 as ->. lia.
  - by rewrite Er.
Qed.

Lemma wp_kfree_object s V S x o :
  minv s V S → unlocked s → object S x o →
  wp (kfree x) (λ _ s', ∃ V' S', minv s' V' S' ∧ locked s' = locked s ∧ rpf s' = rpf s ∧
    ∀ y n, block V' S' y n ↔ y ≠ x ∧ block V S y n) s.
Proof.
  intros Hm Hl (b&i&Hb&Hsx&Hxf&<-). pose proof Hm as [[HI HC] Hu]. pose proof (s_slab _ _ _ _ HI _ _ Hb) as Hok.
  destruct (slot_page _ _ _ _ _ _ _ HI Hb Hsx) as (Hx0&Hxp&Hxt). pose proof (so_pages _ _ _ _ Hok _ Hxp) as Hmark.
  destruct (pl_live _ _ _ _ (s_phys _ _ _ _ HI) (so_live _ _ _ _ Hok)) as (_&Hb0&_).
  destruct (slab_geometry _ (proj2 (so_range _ _ _ _ Hok))) as (_&_&_&?).
  assert (∀ b' j, S !! b' = Some j → slot_of b' (si_ord j) x → b' = b) as Huniq.
  { intros b' j Hb' Hs'. by eapply (slot_other _ _ _ _ b' j b i). }
  assert (∀ k, live V !! x = Some k → S !! x = None → False) as Hnochunk.
  { intros k. apply (object_not_chunk s V S (avail S) x (si_ord i)); [done|by exists b, i]. }
  unfold Slab.kfree. rewrite bool_decide_eq_false_2 by (change ZERO_SIZE_PTR with (2 ^ 64 - 1); lia). wp_seq. apply wp_on_phys.
  eapply wp_mono; [eapply pl_slab_spec; [apply HI|lia|done]|]. intros ? ? [-> ->]. rewrite bool_decide_eq_false_2 by lia. cbn [negb].
  replace (set_phys (phys s) s) with s by (by destruct s). wp_seq. apply wp_on_phys.
  eapply wp_mono; [eapply pl_type_spec; [apply HI|lia|done]|]. intros ? ? [-> ->]. cbv iota.
  replace (set_phys (phys s) s) with s by (by destruct s).
  eapply wp_mono; [apply (wp_free_in_dram_slab dsm_cxl_free_page detect s V S b i x); try done; apply Hl, Hok|].
  intros [] s' (V'&S'&HI'&Er&El&Hcase). exists V', S'. cbv zeta in Hcase. simpl in Hcase.
  destruct Hcase as [(Hlen&->&->)|(Hlen&->&Hum)].
  - split_and!; [|done|done|].
    + split; [split; [done|by rewrite Er]|]. intros a j [[<- <-]|[_ Ha]]%lookup_insert_Some; [|by eapply Hu]. simpl. lia.
    + intros y n. unfold block. setoid_rewrite (object_put S b i x _ _ Hb Hsx Hxf Huniq). split.
      * intros [(o&[? ?]&->)|(k&Hk&Hs&->)]; [split; [done|left; eauto]|].
        assert (S !! y = None) as Hs0. { destruct (decide (y = b)) as [->|]; [by rewrite lookup_insert_eq in Hs|by rewrite lookup_insert_ne in Hs]. }
        split; [|right; eauto]. intros ->. by eapply Hnochunk.
      * intros (Hne&[(o&?&->)|(k&Hk&Hs&->)]); [left; eauto|right]. exists k. rewrite lookup_insert_ne by congruence. done.
  - assert (∀ y, slot_of b (si_ord i) y → y ∈ x :: si_free i) as Hall.
    { apply (all_slots_free _ _ _ _ _ _ _ HI Hb); [apply NoDup_cons; split; [done|apply Hok]| |simpl; lia].
      intros y [->|Hy]%elem_of_cons; [done|by apply (so_slots _ _ _ _ Hok)]. }
    split_and!; [|done|done|].
    + split; [split; [done|rewrite Er; by eapply cinv_unmapped]|]. intros a j [_ Ha]%lookup_delete_Some. by eapply Hu.
    + intros y n. unfold block. setoid_rewrite (object_drop S b i x _ _ Hb Hall Huniq). rewrite (um_live _ _ _ Hum). split.
      * intros [(o&[? ?]&->)|(k&[Hne Hk]%lookup_delete_Some&Hs&->)]; [split; [done|left; eauto]|].
        rewrite lookup_delete_ne in Hs by done. split; [|right; eauto]. intros ->. by eapply Hnochunk.
      * intros (Hne&[(o&?&->)|(k&Hk&Hs&->)]); [left; eauto|right]. exists k.
        assert (y ≠ b) by congruence. rewrite !lookup_delete_ne by done. done.
Qed.

Lemma wp_kfree_chunk s V S x k n :
  minv s V S → live V !! x = Some k → S !! x = None → ref_field V !! pfn x = Some n → 1 ≤ n < 2 ^ 31 →
  x ∉ home_addrs (rpf s) →
  wp (kfree x) (λ _ s', ∃ V', minv s' V' S ∧ locked s' = locked s ∧ rpf s' = rpf s ∧
    (∀ y m, block V' S y m ↔ ¬ (n = 1 ∧ y = x) ∧ block V S y m) ∧ ref_field V' !! pfn x = Some (n - 1) ∧
    extents V' = extents V ∧ (∀ y m, live V' !! y = Some m ↔ ¬ (n = 1 ∧ y = x) ∧ live V !! y = Some m) ∧
    (∀ y m, live V !! y = Some m → y ≠ x → ref_field V' !! pfn y = ref_field V !! pfn y)) s.
Proof.
  intros Hm Hk Hs Hr Hn Hx. pose proof Hm as [[HI [Hg Hmid Hnd Hh]] Hu].
  eapply wp_mono; [eapply (wp_kfree_pages s V x k n); [apply HI|done|by eapply plain_chunk|done|lia]|].
  intros [] s' (p&->&Hp). set (V' := with_ref _ _) in Hp. exists V'.
  assert (∀ y m, live V' !! y = Some m ↔ ¬ (n = 1 ∧ y = x) ∧ live V !! y = Some m) as Hl.
  { intros y m. simpl. case_bool_decide as E; [rewrite lookup_delete_Some|]; naive_solver. }
  assert (∀ y m, live V !! y = Some m → y ≠ x → ref_field V' !! pfn y = ref_field V !! pfn y) as Href.
  { intros y m Hy Hne. simpl. rewrite lookup_insert_ne; [done|]. intros E. apply Hne. symmetry.
    by eapply (live_pfn_inj _ V x k y m (s_phys _ _ _ _ HI)). }
  split_and!; [split; [split|done]|done|done| | |by destruct (bool_decide (n = 1))|done|done].
  - eapply sinv_view; [done|done|done|]. intros a i Ha. apply option_eq. intros m. rewrite Hl. split; [by intros [_ ?]|].
    intros ?. split; [|done]. intros [_ ->]. congruence.
  - split; try done. intros y Hy. destruct (Hh y Hy) as (H1&H2&H3). assert (y ≠ x) as Hne by (by intros ->). split_and!.
    + apply Hl. split; [|done]. by intros [_ ->].
    + done.
    + by rewrite (Href y 0).
  - intros y m. unfold block. setoid_rewrite Hl. split.
    + intros [(o&Ho&->)|(k'&[? ?]&?&->)]; [|split; [done|right; eauto]]. split; [|left; eauto]. intros [_ ->].
      by eapply object_not_chunk.
    + intros (?&[(o&?&->)|(k'&?&?&->)]); [left; eauto|right; eauto].
  - simpl. by rewrite lookup_insert_eq.
Qed.
End kmalloc.
