(* ===== verification/KmallocTheorems.v ===== *)
(** What the DRAM allocator guarantees: initialisation, [dram_kmalloc], [kfree] and the statistics, over the
    buddy pools of DramPages.v. *)
From S2P Require Import Prelude Words ListHead Buddy BuddyProofs BuddySpec BuddyTheorems PageLayer DramPages.
From S2P Require Import RemoteFree RemoteFreeProofs RemoteFreeTheorems Slab SlabProofs KmallocProofs.

(** ** Counting free objects *)

Section count.
Context {P : Type} `{PageLayerSpec P}.
Implicit Types (s : mem P) (V : pages_view) (S : slabs).

(** The free objects of slab [a]. *)
Definition free_of S (a : Z) : list Z := match S !! a with Some i => si_free i | None => [] end.

Lemma wp_count_slots fuel y l n (Q : Z → mem P → Prop) s :
  fchain (next_free s) y l → (length l < fuel)%nat → (∀ z, z ∈ l → z ≠ 0) →
  Q (n + Z.of_nat (length l)) s → wp (count_slots fuel y n) Q s.
Proof.
  revert y l n. induction fuel as [|fuel IH]; intros y l n Hc Hf Hnz HQ; [lia|]. cbn [count_slots].
  destruct l as [|w l]; simpl in Hc.
  { subst y. rewrite bool_decide_eq_true_2 by done. wp_seq. by rewrite Z.add_0_r in HQ. }
  destruct Hc as (->&v&Hv&Hc). rewrite (bool_decide_eq_false_2 (w = 0)) by (apply Hnz; by left).
  wp_seq. unfold read_slot. wp_seq. eapply wp_from_opt; [done|]. eapply IH; [done|simpl in Hf; lia| |].
  - intros z Hz. apply Hnz. by right.
  - simpl in HQ. by replace (n + 1 + Z.of_nat (length l)) with (n + Z.of_nat (S (length l))) by lia.
Qed.

Lemma wp_count_slab s V S Av a n (Q : Z * Z → mem P → Prop) :
  sinv s V S Av → is_Some (S !! a) →
  Q (n.1 + Z.of_nat (length (free_of S a)), n.2 + Z.of_nat (length (free_of S a))) s → wp (count_slab a n) Q s.
Proof.
  intros HI [i Ha] HQ. unfold free_of in HQ. rewrite Ha in HQ. pose proof (s_slab _ _ _ _ HI _ _ Ha) as Hok.
  destruct (so_header _ _ _ _ Hok) as (hd&Hh&Hc). unfold count_slab. wp_seq. eapply wp_read_header; [done|]. wp_seq.
  cbn [header_of free_list_head]. eapply wp_count_slots; [done| | |by wp_seq].
  - pose proof (fchain_size _ _ _ Hc (so_nodup _ _ _ _ Hok)). lia.
  - intros z Hz. destruct (slot_page _ _ _ _ _ _ _ HI Ha (so_slots _ _ _ _ Hok z Hz)) as (?&_). lia.
Qed.

(** The number of free objects of a list of slabs. *)
Definition free_total S (l : list Z) : Z := Z.of_nat (length (concat (free_of S <$> l))).

Lemma free_total_cons S a l : free_total S (a :: l) = Z.of_nat (length (free_of S a)) + free_total S l.
Proof. unfold free_total. rewrite fmap_cons. cbn [concat]. rewrite length_app. lia. Qed.

Lemma free_total_app S l1 l2 : free_total S (l1 ++ l2) = free_total S l1 + free_total S l2.
Proof. induction l1 as [|a l1 IH]; [done|]. rewrite <-app_comm_cons, !free_total_cons, IH. lia. Qed.

Lemma wp_count_partial fuel s V S Av W cpu o l1 l2 n (Q : Z * Z → mem P → Prop) :
  sinv s V S Av → Rep (nodes s) W → W !! PartialHead cpu o = Some (SlabNode <$> (l1 ++ l2)) →
  (∀ a, a ∈ l2 → is_Some (S !! a)) → (length l2 < fuel)%nat →
  Q (n.1 + free_total S l2, n.2 + free_total S l2) s →
  wp (count_partial fuel cpu o (default (PartialHead cpu o) (head (SlabNode <$> l2))) n) Q s.
Proof.
  intros HI HR HW. revert l1 l2 n HW. induction fuel as [|fuel IH]; intros l1 l2 n HW Hin Hf HQ; [lia|]. cbn [count_partial].
  destruct l2 as [|a l2].
  { change (default _ _) with (PartialHead cpu o). rewrite bool_decide_eq_true_2 by done. wp_seq. unfold free_total in HQ. simpl in HQ. rewrite !Z.add_0_r in HQ. by destruct n. }
  change (default _ _) with (SlabNode a). rewrite bool_decide_eq_false_2 by done.
  wp_seq. eapply wp_count_slab; [done|apply Hin; by left|]. wp_seq. eapply wp_node_read.
  { eapply (rd_next_node_rep _ W (PartialHead cpu o) (SlabNode <$> l1) (SlabNode a) (SlabNode <$> l2)); [done|].
    by rewrite HW, fmap_app. }
  rewrite free_total_cons in HQ. apply (IH (l1 ++ [a]) l2).
  - rewrite HW. by rewrite <-app_assoc.
  - intros b Hb. apply Hin. by right.
  - simpl in Hf. lia.
  - simpl. by rewrite <-!Z.add_assoc.
Qed.

Lemma wp_count_cpus k s V S cpu o n :
  sinv s V S (avail S) → in_orders o → 0 ≤ cpu → cpu + Z.of_nat k ≤ PLAT_CPU_NUM → unlocked s →
  wp (count_cpus k cpu o n) (λ r s', s' = s ∧ ∃ l, NoDup l ∧ r = (n.1 + free_total S l, n.2 + free_total S l) ∧
    ∀ a, a ∈ l ↔ ∃ cpu', cpu ≤ cpu' < cpu + Z.of_nat k ∧ avail S cpu' o a) s.
Proof.
  intros HI Ho. revert cpu n. induction k as [|k IH]; intros cpu n Hc Hk Hl; cbn [count_cpus].
  { wp_seq. split; [done|]. exists []. split_and!; [constructor|destruct n; unfold free_total; simpl; f_equal; lia|].
    intros a. split; [by intros ?%elem_of_nil|]. intros (c&?&_). lia. }
  assert (in_range cpu o) as Hr by (split; [lia|done]). wp_seq. apply wp_lock_slab; [by apply Hl|].
  set (s1 := set_locked _ s). assert (sinv s1 V S (avail S)) as HI1 by (by apply sinv_locked).
  destruct (s_lists _ _ _ _ HI1) as [W HL]. destruct (lv_pool _ _ _ _ HL cpu o Hr) as (cur&ps&Hcur&Hps&Hnd&Hav).
  assert (∀ a, a ∈ option_list cur ++ ps → is_Some (S !! a)) as Hin by (intros a (i&?&_)%Hav; by eexists).
  wp_seq. eapply wp_get_current; [exact Hcur|]. wp_seq.
  assert (∀ (Q : Z * Z → mem P → Prop), Q (n.1 + free_total S (option_list cur), n.2 + free_total S (option_list cur)) s1 →
    wp (match cur with Some slab => count_slab slab n | None => mret n end) Q s1) as Hfirst.
  { intros Q HQ. destruct cur as [a|].
    - eapply wp_count_slab; [done|apply Hin; by left|]. simpl in HQ. rewrite free_total_cons in HQ. unfold free_total in HQ. simpl in HQ.
      by rewrite !Z.add_0_r in HQ.
    - wp_seq. unfold free_total in HQ. simpl in HQ. rewrite !Z.add_0_r in HQ. by destruct n. }
  apply Hfirst. wp_seq. pose proof (lv_rep _ _ _ _ HL) as HR.
  eapply wp_node_read; [by apply (list_empty_rep _ W)|]. set (n1 := (_, _)).
  assert (∀ (Q : Z * Z → mem P → Prop), Q (n1.1 + free_total S ps, n1.2 + free_total S ps) s1 →
    wp (if bool_decide (SlabNode <$> ps = []) then mret n1 else
          first ← node_read (λ h, rd_next h (PartialHead cpu o)); s' ← get_state;
          count_partial (Datatypes.S (size (nodes s'))) cpu o first n1) Q s1) as Hrest.
  { intros Q HQ. case_bool_decide as He.
    - destruct ps; [|done]. wp_seq. unfold free_total in HQ. simpl in HQ. rewrite !Z.add_0_r in HQ. done.
    - wp_seq. eapply wp_node_read; [by apply (rd_next_rep _ W)|]. wp_seq.
      eapply (wp_count_partial _ s1 V S (avail S) W cpu o [] ps); try done.
      + intros a Ha. apply Hin, elem_of_app. by right.
      + apply NoDup_app in Hnd as (_&_&Hnd).
        assert ((length (SlabNode <$> ps) ≤ size (nodes s1))%nat); [|by rewrite length_fmap in *; lia].
        rewrite <-size_dom, <-(size_list_to_set (C := gset snode) (SlabNode <$> ps)) by (by apply NoDup_fmap_2; [apply _|]).
        apply subseteq_size. intros x Hx%elem_of_list_to_set. apply elem_of_dom. by eapply rep_node. }
  wp_seq. apply Hrest. wp_seq. unfold unlock_slab. wp_seq.
  assert (set_locked (locked s1 ∖ {[(cpu, o)]}) s1 = s) as ->.
  { unfold s1. simpl. rewrite unlock_lock by (by apply Hl). by destruct s. }
  eapply wp_mono; [apply IH; [lia|lia|done]|]. intros r s' (->&l&Hndl&->&Hal). split; [done|].
  exists ((option_list cur ++ ps) ++ l). split_and!.
  - apply NoDup_app. split_and!; [done| |done]. intros a Ha1%Hav (c&?&Ha2)%Hal. destruct (avail_fun _ _ _ _ _ _ Ha1 Ha2). lia.
  - unfold n1. simpl. rewrite !free_total_app. f_equal; lia.
  - intros a. rewrite elem_of_app, Hav, Hal. split.
    + intros [?|(c&?&?)]; [exists cpu|exists c]; (split; [lia|done]).
    + intros (c&?&?). destruct (decide (c = cpu)) as [->|]; [by left|right]. exists c. split; [lia|done].
Qed.
End count.

(** ** Initialisation *)

Section init.
Context {P : Type} `{PageLayerSpec P}.
Implicit Types (s : mem P) (V : pages_view).

(** The pools of the first CPUs, and of [cpu] below order [ord], are ready. *)
Definition done_upto (cpu ord c o : Z) : Prop := in_orders o ∧ 0 ≤ c ∧ (c < cpu ∨ (c = cpu ∧ o < ord)).

Definition init_upto s0 (cpu ord : Z) s : Prop :=
  rpf s = rpf s0 ∧ phys s = phys s0 ∧ dom (nodes s) = dom (nodes s0) ∧
  (∀ c o, done_upto cpu ord c o → current_slab s !! (c, o) = Some None ∧ (c, o) ∉ locked s) ∧
  ∃ W, Rep (nodes s) W ∧ (∀ c o, done_upto cpu ord c o → W !! PartialHead c o = Some []) ∧
    ∀ hd xs, W !! hd = Some xs → ∃ c o, done_upto cpu ord c o ∧ hd = PartialHead c o ∧ xs = [].

Lemma wp_init_one s0 s cpu ord :
  init_upto s0 cpu ord s → 0 ≤ cpu → in_orders ord → is_Some (nodes s0 !! PartialHead cpu ord) →
  wp (modify (λ s, set_locked (locked s ∖ {[(cpu, ord)]}) s);;
      modify (λ s, set_current_slab (<[(cpu, ord) := None]> (current_slab s)) s);;
      node_op (init_list_head (PartialHead cpu ord))) (λ _ s', init_upto s0 cpu (ord + 1) s') s.
Proof.
  intros (Er&Ep&Ed&Hcur&W&HR&HW&Honly) Hc Ho Hn. wp_seq.
  assert (∀ c o, done_upto cpu (ord + 1) c o ↔ done_upto cpu ord c o ∨ (c = cpu ∧ o = ord)) as Hdone.
  { intros c o. unfold done_upto. split; [|intros [?|[-> ->]]; [|split_and!; [apply Ho..|lia|right; lia]]; destruct_and!; split_and!; lia || done].
    intros (?&?&?). destruct (decide (c = cpu ∧ o = ord)) as [?|]; [by right|left]. split_and!; [done|lia|lia]. }
  destruct (init_list_head_rep (nodes s) W (PartialHead cpu ord) HR) as (h&Hi&Hd&HR'&_).
  { by rewrite <-elem_of_dom, Ed, elem_of_dom. }
  { intros (hd&xs&Hx&Hin). destruct (Honly _ _ Hx) as (c&o&Hdn&->&->). apply list_elem_of_singleton in Hin. injection Hin as -> ->.
    unfold done_upto in Hdn. lia. }
  eapply wp_node_op; [exact Hi|]. split_and!; simpl; [done|done|by rewrite Hd| |].
  - intros c o Hdn. apply Hdone in Hdn as [Hdn|[-> ->]]; [|split; [apply lookup_insert_eq|set_solver]].
    destruct (Hcur c o Hdn) as [? ?]. split; [|set_solver]. rewrite lookup_insert_ne; [done|]. intros [= <- <-]. unfold done_upto in Hdn. lia.
  - eexists. split_and!; [exact HR'| |].
    + intros c o Hdn. apply Hdone in Hdn as [Hdn|[-> ->]]; [|apply lookup_insert_eq].
      rewrite lookup_insert_ne; [by apply HW|]. intros [= <- <-]. unfold done_upto in Hdn. lia.
    + intros hd xs [[<- <-]|[_ Hx]]%lookup_insert_Some.
      * exists cpu, ord. split_and!; [|done..]. apply Hdone. by right.
      * destruct (Honly _ _ Hx) as (c&o&?&->&->). exists c, o. split_and!; [|done..]. apply Hdone. by left.
Qed.

Lemma wp_init_dram_slab s V :
  pl_inv (phys s) V → (∀ n v, slab_field V !! n = Some v → v = 0) →
  (∀ cpu o, in_range cpu o → is_Some (nodes s !! PartialHead cpu o)) →
  wp init_dram_slab (λ _ s', sinv s' V ∅ (avail ∅) ∧ unlocked s' ∧ rpf s' = rpf s) s.
Proof.
  intros Hp Hz Hn. unfold init_dram_slab. eapply wp_mono.
  { apply (wp_for_up (λ cpu s', init_upto s cpu SLAB_MIN_ORDER s')).
    - split_and!; try done; [intros c o Hd; unfold done_upto, in_orders in Hd; lia|]. exists ∅. split_and!; [apply rep_empty| |done].
      intros c o Hd. unfold done_upto, in_orders in Hd. lia.
    - intros cpu s1 Hcpu HI. change (Z.of_nat (Z.to_nat PLAT_CPU_NUM)) with PLAT_CPU_NUM in Hcpu.
      eapply wp_mono; [apply (wp_for_up (λ ord s', init_upto s cpu ord s')); [exact HI|]|].
      + intros ord s2 Hord HI2. change (Z.of_nat (Z.to_nat (SLAB_MAX_ORDER + 1 - SLAB_MIN_ORDER))) with 7 in Hord.
        assert (in_orders ord) by (unfold in_orders, SLAB_MIN_ORDER, SLAB_MAX_ORDER in *; lia).
        apply wp_init_one; [done|lia|done|]. apply Hn. by split.
      + intros [] s2. change (SLAB_MIN_ORDER + Z.of_nat (Z.to_nat (SLAB_MAX_ORDER + 1 - SLAB_MIN_ORDER))) with 12.
        assert (∀ c o, done_upto cpu 12 c o ↔ done_upto (cpu + 1) SLAB_MIN_ORDER c o) as He.
        { intros c o. unfold done_upto, in_orders, SLAB_MIN_ORDER, SLAB_MAX_ORDER. lia. }
        intros (?&?&?&Hcur&W&HR&HW&Ho). split_and!; try done; [intros c o Hd; by apply Hcur, He|].
        exists W. split_and!; [done|intros c o Hd; by apply HW, He|]. intros hd xs Hx. destruct (Ho _ _ Hx) as (c&o&?&?&?).
        exists c, o. split_and!; [by apply He|done..]. }
  intros [] s' (Er&Ep&Ed&Hcur&W&HR&HW&Ho). change (0 + Z.of_nat (Z.to_nat PLAT_CPU_NUM)) with PLAT_CPU_NUM in *.
  assert (∀ c o, in_range c o ↔ done_upto PLAT_CPU_NUM SLAB_MIN_ORDER c o) as Hd.
  { intros c o. unfold in_range, done_upto, in_orders, SLAB_MIN_ORDER, SLAB_MAX_ORDER. lia. }
  split_and!; [|intros c o Hr; by apply Hcur, Hd|done]. split.
  - by rewrite Ep.
  - done.
  - intros n v Hv Hne. by destruct Hne; eapply Hz.
  - exists W. split; [done| |].
    + intros c o Hr. exists None, []. split_and!; [by apply Hcur, Hd|by apply HW, Hd|constructor|].
      intros a. simpl. split; [by intros ?%elem_of_nil|]. by intros (i&?&_).
    + intros hd xs Hx. destruct (Ho _ _ Hx) as (c&o&?&->&_). exists c, o. split; [by apply Hd|done].
Qed.
End init.

(** ** Theorems *)

Section theorems.
Context (dsm_cxl_free_page free_in_cxl_slab free_in_temp_slab : Z → M (mem pools) unit) (detect : bool).
Context (c : rpf_config) (mid : Z).
Implicit Types (s : mem pools) (V : pages_view) (S : slabs) (x y : Z).

Lemma wp_init_minv s V :
  dram_inv (phys s) V → live V = ∅ → (∀ n v, slab_field V !! n = Some v → v = 0) →
  (∀ cpu o, in_range cpu o → is_Some (nodes s !! PartialHead cpu o)) →
  good c (rpf s) → is_Some (locals (rpf s) !! mid) → flight (batches (rpf s)) = [] →
  wp init_dram_slab (λ _ s', minv c mid s' V ∅ ∧ unlocked s' ∧ rpf s' = rpf s ∧ ∀ x n, ¬ block V ∅ x n) s.
Proof.
  intros Hd Hl Hz Hn Hg Hm Hf. eapply wp_mono; [by apply (wp_init_dram_slab s V)|]. intros [] s' (HI&Hu&Er).
  assert (home_addrs c mid (rpf s') = []) as He by (unfold home_addrs, home_pages; by rewrite Er, Hf).
  split_and!; [|done|done|].
  - split; [|done]. split; [done|]. split; [by rewrite Er..| |]; rewrite He; [constructor|]. by intros x ?%elem_of_nil.
  - intros x n [(o&(b&i&?&_)&_)|(k&Hk&_)]; [done|]. by rewrite Hl in Hk.
Qed.

(** C3: [dram_kmalloc] on the buddy pools of a machine, slabs and remote release included.  If no slab lock is held it
    returns without reaching a bad access, an endless loop or its own lock; the only [BUG] it can reach is the
    one for lack of memory, and then no pool had a free chunk of the order it needed.  The block it returns has at least
    the size asked for and overlaps no block in use; the blocks in use stay in use, except for pages that another
    machine had given back. *)
Theorem dram_kmalloc_correct s V S cpu size :
  minv c mid s V S → unlocked s → 0 ≤ cpu < PLAT_CPU_NUM → 0 < size ≤ 2 ^ 31 →
  match dram_kmalloc dsm_cxl_free_page free_in_cxl_slab free_in_temp_slab detect c mid cpu size s with
  | Ret (x, s') => ∃ sz V' S', size ≤ sz ∧ x ≠ 0 ∧ malloced c mid s V S x sz s' V' S' ∧
      ∀ y n, block V S y n → y ∉ home_addrs c mid (rpf s) → y + n ≤ x ∨ x + sz ≤ y
  | Halt w => w = BugHit ∧ ∃ ord, 0 ≤ ord < BUDDY_MAX_ORDER ∧ no_chunk (P := pools) V ord
  end.
Proof.
  intros Hm Hu Hc Hs.
  pose proof (dram_kmalloc_spec dsm_cxl_free_page free_in_cxl_slab free_in_temp_slab detect c mid s V S cpu size Hm Hu Hc Hs) as HR.
  destruct (dram_kmalloc _ _ _ _ _ _ _ _ _) as [[x s']|w]; [|done].
  destruct HR as (sz&V'&S'&?&_&?&HM). exists sz, V', S'. split_and!; [done..|]. intros y n Hy Hh.
  destruct (ml_keep _ _ _ _ _ _ _ _ _ _ HM y n Hy Hh) as [Hy' Hne]. pose proof (ml_new _ _ _ _ _ _ _ _ _ _ HM) as Hx'.
  destruct (decide (x < y + n ∧ y < x + sz)) as [[? ?]|]; [|lia]. destruct (ml_inv _ _ _ _ _ _ _ _ _ _ HM) as [[HI' _] _].
  destruct (block_disj _ _ _ _ _ _ _ _ HI' Hx' Hy') as [? _]; [done..|]. congruence.
Qed.

(** C4: [kfree] of a block in use, an object or a chunk of pages with one reference, returns without reaching a [BUG],
    a bad access or its own lock, and takes exactly that block out of use. *)
Theorem kfree_correct s V S x sz :
  minv c mid s V S → unlocked s → block V S x sz → x ∉ home_addrs c mid (rpf s) →
  (S !! x = None → is_Some (live V !! x) → ref_field V !! pfn x = Some 1) →
  wp (kfree dsm_cxl_free_page free_in_cxl_slab free_in_temp_slab detect x) (λ _ s', ∃ V' S',
    minv c mid s' V' S' ∧ unlocked s' ∧ rpf s' = rpf s ∧ ∀ y n, block V' S' y n ↔ y ≠ x ∧ block V S y n) s.
Proof.
  intros Hm Hu [(o&Ho&->)|(k&Hk&Hn&->)] Hh Hr.
  - eapply wp_mono; [by eapply wp_kfree_object|]. intros [] s' (V'&S'&?&El&?&?). exists V', S'. split_and!; try done.
    intros cpu o' ?. rewrite El. by apply Hu.
  - eapply wp_mono; [eapply (wp_kfree_chunk _ _ _ _ c mid s V S x k 1); try done; apply Hr; [done|by eexists]|].
    intros [] s' (V'&?&El&?&Hb&_). exists V', S. split_and!; try done.
    + intros cpu o' ?. rewrite El. by apply Hu.
    + intros y n. rewrite Hb. naive_solver.
Qed.

(** [dram_get_free_slot_number] does not reach its [BUG_ON] (the counters of the slabs agree with their free lists) and
    returns the number of free objects of that order on all CPUs. *)
Theorem dram_get_free_slot_number_correct s V S o :
  minv c mid s V S → unlocked s → in_orders o →
  wp (dram_get_free_slot_number o) (λ n s', s' = s ∧ ∃ l, NoDup l ∧ n = Z.of_nat (length l) ∧
    ∀ x, x ∈ l ↔ ∃ b i, S !! b = Some i ∧ si_ord i = o ∧ x ∈ si_free i) s.
Proof.
  intros [[HI _] _] Hu Ho. unfold dram_get_free_slot_number. wp_seq.
  eapply wp_mono; [by apply (wp_count_cpus (Z.to_nat PLAT_CPU_NUM) s V S 0 o)|].
  intros r s' (->&l&Hnd&->&Hal). wp_seq. apply wp_bug_on; [simpl; by rewrite bool_decide_eq_true_2|]. wp_seq. split; [done|].
  change (0 + Z.of_nat (Z.to_nat PLAT_CPU_NUM)) with PLAT_CPU_NUM in Hal.
  exists (concat (free_of S <$> l)). split_and!.
  - apply NoDup_concat_fmap; [done| |].
    + intros a (c'&_&i&Ha&_)%Hal. unfold free_of. rewrite Ha. apply (s_slab _ _ _ _ HI _ _ Ha).
    + intros a b x (c1&_&i&Ha&_)%Hal (c2&_&j&Hb&_)%Hal. unfold free_of. rewrite Ha, Hb. intros Hx Hy.
      apply (slot_other _ _ _ _ a i b j x HI Ha Hb);
        [by apply (so_slots _ _ _ _ (s_slab _ _ _ _ HI _ _ Ha))|by apply (so_slots _ _ _ _ (s_slab _ _ _ _ HI _ _ Hb))].
  - done.
  - intros x. rewrite elem_of_concat_fmap. split.
    + intros (a&(c'&_&i&Ha&_&Eo&_)%Hal&Hx). unfold free_of in Hx. rewrite Ha in Hx. by exists a, i.
    + intros (b&i&Hb&<-&Hx). exists b. unfold free_of. rewrite Hb. split; [|done]. apply Hal. exists (si_cpu i).
      pose proof (so_range _ _ _ _ (s_slab _ _ _ _ HI _ _ Hb)) as [? _]. split; [done|]. exists i. split_and!; try done.
      intros E. rewrite E in Hx. by apply elem_of_nil in Hx.
Qed.

(** with double-free detection on, freeing an object that is already free stops at the [BUG]. *)
Theorem slab_double_free_detected s V S b i x :
  minv c mid s V S → unlocked s → S !! b = Some i → x ∈ si_free i →
  free_in_dram_slab dsm_cxl_free_page true x s = Halt BugHit.
Proof.
  intros [[HI _] _] Hu Hb Hx. pose proof (s_slab _ _ _ _ HI _ _ Hb) as Hok. pose proof (so_range _ _ _ _ Hok) as Hr.
  destruct (slot_page _ _ _ _ _ _ _ HI Hb (so_slots _ _ _ _ Hok x Hx)) as (?&Hp&_). destruct (so_header _ _ _ _ Hok) as (hd&Hh&_).
  unfold free_in_dram_slab. apply halt_bind. apply wp_on_phys.
  eapply wp_mono; [eapply pl_slab_spec; [apply HI|lia|by apply (so_pages _ _ _ _ Hok)]|]. intros ? ? [-> ->].
  replace (set_phys (phys s) s) with s by (by destruct s). apply halt_bind. eapply wp_read_header; [done|].
  apply halt_bind, wp_bug_on; [apply bool_decide_eq_false_2; simpl; destruct Hr; lia|].
  apply halt_bind, wp_lock_slab; [by apply Hu|]. set (s1 := set_locked _ s).
  assert (sinv s1 V S (avail S)) as HI1 by (by apply sinv_locked).
  apply halt_bind. eapply wp_try_insert; [done|done|]. intros h HI2. apply halt_bind_l. apply halt_bind.
  eapply wp_check_slot_is_free; [done|done|]. by rewrite bool_decide_eq_true_2.
Qed.
(** bring-up.  On pools with nothing handed out and clear page fields, with no page on its way from another
    machine, [init_dram_slab] establishes the invariant of the allocator with no slab, no block in use and no lock held. *)
Theorem init_dram_slab_correct s V :
  dram_inv (phys s) V → live V = ∅ → (∀ n v, slab_field V !! n = Some v → v = 0) →
  (∀ cpu o, in_range cpu o → is_Some (nodes s !! PartialHead cpu o)) →
  good c (rpf s) → is_Some (locals (rpf s) !! mid) → flight (batches (rpf s)) = [] →
  wp init_dram_slab (λ _ s', minv c mid s' V ∅ ∧ unlocked s' ∧ rpf s' = rpf s ∧ ∀ x n, ¬ block V ∅ x n) s.
Proof.
  apply wp_init_minv.
Qed.
End theorems.

(** ** Witnesses: a machine with one pool *)

(** The other allocators, which own no page here. *)
Definition elsewhere : Z → M (mem pools) unit := λ _, halt BugHit.

Definition boot_cluster : cluster :=
  let r := cold two_machines {[0 := 5; 1 := 2 ^ 50]} in
  match boot (machines two_machines) r with Ret (_, r') => r' | Halt _ => r end.

Definition partial_heads : gmap snode (list_head snode) :=
  list_to_map (cpu ← seqZ 0 PLAT_CPU_NUM; o ← seqZ SLAB_MIN_ORDER 7; [(PartialHead cpu o, ListNode SNull SNull)]).

(** A pool of [N] pages at the page number [b]. *)
Definition boot_pool (b N : Z) : phys_mem_pool :=
  match init_buddy (b * BUDDY_PAGE_SIZE) N DRAM_PAGE raw_pool with Ret (_, p) => p | Halt _ => raw_pool end.

Definition booted (b N : Z) : mem pools :=
  let s := Mem boot_cluster [boot_pool b N] ∅ partial_heads ∅ ∅ ∅ in
  match init_dram_slab s with Ret (_, s') => s' | Halt _ => s end.

Lemma boot_cluster_good : good two_machines boot_cluster ∧ is_Some (locals boot_cluster !! 0) ∧ flight (batches boot_cluster) = [].
Proof.
  assert (booting two_machines (cold two_machines {[0 := 5; 1 := 2 ^ 50]}) 0) as HB.
  { apply cold_booting. intros o Ho. change (CLUSTER_MACHINE_NUM two_machines) with 2 in Ho.
    assert (o = 0 ∨ o = 1) as [-> | ->] by lia; by eexists. }
  destruct (wp_inv _ _ _ (wp_boot two_machines 2 _ 0 ltac:(lia) eq_refl HB)) as ([]&r&Hr&HB').
  unfold boot_cluster. change (machines two_machines) with (seqZ 0 (Z.of_nat 2)). rewrite Hr.
  split; [by apply booted_good; [vm_compute|]|]. destruct HB' as (Hb&_&_&Hm&_). rewrite Hb. split; [by apply Hm|done].
Qed.

Lemma partial_heads_ready cpu o : in_range cpu o → is_Some (partial_heads !! PartialHead cpu o).
Proof.
  intros (?&?&?). assert (forallb (λ x, bool_decide (is_Some (partial_heads !! PartialHead x.1 x.2)))
    (cpu ← seqZ 0 PLAT_CPU_NUM; o ← seqZ SLAB_MIN_ORDER 7; [(cpu, o)]) = true) as Hall by (by vm_compute).
  rewrite forallb_forall in Hall. eapply bool_decide_eq_true_1, (Hall (cpu, o)), list_elem_of_In.
  apply list_elem_of_bind. exists cpu. split; [|apply elem_of_seqZ; lia]. apply list_elem_of_bind. exists o.
  split; [by left|]. apply elem_of_seqZ. unfold SLAB_MAX_ORDER, SLAB_MIN_ORDER in *. lia.
Qed.

Lemma boot_pool_ok b N : 0 < b → 0 ≤ N → (b + N + 2 ^ 19) * BUDDY_PAGE_SIZE ≤ 2 ^ 64 → dram_inv [boot_pool b N] (fresh_view b N).
Proof.
  intros Hb HN Ht. pose proof (wp_init_pool raw_pool b N Hb HN Ht raw_pool_heads) as (u&p&Hp&Hd)%wp_inv. unfold boot_pool. by rewrite Hp.
Qed.

Lemma fresh_view_zero b N n v : slab_field (fresh_view b N) !! n = Some v → v = 0.
Proof. by intros [_ ?]%fresh_view_lookup. Qed.

Lemma booted_ok b N : 0 < b → 0 ≤ N → (b + N + 2 ^ 19) * BUDDY_PAGE_SIZE ≤ 2 ^ 64 →
  minv two_machines 0 (booted b N) (fresh_view b N) ∅ ∧ unlocked (booted b N) ∧ rpf (booted b N) = boot_cluster ∧
  ∀ x n, ¬ block (fresh_view b N) ∅ x n.
Proof.
  intros Hb HN Ht. destruct boot_cluster_good as (?&?&?).
  destruct (wp_inv _ _ _ (wp_init_minv two_machines 0 (Mem boot_cluster [boot_pool b N] ∅ partial_heads ∅ ∅ ∅)
    (fresh_view b N) (boot_pool_ok b N Hb HN Ht) eq_refl (fresh_view_zero b N)
    partial_heads_ready ltac:(done) ltac:(done) ltac:(done))) as ([]&s&Hs&HI). unfold booted. by rewrite Hs.
Qed.

Lemma nothing_home r : flight (batches r) = [] → home_addrs two_machines 0 r = [].
Proof. unfold home_addrs, home_pages. by intros ->. Qed.

(** The first object: 2000 bytes on CPU 3. *)
Abbreviation malloc_2000 := (dram_kmalloc elsewhere elsewhere elsewhere true two_machines 0 3 2000).

Lemma malloc_2000_address : ∃ s, malloc_2000 (booted (2 ^ 20) 512) = Ret (2 ^ 32 + 2048, s).
Proof.
  assert (match malloc_2000 (booted (2 ^ 20) 512) with Ret (x, _) => x | Halt _ => 0 end = 2 ^ 32 + 2048) as Hx by (vm_compute; reflexivity).
  destruct (malloc_2000 (booted (2 ^ 20) 512)) as [[x s]|]; [|discriminate Hx]. subst x. by exists s.
Qed.

Lemma first_object : ∃ s V S sz, malloc_2000 (booted (2 ^ 20) 512) = Ret (2 ^ 32 + 2048, s) ∧
  minv two_machines 0 s V S ∧ unlocked s ∧ home_addrs two_machines 0 (rpf s) = [] ∧
  block V S (2 ^ 32 + 2048) sz ∧ (S !! (2 ^ 32 + 2048) = None → is_Some (live V !! (2 ^ 32 + 2048)) →
    ref_field V !! pfn (2 ^ 32 + 2048) = Some 1) ∧ ∀ y n, block V S y n → y = 2 ^ 32 + 2048.
Proof.
  destruct malloc_2000_address as [s Hs]. destruct (booted_ok (2 ^ 20) 512 ltac:(lia) ltac:(lia) ltac:(unfold BUDDY_PAGE_SIZE; lia)) as (Hm&Hu&Hr&Hno).
  destruct boot_cluster_good as (_&_&Hf). revert Hs Hm Hu Hr. generalize (booted (2 ^ 20) 512) as s0. generalize (2 ^ 32 + 2048) as x.
  intros x s0 Hs Hm Hu Hr.
  pose proof (dram_kmalloc_spec elsewhere elsewhere elsewhere true two_machines 0 s0 _ _ 3 2000 Hm Hu ltac:(unfold PLAT_CPU_NUM; lia) ltac:(lia)) as HR.
  rewrite Hs in HR. destruct HR as (sz&V&S&_&_&_&HM). exists s, V, S, sz. split_and!.
  - done.
  - apply HM.
  - intros cpu o Ho. rewrite (ml_locked _ _ _ _ _ _ _ _ _ _ HM). by apply Hu.
  - apply elem_of_nil_inv. intros y Hy%(ml_home _ _ _ _ _ _ _ _ _ _ HM). rewrite Hr, nothing_home in Hy by done. by apply elem_of_nil in Hy.
  - apply HM.
  - apply HM.
  - intros y n [[? _]|Hy]%(ml_only _ _ _ _ _ _ _ _ _ _ HM); [done|by destruct (Hno y n)].
Qed.

Lemma init_dram_slab_correct_witness :
  wp init_dram_slab (λ _ s', ∃ V, minv two_machines 0 s' V ∅ ∧ unlocked s')
    (Mem boot_cluster [boot_pool (2 ^ 20) 512] ∅ partial_heads ∅ ∅ ∅).
Proof.
  destruct boot_cluster_good as (Hg&Hm&Hf).
  eapply wp_mono; [exact (init_dram_slab_correct two_machines 0 (Mem boot_cluster [boot_pool (2 ^ 20) 512] ∅ partial_heads ∅ ∅ ∅)
    (fresh_view (2 ^ 20) 512) (boot_pool_ok (2 ^ 20) 512 ltac:(lia) ltac:(lia) ltac:(unfold BUDDY_PAGE_SIZE; lia)) eq_refl (fresh_view_zero (2 ^ 20) 512) partial_heads_ready Hg Hm Hf)|].
  intros [] s' (?&?&_). by exists (fresh_view (2 ^ 20) 512).
Defined.

Lemma dram_kmalloc_correct_witness :
  ∃ x s sz V S, malloc_2000 (booted (2 ^ 20) 512) = Ret (x, s) ∧ 2000 ≤ sz ∧ block V S x sz ∧ minv two_machines 0 s V S.
Proof.
  destruct (booted_ok (2 ^ 20) 512 ltac:(lia) ltac:(lia) ltac:(unfold BUDDY_PAGE_SIZE; lia)) as (Hm&Hu&_). destruct first_object as (s&_&_&_&Hs&_).
  pose proof (dram_kmalloc_correct elsewhere elsewhere elsewhere true two_machines 0 _ _ _ 3 2000 Hm Hu ltac:(unfold PLAT_CPU_NUM; lia) ltac:(lia)) as HR.
  rewrite Hs in HR. destruct HR as (sz&V&S&Hsz&_&[Hm' _ _ Hx _ _ _]&_).
  exists (2 ^ 32 + 2048), s, sz, V, S. exact (conj Hs (conj Hsz (conj Hx Hm'))).
Defined.

Lemma kfree_correct_witness :
  ∃ s V S, malloc_2000 (booted (2 ^ 20) 512) = Ret (2 ^ 32 + 2048, s) ∧ minv two_machines 0 s V S ∧
    wp (kfree elsewhere elsewhere elsewhere true (2 ^ 32 + 2048)) (λ _ s', ∃ V' S',
      minv two_machines 0 s' V' S' ∧ ∀ y n, ¬ block V' S' y n) s.
Proof.
  destruct first_object as (s&V&S&sz&Hs&Hm&Hu&Hh&Hb&Hr&Ho). exists s, V, S. split; [exact Hs|]. split; [exact Hm|].
  eapply wp_mono; [apply (kfree_correct elsewhere elsewhere elsewhere true two_machines 0 s V S _ sz Hm Hu Hb); [|exact Hr]|].
  - rewrite Hh. apply not_elem_of_nil.
  - intros [] s' (V'&S'&Hm'&_&_&Hb'). exists V', S'. split; [exact Hm'|]. intros y n [Hne Hy]%Hb'. exact (Hne (Ho y n Hy)).
Defined.

Lemma dram_get_free_slot_number_correct_witness :
  ∃ s V S, malloc_2000 (booted (2 ^ 20) 512) = Ret (2 ^ 32 + 2048, s) ∧ minv two_machines 0 s V S ∧
    wp (dram_get_free_slot_number 11) (λ _ s', s' = s) s.
Proof.
  destruct first_object as (s&V&S&sz&Hs&Hm&Hu&_). exists s, V, S. split; [exact Hs|]. split; [exact Hm|].
  eapply wp_mono; [apply (dram_get_free_slot_number_correct two_machines 0 s V S 11 Hm Hu); unfold in_orders, SLAB_MIN_ORDER, SLAB_MAX_ORDER; lia|].
  intros n s' [Hn _]. exact Hn.
Defined.

(** Beside the first object its slab has free ones. *)
Lemma first_slab s V S x sz :
  minv two_machines 0 s V S → block V S x sz → ¬ aligned x 12 → (∀ y n, block V S y n → y = x) →
  ∃ b i y, S !! b = Some i ∧ y ∈ si_free i.
Proof.
  intros [[HI _] _] [(o&(b&i&Hb&(j&Hj&Ex)&_&Eo)&_)|(k&Hk&_)] Hal Ho.
  - pose proof (so_range _ _ _ _ (s_slab _ _ _ _ HI _ _ Hb)) as [_ Hor]. destruct (slab_geometry _ Hor) as (_&?&_&?).
    set (j' := if decide (j = 0) then 1 else 0). set (y := slot_addr b (si_ord i) j'). exists b, i, y. split; [exact Hb|].
    assert (y ≠ x) as Hne.
    { rewrite Ex. unfold y, slot_addr. intros E. assert (j' = j); [nia|]. unfold j' in *. case_decide; lia. }
    destruct (decide (y ∈ si_free i)) as [?|Hn]; [assumption|]. destruct Hne. apply (Ho y (2 ^ si_ord i)). left.
    exists (si_ord i). split; [|reflexivity]. exists b, i. split; [exact Hb|]. split; [|split; [exact Hn|reflexivity]].
    exists j'. split; [|reflexivity]. unfold j'. case_decide; lia.
  - destruct Hal. destruct (pl_live _ _ _ _ (s_phys _ _ _ _ HI) Hk) as (?&_&Ha&_). unfold aligned in *.
    etrans; [|exact Ha]. exists (2 ^ k). rewrite Z.pow_add_r by lia. reflexivity.
Qed.

Lemma slab_double_free_detected_witness :
  ∃ s x, malloc_2000 (booted (2 ^ 20) 512) = Ret (2 ^ 32 + 2048, s) ∧ free_in_dram_slab elsewhere true x s = Halt BugHit.
Proof.
  destruct first_object as (s&V&S&sz&Hs&Hm&Hu&_&Hb&_&Ho).
  destruct (first_slab s V S _ sz Hm Hb) as (b&i&y&Hbi&Hy); [|exact Ho|].
  - intros [q Hq]. change (2 ^ 12) with 4096 in Hq. lia.
  - exists s, y. split; [exact Hs|]. exact (slab_double_free_detected elsewhere two_machines 0 s V S b i y Hm Hu Hbi Hy).
Defined.
