(* ===== verification/KmallocPages.v ===== *)
(** The DRAM allocator as the source of page tables: [get_dram_pages] and [kfree] keep the laws that PageTableProofs.v
    asks of its source of pages. *)
From S2P Require Import Prelude Words ListHead Buddy BuddyProofs PageLayer DramPages RemoteFree RemoteFreeProofs Slab.
From S2P Require Import SlabProofs KmallocProofs PageTable PageTableProofs.

(** A chunk handed out lies in a pool. *)
Lemma dram_live_extent s V a k : dram_inv s V → live V !! a = Some k →
  ∃ t, t ∈ extents V ∧ t.1 * BUDDY_PAGE_SIZE ≤ a ∧ a + 2 ^ k * BUDDY_PAGE_SIZE ≤ (t.1 + t.2) * BUDDY_PAGE_SIZE.
Proof.
  intros [Ts Hd] (j&t&i&Hj&Hi&->)%(d_live _ _ _ Hd). destruct (pool_at _ _ _ _ _ Hd Hj) as (p&_&Hok).
  destruct (chunk_in_pool _ _ _ _ _ Hok Hi) as (?&_&Hin&?). exists t.1. split.
  - rewrite <-(d_extents _ _ _ Hd). apply list_elem_of_fmap. exists t. split; [done|]. by eapply list_elem_of_lookup_2.
  - unfold in_pool, BUDDY_PAGE_SIZE in *. lia.
Qed.

Section source.
Context (dsm_cxl_free_page free_in_cxl_slab free_in_temp_slab : Z → M (mem pools) unit) (detect : bool).
Context (c : rpf_config) (mid : Z).

(** [get_pages(0, __MT_PGTABLE__)] where page tables are in private memory. *)
Definition dram_source : PageSource (mem pools) := {|
  get_page := get_dram_pages dsm_cxl_free_page free_in_cxl_slab free_in_temp_slab detect c mid 0;
  put_page := kfree dsm_cxl_free_page free_in_cxl_slab free_in_temp_slab detect
|}.

(** A page of the client: a chunk of one page with one reference, not on its way from another machine. *)
Definition page_of (s : mem pools) (V : pages_view) (S : slabs) (p : Z) : Prop :=
  live V !! p = Some 0 ∧ S !! p = None ∧ ref_field V !! pfn p = Some 1 ∧ p ∉ home_addrs c mid (rpf s).

Definition dram_ps_inv (s : mem pools) (U : gset Z) : Prop :=
  ∃ V S, minv c mid s V S ∧ unlocked s ∧ (∀ p, p ∈ U → page_of s V S p) ∧
    ∀ t, t ∈ extents V → KBASE ≤ t.1 * BUDDY_PAGE_SIZE ∧ (t.1 + t.2) * BUDDY_PAGE_SIZE ≤ KCODE.

Lemma dram_ps_addr s U p : dram_ps_inv s U → p ∈ U → aligned p 12 ∧ KBASE ≤ p < KCODE.
Proof.
  intros (V&S&[[HI _] _]&_&HU&He) Hp. destruct (HU p Hp) as (Hl&_). pose proof (s_phys _ _ _ _ HI) as Hph.
  destruct (pl_live _ _ _ _ Hph Hl) as (_&_&Ha&_). destruct (dram_live_extent _ _ _ _ Hph Hl) as (t&Ht&?&?).
  destruct (He t Ht). split; [done|]. unfold BUDDY_PAGE_SIZE in *. lia.
Qed.

Lemma page_of_taken (s : mem pools) V s' V' S p : taken c mid s V s' V' → page_of s V S p → page_of s' V' S p.
Proof.
  intros Ht (Hl&Hs&Hr&Hh). assert (live V' !! p = Some 0) as Hl' by (by apply (tk_keep _ _ _ _ _ _ Ht)). split_and!; [done|done| |].
  - by rewrite (tk_ref _ _ _ _ _ _ Ht _ _ Hl').
  - by intros ?%(tk_home _ _ _ _ _ _ Ht).
Qed.

Lemma unlocked_taken (s : mem pools) V s' V' : taken c mid s V s' V' → unlocked s → unlocked s'.
Proof. intros Ht Hu cpu o Ho. rewrite (tk_state _ _ _ _ _ _ Ht). simpl. by apply Hu. Qed.

Lemma dram_ps_get s U : dram_ps_inv s U →
  wp (@get_page _ dram_source) (λ p s', (p = 0 ∧ dram_ps_inv s' U) ∨ ((p ∉ U) ∧ dram_ps_inv s' ({[p]} ∪ U))) s.
Proof.
  intros (V&S&Hm&Hu&HU&He). eapply wp_mono; [by apply wp_get_dram_pages|].
  intros p s' (V1&[(->&Hm'&Ht&_)|(Hp&Hn&Hm'&s1&Hm1&Ht&Es)]).
  - left. split; [done|]. exists V1, S. split_and!; [done|by eapply unlocked_taken|intros; eapply page_of_taken; [done|by apply HU]|].
    rewrite (tk_extents _ _ _ _ _ _ Ht). done.
  - right. assert (∀ q, q ∈ U → page_of s1 V1 S q) as HU1 by (intros; eapply page_of_taken; [done|by apply HU]).
    assert (p ∉ U) as HpU by (intros (Hl&_)%HU1; congruence). split; [done|].
    exists (new_chunk V1 p 0), S. split_and!; [done| | |simpl; by rewrite (tk_extents _ _ _ _ _ _ Ht)].
    + rewrite Es. intros cpu o Ho. simpl. by eapply unlocked_taken.
    + destruct Hm1 as [[HI1 [_ _ _ Hh1]] _]. rewrite Es. intros q [->%elem_of_singleton|Hq]%elem_of_union.
      * split_and!; [apply lookup_insert_eq| |apply lookup_insert_eq|].
        -- apply eq_None_not_Some. intros [i Hi]. pose proof (so_live _ _ _ _ (s_slab _ _ _ _ HI1 _ _ Hi)). congruence.
        -- simpl. intros [Hl _]%Hh1. congruence.
      * destruct (HU1 q Hq) as (Hl&Hs&Hr&Hh). assert (q ≠ p) as Hne by (by intros ->).
        assert (live (new_chunk V1 p 0) !! q = Some 0) as Hl' by (simpl; by rewrite lookup_insert_ne).
        split_and!; [done|done| |done]. simpl. rewrite lookup_insert_ne; [done|]. intros E. apply Hne.
        destruct Hm' as [[HI' _] _]. eapply (live_pfn_inj _ _ q 0 p 0 (s_phys _ _ _ _ HI')); [done|apply lookup_insert_eq|done].
Qed.

Lemma dram_ps_put s U p : dram_ps_inv s U → p ∈ U → wp (@put_page _ dram_source p) (λ _ s', dram_ps_inv s' (U ∖ {[p]})) s.
Proof.
  intros (V&S&Hm&Hu&HU&He) Hp. destruct (HU p Hp) as (Hl&Hs&Hr&Hh).
  eapply wp_mono; [by eapply (wp_kfree_chunk _ _ _ _ c mid s V S p 0 1)|].
  intros [] s' (V'&Hm'&El&Er&_&_&Ee&Hlive&Href). exists V', S. split_and!; [done| | |by rewrite Ee].
  - intros cpu o Ho. rewrite El. by apply Hu.
  - intros q [Hq Hne]%elem_of_difference. destruct (HU q Hq) as (Hl'&Hs'&Hr'&Hh'). rewrite elem_of_singleton in Hne.
    split_and!; [|done|by rewrite (Href q 0)|by rewrite Er]. apply Hlive. split; [|done]. by intros [_ ->].
Qed.

Definition dram_source_spec : @PageSourceSpec (mem pools) dram_source := {|
  ps_inv := dram_ps_inv; ps_addr := dram_ps_addr; ps_get := dram_ps_get; ps_put := dram_ps_put
|}.
End source.
