(* ===== verification/PageTableTheorems.v ===== *)
(** What the page table operations guarantee, for any source of pages that keeps its laws; with witnesses on the DRAM
    allocator. *)
From S2P Require Import Prelude Words Buddy PageLayer DramPages RemoteFree RemoteFreeProofs RemoteFreeTheorems.
From S2P Require Import Slab SlabProofs KmallocProofs KmallocTheorems PageTable PageTableProofs PageTableCopy PageTableRoots KmallocPages.

(** ** The skips *)

Lemma skip_whole_bounds l w : 0 ≤ w → 0 < skip_whole l (w * 4096) ≤ 2 ^ 27.
Proof. intros _. unfold skip_whole. destruct l as [|[]|]; vm_compute; split; congruence. Qed.

Lemma skip_rest_spec l w : 0 ≤ l < 3 → 0 ≤ w → skip_rest l (w * 4096) = 2 ^ (9 * (3 - l)) - w mod 2 ^ (9 * (3 - l)).
Proof.
  intros Hl Hw. assert (∀ k, 0 ≤ k → Z.land (w * 4096) (Z.shiftl 1 (k + 12) - 1) / PAGE_SIZE = w mod 2 ^ k) as Hoff.
  { intros k Hk. rewrite Z.shiftl_1_l. replace (2 ^ (k + 12) - 1) with (Z.ones (k + 12)) by (rewrite Z.ones_equiv; lia).
    rewrite Z.land_ones, Z.pow_add_r by lia. change (2 ^ 12) with 4096. rewrite Z.mul_mod_distr_r by (try apply Z.pow_nonzero; lia).
    by apply Z.div_mul. }
  assert (l = 0 ∨ l = 1 ∨ l = 2) as [-> |[-> | ->]] by lia; unfold skip_rest.
  - rewrite Z.shiftr_div_pow2 by done. change (2 ^ PAGE_SHIFT) with 4096. rewrite Z.div_mul by done.
    change (Z.shiftl 1 (3 * PAGE_ORDER) - 1) with (Z.ones 27). by rewrite Z.land_ones.
  - unfold GET_VA_OFFSET_L1. change L1_INDEX_SHIFT with (18 + 12). by rewrite Hoff.
  - unfold GET_VA_OFFSET_L2. change L2_INDEX_SHIFT with (9 + 12). by rewrite Hoff.
Qed.

Lemma skip_rest_bounds l w : 0 ≤ w → 0 < skip_rest l (w * 4096) ≤ 2 ^ 27.
Proof.
  intros Hw. assert (∀ l', 0 ≤ l' < 3 → 0 < skip_rest l' (w * 4096) ≤ 2 ^ 27) as Hin.
  { intros l' Hl. rewrite skip_rest_spec by done. pose proof (pow2_pos (9 * (3 - l')) ltac:(lia)).
    pose proof (Z.mod_pos_bound w (2 ^ (9 * (3 - l'))) ltac:(lia)). pose proof (Z.pow_le_mono_r 2 (9 * (3 - l')) 27). lia. }
  destruct (decide (l = 0)) as [->|]; [by apply Hin|]. destruct (decide (l = 1)) as [->|]; [by apply Hin|].
  assert (skip_rest l (w * 4096) = skip_rest 2 (w * 4096)) as ->; [|by apply Hin]. by destruct l as [|[]|].
Qed.

Section theorems.
Context {A : Type} `{Hops : PageSource A, Hlaws : !PageSourceSpec A} (lim : Z).
Implicit Types (s : pgmem A) (T : gmap (Z * Z) Z) (U : gset Z).

Lemma skip_rest_exact s root T U v n : pt_ok lim s root T U → 0 ≤ v → exact skip_rest T v n.
Proof.
  intros HI Hv l w x Hl Hw Hm Hx _. rewrite skip_rest_spec in Hx by lia. eapply (missing_below lim _ _ _ _ (l + 1) w); [done|lia|done|].
  unfold pre. replace (9 * (4 - (l + 1))) with (9 * (3 - l)) by lia. set (d := 2 ^ (9 * (3 - l))) in *.
  assert (0 < d) by (by apply Z.pow_pos_nonneg; lia). pose proof (Z.div_mod w d ltac:(lia)). pose proof (Z.mod_pos_bound w d ltac:(lia)).
  symmetry. apply (Z.div_unique _ _ _ (x - d * (w / d))); lia.
Qed.

Lemma tables_exact skip s root T U v n : pt_ok lim s root T U → (∀ w, v ≤ w < v + n → is_Some (T !! (3, pre 3 w))) → exact skip T v n.
Proof.
  intros HI Ht l w x Hl Hw Hm Hx _. exfalso. destruct (Ht w Hw) as [b Hb]. destruct (pt_up lim _ _ _ _ (l + 1) _ _ _ HI Hb ltac:(lia)) as [c Hc].
  unfold pre in Hc, Hm. rewrite Z.div_div, <-Z.pow_add_r in Hc by (try apply Z.pow_pos_nonneg; lia).
  replace (9 * (4 - 3) + 9 * (3 - (l + 1))) with (9 * (4 - (l + 1))) in Hc by lia. congruence.
Qed.

Lemma walk_guards s root T U pgtbl v : pt_ok lim s root T U → remove_pcid pgtbl = root →
  bool_decide (pgtbl = 0) = false ∧ negb (bool_decide (v * 4096 mod PAGE_SIZE = 0)) = false.
Proof.
  intros HI Hp. split.
  - apply bool_decide_eq_false_2. intros ->. change (remove_pcid 0) with 0 in Hp. subst root.
    destruct (pt_addr lim _ _ _ _ _ _ HI (pt_root lim _ _ _ _ HI)) as [_ ?]. unfold KBASE in *. lia.
  - rewrite bool_decide_eq_true_2; [done|]. by apply Z.mod_mul.
Qed.

Lemma page_cnt_nonneg len : 0 ≤ len → 0 ≤ page_cnt len.
Proof. intros Hl. unfold page_cnt, PAGE_SIZE, BUDDY_PAGE_SIZE. pose proof (Z.div_pos len 4096 Hl ltac:(lia)). case_bool_decide; lia. Qed.

(** *** Lookup *)

(** [query_in_pgtbl] finds the entry of the page: if it is present, or marks a page under migration, the result is the
    address of the entry and, if asked for, its page frame with the offset of [va]; otherwise it is [-ENOMAPPING].  It changes
    nothing. *)
Theorem query_in_pgtbl_correct s root T U want pgtbl va :
  pt_ok lim s root T U → remove_pcid pgtbl = root → user lim (va / 4096) →
  let e := entry_of s T (va / 4096) in
  (want = true → mapped e = true → reachable e) →
  wp (query_in_pgtbl want pgtbl va) (λ r s', s' = s ∧
    if mapped e then ∃ p : Z * Z, entry s p.1 p.2 = Some e ∧ r = inr (if want then Some (pte_pfn e * 4096 + va mod 4096) else None, p)
    else r = inl (- ENOMAPPING)) s.
Proof. intros HI Hp Hu e Hr. by eapply wp_query. Qed.

(** *** Mapping *)

Lemma wp_map_range s root T U pgtbl v pa len flags :
  pt_ok lim s root T U → remove_pcid pgtbl = root → 0 ≤ v → v + page_cnt len ≤ lim * 2 ^ 27 → u64 pa → 0 ≤ len →
  room (3 * Z.to_nat ((v mod 512 + page_cnt len + 511) / 512)) (src s) →
  wp (map_range_in_pgtbl pgtbl (v * 4096) pa len flags) (λ r s', r = 0 ∧ ∃ T' U', pt_ok lim s' root T' U' ∧ added T U T' U' ∧ beside T U s s' ∧
    changed (λ w _, new_pte (wrap_u64 (pa + (w - v) * 4096)) flags) v (page_cnt len) (entry_of s T) (entry_of s' T')) s.
Proof.
  intros HI Hp Hv Hr Hpa Hlen Hroom. destruct (walk_guards _ _ _ _ _ v HI Hp) as [E1 E2]. unfold map_range_in_pgtbl. rewrite E1, E2, Hp. wp_seq.
  apply wp_bug_on; [done|]. wp_seq. apply wp_bug_on; [done|]. wp_seq. pose proof (page_cnt_nonneg len Hlen).
  set (n := page_cnt len) in *. pose proof (Z.mod_pos_bound v 512 ltac:(lia)).
  eapply wp_mono; [eapply (wp_map_loop lim (Z.to_nat ((v mod 512 + n + 511) / 512))); try done; try lia|].
  - intros _. rewrite Z2Nat.id by (apply Z.div_pos; lia). pose proof (Z.div_mod (v mod 512 + n + 511) 512 ltac:(lia)).
    pose proof (Z.mod_pos_bound (v mod 512 + n + 511) 512 ltac:(lia)). lia.
  - intros [] s' (T'&U'&?&?&?&?). wp_seq. split; [done|]. exists T', U'. done.
Qed.

(** C6: [map_range_in_pgtbl] maps every page of the range to the frames from [pa] on, with the permissions asked for, and
    changes no other page.  It returns 0, if the source has pages for the missing tables. *)
Theorem map_range_in_pgtbl_correct s root T U pgtbl v pa len flags :
  pt_ok lim s root T U → remove_pcid pgtbl = root → 0 ≤ v → v + page_cnt len ≤ lim * 2 ^ 27 → u64 pa → 0 ≤ len →
  room (3 * Z.to_nat ((v mod 512 + page_cnt len + 511) / 512)) (src s) →
  wp (map_range_in_pgtbl pgtbl (v * 4096) pa len flags) (λ r s', r = 0 ∧ ∃ T' U', pt_ok lim s' root T' U' ∧ added T U T' U' ∧ beside T U s s' ∧
    ∀ w, 0 ≤ w → entry_of s' T' w =
      if decide (v ≤ w < v + page_cnt len) then new_pte (wrap_u64 (pa + (w - v) * 4096)) flags else entry_of s T w) s.
Proof. apply wp_map_range. Qed.

Lemma new_pte_frame pa flags : 0 ≤ pa < KCODE - KBASE → (4096 | pa) → pte_pfn (new_pte pa flags) * 4096 = pa.
Proof.
  intros Hpa [q ->]. unfold KCODE, KBASE in Hpa. rewrite new_pte_pfn, Z.shiftr_div_pow2 by lia. change (2 ^ 12) with 4096.
  rewrite Z.div_mul, Z.mod_small by lia. done.
Qed.

(** C5: after [map_range_in_pgtbl] a lookup of any address of the range returns the address at the same distance from
    [pa], and the entry it finds carries the flags of the request. *)
Theorem map_query_roundtrip s root T U pgtbl v pa len flags va' :
  pt_ok lim s root T U → remove_pcid pgtbl = root → 0 ≤ v → v + page_cnt len ≤ lim * 2 ^ 27 → 0 ≤ len →
  (4096 | pa) → 0 ≤ pa → pa + page_cnt len * 4096 ≤ KCODE - KBASE →
  room (3 * Z.to_nat ((v mod 512 + page_cnt len + 511) / 512)) (src s) →
  v * 4096 ≤ va' < (v + page_cnt len) * 4096 →
  wp (map_range_in_pgtbl pgtbl (v * 4096) pa len flags;; query_in_pgtbl true pgtbl va') (λ r s', ∃ p e,
    r = inr (Some (pa + (va' - v * 4096)), p) ∧ entry s' p.1 p.2 = Some e ∧
    has e PAGE_PRESENT = true ∧ has e PAGE_USER = true ∧ has e PAGE_RW = has flags VMR_WRITE ∧
    has e PAGE_NX = negb (has flags VMR_EXEC) ∧ has e PAGE_PCD = has flags VMR_NOCACHE) s.
Proof.
  intros HI Hp Hv Hr Hlen Hal Hpa Htop Hroom Hva. assert (u64 pa) as Hu by (unfold KCODE, KBASE in *; split; lia). wp_seq.
  eapply wp_mono; [by eapply wp_map_range|]. intros ? s1 (->&T1&U1&HI1&_&_&Hch). cbv beta.
  pose proof (Z.div_mod va' 4096 ltac:(lia)) as Hd. pose proof (Z.mod_pos_bound va' 4096 ltac:(lia)) as Hm. set (w := va' / 4096) in *.
  assert (v ≤ w < v + page_cnt len) as Hw by lia. pose proof (Hch w ltac:(lia)) as He. rewrite decide_True in He by done.
  set (fr := pa + (w - v) * 4096) in *. assert (0 ≤ fr < KCODE - KBASE) as Hfr by (unfold fr; lia).
  rewrite wrap_u64_small in He by (unfold KCODE, KBASE in *; lia).
  assert (4096 | fr) as Hfa by (apply Z.divide_add_r; [done|by exists (w - v)]). pose proof (new_pte_frame fr flags Hfr Hfa) as Hpf.
  assert (mapped (entry_of s1 T1 w) = true) as Hmap by (rewrite He; unfold mapped; by rewrite new_pte_present).
  eapply wp_mono; [eapply (wp_query lim s1 root T1 U1 true pgtbl w); [done|done|done|split; lia|]|].
  - intros _ _. rewrite He. unfold reachable. lia.
  - intros r s2 [-> HR]. rewrite Hmap in HR. destruct HR as (p&Hent&->). exists p, (new_pte fr flags). rewrite He, Hpf in *.
    unfold PAGE_PRESENT, PAGE_USER, PAGE_RW, PAGE_NX, PAGE_PCD. rewrite !has_bit by lia. unfold new_pte. rewrite !set_pte_flags_bit by lia.
    split_and!; [|done|by rewrite pte_set_pfn_bit|done..]. do 2 f_equal. f_equal. unfold fr. lia.
Qed.

Lemma wp_map_page s root T U pgtbl v pa flags :
  pt_ok lim s root T U → remove_pcid pgtbl = root → user lim v → room 3 (src s) →
  wp (map_page_in_pgtbl pgtbl (v * 4096) pa flags) (λ p s', entry s' p.1 p.2 = Some (new_pte pa flags) ∧
    ∃ T' U', pt_ok lim s' root T' U' ∧ T ⊆ T' ∧ U ⊆ U' ∧
    (∀ q, is_Some (T' !! (3, q)) → q = pre 3 v ∨ is_Some (T !! (3, q))) ∧
    ∀ w, 0 ≤ w → entry_of s' T' w = if decide (w = v) then new_pte pa flags else entry_of s T w) s.
Proof.
  intros HI Hp Hu Hroom. destruct (walk_guards _ _ _ _ _ v HI Hp) as [E1 E2]. unfold map_page_in_pgtbl. rewrite E1, E2, Hp. wp_seq.
  apply wp_bug_on; [done|]. wp_seq. apply wp_bug_on; [done|]. wp_seq. pose proof (Z.mod_pos_bound v 512 ltac:(lia)) as Hm.
  eapply wp_mono; [eapply (wp_alloc_l3 lim s root T U v _ 0); [done|by rewrite Z.div_mul|done|done]|].
  intros a s1 (T1&U1&Ha&HI1&[[Ht1 Hu1 _] _ He1]&_&Hk1). wp_seq. rewrite l3_index, Z.div_mul by done.
  destruct (pt_entry lim _ _ _ _ _ _ _ HI1 Ha Hm) as (e&He&_). eapply wp_write_pte; [done|]. wp_seq. cbn [fst snd]. split.
  - rewrite entry_put by (lia || by eexists). by rewrite decide_True.
  - exists T1, U1. split_and!; [|done|done|done|].
    + eapply (pt_put lim _ _ _ _ 3); [done|done|done|apply new_pte_u64|lia].
    + intros w Hw. rewrite (entry_of_put lim _ root _ U1 (pre 3 v)), He1, <-page_split by done. done.
Qed.

(** [map_page_in_pgtbl] does the same for one page, adds at most the table of that page at the last level, and
    returns the place of the entry. *)
Theorem map_page_in_pgtbl_correct s root T U pgtbl v pa flags :
  pt_ok lim s root T U → remove_pcid pgtbl = root → user lim v → room 3 (src s) →
  wp (map_page_in_pgtbl pgtbl (v * 4096) pa flags) (λ p s', entry s' p.1 p.2 = Some (new_pte pa flags) ∧
    ∃ T' U', pt_ok lim s' root T' U' ∧ T ⊆ T' ∧ U ⊆ U' ∧
    (∀ q, is_Some (T' !! (3, q)) → q = pre 3 v ∨ is_Some (T !! (3, q))) ∧
    ∀ w, 0 ≤ w → entry_of s' T' w = if decide (w = v) then new_pte pa flags else entry_of s T w) s.
Proof. apply wp_map_page. Qed.

(** *** Changing a range *)

Lemma wp_walk skip f s root T U pgtbl v len :
  (∀ l w, 0 ≤ w → 0 < skip l (w * 4096) ≤ 2 ^ 27) → (∀ e, u64 e → u64 (f e)) → pt_ok lim s root T U → remove_pcid pgtbl = root →
  0 ≤ v → v + page_cnt len ≤ lim * 2 ^ 27 →
  wp (walk_loop skip f (Z.to_nat (page_cnt len)) root (v * 4096) (page_cnt len);; mret 0) (λ r s', r = 0 ∧ src s' = src s ∧ pt_ok lim s' root T U ∧ beside T U s s' ∧
    walked skip f T v (page_cnt len) (entry_of s T) (entry_of s' T)) s.
Proof.
  intros Hs Hf HI Hp Hv Hr. wp_seq. eapply wp_mono; [by eapply wp_walk_loop|]. intros [] s' (?&?&?&?). by wp_seq.
Qed.

Lemma wp_unmap_range s root T U pgtbl v len :
  pt_ok lim s root T U → remove_pcid pgtbl = root → 0 ≤ v → v + page_cnt len ≤ lim * 2 ^ 27 →
  wp (unmap_range_in_pgtbl pgtbl (v * 4096) len) (λ r s', r = 0 ∧ src s' = src s ∧ pt_ok lim s' root T U ∧ beside T U s s' ∧
    walked skip_whole (λ _, 0) T v (page_cnt len) (entry_of s T) (entry_of s' T)) s.
Proof.
  intros HI Hp Hv Hr. destruct (walk_guards _ _ _ _ _ v HI Hp) as [E1 E2]. unfold unmap_range_in_pgtbl. rewrite E1, E2, Hp. wp_seq.
  apply wp_bug_on; [done|]. wp_seq. apply wp_bug_on; [done|]. by eapply wp_walk; [apply skip_whole_bounds|..].
Qed.

(** C25: [unmap_range_in_pgtbl] returns 0 and changes no page outside the range and no table of another page table; a page of the
    range is cleared or left as it is.  Every page is cleared up to the first one whose table of the last level is missing; in particular, if
    these tables exist for the whole range, the whole range is cleared.  Behind a missing table pages can be left. *)
Theorem unmap_range_in_pgtbl_correct s root T U pgtbl v len :
  pt_ok lim s root T U → remove_pcid pgtbl = root → 0 ≤ v → v + page_cnt len ≤ lim * 2 ^ 27 →
  wp (unmap_range_in_pgtbl pgtbl (v * 4096) len) (λ r s', r = 0 ∧ pt_ok lim s' root T U ∧ beside T U s s' ∧
    (∀ w, 0 ≤ w → ¬ (v ≤ w < v + page_cnt len) → entry_of s' T w = entry_of s T w) ∧
    (∀ w, v ≤ w < v + page_cnt len → entry_of s' T w = 0 ∨ entry_of s' T w = entry_of s T w) ∧
    (∀ w, v ≤ w < v + page_cnt len → (∀ y, v ≤ y ≤ w → is_Some (T !! (3, pre 3 y))) → entry_of s' T w = 0) ∧
    ((∀ w, v ≤ w < v + page_cnt len → is_Some (T !! (3, pre 3 w))) →
     ∀ w, v ≤ w < v + page_cnt len → entry_of s' T w = 0)) s.
Proof.
  intros HI Hp Hv Hr. eapply wp_mono; [by eapply wp_unmap_range|]. intros r s' (->&_&HI'&Hb&[H1 H2 H3 H4]).
  split_and!; [done|done|done|done| |done|].
  - intros w Hw. destruct (H2 w Hw); auto.
  - intros Ht w Hw. apply H4; [done|]. intros y Hy. apply Ht. lia.
Qed.

(** the pages that [unmap_range_in_pgtbl] misses.  Where a table is missing it goes on by a whole table, counted from the
    current page and not from the start of the table: if the table of the first page is missing, a range of up to 512 pages is
    left as it is, also the part of it that lies in the next table. *)
Theorem unmap_range_in_pgtbl_misses s root T U pgtbl v len :
  pt_ok lim s root T U → remove_pcid pgtbl = root → 0 ≤ v → v + page_cnt len ≤ lim * 2 ^ 27 →
  T !! (3, pre 3 v) = None → page_cnt len ≤ 512 →
  unmap_range_in_pgtbl pgtbl (v * 4096) len s = Ret (0, s).
Proof.
  intros HI Hp Hv Hr Hn Hc. destruct (walk_guards _ _ _ _ _ v HI Hp) as [E1 E2].
  enough (wp (unmap_range_in_pgtbl pgtbl (v * 4096) len) (λ r s', r = 0 ∧ s' = s) s) as (r&s'&->&->&->)%wp_inv by done.
  unfold unmap_range_in_pgtbl. rewrite E1, E2, Hp. wp_seq. apply wp_bug_on; [done|]. wp_seq. apply wp_bug_on; [done|]. wp_seq.
  eapply (wp_mono _ (λ _ s', s' = s)); [|by intros [] ? ->; wp_seq]. set (n := page_cnt len) in *. destruct (Z.to_nat n) as [|fuel] eqn:Ef; cbn [walk_loop].
  { rewrite bool_decide_eq_false_2 by lia. by wp_seq. }
  rewrite bool_decide_eq_true_2 by lia. assert (user lim v) as Hu by (split; lia).
  destruct (user_pre _ _ (pt_lim lim _ _ _ _ HI) Hu) as [P0 P1]. assert (v * 4096 / 4096 = v) as Ev by (by apply Z.div_mul).
  assert (T !! (0, pre 0 v) = Some root) as H0 by (rewrite P0; apply HI).
  assert (∀ va l, wp (walk_loop skip_whole (λ _, 0) fuel root va (n - skip_whole l (v * 4096))) (λ _ s', s' = s) s) as Hgo.
  { intros va l. assert (512 ≤ skip_whole l (v * 4096)) by (unfold skip_whole; destruct l as [|[]|]; vm_compute; congruence).
    destruct fuel; cbn [walk_loop]; rewrite bool_decide_eq_false_2 by lia; by wp_seq. }
  wp_seq. eapply (wp_next lim _ _ _ _ 0 v); try done; [lia|]. intros a1 H1. wp_seq.
  eapply (wp_next lim _ _ _ _ 1 v); try done. intros a2 H2. wp_seq.
  eapply (wp_next lim _ _ _ _ 2 v); try done. intros a3 H3. change (2 + 1) with 3 in H3. congruence.
Qed.

(** The new value of an entry whose page gets other permissions *)
Definition with_flags (flags e : Z) : Z := if has e PAGE_PRESENT then set_pte_flags e flags else e.

Lemma wp_mprotect s root T U pgtbl v len flags :
  pt_ok lim s root T U → remove_pcid pgtbl = root → 0 ≤ v → v + page_cnt len ≤ lim * 2 ^ 27 →
  wp (mprotect_in_pgtbl pgtbl (v * 4096) len flags) (λ r s', r = 0 ∧ pt_ok lim s' root T U ∧ beside T U s s' ∧
    walked skip_whole (with_flags flags) T v (page_cnt len) (entry_of s T) (entry_of s' T)) s.
Proof.
  intros HI Hp Hv Hr. destruct (walk_guards _ _ _ _ _ v HI Hp) as [E1 E2]. unfold mprotect_in_pgtbl. rewrite E1, E2, Hp. wp_seq.
  apply wp_bug_on; [done|]. wp_seq. apply wp_bug_on; [done|].
  eapply wp_mono; [eapply (wp_walk skip_whole (with_flags flags)); try done; [apply skip_whole_bounds|]|].
  - intros e He. unfold with_flags. destruct (has e PAGE_PRESENT); [by apply set_pte_flags_u64|done].
  - by intros r s' (->&_&?&?&?).
Qed.

(** [mprotect_in_pgtbl] returns 0, gives no page outside the range new permissions and keeps every frame; if the tables of
    the last level exist for the whole range, each present entry of it gets the new permissions. *)
Theorem mprotect_in_pgtbl_correct s root T U pgtbl v len flags :
  pt_ok lim s root T U → remove_pcid pgtbl = root → 0 ≤ v → v + page_cnt len ≤ lim * 2 ^ 27 →
  wp (mprotect_in_pgtbl pgtbl (v * 4096) len flags) (λ r s', r = 0 ∧ pt_ok lim s' root T U ∧ beside T U s s' ∧
    (∀ w, 0 ≤ w → ¬ (v ≤ w < v + page_cnt len) → entry_of s' T w = entry_of s T w) ∧
    (∀ w, 0 ≤ w → pte_pfn (entry_of s' T w) = pte_pfn (entry_of s T w)) ∧
    ((∀ w, v ≤ w < v + page_cnt len → is_Some (T !! (3, pre 3 w))) →
     ∀ w, v ≤ w < v + page_cnt len → entry_of s' T w =
       if has (entry_of s T w) PAGE_PRESENT then set_pte_flags (entry_of s T w) flags else entry_of s T w)) s.
Proof.
  intros HI Hp Hv Hr. eapply wp_mono; [by eapply wp_mprotect|]. intros r s' (->&HI'&Hb&[H1 H2 H3 H4]). split_and!; [done|done|done|done| |].
  - intros w Hw. destruct (decide (v ≤ w < v + page_cnt len)) as [Hin|]; [|by rewrite H1].
    destruct (H2 w Hin) as [->| ->]; [done|]. unfold with_flags. destruct (has _ PAGE_PRESENT); [by rewrite set_pte_flags_pfn|done].
  - intros Ht w Hw. rewrite (H3 (tables_exact _ _ _ _ _ _ _ HI Ht) eq_refl w) by lia. by rewrite decide_True.
Qed.

Lemma wp_set_write s root T U pgtbl v len flag :
  pt_ok lim s root T U → remove_pcid pgtbl = root → 0 ≤ v → v + page_cnt len ≤ lim * 2 ^ 27 →
  wp (set_write_in_pgtbl pgtbl (v * 4096) len flag) (λ r s', r = 0 ∧ src s' = src s ∧ pt_ok lim s' root T U ∧ beside T U s s' ∧
    ∀ w, 0 ≤ w → entry_of s' T w =
      if decide (v ≤ w < v + page_cnt len ∧ has (entry_of s T w) PAGE_PRESENT = true)
      then set_pte_write_flag (entry_of s T w) flag else entry_of s T w) s.
Proof.
  intros HI Hp Hv Hr. destruct (walk_guards _ _ _ _ _ v HI Hp) as [E1 E2]. unfold set_write_in_pgtbl. rewrite E1, E2, Hp. wp_seq.
  apply wp_bug_on; [done|]. set (f := λ e, if has e PAGE_PRESENT then _ else _).
  eapply wp_mono; [eapply (wp_walk skip_rest f); try done; [apply skip_rest_bounds|]|].
  - intros e He. unfold f. destruct (has e PAGE_PRESENT); [by apply set_pte_write_flag_u64|done].
  - intros r s' (->&Es&HI'&Hb&[H1 H2 H3 H4]). split_and!; [done..|]. intros w Hw.
    rewrite (H3 (skip_rest_exact _ _ _ _ _ _ HI Hv) eq_refl w Hw). unfold f.
    destruct (decide (v ≤ w < v + page_cnt len)), (has (entry_of s T w) PAGE_PRESENT);
      first [rewrite decide_True by done; done|rewrite decide_False by naive_solver; done].
Qed.

(** [set_write_in_pgtbl], which skips to the end of a missing table, gives exactly the present pages of the range the
    write permission asked for, whatever tables exist. *)
Theorem set_write_in_pgtbl_correct s root T U pgtbl v len flag :
  pt_ok lim s root T U → remove_pcid pgtbl = root → 0 ≤ v → v + page_cnt len ≤ lim * 2 ^ 27 →
  wp (set_write_in_pgtbl pgtbl (v * 4096) len flag) (λ r s', r = 0 ∧ pt_ok lim s' root T U ∧ beside T U s s' ∧
    ∀ w, 0 ≤ w → entry_of s' T w =
      if decide (v ≤ w < v + page_cnt len ∧ has (entry_of s T w) PAGE_PRESENT = true)
      then set_pte_write_flag (entry_of s T w) flag else entry_of s T w) s.
Proof. intros HI Hp Hv Hr. eapply wp_mono; [by eapply wp_set_write|]. by intros r s' (?&_&?). Qed.
End theorems.

(** *** Creation, release and copy *)

Section whole.
Context {A : Type} `{Hops : PageSource A, Hlaws : !PageSourceSpec A}.
Implicit Types (s : pgmem A) (T : gmap (Z * Z) Z) (U : gset Z).

(** [vmspace_init] makes one page table for each machine.  They have roots of their own, which the source did not
    hand out before, keep the process's identifier in the lower 12 bits, map no user page, and have the kernel's entries 510 and
    511 without the user bit. *)
Theorem vmspace_init_pgtbl_correct s U CHCORE_PGD pcid :
  ps_inv (src s) U → room (Z.to_nat CLUSTER_MAX_MACHINE_NUM) (src s) → 0 ≤ pcid < 4096 → u64 (CHCORE_PGD 510) → u64 (CHCORE_PGD 511) →
  wp (vmspace_init_pgtbl CHCORE_PGD pcid) (λ pgtbl s', ∃ U', U ⊆ U' ∧
    length pgtbl = Z.to_nat CLUSTER_MAX_MACHINE_NUM ∧ NoDup (remove_pcid <$> pgtbl) ∧
    ∀ r, r ∈ pgtbl → let root := remove_pcid r in
      r mod 4096 = pcid ∧ (root ∉ U) ∧ pt_ok (PTP_ENTRIES - 2) s' root {[(0, 0) := root]} U' ∧
      (∀ w, entry_of s' {[(0, 0) := root]} w = 0) ∧
      ∀ i, i = 510 ∨ i = 511 → entry s' root i = Some (Z.ldiff (CHCORE_PGD i) PAGE_USER)) s.
Proof.
  intros Hs Hroom Hpc H0 H1. unfold vmspace_init_pgtbl. wp_seq. eapply wp_mono; [by eapply wp_alloc_roots|].
  intros ps s1 (Hlen&Hnd&Hs1&Hps&_). eapply wp_mono; [apply wp_arch_vmspace_init; [done|]|]. { intros p Hp. by apply Hps. }
  intros rs s2 (->&Hs2&Hrs&_). exists (list_to_set ps ∪ U). split; [by apply union_subseteq_r|]. split; [by rewrite length_fmap|].
  rewrite <-Hs2 in Hs1. assert (∀ p, p ∈ ps → p ∈ (list_to_set ps ∪ U : gset Z)) as Hin by (intros p Hp; by apply elem_of_union_l, elem_of_list_to_set).
  assert (∀ p, p ∈ ps → remove_pcid (Z.lor p pcid) = p ∧ Z.lor p pcid mod 4096 = pcid) as Hrm.
  { intros p Hp. apply remove_lor_pcid; [|done]. by eapply ps_addr, Hin. }
  split.
  - assert (remove_pcid <$> ((λ p, Z.lor p pcid) <$> ps) = ps) as ->; [|done]. rewrite <-list_fmap_compose.
    rewrite <-(list_fmap_id ps) at 2. apply list_fmap_ext. intros i p Hp%list_elem_of_lookup_2. simpl. by apply Hrm.
  - intros r (p&->&Hp)%list_elem_of_fmap. destruct (Hrm p Hp) as [-> Hmod]. cbv zeta. split_and!; [done|by apply Hps| | |].
    + eapply pt_root_only; [done|done|by apply Hin|by apply Hrs|apply root_ptp_length|by apply root_ptp_u64|apply root_ptp_user].
    + intros w. apply entry_of_root.
    + intros i Hi. unfold entry. rewrite (Hrs p Hp). simpl. by apply root_ptp_kernel.
Qed.

(** C26: [free_page_table] gives every table of the user part back to the source, each once, and no other page. *)
Theorem free_page_table_correct s root T U pgtbl :
  pt_ok (PTP_ENTRIES - 2) s root T U → remove_pcid pgtbl = root →
  wp (free_page_table pgtbl) (λ _ s', ∃ U', ps_inv (src s') U' ∧ ∀ p, p ∈ U' ↔ p ∈ U ∧ ∀ k, T !! k ≠ Some p) s.
Proof.
  intros HI Hp. destruct (walk_guards _ _ _ _ _ _ 0 HI Hp) as [E1 _]. unfold free_page_table. rewrite E1, Hp.
  assert (frees s T U 0 (λ a, each_table (PTP_ENTRIES - 2) a (λ l1_ptp, each_table PTP_ENTRIES l1_ptp (λ l2_ptp,
    each_table PTP_ENTRIES l2_ptp kfree_ptp;; kfree_ptp l2_ptp);; kfree_ptp l1_ptp);; kfree_ptp a)) as Hfree.
  { eapply frees_level; [done|lia|done|]. eapply frees_level; [done|lia|done|]. eapply frees_level; [done|lia|done|]. by eapply frees_leaf. }
  eapply wp_mono; [eapply (Hfree 0 root s (λ _, False))|].
  - apply HI.
  - split; [|done]. exists U. split; [apply HI|]. naive_solver.
  - intros b _ [].
  - intros [] s' [(U'&Hps&HU) _]. exists U'. split; [done|]. intros p. rewrite HU. split.
    + intros [? Hn]. split; [done|]. intros [l q] Hk. apply Hn. right. exists l, q. destruct (pt_key _ _ _ _ _ HI _ _ _ Hk) as (?&?&Hz&Hlt).
      split_and!; [done|lia|]. rewrite Z.sub_0_r. apply Z.div_small. split; [done|]. destruct (decide (l = 0)) as [->|]; [by rewrite Hz|].
      specialize (Hlt ltac:(lia)). change (PTP_ENTRIES - 2) with 510 in Hlt. replace (9 * l) with (9 * (l - 1) + 9) by lia.
      rewrite Z.pow_add_r by lia. change (2 ^ 9) with 512. assert (0 < 2 ^ (9 * (l - 1))) by (by apply Z.pow_pos_nonneg; lia).
      pose proof (Z.div_mod q (2 ^ (9 * (l - 1))) ltac:(lia)). pose proof (Z.mod_pos_bound q (2 ^ (9 * (l - 1))) ltac:(lia)). nia.
    + intros [? Hn]. split; [done|]. intros [[]|(l&q&Hk&_)]. by eapply Hn.
Qed.

(** C27: [pgtbl_deep_copy] makes a page table of its own that says what the source says: for each entry of each table, the same page
    (of 4K, or huge) or a table with the same flags that says the same.  Every table of the copy but its root is a new page, so
    it shares none with the source, nor with the tables of the boot code ([K], which are not the allocator's); no other
    table changes, so the source says what it said.  The destination may have entries already, such as those for the kernel, where the source has one.
    The copy takes one page for each entry that leads to a table. *)
Theorem pgtbl_deep_copy_correct s U K src_pgtbl dst_pgtbl sroot droot :
  ps_inv (src s) U → remove_pcid src_pgtbl = sroot → remove_pcid dst_pgtbl = droot → src_pgtbl ≠ 0 →
  (∀ b, b ∈ tables_of 3 s sroot → b ∈ U ∪ K ∧ b ≠ droot ∧ is_table s b) →
  droot ∈ U → is_table s droot → present_in (entries s sroot) (entries s droot) →
  room_off K (length (tables_of 3 s sroot) - 1) (src s) →
  wp (pgtbl_deep_copy src_pgtbl dst_pgtbl) (λ _ s', ∃ N, ps_inv (src s') (N ∪ U) ∧ N ## U ∪ K ∧
    view 3 s' droot = view 3 s sroot ∧ view 3 s' sroot = view 3 s sroot ∧
    (∀ b, b ∈ tables_of 3 s' droot → b = droot ∨ b ∈ N) ∧
    ∀ b, b ≠ droot → b ∉ N → ptps s' !! b = ptps s !! b) s.
Proof.
  intros Hps Hs Hd Hs0 Hsrc HU Hdt Hpr Hroom. unfold pgtbl_deep_copy. rewrite Hs, Hd, (bool_decide_eq_false_2 (src_pgtbl = 0)) by done. wp_seq.
  apply wp_bug_on.
  { rewrite orb_false_l. apply bool_decide_eq_false_2. intros ->. change (remove_pcid 0) with 0 in Hd. subst droot.
    destruct (ps_addr _ _ 0 Hps HU) as [_ ?]. unfold KBASE in *. lia. }
  eapply wp_mono; [by eapply (wp_deep_copy s U K)|]. intros [] s' (N&?&HN&?&?&Hfr). exists N. split_and!; try done.
  assert (∀ b, b ∈ tables_of 3 s sroot → ptps s' !! b = ptps s !! b) as Hsame.
  { intros b Hb. destruct (Hsrc b Hb) as (HbU&?&_). apply Hfr; [done|]. clear -HN HbU. set_solver. }
  unfold view. assert (entries s' sroot = entries s sroot) as -> by (unfold entries; by rewrite Hsame by (by left)).
  apply list_fmap_ext. intros j e He%list_elem_of_lookup_2. apply vent_frame. intros b Hb. apply Hsame. right. apply concat_in. eauto.
Qed.
End whole.

(** ** Witnesses

    Page tables from a booted DRAM allocator with 32 pages in the direct map. *)

#[local] Instance pages : PageSource (mem pools) := dram_source elsewhere elsewhere elsewhere true two_machines 0.
#[local] Instance pages_spec : PageSourceSpec (mem pools) := dram_source_spec elsewhere elsewhere elsewhere true two_machines 0.

Definition direct : Z := (KBASE + 2 ^ 32) / BUDDY_PAGE_SIZE.
Definition ready : pgmem (mem pools) := PgMem (booted direct 32) ∅.

Fixpoint roomb (n : nat) (a : mem pools) : bool :=
  match n with
  | O => true
  | S n' => match get_page a with Ret (p, a') => negb (p =? 0) && roomb n' a' | Halt _ => false end
  end.

Lemma roomb_room n a : roomb n a = true → room n a.
Proof.
  revert a. induction n as [|n IH]; intros a; cbn [roomb room]; [done|]. destruct (get_page a) as [[p a']|]; [|intros E; discriminate E].
  intros [E1 E2]%andb_true_iff. split; [|by apply IH]. intros ->. discriminate E1.
Qed.

Lemma ready_room : room 20 (src ready).
Proof. apply roomb_room. vm_compute. reflexivity. Qed.

Lemma ready_inv : ps_inv (src ready) ∅.
Proof.
  destruct (booted_ok direct 32 ltac:(vm_compute; reflexivity) ltac:(lia) ltac:(vm_compute; discriminate)) as (Hm&Hu&_&_).
  change (src ready) with (booted direct 32). revert Hm Hu. generalize (booted direct 32). intros s Hm Hu. exists (fresh_view direct 32), ∅.
  split_and!; [exact Hm|exact Hu|by intros p ?%elem_of_empty|]. intros t ->%list_elem_of_singleton. split; apply Z.leb_le; vm_compute; reflexivity.
Qed.


Lemma ready_root lim : 0 ≤ lim ≤ 512 → ∃ root s,
  new_ptp ready = Ret (root, s) ∧ pt_ok lim s root {[(0, 0) := root]} {[root]} ∧ room 19 (src s) ∧ remove_pcid root = root.
Proof.
  intros Hl. destruct (wp_inv _ _ _ (wp_new_ptp ready ∅ 19 ready_inv ready_room)) as (root&s&Hs&_&Hps&Hr&_&E).
  exists root, s. split; [exact Hs|]. clear Hs. revert E Hps. generalize (ptps ready). intros m E Hps.
  rewrite union_empty_r_L in Hps. destruct (ps_addr _ _ root Hps) as [Ha _]; [by apply elem_of_singleton|].
  destruct (remove_lor_pcid root 0 Ha ltac:(lia)) as [Hp _]. rewrite Z.lor_0_r in Hp. split; [|split; [exact Hr|exact Hp]].
  apply (pt_root_only lim s root _ zero_ptp); [exact Hl|exact Hps|by apply elem_of_singleton| |reflexivity|by apply Forall_replicate|].
  - rewrite E. apply lookup_insert_eq.
  - intros i Hi. apply lookup_replicate_2. change (Z.to_nat PTP_ENTRIES) with 512%nat. lia.
Qed.

(** One page, mapped at page number 512: the tables of page 511 do not exist. *)
Lemma ready_page lim : 1 ≤ lim ≤ 512 → ∃ root s T U,
  pt_ok lim s root T U ∧ remove_pcid root = root ∧ T !! (3, 0) = None ∧ entry_of s T 512 = new_pte (2 ^ 20) VMR_WRITE.
Proof.
  intros Hl. destruct (ready_root lim ltac:(lia)) as (root&s0&_&HI0&Hr0&Hp). apply (room_le _ 3) in Hr0; [|lia].
  destruct (wp_inv _ _ _ (wp_map_page lim s0 root _ _ root 512 (2 ^ 20) VMR_WRITE HI0 Hp ltac:(unfold user; lia) Hr0))
    as (p&s&_&_&T&U&HI&_&_&Hk&He). exists root, s, T, U. split; [exact HI|]. split; [exact Hp|]. split.
  - apply eq_None_not_Some. intros [E|[x Hx]]%Hk; [discriminate E|]. by rewrite lookup_singleton_ne in Hx.
  - rewrite (He 512) by lia. by rewrite decide_True.
Qed.

(** Two pages, mapped from page number 5 on. *)
Lemma ready_range lim : 1 ≤ lim ≤ 512 → ∃ root s T U, pt_ok lim s root T U ∧ remove_pcid root = root ∧ T ∖ {[(0, 0) := root]} ≠ ∅ ∧
  ∀ w, 0 ≤ w → entry_of s T w = if decide (5 ≤ w < 7) then new_pte (wrap_u64 (2 ^ 20 + (w - 5) * 4096)) VMR_WRITE else 0.
Proof.
  intros Hl. destruct (ready_root lim ltac:(lia)) as (root&s0&_&HI0&Hr0&Hp). apply (room_le _ 3) in Hr0; [|lia].
  destruct (wp_inv _ _ _ (wp_map_range lim s0 root _ _ root 5 (2 ^ 20) 8192 VMR_WRITE HI0 Hp ltac:(lia) ltac:(change (page_cnt 8192) with 2; lia)
    ltac:(unfold u64; lia) ltac:(lia) Hr0)) as (r&s&_&_&T&U&HI&_&_&He). exists root, s, T, U. split; [exact HI|]. split; [exact Hp|].
  assert (∀ w, 0 ≤ w → entry_of s T w = if decide (5 ≤ w < 7) then new_pte (wrap_u64 (2 ^ 20 + (w - 5) * 4096)) VMR_WRITE else 0) as He'.
  { intros w Hw. rewrite (He w Hw), entry_of_root. done. }
  split; [|exact He']. intros E. specialize (He' 5 ltac:(lia)). rewrite decide_True in He' by lia. unfold entry_of in He'.
  destruct (T !! (3, pre 3 5)) as [a|] eqn:Ha; [|discriminate He']. assert ((T ∖ {[(0, 0) := root]}) !! (3, pre 3 5) = Some a) as Hx.
  { apply lookup_difference_Some. split; [exact Ha|]. by rewrite lookup_singleton_ne. }
  rewrite E in Hx. discriminate Hx.
Qed.

Lemma vmspace_init_pgtbl_correct_witness :
  wp (vmspace_init_pgtbl (λ _, 0x87) 5) (λ pgtbl s', length pgtbl = 8%nat ∧ ∀ r, r ∈ pgtbl → r mod 4096 = 5 ∧
    entry s' (remove_pcid r) 511 = Some 0x83) ready.
Proof.
  eapply wp_mono; [apply (vmspace_init_pgtbl_correct ready ∅ (λ _, 0x87) 5 ready_inv); [exact (room_le 20 8 _ ltac:(lia) ready_room)|lia|unfold u64; lia..]|].
  intros pgtbl s' (U'&_&Hl&_&Hr). split; [exact Hl|]. intros r Hin. destruct (Hr r Hin) as (Hm&_&_&_&He). split; [exact Hm|].
  exact (He 511 (or_intror eq_refl)).
Defined.

Lemma query_in_pgtbl_correct_witness :
  ∃ root s T U, pt_ok 510 s root T U ∧ wp (query_in_pgtbl true root (5 * 4096 + 7)) (λ r s', s' = s ∧ ∃ p, r = inr (Some (2 ^ 20 + 7), p)) s.
Proof.
  destruct (ready_range 510 ltac:(lia)) as (root&s&T&U&HI&Hp&_&He). exists root, s, T, U. split; [exact HI|].
  specialize (He 5 ltac:(lia)). rewrite decide_True in He by lia.
  pose proof (query_in_pgtbl_correct 510 s root T U true root (5 * 4096 + 7) HI Hp) as HQ.
  change ((5 * 4096 + 7) / 4096) with 5 in HQ. cbv zeta in HQ. rewrite He in HQ.
  eapply wp_mono; [apply HQ; [unfold user; lia|intros _ _; vm_compute; reflexivity]|].
  intros r s' [E (p&_&Hr)]. split; [exact E|]. exists p. rewrite Hr. vm_compute. reflexivity.
Defined.

Lemma map_range_in_pgtbl_correct_witness :
  ∃ root s, wp (map_range_in_pgtbl root (5 * 4096) (2 ^ 20) 8192 VMR_WRITE) (λ r _, r = 0) s.
Proof.
  destruct (ready_root 510 ltac:(lia)) as (root&s&_&HI&Hr&Hp). exists root, s. change (page_cnt 8192) with 2 in *.
  eapply wp_mono; [apply (map_range_in_pgtbl_correct 510 s root _ _ root 5 (2 ^ 20) 8192 VMR_WRITE HI Hp);
    [lia|change (page_cnt 8192) with 2; lia|unfold u64; lia|lia|exact (room_le 19 3 _ ltac:(lia) Hr)]|].
  intros r s' [E _]. exact E.
Defined.

Lemma map_query_roundtrip_witness :
  ∃ root s, wp (map_range_in_pgtbl root (5 * 4096) (2 ^ 20) 8192 VMR_WRITE;; query_in_pgtbl true root (6 * 4096 + 100))
    (λ r _, ∃ p, r = inr (Some (2 ^ 20 + 4096 + 100), p)) s.
Proof.
  destruct (ready_root 510 ltac:(lia)) as (root&s&_&HI&Hr&Hp). exists root, s.
  eapply wp_mono; [apply (map_query_roundtrip 510 s root _ _ root 5 (2 ^ 20) 8192 VMR_WRITE (6 * 4096 + 100) HI Hp);
    change (page_cnt 8192) with 2; [lia|lia|lia|exists 256; reflexivity|lia|vm_compute; discriminate|exact (room_le 19 3 _ ltac:(lia) Hr)|lia]|].
  intros r s' (p&e&E&_). exists p. exact E.
Defined.

Lemma map_page_in_pgtbl_correct_witness :
  ∃ root s, wp (map_page_in_pgtbl root (512 * 4096) (2 ^ 20) VMR_WRITE) (λ p s', entry s' p.1 p.2 = Some (new_pte (2 ^ 20) VMR_WRITE)) s.
Proof.
  destruct (ready_root 510 ltac:(lia)) as (root&s&_&HI&Hr&Hp). exists root, s.
  eapply wp_mono; [apply (map_page_in_pgtbl_correct 510 s root _ _ root 512 (2 ^ 20) VMR_WRITE HI Hp); [unfold user; lia|exact (room_le 19 3 _ ltac:(lia) Hr)]|].
  intros p s' [E _]. exact E.
Defined.

(** The two mapped pages and the table they are in *)
Lemma range_tables s root T U : pt_ok 510 s root T U →
  (∀ w, 0 ≤ w → entry_of s T w = if decide (5 ≤ w < 7) then new_pte (wrap_u64 (2 ^ 20 + (w - 5) * 4096)) VMR_WRITE else 0) →
  ∀ w, 5 ≤ w < 5 + page_cnt 8192 → is_Some (T !! (3, pre 3 w)).
Proof.
  intros HI He w Hw. change (page_cnt 8192) with 2 in Hw. specialize (He 5 ltac:(lia)). rewrite decide_True in He by lia. unfold entry_of in He.
  assert (pre 3 w = pre 3 5) as ->.
  { unfold pre. change (2 ^ (9 * (4 - 3))) with 512. change (5 / 512) with 0. apply Z.div_small. lia. }
  destruct (T !! (3, pre 3 5)) as [a|]; [by eexists|discriminate He].
Qed.

Lemma unmap_range_in_pgtbl_correct_witness :
  ∃ root s T U, pt_ok 510 s root T U ∧ has (entry_of s T 6) PAGE_PRESENT = true ∧
    wp (unmap_range_in_pgtbl root (5 * 4096) 8192) (λ r s', r = 0 ∧ entry_of s' T 6 = 0) s.
Proof.
  destruct (ready_range 510 ltac:(lia)) as (root&s&T&U&HI&Hp&_&He). exists root, s, T, U. split; [exact HI|].
  split; [rewrite (He 6) by lia; rewrite decide_True by lia; vm_compute; reflexivity|].
  eapply wp_mono; [apply (unmap_range_in_pgtbl_correct 510 s root T U root 5 8192 HI Hp); [lia|change (page_cnt 8192) with 2; lia]|].
  intros r s' (E&_&_&_&_&_&Hc). split; [exact E|]. apply (Hc (range_tables s root T U HI He)). change (page_cnt 8192) with 2. lia.
Defined.

Lemma unmap_range_in_pgtbl_misses_witness :
  ∃ root s T U, pt_ok 510 s root T U ∧ has (entry_of s T 512) PAGE_PRESENT = true ∧
    unmap_range_in_pgtbl root (511 * 4096) 8192 s = Ret (0, s).
Proof.
  destruct (ready_page 510 ltac:(lia)) as (root&s&T&U&HI&Hp&Hn&He). exists root, s, T, U. split; [exact HI|].
  split; [rewrite He; vm_compute; reflexivity|].
  apply (unmap_range_in_pgtbl_misses 510 s root T U root 511 8192 HI Hp); [lia|change (page_cnt 8192) with 2; lia|exact Hn|vm_compute; discriminate].
Defined.

Lemma mprotect_in_pgtbl_correct_witness :
  ∃ root s T U, pt_ok 510 s root T U ∧ has (entry_of s T 6) PAGE_RW = true ∧
    wp (mprotect_in_pgtbl root (5 * 4096) 8192 0) (λ r s', r = 0 ∧ has (entry_of s' T 6) PAGE_RW = false) s.
Proof.
  destruct (ready_range 510 ltac:(lia)) as (root&s&T&U&HI&Hp&_&He). exists root, s, T, U. split; [exact HI|].
  pose proof (He 6 ltac:(lia)) as E6. rewrite decide_True in E6 by lia. split; [rewrite E6; vm_compute; reflexivity|].
  eapply wp_mono; [apply (mprotect_in_pgtbl_correct 510 s root T U root 5 8192 0 HI Hp); [lia|change (page_cnt 8192) with 2; lia]|].
  intros r s' (E&_&_&_&_&Hc). split; [exact E|]. rewrite (Hc (range_tables s root T U HI He)) by (change (page_cnt 8192) with 2; lia).
  rewrite E6. vm_compute. reflexivity.
Defined.

Lemma set_write_in_pgtbl_correct_witness :
  ∃ root s T U, pt_ok 510 s root T U ∧ wp (set_write_in_pgtbl root (511 * 4096) 8192 false) (λ r s', r = 0 ∧ has (entry_of s' T 512) PAGE_RW = false) s.
Proof.
  destruct (ready_page 510 ltac:(lia)) as (root&s&T&U&HI&Hp&Hn&He). exists root, s, T, U. split; [exact HI|].
  eapply wp_mono; [apply (set_write_in_pgtbl_correct 510 s root T U root 511 8192 false HI Hp); [lia|change (page_cnt 8192) with 2; lia]|].
  intros r s' (E&_&_&Hc). split; [exact E|]. rewrite (Hc 512) by lia. rewrite He, decide_True; [vm_compute; reflexivity|].
  split; [change (page_cnt 8192) with 2; lia|vm_compute; reflexivity].
Defined.

Lemma free_page_table_correct_witness :
  ∃ root s T U, T ∖ {[(0, 0) := root]} ≠ ∅ ∧ pt_ok 510 s root T U ∧
    wp (free_page_table root) (λ _ s', ∃ U', ps_inv (src s') U' ∧ (root ∉ U')) s.
Proof.
  destruct (ready_range 510 ltac:(lia)) as (root&s&T&U&HI&Hp&Hne&_). exists root, s, T, U. split; [exact Hne|]. split; [exact HI|].
  eapply wp_mono; [apply (free_page_table_correct s root T U root HI Hp)|]. intros [] s' (U'&Hs'&HU). exists U'. split; [exact Hs'|].
  intros [_ Hx]%HU. exact (Hx _ (pt_root 510 _ _ _ _ HI)).
Defined.

(** A page table as on a running machine: [r0] and [r1] are roots that lead, for the kernel, to the tables of the boot code with pages of 1G, and
    [r0] maps a page of 4K at page 5 and one of 2M. *)
Definition five_pages : M (pgmem (mem pools)) (list Z) :=
  p1 ← new_ptp; p2 ← new_ptp; p3 ← new_ptp; p4 ← new_ptp; p5 ← new_ptp; mret [p1; p2; p3; p4; p5].
Definition table_with (l : list (Z * Z)) : list Z := foldr (λ '(i, e), <[Z.to_nat i := e]>) zero_ptp l.
Definition to_table (p : Z) : Z := p - KBASE + 0x7.
Definition PUD_DM : Z := KBASE + 0x200000.
Definition PUD_CODE : Z := KBASE + 0x201000.
Definition kernel_half : list (Z * Z) := [(510, to_table PUD_DM); (511, to_table PUD_CODE)].
Definition running (l : list Z) (s : pgmem (mem pools)) : pgmem (mem pools) :=
  match l with
  | [r0; r1; t1; t2; t3] => set_ptps (list_to_map
      [(r0, table_with ((0, to_table t1) :: kernel_half)); (r1, table_with kernel_half); (t1, table_with [(0, to_table t2)]);
       (t2, table_with [(0, to_table t3); (3, 0x600087)]); (t3, table_with [(5, 0x100007)]);
       (PUD_DM, table_with [(0, 0x183); (1, 0x40000183)]); (PUD_CODE, table_with [(510, 0x183); (511, 0x40000183)])]) s
  | _ => s
  end.
Definition result_or {B} (d : B) (r : outcome B) : B := match r with Ret x => x | Halt _ => d end.
Definition five : list Z * pgmem (mem pools) := result_or ([], ready) (five_pages ready).
Definition page_no (i : nat) : Z := nth i five.1 0.
Definition machine : pgmem (mem pools) := running five.1 five.2.

Lemma five_inv : ps_inv (src machine) (list_to_set five.1).
Proof.
  assert (wp five_pages (λ l s, ps_inv (src s) (list_to_set l) ∧ length l = 5%nat) ready) as H.
  { unfold five_pages. wp_seq. eapply wp_mono; [apply (wp_new_ptp ready ∅ 19 ready_inv ready_room)|]. intros p1 s1 (_&H1&R1&_&_). wp_seq.
    eapply wp_mono; [apply (wp_new_ptp s1 _ 18 H1 R1)|]. intros p2 s2 (_&H2&R2&_&_). wp_seq.
    eapply wp_mono; [apply (wp_new_ptp s2 _ 17 H2 R2)|]. intros p3 s3 (_&H3&R3&_&_). wp_seq.
    eapply wp_mono; [apply (wp_new_ptp s3 _ 16 H3 R3)|]. intros p4 s4 (_&H4&R4&_&_). wp_seq.
    eapply wp_mono; [apply (wp_new_ptp s4 _ 15 H4 R4)|]. intros p5 s5 (_&H5&_&_&_). wp_seq. split; [|done].
    eapply (eq_ind _ (λ U, ps_inv (src s5) U)); [exact H5|]. cbn. set_solver. }
  apply wp_inv in H as (l&s&Hrun&Hps&Hl). unfold machine, five. rewrite Hrun. cbn.
  destruct l as [|? [|? [|? [|? [|? [|]]]]]]; try discriminate Hl. exact Hps.
Qed.

Fixpoint room_offb (K : gset Z) (n : nat) (a : mem pools) : bool :=
  match n with
  | O => true
  | S n' => match get_page a with Ret (p, a') => negb (p =? 0) && negb (bool_decide (p ∈ K)) && room_offb K n' a' | Halt _ => false end
  end.
Lemma room_offb_room K n a : room_offb K n a = true → room_off K n a.
Proof.
  revert a. induction n as [|n IH]; intros a; cbn [room_offb room_off]; [done|]. destruct (get_page a) as [[p a']|]; [|intros E; discriminate E].
  intros [[E1 E2%negb_true_iff%bool_decide_eq_false]%andb_true_iff E3]%andb_true_iff. split_and!; [|exact E2|by apply IH]. intros ->. discriminate E1.
Qed.

Definition boot_tables : gset Z := {[PUD_DM; PUD_CODE]}.

(** The source may be copied, as a test *)
Definition source_okb (s : pgmem (mem pools)) (U K : gset Z) (sroot droot : Z) : bool :=
  forallb (λ b, bool_decide (b ∈ U ∪ K) && negb (b =? droot) && bool_decide (length <$> ptps s !! b = Some (Z.to_nat PTP_ENTRIES))) (tables_of 3 s sroot).
Lemma source_okb_ok s U K sroot droot : source_okb s U K sroot droot = true →
  ∀ b, b ∈ tables_of 3 s sroot → b ∈ U ∪ K ∧ b ≠ droot ∧ is_table s b.
Proof.
  unfold source_okb. rewrite forallb_forall. intros H b Hb%list_elem_of_In. specialize (H b Hb).
  apply andb_true_iff in H as [[H1%bool_decide_eq_true H2]%andb_true_iff H3%bool_decide_eq_true]. split_and!; [exact H1| |].
  - intros ->. by rewrite Z.eqb_refl in H2.
  - destruct (ptps s !! b) as [es|] eqn:E; [|discriminate H3]. injection H3 as H3. by exists es.
Qed.
Definition present_inb (es ds : list Z) : bool := forallb (λ '(e, x), negb (has x PAGE_PRESENT) || has e PAGE_PRESENT) (zip es ds).
Lemma present_inb_in es ds : present_inb es ds = true → present_in es ds.
Proof.
  unfold present_inb. rewrite forallb_forall. intros H j e x He Hx Hp. specialize (H (e, x)). cbv beta iota in H. rewrite Hp in H. apply H. apply list_elem_of_In, list_elem_of_lookup.
  exists j. rewrite lookup_zip_with, He. cbn. by rewrite Hx.
Qed.

Lemma pgtbl_deep_copy_correct_witness :
  view 3 machine (page_no 0) !! 510%nat = Some (VTable 0x7 ([VPage 0x183; VPage 0x40000183] ++ replicate 510 VNone)) ∧
  wp (pgtbl_deep_copy (page_no 0) (page_no 1)) (λ _ s', view 3 s' (page_no 1) = view 3 machine (page_no 0) ∧
    view 3 s' (page_no 0) = view 3 machine (page_no 0) ∧ PUD_DM ∉ tables_of 3 s' (page_no 1) ∧ page_no 4 ∉ tables_of 3 s' (page_no 1)) machine.
Proof.
  split; [vm_compute; reflexivity|].
  eapply wp_mono; [apply (pgtbl_deep_copy_correct machine (list_to_set five.1) boot_tables (page_no 0) (page_no 1) (page_no 0) (page_no 1) five_inv)|].
  - vm_compute. reflexivity.
  - vm_compute. reflexivity.
  - vm_compute. discriminate.
  - apply source_okb_ok. vm_compute. reflexivity.
  - apply (bool_decide_unpack _). vm_compute. exact I.
  - exists (table_with kernel_half). split; vm_compute; reflexivity.
  - apply present_inb_in. vm_compute. reflexivity.
  - apply room_offb_room. vm_compute. reflexivity.
  - intros [] s' (N&_&HN&Hv&Hs&Ht&_). split; [exact Hv|]. split; [exact Hs|].
    assert (PUD_DM ∈ (list_to_set five.1 ∪ boot_tables : gset Z)) as H1 by (apply (bool_decide_unpack _); vm_compute; exact I).
    assert (page_no 4 ∈ (list_to_set five.1 ∪ boot_tables : gset Z)) as H2 by (apply (bool_decide_unpack _); vm_compute; exact I).
    split; intros [E|Hin]%Ht; [vm_compute in E; discriminate E|exact (HN _ Hin H1)|vm_compute in E; discriminate E|exact (HN _ Hin H2)].
Defined.

