(* ===== verification/RbTree.v ===== *)
(** Red-black trees ([kernel/lib/rbtree.c], [common/rbtree.h], [common/rbtree_impl.h]).

    Nodes are embedded in the caller's structures and known by their address, 0 being [NULL].  A node
    keeps the address of its parent and its colour in one word.  The caller's comparison functions, which
    may follow pointers, are parameters and may fault.  A loop is bounded by the number of nodes in memory, which
    the theorems show to be enough. *)
From S2P Require Import Prelude.

Record rb_node := RbNode { __parent_color : Z; right_child : Z; left_child : Z }.

#[export] Instance rb_node_eq_dec : EqDecision rb_node.
Proof. solve_decision. Defined.

(** Nodes by address, and [root_node] of each [struct rb_root]. *)
Record rbmem := RbMem { rb_nodes : gmap Z rb_node; rb_roots : gmap Z Z }.
Abbreviation MR := (M rbmem).

(** ** Colours and parents *)

Definition RB_RED : Z := 0.
Definition RB_BLACK : Z := 1.
Definition __rb_parent (pc : Z) : Z := Z.land pc (Z.lnot 3).
Definition __rb_color (pc : Z) : Z := Z.land pc 1.

Definition set_parent_color (pc : Z) (n : rb_node) := RbNode pc (right_child n) (left_child n).
Definition set_left_child (x : Z) (n : rb_node) := RbNode (__parent_color n) (right_child n) x.
Definition set_right_child (x : Z) (n : rb_node) := RbNode (__parent_color n) x (left_child n).

Definition rb_get (p : Z) : MR rb_node := s ← get_state; from_opt (rb_nodes s !! p).
Definition rb_put (p : Z) (n : rb_node) : MR unit :=
  rb_get p;; modify (λ s, RbMem (<[p := n]> (rb_nodes s)) (rb_roots s)).
Definition rb_upd (p : Z) (f : rb_node → rb_node) : MR unit := n ← rb_get p; rb_put p (f n).

Definition rb_left (p : Z) : MR Z := n ← rb_get p; mret (left_child n).
Definition rb_right (p : Z) : MR Z := n ← rb_get p; mret (right_child n).
Definition get_root (this : Z) : MR Z := s ← get_state; from_opt (rb_roots s !! this).
Definition set_root (this x : Z) : MR unit :=
  get_root this;; modify (λ s, RbMem (rb_nodes s) (<[this := x]> (rb_roots s))).

Definition rb_parent (p : Z) : MR Z := n ← rb_get p; mret (__rb_parent (__parent_color n)).
Definition rb_color (p : Z) : MR Z := n ← rb_get p; mret (__rb_color (__parent_color n)).
Definition rb_is_black (p : Z) : MR bool := c ← rb_color p; mret (bool_decide (c = RB_BLACK)).
Definition rb_is_red (p : Z) : MR bool := c ← rb_color p; mret (bool_decide (c = RB_RED)).
Definition rb_red_parent (p : Z) : MR Z := n ← rb_get p; mret (__parent_color n).

Definition rb_set_parent (this parent : Z) : MR unit :=
  rb_upd this (λ n, set_parent_color (Z.lor parent (__rb_color (__parent_color n))) n).
Definition rb_set_color (this color : Z) : MR unit :=
  rb_upd this (λ n, set_parent_color (Z.lor (__rb_parent (__parent_color n)) color) n).

(** [struct rb_node **]: the root, or a child of a node *)
Inductive rb_link := RootLink (this : Z) | LeftLink (p : Z) | RightLink (p : Z).
Definition set_link (l : rb_link) (x : Z) : MR unit :=
  match l with
  | RootLink this => set_root this x
  | LeftLink p => rb_upd p (set_left_child x)
  | RightLink p => rb_upd p (set_right_child x)
  end.

(** [x && rb_is_red(x)], and [!x || rb_is_black(x)] *)
Definition red_node (x : Z) : MR bool := if bool_decide (x = 0) then mret false else rb_is_red x.
Definition no_or_black (x : Z) : MR bool := if bool_decide (x = 0) then mret true else rb_is_black x.

(** The bound of a loop over the nodes of a tree *)
Definition loop_bound : MR nat := s ← get_state; mret (S (size (rb_nodes s))).

Definition init_rb_root (root : Z) : MR unit := set_root root 0.

(** ** Links *)

Definition __rb_link_node (node parent : Z) (child_link : rb_link) : MR unit :=
  rb_upd node (set_parent_color 0);;
  rb_set_parent node parent;;
  rb_upd node (set_right_child 0);;
  rb_upd node (set_left_child 0);;
  set_link child_link node.

Definition __rb_change_child (root parent old new : Z) : MR unit :=
  (if negb (bool_decide (parent = 0)) then
     l ← rb_left parent;
     if bool_decide (l = old) then rb_upd parent (set_left_child new) else rb_upd parent (set_right_child new)
   else set_root root new);;
  when (negb (bool_decide (new = 0))) (rb_set_parent new parent).

Definition __connect34 (a b c t1 t2 t3 t4 : Z) : MR unit :=
  rb_upd a (set_left_child t1);;
  when (negb (bool_decide (t1 = 0))) (rb_set_parent t1 a);;
  rb_upd a (set_right_child t2);;
  when (negb (bool_decide (t2 = 0))) (rb_set_parent t2 a);;
  rb_upd c (set_left_child t3);;
  when (negb (bool_decide (t3 = 0))) (rb_set_parent t3 c);;
  rb_upd c (set_right_child t4);;
  when (negb (bool_decide (t4 = 0))) (rb_set_parent t4 c);;
  rb_upd b (set_left_child a);;
  rb_upd b (set_right_child c);;
  rb_set_parent a b;;
  rb_set_parent c b.

(** [if (!rb_parent(x)) root->root_node = x;] *)
Definition update_root (root x : Z) : MR unit :=
  p ← rb_parent x;
  when (bool_decide (p = 0)) (set_root root x).

(** ** Insertion *)

Fixpoint insert_color_loop (fuel : nat) (root node parent : Z) : MR unit :=
  match fuel with
  | O => halt OutOfFuel
  | S fuel' =>
      if bool_decide (parent = 0) then rb_set_color node RB_BLACK
      else
        black ← rb_is_black parent;
        if black : bool then mret tt
        else
          gparent ← rb_red_parent parent;
          gl ← rb_left gparent;
          if bool_decide (parent = gl) then
            uncle ← rb_right gparent;
            ub ← no_or_black uncle;
            if ub : bool then
              pl ← rb_left parent;
              if bool_decide (node = pl) then
                gp ← rb_parent gparent;
                __rb_change_child root gp gparent parent;;
                nl ← rb_left node; nr ← rb_right node; pr ← rb_right parent;
                __connect34 node parent gparent nl nr pr uncle;;
                rb_set_color parent RB_BLACK;;
                rb_set_color gparent RB_RED;;
                update_root root parent
              else
                gp ← rb_parent gparent;
                __rb_change_child root gp gparent node;;
                pl ← rb_left parent; nl ← rb_left node; nr ← rb_right node;
                __connect34 parent node gparent pl nl nr uncle;;
                rb_set_color node RB_BLACK;;
                rb_set_color gparent RB_RED;;
                update_root root node
            else
              rb_set_color gparent RB_RED;;
              rb_set_color parent RB_BLACK;;
              rb_set_color uncle RB_BLACK;;
              parent ← rb_parent gparent;
              insert_color_loop fuel' root gparent parent
          else
            uncle ← rb_left gparent;
            ub ← no_or_black uncle;
            if ub : bool then
              pr ← rb_right parent;
              if bool_decide (node = pr) then
                gp ← rb_parent gparent;
                __rb_change_child root gp gparent parent;;
                pl ← rb_left parent; nl ← rb_left node; nr ← rb_right node;
                __connect34 gparent parent node uncle pl nl nr;;
                rb_set_color parent RB_BLACK;;
                rb_set_color gparent RB_RED;;
                update_root root parent
              else
                gp ← rb_parent gparent;
                __rb_change_child root gp gparent node;;
                nl ← rb_left node; nr ← rb_right node; pr ← rb_right parent;
                __connect34 gparent node parent uncle nl nr pr;;
                rb_set_color node RB_BLACK;;
                rb_set_color gparent RB_RED;;
                update_root root node
            else
              rb_set_color gparent RB_RED;;
              rb_set_color parent RB_BLACK;;
              rb_set_color uncle RB_BLACK;;
              parent ← rb_parent gparent;
              insert_color_loop fuel' root gparent parent
  end.

Definition __rb_insert_color (root node : Z) : MR unit :=
  parent ← rb_parent node;
  fuel ← loop_bound;
  insert_color_loop fuel root node parent.

(** The loop of [rb_insert]: the link for the new node, and its parent. *)
Fixpoint insert_descend (less : Z → Z → option bool) (fuel : nat) (data cur parent : Z) (new_link : rb_link) : MR (rb_link * Z) :=
  match fuel with
  | O => halt OutOfFuel
  | S fuel' =>
      if bool_decide (cur = 0) then mret (new_link, parent)
      else
        lt ← from_opt (less data cur);
        if lt : bool then l ← rb_left cur; insert_descend less fuel' data l cur (LeftLink cur)
        else r ← rb_right cur; insert_descend less fuel' data r cur (RightLink cur)
  end.

Definition rb_insert (less : Z → Z → option bool) (this data : Z) : MR unit :=
  cur ← get_root this;
  fuel ← loop_bound;
  '(new_link, parent) ← insert_descend less fuel data cur 0 (RootLink this);
  __rb_link_node data parent new_link;;
  __rb_insert_color this data.

(** ** Removal *)

Definition rb_replace_node (this old new : Z) : MR unit :=
  o ← rb_get old;
  rb_put new o;;
  l ← rb_left new;
  when (negb (bool_decide (l = 0))) (rb_set_parent l new);;
  r ← rb_right new;
  when (negb (bool_decide (r = 0))) (rb_set_parent r new);;
  p ← rb_parent old;
  __rb_change_child this p old new.

(** [while (x->left_child) x = x->left_child;] and its mirror *)
Fixpoint leftmost (fuel : nat) (x : Z) : MR Z :=
  match fuel with
  | O => halt OutOfFuel
  | S fuel' => l ← rb_left x; if bool_decide (l = 0) then mret x else leftmost fuel' l
  end.
Fixpoint rightmost (fuel : nat) (x : Z) : MR Z :=
  match fuel with
  | O => halt OutOfFuel
  | S fuel' => r ← rb_right x; if bool_decide (r = 0) then mret x else rightmost fuel' r
  end.

(** The double black at [ret], if [succ] is black and its child cannot take the colour. *)
Definition erase_check (succ succ_child : Z) (ret : MR (Z * bool)) : MR (Z * bool) :=
  black ← rb_is_black succ;
  if black : bool then
    red ← red_node succ_child;
    if red : bool then rb_set_color succ_child RB_BLACK;; mret (0, false) else ret
  else mret (0, false).

(** The result is [ret] and [*is_left_child], which is read only if [ret] is not 0. *)
Definition __rb_erase (this node : Z) : MR (Z * bool) :=
  parent ← rb_parent node;
  l ← rb_left node;
  if bool_decide (l = 0) then
    r ← rb_right node;
    ret ← (if bool_decide (r = 0) then
             black ← rb_is_black node;
             if black && negb (bool_decide (parent = 0)) then
               pl ← rb_left parent; mret (parent, bool_decide (node = pl))
             else mret (0, false)
           else rb_set_color r RB_BLACK;; mret (0, false));
    r ← rb_right node;
    __rb_change_child this parent node r;;
    mret ret
  else
    r ← rb_right node;
    if bool_decide (r = 0) then
      __rb_change_child this parent node l;;
      l ← rb_left node;
      rb_set_color l RB_BLACK;;
      mret (0, false)
    else
      sl ← rb_left r;
      if bool_decide (sl = 0) then
        succ_child ← rb_right r;
        ret ← erase_check r succ_child (mret (r, false));
        __rb_change_child this parent node r;;
        c ← rb_color node;
        rb_set_color r c;;
        l ← rb_left node;
        rb_upd r (set_left_child l);;
        l ← rb_left node;
        rb_set_parent l r;;
        mret ret
      else
        fuel ← loop_bound;
        succ ← leftmost fuel r;
        parent ← rb_parent succ;
        succ_child ← rb_right succ;
        ret ← erase_check succ succ_child (pl ← rb_left parent; mret (parent, bool_decide (succ = pl)));
        __rb_change_child this parent succ succ_child;;
        rb_replace_node this node succ;;
        mret ret.

Fixpoint erase_color_loop (fuel : nat) (root node parent : Z) : MR unit :=
  match fuel with
  | O => halt OutOfFuel
  | S fuel' =>
      if bool_decide (parent = 0) then mret tt
      else
        pl ← rb_left parent;
        if bool_decide (node = pl) then
          slibing ← rb_right parent;
          black ← rb_is_black slibing;
          if black : bool then
            sr ← rb_right slibing;
            rr ← red_node sr;
            if rr : bool then
              nephew ← rb_right slibing;
              pp ← rb_parent parent;
              __rb_change_child root pp parent slibing;;
              sl ← rb_left slibing; nl ← rb_left nephew; nr ← rb_right nephew;
              __connect34 parent slibing nephew node sl nl nr;;
              c ← rb_color parent;
              rb_set_color slibing c;;
              rb_set_color parent RB_BLACK;;
              rb_set_color nephew RB_BLACK;;
              update_root root slibing
            else
              sl ← rb_left slibing;
              lr ← red_node sl;
              if lr : bool then
                nephew ← rb_left slibing;
                pp ← rb_parent parent;
                __rb_change_child root pp parent nephew;;
                nl ← rb_left nephew; nr ← rb_right nephew; sr ← rb_right slibing;
                __connect34 parent nephew slibing node nl nr sr;;
                c ← rb_color parent;
                rb_set_color nephew c;;
                rb_set_color parent RB_BLACK;;
                update_root root nephew
              else
                pb ← rb_is_black parent;
                if pb : bool then
                  rb_set_color slibing RB_RED;;
                  parent' ← rb_parent parent;
                  erase_color_loop fuel' root parent parent'
                else
                  rb_set_color parent RB_BLACK;;
                  rb_set_color slibing RB_RED
          else
            pp ← rb_parent parent;
            __rb_change_child root pp parent slibing;;
            sl ← rb_left slibing;
            rb_upd parent (set_right_child sl);;
            sl ← rb_left slibing;
            when (negb (bool_decide (sl = 0))) (rb_set_parent sl parent);;
            rb_upd slibing (set_left_child parent);;
            rb_set_parent parent slibing;;
            rb_set_color slibing RB_BLACK;;
            rb_set_color parent RB_RED;;
            update_root root slibing;;
            erase_color_loop fuel' root node parent
        else
          slibing ← rb_left parent;
          black ← rb_is_black slibing;
          if black : bool then
            sl ← rb_left slibing;
            lr ← red_node sl;
            if lr : bool then
              nephew ← rb_left slibing;
              pp ← rb_parent parent;
              __rb_change_child root pp parent slibing;;
              nl ← rb_left nephew; nr ← rb_right nephew; sr ← rb_right slibing;
              __connect34 nephew slibing parent nl nr sr node;;
              c ← rb_color parent;
              rb_set_color slibing c;;
              rb_set_color nephew RB_BLACK;;
              rb_set_color parent RB_BLACK;;
              update_root root slibing
            else
              sr ← rb_right slibing;
              rr ← red_node sr;
              if rr : bool then
                nephew ← rb_right slibing;
                pp ← rb_parent parent;
                __rb_change_child root pp parent nephew;;
                sl ← rb_left slibing; nl ← rb_left nephew; nr ← rb_right nephew;
                __connect34 slibing nephew parent sl nl nr node;;
                c ← rb_color parent;
                rb_set_color nephew c;;
                rb_set_color parent RB_BLACK;;
                update_root root nephew
              else
                pb ← rb_is_black parent;
                if pb : bool then
                  rb_set_color slibing RB_RED;;
                  parent' ← rb_parent parent;
                  erase_color_loop fuel' root parent parent'
                else
                  rb_set_color parent RB_BLACK;;
                  rb_set_color slibing RB_RED
          else
            pp ← rb_parent parent;
            __rb_change_child root pp parent slibing;;
            sr ← rb_right slibing;
            rb_upd parent (set_left_child sr);;
            sr ← rb_right slibing;
            when (negb (bool_decide (sr = 0))) (rb_set_parent sr parent);;
            rb_upd slibing (set_right_child parent);;
            rb_set_parent parent slibing;;
            rb_set_color slibing RB_BLACK;;
            rb_set_color parent RB_RED;;
            erase_color_loop fuel' root node parent
  end.

Definition __rb_erase_color (root parent : Z) (is_left_child : bool) : MR unit :=
  node ← (if is_left_child then rb_left parent else rb_right parent);
  fuel ← loop_bound;
  erase_color_loop (S fuel) root node parent.

Definition rb_erase (this node : Z) : MR unit :=
  '(rebalance, is_left_child) ← __rb_erase this node;
  when (negb (bool_decide (rebalance = 0))) (__rb_erase_color this rebalance is_left_child).

(** ** Search *)

Fixpoint search_loop (cmp : Z → option Z) (fuel : nat) (cur : Z) : MR Z :=
  match fuel with
  | O => halt OutOfFuel
  | S fuel' =>
      if bool_decide (cur = 0) then mret 0
      else
        cmp_ret ← from_opt (cmp cur);
        if bool_decide (cmp_ret < 0) then l ← rb_left cur; search_loop cmp fuel' l
        else if bool_decide (cmp_ret > 0) then r ← rb_right cur; search_loop cmp fuel' r
        else mret cur
  end.

(** [cmp] is the comparison with [key]. *)
Definition rb_search (this : Z) (cmp : Z → option Z) : MR Z :=
  cur ← get_root this;
  fuel ← loop_bound;
  search_loop cmp fuel cur.

Fixpoint search_first_loop (cmp : Z → option Z) (fuel : nat) (cur ret : Z) : MR Z :=
  match fuel with
  | O => halt OutOfFuel
  | S fuel' =>
      if bool_decide (cur = 0) then mret ret
      else
        c ← from_opt (cmp cur);
        if bool_decide (c ≤ 0) then
          let ret := if bool_decide (c = 0) then cur else ret in
          if negb (bool_decide (c = 0)) && negb (bool_decide (ret = 0)) then mret ret
          else l ← rb_left cur; search_first_loop cmp fuel' l ret
        else r ← rb_right cur; search_first_loop cmp fuel' r ret
  end.

Definition rb_search_fisrt (this : Z) (cmp : Z → option Z) : MR Z :=
  cur ← get_root this;
  fuel ← loop_bound;
  search_first_loop cmp fuel cur 0.

(** ** Traversal *)

(** [while ((parent = rb_parent(node)) && node == parent->right_child) node = parent;] *)
Fixpoint climb_right (fuel : nat) (node : Z) : MR Z :=
  match fuel with
  | O => halt OutOfFuel
  | S fuel' =>
      parent ← rb_parent node;
      if bool_decide (parent = 0) then mret parent
      else
        r ← rb_right parent;
        if bool_decide (node = r) then climb_right fuel' parent else mret parent
  end.
Fixpoint climb_left (fuel : nat) (node : Z) : MR Z :=
  match fuel with
  | O => halt OutOfFuel
  | S fuel' =>
      parent ← rb_parent node;
      if bool_decide (parent = 0) then mret parent
      else
        l ← rb_left parent;
        if bool_decide (node = l) then climb_left fuel' parent else mret parent
  end.

Definition rb_next (node : Z) : MR Z :=
  fuel ← loop_bound;
  r ← rb_right node;
  if negb (bool_decide (r = 0)) then leftmost fuel r else climb_right fuel node.

Definition rb_prev (node : Z) : MR Z :=
  fuel ← loop_bound;
  l ← rb_left node;
  if negb (bool_decide (l = 0)) then rightmost fuel l else climb_left fuel node.

Definition rb_first (this : Z) : MR Z :=
  cur ← get_root this;
  if bool_decide (cur = 0) then mret 0 else fuel ← loop_bound; leftmost fuel cur.

Definition rb_last (this : Z) : MR Z :=
  cur ← get_root this;
  if bool_decide (cur = 0) then mret 0 else fuel ← loop_bound; rightmost fuel cur.

Definition rb_next_match (node : Z) (cmp : Z → option Z) : MR Z :=
  ret ← rb_next node;
  if bool_decide (ret = 0) then mret ret
  else c ← from_opt (cmp ret); mret (if bool_decide (c = 0) then ret else 0).

(** [rb_for_each]: the nodes the loop visits, in order *)
Fixpoint for_each_loop (fuel : nat) (node : Z) : MR (list Z) :=
  match fuel with
  | O => halt OutOfFuel
  | S fuel' =>
      if bool_decide (node = 0) then mret []
      else next ← rb_next node; rest ← for_each_loop fuel' next; mret (node :: rest)
  end.

Definition rb_for_each (root : Z) : MR (list Z) :=
  first ← rb_first root;
  fuel ← loop_bound;
  for_each_loop fuel first.
