(* ===== verification/RbSpec.v ===== *)
(** Red-black trees as data: the words of a node, trees with their nodes' addresses, positions in a tree, and what insertion
    and removal do to them. *)
From stdpp Require Import sorting.
From S2P Require Import Prelude RbTree.

(** ** Words *)

Inductive color := Red | Black.
#[export] Instance color_eq_dec : EqDecision color.
Proof. solve_decision. Defined.

Definition cz (c : color) : Z := match c with Red => RB_RED | Black => RB_BLACK end.

(** An address that leaves the two lower bits of the word free *)
Definition al (p : Z) : Prop := (4 | p) ∧ 0 ≤ p.

Definition word (p : Z) (c : color) : Z := Z.lor p (cz c).

Lemma word_parent p c : al p → __rb_parent (word p c) = p.
Proof.
  intros [[q ->] _]. unfold __rb_parent, word. change 3 with (Z.ones 2). rewrite <-Z.ldiff_land, Z.ldiff_ones_r by lia.
  rewrite Z.shiftr_lor. replace (Z.shiftr (cz c) 2) with 0 by (by destruct c). rewrite Z.lor_0_r, Z.shiftr_div_pow2, Z.shiftl_mul_pow2 by lia.
  change (2 ^ 2) with 4. by rewrite Z.div_mul.
Qed.

Lemma word_color p c : al p → __rb_color (word p c) = cz c.
Proof.
  intros [[q ->] _]. unfold __rb_color, word. change 1 with (Z.ones 1) at 1. rewrite Z.land_ones by lia. change (2 ^ 1) with 2.
  rewrite <-Z.bit0_mod, Z.lor_spec. replace (Z.testbit (q * 4) 0) with false; [by destruct c|].
  rewrite Z.bit0_odd. replace (q * 4) with (2 * (q * 2)) by lia. by rewrite Z.odd_mul.
Qed.

Lemma word_red p : word p Red = p.
Proof. apply Z.lor_0_r. Qed.

Lemma al_0 : al 0.
Proof. split; [by exists 0|done]. Qed.

(** ** Trees *)

Inductive tree := Leaf | Node (c : color) (l : tree) (x : Z) (r : tree).

Definition troot (t : tree) : Z := match t with Leaf => 0 | Node _ _ x _ => x end.
Definition tcolor (t : tree) : color := match t with Leaf => Black | Node c _ _ _ => c end.
Definition blacken (t : tree) : tree := match t with Leaf => Leaf | Node _ l x r => Node Black l x r end.

(** The nodes from left to right *)
Fixpoint elems (t : tree) : list Z := match t with Leaf => [] | Node _ l x r => elems l ++ x :: elems r end.

Lemma elems_blacken t : elems (blacken t) = elems t.
Proof. by destruct t. Qed.
Lemma troot_blacken t : troot (blacken t) = troot t.
Proof. by destruct t. Qed.

(** ** Positions

    A position is the list of the nodes above it, from the parent to the root; [FL] says that it is below the left
    child, and holds the right subtree. *)
Inductive frame := FL (c : color) (x : Z) (r : tree) | FR (c : color) (l : tree) (x : Z).

Definition fcolor (f : frame) : color := match f with FL c _ _ | FR c _ _ => c end.
Definition faddr (f : frame) : Z := match f with FL _ x _ | FR _ _ x => x end.
Definition fsib (f : frame) : tree := match f with FL _ _ t | FR _ t _ => t end.
Definition recolor (c : color) (f : frame) : frame := match f with FL _ x r => FL c x r | FR _ l x => FR c l x end.

Definition cpar (C : list frame) : Z := match C with [] => 0 | f :: _ => faddr f end.

Definition plug1 (f : frame) (t : tree) : tree := match f with FL c x r => Node c t x r | FR c l x => Node c l x t end.
Fixpoint plug (C : list frame) (t : tree) : tree := match C with [] => t | f :: C' => plug C' (plug1 f t) end.

(** The nodes before and after a position *)
Fixpoint before (C : list frame) : list Z :=
  match C with [] => [] | FL _ _ _ :: C' => before C' | FR _ l x :: C' => before C' ++ elems l ++ [x] end.
Fixpoint after (C : list frame) : list Z :=
  match C with [] => [] | FL _ x r :: C' => x :: elems r ++ after C' | FR _ _ _ :: C' => after C' end.

Lemma plug_app C D t : plug (C ++ D) t = plug D (plug C t).
Proof. revert t. induction C as [|f C IH]; intros t; simpl; [done|]. by rewrite IH. Qed.

Lemma elems_plug C t : elems (plug C t) = before C ++ elems t ++ after C.
Proof.
  revert t. induction C as [|[c x r|c l x] C IH]; intros t; simpl; [by rewrite app_nil_r|..]; rewrite IH; simpl.
  - by rewrite <-app_assoc.
  - by rewrite <-!app_assoc.
Qed.

Lemma before_app C D : before (C ++ D) = before D ++ before C.
Proof. induction C as [|[c x r|c l x] C IH]; simpl; [by rewrite app_nil_r|done|]. by rewrite IH, <-app_assoc. Qed.
Lemma after_app C D : after (C ++ D) = after C ++ after D.
Proof. induction C as [|[c x r|c l x] C IH]; simpl; [done| |done]. by rewrite IH, <-app_assoc. Qed.

Lemma elems_ext C t u : elems t = elems u → elems (plug C t) = elems (plug C u).
Proof. intros E. by rewrite !elems_plug, E. Qed.

(** Every node has a position. *)
Lemma tree_at t x : x ∈ elems t → ∃ C c l r, t = plug C (Node c l x r).
Proof.
  induction t as [|c l IHl y r IHr]; simpl; [by intros ?%elem_of_nil|].
  intros [(C&c'&l'&r'&->)%IHl|[->|(C&c'&l'&r'&->)%IHr]%elem_of_cons]%elem_of_app.
  - exists (C ++ [FL c y r]), c', l', r'. by rewrite plug_app.
  - by exists [], c, l, r.
  - exists (C ++ [FR c l y]), c', l', r'. by rewrite plug_app.
Qed.

(** ** Balance

    [is_rb pc n t]: below a node of colour [pc], the tree [t] has no red node with a red parent, and [n] black nodes on every
    path.  A tree is balanced if this holds below a red node: then its root is black. *)
Fixpoint is_rb (pc : color) (n : nat) (t : tree) : Prop :=
  match t with
  | Leaf => n = O
  | Node Red l _ r => pc = Black ∧ is_rb Red n l ∧ is_rb Red n r
  | Node Black l _ r => match n with O => False | S m => is_rb Black m l ∧ is_rb Black m r end
  end.

Definition balanced (t : tree) : Prop := ∃ n, is_rb Red n t.

Definition hd_color (C : list frame) : color := match C with [] => Red | f :: _ => fcolor f end.

(** What a position asks of the tree there: [n] black nodes on every path. *)
Fixpoint ctx_ok (C : list frame) (n : nat) : Prop :=
  match C with
  | [] => True
  | f :: C' => is_rb (fcolor f) n (fsib f) ∧
      match fcolor f with Red => hd_color C' = Black ∧ ctx_ok C' n | Black => ctx_ok C' (S n) end
  end.

Lemma is_rb_weaken pc n t : is_rb pc n t → is_rb Black n t.
Proof. destruct t as [|[] l x r]; simpl; naive_solver. Qed.

Lemma is_rb_black pc n t : is_rb pc n t → tcolor t = Black → is_rb Red n t.
Proof. destruct t as [|[] l x r]; simpl; naive_solver. Qed.

Lemma is_rb_blacken n l x r pc : is_rb pc n (Node Red l x r) → is_rb Red (S n) (Node Black l x r).
Proof. simpl. intros (_&?&?). split; by eapply is_rb_weaken. Qed.

Lemma plug_rb C n t : ctx_ok C n → is_rb (hd_color C) n t → balanced (plug C t).
Proof.
  revert n t. induction C as [|f C IH]; intros n t HC Ht; simpl in *; [by exists n|].
  destruct HC as [Hs HC]. destruct f as [[] x r|[] l x]; simpl in *.
  1, 3: destruct HC as [Hh HC]; eapply (IH n); [done|]; simpl; by rewrite Hh.
  all: by eapply (IH (S n)).
Qed.

Lemma plug_rb_inv C t : balanced (plug C t) → ∃ n, ctx_ok C n ∧ is_rb (hd_color C) n t.
Proof.
  revert t. induction C as [|f C IH]; intros t; simpl; [by intros [n ?]; exists n|].
  intros (n&HC&Ht)%IH. destruct f as [[] x r|[] l x]; simpl in *.
  1, 3: destruct Ht as (?&?&?); by exists n.
  all: destruct n as [|n]; [done|]; destruct Ht; by exists n.
Qed.

Lemma balanced_black t : balanced t → tcolor t = Black.
Proof. intros [n Hn]. destruct t as [|[] l x r]; naive_solver. Qed.

(** ** Insertion *)

(** The red tree [Node Red l x r] at [C]: the code of [__rb_insert_color]. *)
Fixpoint ins_fix (C : list frame) (l : tree) (x : Z) (r : tree) {struct C} : tree :=
  match C with
  | [] => Node Black l x r
  | f :: C' =>
      match fcolor f, C' with
      | Black, _ | Red, [] => plug C (Node Red l x r)
      | Red, g :: C'' =>
          match g with
          | FL _ gx u =>
              match tcolor u with
              | Black =>
                  plug C'' match f with
                  | FL _ px pr => Node Black (Node Red l x r) px (Node Red pr gx u)
                  | FR _ pl px => Node Black (Node Red pl px l) x (Node Red r gx u)
                  end
              | Red => ins_fix C'' (plug1 (recolor Black f) (Node Red l x r)) gx (blacken u)
              end
          | FR _ u gx =>
              match tcolor u with
              | Black =>
                  plug C'' match f with
                  | FR _ pl px => Node Black (Node Red u gx pl) px (Node Red l x r)
                  | FL _ px pr => Node Black (Node Red u gx l) x (Node Red r px pr)
                  end
              | Red => ins_fix C'' (blacken u) gx (plug1 (recolor Black f) (Node Red l x r))
              end
          end
      end
  end.

(** Lists of nodes, up to the association of [++] *)
Ltac elems_eq := repeat progress (simpl; rewrite <-?app_assoc, ?elems_blacken); done.

(** Two frames at a time *)
Lemma frames_ind (P : list frame → Prop) : P [] → (∀ f, P [f]) → (∀ f g C, P C → P (f :: g :: C)) → ∀ C, P C.
Proof.
  intros H0 H1 H2 C. enough (P C ∧ ∀ f, P (f :: C)) by naive_solver. induction C as [|g C [IH1 IH2]]; split; auto.
Qed.

Lemma ins_fix_elems C l x r : elems (ins_fix C l x r) = elems (plug C (Node Red l x r)).
Proof.
  revert l x r. induction C as [|f|f g C IH] using frames_ind; intros l x r; [done|by simpl; destruct (fcolor f)|].
  cbn [ins_fix]. destruct (fcolor f); [|done]. destruct g as [gc gx u|gc u gx], (tcolor u).
  1, 3: rewrite IH; cbn [plug]; apply elems_ext; destruct f; elems_eq.
  all: cbn [plug]; apply elems_ext; destruct f; elems_eq.
Qed.

Lemma ins_fix_balanced C n l x r : ctx_ok C n → is_rb Red n l → is_rb Red n r → balanced (ins_fix C l x r).
Proof.
  revert n l x r. induction C as [|f|f g C IH] using frames_ind; intros n l x r HC Hl Hr.
  - exists (S n). simpl. split; by eapply is_rb_weaken.
  - simpl in HC. destruct HC as [Hs HC]. simpl. destruct (fcolor f) eqn:Ef; [naive_solver|].
    eapply (plug_rb [f] n); simpl; rewrite Ef; done.
  - cbn [ctx_ok ins_fix] in *. destruct HC as [Hs HC]. destruct (fcolor f) eqn:Ef.
    2: { eapply (plug_rb (f :: g :: C) n); simpl; rewrite Ef; [|done]. by split. }
    destruct HC as (Hg&Hu&HC). cbn [hd_color] in Hg. rewrite Hg in *.
    destruct g as [gc gx u|gc u gx]; simpl in Hg, Hu; subst gc; destruct (tcolor u) eqn:Eu.
    1, 3: destruct u as [|[] ul ux ur]; [done| |done]; simpl in Hu; destruct Hu as (_&?&?); eapply (IH (S n)); [done|..];
      destruct f; simpl in *; subst; simpl; split_and!; try done; by eapply is_rb_weaken.
    all: eapply (plug_rb C (S n)); [done|]; pose proof (is_rb_black _ _ _ Hu Eu); destruct f; simpl in *; subst; simpl; done.
Qed.

(** ** Removal *)

Inductive era_result := Done (t : tree) | Up (t : tree).

(** The tree [t], which lacks a black node, below [px] of colour [pc] and beside the black node [s]. *)
Definition era_left (pc : color) (t : tree) (px : Z) (s : tree) : era_result :=
  match s with
  | Leaf => Done (Node pc t px s)
  | Node _ sl sx sr =>
      match sr with
      | Node Red nl n nr => Done (Node pc (Node Black t px sl) sx (Node Black nl n nr))
      | _ =>
          match sl with
          | Node Red nl n nr => Done (Node pc (Node Black t px nl) n (Node Black nr sx sr))
          | _ => (if pc then Done else Up) (Node Black t px (Node Red sl sx sr))
          end
      end
  end.
Definition era_right (pc : color) (s : tree) (px : Z) (t : tree) : era_result :=
  match s with
  | Leaf => Done (Node pc s px t)
  | Node _ sl sx sr =>
      match sl with
      | Node Red nl n nr => Done (Node pc (Node Black nl n nr) sx (Node Black sr px t))
      | _ =>
          match sr with
          | Node Red nl n nr => Done (Node pc (Node Black sl sx nl) n (Node Black nr px t))
          | _ => (if pc then Done else Up) (Node Black (Node Red sl sx sr) px t)
          end
      end
  end.

Lemma era_left_near pc t px sc nl n nr sx sr : tcolor sr = Black →
  era_left pc t px (Node sc (Node Red nl n nr) sx sr) = Done (Node pc (Node Black t px nl) n (Node Black nr sx sr)).
Proof. by destruct sr as [|[] ???]. Qed.
Lemma era_left_none pc t px sc sl sx sr : tcolor sr = Black → tcolor sl = Black →
  era_left pc t px (Node sc sl sx sr) = (if pc then Done else Up) (Node Black t px (Node Red sl sx sr)).
Proof. by destruct sr as [|[] ???], sl as [|[] ???]. Qed.
Lemma era_right_near pc t px sc sl sx nl n nr : tcolor sl = Black →
  era_right pc (Node sc sl sx (Node Red nl n nr)) px t = Done (Node pc (Node Black sl sx nl) n (Node Black nr px t)).
Proof. by destruct sl as [|[] ???]. Qed.
Lemma era_right_none pc t px sc sl sx sr : tcolor sl = Black → tcolor sr = Black →
  era_right pc (Node sc sl sx sr) px t = (if pc then Done else Up) (Node Black (Node Red sl sx sr) px t).
Proof. by destruct sl as [|[] ???], sr as [|[] ???]. Qed.

Definition era_step (f : frame) (t : tree) : era_result :=
  match f with
  | FL pc px (Node Red sl sx sr) => match era_left Red t px sl with Done u | Up u => Done (Node Black u sx sr) end
  | FL pc px s => era_left pc t px s
  | FR pc (Node Red sl sx sr) px => match era_right Red sr px t with Done u | Up u => Done (Node Black sl sx u) end
  | FR pc s px => era_right pc s px t
  end.

Fixpoint era_fix (C : list frame) (t : tree) : tree :=
  match C with
  | [] => t
  | f :: C' => match era_step f t with Done u => plug C' u | Up u => era_fix C' u end
  end.

Definition result_tree (r : era_result) : tree := match r with Done t | Up t => t end.

Lemma era_left_elems pc t px s : elems (result_tree (era_left pc t px s)) = elems t ++ px :: elems s.
Proof.
  destruct s as [|sc sl sx sr]; [done|]. destruct sr as [|[] nl n nr]; [destruct sl as [|[] ? ? ?]|elems_eq|destruct sl as [|[] ? ? ?]];
    destruct pc; elems_eq.
Qed.
Lemma era_right_elems pc t px s : elems (result_tree (era_right pc s px t)) = elems s ++ px :: elems t.
Proof.
  destruct s as [|sc sl sx sr]; [done|]. destruct sl as [|[] nl n nr]; [destruct sr as [|[] ? ? ?]|elems_eq|destruct sr as [|[] ? ? ?]];
    destruct pc; elems_eq.
Qed.

Lemma era_step_elems f t : elems (result_tree (era_step f t)) = elems (plug1 f t).
Proof.
  destruct f as [pc px [|[] sl sx sr]|pc [|[] sl sx sr] px]; cbn [era_step];
    try (rewrite era_left_elems || rewrite era_right_elems); try done.
  - pose proof (era_left_elems Red t px sl) as E. destruct (era_left Red t px sl); simpl in *; rewrite E; elems_eq.
  - pose proof (era_right_elems Red t px sr) as E. destruct (era_right Red sr px t); simpl in *; rewrite E; elems_eq.
Qed.

Lemma era_fix_elems C t : elems (era_fix C t) = elems (plug C t).
Proof.
  revert t. induction C as [|f C IH]; intros t; [done|]. pose proof (era_step_elems f t) as E. cbn [era_fix plug].
  destruct (era_step f t) as [u|u]; simpl in E; [|rewrite IH]; by apply elems_ext.
Qed.

Lemma is_rb_strengthen pc n t : is_rb Red n t → is_rb pc n t.
Proof. destruct t as [|[] l x r]; simpl; naive_solver. Qed.

(** The result below a node of colour [pc] where [n + 1] black nodes are asked for. *)
Definition era_ok (pc : color) (n : nat) (r : era_result) : Prop :=
  match r with
  | Done u => match pc with Red => is_rb Black (S n) u | Black => is_rb Red (S (S n)) u end
  | Up u => pc = Black ∧ is_rb Red (S n) u
  end.

Lemma era_left_ok pc n t px s : is_rb Red n t → is_rb pc (S n) s → tcolor s = Black → era_ok pc n (era_left pc t px s).
Proof.
  intros Ht Hs Ec. pose proof (is_rb_strengthen Black n t Ht). destruct s as [|[] sl sx sr]; [done..|]. simpl in Hs. destruct Hs as [Hl Hr].
  destruct sr as [|[] nl y nr]; cycle 1.
  { destruct Hr as (_&?&?). destruct pc; simpl; split_and!; eauto using is_rb_weaken. }
  all: destruct sl as [|[] ? ? ?]; simpl in *; destruct pc; simpl in *; naive_solver eauto using is_rb_weaken.
Qed.
Lemma era_right_ok pc n t px s : is_rb Red n t → is_rb pc (S n) s → tcolor s = Black → era_ok pc n (era_right pc s px t).
Proof.
  intros Ht Hs Ec. pose proof (is_rb_strengthen Black n t Ht). destruct s as [|[] sl sx sr]; [done..|]. simpl in Hs. destruct Hs as [Hl Hr].
  destruct sl as [|[] nl y nr]; cycle 1.
  { destruct Hl as (_&?&?). destruct pc; simpl; split_and!; eauto using is_rb_weaken. }
  all: destruct sr as [|[] ? ? ?]; simpl in *; destruct pc; simpl in *; naive_solver eauto using is_rb_weaken.
Qed.

Lemma era_step_ok f n t : is_rb Red n t → is_rb (fcolor f) (S n) (fsib f) → era_ok (fcolor f) n (era_step f t).
Proof.
  intros Ht Hs. destruct f as [pc px [|[] sl sx sr]|pc [|[] sl sx sr] px]; simpl fcolor in *; simpl fsib in *.
  1, 4: done.
  1, 3: destruct Hs as (->&Hl&Hr); pose proof (balanced_black sl ltac:(by eexists)); pose proof (balanced_black sr ltac:(by eexists)).
  - pose proof (era_left_ok Red n t px sl Ht Hl ltac:(done)) as Ho. cbn [era_step].
    destruct (era_left Red t px sl) as [u|u]; simpl in *; [|naive_solver]. split; [done|]. by eapply is_rb_weaken.
  - pose proof (era_right_ok Red n t px sr Ht Hr ltac:(done)) as Ho. cbn [era_step].
    destruct (era_right Red sr px t) as [u|u]; simpl in *; [|naive_solver]. split; [|done]. by eapply is_rb_weaken.
  - by apply era_left_ok.
  - by apply era_right_ok.
Qed.

Lemma era_fix_balanced C n t : ctx_ok C (S n) → is_rb Red n t → balanced (era_fix C t).
Proof.
  revert n t. induction C as [|f C IH]; intros n t HC Ht; [by exists n|]. cbn [ctx_ok era_fix] in *. destruct HC as [Hs HC].
  pose proof (era_step_ok f n t Ht Hs) as Ho. destruct (era_step f t) as [u|u]; simpl in Ho.
  - destruct (fcolor f); [|by eapply plug_rb; [done|]; apply is_rb_strengthen]. destruct HC as [Hh HC]. eapply plug_rb; [done|]. by rewrite Hh.
  - destruct Ho as [E Hu]. rewrite E in HC. by eapply IH.
Qed.

(** The tree at [C] when a node of colour [c] with the one subtree [t] is taken out. *)
Definition cut (C : list frame) (c : color) (t : tree) : tree :=
  match c, tcolor t with
  | Red, _ => plug C t
  | Black, Red => plug C (blacken t)
  | Black, Black => era_fix C t
  end.

Lemma cut_elems C c t : elems (cut C c t) = elems (plug C t).
Proof.
  unfold cut. destruct c; [done|]. destruct (tcolor t); [|apply era_fix_elems]. apply elems_ext. apply elems_blacken.
Qed.

Lemma cut_balanced C c t x : balanced (plug C (Node c Leaf x t)) → balanced (cut C c t).
Proof.
  intros (n&HC&Ht)%plug_rb_inv. unfold cut. destruct c; simpl in Ht.
  - destruct Ht as (_&_&Ht). eapply plug_rb; [done|]. by apply is_rb_strengthen.
  - destruct n as [|n]; [done|]. destruct Ht as [_ Ht]. destruct (tcolor t) eqn:Et.
    + destruct t as [|[] tl y tr]; [done| |done]. eapply plug_rb; [done|]. apply is_rb_strengthen. by eapply is_rb_blacken.
    + eapply era_fix_balanced; [done|]. by eapply is_rb_black.
Qed.

Lemma balanced_swap C c t x : balanced (plug C (Node c t x Leaf)) → balanced (plug C (Node c Leaf x t)).
Proof. intros (n&HC&Ht)%plug_rb_inv. apply (plug_rb _ n); [done|]. destruct c; simpl in *; [naive_solver|]. destruct n; naive_solver. Qed.

(** A node with one subtree is black, and the subtree is red. *)
Lemma one_child C c t x : t ≠ Leaf → balanced (plug C (Node c Leaf x t)) ∨ balanced (plug C (Node c t x Leaf)) → c = Black ∧ tcolor t = Red.
Proof.
  intros Hne HB. destruct HB as [(n&_&Ht)%plug_rb_inv|(n&_&Ht)%plug_rb_inv]; destruct t as [|[] tl y tr], c; simpl in *; try done; destruct n; naive_solver.
Qed.

(** The same node with another address *)
Lemma balanced_rename D c l x y C t : balanced (plug (D ++ FR c l x :: C) t) → balanced (plug (D ++ FR c l y :: C) t).
Proof.
  assert (∀ D, hd_color (D ++ FR c l y :: C) = hd_color (D ++ FR c l x :: C)) as Hhd by (by intros [|]).
  intros (n&HC&Ht)%plug_rb_inv. apply (plug_rb _ n); [|by rewrite Hhd]. clear Ht.
  revert n HC. induction D as [|f D IH]; intros n; simpl; [done|]. rewrite Hhd. intros [Hs HC]. split; [done|]. destruct (fcolor f); naive_solver.
Qed.

(** The leftmost node of a tree *)
Definition is_left (f : frame) : Prop := match f with FL _ _ _ => True | FR _ _ _ => False end.

Lemma tree_min t : t ≠ Leaf → ∃ D c x r, t = plug D (Node c Leaf x r) ∧ Forall is_left D.
Proof.
  induction t as [|c l IH x r _]; [done|]. intros _. destruct l as [|lc ll lx lr]; [by exists [], c, x, r|].
  destruct IH as (D&c'&x'&r'&->&HD); [done|]. exists (D ++ [FL c x r]), c', x', r'. rewrite plug_app. split; [done|].
  apply Forall_app. split; [done|]. by apply Forall_singleton.
Qed.

Lemma before_left D : Forall is_left D → before D = [].
Proof. induction 1 as [|[] D Hf _ IH]; [done|done|]. destruct Hf. Qed.

(** ** The place of a new node *)

(** The answers of the comparison on the way down *)
Definition path_ok (f : Z → option bool) (g : frame) : Prop :=
  match g with FL _ x _ => f x = Some true | FR _ _ x => f x = Some false end.

Lemma before_last f D : Forall (path_ok f) D → before D = [] ∨ ∃ xs x, before D = xs ++ [x] ∧ f x = Some false.
Proof.
  induction 1 as [|[c x r|c l x] D Hx _ IH]; simpl; [by left|done|]. right. exists (before D ++ elems l), x. by rewrite <-app_assoc.
Qed.
Lemma after_head f D : Forall (path_ok f) D → after D = [] ∨ ∃ xs x, after D = x :: xs ∧ f x = Some true.
Proof. induction 1 as [|[c x r|c l x] D Hx _ IH]; simpl; [by left| |done]. right. by exists (elems r ++ after D), x. Qed.

(** If the comparison is false on a first part of the nodes and true on the others, the place is between them. *)
Lemma path_split f D xs ys : Forall (path_ok f) D → before D ++ after D = xs ++ ys →
  Forall (λ x, f x = Some false) xs → Forall (λ y, f y = Some true) ys → before D = xs ∧ after D = ys.
Proof.
  intros HD E Hx Hy. destruct (decide (length (before D) = length xs)) as [El|Hne]; [by apply app_inj_1|].
  exfalso. destruct (decide (length (before D) < length xs)%nat).
  - destruct (after_head f D HD) as [E0|(zs&x&Ez&Hfx)]; [rewrite E0, app_nil_r in E; apply (f_equal length) in E; rewrite length_app in E; lia|].
    assert (xs !! length (before D) = Some x) as Hl%list_elem_of_lookup_2.
    { rewrite <-(lookup_app_l xs ys), <-E by lia. rewrite lookup_app_r, Nat.sub_diag, Ez by lia. done. }
    rewrite Forall_forall in Hx. specialize (Hx x Hl). congruence.
  - destruct (before_last f D HD) as [E0|(zs&x&Ez&Hfx)]; [rewrite E0 in *; simpl in *; lia|].
    assert (x ∈ ys) as Hl; [|rewrite Forall_forall in Hy; specialize (Hy x Hl); congruence].
    rewrite Ez, <-app_assoc in E. rewrite Ez, length_app in *. simpl in *.
    apply (list_elem_of_lookup_2 _ (length zs - length xs)). rewrite <-(lookup_app_r xs ys), <-E by lia.
    by rewrite lookup_app_r, Nat.sub_diag by lia.
Qed.

Lemma plug_left D c x r : D ≠ [] → Forall is_left D → ∃ c' l' x' r', plug D (Node c Leaf x r) = Node c' l' x' r' ∧ l' ≠ Leaf.
Proof.
  intros Hne HD. destruct D as [|g D] using rev_ind; [done|]. apply Forall_app in HD as [_ [Hg _]%Forall_cons].
  rewrite plug_app. destruct g as [c' x' r'|]; [|destruct Hg]. exists c', (plug D (Node c Leaf x r)), x', r'. split; [done|].
  intros E. apply (f_equal elems) in E. rewrite elems_plug in E. by destruct (before D).
Qed.

(** The position of a node between the nodes before and after it *)
Lemma tree_split t xs x ys : elems t = xs ++ x :: ys →
  ∃ C c l r, t = plug C (Node c l x r) ∧ xs = before C ++ elems l ∧ ys = elems r ++ after C.
Proof.
  revert xs ys. induction t as [|c l IHl y r IHr]; intros xs ys E; [by destruct xs|]. simpl in E.
  apply app_eq_inv in E as [(k&El&Ex)|(k&Ex&Ey)].
  - destruct k as [|z k]; simpl in Ex; injection Ex as -> ->.
    + exists [], c, l, r. simpl. rewrite !app_nil_r in *. done.
    + destruct (IHl _ _ El) as (C&c'&l'&r'&->&->&->). exists (C ++ [FL c y r]), c', l', r'. rewrite plug_app. split; [done|].
      rewrite before_app, after_app. simpl. by rewrite <-?app_assoc, ?app_nil_r.
  - destruct k as [|z k]; simpl in Ey; injection Ey as <- Er.
    + exists [], c, l, r. simpl. rewrite !app_nil_r in *. done.
    + destruct (IHr _ _ Er) as (C&c'&l'&r'&->&->&->). exists (C ++ [FR c l y]), c', l', r'. rewrite plug_app. split; [done|].
      rewrite before_app, after_app. simpl. by rewrite <-?app_assoc, ?app_nil_r.
Qed.

(** ** Search

    [cmp] compares the key with a node.  The tree is in order for the key if the nodes that are smaller come first, then those
    that match, then those that are greater. *)
Definition key_le (cmp : Z → option Z) (x y : Z) : Prop :=
  ∀ a b, cmp x = Some a → cmp y = Some b → (a ≤ 0 → b ≤ 0) ∧ (a < 0 → b < 0).
Definition in_order (cmp : Z → option Z) (xs : list Z) : Prop :=
  StronglySorted (key_le cmp) xs ∧ Forall (λ x, is_Some (cmp x)) xs.

Lemma in_order_node cmp c l x r : in_order cmp (elems (Node c l x r)) →
  in_order cmp (elems l) ∧ in_order cmp (elems r) ∧ is_Some (cmp x) ∧
  (∀ y, y ∈ elems l → key_le cmp y x) ∧ ∀ y, y ∈ elems r → key_le cmp x y.
Proof.
  simpl. intros [Hs Hd]. apply Forall_app in Hd as [Hl [Hx Hr]%Forall_cons]. apply StronglySorted_app in Hs as (Hlr&Hsl&[Hsr Hxr]%StronglySorted_inv).
  rewrite Forall_forall in Hxr. unfold in_order. split_and!; try done. intros y Hy. apply Hlr; [done|]. by left.
Qed.

Lemma before_greater cmp x a y : cmp x = Some a → a > 0 → is_Some (cmp y) → key_le cmp y x → cmp y ≠ Some 0.
Proof. intros Hx Ha _ Hle Hy. destruct (Hle _ _ Hy Hx). lia. Qed.
Lemma after_smaller cmp x a y : cmp x = Some a → a < 0 → is_Some (cmp y) → key_le cmp x y → cmp y ≠ Some 0.
Proof. intros Hx Ha _ Hle Hy. destruct (Hle _ _ Hx Hy). lia. Qed.

(** The first of the nodes [xs] that matches, if any *)
Fixpoint first_match (cmp : Z → option Z) (xs : list Z) : option Z :=
  match xs with [] => None | x :: xs' => if decide (cmp x = Some 0) then Some x else first_match cmp xs' end.

Lemma first_match_app cmp xs ys : first_match cmp (xs ++ ys) = match first_match cmp xs with Some x => Some x | None => first_match cmp ys end.
Proof. induction xs as [|x xs IH]; simpl; [done|]. case_decide; [done|]. by rewrite IH. Qed.

Lemma first_match_none cmp xs : (∀ x, x ∈ xs → cmp x ≠ Some 0) → first_match cmp xs = None.
Proof. induction xs as [|x xs IH]; intros Hx; simpl; [done|]. rewrite decide_False by (apply Hx; left). apply IH. intros y Hy. apply Hx. by right. Qed.

(** The last of a list, or 0 *)
Definition last0 (xs : list Z) : Z := default 0 (last xs).

(** ** Height

    A balanced tree of [n] nodes is at most [2 log2 (n + 1)] high. *)
Fixpoint height (t : tree) : nat := match t with Leaf => 0 | Node _ l _ r => S (Nat.max (height l) (height r)) end.

Lemma height_elems t : (height t ≤ length (elems t))%nat.
Proof. induction t as [|c l IHl x r IHr]; simpl; [done|]. rewrite length_app. simpl. lia. Qed.

Lemma is_rb_height pc n t : is_rb pc n t → (height t ≤ 2 * n + match pc with Red => 0 | Black => 1 end)%nat.
Proof.
  revert pc n. induction t as [|[] l IHl x r IHr]; intros pc n; simpl; [lia|..].
  - intros (->&Hl%IHl&Hr%IHr). simpl in *. lia.
  - destruct n as [|n]; [done|]. intros [Hl%IHl Hr%IHr]. destruct pc; simpl in *; lia.
Qed.

Lemma is_rb_size pc n t : is_rb pc n t → (2 ^ n ≤ S (length (elems t)))%nat.
Proof.
  revert pc n. induction t as [|[] l IHl x r IHr]; intros pc n; simpl; [by intros ->|..]; rewrite length_app; simpl.
  - intros (_&Hl%IHl&Hr%IHr). lia.
  - destruct n as [|n]; [done|]. intros [Hl%IHl Hr%IHr]. simpl. lia.
Qed.

Lemma balanced_height t : balanced t → (height t ≤ 2 * Nat.log2 (S (length (elems t))))%nat.
Proof.
  intros [n Hn]. pose proof (is_rb_height _ _ _ Hn) as Hh. simpl in Hh. pose proof (is_rb_size _ _ _ Hn) as Hs.
  apply Nat.log2_le_mono in Hs. rewrite Nat.log2_pow2 in Hs by lia. lia.
Qed.

(** ** Trees in memory *)

Fixpoint in_heap (m : gmap Z rb_node) (p : Z) (t : tree) : Prop :=
  match t with
  | Leaf => True
  | Node c l x r => (al x ∧ 0 < x) ∧ m !! x = Some (RbNode (word p c) (troot r) (troot l)) ∧ in_heap m x l ∧ in_heap m x r
  end.

(** The tree [t] in the memory [s], under the root [this]. *)
Definition tree_in (s : rbmem) (this : Z) (t : tree) : Prop :=
  rb_roots s !! this = Some (troot t) ∧ in_heap (rb_nodes s) 0 t ∧ NoDup (elems t).

(** A node that is not in the tree and whose memory is there *)
Definition fresh (s : rbmem) (t : tree) (d : Z) : Prop := (al d ∧ 0 < d) ∧ is_Some (rb_nodes s !! d) ∧ d ∉ elems t.

(** From [s] to [s'] at most the nodes [xs] and the root [this] have changed. *)
Definition only_tree (this : Z) (xs : list Z) (s s' : rbmem) : Prop :=
  (∀ y n, y ∉ xs → rb_nodes s !! y = Some n → rb_nodes s' !! y = Some n) ∧
  (∀ r f, r ≠ this → rb_roots s !! r = Some f → rb_roots s' !! r = Some f).

Lemma in_heap_ext m m' p t : (∀ x, x ∈ elems t → m' !! x = m !! x) → in_heap m p t → in_heap m' p t.
Proof.
  revert p. induction t as [|c l IHl y r IHr]; intros p E; simpl; [done|]. intros (Hy&Hn&Hl&Hr).
  split_and!; [apply Hy..|rewrite E; [done|simpl; set_solver]|apply IHl; [|done]; intros; apply E; simpl; set_solver|
    apply IHr; [|done]; intros; apply E; simpl; set_solver].
Qed.

Lemma tree_in_ext s s' this t :
  (∀ x, x ∈ elems t → rb_nodes s' !! x = rb_nodes s !! x) → rb_roots s' !! this = rb_roots s !! this → tree_in s this t → tree_in s' this t.
Proof. intros En Er (?&?&?). split_and!; [by rewrite Er|by eapply in_heap_ext|done]. Qed.

Lemma in_heap_lookup m p t x : in_heap m p t → x ∈ elems t → (al x ∧ 0 < x) ∧ is_Some (m !! x).
Proof.
  revert p. induction t as [|c l IHl y r IHr]; intros p; simpl; [by intros _ ?%elem_of_nil|].
  intros (Hy&E&Hl&Hr) [Hx|[->|Hx]%elem_of_cons]%elem_of_app; eauto.
Qed.

(** ** Code that only reads *)

Definition reads {A} (m : MR A) : Prop := ∀ s a s', m s = Ret (a, s') → s' = s.

Lemma reads_ret {A} (a : A) : reads (mret a).
Proof. intros s b s' E. unfold mret, M_ret in E. by simplify_eq. Qed.
Lemma reads_halt {A} e : reads (halt e : MR A).
Proof. by intros s b s' E. Qed.
Lemma reads_from_opt {A} (o : option A) : reads (from_opt o : MR A).
Proof. intros s b s' E. unfold from_opt in E. by destruct o; simplify_eq. Qed.
Lemma reads_state : reads get_state.
Proof. intros s b s' E. unfold get_state in E. by simplify_eq. Qed.
Lemma reads_bind {A B} (m : MR A) (f : A → MR B) : reads m → (∀ a, reads (f a)) → reads (m ≫= f).
Proof.
  intros Hm Hf s b s' E. unfold mbind, M_bind in E. destruct (m s) as [[a s1]|e] eqn:Em; [|done]. apply Hm in Em as ->. by eapply Hf.
Qed.

Create HintDb reads.
#[export] Hint Resolve reads_ret reads_halt reads_from_opt reads_state : reads.
Ltac reads_tac := repeat first [solve [eauto with reads] | apply reads_bind; [|intros ?] | case_match].

Lemma reads_left x : reads (rb_left x).
Proof. unfold rb_left, rb_get. reads_tac. Qed.
Lemma reads_right x : reads (rb_right x).
Proof. unfold rb_right, rb_get. reads_tac. Qed.
Lemma reads_parent x : reads (rb_parent x).
Proof. unfold rb_parent, rb_get. reads_tac. Qed.
Lemma reads_root this : reads (get_root this).
Proof. unfold get_root. reads_tac. Qed.
Lemma reads_bound : reads loop_bound.
Proof. unfold loop_bound. reads_tac. Qed.
#[export] Hint Resolve reads_left reads_right reads_parent reads_root reads_bound : reads.

Lemma reads_search_loop cmp fuel x : reads (search_loop cmp fuel x).
Proof. revert x. induction fuel; intros x; cbn [search_loop]; reads_tac. Qed.
Lemma reads_search_first_loop cmp fuel x r : reads (search_first_loop cmp fuel x r).
Proof. revert x r. induction fuel; intros x r; cbn [search_first_loop]; reads_tac. Qed.
Lemma reads_climb_right fuel x : reads (climb_right fuel x).
Proof. revert x. induction fuel; intros x; cbn [climb_right]; reads_tac. Qed.
Lemma reads_climb_left fuel x : reads (climb_left fuel x).
Proof. revert x. induction fuel; intros x; cbn [climb_left]; reads_tac. Qed.
Lemma reads_leftmost fuel x : reads (leftmost fuel x).
Proof. revert x. induction fuel; intros x; cbn [leftmost]; reads_tac. Qed.
Lemma reads_rightmost fuel x : reads (rightmost fuel x).
Proof. revert x. induction fuel; intros x; cbn [rightmost]; reads_tac. Qed.
#[export] Hint Resolve reads_search_loop reads_search_first_loop reads_climb_right reads_climb_left reads_leftmost reads_rightmost : reads.

Lemma reads_next x : reads (rb_next x).
Proof. unfold rb_next. reads_tac. Qed.
Lemma reads_prev x : reads (rb_prev x).
Proof. unfold rb_prev. reads_tac. Qed.
#[export] Hint Resolve reads_next reads_prev : reads.

Lemma reads_for_each_loop fuel x : reads (for_each_loop fuel x).
Proof. revert x. induction fuel; intros x; cbn [for_each_loop]; reads_tac. Qed.
#[export] Hint Resolve reads_for_each_loop : reads.
Lemma reads_for_each this : reads (rb_for_each this).
Proof. unfold rb_for_each, rb_first. reads_tac. Qed.
Lemma reads_search_first this cmp : reads (rb_search_fisrt this cmp).
Proof. unfold rb_search_fisrt. reads_tac. Qed.
#[export] Hint Resolve reads_for_each reads_search_first : reads.
