(* ===== verification/RbLogic.v ===== *)
(** A separation logic for the memory of the red-black trees, on Iris's ghost maps: [x ↪ n] is ownership of the node at
    [x].  [wpi m Φ] is total: from a state that owns what it needs, [m] returns, and what it returns satisfies [Φ].
    [wpi_adequate] takes such a proof back to a statement about the code alone. *)
From iris.base_logic.lib Require Import ghost_map.
From iris.proofmode Require Import coq_tactics environments reduction proofmode.
From S2P Require Import Prelude RbTree RbSpec.

#[global] Open Scope Z_scope.

Class rbG (Σ : gFunctors) := RbG {
  rbG_nodes :: ghost_mapG Σ Z rb_node;
  rbG_roots :: ghost_mapG Σ Z Z;
  node_name : gname;
  root_name : gname
}.

Section logic.
Context `{!rbG Σ}.

Notation "x ↪n n" := (ghost_map_elem (V := rb_node) node_name x (DfracOwn 1) n) (at level 20) : bi_scope.

Definition interp (s : rbmem) : iProp Σ := ghost_map_auth node_name 1 (rb_nodes s) ∗ ghost_map_auth root_name 1 (rb_roots s).

Definition wpi {A} (m : MR A) (Φ : A → iProp Σ) : iProp Σ :=
  ∀ s, interp s ==∗ ∃ a s', ⌜m s = Ret (a, s')⌝ ∗ interp s' ∗ Φ a.

(** A node with its parent, colour and children *)
Definition pt (x p : Z) (c : color) (l r : Z) : iProp Σ := ⌜al x ∧ 0 < x ∧ al p⌝ ∗ ghost_map_elem node_name x (DfracOwn 1) (RbNode (word p c) r l).
Definition raw (x : Z) : iProp Σ := ⌜al x ∧ 0 < x⌝ ∗ ∃ n : rb_node, ghost_map_elem node_name x (DfracOwn 1) n.
Definition root_at (this f : Z) : iProp Σ := ghost_map_elem root_name this (DfracOwn 1) f.

Lemma pt_raw x p c l r : pt x p c l r -∗ raw x.
Proof. rw /pt /raw. iIntros "[%H Hx]". destruct H as (?&?&?). iSplit; [done|]. by iExists _. Qed.

Lemma pt_pos x p c l r : pt x p c l r -∗ ⌜al x ∧ 0 < x ∧ al p⌝.
Proof. by iIntros "[%H _]". Qed.

Lemma pt_raw_ne x p c l r y : pt x p c l r -∗ raw y -∗ ⌜x ≠ y⌝.
Proof. iIntros "[_ Hx] [_ (%n & Hy)]". iApply (ghost_map_elem_ne with "Hx Hy"). Qed.

(** ** Rules *)

Lemma wpi_ret {A} (a : A) Φ : Φ a -∗ wpi (mret a) Φ.
Proof. iIntros "H" (s) "Hs". iModIntro. iExists a, s. by iFrame. Qed.

Lemma wpi_bind {A B} (m : MR A) (f : A → MR B) Φ : wpi m (λ a, wpi (f a) Φ) -∗ wpi (m ≫= f) Φ.
Proof.
  iIntros "H" (s) "Hs". iMod ("H" $! s with "Hs") as (a s1 Hm) "[Hs H]". iMod ("H" $! s1 with "Hs") as (b s2 Hf) "[Hs H]".
  iModIntro. iExists b, s2. iFrame. iPureIntro. unfold mbind, M_bind. by rw Hm.
Qed.

Lemma wpi_wand {A} (m : MR A) Φ Ψ : wpi m Φ -∗ (∀ a, Φ a -∗ Ψ a) -∗ wpi m Ψ.
Proof.
  iIntros "H W" (s) "Hs". iMod ("H" $! s with "Hs") as (a s1 Hm) "[Hs H]". iModIntro. iExists a, s1. iFrame. iSplit; [done|]. by iApply "W".
Qed.

Lemma wpi_from_opt {A} (o : option A) a Φ : o = Some a → Φ a -∗ wpi (from_opt o) Φ.
Proof. intros ->. iIntros "H" (s) "Hs". iModIntro. iExists a, s. by iFrame. Qed.

Lemma wpi_get x n (Φ : rb_node → iProp Σ) : x ↪n n -∗ (x ↪n n -∗ Φ n) -∗ wpi (rb_get x) Φ.
Proof.
  iIntros "Hx H" (s) "[Hn Hr]". iDestruct (ghost_map_lookup with "Hn Hx") as %E. iModIntro. iExists n, s. iFrame.
  iSplit; [|by iApply "H"]. iPureIntro. unfold rb_get, get_state, from_opt, mbind, M_bind. by rw E.
Qed.

Lemma wpi_put x n n' (Φ : unit → iProp Σ) : x ↪n n -∗ (x ↪n n' -∗ Φ tt) -∗ wpi (rb_put x n') Φ.
Proof.
  iIntros "Hx H" (s) "[Hn Hr]". iDestruct (ghost_map_lookup with "Hn Hx") as %E.
  iMod (ghost_map_update n' with "Hn Hx") as "[Hn Hx]". iModIntro. iExists tt, (RbMem (<[x := n']> (rb_nodes s)) (rb_roots s)).
  iFrame. iSplit; [|by iApply "H"]. iPureIntro. unfold rb_put, rb_get, get_state, from_opt, modify, mbind, M_bind. by rw E.
Qed.

Lemma wpi_upd x n f (Φ : unit → iProp Σ) : x ↪n n -∗ (x ↪n f n -∗ Φ tt) -∗ wpi (rb_upd x f) Φ.
Proof. iIntros "Hx H". iApply wpi_bind. iApply (wpi_get with "Hx"). iIntros "Hx". iApply (wpi_put with "Hx H"). Qed.

Lemma wpi_get_root this f (Φ : Z → iProp Σ) : root_at this f -∗ (root_at this f -∗ Φ f) -∗ wpi (get_root this) Φ.
Proof.
  iIntros "Hx H" (s) "[Hn Hr]". iDestruct (ghost_map_lookup with "Hr Hx") as %E. iModIntro. iExists f, s. iFrame.
  iSplit; [|by iApply "H"]. iPureIntro. unfold get_root, get_state, from_opt, mbind, M_bind. by rw E.
Qed.

Lemma wpi_set_root this f f' (Φ : unit → iProp Σ) : root_at this f -∗ (root_at this f' -∗ Φ tt) -∗ wpi (set_root this f') Φ.
Proof.
  iIntros "Hx H" (s) "[Hn Hr]". iDestruct (ghost_map_lookup with "Hr Hx") as %E.
  iMod (ghost_map_update f' with "Hr Hx") as "[Hr Hx]". iModIntro. iExists tt, (RbMem (rb_nodes s) (<[this := f']> (rb_roots s))).
  iFrame. iSplit; [|by iApply "H"]. iPureIntro. unfold set_root, get_root, get_state, from_opt, modify, mbind, M_bind. by rw E.
Qed.

(** *** Rules for nodes *)

Lemma wpi_left x p c l r Φ : pt x p c l r -∗ (pt x p c l r -∗ Φ l) -∗ wpi (rb_left x) Φ.
Proof. rw /pt. iIntros "[%H Hx] W". iApply wpi_bind. iApply (wpi_get with "Hx"). iIntros "Hx". iApply wpi_ret. iApply "W". by iFrame. Qed.
Lemma wpi_right x p c l r Φ : pt x p c l r -∗ (pt x p c l r -∗ Φ r) -∗ wpi (rb_right x) Φ.
Proof. rw /pt. iIntros "[%H Hx] W". iApply wpi_bind. iApply (wpi_get with "Hx"). iIntros "Hx". iApply wpi_ret. iApply "W". by iFrame. Qed.
Lemma wpi_parent x p c l r Φ : pt x p c l r -∗ (pt x p c l r -∗ Φ p) -∗ wpi (rb_parent x) Φ.
Proof.
  rw /pt. iIntros "[%H Hx] W". destruct H as (?&?&?). iApply wpi_bind. iApply (wpi_get with "Hx"). iIntros "Hx". iApply wpi_ret. simpl.
  rw word_parent //. iApply "W". by iFrame.
Qed.
Lemma wpi_color x p c l r Φ : pt x p c l r -∗ (pt x p c l r -∗ Φ (cz c)) -∗ wpi (rb_color x) Φ.
Proof.
  rw /pt. iIntros "[%H Hx] W". destruct H as (?&?&?). iApply wpi_bind. iApply (wpi_get with "Hx"). iIntros "Hx". iApply wpi_ret. simpl.
  rw word_color //. iApply "W". by iFrame.
Qed.
Lemma wpi_is_black x p c l r Φ : pt x p c l r -∗ (pt x p c l r -∗ Φ (bool_decide (c = Black))) -∗ wpi (rb_is_black x) Φ.
Proof.
  iIntros "Hx W". iApply wpi_bind. iApply (wpi_color with "Hx"). iIntros "Hx". iApply wpi_ret.
  replace (bool_decide (cz c = RB_BLACK)) with (bool_decide (c = Black)) by (by destruct c). by iApply "W".
Qed.
Lemma wpi_is_red x p c l r Φ : pt x p c l r -∗ (pt x p c l r -∗ Φ (bool_decide (c = Red))) -∗ wpi (rb_is_red x) Φ.
Proof.
  iIntros "Hx W". iApply wpi_bind. iApply (wpi_color with "Hx"). iIntros "Hx". iApply wpi_ret.
  replace (bool_decide (cz c = RB_RED)) with (bool_decide (c = Red)) by (by destruct c). by iApply "W".
Qed.
Lemma wpi_red_parent x p l r Φ : pt x p Red l r -∗ (pt x p Red l r -∗ Φ p) -∗ wpi (rb_red_parent x) Φ.
Proof.
  rw /pt. iIntros "[%H Hx] W". iApply wpi_bind. iApply (wpi_get with "Hx"). iIntros "Hx". iApply wpi_ret. simpl. rw word_red. iApply "W". by iFrame.
Qed.
Lemma wpi_set_left x v p c l r Φ : pt x p c l r -∗ (pt x p c v r -∗ Φ tt) -∗ wpi (rb_upd x (set_left_child v)) Φ.
Proof. rw /pt. iIntros "[%H Hx] W". iApply (wpi_upd with "Hx"). iIntros "Hx". iApply "W". by iFrame. Qed.
Lemma wpi_set_right x v p c l r Φ : pt x p c l r -∗ (pt x p c l v -∗ Φ tt) -∗ wpi (rb_upd x (set_right_child v)) Φ.
Proof. rw /pt. iIntros "[%H Hx] W". iApply (wpi_upd with "Hx"). iIntros "Hx". iApply "W". by iFrame. Qed.
Lemma wpi_set_parent x q p c l r Φ : al q → pt x p c l r -∗ (pt x q c l r -∗ Φ tt) -∗ wpi (rb_set_parent x q) Φ.
Proof.
  rw /pt. iIntros (Hq) "[%H Hx] W". destruct H as (?&?&?). iApply (wpi_upd with "Hx"). iIntros "Hx". iApply "W". iSplit; [done|].
  unfold set_parent_color. simpl. by rw word_color.
Qed.
Lemma wpi_set_color x c' p c l r Φ : pt x p c l r -∗ (pt x p c' l r -∗ Φ tt) -∗ wpi (rb_set_color x (cz c')) Φ.
Proof.
  rw /pt. iIntros "[%H Hx] W". destruct H as (?&?&?). iApply (wpi_upd with "Hx"). iIntros "Hx". iApply "W". iSplit; [done|].
  unfold set_parent_color. simpl. by rw word_parent.
Qed.

Lemma wpi_set_black x p c l r Φ : pt x p c l r -∗ (pt x p Black l r -∗ Φ tt) -∗ wpi (rb_set_color x RB_BLACK) Φ.
Proof. apply (wpi_set_color x Black). Qed.
Lemma wpi_set_red x p c l r Φ : pt x p c l r -∗ (pt x p Red l r -∗ Φ tt) -∗ wpi (rb_set_color x RB_RED) Φ.
Proof. apply (wpi_set_color x Red). Qed.

(** *** Nodes of the context, found by the proof mode *)

Lemma tac_read {A} Δ i x p c l r (m : MR A) (a : A) (Φ : A → iProp Σ) :
  (∀ Φ, pt x p c l r -∗ (pt x p c l r -∗ Φ a) -∗ wpi m Φ) →
  envs_lookup i Δ = Some (false, pt x p c l r) → envs_entails Δ (Φ a) → envs_entails Δ (wpi m Φ).
Proof.
  rw envs_entails_unseal. intros Hm Hi HΔ. rw envs_lookup_split //; simpl. iIntros "[Hx W]". iApply (Hm with "Hx").
  iIntros "Hx". iApply HΔ. by iApply "W".
Qed.

Lemma tac_write Δ Δ' i x p c l r p' c' l' r' (m : MR unit) (Φ : unit → iProp Σ) :
  (∀ Φ, pt x p c l r -∗ (pt x p' c' l' r' -∗ Φ tt) -∗ wpi m Φ) →
  envs_lookup i Δ = Some (false, pt x p c l r) →
  envs_simple_replace i false (Esnoc Enil i (pt x p' c' l' r')) Δ = Some Δ' →
  envs_entails Δ' (Φ tt) → envs_entails Δ (wpi m Φ).
Proof.
  rw envs_entails_unseal. intros Hm Hi Hr HΔ. rw envs_simple_replace_sound //; simpl. iIntros "[Hx W]". iApply (Hm with "Hx").
  iIntros "Hx". iApply HΔ. iApply "W". by iFrame.
Qed.

Lemma wpi_when (b : bool) (m : MR unit) Φ : (if b then wpi m Φ else Φ tt) -∗ wpi (when b m) Φ.
Proof. iIntros "H". destruct b; simpl; [done|by iApply wpi_ret]. Qed.

(** The addresses of owned nodes are distinct nodes of the memory. *)
Lemma raws_bound s xs : interp s -∗ ([∗ list] x ∈ xs, raw x) -∗ ⌜NoDup xs ∧ (length xs ≤ size (rb_nodes s))%nat⌝.
Proof.
  iIntros "[Hn _] Hxs". iAssert ⌜NoDup xs ∧ ∀ x, x ∈ xs → x ∈ dom (rb_nodes s)⌝%I as %[Hnd Hin].
  - iInduction xs as [|x xs] "IH".
    { iPureIntro. split; [apply NoDup_nil_2|]. by intros x ?%elem_of_nil. }
    iDestruct "Hxs" as "[[_ (%n & Hx)] Hxs]". iDestruct (ghost_map_lookup with "Hn Hx") as %E.
    iDestruct ("IH" with "Hn Hxs") as %[Hnd Hin]. iAssert ⌜x ∉ xs⌝%I as %Hx.
    { iIntros (Hx). iDestruct (big_sepL_elem_of with "Hxs") as "[_ (%n' & Hx')]"; [done|].
      by iDestruct (ghost_map_elem_ne with "Hx Hx'") as %?. }
    iPureIntro. split; [by apply NoDup_cons|]. intros y [->|Hy]%elem_of_cons; [by eapply elem_of_dom_2|by apply Hin].
  - iPureIntro. split; [done|]. rw -size_dom -(size_list_to_set (C := gset Z) xs) //. apply subseteq_size.
    intros x Hx%elem_of_list_to_set. by apply Hin.
Qed.

Lemma wpi_bound xs (Φ : nat → iProp Σ) :
  ([∗ list] x ∈ xs, raw x) ∧ (∀ n, ⌜(S (length xs) ≤ n)%nat⌝ → Φ n) -∗ wpi loop_bound Φ.
Proof.
  iIntros "H" (s) "Hs". iAssert ⌜NoDup xs ∧ (length xs ≤ size (rb_nodes s))%nat⌝%I as %[_ Hle].
  { iDestruct "H" as "[H _]". iApply (raws_bound with "Hs H"). }
  iModIntro. iExists (S (size (rb_nodes s))), s. iFrame. iSplit; [done|]. iDestruct "H" as "[_ H]". iApply "H". iPureIntro. lia.
Qed.
End logic.

(** ** Steps of the code *)

Lemma red_is_black : bool_decide (Red = Black) = false.
Proof. done. Qed.
Lemma red_is_red : bool_decide (Red = Red) = true.
Proof. done. Qed.
Lemma black_is_black : bool_decide (Black = Black) = true.
Proof. done. Qed.
Lemma black_is_red : bool_decide (Black = Red) = false.
Proof. done. Qed.

Ltac rb_red := cbn beta iota zeta; rw ?red_is_black ?red_is_red ?black_is_black ?black_is_red; cbn beta iota zeta.
Ltac rb_read rule := eapply (tac_read _ _ _ _ _ _ _ _); [intros; apply rule|iAssumptionCore|rb_red].
Ltac rb_write rule := eapply (tac_write _ _ _ _ _ _ _ _ _ _ _ _); [intros; apply rule; try done|iAssumptionCore|pm_reflexivity|rb_red].
Ltac rb_bind := iApply wpi_bind.

(** One read or write of a node that the context owns *)
Ltac rb_step :=
  lazymatch goal with
  | |- envs_entails _ (wpi (mbind _ _) _) => rb_bind; rb_step
  | |- envs_entails _ (wpi (rb_left _) _) => rb_read wpi_left
  | |- envs_entails _ (wpi (rb_right _) _) => rb_read wpi_right
  | |- envs_entails _ (wpi (rb_parent _) _) => rb_read wpi_parent
  | |- envs_entails _ (wpi (rb_color _) _) => rb_read wpi_color
  | |- envs_entails _ (wpi (rb_is_black _) _) => rb_read wpi_is_black
  | |- envs_entails _ (wpi (rb_is_red _) _) => rb_read wpi_is_red
  | |- envs_entails _ (wpi (rb_red_parent _) _) => rb_read wpi_red_parent
  | |- envs_entails _ (wpi (rb_upd _ (set_left_child _)) _) => rb_write wpi_set_left
  | |- envs_entails _ (wpi (rb_upd _ (set_right_child _)) _) => rb_write wpi_set_right
  | |- envs_entails _ (wpi (rb_set_parent _ _) _) => rb_write wpi_set_parent
  | |- envs_entails _ (wpi (rb_set_color _ RB_BLACK) _) => rb_write wpi_set_black
  | |- envs_entails _ (wpi (rb_set_color _ RB_RED) _) => rb_write wpi_set_red
  | |- envs_entails _ (wpi (rb_set_color _ (cz ?c)) _) => rb_write wpi_set_color
  | |- envs_entails _ (wpi (mret _) _) => iApply wpi_ret; rb_red
  end.
