(* ===== verification/RbProofs.v ===== *)
(** The code of the red-black trees on trees in memory: links, rotations, insertion. *)
From iris.base_logic.lib Require Import ghost_map.
From iris.proofmode Require Import proofmode.
From S2P Require Import Prelude RbTree RbSpec RbLogic.

#[global] Open Scope Z_scope.

Section proofs.
Context `{!rbG Σ}.
Implicit Types (t u : tree) (C : list frame).

(** ** Trees and positions in memory *)

Fixpoint rep (p : Z) t : iProp Σ :=
  match t with
  | Leaf => emp
  | Node c l x r => pt x p c (troot l) (troot r) ∗ rep x l ∗ rep x r
  end.

(** The nodes above a position where the child pointer is [f] *)
Fixpoint ctx (this : Z) C (f : Z) : iProp Σ :=
  match C with
  | [] => root_at this f
  | FL c x r :: C' => pt x (cpar C') c f (troot r) ∗ rep x r ∗ ctx this C' x
  | FR c l x :: C' => pt x (cpar C') c (troot l) f ∗ rep x l ∗ ctx this C' x
  end.

Definition whole (this : Z) t : iProp Σ := root_at this (troot t) ∗ rep 0 t.

Lemma whole_plug this C t : whole this (plug C t) ⊣⊢ ctx this C (troot t) ∗ rep (cpar C) t.
Proof.
  revert t. induction C as [|[c x r|c l x] C IH] => t /=; [done|..]; rw IH /=; iSplit.
  - iIntros "(HC & Hx & Ht & Hr)". iFrame.
  - iIntros "((Hx & Hr & HC) & Ht)". iFrame.
  - iIntros "(HC & Hx & Hl & Ht)". iFrame.
  - iIntros "((Hx & Hl & HC) & Ht)". iFrame.
Qed.

Lemma rep_raw p t : rep p t -∗ [∗ list] x ∈ elems t, raw x.
Proof.
  iIntros "H". iInduction t as [|c l x r] "IHl" forall (p); [done|]; simpl. iDestruct "H" as "(Hx & Hl & Hr)". rw big_sepL_app /=.
  iDestruct (pt_raw with "Hx") as "$". iSplitL "Hl"; [by iApply "IHl"|by iApply "IHl1"].
Qed.

Lemma ctx_raw this C f : ctx this C f -∗ [∗ list] x ∈ (faddr <$> C), raw x.
Proof.
  iIntros "H". iInduction C as [|[c x r|c l x] C] "IH" forall (f); [done|..]; simpl; iDestruct "H" as "(Hx & _ & HC)";
    iDestruct (pt_raw with "Hx") as "$"; by iApply "IH".
Qed.

Lemma ctx_al this C f : ctx this C f -∗ ⌜al (cpar C)⌝.
Proof. destruct C as [|[c x r|c l x] C]; simpl; [iIntros "_"; iPureIntro; apply al_0|..]; iIntros "[[%H _] _]"; iPureIntro; apply H. Qed.

Lemma ctx_cons_pos this f C y : ctx this (f :: C) y -∗ ⌜faddr f ≠ 0⌝.
Proof. destruct f; simpl; iIntros "[[%H _] _]"; iPureIntro; lia. Qed.

Lemma rep_ne p t x p' c l r : rep p t -∗ pt x p' c l r -∗ ⌜troot t ≠ x⌝.
Proof.
  iIntros "Ht Hx". destruct t as [|c' l' y r']; simpl.
  - iDestruct (pt_pos with "Hx") as %H. iPureIntro. lia.
  - iDestruct "Ht" as "[Hy _]". iDestruct (pt_raw with "Hx") as "Hx". iApply (pt_raw_ne with "Hy Hx").
Qed.

(** ** Links *)

Lemma wpi_set_parent_tree p q t Φ : al q →
  rep p t -∗ (rep q t -∗ Φ tt) -∗ wpi (when (negb (bool_decide (troot t = 0))) (rb_set_parent (troot t) q)) Φ.
Proof.
  iIntros (Hq) "Ht W". iApply wpi_when. destruct t as [|c l x r]; simpl; [by iApply "W"|]. iDestruct "Ht" as "(Hx & Hl & Hr)".
  iDestruct (pt_pos with "Hx") as %(_&?&_). rw (bool_decide_eq_false_2 (_ = 0)); [|lia]. simpl. rb_step. iApply "W". iFrame.
Qed.

Lemma wpi_no_or_black p t Φ : rep p t -∗ (rep p t -∗ Φ (bool_decide (tcolor t = Black))) -∗ wpi (no_or_black (troot t)) Φ.
Proof.
  iIntros "Ht W". unfold no_or_black. destruct t as [|c l x r]; simpl; [iApply wpi_ret; by iApply "W"|]. iDestruct "Ht" as "(Hx & Hl & Hr)".
  iDestruct (pt_pos with "Hx") as %(_&?&_). rw (bool_decide_eq_false_2 (_ = 0)); [|lia]. rb_step. iApply "W". iFrame.
Qed.

Lemma wpi_red_node p t Φ : rep p t -∗ (rep p t -∗ Φ (bool_decide (tcolor t = Red))) -∗ wpi (red_node (troot t)) Φ.
Proof.
  iIntros "Ht W". unfold red_node. destruct t as [|c l x r]; simpl; [iApply wpi_ret; by iApply "W"|]. iDestruct "Ht" as "(Hx & Hl & Hr)".
  iDestruct (pt_pos with "Hx") as %(_&?&_). rw (bool_decide_eq_false_2 (_ = 0)); [|lia]. rb_step. iApply "W". iFrame.
Qed.

(** The child pointer of a position, changed from [old] to [new] *)
Lemma wpi_set_child this C old new p c l r Φ :
  ctx this C old -∗ pt old p c l r -∗ (ctx this C new -∗ pt old p c l r -∗ Φ tt) -∗
  wpi (if negb (bool_decide (cpar C = 0)) then
         x ← rb_left (cpar C);
         if bool_decide (x = old) then rb_upd (cpar C) (set_left_child new) else rb_upd (cpar C) (set_right_child new)
       else set_root this new) Φ.
Proof.
  iIntros "HC Ho W". destruct C as [|f C]; simpl.
  { iApply (wpi_set_root with "HC"). iIntros "HC". by iApply ("W" with "HC"). }
  iDestruct (ctx_cons_pos with "HC") as %Hne. rw bool_decide_eq_false_2 //. destruct f as [c' x t|c' t x]; simpl; iDestruct "HC" as "(Hx & Ht & HC)"; rb_step.
  - rw bool_decide_eq_true_2 //. rb_step. iApply ("W" with "[$Hx $Ht $HC] Ho").
  - iDestruct (rep_ne with "Ht Ho") as %?. rw bool_decide_eq_false_2 //. rb_step. iApply ("W" with "[$Hx $Ht $HC] Ho").
Qed.

Lemma wpi_change_child this C old new po co lo ro p c l r Φ :
  ctx this C old -∗ pt old po co lo ro -∗ pt new p c l r -∗
  (ctx this C new -∗ pt old po co lo ro -∗ pt new (cpar C) c l r -∗ Φ tt) -∗
  wpi (__rb_change_child this (cpar C) old new) Φ.
Proof.
  iIntros "HC Ho Hn W". iDestruct (ctx_al with "HC") as %Hal. rb_bind. iApply (wpi_set_child with "HC Ho"). iIntros "HC Ho".
  iApply wpi_when. iDestruct (pt_pos with "Hn") as %(_&?&_). rw (bool_decide_eq_false_2 (_ = 0)); [|lia]. simpl. rb_step. iApply ("W" with "HC Ho Hn").
Qed.

Lemma wpi_change_child_tree this C old t p po co lo ro Φ :
  ctx this C old -∗ pt old po co lo ro -∗ rep p t -∗
  (ctx this C (troot t) -∗ pt old po co lo ro -∗ rep (cpar C) t -∗ Φ tt) -∗
  wpi (__rb_change_child this (cpar C) old (troot t)) Φ.
Proof.
  iIntros "HC Ho Ht W". iDestruct (ctx_al with "HC") as %Hal. rb_bind. iApply (wpi_set_child with "HC Ho"). iIntros "HC Ho".
  iApply (wpi_set_parent_tree with "Ht"); [done|]. iIntros "Ht". iApply ("W" with "HC Ho Ht").
Qed.

(** [__connect34] makes [b] the parent of [a] and [c], with the four trees below. *)
Lemma wpi_connect34 a b c pa ca la ra pb cb lb rb pc cc lc rc t1 t2 t3 t4 p1 p2 p3 p4 Φ :
  pt a pa ca la ra -∗ pt b pb cb lb rb -∗ pt c pc cc lc rc -∗ rep p1 t1 -∗ rep p2 t2 -∗ rep p3 t3 -∗ rep p4 t4 -∗
  (pt b pb cb a c -∗ rep b (Node ca t1 a t2) -∗ rep b (Node cc t3 c t4) -∗ Φ tt) -∗
  wpi (__connect34 a b c (troot t1) (troot t2) (troot t3) (troot t4)) Φ.
Proof.
  iIntros "Ha Hb Hc H1 H2 H3 H4 W". iDestruct (pt_pos with "Ha") as %(?&_&_). iDestruct (pt_pos with "Hb") as %(?&_&_).
  iDestruct (pt_pos with "Hc") as %(?&_&_). unfold __connect34.
  rb_step. rb_bind. iApply (wpi_set_parent_tree with "H1"); [done|]. iIntros "H1".
  rb_step. rb_bind. iApply (wpi_set_parent_tree with "H2"); [done|]. iIntros "H2".
  rb_step. rb_bind. iApply (wpi_set_parent_tree with "H3"); [done|]. iIntros "H3".
  rb_step. rb_bind. iApply (wpi_set_parent_tree with "H4"); [done|]. iIntros "H4".
  rb_step. rb_step. rb_step. rb_step. iApply ("W" with "Hb [$Ha $H1 $H2] [$Hc $H3 $H4]").
Qed.

Lemma wpi_update_root this C x c l r Φ :
  ctx this C x -∗ pt x (cpar C) c l r -∗ (ctx this C x -∗ pt x (cpar C) c l r -∗ Φ tt) -∗ wpi (update_root this x) Φ.
Proof.
  iIntros "HC Hx W". unfold update_root. rb_step. iApply wpi_when. destruct C as [|f C].
  - simpl. iApply (wpi_set_root with "HC"). iIntros "HC". iApply ("W" with "HC Hx").
  - iDestruct (ctx_cons_pos with "HC") as %?. rw bool_decide_eq_false_2 //. iApply ("W" with "HC Hx").
Qed.

(** ** The ends of a tree *)

Lemma rep_root_pos p t : t ≠ Leaf → rep p t -∗ ⌜troot t ≠ 0⌝.
Proof. destruct t as [|c l x r] => // _. iIntros "[Hx _]". iDestruct (pt_pos with "Hx") as %(_&?&_). iPureIntro. simpl. lia. Qed.

Lemma wpi_leftmost p t y ys fuel Φ :
  elems t = y :: ys → (length (elems t) ≤ fuel)%nat → rep p t -∗ (rep p t -∗ Φ y) -∗ wpi (leftmost fuel (troot t)) Φ.
Proof.
  revert p y ys fuel Φ. induction t as [|c l IH x r _] => p y ys [|fuel] Φ //; simpl; intros E; [rw length_app /=; lia|].
  intros Hf. iIntros "(Hx & Hl & Hr) W". rb_step. destruct l as [|lc ll z lr].
  - simpl. rb_step. simpl in E. injection E as <- _. iApply "W". iFrame.
  - iDestruct (rep_root_pos with "Hl") as %?; [done|]. rw (bool_decide_eq_false_2 (_ = 0)) //. rw length_app in Hf.
    destruct (elems (Node lc ll z lr)) as [|y' ys'] eqn:El; [by apply (f_equal length) in El; simpl in El; rw length_app /= in El; lia|].
    simpl in E. injection E as <- _. iApply (IH with "Hl"); [done|simpl in Hf |- *; lia|]. iIntros "Hl". iApply "W". iFrame.
Qed.

Lemma wpi_rightmost p t y ys fuel Φ :
  elems t = ys ++ [y] → (length (elems t) ≤ fuel)%nat → rep p t -∗ (rep p t -∗ Φ y) -∗ wpi (rightmost fuel (troot t)) Φ.
Proof.
  revert p y ys fuel Φ. induction t as [|c l _ x r IH] => p y ys [|fuel] Φ; simpl; intros E; try by destruct ys. { rw length_app /=. lia. }
  intros Hf. iIntros "(Hx & Hl & Hr) W". rb_step. destruct r as [|rc rl z rr].
  - simpl. rb_step. simpl in E. apply app_inj_tail in E as [_ ->]. iApply "W". iFrame.
  - iDestruct (rep_root_pos with "Hr") as %?; [done|]. rw (bool_decide_eq_false_2 (_ = 0)) //. rw length_app in Hf.
    destruct (elems (Node rc rl z rr)) as [|y' ys' _] eqn:Er using rev_ind; [by apply (f_equal length) in Er; simpl in Er; rw length_app /= in Er; lia|].
    rw app_comm_cons app_assoc in E. apply app_inj_tail in E as [_ ->]. iApply (IH with "Hr"); [done|simpl in Hf |- *; lia|].
    iIntros "Hr". iApply "W". iFrame.
Qed.
End proofs.
