(* ===== verification/RbInsert.v ===== *)
(** Insertion in a red-black tree in memory. *)
From iris.base_logic.lib Require Import ghost_map.
From iris.proofmode Require Import proofmode.
From S2P Require Import Prelude RbTree RbSpec RbLogic RbProofs.

#[global] Open Scope Z_scope.

Section insert.
Context `{!rbG Σ}.
Implicit Types (t u : tree) (C : list frame).

(** ** Colours *)

(** The parent is black. *)
Lemma wpi_insert_black this f C l x r fuel Φ :
  fcolor f = Black → ctx this (f :: C) x -∗ rep (faddr f) (Node Red l x r) -∗ (whole this (plug (f :: C) (Node Red l x r)) -∗ Φ tt) -∗
  wpi (insert_color_loop (S fuel) this x (faddr f)) Φ.
Proof.
  iIntros (Ef) "HC Ht W". cbn [insert_color_loop]. iDestruct (ctx_cons_pos with "HC") as %?. rw (bool_decide_eq_false_2 (_ = 0)) //.
  iAssert (ctx this (f :: C) x -∗ Φ tt)%I with "[Ht W]" as "W"; [iIntros "HC"; iApply "W"; rw whole_plug; iFrame|].
  destruct f as [c px pr|c pl px]; simpl in Ef |- *; subst c; iDestruct "HC" as "(Hp & Hs & HC)"; rb_step; simpl; rb_step; iApply "W"; iFrame.
Qed.

(** The parent [px] is red, the left child of [gx], and the uncle [u] is black. *)
Lemma wpi_insert_left this f C gc gx u l x r fuel Φ :
  fcolor f = Red → tcolor u = Black →
  ctx this (f :: FL gc gx u :: C) x -∗ rep (faddr f) (Node Red l x r) -∗ (whole this (ins_fix (f :: FL gc gx u :: C) l x r) -∗ Φ tt) -∗
  wpi (insert_color_loop (S fuel) this x (faddr f)) Φ.
Proof.
  iIntros (Ef Eu) "HC Ht W". cbn [insert_color_loop]. iDestruct (ctx_cons_pos with "HC") as %?. rw (bool_decide_eq_false_2 (_ = 0)) //.
  cbn [ins_fix]. rw Ef Eu. iDestruct "Ht" as "(Hx & Hl & Hr)".
  destruct f as [c px pr|c pl px]; simpl in Ef |- *; subst c; iDestruct "HC" as "(Hp & Hs & Hg & Hu & HC)"; do 3 rb_step; simpl.
  - rw (bool_decide_eq_true_2 (px = px)) //. rb_step. rb_bind. iApply (wpi_no_or_black with "Hu"). iIntros "Hu". rw Eu. simpl.
    rb_step. rw (bool_decide_eq_true_2 (x = x)) //. rb_step. rb_bind. iApply (wpi_change_child with "HC Hg Hp"). iIntros "HC Hg Hp".
    do 3 rb_step. rb_bind. iApply (wpi_connect34 with "Hx Hp Hg Hl Hr Hs Hu"). iIntros "Hp Hx (Hg & Hs & Hu)". do 2 rb_step.
    iApply (wpi_update_root with "HC Hp"). iIntros "HC Hp". iApply "W". rw whole_plug /=. iFrame.
  - rw (bool_decide_eq_true_2 (px = px)) //. rb_step. rb_bind. iApply (wpi_no_or_black with "Hu"). iIntros "Hu". rw Eu. simpl.
    rb_step. iDestruct (rep_ne with "Hs Hx") as %?. rw (bool_decide_eq_false_2 (x = _)) //. rb_step. rb_bind. iApply (wpi_change_child with "HC Hg Hx"). iIntros "HC Hg Hx".
    do 3 rb_step. rb_bind. iApply (wpi_connect34 with "Hp Hx Hg Hs Hl Hr Hu"). iIntros "Hx Hp (Hg & Hr & Hu)". do 2 rb_step.
    iApply (wpi_update_root with "HC Hx"). iIntros "HC Hx". iApply "W". rw whole_plug /=. iFrame.
Qed.

Lemma wpi_insert_right this f C gc gx u l x r fuel Φ :
  fcolor f = Red → tcolor u = Black →
  ctx this (f :: FR gc u gx :: C) x -∗ rep (faddr f) (Node Red l x r) -∗ (whole this (ins_fix (f :: FR gc u gx :: C) l x r) -∗ Φ tt) -∗
  wpi (insert_color_loop (S fuel) this x (faddr f)) Φ.
Proof.
  iIntros (Ef Eu) "HC Ht W". cbn [insert_color_loop]. iDestruct (ctx_cons_pos with "HC") as %?. rw (bool_decide_eq_false_2 (_ = 0)) //.
  cbn [ins_fix]. rw Ef Eu. iDestruct "Ht" as "(Hx & Hl & Hr)".
  destruct f as [c px pr|c pl px]; simpl in Ef |- *; subst c; iDestruct "HC" as "(Hp & Hs & Hg & Hu & HC)"; do 3 rb_step; simpl;
    iDestruct (rep_ne with "Hu Hp") as %?; rw (bool_decide_eq_false_2 (px = _)) //.
  - rb_step. rb_bind. iApply (wpi_no_or_black with "Hu"). iIntros "Hu". rw Eu. simpl.
    rb_step. iDestruct (rep_ne with "Hs Hx") as %?. rw (bool_decide_eq_false_2 (x = _)) //. rb_step. rb_bind. iApply (wpi_change_child with "HC Hg Hx"). iIntros "HC Hg Hx".
    do 3 rb_step. rb_bind. iApply (wpi_connect34 with "Hg Hx Hp Hu Hl Hr Hs"). iIntros "Hx (Hg & Hu & Hl) Hp". do 2 rb_step.
    iApply (wpi_update_root with "HC Hx"). iIntros "HC Hx". iApply "W". rw whole_plug /=. iFrame.
  - rb_step. rb_bind. iApply (wpi_no_or_black with "Hu"). iIntros "Hu". rw Eu. simpl.
    rb_step. rw (bool_decide_eq_true_2 (x = x)) //. rb_step. rb_bind. iApply (wpi_change_child with "HC Hg Hp"). iIntros "HC Hg Hp".
    do 3 rb_step. rb_bind. iApply (wpi_connect34 with "Hg Hp Hx Hu Hs Hl Hr"). iIntros "Hp (Hg & Hu & Hs) Hx". do 2 rb_step.
    iApply (wpi_update_root with "HC Hp"). iIntros "HC Hp". iApply "W". rw whole_plug /=. iFrame.
Qed.

(** The uncle is red: the grandparent becomes red, and the loop goes on there. *)
Lemma wpi_insert_up this f g C l x r fuel Φ :
  fcolor f = Red → tcolor (fsib g) = Red →
  ctx this (f :: g :: C) x -∗ rep (faddr f) (Node Red l x r) -∗
  (ctx this C (faddr g) -∗ rep (cpar C) (plug1 (recolor Red (match g with FL c y u => FL c y (blacken u) | FR c u y => FR c (blacken u) y end))
     (plug1 (recolor Black f) (Node Red l x r))) -∗ wpi (insert_color_loop fuel this (faddr g) (cpar C)) Φ) -∗
  wpi (insert_color_loop (S fuel) this x (faddr f)) Φ.
Proof.
  iIntros (Ef Eu) "HC Ht W". cbn [insert_color_loop]. iDestruct (ctx_cons_pos with "HC") as %?. rw (bool_decide_eq_false_2 (_ = 0)) //.
  destruct f as [c px pr|c pl px]; simpl in Ef |- *; subst c; iDestruct "HC" as "(Hp & Hs & HC)";
    (destruct g as [gc gx u|gc u gx]; simpl in Eu |- *; destruct u as [|uc ul ux ur]; simpl in Eu; try discriminate; subst uc;
     iDestruct "HC" as "(Hg & Hu & HC)"; do 3 rb_step; simpl).
  1, 3: rw (bool_decide_eq_true_2 (px = px)) //.
  3, 4: iDestruct (rep_ne _ (Node Red ul ux ur) with "Hu Hp") as %?; simpl troot in *; rw (bool_decide_eq_false_2 (px = _)) //.
  all: rb_step; rb_bind; iApply (wpi_no_or_black _ (Node Red ul ux ur) with "Hu"); iIntros "(Hu & Hul & Hur)"; simpl; do 4 rb_step; iApply ("W" with "HC"); simpl; iFrame.
Qed.

Lemma wpi_insert_loop this C n l x r fuel Φ :
  (length C < fuel)%nat → ctx_ok C n →
  ctx this C x -∗ rep (cpar C) (Node Red l x r) -∗ (whole this (ins_fix C l x r) -∗ Φ tt) -∗
  wpi (insert_color_loop fuel this x (cpar C)) Φ.
Proof.
  revert n l x r fuel. induction C as [|f|f g C IH] using frames_ind; intros n l x r [|fuel] Hf HC; try (simpl in Hf; lia); iIntros "HC Ht W".
  - iDestruct "Ht" as "(Hx & Hl & Hr)". simpl. rb_step. iApply "W". rw /whole /=. iFrame.
  - simpl in HC. destruct (fcolor f) eqn:Ef; [by destruct HC as [_ [? _]]|].
    iApply (wpi_insert_black with "HC Ht [W]"); [done|]. cbn [ins_fix]. by rw Ef.
  - destruct (fcolor f) eqn:Ef; last first.
    { iApply (wpi_insert_black with "HC Ht [W]"); [done|]. cbn [ins_fix]. by rw Ef. }
    cbn [ctx_ok] in HC. rw Ef in HC. destruct HC as [_ [Hg [_ HC]]]. simpl in Hg. rw Hg in HC. simpl in Hf.
    destruct (tcolor (fsib g)) eqn:Eu.
    + iApply (wpi_insert_up with "HC Ht"); [done|done|]. iIntros "HC Ht". cbn [ins_fix]. rw Ef.
      destruct g as [gc gx u|gc u gx]; simpl in Eu |- *; rw Eu; iApply (IH (S n) with "HC Ht W"); (lia || done).
    + destruct g as [gc gx u|gc u gx]; simpl in Eu; [iApply (wpi_insert_left with "HC Ht W")|iApply (wpi_insert_right with "HC Ht W")]; done.
Qed.

(** ** The place of the node *)

Definition link_of (this : Z) C : rb_link :=
  match C with [] => RootLink this | FL _ x _ :: _ => LeftLink x | FR _ _ x :: _ => RightLink x end.

Lemma wpi_set_link this C y z Φ : ctx this C y -∗ (ctx this C z -∗ Φ tt) -∗ wpi (set_link (link_of this C) z) Φ.
Proof.
  iIntros "HC W". destruct C as [|[c x r|c l x] C]; simpl; [iApply (wpi_set_root with "HC W")|..]; iDestruct "HC" as "(Hx & Ht & HC)";
    rb_step; iApply "W"; iFrame.
Qed.

Lemma wpi_descend this less d C t fuel Φ :
  (length (elems t) < fuel)%nat → (∀ x, x ∈ elems t → is_Some (less d x)) →
  ctx this C (troot t) -∗ rep (cpar C) t -∗
  (∀ D, ⌜t = plug D Leaf ∧ Forall (path_ok (less d)) D⌝ -∗ ctx this (D ++ C) 0 -∗ Φ (link_of this (D ++ C), cpar (D ++ C))) -∗
  wpi (insert_descend less fuel d (troot t) (cpar C) (link_of this C)) Φ.
Proof.
  revert C t. induction fuel as [|fuel IH] => C t Hf Hless; [lia|]. iIntros "HC Ht W". destruct t as [|c l x r]; cbn [insert_descend troot].
  - iApply wpi_ret. iApply ("W" $! [] with "[] HC"). by iPureIntro.
  - iDestruct "Ht" as "(Hx & Hl & Hr)". iDestruct (pt_pos with "Hx") as %(_&?&_). rw (bool_decide_eq_false_2 (_ = 0)); [|lia].
    simpl in Hf. rw length_app /= in Hf. destruct (Hless x) as [b Hb]; [simpl; set_solver|].
    rb_bind. iApply wpi_from_opt; [done|]. destruct b; rb_step.
    + iApply (IH (FL c x r :: C) l with "[$Hx $Hr $HC] Hl"); [lia|intros y Hy; apply Hless; simpl; set_solver|].
      iIntros (D [-> HD]) "HC". iSpecialize ("W" $! (D ++ [FL c x r])). rw -app_assoc plug_app /=. iApply ("W" with "[] HC").
      iPureIntro. split; [done|]. apply Forall_app. split; [done|]. by apply Forall_singleton.
    + iApply (IH (FR c l x :: C) r with "[$Hx $Hl $HC] Hr"); [lia|intros y Hy; apply Hless; simpl; set_solver|].
      iIntros (D [-> HD]) "HC". iSpecialize ("W" $! (D ++ [FR c l x])). rw -app_assoc plug_app /=. iApply ("W" with "[] HC").
      iPureIntro. split; [done|]. apply Forall_app. split; [done|]. by apply Forall_singleton.
Qed.

Lemma wpi_link_node this C d Φ :
  ctx this C 0 -∗ raw d -∗ (ctx this C d -∗ rep (cpar C) (Node Red Leaf d Leaf) -∗ Φ tt) -∗
  wpi (__rb_link_node d (cpar C) (link_of this C)) Φ.
Proof.
  iIntros "HC [%Hd (%n & Hd)] W". iDestruct (ctx_al with "HC") as %Hal. unfold __rb_link_node. rb_bind. iApply (wpi_upd with "Hd"). iIntros "Hd".
  iAssert (pt d 0 Red (left_child n) (right_child n)) with "[Hd]" as "Hd".
  { rw /pt. iFrame. iPureIntro. destruct Hd. split_and!; [done|done|apply al_0]. }
  do 3 rb_step. iApply (wpi_set_link with "HC"). iIntros "HC". iApply ("W" with "HC"). simpl. by iFrame.
Qed.

Lemma wpi_rb_insert this less d t Φ :
  (∀ x, x ∈ elems t → is_Some (less d x)) → balanced t →
  whole this t -∗ raw d -∗
  (∀ D, ⌜t = plug D Leaf ∧ Forall (path_ok (less d)) D⌝ -∗ whole this (ins_fix D Leaf d Leaf) -∗ Φ tt) -∗
  wpi (rb_insert less this d) Φ.
Proof.
  iIntros (Hless HB) "[Hroot Ht] Hd W". unfold rb_insert. rb_bind. iApply (wpi_get_root with "Hroot"). iIntros "Hroot".
  rb_bind. iApply (wpi_bound (elems t)). iSplit; [by iApply rep_raw|]. iIntros (fuel Hfuel). rb_bind.
  iApply (wpi_descend this less d [] t fuel with "Hroot Ht"); [lia|done|]. iIntros (D [-> HD]) "HC". rw app_nil_r. rb_red.
  rb_bind. iApply (wpi_link_node with "HC Hd"). iIntros "HC Ht".
  apply plug_rb_inv in HB as (n&HC&Hn). simpl in Hn. unfold __rb_insert_color. iDestruct "Ht" as "(Hx & _ & _)". rb_step.
  rb_bind. iApply (wpi_bound (faddr <$> D)). iSplit; [by iApply ctx_raw|]. iIntros (fuel' Hfuel'). rw length_fmap in Hfuel'.
  iApply (wpi_insert_loop this D n Leaf d Leaf with "HC [$Hx //]"); [lia|done|]. iApply "W". by iPureIntro.
Qed.
End insert.
