(* ===== verification/RbErase.v ===== *)
(** Removal from a red-black tree in memory. *)
From iris.base_logic.lib Require Import ghost_map.
From iris.proofmode Require Import proofmode.
From S2P Require Import Prelude RbTree RbSpec RbLogic RbProofs.

#[global] Open Scope Z_scope.

Section erase.
Context `{!rbG Σ}.
Implicit Types (t u : tree) (C : list frame).

(** ** Colours *)

(** What is left to prove after a step of the loop with result [res] below [C] *)
Definition after_step (this : Z) C (fuel : nat) (res : era_result) (Φ : unit → iProp Σ) : iProp Σ :=
  match res with
  | Done u => whole this (plug C u) -∗ Φ tt
  | Up u => ctx this C (troot u) -∗ rep (cpar C) u -∗ wpi (erase_color_loop fuel this (troot u) (cpar C)) Φ
  end.

Lemma red_tree t : tcolor t = Red → ∃ l x r, t = Node Red l x r.
Proof. destruct t as [|[] l x r] => // _. by exists l, x, r. Qed.

(** The node is the left child and its sibling [sx] is black. *)
Lemma wpi_erase_left this C pc px t sl sx sr fuel Φ :
  ctx this (FL pc px (Node Black sl sx sr) :: C) (troot t) -∗ rep px t -∗
  after_step this C fuel (era_left pc t px (Node Black sl sx sr)) Φ -∗
  wpi (erase_color_loop (S fuel) this (troot t) px) Φ.
Proof.
  iIntros "HC Ht W". cbn [erase_color_loop]. iDestruct (ctx_cons_pos with "HC") as %Hpx. simpl in Hpx. rw (bool_decide_eq_false_2 (px = 0)) //.
  iDestruct "HC" as "(Hp & (Hs & Hl & Hr) & HC)". cbn [troot]. rb_step. rw (bool_decide_eq_true_2 (troot t = troot t)) //. do 3 rb_step.
  rb_bind. iApply (wpi_red_node with "Hr"). iIntros "Hr". destruct (tcolor sr) eqn:Er; rb_red.
  { apply red_tree in Er as (nl&y&nr&->). cbn [troot era_left after_step]. iDestruct "Hr" as "(Hn & Hnl & Hnr)". do 2 rb_step. rb_bind.
    iApply (wpi_change_child with "HC Hp Hs"). iIntros "HC Hp Hs". do 3 rb_step. rb_bind.
    iApply (wpi_connect34 with "Hp Hs Hn Ht Hl Hnl Hnr"). iIntros "Hs (Hp & Ht & Hl) (Hn & Hnl & Hnr)". do 4 rb_step.
    iApply (wpi_update_root with "HC Hs"). iIntros "HC Hs". iApply "W". rw whole_plug /=. iFrame. }
  rb_step. rb_bind. iApply (wpi_red_node with "Hl"). iIntros "Hl". destruct (tcolor sl) eqn:El; rb_red.
  { apply red_tree in El as (nl&y&nr&->). rw era_left_near //. cbn [troot after_step]. iDestruct "Hl" as "(Hn & Hnl & Hnr)". do 2 rb_step. rb_bind.
    iApply (wpi_change_child with "HC Hp Hn"). iIntros "HC Hp Hn". do 3 rb_step. rb_bind.
    iApply (wpi_connect34 with "Hp Hn Hs Ht Hnl Hnr Hr"). iIntros "Hn (Hp & Ht & Hnl) (Hs & Hnr & Hr)". do 3 rb_step.
    iApply (wpi_update_root with "HC Hn"). iIntros "HC Hn". iApply "W". rw whole_plug /=. iFrame. }
  rw era_left_none //. destruct pc; do 3 rb_step; cbn [after_step].
  - iApply "W". rw whole_plug /=. iFrame.
  - iApply ("W" with "HC"). simpl. iFrame.
Qed.

Lemma wpi_erase_right this C pc px t sl sx sr fuel Φ :
  ctx this (FR pc (Node Black sl sx sr) px :: C) (troot t) -∗ rep px t -∗
  after_step this C fuel (era_right pc (Node Black sl sx sr) px t) Φ -∗
  wpi (erase_color_loop (S fuel) this (troot t) px) Φ.
Proof.
  iIntros "HC Ht W". cbn [erase_color_loop]. iDestruct (ctx_cons_pos with "HC") as %Hpx. simpl in Hpx. rw (bool_decide_eq_false_2 (px = 0)) //.
  iDestruct "HC" as "(Hp & (Hs & Hl & Hr) & HC)". cbn [troot]. iDestruct (rep_ne with "Ht Hs") as %Hne. rb_step.
  rw (bool_decide_eq_false_2 (troot t = sx)) //. do 3 rb_step.
  rb_bind. iApply (wpi_red_node with "Hl"). iIntros "Hl". destruct (tcolor sl) eqn:El; rb_red.
  { apply red_tree in El as (nl&y&nr&->). cbn [troot era_right after_step]. iDestruct "Hl" as "(Hn & Hnl & Hnr)". do 2 rb_step. rb_bind.
    iApply (wpi_change_child with "HC Hp Hs"). iIntros "HC Hp Hs". do 3 rb_step. rb_bind.
    iApply (wpi_connect34 with "Hn Hs Hp Hnl Hnr Hr Ht"). iIntros "Hs (Hn & Hnl & Hnr) (Hp & Hr & Ht)". do 4 rb_step.
    iApply (wpi_update_root with "HC Hs"). iIntros "HC Hs". iApply "W". rw whole_plug /=. iFrame. }
  rb_step. rb_bind. iApply (wpi_red_node with "Hr"). iIntros "Hr". destruct (tcolor sr) eqn:Er; rb_red.
  { apply red_tree in Er as (nl&y&nr&->). rw era_right_near //. cbn [troot after_step]. iDestruct "Hr" as "(Hn & Hnl & Hnr)". do 2 rb_step. rb_bind.
    iApply (wpi_change_child with "HC Hp Hn"). iIntros "HC Hp Hn". do 3 rb_step. rb_bind.
    iApply (wpi_connect34 with "Hs Hn Hp Hl Hnl Hnr Ht"). iIntros "Hn (Hs & Hl & Hnl) (Hp & Hnr & Ht)". do 3 rb_step.
    iApply (wpi_update_root with "HC Hn"). iIntros "HC Hn". iApply "W". rw whole_plug /=. iFrame. }
  rw era_right_none //. destruct pc; do 3 rb_step; cbn [after_step].
  - iApply "W". rw whole_plug /=. iFrame.
  - iApply ("W" with "HC"). simpl. iFrame.
Qed.

(** The sibling is red: after a rotation it is black, and the parent is red. *)
Lemma wpi_erase_left_red this C pc px t sl sx sr fuel Φ :
  ctx this (FL pc px (Node Red sl sx sr) :: C) (troot t) -∗ rep px t -∗
  (ctx this (FL Red px sl :: FL Black sx sr :: C) (troot t) -∗ rep px t -∗ wpi (erase_color_loop fuel this (troot t) px) Φ) -∗
  wpi (erase_color_loop (S fuel) this (troot t) px) Φ.
Proof.
  iIntros "HC Ht W". cbn [erase_color_loop]. iDestruct (ctx_cons_pos with "HC") as %Hpx. simpl in Hpx. rw (bool_decide_eq_false_2 (px = 0)) //.
  iDestruct "HC" as "(Hp & (Hs & Hl & Hr) & HC)". cbn [troot]. iDestruct (pt_pos with "Hp") as %(?&_&_). iDestruct (pt_pos with "Hs") as %(?&_&_).
  rb_step. rw (bool_decide_eq_true_2 (troot t = troot t)) //. do 3 rb_step.
  rb_bind. iApply (wpi_change_child with "HC Hp Hs"). iIntros "HC Hp Hs". do 3 rb_step. rb_bind. iApply (wpi_set_parent_tree with "Hl"); [done|]. iIntros "Hl".
  do 4 rb_step. rb_bind. iApply (wpi_update_root with "HC Hs"). iIntros "HC Hs". iApply ("W" with "[$Hp $Hl $Hs $Hr $HC] Ht").
Qed.

Lemma wpi_erase_right_red this C pc px t sl sx sr fuel Φ :
  ctx this (FR pc (Node Red sl sx sr) px :: C) (troot t) -∗ rep px t -∗
  (ctx this (FR Red sr px :: FR Black sl sx :: C) (troot t) -∗ rep px t -∗ wpi (erase_color_loop fuel this (troot t) px) Φ) -∗
  wpi (erase_color_loop (S fuel) this (troot t) px) Φ.
Proof.
  iIntros "HC Ht W". cbn [erase_color_loop]. iDestruct (ctx_cons_pos with "HC") as %Hpx. simpl in Hpx. rw (bool_decide_eq_false_2 (px = 0)) //.
  iDestruct "HC" as "(Hp & (Hs & Hl & Hr) & HC)". cbn [troot]. iDestruct (pt_pos with "Hp") as %(?&_&_). iDestruct (pt_pos with "Hs") as %(?&_&_).
  iDestruct (rep_ne with "Ht Hs") as %Hne. rb_step. rw (bool_decide_eq_false_2 (troot t = sx)) //. do 3 rb_step.
  rb_bind. iApply (wpi_change_child with "HC Hp Hs"). iIntros "HC Hp Hs". do 3 rb_step. rb_bind. iApply (wpi_set_parent_tree with "Hr"); [done|]. iIntros "Hr".
  do 4 rb_step. iApply ("W" with "[$Hp $Hr $Hs $Hl $HC] Ht").
Qed.

Lemma wpi_erase_loop this C n t fuel Φ :
  (S (length C) < fuel)%nat → ctx_ok C (S n) → is_rb Red n t →
  ctx this C (troot t) -∗ rep (cpar C) t -∗ (whole this (era_fix C t) -∗ Φ tt) -∗ wpi (erase_color_loop fuel this (troot t) (cpar C)) Φ.
Proof.
  revert n t fuel. induction C as [|f C IH] => n t [|[|fuel]] Hf HC Ht; try (simpl in Hf; lia); iIntros "HC Ht W".
  { cbn [erase_color_loop cpar]. rw (bool_decide_eq_true_2 (0 = 0)) //. rb_step. iApply "W". rw /whole. iFrame. }
  destruct HC as [Hs HC]. simpl in Hf. pose proof (era_step_ok f n t Ht Hs) as Ho.
  iAssert (∀ fuel', ⌜(S (length C) < fuel')%nat⌝ -∗ after_step this C fuel' (era_step f t) Φ)%I with "[W]" as "W".
  { iIntros (fuel' Hf'). cbn [era_fix]. destruct (era_step f t) as [u|u]; [done|]. simpl in Ho. destruct Ho as [E Hu]. rw E in HC.
    iIntros "HC Ht". iApply (IH with "HC Ht W"); done. }
  destruct f as [pc px s|pc s px]; simpl in Hs; (destruct s as [|[] sl sx sr]; simpl in Hs; [done|destruct Hs as (->&Hl&Hr)|]); cbn [cpar faddr era_step].
  - iApply (wpi_erase_left_red with "HC Ht"). iIntros "HC Ht". destruct sl as [|[] ml z mr]; simpl in Hl; [done|by destruct Hl|].
    iApply (wpi_erase_left with "HC Ht"). iSpecialize ("W" $! (S fuel) with "[]"); [iPureIntro; lia|].
    pose proof (era_left_ok Red n t px (Node Black ml z mr) Ht Hl eq_refl) as Ho2.
    destruct (era_left Red t px (Node Black ml z mr)) as [u|u]; [done|by destruct Ho2].
  - iApply (wpi_erase_left with "HC Ht"). iApply "W". iPureIntro. lia.
  - iApply (wpi_erase_right_red with "HC Ht"). iIntros "HC Ht". destruct sr as [|[] ml z mr]; simpl in Hr; [done|by destruct Hr|].
    iApply (wpi_erase_right with "HC Ht"). iSpecialize ("W" $! (S fuel) with "[]"); [iPureIntro; lia|].
    pose proof (era_right_ok Red n t px (Node Black ml z mr) Ht Hr eq_refl) as Ho2.
    destruct (era_right Red (Node Black ml z mr) px t) as [u|u]; [done|by destruct Ho2].
  - iApply (wpi_erase_right with "HC Ht"). iApply "W". iPureIntro. lia.
Qed.

(** ** The node with at most one child *)

(** The result [(ret, is_left_child)] of [__rb_erase] when a node of colour [c] with the one subtree [t] was taken out at [C]:
    the tree is repaired, or [t] lacks a black node. *)
Definition erased (this : Z) C (c : color) t (res : Z * bool) : iProp Σ :=
  (⌜res.1 = 0⌝ ∗ whole this (cut C c t)) ∨
  (⌜res.1 ≠ 0 ∧ res.1 = cpar C ∧ c = Black ∧ tcolor t = Black ∧ match C with f :: _ => res.2 = true ↔ is_left f | [] => False end⌝ ∗
   ctx this C (troot t) ∗ rep (cpar C) t).

(** [x] is the left child of its parent or not. *)
Lemma wpi_is_left this f C x p c l r Φ :
  ctx this (f :: C) x -∗ pt x p c l r -∗ (∀ b : bool, ⌜b = true ↔ is_left f⌝ -∗ ctx this (f :: C) x -∗ pt x p c l r -∗ Φ (faddr f, b)) -∗
  wpi (pl ← rb_left (faddr f); mret (faddr f, bool_decide (x = pl))) Φ.
Proof.
  iIntros "HC Hx W". destruct f as [fc y s|fc s y]; iDestruct "HC" as "(Hy & Hs & HC)"; simpl faddr.
  - do 2 rb_step. rw (bool_decide_eq_true_2 (x = x)) //. iApply ("W" with "[] [$Hy $Hs $HC] Hx"). by iPureIntro.
  - iDestruct (rep_ne with "Hs Hx") as %?. do 2 rb_step. rw (bool_decide_eq_false_2 (x = _)) //. iApply ("W" with "[] [$Hy $Hs $HC] Hx"). by iPureIntro.
Qed.

(** After [erase_check] on a node of colour [c] with the subtree [t]: [t] took the colour, or the check found a node for [ret]. *)
Definition check_ok (good : Z * bool → Prop) (c : color) t u (res : Z * bool) : Prop :=
  (res = (0, false) ∧ (∀ C, cut C c t = plug C u) ∧ troot u = troot t) ∨ (u = t ∧ c = Black ∧ tcolor t = Black ∧ good res).

Lemma wpi_erase_check (R : iProp Σ) good x p c l r q t m Φ :
  R -∗ pt x p c l r -∗ rep q t -∗
  (∀ Ψ, R -∗ pt x p c l r -∗ (∀ res, ⌜good res⌝ -∗ R -∗ pt x p c l r -∗ Ψ res) -∗ wpi m Ψ) -∗
  (∀ u res, ⌜check_ok good c t u res⌝ -∗ R -∗ pt x p c l r -∗ rep q u -∗ Φ res) -∗ wpi (erase_check x (troot t) m) Φ.
Proof.
  iIntros "HR Hx Ht Hm W". unfold erase_check. rb_step. destruct c; rb_red.
  { rb_step. iApply ("W" with "[] HR Hx Ht"). iPureIntro. by left. }
  rb_bind. iApply (wpi_red_node with "Ht"). iIntros "Ht". destruct (tcolor t) eqn:Et; rb_red.
  - apply red_tree in Et as (tl&y&tr&->). iDestruct "Ht" as "(Hy & Htl & Htr)". cbn [troot]. do 2 rb_step.
    iApply ("W" $! (Node Black tl y tr) with "[] HR Hx [$Hy $Htl $Htr]"). iPureIntro. by left.
  - iApply ("Hm" with "HR Hx"). iIntros (res Hres) "HR Hx". iApply ("W" with "[] HR Hx Ht"). iPureIntro. by right.
Qed.

Lemma erased_intro this C good c t u res :
  check_ok good c t u res →
  (good res → res.1 ≠ 0 ∧ res.1 = cpar C ∧ match C with f :: _ => res.2 = true ↔ is_left f | [] => False end) →
  ctx this C (troot u) -∗ rep (cpar C) u -∗ erased this C c t res.
Proof.
  iIntros ([(->&E&Eu)|(->&->&Et&Hg)] Hgood) "HC Ht"; [|iRight; iFrame; iPureIntro; naive_solver].
  iLeft. iSplit; [done|]. rw E whole_plug. iFrame.
Qed.

(** No child *)
Lemma wpi_erase_leaf this C c x Φ :
  ctx this C x -∗ rep (cpar C) (Node c Leaf x Leaf) -∗ (∀ res, erased this C c Leaf res -∗ raw x -∗ Φ res) -∗ wpi (__rb_erase this x) Φ.
Proof.
  iIntros "HC (Hx & _ & _) W". unfold __rb_erase. cbn [troot]. do 2 rb_step. rw (bool_decide_eq_true_2 (0 = 0)) //. rb_step.
  rw (bool_decide_eq_true_2 (0 = 0)) //.
  iAssert (∀ res, (ctx this C 0 -∗ erased this C c Leaf res) -∗ ctx this C x -∗ pt x (cpar C) c 0 0 -∗
    wpi (r ← rb_right x; __rb_change_child this (cpar C) x r;; mret res) Φ)%I with "[W]" as "W".
  { iIntros (res) "He HC Hx". rb_step. rb_bind. iApply (wpi_change_child_tree this C x Leaf 0 with "HC Hx []"); [done|]. iIntros "HC Hx _".
    rb_step. iApply ("W" with "(He HC)"). by iApply pt_raw. }
  rb_bind. rb_step. destruct c; simpl andb; rb_red.
  { rb_step. iApply ("W" with "[] HC Hx"). iIntros "HC". iLeft. iSplit; [done|]. rw whole_plug /=. by iFrame. }
  destruct C as [|f C].
  { simpl. rb_step. iApply ("W" with "[] HC Hx"). iIntros "HC". iLeft. iSplit; [done|]. rw /whole /=. by iFrame. }
  iDestruct (ctx_cons_pos with "HC") as %Hf. simpl cpar. rw (bool_decide_eq_false_2 (faddr f = 0)) //. cbn [negb]. rb_red.
  iApply (wpi_is_left with "HC Hx"). iIntros (b Hb) "HC Hx". iApply ("W" with "[] HC Hx"). iIntros "HC". iRight. iFrame. by iPureIntro.
Qed.

(** One child *)
Lemma wpi_erase_right_child this C c x r Φ :
  r ≠ Leaf → balanced (plug C (Node c Leaf x r)) →
  ctx this C x -∗ rep (cpar C) (Node c Leaf x r) -∗ (∀ res, erased this C c r res -∗ raw x -∗ Φ res) -∗ wpi (__rb_erase this x) Φ.
Proof.
  iIntros (Hne HB) "HC (Hx & _ & Hr) W". destruct (one_child C c r x Hne (or_introl HB)) as [-> (rl&y&rr&->)%red_tree].
  unfold __rb_erase. cbn [troot]. do 2 rb_step. rw (bool_decide_eq_true_2 (0 = 0)) //. rb_step. iDestruct "Hr" as "(Hy & Hrl & Hrr)".
  iDestruct (pt_pos with "Hy") as %(_&?&_). rw (bool_decide_eq_false_2 (y = 0)); [|lia]. rb_bind. do 2 rb_step. rb_step.
  rb_bind. iApply (wpi_change_child with "HC Hx Hy"). iIntros "HC Hx Hy". rb_step. iApply ("W" with "[-Hx]"); [|by iApply pt_raw].
  iLeft. iSplit; [done|]. rw /cut /= whole_plug /=. iFrame.
Qed.

Lemma wpi_erase_left_child this C c x l Φ :
  l ≠ Leaf → balanced (plug C (Node c l x Leaf)) →
  ctx this C x -∗ rep (cpar C) (Node c l x Leaf) -∗ (∀ res, erased this C c l res -∗ raw x -∗ Φ res) -∗ wpi (__rb_erase this x) Φ.
Proof.
  iIntros (Hne HB) "HC (Hx & Hl & _) W". destruct (one_child C c l x Hne (or_intror HB)) as [-> (ll&y&lr&->)%red_tree].
  unfold __rb_erase. cbn [troot]. do 2 rb_step. iDestruct "Hl" as "(Hy & Hll & Hlr)".
  iDestruct (pt_pos with "Hy") as %(_&?&_). rw (bool_decide_eq_false_2 (y = 0)); [|lia]. rb_step. rw (bool_decide_eq_true_2 (0 = 0)) //.
  rb_bind. iApply (wpi_change_child with "HC Hx Hy"). iIntros "HC Hx Hy". do 3 rb_step. iApply ("W" with "[-Hx]"); [|by iApply pt_raw].
  iLeft. iSplit; [done|]. rw /cut /= whole_plug /=. iFrame.
Qed.

(** ** The node with two children *)

(** The successor is the right child. *)
Lemma wpi_erase_near this C c x l sc y sr Φ :
  l ≠ Leaf →
  ctx this C x -∗ rep (cpar C) (Node c l x (Node sc Leaf y sr)) -∗
  (∀ res, erased this (FR c l y :: C) sc sr res -∗ raw x -∗ Φ res) -∗ wpi (__rb_erase this x) Φ.
Proof.
  iIntros (Hne) "HC (Hx & Hl & Hy & _ & Hsr) W". iDestruct (pt_pos with "Hy") as %(?&?&_). iDestruct (ctx_al with "HC") as %Hal.
  iAssert ⌜troot l ≠ 0⌝%I as %Hl0. { destruct l as [|lc ll z lr]; [done|]. iDestruct "Hl" as "[Hz _]". iDestruct (pt_pos with "Hz") as %(_&?&_). iPureIntro. simpl. lia. }
  unfold __rb_erase. cbn [troot]. do 2 rb_step. rw (bool_decide_eq_false_2 (troot l = 0)) //. rb_step. rw (bool_decide_eq_false_2 (y = 0)); [|lia].
  rb_step. rw (bool_decide_eq_true_2 (0 = 0)) //. rb_step. rb_bind.
  iApply (wpi_erase_check emp (λ res, res = (y, false)) with "[//] Hy Hsr"); [iIntros (Ψ) "_ Hy K"; rb_step; by iApply ("K" with "[] [] Hy")|].
  iIntros (u res Hok) "_ Hy Hu". rb_bind. iApply (wpi_change_child with "HC Hx Hy"). iIntros "HC Hx Hy". do 5 rb_step.
  destruct l as [|lc ll z lr]; [done|]. iDestruct "Hl" as "(Hz & Hll & Hlr)". cbn [troot]. do 2 rb_step.
  assert (troot u = troot sr) as Eu by (destruct Hok as [(_&_&?)|(->&_)]; done). iApply ("W" with "[-Hx]"); [|by iApply pt_raw].
  iApply (erased_intro with "[-Hu]"); [exact Hok| | |iExact "Hu"].
  - intros ->. simpl. split_and!; [lia|done|done].
  - rw Eu. simpl. iFrame.
Qed.

(** Part of a position, below a node at [p]; [top D f] is the child of that node. *)
Definition cpar_at (p : Z) (D : list frame) : Z := match D with [] => p | g :: _ => faddr g end.
Fixpoint seg (p : Z) (D : list frame) (f : Z) : iProp Σ :=
  match D with
  | [] => emp
  | FL c x r :: D' => pt x (cpar_at p D') c f (troot r) ∗ rep x r ∗ seg p D' x
  | FR c l x :: D' => pt x (cpar_at p D') c (troot l) f ∗ rep x l ∗ seg p D' x
  end.
Fixpoint top (D : list frame) (f : Z) : Z := match D with [] => f | g :: D' => top D' (faddr g) end.

Lemma cpar_app D C : cpar (D ++ C) = cpar_at (cpar C) D.
Proof. by destruct D. Qed.

Lemma ctx_app this D C f : ctx this (D ++ C) f ⊣⊢ seg (cpar C) D f ∗ ctx this C (top D f).
Proof.
  revert f. induction D as [|[c x r|c l x] D IH] => f /=; [by rw left_id|..]; rw IH cpar_app; by rw !assoc.
Qed.

Lemma wpi_seg_reparent p q D f Φ : D ≠ [] → al q → seg p D f -∗ (seg q D f -∗ Φ tt) -∗ wpi (rb_set_parent (top D f) q) Φ.
Proof.
  intros Hne Hq. revert f Φ. induction D as [|g D IH] => f Φ //. iIntros "HD W".
  destruct g as [c x r|c l x]; simpl; iDestruct "HD" as "(Hx & Ht & HD)"; (destruct D as [|g' D]; [simpl; rb_step; iApply "W"; iFrame|]);
    (iApply (IH with "HD"); [done|]; iIntros "HD"; iApply "W"; iFrame).
Qed.

Lemma seg_top_pos p D f : D ≠ [] → seg p D f -∗ ⌜top D f ≠ 0⌝.
Proof.
  revert f. induction D as [|g D IH] => f // _. iIntros "HD". destruct g as [c x r|c l x]; simpl; iDestruct "HD" as "(Hx & _ & HD)";
    (destruct D as [|g' D]; [simpl; iDestruct (pt_pos with "Hx") as %(_&?&_); iPureIntro; lia|by iApply (IH with "HD")]).
Qed.

(** [rb_replace_node] puts [y] in the place of the node [x] above [D]. *)
Lemma wpi_replace_node this C D c l x y f Φ :
  D ≠ [] → ctx this (D ++ FR c l x :: C) f -∗ raw y -∗
  (ctx this (D ++ FR c l y :: C) f -∗ raw x -∗ Φ tt) -∗ wpi (rb_replace_node this x y) Φ.
Proof.
  iIntros (HD) "HC [%Hy (%n & Hy)] W". rw !ctx_app /=. iDestruct "HC" as "(HD & (%Hx & Hx) & Hl & HC)". destruct Hx as (?&?&?).
  unfold rb_replace_node. rb_bind. iApply (wpi_get with "Hx"). iIntros "Hx". rb_bind. iApply (wpi_put with "Hy"). iIntros "Hy".
  destruct Hy. iAssert (pt x (cpar C) c (troot l) (top D f)) with "[$Hx //]" as "Hx". iAssert (pt y (cpar C) c (troot l) (top D f)) with "[$Hy //]" as "Hy".
  rb_step. rb_bind. iApply (wpi_set_parent_tree with "Hl"); [done|]. iIntros "Hl". rb_step. iDestruct (seg_top_pos with "HD") as %Htop; [done|].
  rw (bool_decide_eq_false_2 (top D f = 0)) //. rb_bind. cbn [negb when]. iApply (wpi_seg_reparent with "HD"); [done|done|]. iIntros "HD".
  rb_step. iApply (wpi_change_child with "HC Hx Hy"). iIntros "HC Hx Hy". iApply ("W" with "[-Hx]"); [iFrame|by iApply pt_raw].
Qed.

(** The successor is further down. *)
Lemma wpi_erase_deep this C c x l D sc y sr Φ :
  l ≠ Leaf → D ≠ [] → Forall is_left D →
  ctx this C x -∗ rep (cpar C) (Node c l x (plug D (Node sc Leaf y sr))) -∗
  (∀ res, erased this (D ++ FR c l y :: C) sc sr res -∗ raw x -∗ Φ res) -∗ wpi (__rb_erase this x) Φ.
Proof.
  iIntros (Hne HD Hleft) "HC (Hx & Hl & Hr) W". iDestruct (rep_root_pos with "Hl") as %Hl0; [done|].
  destruct (plug_left D sc y sr HD Hleft) as (rc&rl&rx&rr&Er&Hrl). rw Er. iDestruct "Hr" as "(Hrx & Hrl & Hrr)".
  iDestruct (rep_root_pos with "Hrl") as %Hrl0; [done|]. iDestruct (pt_pos with "Hrx") as %(_&?&_).
  unfold __rb_erase. cbn [troot]. do 2 rb_step. rw (bool_decide_eq_false_2 (troot l = 0)) //. rb_step. rw (bool_decide_eq_false_2 (rx = 0)); [|lia].
  rb_step. rw (bool_decide_eq_false_2 (troot rl = 0)) //. iAssert (rep x (Node rc rl rx rr)) with "[$Hrx $Hrl $Hrr]" as "Hr". rw -Er.
  rb_bind. iApply (wpi_bound (elems (plug D (Node sc Leaf y sr)))). iSplit; [by iApply rep_raw|]. iIntros (fuel Hfuel).
  change rx with (troot (Node rc rl rx rr)). rw -Er. rb_bind.
  iApply (wpi_leftmost with "Hr"); [rw elems_plug before_left //|lia|]. iIntros "Hr".
  iAssert (whole this (plug (D ++ FR c l x :: C) (Node sc Leaf y sr))) with "[HC Hx Hl Hr]" as "Ht".
  { rw plug_app /= whole_plug /=. iFrame. }
  rw whole_plug. iDestruct "Ht" as "(HC & Hy & _ & Hsr)". cbn [troot]. do 2 rb_step. destruct D as [|g D]; [done|]. rb_bind.
  iApply (wpi_erase_check (ctx this ((g :: D) ++ FR c l x :: C) y) (λ res, ∃ b : bool, res = (faddr g, b) ∧ (b = true ↔ is_left g)) with "HC Hy Hsr").
  { iIntros (Ψ) "HC Hy K". iApply (wpi_is_left with "HC Hy"). iIntros (b Hb) "HC Hy". iApply ("K" with "[] HC Hy"). iPureIntro. by exists b. }
  iIntros (u res Hok) "HC Hy Hu". assert (troot u = troot sr) as Eu by (destruct Hok as [(_&_&?)|(->&_)]; done). rw -Eu.
  iDestruct (ctx_cons_pos with "HC") as %Hg. rb_bind. iApply (wpi_change_child_tree with "HC Hy Hu"). iIntros "HC Hy Hu". rb_bind.
  iApply (wpi_replace_node with "HC [Hy]"); [done|by iApply pt_raw|]. iIntros "HC Hx". rb_step. iApply ("W" with "[HC Hu] Hx").
  iApply (erased_intro with "HC Hu"); [exact Hok|]. by intros (b&->&Hb).
Qed.

(** ** Removal *)

Lemma wpi_rb_erase0 this C c l x r Φ :
  balanced (plug C (Node c l x r)) → ctx this C x -∗ rep (cpar C) (Node c l x r) -∗
  (∀ E sc t y res, ⌜elems (plug E t) = before C ++ elems l ++ elems r ++ after C ∧ balanced (plug E (Node sc Leaf y t))⌝ -∗
     erased this E sc t res -∗ raw x -∗ Φ res) -∗
  wpi (__rb_erase this x) Φ.
Proof.
  iIntros (HB) "HC Ht W". destruct l as [|lc ll lx lr]; [destruct r as [|rc rl rx rr]|destruct r as [|rc rl rx rr]].
  - iApply (wpi_erase_leaf with "HC Ht"). iIntros (res) "He Hx". iApply ("W" with "[] He Hx"). iPureIntro. split; [by rw elems_plug /= -?app_assoc|done].
  - iApply (wpi_erase_right_child with "HC Ht"); [done|done|]. iIntros (res) "He Hx". iApply ("W" with "[] He Hx"). iPureIntro.
    split; [by rw elems_plug /= -?app_assoc|done].
  - iApply (wpi_erase_left_child with "HC Ht"); [done|done|]. iIntros (res) "He Hx". iApply ("W" with "[] He Hx"). iPureIntro.
    split; [by rw elems_plug /= -?app_assoc|by apply balanced_swap].
  - destruct (tree_min (Node rc rl rx rr)) as (D&sc&y&sr&Er&HD); [done|]. rw Er. rw Er in HB. clear Er rc rl rx rr. set (l := Node lc ll lx lr) in *.
    assert (elems (plug (D ++ FR c l y :: C) sr) = before C ++ elems l ++ elems (plug D (Node sc Leaf y sr)) ++ after C) as He.
    { rw plug_app /= !elems_plug /= !elems_plug (before_left D) //. elems_eq. }
    assert (balanced (plug (D ++ FR c l y :: C) (Node sc Leaf y sr))) as HB'.
    { apply (balanced_rename _ _ _ x). by rw plug_app. }
    destruct D as [|g D].
    + iApply (wpi_erase_near with "HC Ht"); [done|]. iIntros (res) "He Hx". iApply ("W" with "[] He Hx"). by iPureIntro.
    + iApply (wpi_erase_deep with "HC Ht"); [done|done|done|]. iIntros (res) "He Hx". iApply ("W" with "[] He Hx"). by iPureIntro.
Qed.

Lemma wpi_erase_color this C t y b Φ :
  balanced (plug C (Node Black Leaf y t)) → tcolor t = Black → match C with f :: _ => b = true ↔ is_left f | [] => False end →
  ctx this C (troot t) -∗ rep (cpar C) t -∗ (whole this (era_fix C t) -∗ Φ tt) -∗ wpi (__rb_erase_color this (cpar C) b) Φ.
Proof.
  iIntros (HB Et Hb) "HC Ht W". apply plug_rb_inv in HB as (n&HC&Hn). simpl in Hn. destruct n as [|n]; [done|]. destruct Hn as [_ Hn].
  iAssert (∀ Ψ, ctx this C (troot t) -∗ (ctx this C (troot t) -∗ Ψ (troot t)) -∗ wpi (if b then rb_left (cpar C) else rb_right (cpar C)) Ψ)%I as "Hchild".
  { iIntros (Ψ) "HC K". destruct C as [|[fc fx s|fc s fx] C] => //; simpl in Hb |- *; iDestruct "HC" as "(Hf & Hs & HC)"; destruct b.
    - rb_step. iApply "K". iFrame.
    - by discriminate (proj2 Hb I).
    - destruct (proj1 Hb eq_refl).
    - rb_step. iApply "K". iFrame. }
  unfold __rb_erase_color. rb_bind. iApply ("Hchild" with "HC"). iIntros "HC". rb_bind. iApply (wpi_bound (faddr <$> C)).
  iSplit; [by iApply ctx_raw|]. iIntros (fuel Hfuel). rw length_fmap in Hfuel.
  iApply (wpi_erase_loop with "HC Ht W"); [lia|done|by eapply is_rb_black].
Qed.

Lemma wpi_rb_erase this C c l x r Φ :
  balanced (plug C (Node c l x r)) → whole this (plug C (Node c l x r)) -∗
  (∀ t, ⌜elems t = before C ++ elems l ++ elems r ++ after C ∧ balanced t⌝ -∗ whole this t -∗ raw x -∗ Φ tt) -∗
  wpi (rb_erase this x) Φ.
Proof.
  iIntros (HB) "Ht W". rw whole_plug. iDestruct "Ht" as "[HC Ht]". unfold rb_erase. rb_bind. iApply (wpi_rb_erase0 with "HC Ht"); [done|].
  iIntros (E sc t y [ret b] [He HE]) "[[%Hr Ht]|(%Hr & HC & Ht)] Hx"; simpl in Hr; iApply wpi_when; pose proof (cut_balanced _ _ _ _ HE) as Hcut;
    rw -(cut_elems _ sc) in He.
  - subst ret. simpl. by iApply ("W" with "[] Ht Hx").
  - destruct Hr as (Hr0&->&->&Et&Hb). rw (bool_decide_eq_false_2 (cpar E = 0)) //. cbn [negb].
    iApply (wpi_erase_color with "HC Ht"); [done|done|done|]. iIntros "Ht". rw /cut Et in Hcut He. by iApply ("W" with "[] Ht Hx").
Qed.
End erase.
