(* ===== verification/RbSearch.v ===== *)
(** Search and traversal of a red-black tree in memory. *)
From iris.base_logic.lib Require Import ghost_map.
From iris.proofmode Require Import proofmode.
From S2P Require Import Prelude RbTree RbSpec RbLogic RbProofs.

#[global] Open Scope Z_scope.

Section search.
Context `{!rbG Σ}.
Implicit Types (t u : tree) (C : list frame) (cmp : Z → option Z).

Lemma wpi_search_loop p cmp t fuel Φ :
  in_order cmp (elems t) → (height t < fuel)%nat → rep p t -∗
  (∀ y, ⌜(y = 0 ∧ ∀ x, x ∈ elems t → cmp x ≠ Some 0) ∨ (y ∈ elems t ∧ cmp y = Some 0)⌝ -∗ rep p t -∗ Φ y) -∗
  wpi (search_loop cmp fuel (troot t)) Φ.
Proof.
  revert p t Φ. induction fuel as [|fuel IH] => p t Φ Ho Hf; [lia|]. iIntros "Ht W". destruct t as [|c l x r]; cbn [search_loop troot].
  { iApply wpi_ret. iApply ("W" with "[] Ht"). iPureIntro. left. split; [done|]. by intros x ?%elem_of_nil. }
  apply in_order_node in Ho as (Hl&Hr&[a Ha]&Hlx&Hxr). simpl in Hf.
  iDestruct "Ht" as "(Hx & Hl & Hr)". iDestruct (pt_pos with "Hx") as %(_&?&_). rw (bool_decide_eq_false_2 (x = 0)); [|lia].
  rb_bind. iApply wpi_from_opt; [done|]. destruct (decide (a < 0)); [|destruct (decide (a > 0))].
  - rw (bool_decide_eq_true_2 (a < 0)) //. rb_step. iApply (IH with "Hl"); [done|lia|]. iIntros (y Hy) "Hl". iApply ("W" with "[] [$Hx $Hl $Hr]").
    iPureIntro. simpl. destruct Hy as [[-> Hn]|[Hy Hc]]; [left; split; [done|]|right; set_solver].
    intros z [Hz|[->|Hz]%elem_of_cons]%elem_of_app; [by apply Hn|rw Ha; intros [= ?]; lia|].
    eapply after_smaller; [done|lia| |by apply Hxr]. destruct Hr as [_ Hr]. rw Forall_forall in Hr. by apply Hr.
  - rw (bool_decide_eq_false_2 (a < 0)) // (bool_decide_eq_true_2 (a > 0)) //. rb_step. iApply (IH with "Hr"); [done|lia|]. iIntros (y Hy) "Hr".
    iApply ("W" with "[] [$Hx $Hl $Hr]"). iPureIntro. simpl. destruct Hy as [[-> Hn]|[Hy Hc]]; [left; split; [done|]|right; set_solver].
    intros z [Hz|[->|Hz]%elem_of_cons]%elem_of_app; [|rw Ha; intros [= ?]; lia|by apply Hn].
    eapply before_greater; [done|lia| |by apply Hlx]. destruct Hl as [_ Hl]. rw Forall_forall in Hl. by apply Hl.
  - rw (bool_decide_eq_false_2 (a < 0)) // (bool_decide_eq_false_2 (a > 0)) //. rb_step. iApply ("W" with "[] [$Hx $Hl $Hr]"). iPureIntro. right.
    replace a with 0 in Ha by lia. split; [simpl; set_solver|done].
Qed.

Lemma wpi_rb_search this cmp t Φ :
  in_order cmp (elems t) → whole this t -∗
  (∀ y, ⌜(y = 0 ∧ ∀ x, x ∈ elems t → cmp x ≠ Some 0) ∨ (y ∈ elems t ∧ cmp y = Some 0)⌝ -∗ whole this t -∗ Φ y) -∗
  wpi (rb_search this cmp) Φ.
Proof.
  iIntros (Ho) "[Hroot Ht] W". unfold rb_search. rb_bind. iApply (wpi_get_root with "Hroot"). iIntros "Hroot".
  rb_bind. iApply (wpi_bound (elems t)). iSplit; [by iApply rep_raw|]. iIntros (fuel Hfuel).
  pose proof (height_elems t). iApply (wpi_search_loop with "Ht"); [done|lia|]. iIntros (y Hy) "Ht". iApply ("W" with "[//] [$Hroot $Ht]").
Qed.

(** [ret] is 0, or a match that comes after all of [t]. *)
Lemma wpi_search_first_loop p cmp t fuel ret Φ :
  in_order cmp (elems t) → (length (elems t) < fuel)%nat →
  (ret ≠ 0 → cmp ret = Some 0 ∧ ∀ y, y ∈ elems t → key_le cmp y ret) → rep p t -∗
  (rep p t -∗ Φ (default ret (first_match cmp (elems t)))) -∗ wpi (search_first_loop cmp fuel (troot t) ret) Φ.
Proof.
  revert p t ret Φ. induction fuel as [|fuel IH] => p t ret Φ Ho Hf Hret; [lia|]. iIntros "Ht W". destruct t as [|c l x r]; cbn [search_first_loop troot].
  { iApply wpi_ret. by iApply "W". }
  apply in_order_node in Ho as (Hl&Hr&[a Ha]&Hlx&Hxr). simpl in Hf. rw length_app /= in Hf.
  iDestruct "Ht" as "(Hx & Hl & Hr)". iDestruct (pt_pos with "Hx") as %(_&?&_). rw (bool_decide_eq_false_2 (x = 0)); [|lia].
  rb_bind. iApply wpi_from_opt; [done|]. simpl. rw first_match_app. destruct (decide (a ≤ 0)).
  - rw (bool_decide_eq_true_2 (a ≤ 0)) //. destruct (decide (a = 0)) as [->|Hne].
    + rw (bool_decide_eq_true_2 (0 = 0)) //. cbn [negb andb]. rb_step. iApply (IH with "Hl"); [done|lia|by intros _|]. iIntros "Hl".
      simpl. rw decide_True //. iSpecialize ("W" with "[$Hx $Hl $Hr]"). by destruct (first_match cmp (elems l)).
    + rw (bool_decide_eq_false_2 (a = 0)) //. destruct (decide (ret = 0)) as [->|Hr0]; last first.
      { exfalso. destruct (Hret Hr0) as [Hc Hle]. destruct (Hle x ltac:(simpl; set_solver) _ _ Ha Hc) as [_ Hlt]. specialize (Hlt ltac:(lia)). lia. }
      simpl. rb_step. iApply (IH with "Hl"); [done|lia|done|]. iIntros "Hl". iSpecialize ("W" with "[$Hx $Hl $Hr]").
      simpl. rw decide_False; [|rw Ha; intros [= ?]; lia]. rw (first_match_none _ (elems r)); [by destruct (first_match cmp (elems l))|].
      intros z Hz. eapply after_smaller; [done|lia| |by apply Hxr]. destruct Hr as [_ Hr]. rw Forall_forall in Hr. by apply Hr.
  - rw (bool_decide_eq_false_2 (a ≤ 0)) //. rb_step. iApply (IH with "Hr"); [done|lia| |].
    { intros Hr0. destruct (Hret Hr0) as [Hc Hle]. split; [done|]. intros y Hy. apply Hle. simpl. set_solver. }
    iIntros "Hr". iSpecialize ("W" with "[$Hx $Hl $Hr]"). rw (first_match_none _ (elems l)) /=; [rw decide_False //; rw Ha; intros [= ?]; lia|].
    intros z Hz. eapply before_greater; [done|lia| |by apply Hlx]. destruct Hl as [_ Hl]. rw Forall_forall in Hl. by apply Hl.
Qed.

Lemma wpi_rb_search_first this cmp t Φ :
  in_order cmp (elems t) → whole this t -∗ (whole this t -∗ Φ (default 0 (first_match cmp (elems t)))) -∗ wpi (rb_search_fisrt this cmp) Φ.
Proof.
  iIntros (Ho) "[Hroot Ht] W". unfold rb_search_fisrt. rb_bind. iApply (wpi_get_root with "Hroot"). iIntros "Hroot".
  rb_bind. iApply (wpi_bound (elems t)). iSplit; [by iApply rep_raw|]. iIntros (fuel Hfuel).
  iApply (wpi_search_first_loop with "Ht"); [done|lia|done|]. iIntros "Ht". iApply ("W" with "[$Hroot $Ht]").
Qed.

(** ** Traversal *)

Lemma wpi_climb_right this C x c l r fuel Φ :
  (length C < fuel)%nat → ctx this C x -∗ pt x (cpar C) c l r -∗ (ctx this C x -∗ pt x (cpar C) c l r -∗ Φ (hd 0 (after C))) -∗
  wpi (climb_right fuel x) Φ.
Proof.
  revert x c l r fuel. induction C as [|f C IH] => x c l r [|fuel] Hf; try (simpl in Hf; lia); iIntros "HC Hx W"; cbn [climb_right].
  { rb_step. simpl. rb_step. iApply ("W" with "HC Hx"). }
  iDestruct (ctx_cons_pos with "HC") as %Hne. simpl cpar. rb_step. rw (bool_decide_eq_false_2 (faddr f = 0)) //. simpl in Hf.
  destruct f as [fc y s|fc s y]; iDestruct "HC" as "(Hy & Hs & HC)"; simpl faddr; rb_step.
  - iDestruct (rep_ne with "Hs Hx") as %?. rw (bool_decide_eq_false_2 (x = _)) //. rb_step. iApply ("W" with "[$Hy $Hs $HC] Hx").
  - rw (bool_decide_eq_true_2 (x = x)) //. iApply (IH with "HC Hy"); [lia|]. iIntros "HC Hy". iApply ("W" with "[$Hy $Hs $HC] Hx").
Qed.

Lemma wpi_climb_left this C x c l r fuel Φ :
  (length C < fuel)%nat → ctx this C x -∗ pt x (cpar C) c l r -∗ (ctx this C x -∗ pt x (cpar C) c l r -∗ Φ (last0 (before C))) -∗
  wpi (climb_left fuel x) Φ.
Proof.
  revert x c l r fuel. induction C as [|f C IH] => x c l r [|fuel] Hf; try (simpl in Hf; lia); iIntros "HC Hx W"; cbn [climb_left].
  { rb_step. simpl. rb_step. iApply ("W" with "HC Hx"). }
  iDestruct (ctx_cons_pos with "HC") as %Hne. simpl cpar. rb_step. rw (bool_decide_eq_false_2 (faddr f = 0)) //. simpl in Hf.
  destruct f as [fc y s|fc s y]; iDestruct "HC" as "(Hy & Hs & HC)"; simpl faddr; rb_step.
  - rw (bool_decide_eq_true_2 (x = x)) //. iApply (IH with "HC Hy"); [lia|]. iIntros "HC Hy". iApply ("W" with "[$Hy $Hs $HC] Hx").
  - iDestruct (rep_ne with "Hs Hx") as %?. rw (bool_decide_eq_false_2 (x = _)) //. rb_step. simpl before. rw app_assoc /last0 last_snoc.
    iApply ("W" with "[$Hy $Hs $HC] Hx").
Qed.

(** A tree split at one of its nodes *)
Lemma whole_node this C c l x r : whole this (plug C (Node c l x r)) ⊣⊢
  ctx this C x ∗ pt x (cpar C) c (troot l) (troot r) ∗ rep x l ∗ rep x r.
Proof. by rw whole_plug. Qed.

Lemma elems_nil t : elems t = [] → t = Leaf.
Proof. destruct t; simpl; [done|]. by intros [_ ?]%app_nil. Qed.

Lemma length_ctx C : (length C ≤ length (before C) + length (after C))%nat.
Proof. induction C as [|[c x r|c l x] C IH]; simpl; rw ?length_app /=; try rw length_app /=; lia. Qed.

Lemma wpi_bound_tree this t (Φ : nat → iProp Σ) :
  whole this t -∗ (∀ n, ⌜(S (length (elems t)) ≤ n)%nat⌝ → whole this t -∗ Φ n) -∗ wpi loop_bound Φ.
Proof.
  iIntros "Ht W". iApply (wpi_bound (elems t)). iSplit; [iDestruct "Ht" as "[_ Ht]"; by iApply rep_raw|].
  iIntros (n Hn). by iApply ("W" with "[] Ht").
Qed.

Lemma wpi_rb_next this t x xs ys Φ :
  elems t = xs ++ x :: ys → whole this t -∗ (whole this t -∗ Φ (hd 0 ys)) -∗ wpi (rb_next x) Φ.
Proof.
  intros (C&c&l&r&->&->&->)%tree_split. iIntros "Ht W". unfold rb_next. rb_bind. iApply (wpi_bound_tree with "Ht").
  rw elems_plug /= !length_app /=. iIntros (n Hn) "Ht". pose proof (length_ctx C). rw whole_node. iDestruct "Ht" as "(HC & Hx & Hl & Hr)".
  rb_step. destruct (elems r) as [|y ys] eqn:E.
  - apply elems_nil in E as ->. simpl. iApply (wpi_climb_right with "HC Hx"); [simpl in Hn; lia|]. iIntros "HC Hx". iApply "W". iFrame.
  - iDestruct (rep_root_pos with "Hr") as %?; [by intros ->|]. rw (bool_decide_eq_false_2 (_ = 0)) //.
    iApply (wpi_leftmost with "Hr"); [done|rw E; simpl in Hn |- *; lia|]. iIntros "Hr". iApply "W". iFrame.
Qed.

Lemma wpi_rb_prev this t x xs ys Φ :
  elems t = xs ++ x :: ys → whole this t -∗ (whole this t -∗ Φ (last0 xs)) -∗ wpi (rb_prev x) Φ.
Proof.
  intros (C&c&l&r&->&->&->)%tree_split. iIntros "Ht W". unfold rb_prev. rb_bind. iApply (wpi_bound_tree with "Ht").
  rw elems_plug /= !length_app /=. iIntros (n Hn) "Ht". pose proof (length_ctx C). rw whole_node. iDestruct "Ht" as "(HC & Hx & Hl & Hr)".
  rb_step. destruct (elems l) as [|y ys _] eqn:E using rev_ind.
  - apply elems_nil in E as ->. rw app_nil_r. simpl. iApply (wpi_climb_left with "HC Hx"); [simpl in Hn; lia|]. iIntros "HC Hx". iApply "W". iFrame.
  - iDestruct (rep_root_pos with "Hl") as %?; [by intros ->; destruct ys|]. rw (bool_decide_eq_false_2 (_ = 0)) //.
    iApply (wpi_rightmost with "Hl"); [done|rw E; lia|]. iIntros "Hl". rw app_assoc /last0 last_snoc. iApply "W". iFrame.
Qed.

Lemma wpi_rb_first this t Φ : whole this t -∗ (whole this t -∗ Φ (hd 0 (elems t))) -∗ wpi (rb_first this) Φ.
Proof.
  iIntros "[Hroot Ht] W". unfold rb_first. rb_bind. iApply (wpi_get_root with "Hroot"). iIntros "Hroot". destruct (elems t) as [|y ys] eqn:E.
  { apply elems_nil in E as ->. simpl. iApply wpi_ret. iApply "W". iFrame. }
  iDestruct (rep_root_pos with "Ht") as %?; [by intros ->|]. rw (bool_decide_eq_false_2 (_ = 0)) //.
  rb_bind. iApply (wpi_bound_tree with "[$Hroot $Ht]"). iIntros (n Hn) "[Hroot Ht]". iApply (wpi_leftmost with "Ht"); [done|lia|].
  iIntros "Ht". iApply "W". iFrame.
Qed.

Lemma wpi_rb_last this t Φ : whole this t -∗ (whole this t -∗ Φ (last0 (elems t))) -∗ wpi (rb_last this) Φ.
Proof.
  iIntros "[Hroot Ht] W". unfold rb_last. rb_bind. iApply (wpi_get_root with "Hroot"). iIntros "Hroot".
  destruct (elems t) as [|y ys _] eqn:E using rev_ind.
  { apply elems_nil in E as ->. simpl. iApply wpi_ret. iApply "W". iFrame. }
  iDestruct (rep_root_pos with "Ht") as %?; [by intros ->; destruct ys|]. rw (bool_decide_eq_false_2 (_ = 0)) //.
  rb_bind. iApply (wpi_bound_tree with "[$Hroot $Ht]"). iIntros (n Hn) "[Hroot Ht]". iApply (wpi_rightmost with "Ht"); [done|lia|].
  iIntros "Ht". rw /last0 last_snoc. iApply "W". iFrame.
Qed.

Lemma wpi_for_each_loop this t xs ys fuel Φ :
  elems t = xs ++ ys → (length ys < fuel)%nat → whole this t -∗ (whole this t -∗ Φ ys) -∗ wpi (for_each_loop fuel (hd 0 ys)) Φ.
Proof.
  revert xs ys Φ. induction fuel as [|fuel IH] => xs ys Φ E Hf; [lia|]. iIntros "Ht W". destruct ys as [|y ys]; cbn [for_each_loop hd].
  { iApply wpi_ret. by iApply "W". }
  iAssert ⌜y ≠ 0⌝%I as %Hy.
  { iDestruct "Ht" as "[_ Ht]". iDestruct (rep_raw with "Ht") as "Ht". rw E. iDestruct "Ht" as "(_ & [%Hy _] & _)". iPureIntro. lia. }
  rw (bool_decide_eq_false_2 (y = 0)) //. rb_bind. iApply (wpi_rb_next with "Ht"); [done|]. iIntros "Ht". rb_bind.
  iApply (IH (xs ++ [y]) with "Ht"); [by rw -app_assoc|simpl in Hf; lia|]. iIntros "Ht". iApply wpi_ret. by iApply "W".
Qed.

Lemma wpi_rb_for_each this t Φ : whole this t -∗ (whole this t -∗ Φ (elems t)) -∗ wpi (rb_for_each this) Φ.
Proof.
  iIntros "Ht W". unfold rb_for_each. rb_bind. iApply (wpi_rb_first with "Ht"). iIntros "Ht". rb_bind.
  iApply (wpi_bound_tree with "Ht"). iIntros (n Hn) "Ht". iApply (wpi_for_each_loop _ _ [] with "Ht W"); [done|lia].
Qed.

Lemma wpi_rb_next_match this t x xs ys cmp Φ :
  elems t = xs ++ x :: ys → Forall (λ y, is_Some (cmp y)) ys →
  whole this t -∗ (whole this t -∗ Φ (match ys with y :: _ => if decide (cmp y = Some 0) then y else 0 | [] => 0 end)) -∗
  wpi (rb_next_match x cmp) Φ.
Proof.
  iIntros (E Hc) "Ht W". unfold rb_next_match. rb_bind. iApply (wpi_rb_next with "Ht"); [done|]. iIntros "Ht". destruct ys as [|y ys]; simpl.
  { iApply wpi_ret. by iApply "W". }
  iAssert ⌜y ≠ 0⌝%I as %Hy.
  { iDestruct "Ht" as "[_ Ht]". iDestruct (rep_raw with "Ht") as "Ht". rw E. iDestruct "Ht" as "(_ & _ & [%Hy _] & _)". iPureIntro. lia. }
  rw (bool_decide_eq_false_2 (y = 0)) //. apply Forall_cons in Hc as [[a Ha] _]. rb_bind. iApply wpi_from_opt; [done|]. iApply wpi_ret.
  iSpecialize ("W" with "Ht"). destruct (decide (a = 0)) as [->|].
  - rw (bool_decide_eq_true_2 (0 = 0)) // decide_True //.
  - rw (bool_decide_eq_false_2 (a = 0)) // decide_False //. rw Ha. by intros [= ?].
Qed.
End search.
