(* ===== verification/RbAdequate.v ===== *)
(** From the separation logic back to the code: a triple proved for a tree holds of every run from a memory that has the tree,
    and the run leaves every other node and every other root as it was. *)
From iris.base_logic.lib Require Import ghost_map.
From iris.proofmode Require Import proofmode.
From S2P Require Import Prelude RbTree RbSpec RbLogic RbProofs.

#[global] Open Scope Z_scope.

(** ** Trees as assertions, trees in memory *)
Section heap.
Context `{!rbG Σ}.
Implicit Types (t u : tree) (m : gmap Z rb_node).

(** The nodes of [m] at the addresses [xs] *)
Definition nodes_at m (xs : list Z) : iProp Σ := [∗ list] x ∈ xs, ∃ n : rb_node, ⌜m !! x = Some n⌝ ∗ ghost_map_elem node_name x (DfracOwn 1) n.

Lemma nodes_split m xs : NoDup xs → (∀ x, x ∈ xs → is_Some (m !! x)) →
  ([∗ map] x ↦ n ∈ m, ghost_map_elem node_name x (DfracOwn 1) n) -∗
  nodes_at m xs ∗ [∗ map] x ↦ n ∈ foldr delete m xs, ghost_map_elem node_name x (DfracOwn 1) n.
Proof.
  rw /nodes_at. induction xs as [|x xs IH] => Hnd Hx; iIntros "H"; simpl; [by iFrame|].
  apply NoDup_cons in Hnd as [Hni Hnd]. iDestruct (IH with "H") as "[$ H]"; [done|by intros y Hy; apply Hx; right|].
  destruct (Hx x) as [n Hn]; [by left|].
  iDestruct (big_sepM_delete _ _ x n with "H") as "[Hx $]"; [by rw lookup_foldr_delete_not_elem_of|].
  iExists n. by iFrame.
Qed.

Lemma in_heap_rep m p t : al p → in_heap m p t → nodes_at m (elems t) -∗ rep p t.
Proof.
  rw /nodes_at. revert p. induction t as [|c l IHl x r IHr] => p Hp /=; [by iIntros|]. intros ([Ha Hx]&E&Hl&Hr). rw big_sepL_app /=.
  iIntros "(Hls & (%n & %En & Hn) & Hrs)". rw E in En. injection En as <-. iSplitL "Hn"; [rw /pt; by iFrame|].
  iSplitL "Hls"; [by iApply IHl|by iApply IHr].
Qed.

Lemma nodes_raw m xs : Forall (λ x, al x ∧ 0 < x) xs → nodes_at m xs -∗ [∗ list] x ∈ xs, raw x.
Proof.
  rw /nodes_at Forall_forall => Hx. iIntros "H". iApply (big_sepL_impl with "H"). iIntros "!>" (k x E) "(%n & _ & Hn)".
  rw /raw. iSplit; [iPureIntro; apply Hx; by eapply list_elem_of_lookup_2|]. by iExists n.
Qed.

Lemma rep_in_heap s p t : interp s -∗ rep p t -∗ ⌜in_heap (rb_nodes s) p t⌝.
Proof.
  iIntros "Hs Ht". iInduction t as [|c l x r] "IHl" forall (p); simpl; [done|]. iDestruct "Ht" as "(Hx & Hl & Hr)".
  iDestruct ("IHl" with "Hs Hl") as %?. iDestruct ("IHl1" with "Hs Hr") as %?. iDestruct "Hx" as "[%Ha Hx]". iDestruct "Hs" as "[Hn _]".
  iDestruct (ghost_map_lookup with "Hn Hx") as %?. iPureIntro. tauto.
Qed.

Lemma whole_in s this t : interp s -∗ whole this t -∗ ⌜tree_in s this t⌝.
Proof.
  iIntros "Hs [Hroot Ht]". iDestruct (rep_in_heap with "Hs Ht") as %?. iDestruct (rep_raw with "Ht") as "Ht".
  iDestruct (raws_bound with "Hs Ht") as %[? _]. iDestruct "Hs" as "[_ Hs]". rw /root_at. iDestruct (ghost_map_lookup with "Hs Hroot") as %?. done.
Qed.

(** Owned nodes that are not in the tree *)
Lemma raws_fresh s t ds : interp s -∗ ([∗ list] x ∈ elems t, raw x) -∗ ([∗ list] d ∈ ds, raw d) -∗ ⌜Forall (fresh s t) ds⌝.
Proof.
  rw Forall_forall. iIntros "[Hs _] Ht Hd" (d Hd). iDestruct (big_sepL_elem_of with "Hd") as "[%Ha (%n & Hn)]"; [done|].
  iDestruct (ghost_map_lookup with "Hs Hn") as %E. iAssert ⌜d ∉ elems t⌝%I as %Hni; last by iPureIntro; split; [|split; [eexists|]].
  iIntros (Hx). iDestruct (big_sepL_elem_of with "Ht") as "[_ (%n' & Hn')]"; [done|]. by iDestruct (ghost_map_elem_ne with "Hn Hn'") as %?.
Qed.

(** What the run did not own is as it was. *)
Lemma others_kept s s' this xs :
  interp s' -∗ ([∗ map] x ↦ n ∈ foldr delete (rb_nodes s) xs, ghost_map_elem node_name x (DfracOwn 1) n) -∗
  ([∗ map] r ↦ f ∈ delete this (rb_roots s), ghost_map_elem root_name r (DfracOwn 1) f) -∗ ⌜only_tree this xs s s'⌝.
Proof.
  iIntros "[Hn Hr] Hns Hrs". iDestruct (ghost_map_lookup_big with "Hn Hns") as %Hn. iDestruct (ghost_map_lookup_big with "Hr Hrs") as %Hr.
  iPureIntro. split.
  - intros y n Hy E. eapply lookup_weaken; [|done]. by rw lookup_foldr_delete_not_elem_of.
  - intros r f Hne E. eapply lookup_weaken; [|done]. by rw lookup_delete_ne.
Qed.
End heap.

(** ** Adequacy *)

Definition rbΣ : gFunctors := #[ghost_mapΣ Z rb_node; ghost_mapΣ Z Z].

#[local] Instance rb_nodes_inG : ghost_mapG rbΣ Z rb_node.
Proof. apply subG_ghost_mapΣ, _. Qed.
#[local] Instance rb_roots_inG : ghost_mapG rbΣ Z Z.
Proof. apply subG_ghost_mapΣ, _. Qed.

(** [m] runs on the tree [t] under [this] and the free nodes [ds]. *)
Lemma wpi_adequate {A} (m : MR A) s this t ds (φ : A → tree → list Z → Prop) :
  tree_in s this t → NoDup ds → Forall (fresh s t) ds →
  (∀ `{!rbG rbΣ}, whole this t -∗ ([∗ list] d ∈ ds, raw d) -∗
     wpi m (λ a, ∃ t' ds', ⌜φ a t' ds'⌝ ∗ whole this t' ∗ [∗ list] d ∈ ds', raw d)) →
  ∃ a s' t' ds', m s = Ret (a, s') ∧ φ a t' ds' ∧ tree_in s' this t' ∧ Forall (fresh s' t') ds' ∧ only_tree this (elems t ++ ds) s s'.
Proof.
  intros (Er&Hh&Hnd) Hds Hfr Hm. apply (pure_soundness (PROP := iPropI rbΣ)), uPred.bupd_soundness; [apply _|].
  iMod (ghost_map_alloc (rb_nodes s)) as (γn) "[Hn Hns]". iMod (ghost_map_alloc (rb_roots s)) as (γr) "[Hr Hrs]".
  pose (G := RbG rbΣ _ _ γn γr). rw Forall_forall in Hfr.
  iDestruct (nodes_split (rbG0 := G) _ (elems t ++ ds) with "Hns") as "[Hx Hns]".
  { apply NoDup_app. split_and!; try done. intros x Hx Hd. by apply Hfr in Hd as (_&_&?). }
  { intros x [Hx|Hd]%elem_of_app; [by eapply in_heap_lookup|by apply Hfr in Hd as (_&?&_)]. }
  rw /nodes_at big_sepL_app. iDestruct "Hx" as "[Ht Hd]". iDestruct (big_sepM_delete _ _ this with "Hrs") as "[Hroot Hrs]"; [done|].
  iDestruct (in_heap_rep (rbG0 := G) _ 0 t with "Ht") as "Ht"; [apply al_0|done|].
  iDestruct (nodes_raw (rbG0 := G) with "Hd") as "Hd"; [rw Forall_forall => d Hd; by apply Hfr in Hd as (?&_)|].
  iMod (Hm G with "[Hroot Ht] Hd [Hn Hr]") as (a s') "(%Ea & Hs & (%t' & %ds' & %Hφ & Ht & Hd))"; [by iFrame|iFrame|].
  iDestruct (whole_in with "Hs Ht") as %Ht'. iDestruct (rep_raw with "[Ht]") as "Ht"; [iDestruct "Ht" as "[_ $]"|].
  iDestruct (raws_fresh with "Hs Ht Hd") as %Hfr'. iDestruct (others_kept with "Hs Hns Hrs") as %Hot. iModIntro. iPureIntro. by exists a, s', t', ds'.
Qed.
