(* ===== verification/RbRuns.v ===== *)
(** The runs of the red-black tree code on a memory that has a tree: the proofs in the separation logic, taken back to the
    code. *)
From iris.base_logic.lib Require Import ghost_map.
From iris.proofmode Require Import proofmode.
From S2P Require Import Prelude RbTree RbSpec RbLogic RbProofs RbInsert RbErase RbSearch RbAdequate.

#[global] Open Scope Z_scope.

(** Code that only reads the tree *)
Lemma run_read {A} (m : MR A) s this t (φ : A → Prop) :
  reads m → tree_in s this t → (∀ `{!rbG rbΣ}, whole this t -∗ wpi m (λ a, ⌜φ a⌝ ∗ whole this t)) → ∃ a, m s = Ret (a, s) ∧ φ a.
Proof.
  intros Hr Ht Hm. destruct (wpi_adequate m s this t [] (λ a _ _, φ a)) as (a&s'&_&_&E&Hφ&_); [done|apply NoDup_nil_2|constructor| |].
  - intros G. iIntros "Ht _". iApply (wpi_wand with "[Ht]"); [by iApply Hm|]. iIntros (a) "[%Ha Ht]". iExists t, []. iSplit; [done|]. by iFrame "Ht".
  - exists a. split; [|done]. by pose proof (Hr _ _ _ E) as ->.
Qed.

Lemma run_insert s this less d t xs ys :
  tree_in s this t → balanced t → fresh s t d → elems t = xs ++ ys →
  Forall (λ x, less d x = Some false) xs → Forall (λ y, less d y = Some true) ys →
  ∃ s' t', rb_insert less this d s = Ret (tt, s') ∧ tree_in s' this t' ∧ balanced t' ∧ elems t' = xs ++ d :: ys ∧ only_tree this (elems t ++ [d]) s s'.
Proof.
  intros Ht HB Hd E Hx Hy.
  destruct (wpi_adequate (rb_insert less this d) s this t [d] (λ _ t' _, balanced t' ∧ elems t' = xs ++ d :: ys))
    as ([]&s'&t'&_&Er&[HB' E']&Ht'&_&Ho); [done|by apply NoDup_singleton|by constructor| |by exists s', t'].
  intros G. iIntros "Ht [Hd _]". iApply (wpi_rb_insert with "Ht Hd"); [|done|].
  { intros x. rw E elem_of_app. rw Forall_forall in Hx. rw Forall_forall in Hy. intros [?%Hx|?%Hy]; by eexists. }
  iIntros (D [-> HD]) "Ht". iExists _, []. iFrame "Ht". iSplit; [|done]. iPureIntro.
  rw elems_plug /= in E. destruct (path_split _ _ _ _ HD E Hx Hy) as [E1 E2]. apply plug_rb_inv in HB as (n&HC&Hn). simpl in Hn. subst n. split.
  - by eapply ins_fix_balanced.
  - by rw ins_fix_elems elems_plug /= E1 E2.
Qed.

Lemma run_erase s this t xs x ys :
  tree_in s this t → balanced t → elems t = xs ++ x :: ys →
  ∃ s' t', rb_erase this x s = Ret (tt, s') ∧ tree_in s' this t' ∧ balanced t' ∧ elems t' = xs ++ ys ∧ fresh s' t' x ∧ only_tree this (elems t) s s'.
Proof.
  intros Ht HB E. destruct (tree_split _ _ _ _ E) as (C&c&l&r&->&->&->).
  destruct (wpi_adequate (rb_erase this x) s this _ [] (λ _ t' ds, (balanced t' ∧ elems t' = (before C ++ elems l) ++ elems r ++ after C) ∧ ds = [x]) Ht)
    as ([]&s'&t'&ds&Er&[[HB' E'] ->]&Ht'&Hf&Ho); [apply NoDup_nil_2|constructor| |].
  - intros G. iIntros "Ht _". iApply (wpi_rb_erase with "Ht"); [done|]. iIntros (t' [E' HB']) "Ht Hx". iExists t', [x]. iFrame "Ht Hx". iSplit; [|done]. iPureIntro.
    by rw E' -!app_assoc.
  - exists s', t'. rw app_nil_r in Ho. apply Forall_cons in Hf as [Hf _]. by split_and!.
Qed.

Lemma run_search_loop s this cmp t fuel :
  tree_in s this t → in_order cmp (elems t) → (height t < fuel)%nat →
  ∃ y, search_loop cmp fuel (troot t) s = Ret (y, s) ∧ ((y = 0 ∧ ∀ x, x ∈ elems t → cmp x ≠ Some 0) ∨ (y ∈ elems t ∧ cmp y = Some 0)).
Proof.
  intros Ht Ho Hf. apply (run_read _ s this t); [eauto with reads|done|]. intros G. iIntros "[Hroot Ht]". iApply (wpi_search_loop with "Ht"); [done|done|].
  iIntros (y Hy) "Ht". iSplit; [done|]. iFrame.
Qed.

Lemma run_for_each s this t : tree_in s this t → rb_for_each this s = Ret (elems t, s).
Proof.
  intros Ht. destruct (run_read (rb_for_each this) s this t (λ xs, xs = elems t)) as (xs&E&->); [eauto with reads|done| |done].
  intros G. iIntros "Ht". iApply (wpi_rb_for_each with "Ht"). iIntros "Ht". by iFrame.
Qed.

Lemma run_search s this cmp t : tree_in s this t → in_order cmp (elems t) →
  ∃ y, rb_search this cmp s = Ret (y, s) ∧ ((y = 0 ∧ ∀ x, x ∈ elems t → cmp x ≠ Some 0) ∨ (y ∈ elems t ∧ cmp y = Some 0)).
Proof.
  intros Ht Ho. apply (run_read _ s this t); [unfold rb_search; reads_tac|done|].
  intros G. iIntros "Ht". iApply (wpi_rb_search with "Ht"); [done|]. iIntros (y Hy) "Ht". by iFrame.
Qed.

Lemma run_search_first s this cmp t :
  tree_in s this t → in_order cmp (elems t) → rb_search_fisrt this cmp s = Ret (default 0 (first_match cmp (elems t)), s).
Proof.
  intros Ht Ho. destruct (run_read (rb_search_fisrt this cmp) s this t (λ y, y = default 0 (first_match cmp (elems t)))) as (xs&E&->);
    [eauto with reads|done| |done].
  intros G. iIntros "Ht". iApply (wpi_rb_search_first with "Ht"); [done|]. iIntros "Ht". by iFrame.
Qed.

Lemma run_next s this t xs x ys : tree_in s this t → elems t = xs ++ x :: ys → rb_next x s = Ret (hd 0 ys, s).
Proof.
  intros Ht E. destruct (run_read (rb_next x) s this t (λ y, y = hd 0 ys)) as (y&Ey&->); [eauto with reads|done| |done].
  intros G. iIntros "Ht". iApply (wpi_rb_next with "Ht"); [done|]. iIntros "Ht". by iFrame.
Qed.

Lemma run_prev s this t xs x ys : tree_in s this t → elems t = xs ++ x :: ys → rb_prev x s = Ret (last0 xs, s).
Proof.
  intros Ht E. destruct (run_read (rb_prev x) s this t (λ y, y = last0 xs)) as (y&Ey&->); [eauto with reads|done| |done].
  intros G. iIntros "Ht". iApply (wpi_rb_prev with "Ht"); [done|]. iIntros "Ht". by iFrame.
Qed.

Lemma run_next_match s this t xs x ys cmp :
  tree_in s this t → elems t = xs ++ x :: ys → Forall (λ y, is_Some (cmp y)) ys →
  rb_next_match x cmp s = Ret (match ys with y :: _ => if decide (cmp y = Some 0) then y else 0 | [] => 0 end, s).
Proof.
  intros Ht E Hc. destruct (run_read (rb_next_match x cmp) s this t
    (λ y, y = match ys with y :: _ => if decide (cmp y = Some 0) then y else 0 | [] => 0 end)) as (y&Ey&->);
    [unfold rb_next_match; reads_tac|done| |done].
  intros G. iIntros "Ht". iApply (wpi_rb_next_match with "Ht"); [done|done|]. iIntros "Ht". by iFrame.
Qed.
