(* ===== verification/RbTheorems.v ===== *)
(** The theorems about the red-black trees: what insertion, removal, search and traversal do to a memory that has a tree. *)
From stdpp Require Import sorting.
From S2P Require Import Prelude RbTree RbSpec RbRuns.

Lemma search_loop_mono cmp fuel fuel' x s r : search_loop cmp fuel x s = Ret r → (fuel ≤ fuel')%nat → search_loop cmp fuel' x s = Ret r.
Proof.
  revert fuel' x. induction fuel as [|fuel IH]; intros [|fuel'] x; [done|done|lia|]. cbn [search_loop]. intros E Hle.
  case_bool_decide; [done|]. unfold mbind, M_bind in *. destruct (from_opt (cmp x) s) as [[a s1]|] eqn:Ec; [|done].
  unfold from_opt in Ec. destruct (cmp x); [|done]. injection Ec as <- <-.
  repeat case_bool_decide; try done; [destruct (rb_left x s) as [[l s1]|] eqn:El|destruct (rb_right x s) as [[l s1]|] eqn:El]; try done.
  - rewrite (reads_left _ _ _ _ El) in E |- *. apply IH; [done|lia].
  - rewrite (reads_right _ _ _ _ El) in E |- *. apply IH; [done|lia].
Qed.

Lemma rb_search_unfold s this cmp f :
  rb_roots s !! this = Some f → rb_search this cmp s = search_loop cmp (S (size (rb_nodes s))) f s.
Proof. intros E. unfold rb_search, get_root, loop_bound, mbind, M_bind, get_state. by rewrite E. Qed.

(** ** Insertion and removal *)

(** C10: [rb_insert] puts the node [d] into a balanced tree at the place the comparison gives: after the nodes it is not less
    than, before those it is less than.  The loops end, the tree is balanced again, every other node and every other root of
    the memory is as it was. *)
Theorem rb_insert_correct s this less d t xs ys :
  tree_in s this t → balanced t → fresh s t d → elems t = xs ++ ys →
  Forall (λ x, less d x = Some false) xs → Forall (λ y, less d y = Some true) ys →
  ∃ s' t', rb_insert less this d s = Ret (tt, s') ∧ tree_in s' this t' ∧ balanced t' ∧ elems t' = xs ++ d :: ys ∧
    only_tree this (elems t ++ [d]) s s'.
Proof. apply run_insert. Qed.

(** C11: [rb_erase] takes the node [x] out of a balanced tree: the other nodes stay, in their order, the tree is balanced again,
    [x] is free, every other node and every other root of the memory is as it was. *)
Theorem rb_erase_correct s this t xs x ys :
  tree_in s this t → balanced t → elems t = xs ++ x :: ys →
  ∃ s' t', rb_erase this x s = Ret (tt, s') ∧ tree_in s' this t' ∧ balanced t' ∧ elems t' = xs ++ ys ∧ fresh s' t' x ∧
    only_tree this (elems t) s s'.
Proof. apply run_erase. Qed.

(** ** Search *)

(** C12: the loop of [rb_search] visits at most [2 log2 (n + 1)] of the [n] nodes of a balanced tree, and returns a node that
    matches the key, or null when none does; [rb_search] returns the same. *)
Theorem rb_search_logarithmic s this cmp t :
  tree_in s this t → balanced t → in_order cmp (elems t) →
  ∃ y, search_loop cmp (S (2 * Nat.log2 (S (length (elems t))))) (troot t) s = Ret (y, s) ∧ rb_search this cmp s = Ret (y, s) ∧
    ((y = 0 ∧ ∀ x, x ∈ elems t → cmp x ≠ Some 0) ∨ (y ∈ elems t ∧ cmp y = Some 0)).
Proof.
  intros Ht HB Ho. pose proof (balanced_height _ HB). destruct (run_search_loop s this cmp t (S (2 * Nat.log2 (S (length (elems t)))))) as (y&E&Hy); [done..|lia|].
  exists y. split_and!; [done| |done].
  destruct (run_search s this cmp t) as (y'&E'&_); [done..|].
  rewrite E'. do 2 f_equal. rewrite (rb_search_unfold _ _ _ (troot t)) in E' by apply Ht. set (n := S (size (rb_nodes s))) in *.
  apply (search_loop_mono _ _ (n + S (2 * Nat.log2 (S (length (elems t)))))) in E'; [|lia].
  apply (search_loop_mono _ _ (n + S (2 * Nat.log2 (S (length (elems t)))))) in E; [|lia]. by rewrite E in E'; simplify_eq.
Qed.

(** [rb_search_fisrt] returns the first of the nodes that match the key in the order of the tree, null when none does. *)
Theorem rb_search_fisrt_correct s this cmp t :
  tree_in s this t → in_order cmp (elems t) → rb_search_fisrt this cmp s = Ret (default 0 (first_match cmp (elems t)), s).
Proof. apply run_search_first. Qed.

(** ** Traversal *)

(** in a tree with the nodes [xs ++ x :: ys], [rb_next] of [x] is the first of [ys], [rb_prev] the last of [xs], null where
    there is none. *)
Theorem rb_next_prev_correct s this t xs x ys :
  tree_in s this t → elems t = xs ++ x :: ys → rb_next x s = Ret (hd 0 ys, s) ∧ rb_prev x s = Ret (last0 xs, s).
Proof. intros Ht E. split; [by eapply run_next|by eapply run_prev]. Qed.

(** ** Sorting

    A client that inserts nodes one by one, ordered by a key *)
Definition by_key (key : Z → Z) (a b : Z) : option bool := Some (bool_decide (key a < key b)).
Definition key_sorted (key : Z → Z) : list Z → Prop := StronglySorted (λ a b, key a ≤ key b).

Fixpoint insert_all (key : Z → Z) (this : Z) (ds : list Z) : MR unit :=
  match ds with [] => mret tt | d :: ds' => rb_insert (by_key key) this d;; insert_all key this ds' end.

(** Where a node belongs in a sorted list *)
Lemma key_split key d zs : key_sorted key zs → ∃ xs ys, zs = xs ++ ys ∧
  Forall (λ x, by_key key d x = Some false) xs ∧ Forall (λ y, by_key key d y = Some true) ys ∧ key_sorted key (xs ++ d :: ys).
Proof.
  unfold key_sorted, by_key. induction 1 as [|z zs Hs (xs&ys&->&Hx&Hy&IH) Hz].
  { exists [], []. split_and!; [done|constructor..|]. repeat constructor. }
  destruct (decide (key d < key z)) as [Hlt|Hge].
  - exists [], (z :: xs ++ ys). assert (Hall : Forall (λ y, key d < key y) (z :: xs ++ ys)).
    { constructor; [done|]. eapply Forall_impl; [done|]. simpl. intros y ?. lia. }
    split_and!; [done|constructor| |].
    + eapply Forall_impl; [done|]. simpl. intros y ?. by rewrite bool_decide_eq_true_2.
    + constructor; [by constructor|]. eapply Forall_impl; [done|]. simpl. intros y ?. lia.
  - exists (z :: xs), ys. split_and!; [done|constructor; [by rewrite bool_decide_eq_false_2|done]|done|]. simpl. constructor; [done|].
    apply Forall_app in Hz as [? ?]. apply Forall_app. split; [done|]. constructor; [lia|done].
Qed.

Lemma fresh_keep s s' this t t' d d' :
  fresh s t d' → d' ≠ d → elems t' ≡ₚ d :: elems t → only_tree this (elems t ++ [d]) s s' → fresh s' t' d'.
Proof.
  intros (Ha&[n Hn]&Hni) Hne Hp [Ho _]. split_and!; [apply Ha..| |].
  - exists n. apply Ho; [|done]. rewrite elem_of_app, list_elem_of_singleton. tauto.
  - rewrite Hp, elem_of_cons. tauto.
Qed.

Lemma run_insert_all key this ds s t :
  tree_in s this t → balanced t → key_sorted key (elems t) → NoDup ds → Forall (fresh s t) ds →
  ∃ s' t', insert_all key this ds s = Ret (tt, s') ∧ tree_in s' this t' ∧ balanced t' ∧ key_sorted key (elems t') ∧ elems t' ≡ₚ ds ++ elems t.
Proof.
  revert s t. induction ds as [|d ds IH]; intros s t Ht HB Hs Hnd Hf; [by exists s, t|].
  apply NoDup_cons in Hnd as [Hni Hnd]. apply Forall_cons in Hf as [Hd Hf]. destruct (key_split key d _ Hs) as (xs&ys&E&Hx&Hy&Hs').
  destruct (run_insert s this (by_key key) d t xs ys) as (s1&t1&E1&Ht1&HB1&El&Ho); [done..|]. rewrite <-El in Hs'.
  assert (Hp : elems t1 ≡ₚ d :: elems t) by (rewrite El, E; symmetry; apply Permutation_middle).
  destruct (IH s1 t1) as (s'&t'&E2&Ht'&HB'&Hst'&Hp'); [done..| |].
  { rewrite Forall_forall in Hf |- *. intros d' Hd'. eapply fresh_keep; [by apply Hf| |done|done]. by intros ->. }
  exists s', t'. split_and!; [|done..|].
  - cbn [insert_all]. unfold mbind, M_bind. by rewrite E1.
  - rewrite Hp', Hp. simpl. symmetry. apply Permutation_middle.
Qed.

(** nodes inserted one by one into an empty tree, ordered by a key, are visited by [rb_for_each] in the order of their keys,
    each once. *)
Theorem rb_insert_for_each_sorted key this ds s :
  is_Some (rb_roots s !! this) → NoDup ds → Forall (fresh s Leaf) ds →
  ∃ zs s', (init_rb_root this;; insert_all key this ds;; rb_for_each this) s = Ret (zs, s') ∧ zs ≡ₚ ds ∧ key_sorted key zs.
Proof.
  intros [f Hf] Hnd Hfr. set (s0 := RbMem (rb_nodes s) (<[this := 0]> (rb_roots s))).
  assert (E0 : init_rb_root this s = Ret (tt, s0)).
  { unfold init_rb_root, set_root, get_root, mbind, M_bind, get_state, from_opt, modify. by rewrite Hf. }
  destruct (run_insert_all key this ds s0 Leaf) as (s'&t'&E1&Ht'&_&Hs&Hp); [|by exists O|constructor|done|done|].
  { split_and!; [by apply lookup_insert_eq|done|apply NoDup_nil_2]. }
  exists (elems t'), s'. split_and!; [|by rewrite Hp, app_nil_r|done]. unfold mbind, M_bind in *. rewrite E0, E1. by apply run_for_each.
Qed.

(** ** Witnesses *)

(** The nodes 4, 8 and 12 in a tree, 16 free *)
Definition small_tree : tree := Node Black (Node Red Leaf 4 Leaf) 8 (Node Red Leaf 12 Leaf).
Definition small_mem : rbmem :=
  RbMem {[ 4 := RbNode (word 8 Red) 0 0; 8 := RbNode (word 0 Black) 12 4; 12 := RbNode (word 8 Red) 0 0; 16 := RbNode 0 0 0 ]} {[ 100 := 8 ]}.

Lemma al_check x : (x mod 4 =? 0) && (0 <? x) = true → al x ∧ 0 < x.
Proof. intros [?%Z.eqb_eq ?%Z.ltb_lt]%andb_true_iff. split; [split; [by apply Z.mod_divide|lia]|done]. Qed.

Lemma small_in : tree_in small_mem 100 small_tree.
Proof. split_and!; [done| |by apply (bool_decide_unpack _)]. by repeat split; try apply al_check. Qed.
Lemma small_balanced : balanced small_tree.
Proof. by exists 1%nat. Qed.
Lemma small_fresh : fresh small_mem small_tree 16.
Proof. split_and!; [by apply al_check..|by eexists|]. by apply (bool_decide_unpack _). Qed.

(** 16 goes between 8 and 12 when its key is 10. *)
Definition small_key (x : Z) : Z := if bool_decide (x = 16) then 10 else x.

Lemma rb_insert_correct_witness : ∃ s' t', rb_insert (by_key small_key) 100 16 small_mem = Ret (tt, s') ∧
  tree_in s' 100 t' ∧ balanced t' ∧ elems t' = [4; 8; 16; 12] ∧ only_tree 100 ([4; 8; 12] ++ [16]) small_mem s'.
Proof.
  apply (rb_insert_correct small_mem 100 (by_key small_key) 16 small_tree [4; 8] [12]);
    [apply small_in|apply small_balanced|apply small_fresh|done|by repeat constructor|by repeat constructor].
Defined.

Lemma rb_erase_correct_witness : ∃ s' t', rb_erase 100 8 small_mem = Ret (tt, s') ∧
  tree_in s' 100 t' ∧ balanced t' ∧ elems t' = [4; 12] ∧ fresh s' t' 8 ∧ only_tree 100 [4; 8; 12] small_mem s'.
Proof. apply (rb_erase_correct small_mem 100 small_tree [4] 8 [12]); [apply small_in|apply small_balanced|done]. Defined.

(** The key 12 *)
Definition small_cmp (x : Z) : option Z := Some (12 - x).

Lemma small_order : in_order small_cmp (elems small_tree).
Proof.
  split; [|by repeat constructor]. simpl. assert (Hle : ∀ x y, x ≤ y → key_le small_cmp x y).
  { unfold key_le, small_cmp. intros x y Hxy a b [= <-] [= <-]. lia. }
  repeat first [apply SSorted_nil | apply SSorted_cons | apply Forall_nil_2 | apply Forall_cons_2]; apply Hle; lia.
Qed.

Lemma rb_search_logarithmic_witness : ∃ y, search_loop small_cmp 5 8 small_mem = Ret (y, small_mem) ∧
  rb_search 100 small_cmp small_mem = Ret (y, small_mem) ∧
  ((y = 0 ∧ ∀ x, x ∈ [4; 8; 12] → small_cmp x ≠ Some 0) ∨ (y ∈ [4; 8; 12] ∧ small_cmp y = Some 0)).
Proof. apply (rb_search_logarithmic small_mem 100 small_cmp small_tree); [apply small_in|apply small_balanced|apply small_order]. Defined.

Lemma rb_search_fisrt_correct_witness : rb_search_fisrt 100 small_cmp small_mem = Ret (12, small_mem).
Proof. apply (rb_search_fisrt_correct small_mem 100 small_cmp small_tree); [apply small_in|apply small_order]. Defined.

Lemma rb_next_prev_correct_witness : rb_next 8 small_mem = Ret (12, small_mem) ∧ rb_prev 8 small_mem = Ret (4, small_mem).
Proof. apply (rb_next_prev_correct small_mem 100 small_tree [4] 8 [12]); [apply small_in|done]. Defined.

Lemma rb_insert_for_each_sorted_witness :
  ∃ zs s', (init_rb_root 100;; insert_all small_key 100 [16; 4; 12; 8];; rb_for_each 100) small_mem = Ret (zs, s') ∧
    zs ≡ₚ [16; 4; 12; 8] ∧ key_sorted small_key zs.
Proof.
  apply (rb_insert_for_each_sorted small_key 100 [16; 4; 12; 8] small_mem); [by eexists|by apply (bool_decide_unpack _)|].
  repeat constructor; try (by apply al_check); try (by eexists); by intros ?%elem_of_nil.
Defined.
