(* ===== verification/VmSpace.v ===== *)
(** Address spaces ([kernel/mm/vmregion.c], parts of [kernel/object/memory.c]).

    An address space has regions, in a red-black tree ordered by address and in a list, and one page table for each machine of
    the cluster.  The tree nodes live in the memory of RbTree.v at the place they have in [struct vmregion]; the page tables are those of
    PageTable.v; the intrusive lists appear as the sequences behind their heads, which is what ListHead.v shows of their operations.

    The model is that of the default build: [DSM_ENABLED], [MULTI_PAGETABLE_ENABLED] and [CHCORE_SSI_SLS] are on,
    [DSM_CXL_DEMOTE_ENABLED] and [RMAP_ENABLED] are off, so that no region is linked to its memory object.  The flushes of the
    TLB, the messages and the profiling of CXL pages are left out. *)
From S2P Require Import Prelude Words Buddy RemoteFree PageTable RbTree.

(** ** Memory for the regions *)

Inductive mem_type := MT_OBJECT | MT_SHARED | MT_DEFAULT.

(** What the code asks of [kmalloc] and [kfree].  0 is [NULL]. *)
Class ObjSource (K : Type) := {
  kmalloc : mem_type → Z → M K Z;
  kfree : Z → M K unit
}.

(** ** Constants *)

Definition VMR_READ : Z := Z.shiftl 1 0.
Definition VMR_DEVICE : Z := Z.shiftl 1 3.
Definition PROT_READ : Z := 1.
Definition PROT_WRITE : Z := 2.
Definition PROT_EXEC : Z := 4.

Definition PMO_ANONYM : Z := 0.
Definition PMO_DATA : Z := 1.
Definition PMO_FILE : Z := 2.
Definition PMO_SHM : Z := 3.
Definition PMO_DEVICE : Z := 5.
Definition PMO_DATA_NOCACHE : Z := 6.
Definition PMO_RING_BUFFER : Z := 8.
Definition PMO_RING_BUFFER_RADIX : Z := 9.
Definition PMO_CODE : Z := 10.
Definition PMO_TYPE_NR : Z := 15.

Definition MMAP_START : Z := 0x700000000000.
Definition DEFERRED_PMO_MAX : Z := 64.
Definition VM_FLAG_PRESERVE : Z := 1.
Definition ENOMEM : Z := 12.
Definition ENOENT : Z := 2.
Definition EACCES : Z := 13.
Definition PLAT_CPU_NUM : Z := 12.

(** ** Data *)

Record vmregion := VmRegion { vmr_vmspace : Z; vmr_start : Z; vmr_size : Z; vmr_perm : Z; vmr_pmo : Z }.
Record pmobject := Pmo { pmo_start : Z; pmo_size : Z; pmo_type : Z; radix_fallback : bool }.

Record vmspace := VmSpace {
  vmr_list : list Z;
  pgtbl : list Z;
  vmspace_lock : bool;
  pgtbl_lock : bool;
  history_cpus : list bool;
  history_machines : list bool;
  deferred_pmo_list : list (Z * Z);
  deferred_pmo_lock : bool;
  deferred_pmo_count : Z;
  heap_vmr : Z;
  user_current_mmap_addr : Z;
  vm_flags : Z
}.

(** Where [tree_node] and [vmr_tree] are in their structures, and the sizes of these *)
Definition tree_node_of (vmr : Z) : Z := vmr + 40.
Definition rb_entry (node : Z) : Z := node - 40.
Definition vmr_tree_of (vmspace : Z) : Z := vmspace + 16.
Definition sizeof_vmregion : Z := 104.
Definition sizeof_deferred_pmo : Z := 24.

(** The address spaces, regions and memory objects by address; the reference counts of the memory objects and those
    whose last reference is gone; the nodes of the trees; the allocator; the page tables. *)
Record vmem (A K : Type) := VMem {
  vmspaces : gmap Z vmspace;
  vmrs : gmap Z vmregion;
  pmos : gmap Z pmobject;
  refs : gmap Z Z;
  released : list Z;
  rbs : rbmem;
  objs : K;
  pgs : pgmem A
}.
Arguments VMem {A K}.
Arguments vmspaces {A K} v.
Arguments vmrs {A K} v.
Arguments pmos {A K} v.
Arguments refs {A K} v.
Arguments released {A K} v.
Arguments rbs {A K} v.
Arguments objs {A K} v.
Arguments pgs {A K} v.

Definition set_vmr_list x X := VmSpace x (pgtbl X) (vmspace_lock X) (pgtbl_lock X) (history_cpus X) (history_machines X)
  (deferred_pmo_list X) (deferred_pmo_lock X) (deferred_pmo_count X) (heap_vmr X) (user_current_mmap_addr X) (vm_flags X).
Definition set_pgtbl x X := VmSpace (vmr_list X) x (vmspace_lock X) (pgtbl_lock X) (history_cpus X) (history_machines X)
  (deferred_pmo_list X) (deferred_pmo_lock X) (deferred_pmo_count X) (heap_vmr X) (user_current_mmap_addr X) (vm_flags X).
Definition set_vmspace_lock x X := VmSpace (vmr_list X) (pgtbl X) x (pgtbl_lock X) (history_cpus X) (history_machines X)
  (deferred_pmo_list X) (deferred_pmo_lock X) (deferred_pmo_count X) (heap_vmr X) (user_current_mmap_addr X) (vm_flags X).
Definition set_pgtbl_lock x X := VmSpace (vmr_list X) (pgtbl X) (vmspace_lock X) x (history_cpus X) (history_machines X)
  (deferred_pmo_list X) (deferred_pmo_lock X) (deferred_pmo_count X) (heap_vmr X) (user_current_mmap_addr X) (vm_flags X).
Definition set_history_cpus x X := VmSpace (vmr_list X) (pgtbl X) (vmspace_lock X) (pgtbl_lock X) x (history_machines X)
  (deferred_pmo_list X) (deferred_pmo_lock X) (deferred_pmo_count X) (heap_vmr X) (user_current_mmap_addr X) (vm_flags X).
Definition set_history_machines x X := VmSpace (vmr_list X) (pgtbl X) (vmspace_lock X) (pgtbl_lock X) (history_cpus X) x
  (deferred_pmo_list X) (deferred_pmo_lock X) (deferred_pmo_count X) (heap_vmr X) (user_current_mmap_addr X) (vm_flags X).
Definition set_deferred x n X := VmSpace (vmr_list X) (pgtbl X) (vmspace_lock X) (pgtbl_lock X) (history_cpus X) (history_machines X)
  x (deferred_pmo_lock X) n (heap_vmr X) (user_current_mmap_addr X) (vm_flags X).
Definition set_deferred_pmo_lock x X := VmSpace (vmr_list X) (pgtbl X) (vmspace_lock X) (pgtbl_lock X) (history_cpus X) (history_machines X)
  (deferred_pmo_list X) x (deferred_pmo_count X) (heap_vmr X) (user_current_mmap_addr X) (vm_flags X).
Definition set_heap_vmr x X := VmSpace (vmr_list X) (pgtbl X) (vmspace_lock X) (pgtbl_lock X) (history_cpus X) (history_machines X)
  (deferred_pmo_list X) (deferred_pmo_lock X) (deferred_pmo_count X) x (user_current_mmap_addr X) (vm_flags X).
Definition set_mmap_addr x X := VmSpace (vmr_list X) (pgtbl X) (vmspace_lock X) (pgtbl_lock X) (history_cpus X) (history_machines X)
  (deferred_pmo_list X) (deferred_pmo_lock X) (deferred_pmo_count X) (heap_vmr X) x (vm_flags X).

Definition set_start x r := VmRegion (vmr_vmspace r) x (vmr_size r) (vmr_perm r) (vmr_pmo r).
Definition set_size x r := VmRegion (vmr_vmspace r) (vmr_start r) x (vmr_perm r) (vmr_pmo r).
Definition set_perm x r := VmRegion (vmr_vmspace r) (vmr_start r) (vmr_size r) x (vmr_pmo r).
Definition set_vmspace x r := VmRegion x (vmr_start r) (vmr_size r) (vmr_perm r) (vmr_pmo r).
Definition set_pmo_size x p := Pmo (pmo_start p) x (pmo_type p) (radix_fallback p).

(** [vmr_end], with [size > 0 ? size - 1 : size] *)
Definition vmr_end (r : vmregion) : Z := wrap_u64 (vmr_start r + (if bool_decide (vmr_size r > 0) then vmr_size r - 1 else vmr_size r)).

(** The comparison functions, on the regions in memory *)
Definition cmp_two_vmrs (m : gmap Z vmregion) (node1 node2 : Z) : option bool :=
  vmr1 ← m !! rb_entry node1;
  vmr2 ← m !! rb_entry node2;
  mret (bool_decide (vmr_end vmr1 < vmr_start vmr2)).

Definition cmp_vmr_and_range (m : gmap Z vmregion) (range : Z * Z) (node : Z) : option Z :=
  vmr ← m !! rb_entry node;
  mret (if bool_decide (range.2 < vmr_start vmr) then -1 else if bool_decide (range.1 > vmr_end vmr) then 1 else 0).

Definition cmp_vmr_and_va (m : gmap Z vmregion) (va node : Z) : option Z :=
  vmr ← m !! rb_entry node;
  mret (if bool_decide (va < vmr_start vmr) then -1 else if bool_decide (va > vmr_end vmr) then 1 else 0).

Definition is_continuous_pmo (p : pmobject) : bool :=
  if radix_fallback p then false
  else bool_decide (pmo_type p = PMO_DATA) || bool_decide (pmo_type p = PMO_DATA_NOCACHE)
    || bool_decide (pmo_type p = PMO_RING_BUFFER) || bool_decide (pmo_type p = PMO_CODE).

Definition is_external_sync_pmo (p : pmobject) : bool :=
  bool_decide (pmo_type p = PMO_RING_BUFFER) || bool_decide (pmo_type p = PMO_RING_BUFFER_RADIX) || bool_decide (pmo_type p = PMO_DEVICE).

Definition get_vmr_prot (prot : Z) : Z :=
  let ret := 0 in
  let ret := if has prot PROT_READ then Z.lor ret VMR_READ else ret in
  let ret := if has prot PROT_WRITE then Z.lor ret VMR_WRITE else ret in
  if has prot PROT_EXEC then Z.lor ret VMR_EXEC else ret.

Definition valid_prot (vmr_prot target_prot : Z) : Z :=
  if has target_prot PROT_READ && negb (has vmr_prot PROT_READ) then -1
  else if has target_prot PROT_WRITE && negb (has vmr_prot PROT_WRITE) then -1
  else if has target_prot PROT_EXEC && negb (has vmr_prot PROT_EXEC) then -1
  else 0.

Section vmspace.
Context {A K : Type} `{PageSource A} `{ObjSource K}.
Abbreviation MV := (M (vmem A K)).

(** The number of machines, and the machine that runs the code *)
Context (CLUSTER_MACHINE_NUM CUR_MACHINE_ID : Z).

Definition set_vmspaces x (s : vmem A K) := VMem x (vmrs s) (pmos s) (refs s) (released s) (rbs s) (objs s) (pgs s).
Definition set_vmrs x (s : vmem A K) := VMem (vmspaces s) x (pmos s) (refs s) (released s) (rbs s) (objs s) (pgs s).
Definition set_pmos x (s : vmem A K) := VMem (vmspaces s) (vmrs s) x (refs s) (released s) (rbs s) (objs s) (pgs s).
Definition set_refs x (s : vmem A K) := VMem (vmspaces s) (vmrs s) (pmos s) x (released s) (rbs s) (objs s) (pgs s).
Definition set_released x (s : vmem A K) := VMem (vmspaces s) (vmrs s) (pmos s) (refs s) x (rbs s) (objs s) (pgs s).
Definition set_rbs x (s : vmem A K) := VMem (vmspaces s) (vmrs s) (pmos s) (refs s) (released s) x (objs s) (pgs s).
Definition set_objs (x : K) (s : vmem A K) := VMem (vmspaces s) (vmrs s) (pmos s) (refs s) (released s) (rbs s) x (pgs s).
Definition set_pgs (x : pgmem A) (s : vmem A K) := VMem (vmspaces s) (vmrs s) (pmos s) (refs s) (released s) (rbs s) (objs s) x.

(** Steps of a component *)
Definition on_rbs {B} (m : M rbmem B) : MV B := λ s,
  match m (rbs s) with Ret (b, x) => Ret (b, set_rbs x s) | Halt w => Halt w end.
Definition on_objs {B} (m : M K B) : MV B := λ s,
  match m (objs s) with Ret (b, x) => Ret (b, set_objs x s) | Halt w => Halt w end.
Definition on_pgs {B} (m : M (pgmem A) B) : MV B := λ s,
  match m (pgs s) with Ret (b, x) => Ret (b, set_pgs x s) | Halt w => Halt w end.

Definition get_space (vs : Z) : MV vmspace := s ← get_state; from_opt (vmspaces s !! vs).
Definition upd_space (vs : Z) (f : vmspace → vmspace) : MV unit :=
  get_space vs;; modify (λ s, set_vmspaces (alter f vs (vmspaces s)) s).
Definition get_vmr (v : Z) : MV vmregion := s ← get_state; from_opt (vmrs s !! v).
Definition upd_vmr (v : Z) (f : vmregion → vmregion) : MV unit :=
  get_vmr v;; modify (λ s, set_vmrs (alter f v (vmrs s)) s).
Definition get_pmo (p : Z) : MV pmobject := s ← get_state; from_opt (pmos s !! p).

(** Locks: taking a lock that is held waits for a release that does not come. *)
Definition write_lock (vs : Z) : MV unit :=
  X ← get_space vs; if vmspace_lock X then halt Spins else upd_space vs (set_vmspace_lock true).
Definition write_unlock (vs : Z) : MV unit := upd_space vs (set_vmspace_lock false).
Definition lock_pgtbl (vs : Z) : MV unit :=
  X ← get_space vs; if pgtbl_lock X then halt Spins else upd_space vs (set_pgtbl_lock true).
Definition unlock_pgtbl (vs : Z) : MV unit := upd_space vs (set_pgtbl_lock false).
Definition lock_deferred (vs : Z) : MV unit :=
  X ← get_space vs; if deferred_pmo_lock X then halt Spins else upd_space vs (set_deferred_pmo_lock true).
Definition unlock_deferred (vs : Z) : MV unit := upd_space vs (set_deferred_pmo_lock false).

(** ** Regions *)

(** Memory for a region, whose contents are undefined: here they are zero. *)
Definition alloc_vmregion (mt : mem_type) : MV Z :=
  vmr ← on_objs (kmalloc mt sizeof_vmregion);
  when (negb (bool_decide (vmr = 0)))
    (modify (λ s, set_rbs (RbMem (<[tree_node_of vmr := RbNode 0 0 0]> (rb_nodes (rbs s))) (rb_roots (rbs s)))
                    (set_vmrs (<[vmr := VmRegion 0 0 0 0 0]> (vmrs s)) s)));;
  mret vmr.

Definition free_vmregion (vmr : Z) : MV unit :=
  modify (λ s, set_rbs (RbMem (delete (tree_node_of vmr) (rb_nodes (rbs s))) (rb_roots (rbs s)))
                 (set_vmrs (delete vmr (vmrs s)) s));;
  on_objs (kfree vmr).

Definition check_vmr_intersect (vs vmr_to_add : Z) : MV Z :=
  r ← get_vmr vmr_to_add;
  let range := (vmr_start r, wrap_u64 (vmr_start r + (if bool_decide (vmr_size r > 0) then vmr_size r - 1 else 0))) in
  s ← get_state;
  res ← on_rbs (rb_search (vmr_tree_of vs) (cmp_vmr_and_range (vmrs s) range));
  mret (if bool_decide (res = 0) then 0 else 1).

(** [for_each_in_list] with [max_va] *)
Fixpoint max_va_loop (l : list Z) (max_va : Z) : MV Z :=
  match l with
  | [] => mret max_va
  | vmr :: l' =>
      r ← get_vmr vmr;
      let top := wrap_u64 (vmr_start r + vmr_size r) in
      max_va_loop l' (if bool_decide (max_va < top) then top else max_va)
  end.
Definition find_free_va (vs size : Z) : MV Z := X ← get_space vs; max_va_loop (vmr_list X) 0.

Definition add_vmr_to_vmspace (vs vmr : Z) : MV Z :=
  r ← get_vmr vmr;
  when (bool_decide (vmr_start r = 0)) (va ← find_free_va vs (vmr_size r); upd_vmr vmr (set_start va));;
  c ← check_vmr_intersect vs vmr;
  if negb (bool_decide (c = 0)) then mret (- EINVAL)
  else
    upd_space vs (λ X, set_vmr_list (vmr :: vmr_list X) X);;
    s ← get_state;
    on_rbs (rb_insert (cmp_two_vmrs (vmrs s)) (vmr_tree_of vs) (tree_node_of vmr));;
    upd_vmr vmr (set_vmspace vs);;
    mret 0.

(** [list_del] of a node that is in no list writes to where its old pointers lead. *)
Definition vmr_list_del (vs vmr : Z) : MV unit :=
  X ← get_space vs;
  if bool_decide (vmr ∈ vmr_list X) then upd_space vs (λ X, set_vmr_list (filter (λ v, v ≠ vmr) (vmr_list X)) X)
  else halt BadAccess.

Definition remove_vmr_from_vmspace (vs vmr : Z) : MV Z :=
  c ← check_vmr_intersect vs vmr;
  if negb (bool_decide (c = 0)) then
    on_rbs (rb_erase (vmr_tree_of vs) (tree_node_of vmr));;
    vmr_list_del vs vmr;;
    upd_vmr vmr (set_vmspace 0);;
    mret 0
  else mret (-1).

Definition del_vmr_from_vmspace (vs vmr : Z) : MV unit :=
  remove_vmr_from_vmspace vs vmr;;
  free_vmregion vmr.

Definition find_vmr_for_va (vs addr : Z) : MV Z :=
  s ← get_state;
  node ← on_rbs (rb_search (vmr_tree_of vs) (cmp_vmr_and_va (vmrs s) addr));
  mret (if bool_decide (node = 0) then 0 else rb_entry node).

(** [for_each_in_list] that stops at the first region of the memory object *)
Fixpoint by_pmo_loop (l : list Z) (pmo : Z) : MV Z :=
  match l with
  | [] => mret 0
  | iter_vmr :: l' =>
      r ← get_vmr iter_vmr;
      if bool_decide (vmr_pmo r = pmo) then mret iter_vmr else by_pmo_loop l' pmo
  end.
Definition find_vmr_by_pmo (vs pmo : Z) : MV Z := X ← get_space vs; by_pmo_loop (vmr_list X) pmo.

(** ** Page tables of an address space *)

Definition get_vmspace_pgtbl (X : vmspace) (mid : Z) : MV Z :=
  if bool_decide (0 ≤ mid) && bool_decide (mid < CLUSTER_MACHINE_NUM) then from_opt (pgtbl X !! Z.to_nat mid) else halt BugHit.

Definition fill_page_table (vs vmr : Z) : MV Z :=
  r ← get_vmr vmr;
  p ← get_pmo (vmr_pmo r);
  let pm_size := pmo_size p in
  let pa := pmo_start p in
  let va := vmr_start r in
  X ← get_space vs;
  let perm := if has (vm_flags X) VM_FLAG_PRESERVE && negb (is_external_sync_pmo p) then Z.land (vmr_perm r) (Z.lnot VMR_WRITE)
              else vmr_perm r in
  lock_pgtbl vs;;
  X ← get_space vs;
  table ← get_vmspace_pgtbl X CUR_MACHINE_ID;
  ret ← on_pgs (map_range_in_pgtbl table va pa pm_size perm);
  unlock_pgtbl vs;;
  mret ret.

(** [for (int i = 0; i < CLUSTER_MACHINE_NUM; i++)] over the page tables *)
Definition each_pgtbl (vs : Z) (body : Z → MV unit) : MV unit :=
  for_up (Z.to_nat CLUSTER_MACHINE_NUM) 0 (λ i,
    X ← get_space vs;
    table ← get_vmspace_pgtbl X i;
    if negb (bool_decide (table = 0)) then body table else mret tt).

Definition unmap_all (vs va len : Z) : MV unit :=
  lock_pgtbl vs;;
  each_pgtbl vs (λ table, on_pgs (unmap_range_in_pgtbl table va len);; mret tt);;
  unlock_pgtbl vs.

(** ** Mapping and unmapping *)

(** The result and the new region *)
Definition vmspace_map_range (vs va len flags pmo : Z) : MV (Z * Z) :=
  p ← get_pmo pmo;
  bug_on (bool_decide (pmo_type p < PMO_ANONYM) || bool_decide (pmo_type p > PMO_TYPE_NR));;
  let va := ROUND_DOWN va PAGE_SIZE in
  let len := if bool_decide (len < PAGE_SIZE) then PAGE_SIZE else len in
  vmr ← alloc_vmregion MT_OBJECT;
  if bool_decide (vmr = 0) then mret (- ENOMEM, 0)
  else
    let perm := if bool_decide (pmo_type p = PMO_DEVICE) then Z.lor flags VMR_DEVICE
                else if bool_decide (pmo_type p = PMO_DATA_NOCACHE) then Z.lor flags VMR_NOCACHE else flags in
    upd_vmr vmr (λ _, VmRegion vs va len perm pmo);;
    write_lock vs;;
    ret ← add_vmr_to_vmspace vs vmr;
    write_unlock vs;;
    if bool_decide (ret < 0) then free_vmregion vmr;; mret (ret, 0)
    else
      when (is_continuous_pmo p || bool_decide (pmo_type p = PMO_DEVICE)) (fill_page_table vs vmr;; mret tt);;
      mret (0, vmr).

Definition vmspace_is_multi_machine (X : vmspace) : bool := bool_decide (1 < length (filter Is_true (history_machines X)))%nat.

(** [atomic_fetch_add_64] on the reference count; [obj_put], where the object goes with its last reference. *)
Definition obj_ref (p : Z) : MV unit :=
  s ← get_state; n ← from_opt (refs s !! p); modify (λ s, set_refs (<[p := n + 1]> (refs s)) s).
Definition obj_put (p : Z) : MV unit :=
  s ← get_state; n ← from_opt (refs s !! p);
  modify (λ s, set_refs (<[p := n - 1]> (refs s)) s);;
  when (bool_decide (n = 1)) (modify (λ s, set_released (p :: released s) s)).

(** The entries of a private list are released one by one. *)
Fixpoint drain_deferred (l : list (Z * Z)) : MV unit :=
  match l with [] => mret tt | (entry, pmo) :: l' => obj_put pmo;; on_objs (kfree entry);; drain_deferred l' end.

Definition defer_pmo_reclaim (vs pmo : Z) : MV unit :=
  X ← get_space vs;
  entry ← on_objs (kmalloc (if vmspace_is_multi_machine X then MT_SHARED else MT_DEFAULT) sizeof_deferred_pmo);
  obj_ref pmo;;
  if bool_decide (entry = 0) then mret tt
  else
    lock_deferred vs;;
    upd_space vs (λ X, set_deferred (deferred_pmo_list X ++ [(entry, pmo)]) (deferred_pmo_count X + 1) X);;
    X ← get_space vs;
    let overflow := bool_decide (deferred_pmo_count X >= DEFERRED_PMO_MAX) in
    let drain := if overflow then deferred_pmo_list X else [] in
    when overflow (upd_space vs (set_deferred [] 0));;
    unlock_deferred vs;;
    drain_deferred drain.

(** Where there is no region the lock stays taken. *)
Definition vmspace_unmap_range (vs va len : Z) : MV Z :=
  write_lock vs;;
  vmr ← find_vmr_for_va vs va;
  if bool_decide (vmr = 0) then mret (-1)
  else
    r ← get_vmr vmr;
    let start := vmr_start r in
    let size := vmr_size r in
    bug_on ((negb (bool_decide (va = start)) || negb (bool_decide (len = size))) && negb (bool_decide (len = 0)));;
    let pmo := vmr_pmo r in
    del_vmr_from_vmspace vs vmr;;
    write_unlock vs;;
    if bool_decide (pmo = 0) then mret 0
    else
      when (negb (bool_decide (len = 0))) (unmap_all vs va len);;
      X ← get_space vs;
      when (vmspace_is_multi_machine X) (defer_pmo_reclaim vs pmo);;
      mret 0.

Definition unmap_pmo_in_vmspace (vs pmo : Z) : MV Z :=
  write_lock vs;;
  vmr ← find_vmr_by_pmo vs pmo;
  if bool_decide (vmr = 0) then write_unlock vs;; mret (- ENOENT)
  else
    r ← get_vmr vmr;
    let flush_va_start := vmr_start r in
    let flush_len := vmr_size r in
    del_vmr_from_vmspace vs vmr;;
    write_unlock vs;;
    unmap_all vs flush_va_start flush_len;;
    mret 0.

Definition vmspace_mmap_with_pmo (vs pmo len perm : Z) : MV Z :=
  vmr ← alloc_vmregion MT_OBJECT;
  if bool_decide (vmr = 0) then mret (wrap_u64 (-1))
  else
    upd_vmr vmr (set_vmspace vs);;
    write_lock vs;;
    X ← get_space vs;
    upd_vmr vmr (set_start (user_current_mmap_addr X));;
    bug_on (negb (bool_decide (len mod PAGE_SIZE = 0)));;
    upd_space vs (λ X, set_mmap_addr (wrap_u64 (user_current_mmap_addr X + len)) X);;
    upd_vmr vmr (set_size len);;
    upd_vmr vmr (set_perm perm);;
    p ← get_pmo pmo;
    bug_on (negb (bool_decide (pmo_type p = PMO_ANONYM)) && negb (bool_decide (pmo_type p = PMO_SHM)) && negb (bool_decide (pmo_type p = PMO_FILE)));;
    upd_vmr vmr (λ r, VmRegion (vmr_vmspace r) (vmr_start r) (vmr_size r) (vmr_perm r) pmo);;
    ret ← add_vmr_to_vmspace vs vmr;
    write_unlock vs;;
    if bool_decide (ret < 0) then free_vmregion vmr;; mret (wrap_u64 (-1))
    else r ← get_vmr vmr; mret (vmr_start r).

Definition vmspace_unmap_shm_vmr (vs va : Z) : MV Z :=
  write_lock vs;;
  vmr ← find_vmr_for_va vs va;
  if bool_decide (vmr = 0) then write_unlock vs;; mret (- EINVAL)
  else
    r ← get_vmr vmr;
    p ← get_pmo (vmr_pmo r);
    bug_on (negb (bool_decide (pmo_type p = PMO_SHM)));;
    bug_on (negb (bool_decide (va = vmr_start r)));;
    let flush_va_start := vmr_start r in
    let flush_len := vmr_size r in
    del_vmr_from_vmspace vs vmr;;
    write_unlock vs;;
    unmap_all vs flush_va_start flush_len;;
    mret 0.

(** ** The heap *)

Definition init_heap_vmr (vs va pmo : Z) : MV Z :=
  vmr ← alloc_vmregion MT_OBJECT;
  if bool_decide (vmr = 0) then mret 0
  else upd_vmr vmr (λ _, VmRegion vs va 0 (Z.lor VMR_READ VMR_WRITE) pmo);; mret vmr.

(** The results of removal and insertion are not looked at. *)
Definition adjust_heap_vmr (vs add_len : Z) : MV unit :=
  X ← get_space vs;
  let vmr := heap_vmr X in
  remove_vmr_from_vmspace vs vmr;;
  upd_vmr vmr (λ r, set_size (wrap_u64 (vmr_size r + add_len)) r);;
  r ← get_vmr vmr;
  get_pmo (vmr_pmo r);;
  modify (λ s, set_pmos (alter (λ p, set_pmo_size (wrap_u64 (pmo_size p + add_len)) p) (vmr_pmo r) (pmos s)) s);;
  add_vmr_to_vmspace vs vmr;;
  mret tt.

(** [sys_handle_brk] on the address space of the caller, when the heap exists *)
Definition handle_brk (vs addr : Z) : MV Z :=
  write_lock vs;;
  X ← get_space vs;
  retval ← (if bool_decide (heap_vmr X = 0) then mret 0
            else
              r ← get_vmr (heap_vmr X);
              let retval := wrap_u64 (vmr_start r + vmr_size r) in
              if bool_decide (addr >= retval) then adjust_heap_vmr vs (addr - retval);; mret addr else mret retval);
  write_unlock vs;;
  mret retval.

(** ** Protection *)

(** The loop that tests the range: the error, or whether the range ends within a region *)
Fixpoint mprotect_check (fuel : nat) (vs va remaining target_prot : Z) : MV (Z + bool) :=
  if bool_decide (remaining > 0) then
    match fuel with
    | O => halt OutOfFuel
    | S fuel' =>
        vmr ← find_vmr_for_va vs va;
        if bool_decide (vmr = 0) then mret (inl (- EACCES))
        else
          r ← get_vmr vmr;
          if negb (bool_decide (valid_prot (vmr_perm r) target_prot = 0)) then mret (inl (- EACCES))
          else if bool_decide (remaining < vmr_size r) then mret (inr true)
          else mprotect_check fuel' vs (wrap_u64 (va + vmr_size r)) (remaining - vmr_size r) target_prot
    end
  else bug_on (negb (bool_decide (remaining = 0)));; mret (inr false).

Fixpoint mprotect_regions (fuel : nat) (vs va remaining target_prot : Z) : MV unit :=
  if bool_decide (remaining > 0) then
    match fuel with
    | O => halt OutOfFuel
    | S fuel' =>
        vmr ← find_vmr_for_va vs va;
        upd_vmr vmr (set_perm target_prot);;
        r ← get_vmr vmr;
        mprotect_regions fuel' vs (wrap_u64 (va + vmr_size r)) (remaining - vmr_size r) target_prot
    end
  else mret tt.

(** An [s64] from a [size_t] *)
Definition to_s64 (x : Z) : Z := if bool_decide (x < 2 ^ 63) then x else x - 2 ^ 64.

(** [sys_handle_mprotect] on the address space of the caller; [fuel] bounds the loops. *)
Definition handle_mprotect (fuel : nat) (vs addr length prot : Z) : MV Z :=
  if negb (bool_decide (addr mod PAGE_SIZE = 0)) || negb (bool_decide (length mod PAGE_SIZE = 0)) then mret (- EINVAL)
  else if bool_decide (length = 0) then mret 0
  else
    let target_prot := get_vmr_prot prot in
    write_lock vs;;
    c ← mprotect_check fuel vs addr (to_s64 length) target_prot;
    match c with
    | inl ret => write_unlock vs;; mret ret
    | inr true => write_unlock vs;; mret 0
    | inr false =>
        mprotect_regions fuel vs addr (to_s64 length) target_prot;;
        lock_pgtbl vs;;
        each_pgtbl vs (λ table, on_pgs (mprotect_in_pgtbl table addr length target_prot);; mret tt);;
        unlock_pgtbl vs;;
        write_unlock vs;;
        mret 0
    end.

(** ** Creation and release *)

Definition reset_history_cpus (vs : Z) : MV unit :=
  upd_space vs (λ X, set_history_machines (replicate (Z.to_nat CLUSTER_MAX_MACHINE_NUM) false)
    (set_history_cpus (replicate (Z.to_nat PLAT_CPU_NUM) false) X)).

Definition record_history_cpu (vs cpuid : Z) : MV unit :=
  bug_on (bool_decide (cpuid >= PLAT_CPU_NUM));;
  upd_space vs (λ X, set_history_machines (<[Z.to_nat CUR_MACHINE_ID := true]> (history_machines X))
    (set_history_cpus (<[Z.to_nat cpuid := true]> (history_cpus X)) X)).

Definition clear_history_cpu (vs cpuid : Z) : MV unit :=
  bug_on (bool_decide (cpuid >= PLAT_CPU_NUM));;
  upd_space vs (λ X, set_history_cpus (<[Z.to_nat cpuid := false]> (history_cpus X)) X).

(** [CHCORE_PGD] and the process context identifier are those of PageTable.v. *)
Definition vmspace_init (CHCORE_PGD : Z → Z) (pcid : Z) (vs : Z) : MV Z :=
  upd_space vs (set_vmr_list []);;
  on_rbs (init_rb_root (vmr_tree_of vs));;
  roots ← on_pgs (vmspace_init_pgtbl CHCORE_PGD pcid);
  upd_space vs (set_pgtbl roots);;
  upd_space vs (λ X, set_pgtbl_lock false (set_vmspace_lock false X));;
  upd_space vs (λ X, set_deferred [] 0 (set_deferred_pmo_lock false X));;
  reset_history_cpus vs;;
  upd_space vs (set_mmap_addr MMAP_START);;
  mret 0.

(** The regions are freed and the tree is left behind. *)
Fixpoint free_regions (l : list Z) : MV unit :=
  match l with [] => mret tt | vmr :: l' => free_vmregion vmr;; free_regions l' end.
Fixpoint free_tables (l : list Z) : MV unit :=
  match l with
  | [] => mret tt
  | table :: l' =>
      when (negb (bool_decide (table = 0))) (on_pgs (free_page_table (Z.land table (Z.lnot 0xFFF))));; free_tables l'
  end.

Definition vmspace_deinit (vs : Z) : MV unit :=
  X ← get_space vs;
  drain_deferred (deferred_pmo_list X);;
  X ← get_space vs;
  free_regions (vmr_list X);;
  free_tables (pgtbl X).
End vmspace.
