(* ===== verification/VmSpaceProofs.v ===== *)
(** The invariant of an address space, and what its operations do to the regions. *)
From stdpp Require Import sorting.
From S2P Require Import Prelude Words PageTable PageTableProofs RbTree RbSpec RbRuns VmSpace.

(** ** The allocator of regions *)

Class ObjSourceSpec (K : Type) `{ObjSource K} := {
  (** [U] are the blocks handed out, objects of a slab. *)
  os_inv : K → gset Z → Prop;
  os_addr a U p : os_inv a U → p ∈ U → (8 | p) ∧ 0 < p;
  os_get a U mt sz : os_inv a U → 0 < sz ≤ 2048 →
    match kmalloc mt sz a with
    | Ret (p, a') => (p = 0 ∧ os_inv a' U) ∨ ((p ∉ U) ∧ os_inv a' ({[p]} ∪ U))
    | Halt _ => True
    end;
  os_put a U p : os_inv a U → p ∈ U → wp (kfree p) (λ _ a', os_inv a' (U ∖ {[p]})) a
}.

(** ** Regions *)

(** The address of the last byte, of the first where the region is empty *)
Definition last_of (r : vmregion) : Z := vmr_start r + Z.max (vmr_size r - 1) 0.
Definition top_of (r : vmregion) : Z := vmr_start r + vmr_size r.
Definition region_ok (r : vmregion) : Prop := 0 ≤ vmr_start r ∧ 0 ≤ vmr_size r ∧ top_of r < 2 ^ 64.
Definition overlaps (lo hi : Z) (r : vmregion) : Prop := vmr_start r ≤ hi ∧ lo ≤ last_of r.
#[export] Instance overlaps_dec lo hi r : Decision (overlaps lo hi r).
Proof. unfold overlaps. apply _. Defined.

Lemma vmr_end_last r : region_ok r → vmr_end r = last_of r.
Proof.
  unfold region_ok, vmr_end, last_of, top_of. intros (?&?&?). case_bool_decide; rewrite wrap_u64_small by lia; lia.
Qed.

(** The regions of an address space, with their addresses, in the order of the tree *)
Definition regions := list (Z * vmregion).
Definition nodes (L : regions) : list Z := tree_node_of <$> L.*1.
Definition ordered (L : regions) : Prop := StronglySorted (λ a b, last_of a.2 < vmr_start b.2) L.

Lemma rb_entry_node v : rb_entry (tree_node_of v) = v.
Proof. unfold rb_entry, tree_node_of. lia. Qed.
Lemma tree_node_entry n : tree_node_of (rb_entry n) = n.
Proof. unfold rb_entry, tree_node_of. lia. Qed.
#[export] Instance tree_node_inj : Inj (=) (=) tree_node_of.
Proof. unfold tree_node_of. intros x y. lia. Qed.

Lemma elem_of_nodes n L : n ∈ nodes L ↔ ∃ v r, n = tree_node_of v ∧ (v, r) ∈ L.
Proof.
  unfold nodes. rewrite list_elem_of_fmap. setoid_rewrite list_elem_of_fmap. split.
  - intros (v&->&[v' r]&->&?). by exists v', r.
  - intros (v&r&->&?). exists v. split; [done|]. by exists (v, r).
Qed.

Lemma nodes_app L1 L2 : nodes (L1 ++ L2) = nodes L1 ++ nodes L2.
Proof. unfold nodes. by rewrite !fmap_app. Qed.

(** The tree can be searched for the regions that meet a range. *)
Lemma range_in_order (m : gmap Z vmregion) L lo hi :
  lo ≤ hi → ordered L → (∀ v r, (v, r) ∈ L → m !! v = Some r ∧ region_ok r) → in_order (cmp_vmr_and_range m (lo, hi)) (nodes L).
Proof.
  intros Hlh Ho HL. split; cycle 1.
  { apply Forall_forall. intros n (v&r&->&Hv)%elem_of_nodes. destruct (HL _ _ Hv) as [E _]. unfold cmp_vmr_and_range. rewrite rb_entry_node, E. by eexists. }
  assert (Hm : ∀ v r, (v, r) ∈ L → cmp_vmr_and_range m (lo, hi) (tree_node_of v) =
    Some (if bool_decide (hi < vmr_start r) then -1 else if bool_decide (lo > last_of r) then 1 else 0)).
  { intros v r Hv. destruct (HL _ _ Hv) as [E Hr]. unfold cmp_vmr_and_range. rewrite rb_entry_node, E. simpl. by rewrite vmr_end_last. }
  clear HL. induction Ho as [|[v r] L Hs IH Hall]; [constructor|]. unfold nodes in *. simpl. constructor.
  { apply IH. intros. apply Hm. by right. }
  apply Forall_forall. intros n Hn. apply (elem_of_nodes n L) in Hn as (v'&r'&->&Hv'). rewrite Forall_forall in Hall. specialize (Hall _ Hv'). simpl in Hall.
  intros a b Ea Eb. rewrite (Hm v r) in Ea by left. rewrite (Hm v' r') in Eb by (by right). simplify_eq. unfold last_of in *.
  repeat case_bool_decide; lia.
Qed.

Lemma alter_at {V} (f : V → V) (m : gmap Z V) k x : m !! k = Some x → alter f k m = <[k := f x]> m.
Proof.
  intros E. apply map_eq. intros i. destruct (decide (i = k)) as [->|]; [by rewrite lookup_alter_eq, lookup_insert_eq, E|].
  by rewrite lookup_alter_ne, lookup_insert_ne.
Qed.

Section proofs.
Context {A K : Type} `{Hp : PageSource A} `{Hk : ObjSource K, Hks : !ObjSourceSpec K}.
Implicit Types (s : vmem A K) (L : regions) (U : gset Z).

(** [X] and [L] are the address space at [vs] and its regions, [U] the blocks of memory in use. *)
Record space_ok s (vs : Z) (X : vmspace) L U : Prop := {
  so_space : vmspaces s !! vs = Some X;
  so_tree : ∃ t, tree_in (rbs s) (vmr_tree_of vs) t ∧ balanced t ∧ elems t = nodes L;
  so_list : vmr_list X ≡ₚ L.*1;
  so_region v r : (v, r) ∈ L → vmrs s !! v = Some r ∧ region_ok r;
  so_own v : v ∈ L.*1 → v ∈ U;
  so_order : ordered L;
  so_objs : os_inv (objs s) U
}.

(** A region in memory that is in no address space *)
Record loose s (v : Z) (r : vmregion) L U : Prop := {
  lo_region : vmrs s !! v = Some r;
  lo_node : is_Some (rb_nodes (rbs s) !! tree_node_of v);
  lo_own : v ∈ U;
  lo_out : v ∉ L.*1
}.

Lemma so_search s vs X L U lo hi : space_ok s vs X L U → lo ≤ hi →
  ∃ y, rb_search (vmr_tree_of vs) (cmp_vmr_and_range (vmrs s) (lo, hi)) (rbs s) = Ret (y, rbs s) ∧
    ((y = 0 ∧ ∀ v r, (v, r) ∈ L → ¬ overlaps lo hi r) ∨ (∃ v r, y = tree_node_of v ∧ y ≠ 0 ∧ (v, r) ∈ L ∧ overlaps lo hi r)).
Proof.
  intros HI Hlh. destruct (so_tree _ _ _ _ _ HI) as (t&Ht&_&Et).
  assert (Hm : ∀ v r, (v, r) ∈ L → cmp_vmr_and_range (vmrs s) (lo, hi) (tree_node_of v) = Some 0 ↔ overlaps lo hi r).
  { intros v r Hv. destruct (so_region _ _ _ _ _ HI v r Hv) as [E Hr]. unfold cmp_vmr_and_range, overlaps. rewrite rb_entry_node, E. simpl.
    rewrite vmr_end_last by done. repeat case_bool_decide; split; intros; simplify_eq; lia || done. }
  destruct (run_search (rbs s) (vmr_tree_of vs) (cmp_vmr_and_range (vmrs s) (lo, hi)) t) as (y&Ey&Hy); [done| |].
  { rewrite Et. apply range_in_order; [done|apply HI|apply HI]. }
  exists y. split; [done|]. rewrite Et in Hy. destruct Hy as [[-> Hn]|[Hy Hc]]; [left|right].
  - split; [done|]. intros v r Hv Ho. apply (Hn (tree_node_of v)); [apply elem_of_nodes; eauto|by apply (Hm v r)].
  - assert (Hpos : 0 < y).
    { destruct Ht as (_&Hh&_). rewrite <-Et in Hy. by destruct (in_heap_lookup _ _ _ _ Hh Hy) as [[_ ?] _]. }
    apply elem_of_nodes in Hy as (v&r&->&Hv). exists v, r. split_and!; [done|lia|done|]. by apply (Hm v r).
Qed.

Lemma so_distinct s vs X L U : space_ok s vs X L U → NoDup L.*1.
Proof. intros HI. destruct (so_tree _ _ _ _ _ HI) as (t&(_&_&Hnd)&_&Et). rewrite Et in Hnd. unfold nodes in Hnd. by apply NoDup_fmap_1 in Hnd. Qed.

(** ** Steps *)

Lemma wp_on_rbs {B} (m : M rbmem B) (Q : B → vmem A K → Prop) s r x : m (rbs s) = Ret (r, x) → Q r (set_rbs x s) → wp (on_rbs m) Q s.
Proof. intros E HQ. unfold wp, on_rbs. by rewrite E. Qed.

Lemma wp_get_space s vs X (Q : vmspace → vmem A K → Prop) : vmspaces s !! vs = Some X → Q X s → wp (get_space vs) Q s.
Proof. intros E HQ. unfold get_space. wp_seq. by eapply wp_from_opt. Qed.

Definition with_space (vs : Z) (X : vmspace) s : vmem A K := set_vmspaces (<[vs := X]> (vmspaces s)) s.
Definition with_vmr (v : Z) (r : vmregion) s : vmem A K := set_vmrs (<[v := r]> (vmrs s)) s.

Lemma with_space_twice vs X Y s : with_space vs Y (with_space vs X s) = with_space vs Y s.
Proof. unfold with_space, set_vmspaces. simpl. by rewrite insert_insert_eq. Qed.
Lemma with_vmr_twice v r q s : with_vmr v q (with_vmr v r s) = with_vmr v q s.
Proof. unfold with_vmr, set_vmrs. simpl. by rewrite insert_insert_eq. Qed.
Lemma with_space_same vs X s : vmspaces s !! vs = Some X → with_space vs X s = s.
Proof. intros E. unfold with_space, set_vmspaces. destruct s. simpl in *. by rewrite insert_id. Qed.
Lemma set_rbs_same s : set_rbs (rbs s) s = s.
Proof. by destruct s. Qed.

Lemma wp_upd_space s vs X f (Q : unit → vmem A K → Prop) :
  vmspaces s !! vs = Some X → Q tt (with_space vs (f X) s) → wp (upd_space vs f) Q s.
Proof. intros E HQ. unfold upd_space. wp_seq. eapply wp_get_space; [done|]. wp_seq. by rewrite (alter_at f _ vs X). Qed.

Lemma wp_get_vmr s v r (Q : vmregion → vmem A K → Prop) : vmrs s !! v = Some r → Q r s → wp (get_vmr v) Q s.
Proof. intros E HQ. unfold get_vmr. wp_seq. by eapply wp_from_opt. Qed.

Lemma wp_upd_vmr s v r f (Q : unit → vmem A K → Prop) : vmrs s !! v = Some r → Q tt (with_vmr v (f r) s) → wp (upd_vmr v f) Q s.
Proof. intros E HQ. unfold upd_vmr. wp_seq. eapply wp_get_vmr; [done|]. wp_seq. by rewrite (alter_at f _ v r). Qed.

Lemma wp_write_lock s vs X (Q : unit → vmem A K → Prop) :
  vmspaces s !! vs = Some X → vmspace_lock X = false → Q tt (with_space vs (set_vmspace_lock true X) s) → wp (write_lock vs) Q s.
Proof. intros E El HQ. unfold write_lock. wp_seq. eapply wp_get_space; [done|]. rewrite El. by eapply wp_upd_space. Qed.

Lemma wp_lock_pgtbl s vs X (Q : unit → vmem A K → Prop) :
  vmspaces s !! vs = Some X → pgtbl_lock X = false → Q tt (with_space vs (set_pgtbl_lock true X) s) → wp (lock_pgtbl vs) Q s.
Proof. intros E El HQ. unfold lock_pgtbl. wp_seq. eapply wp_get_space; [done|]. rewrite El. by eapply wp_upd_space. Qed.

(** The fields beside the list of regions do not matter to the invariant. *)
Lemma so_with s vs X X' L U : space_ok s vs X L U → vmr_list X' = vmr_list X → space_ok (with_space vs X' s) vs X' L U.
Proof. intros [? ? ? ? ? ? ?] E. split; try done; [apply lookup_insert_eq|by rewrite E]. Qed.

(** ** Search *)

Lemma wp_find_vmr_for_va s vs X L U va : space_ok s vs X L U →
  wp (find_vmr_for_va vs va) (λ v s', s' = s ∧
    ((v = 0 ∧ ∀ w r, (w, r) ∈ L → ¬ overlaps va va r) ∨ (v ≠ 0 ∧ ∃ r, (v, r) ∈ L ∧ overlaps va va r))) s.
Proof.
  intros HI. unfold find_vmr_for_va. wp_seq. destruct (so_search _ _ _ _ _ va va HI) as (y&Ey&Hy); [done|].
  change (cmp_vmr_and_va (vmrs s) va) with (cmp_vmr_and_range (vmrs s) (va, va)). eapply wp_on_rbs; [done|]. rewrite set_rbs_same. wp_seq. split; [done|].
  destruct Hy as [[-> Hn]|(v&r&->&Hne&Hv&Ho)]; [by left|right]. rewrite bool_decide_eq_false_2 by done. rewrite rb_entry_node. split; [|by exists r].
  destruct (os_addr _ _ v (so_objs _ _ _ _ _ HI)); [|lia]. apply (so_own _ _ _ _ _ HI). apply list_elem_of_fmap. by exists (v, r).
Qed.

Lemma wp_check_vmr_intersect s vs X L U v r (Q : Z → vmem A K → Prop) : space_ok s vs X L U → vmrs s !! v = Some r → region_ok r →
  ((∀ w q, (w, q) ∈ L → ¬ overlaps (vmr_start r) (last_of r) q) → Q 0 s) →
  (∀ w q, (w, q) ∈ L → overlaps (vmr_start r) (last_of r) q → Q 1 s) → wp (check_vmr_intersect vs v) Q s.
Proof.
  intros HI Hv Hr HQ0 HQ1. unfold check_vmr_intersect. wp_seq. eapply wp_get_vmr; [done|]. wp_seq. set (hi := wrap_u64 _).
  assert (hi = last_of r) as ->.
  { unfold hi, last_of. destruct Hr as (?&?&?). unfold top_of in *. case_bool_decide; rewrite wrap_u64_small by lia; lia. }
  destruct (so_search _ _ _ _ _ (vmr_start r) (last_of r) HI) as (y&Ey&Hy); [unfold last_of; lia|].
  eapply wp_on_rbs; [done|]. rewrite set_rbs_same. wp_seq. destruct Hy as [[-> Hn]|(w&q&->&Hne&Hw&Ho)]; [by apply HQ0|].
  rewrite bool_decide_eq_false_2 by done. by eapply HQ1.
Qed.

(** ** The place of a new region *)

Definition max_top L : Z := foldr (λ a m, Z.max (top_of a.2) m) 0 L.
Definition placed L (r : vmregion) : vmregion := if bool_decide (vmr_start r = 0) then set_start (max_top L) r else r.

Lemma max_top_perm L L' : L ≡ₚ L' → max_top L = max_top L'.
Proof. unfold max_top. induction 1; simpl; lia. Qed.
Lemma max_top_nonneg L : 0 ≤ max_top L.
Proof. unfold max_top. induction L; simpl; lia. Qed.
Lemma max_top_le L v r : (v, r) ∈ L → top_of r ≤ max_top L.
Proof. unfold max_top. induction L as [|[w q] L IH]; [by intros ?%elem_of_nil|]. intros [[= -> ->]|?%IH]%elem_of_cons; simpl; lia. Qed.

Lemma wp_max_va_loop s L m : 0 ≤ m → (∀ v r, (v, r) ∈ L → vmrs s !! v = Some r ∧ region_ok r) →
  wp (max_va_loop L.*1 m) (λ x s', s' = s ∧ x = Z.max m (max_top L)) s.
Proof.
  revert m. induction L as [|[v r] L IH]; intros m Hm HL; simpl; wp_seq; [split; [done|lia]|].
  destruct (HL v r) as [E (?&?&?)]; [by left|]. eapply wp_get_vmr; [done|]. wp_seq. fold (top_of r). unfold top_of in *. rewrite wrap_u64_small by lia.
  eapply wp_mono; [apply IH; [case_bool_decide; lia|intros; apply HL; by right]|]. intros x s' [-> ->]. split; [done|]. case_bool_decide; lia.
Qed.

Lemma wp_find_free_va s vs X L U size : space_ok s vs X L U → wp (find_free_va vs size) (λ x s', s' = s ∧ x = max_top L) s.
Proof.
  intros HI. unfold find_free_va. wp_seq. eapply wp_get_space; [apply HI|]. destruct (Permutation_map_inv _ _ (so_list _ _ _ _ _ HI)) as (L'&->&HL).
  rewrite (max_top_perm _ _ HL). eapply wp_mono; [apply (wp_max_va_loop s L' 0); [done|]|].
  - intros v r Hv. apply (so_region _ _ _ _ _ HI). by rewrite HL.
  - intros x s' [-> ->]. split; [done|]. pose proof (max_top_nonneg L'). lia.
Qed.

(** ** Insertion *)

(** A region that meets none of [L] has its place in [L]. *)
Lemma ordered_split L (v : Z) r : ordered L → region_ok r → (∀ w q, (w, q) ∈ L → region_ok q ∧ ¬ overlaps (vmr_start r) (last_of r) q) →
  ∃ L1 L2, L = L1 ++ L2 ∧ (∀ w q, (w, q) ∈ L1 → last_of q < vmr_start r) ∧ (∀ w q, (w, q) ∈ L2 → last_of r < vmr_start q) ∧ ordered (L1 ++ (v, r) :: L2).
Proof.
  intros Ho Hr. unfold ordered in *. induction Ho as [|[w q] L Ho IH Hall]; intros HL.
  { exists [], []. split_and!; [done|by intros ?? ?%elem_of_nil|by intros ?? ?%elem_of_nil|]. repeat constructor. }
  destruct (HL w q) as [Hq Hn]; [by left|]. rewrite Forall_forall in Hall.
  destruct (decide (last_of q < vmr_start r)) as [Hlt|Hge].
  - destruct IH as (L1&L2&->&H1&H2&Ho'); [intros w' q' Hin; apply (HL w'); by right|]. exists ((w, q) :: L1), L2. split_and!; [done| |done|].
    + intros w' q' [[= -> ->]|?]%elem_of_cons; [done|by eapply H1].
    + simpl. constructor; [done|]. rewrite Forall_forall. intros x [?|[->|?]%elem_of_cons]%elem_of_app; [apply Hall; set_solver|done|apply Hall; set_solver].
  - assert (last_of r < vmr_start q) as Hlt by (unfold overlaps in Hn; lia). exists [], ((w, q) :: L).
    assert (H2 : ∀ w' q', (w', q') ∈ (w, q) :: L → last_of r < vmr_start q').
    { intros w' q' [[= -> ->]|Hin]%elem_of_cons; [done|]. specialize (Hall _ Hin). simpl in Hall. unfold last_of in *. lia. }
    split_and!; [done|by intros ?? ?%elem_of_nil|done|]. simpl. constructor; [constructor; [done|by rewrite Forall_forall]|].
    rewrite Forall_forall. intros [w' q'] Hin. by eapply H2.
Qed.

Lemma loose_fresh s vs X v r L U t : space_ok s vs X L U → loose s v r L U → elems t = nodes L → fresh (rbs s) t (tree_node_of v).
Proof.
  intros HI [? Hn Hu Hout] Et. destruct (os_addr _ _ v (so_objs _ _ _ _ _ HI) Hu) as [[q ->] ?]. split_and!; [split; [|unfold tree_node_of; lia]|unfold tree_node_of; lia|done|].
  - exists (2 * q + 10). unfold tree_node_of. lia.
  - rewrite Et. intros (w&q'&E%(inj tree_node_of)&Hin)%elem_of_nodes. apply Hout. rewrite E. apply list_elem_of_fmap. by exists (w, q').
Qed.

(** A region outside the address space may change. *)
Lemma so_loose s vs X L U v r : space_ok s vs X L U → v ∉ L.*1 → space_ok (with_vmr v r s) vs X L U.
Proof.
  intros [? ? ? Hr ? ? ?] Hv. split; try done. intros w q Hw. destruct (Hr w q Hw) as [E Hq]. split; [|done]. simpl. rewrite lookup_insert_ne; [done|].
  intros ->. apply Hv. apply list_elem_of_fmap. by exists (w, q).
Qed.

(** The result of inserting the region [v], with contents [r] *)
Definition inserted s vs X L U v r s' : Prop := ∃ L1 L2 rb, L = L1 ++ L2 ∧
  let X' := set_vmr_list (v :: vmr_list X) X in let r' := set_vmspace vs r in
  s' = set_rbs rb (with_vmr v r' (with_space vs X' s)) ∧ space_ok s' vs X' (L1 ++ (v, r') :: L2) U ∧
  only_tree (vmr_tree_of vs) (nodes L ++ [tree_node_of v]) (rbs s) rb.

Lemma wp_insert_vmr s vs X L U v r (Q : Z → vmem A K → Prop) :
  space_ok s vs X L U → loose s v r L U → region_ok r → (∀ w q, (w, q) ∈ L → ¬ overlaps (vmr_start r) (last_of r) q) →
  (∀ s', inserted s vs X L U v r s' → Q 0 s') →
  wp (upd_space vs (λ X, set_vmr_list (v :: vmr_list X) X);;
      s ← get_state;
      on_rbs (rb_insert (cmp_two_vmrs (vmrs s)) (vmr_tree_of vs) (tree_node_of v));;
      upd_vmr v (set_vmspace vs);;
      mret 0) Q s.
Proof.
  intros HI Hl Hr Hno HQ. destruct (so_tree _ _ _ _ _ HI) as (t&Ht&HB&Et). pose proof (loose_fresh _ _ _ _ _ _ _ _ HI Hl Et) as Hf.
  destruct (ordered_split L v (set_vmspace vs r)) as (L1&L2&->&H1&H2&Ho); [apply HI|done| |].
  { intros w q Hw. split; [by apply (so_region _ _ _ _ _ HI) in Hw as [_ ?]|by eapply Hno]. }
  destruct (run_insert (rbs s) (vmr_tree_of vs) (cmp_two_vmrs (vmrs s)) (tree_node_of v) t (nodes L1) (nodes L2)) as (rb&t'&Er&Ht'&HB'&Et'&Hon);
    [done|done|done|by rewrite Et, nodes_app| | |].
  - rewrite Forall_forall. intros n (w&q&->&Hw)%elem_of_nodes. destruct (so_region _ _ _ _ _ HI w q) as [Eq Hq]; [set_solver|].
    unfold cmp_two_vmrs. rewrite !rb_entry_node, (lo_region _ _ _ _ _ Hl), Eq. simpl. rewrite bool_decide_eq_false_2; [done|].
    rewrite vmr_end_last by done. specialize (H1 _ _ Hw). unfold last_of in *. simpl in H1. lia.
  - rewrite Forall_forall. intros n (w&q&->&Hw)%elem_of_nodes. destruct (so_region _ _ _ _ _ HI w q) as [Eq Hq]; [set_solver|].
    unfold cmp_two_vmrs. rewrite !rb_entry_node, (lo_region _ _ _ _ _ Hl), Eq. simpl. rewrite bool_decide_eq_true_2; [done|].
    rewrite vmr_end_last by done. by apply (H2 w).
  - wp_seq. eapply wp_upd_space; [apply HI|]. wp_seq. eapply wp_on_rbs; [exact Er|]. wp_seq. eapply wp_upd_vmr; [apply Hl|]. wp_seq. apply HQ.
    exists L1, L2, rb. cbv zeta. split_and!; [done|done| |by rewrite <-Et]. rewrite Et in Hon. destruct HI as [_ _ Hperm Hreg Hown Hord Hob].
    split; simpl.
    + apply lookup_insert_eq.
    + exists t'. split_and!; [done|done|]. rewrite Et', !nodes_app. done.
    + rewrite Hperm, !fmap_app. simpl. apply Permutation_middle.
    + intros w q [Hw|[[= -> ->]|Hw]%elem_of_cons]%elem_of_app; [|split; [apply lookup_insert_eq|done]|].
      all: rewrite lookup_insert_ne by (intros ->; apply (lo_out _ _ _ _ _ Hl), list_elem_of_fmap; exists (w, q); set_solver); apply Hreg; set_solver.
    + intros w. rewrite fmap_app, elem_of_app. simpl. rewrite elem_of_cons. intros [?|[->|?]]; [|apply Hl|]; apply Hown; rewrite fmap_app; set_solver.
    + unfold ordered in *. done.
    + done.
Qed.

Lemma wp_add_vmr s vs X L U v r (Q : Z → vmem A K → Prop) :
  let r' := placed L r in space_ok s vs X L U → loose s v r L U → region_ok r' →
  (∀ w q, (w, q) ∈ L → overlaps (vmr_start r') (last_of r') q → Q (- EINVAL) (with_vmr v r' s)) →
  ((∀ w q, (w, q) ∈ L → ¬ overlaps (vmr_start r') (last_of r') q) → ∀ s', inserted (with_vmr v r' s) vs X L U v r' s' → Q 0 s') →
  wp (add_vmr_to_vmspace vs v) Q s.
Proof.
  intros r' HI Hl Hr HQ1 HQ0. pose proof Hl as [Ev Hn Hu Hout]. unfold add_vmr_to_vmspace. wp_seq. eapply wp_get_vmr; [done|]. wp_seq.
  eapply (wp_mono _ (λ _ s', s' = with_vmr v r' s)).
  { unfold when, r', placed. case_bool_decide; wp_seq.
    - eapply wp_mono; [by eapply wp_find_free_va|]. intros x s' [-> ->]. by eapply wp_upd_vmr.
    - unfold with_vmr, set_vmrs. destruct s. simpl in *. by rewrite insert_id. }
  intros [] ? ->. pose proof (so_loose _ _ _ _ _ v r' HI Hout) as HI'.
  assert (vmrs (with_vmr v r' s) !! v = Some r') as Ev' by apply lookup_insert_eq. wp_seq.
  eapply wp_check_vmr_intersect; [done|done|done|intros Hno|intros w q Hw Ho].
  - rewrite bool_decide_eq_true_2 by done. cbn [negb]. apply (wp_insert_vmr _ vs X L U v r'); [done| |done|done|by apply HQ0].
    by split.
  - rewrite bool_decide_eq_false_2 by done. cbn [negb]. wp_seq. by eapply HQ1.
Qed.

(** ** Removal *)

Definition removed s vs X L1 L2 U v r s' : Prop := ∃ rb,
  let X' := set_vmr_list (filter (λ w, w ≠ v) (vmr_list X)) X in let r' := set_vmspace 0 r in
  s' = set_rbs rb (with_vmr v r' (with_space vs X' s)) ∧ space_ok s' vs X' (L1 ++ L2) U ∧ loose s' v r' (L1 ++ L2) U ∧
  only_tree (vmr_tree_of vs) (nodes (L1 ++ (v, r) :: L2)) (rbs s) rb.

Lemma filter_out (L1 L2 : list Z) v : NoDup (L1 ++ v :: L2) → filter (λ w, w ≠ v) (L1 ++ v :: L2) = L1 ++ L2.
Proof.
  intros Hnd. apply NoDup_app in Hnd as (_&Hd&[Hn2 _]%NoDup_cons). assert (Hf : ∀ l : list Z, v ∉ l → filter (λ w, w ≠ v) l = l).
  { intros l Hl. induction l as [|x l IH]; [done|]. rewrite filter_cons_True by (intros ->; apply Hl; left). f_equal. apply IH. intros ?. apply Hl. by right. }
  rewrite filter_app, filter_cons_False by naive_solver. rewrite !Hf; [done|done|]. intros Hv. apply (Hd v Hv). left.
Qed.

Lemma wp_remove_vmr s vs X L1 L2 U v r (Q : Z → vmem A K → Prop) :
  space_ok s vs X (L1 ++ (v, r) :: L2) U → (∀ s', removed s vs X L1 L2 U v r s' → Q 0 s') → wp (remove_vmr_from_vmspace vs v) Q s.
Proof.
  intros HI HQ. assert (Hin : (v, r) ∈ L1 ++ (v, r) :: L2) by set_solver. destruct (so_region _ _ _ _ _ HI v r Hin) as [Ev Hr].
  destruct (so_tree _ _ _ _ _ HI) as (t&Ht&HB&Et). rewrite nodes_app in Et.
  destruct (run_erase (rbs s) (vmr_tree_of vs) t (nodes L1) (tree_node_of v) (nodes L2)) as (rb&t'&Er&Ht'&HB'&Et'&Hf&Hon); [done|done|done|].
  unfold remove_vmr_from_vmspace. wp_seq. eapply wp_check_vmr_intersect; [done|done|done|intros Hno|intros _ _ _ _].
  { exfalso. apply (Hno v r Hin). unfold overlaps, last_of. lia. }
  rewrite bool_decide_eq_false_2 by done. cbn [negb]. wp_seq. eapply wp_on_rbs; [done|].
  pose proof (so_distinct _ _ _ _ _ HI) as Hnd. destruct HI as [Esp _ Hperm Hreg Hown Hord Hob]. rewrite fmap_app in Hperm, Hnd. simpl in Hperm, Hnd.
  wp_seq. unfold vmr_list_del. wp_seq. eapply wp_get_space; [done|]. rewrite bool_decide_eq_true_2 by (rewrite Hperm; set_solver).
  eapply wp_upd_space; [done|]. wp_seq. eapply wp_upd_vmr; [done|]. wp_seq. apply HQ.
  assert (Hsub : ∀ x, x ∈ L1 ++ L2 → x ∈ L1 ++ (v, r) :: L2) by set_solver.
  assert (Hout : v ∉ (L1 ++ L2).*1).
  { rewrite fmap_app. apply NoDup_app in Hnd as (_&Hd&[Hn2 _]%NoDup_cons). intros [Hv|Hv]%elem_of_app; [|done]. apply (Hd v Hv). left. }
  exists rb. cbv zeta. split_and!; [done| | |by rewrite <-(nodes_app L1 ((v, r) :: L2)) in *; rewrite <-Et].
  - split; simpl; [apply lookup_insert_eq|exists t'; by rewrite nodes_app| | |  | |done].
    + rewrite Hperm, filter_out, fmap_app by done. done.
    + intros w q Hw. rewrite lookup_insert_ne; [by apply Hreg, Hsub|]. intros ->. apply Hout, list_elem_of_fmap. by exists (w, q).
    + intros w (x&->&Hx)%list_elem_of_fmap. apply Hown, list_elem_of_fmap. eauto.
    + unfold ordered in *. apply StronglySorted_app in Hord as (Hc&H1&[_ H2]%StronglySorted_cons). apply StronglySorted_app. split_and!; [|done|done].
      intros x1 x2 ??. apply Hc; [done|]. by right.
  - split; simpl; [apply lookup_insert_eq|by destruct Hf as (_&?&_)|apply Hown; rewrite fmap_app; set_solver|done].
Qed.

(** ** Memory of regions *)

Definition made (v : Z) s : vmem A K :=
  set_rbs (RbMem (<[tree_node_of v := RbNode 0 0 0]> (rb_nodes (rbs s))) (rb_roots (rbs s))) (with_vmr v (VmRegion 0 0 0 0 0) s).
Definition unmade (v : Z) s : vmem A K :=
  set_rbs (RbMem (delete (tree_node_of v) (rb_nodes (rbs s))) (rb_roots (rbs s))) (set_vmrs (delete v (vmrs s)) s).

(** The nodes and regions of an address space decide. *)
Lemma so_frame s s' vs X X' L U U' : space_ok s vs X L U → vmspaces s' !! vs = Some X' → vmr_list X' = vmr_list X →
  (∀ v, v ∈ L.*1 → vmrs s' !! v = vmrs s !! v ∧ rb_nodes (rbs s') !! tree_node_of v = rb_nodes (rbs s) !! tree_node_of v ∧ v ∈ U') →
  rb_roots (rbs s') !! vmr_tree_of vs = rb_roots (rbs s) !! vmr_tree_of vs → os_inv (objs s') U' → space_ok s' vs X' L U'.
Proof.
  intros [? (t&Ht&HB&Et) Hperm Hreg Hown Hord Hob] Es El Hv Er Ho. split; try done.
  - exists t. split_and!; [|done|done]. eapply tree_in_ext; [|done|done]. intros x Hx. rewrite Et in Hx. apply elem_of_nodes in Hx as (v&r&->&Hin).
    apply Hv. apply list_elem_of_fmap. by exists (v, r).
  - by rewrite El.
  - intros v r Hin. destruct (Hv v) as (->&_); [apply list_elem_of_fmap; by exists (v, r)|]. by apply Hreg.
  - intros v Hin. by apply Hv.
Qed.

Lemma wp_alloc_vmr s vs X L U mt p k (Q : Z → vmem A K → Prop) :
  space_ok s vs X L U → kmalloc mt sizeof_vmregion (objs s) = Ret (p, k) →
  (p = 0 → space_ok (set_objs k s) vs X L U → Q 0 (set_objs k s)) →
  (p ≠ 0 → (p ∉ U) → let s' := made p (set_objs k s) in
    space_ok s' vs X L ({[p]} ∪ U) → loose s' p (VmRegion 0 0 0 0 0) L ({[p]} ∪ U) → Q p s') →
  wp (alloc_vmregion mt) Q s.
Proof.
  intros HI Ek HQ0 HQ1. unfold alloc_vmregion. wp_seq. unfold wp at 1, on_objs. rewrite Ek. pose proof (os_get _ _ mt sizeof_vmregion (so_objs _ _ _ _ _ HI)) as Hg.
  rewrite Ek in Hg. destruct Hg as [[-> Hk']|[Hp' Hk']]; [done| |].
  - rewrite bool_decide_eq_true_2 by done. cbn [negb when]. wp_seq. apply HQ0; [done|]. eapply so_frame; try done; [apply HI|].
    intros v Hv. split_and!; [done|done|by apply HI].
  - destruct (os_addr _ _ p Hk'); [set_solver|]. rewrite bool_decide_eq_false_2 by lia. cbn [negb when]. wp_seq.
    assert (Hne : ∀ v, v ∈ L.*1 → v ≠ p) by (intros v Hv ->; by apply Hp', (so_own _ _ _ _ _ HI)).
    assert (Hout : p ∉ L.*1) by (intros Hv; by apply (Hne p)). apply (HQ1 ltac:(lia) Hp').
    + eapply so_frame; try done; [apply HI|]. intros v Hv. pose proof (Hne v Hv). simpl.
      rewrite !lookup_insert_ne by (try (intros E%(inj tree_node_of)); congruence). split_and!; [done|done|]. apply (so_own _ _ _ _ _ HI) in Hv. set_solver.
    + split; [apply lookup_insert_eq|simpl; rewrite lookup_insert_eq; by eexists|set_solver|done].
Qed.

Lemma wp_free_vmr s vs X L U v r (Q : unit → vmem A K → Prop) :
  space_ok s vs X L U → loose s v r L U → (∀ k, kfree v (objs s) = Ret (tt, k) →
    let s' := set_objs k (unmade v s) in space_ok s' vs X L (U ∖ {[v]}) → Q tt s') →
  wp (free_vmregion v) Q s.
Proof.
  intros HI [Hr Hn Hu Hout] HQ. unfold free_vmregion. wp_seq. pose proof (os_put _ _ v (so_objs _ _ _ _ _ HI) Hu) as (u&k&Ek&Hk')%wp_inv. destruct u.
  unfold wp, on_objs. simpl. rewrite Ek. apply HQ; [done|]. eapply so_frame; try done; [apply HI|]. intros w Hw. simpl.
  assert (w ≠ v) by (by intros ->). rewrite !lookup_delete_ne by (try (intros E%(inj tree_node_of)); congruence).
  split_and!; [done|done|]. apply (so_own _ _ _ _ _ HI) in Hw. set_solver.
Qed.

(** ** Page tables *)

Implicit Types (g : pgmem A) (T : gmap (Z * Z) Z) (Ts : list (gmap (Z * Z) Z)).
Context `{Hps : !PageSourceSpec A}.

(** The tables of the machines have no page in common. *)
Record tables_ok g (roots : list Z) Ts (U : gset Z) : Prop := {
  tb_len : length Ts = length roots;
  tb_ok i root T : roots !! i = Some root → Ts !! i = Some T → pt_ok 510 g (remove_pcid root) T U;
  tb_disj i j T T' k k' a : i ≠ j → Ts !! i = Some T → Ts !! j = Some T' → T !! k = Some a → T' !! k' = Some a → False
}.

Lemma tb_lookup g roots Ts U i root : tables_ok g roots Ts U → roots !! i = Some root → ∃ T, Ts !! i = Some T.
Proof. intros Ht Hi. apply lookup_lt_is_Some_2. rewrite (tb_len _ _ _ _ Ht). by eapply lookup_lt_Some. Qed.

(** One table changes. *)
Lemma tb_update g roots Ts U i root T g' T' U' :
  tables_ok g roots Ts U → roots !! i = Some root → Ts !! i = Some T → pt_ok 510 g' (remove_pcid root) T' U' → added T U T' U' → beside T U g g' →
  tables_ok g' roots (<[i := T']> Ts) U' ∧ ∀ j T2, i ≠ j → Ts !! j = Some T2 → ∀ w, entry_of g' T2 w = entry_of g T2 w.
Proof.
  intros Htb Hi HT Hok Ha Hb. assert (Hother : ∀ j r2 T2, i ≠ j → roots !! j = Some r2 → Ts !! j = Some T2 →
    pt_ok 510 g' (remove_pcid r2) T2 U' ∧ ∀ w, entry_of g' T2 w = entry_of g T2 w).
  { intros j r2 T2 Hj Hr2 HT2. eapply (pt_other 510 g); [done|apply Ha|done|by eapply tb_ok|]. intros k k' a. by eapply (tb_disj _ _ _ _ Htb i j). }
  split; [split|].
  - rewrite length_insert. apply Htb.
  - intros j r2 T2 Hr2 [(->&->&_)|[Hj HT2]]%list_lookup_insert_Some; [by simplify_eq|]. by eapply Hother.
  - assert (Hnew : ∀ j T2 k k' a, i ≠ j → Ts !! j = Some T2 → T' !! k = Some a → T2 !! k' = Some a → False).
    { intros j T2 k k' a Hj HT2 Hk1 Hk2. destruct (lookup_lt_is_Some_2 roots j) as [r2 Hr2]; [rewrite <-(tb_len _ _ _ _ Htb); by eapply lookup_lt_Some|].
      pose proof (pt_own 510 _ _ _ _ (tb_ok _ _ _ _ Htb _ _ _ Hr2 HT2) _ _ Hk2) as Hu. apply (ad_new _ _ _ _ Ha) in Hk1; [|done].
      by eapply (tb_disj _ _ _ _ Htb i j). }
    intros j1 j2 T1 T2 k k' a Hne [(->&->&_)|[Hj1 HT1]]%list_lookup_insert_Some [(->&->&_)|[Hj2 HT2]]%list_lookup_insert_Some ??; [done|..].
    + by eapply (Hnew j2).
    + by eapply (Hnew j1).
    + by eapply (tb_disj _ _ _ _ Htb j1 j2).
  - intros j T2 Hj HT2. destruct (lookup_lt_is_Some_2 roots j) as [r2 Hr2]; [rewrite <-(tb_len _ _ _ _ Htb); by eapply lookup_lt_Some|].
    by eapply Hother.
Qed.
End proofs.
