(* ===== verification/KmallocObjects.v ===== *)
(** The DRAM allocator as the source of small objects: where all kernel memory is private, [kmalloc] is [dram_kmalloc],
    and with [kfree] it keeps the laws that VmSpaceProofs.v asks of its source of regions. *)
From S2P Require Import Prelude Words ListHead Buddy BuddyProofs PageLayer DramPages RemoteFree RemoteFreeProofs Slab.
From S2P Require Import SlabProofs KmallocProofs VmSpace VmSpaceProofs.

Section objects.
Context (dsm_cxl_free_page free_in_cxl_slab free_in_temp_slab : Z → M (mem pools) unit) (detect : bool).
Context (c : rpf_config) (mid cpu : Z).

Definition dram_objects : ObjSource (mem pools) := {|
  kmalloc _ := dram_kmalloc dsm_cxl_free_page free_in_cxl_slab free_in_temp_slab detect c mid cpu;
  VmSpace.kfree := Slab.kfree dsm_cxl_free_page free_in_cxl_slab free_in_temp_slab detect
|}.

Definition small V (S : slabs) (p : Z) : Prop := ∃ n, n ≤ 2048 ∧ block V S p n.

Lemma small_object s V S Av p : sinv (P := pools) s V S Av → small V S p → ∃ o, object S p o ∧ block V S p (2 ^ o) ∧ 2 ^ o ≤ 2048.
Proof.
  intros HI (n&Hn&[(o&Ho&->)|(k&Hk&_&->)]); [exists o; split_and!; [done|left; by exists o|done]|].
  destruct (pl_live _ _ _ _ (s_phys _ _ _ _ HI) Hk) as (?&_). assert (2 ^ 12 ≤ 2 ^ (k + 12)) by (apply Z.pow_le_mono_r; lia). lia.
Qed.

(** Pages on their way from another machine are no objects. *)
Lemma small_not_home (s : mem pools) V S p : minv c mid s V S → small V S p → p ∉ home_addrs c mid (rpf s).
Proof.
  intros Hm Hb Hh. destruct (home_block _ _ _ _ _ _ Hm Hh) as [Hb' _]. pose proof Hm as [[HI _] _]. destruct Hb as (n&Hn&Hb).
  assert (0 < n) as Hn0.
  { destruct Hb as [(o&Ho&->)|(k&Hk&_&->)]; [by destruct (object_chunk _ _ _ _ _ _ HI Ho) as (?&?&?&?&?&?&?&?&?&?&?)|].
    destruct (pl_live _ _ _ _ (s_phys _ _ _ _ HI) Hk) as (?&_). apply Z.pow_pos_nonneg; lia. }
  destruct (block_disj _ _ _ _ _ _ _ _ HI Hb Hb') as [_ ?]; lia.
Qed.

Definition dram_os_inv (s : mem pools) (U : gset Z) : Prop :=
  0 ≤ cpu < PLAT_CPU_NUM ∧ ∃ V S, minv c mid s V S ∧ unlocked s ∧ ∀ p, p ∈ U → small V S p.

Lemma dram_os_addr s U p : dram_os_inv s U → p ∈ U → (8 | p) ∧ 0 < p.
Proof.
  intros (_&V&S&[[HI _] _]&_&HU) Hp. destruct (small_object _ _ _ _ _ HI (HU p Hp)) as (o&Ho&_).
  destruct (object_chunk _ _ _ _ _ _ HI Ho) as (b&i&_&Hsl&_&_&Hl&Hr&_&_&_). destruct (slot_of_range _ _ _ Hr Hsl) as (?&_&Hd).
  destruct (pl_live _ _ _ _ (s_phys _ _ _ _ HI) Hl) as (_&Hb0&Ha&_).
  split; [|lia]. replace p with (b + (p - b)) by lia. apply Z.divide_add_r; [eapply Z.divide_trans; [|exact Ha]|eapply Z.divide_trans; [|exact Hd]].
  - by exists (2 ^ 18).
  - exists (2 ^ (o - 3)). unfold obj_size, in_orders, SLAB_MIN_ORDER in *. change 8 with (2 ^ 3). rewrite <-Z.pow_add_r by lia. f_equal. lia.
Qed.

Lemma dram_os_get s U mt sz : dram_os_inv s U → 0 < sz ≤ 2048 →
  match @kmalloc _ dram_objects mt sz s with
  | Ret (p, s') => (p = 0 ∧ dram_os_inv s' U) ∨ ((p ∉ U) ∧ dram_os_inv s' ({[p]} ∪ U))
  | Halt _ => True
  end.
Proof.
  intros (Hcpu&V&S&Hm&Hu&HU) Hsz.
  pose proof (dram_kmalloc_spec dsm_cxl_free_page free_in_cxl_slab free_in_temp_slab detect c mid s V S cpu sz Hm Hu Hcpu ltac:(lia)) as HR.
  cbn [kmalloc dram_objects]. destruct (dram_kmalloc _ _ _ _ _ _ _ _ _) as [[p s']|]; [|done]. destruct HR as (n&V'&S'&_&Hn&_&HM). right.
  assert (∀ q, q ∈ U → small V' S' q ∧ q ≠ p) as HU'.
  { intros q Hq. destruct (HU q Hq) as (k&Hk&Hb). destruct (ml_keep _ _ _ _ _ _ _ _ _ _ HM q k Hb) as [? ?].
    - eapply small_not_home; [done|by apply HU].
    - split; [by exists k|done]. }
  split; [by intros [_ ?]%HU'|]. split; [done|]. exists V', S'. split_and!.
  - apply HM.
  - intros i o Ho. rewrite (ml_locked _ _ _ _ _ _ _ _ _ _ HM). by apply Hu.
  - intros q [->%elem_of_singleton|Hq]%elem_of_union; [|by apply HU']. exists n. split; [by apply Hn; change SLAB_MAX_SIZE with 2048; lia|apply HM].
Qed.

Lemma dram_os_put s U p : dram_os_inv s U → p ∈ U → wp (@VmSpace.kfree _ dram_objects p) (λ _ s', dram_os_inv s' (U ∖ {[p]})) s.
Proof.
  intros (Hcpu&V&S&Hm&Hu&HU) Hp. pose proof Hm as [[HI _] _]. destruct (small_object _ _ _ _ _ HI (HU p Hp)) as (o&Ho&_).
  eapply wp_mono; [by eapply (wp_kfree_object _ _ _ _ c mid s V S p o)|]. intros [] s' (V'&S'&Hm'&El&_&Hb). split; [done|]. exists V', S'. split_and!.
  - done.
  - intros i j Hi. rewrite El. by apply Hu.
  - intros q [Hq Hne]%elem_of_difference. destruct (HU q Hq) as (n&?&?). exists n. split; [done|]. apply Hb. split; [|done]. by intros ->; apply Hne, elem_of_singleton.
Qed.

Definition dram_objects_spec : @ObjSourceSpec (mem pools) dram_objects := {|
  os_inv := dram_os_inv; os_addr := dram_os_addr; os_get := dram_os_get; os_put := dram_os_put
|}.
End objects.
