(* ===== verification/VmSpaceTables.v ===== *)
(** The page tables of an address space: filling in a region and clearing a range on every machine. *)
From S2P Require Import Prelude Words PageTable PageTableProofs PageTableTheorems RbTree RbSpec VmSpace VmSpaceProofs.

Lemma walked_ext skip f T v n g1 g2 h1 h2 :
  (∀ w, g1 w = h1 w) → (∀ w, g2 w = h2 w) → walked skip f T v n g1 g2 → walked skip f T v n h1 h2.
Proof.
  intros E1 E2 [H1 H2 H3 H4]. split.
  - intros w ??. rewrite <-E1, <-E2. by apply H1.
  - intros w ?. rewrite <-E1, <-E2. by apply H2.
  - intros Hx Hf w Hw. rewrite <-E1, <-E2. by apply H3.
  - intros w ??. rewrite <-E1, <-E2. by apply H4.
Qed.

Section tables.
Context {A K : Type} `{Hp : PageSource A, Hps : !PageSourceSpec A} `{Hk : ObjSource K, Hks : !ObjSourceSpec K}.
Context (CLUSTER_MACHINE_NUM CUR_MACHINE_ID : Z).
Implicit Types (s : vmem A K) (g : pgmem A) (T : gmap (Z * Z) Z) (Ts : list (gmap (Z * Z) Z)) (X : vmspace) (U : gset Z).

Lemma wp_on_pgs {B} (m : M (pgmem A) B) (Q : B → vmem A K → Prop) s : wp m (λ r g, Q r (set_pgs g s)) (pgs s) → wp (on_pgs m) Q s.
Proof. unfold wp, on_pgs. by destruct (m (pgs s)) as [[??]|]. Qed.

Lemma unlock_lock_pgtbl X : pgtbl_lock X = false → set_pgtbl_lock false (set_pgtbl_lock true X) = X.
Proof. destruct X. simpl. by intros ->. Qed.

Lemma wp_get_pgtbl s X i root (Q : Z → vmem A K → Prop) :
  0 ≤ i < CLUSTER_MACHINE_NUM → pgtbl X !! Z.to_nat i = Some root → Q root s → wp (get_vmspace_pgtbl CLUSTER_MACHINE_NUM X i) Q s.
Proof.
  intros Hi E HQ. unfold get_vmspace_pgtbl. rewrite !bool_decide_eq_true_2 by lia. cbn [andb]. by eapply wp_from_opt.
Qed.

(** The permissions that a region gets in the page table *)
Definition fill_perm X (p : pmobject) (r : vmregion) : Z :=
  if has (vm_flags X) VM_FLAG_PRESERVE && negb (is_external_sync_pmo p) then Z.land (vmr_perm r) (Z.lnot VMR_WRITE) else vmr_perm r.

(** In table [i] the pages from [v] on are mapped to the frames from [pa] on, nothing else changes. *)
Definition filled g Ts i v n pa perm g' Ts' : Prop := ∃ T T', Ts !! i = Some T ∧ Ts' = <[i := T']> Ts ∧
  changed (λ w _, new_pte (wrap_u64 (pa + (w - v) * 4096)) perm) v n (entry_of g T) (entry_of g' T') ∧
  ∀ j T2, i ≠ j → Ts !! j = Some T2 → ∀ w, entry_of g' T2 w = entry_of g T2 w.

Lemma wp_fill_page_table s vs X v r p Ts U v0 (Q : Z → vmem A K → Prop) :
  vmspaces s !! vs = Some X → pgtbl_lock X = false → vmrs s !! v = Some r → pmos s !! vmr_pmo r = Some p →
  tables_ok (pgs s) (pgtbl X) Ts U → 0 ≤ CUR_MACHINE_ID < CLUSTER_MACHINE_NUM → CLUSTER_MACHINE_NUM ≤ Z.of_nat (length (pgtbl X)) →
  vmr_start r = v0 * 4096 → 0 ≤ v0 → v0 + page_cnt (pmo_size p) ≤ 510 * 2 ^ 27 → u64 (pmo_start p) → 0 ≤ pmo_size p →
  room (3 * Z.to_nat ((v0 mod 512 + page_cnt (pmo_size p) + 511) / 512)) (src (pgs s)) →
  (∀ g Ts' U', tables_ok g (pgtbl X) Ts' U' → U ⊆ U' →
    filled (pgs s) Ts (Z.to_nat CUR_MACHINE_ID) v0 (page_cnt (pmo_size p)) (pmo_start p) (fill_perm X p r) g Ts' → Q 0 (set_pgs g s)) →
  wp (fill_page_table CLUSTER_MACHINE_NUM CUR_MACHINE_ID vs v) Q s.
Proof.
  intros Es El Ev Ep Htb Hc HN Hv0 H0 Hr Hpa Hsz Hroom HQ. unfold fill_page_table. wp_seq. eapply wp_get_vmr; [done|]. wp_seq.
  unfold get_pmo. wp_seq. eapply wp_from_opt; [done|]. wp_seq. eapply wp_get_space; [done|]. wp_seq. eapply wp_lock_pgtbl; [done|done|]. wp_seq.
  eapply wp_get_space; [apply lookup_insert_eq|]. wp_seq. destruct (lookup_lt_is_Some_2 (pgtbl X) (Z.to_nat CUR_MACHINE_ID)) as [root Hroot]; [lia|].
  eapply wp_get_pgtbl; [done|done|]. wp_seq. destruct (tb_lookup _ _ _ _ _ _ Htb Hroot) as [T HT]. apply wp_on_pgs. rewrite Hv0.
  eapply wp_mono; [eapply (wp_map_range 510 (pgs s) (remove_pcid root) T U); try done; by eapply tb_ok|].
  intros ret g (->&T'&U'&Hok&Ha&Hb&Hch). wp_seq. eapply wp_upd_space; [apply lookup_insert_eq|]. wp_seq.
  change (set_pgs g (with_space vs (set_pgtbl_lock true X) s)) with (with_space vs (set_pgtbl_lock true X) (set_pgs g s)).
  rewrite with_space_twice, unlock_lock_pgtbl, with_space_same by done.
  destruct (tb_update _ _ _ _ _ _ _ _ _ _ Htb Hroot HT Hok Ha Hb) as [Htb' Hoth]. eapply HQ; [done|apply Ha|]. exists T, T'. done.
Qed.

(** An operation on the tables of all machines, which does [P] to the entries of one *)
Lemma wp_each_table s (vs : Z) X Ts U (op : Z → M (pgmem A) Z) (P : gmap (Z * Z) Z → (Z → Z) → (Z → Z) → Prop) (Q : unit → vmem A K → Prop) :
  vmspaces s !! vs = Some X → tables_ok (pgs s) (pgtbl X) Ts U → 0 ≤ CLUSTER_MACHINE_NUM ≤ Z.of_nat (length (pgtbl X)) →
  (∀ T e1 e2 f1 f2, (∀ w, e1 w = f1 w) → (∀ w, e2 w = f2 w) → P T e1 e2 → P T f1 f2) →
  (∀ g root T, pt_ok 510 g (remove_pcid root) T U → wp (op root) (λ _ g', pt_ok 510 g' (remove_pcid root) T U ∧ beside T U g g' ∧
    P T (entry_of g T) (entry_of g' T)) g) →
  (∀ g, tables_ok g (pgtbl X) Ts U →
    (∀ i T, Z.of_nat i < CLUSTER_MACHINE_NUM → Ts !! i = Some T → P T (entry_of (pgs s) T) (entry_of g T)) → Q tt (set_pgs g s)) →
  wp (each_pgtbl CLUSTER_MACHINE_NUM vs (λ table, on_pgs (op table);; mret tt)) Q s.
Proof.
  intros Es Htb HN Hext Hop HQ.
  set (I := λ (i : Z) s', ∃ g, s' = set_pgs g s ∧ tables_ok g (pgtbl X) Ts U ∧
    (∀ j T, Z.of_nat j < i → Ts !! j = Some T → P T (entry_of (pgs s) T) (entry_of g T)) ∧
    (∀ j T, i ≤ Z.of_nat j → Ts !! j = Some T → ∀ w, entry_of g T w = entry_of (pgs s) T w)).
  unfold each_pgtbl. eapply wp_mono; [apply (wp_for_up I)|].
  - exists (pgs s). split_and!; [by destruct s|done|lia|done].
  - intros i s' Hi (g&->&Htb'&Hd&Hn). rewrite Z2Nat.id in Hi by lia. wp_seq. eapply wp_get_space; [exact Es|]. wp_seq.
    destruct (lookup_lt_is_Some_2 (pgtbl X) (Z.to_nat i)) as [root Hroot]; [lia|]. eapply wp_get_pgtbl; [lia|done|].
    destruct (tb_lookup _ _ _ _ _ _ Htb' Hroot) as [T HT]. pose proof (tb_ok _ _ _ _ Htb' _ _ _ Hroot HT) as Hok.
    destruct (walk_guards 510 _ _ _ _ root 0 Hok eq_refl) as [-> _]. cbn [negb]. wp_seq. apply wp_on_pgs.
    eapply wp_mono; [by apply (Hop g root T)|].
    intros r g' (Hok'&Hb&Hw). wp_seq. destruct (tb_update _ _ _ _ _ _ _ _ _ _ Htb' Hroot HT Hok' (added_refl _ _) Hb) as [Htb2 Hoth].
    rewrite list_insert_id in Htb2 by done. exists g'. split_and!; [done|done| |].
    + intros j T2 Hj HT2. destruct (decide (j = Z.to_nat i)) as [->|Hne].
      * simplify_eq. eapply Hext; [by apply (Hn (Z.to_nat i)); [lia|]|done|done].
      * eapply Hext; [done| |apply (Hd j); [lia|done]]. intros w. symmetry. by eapply (Hoth j).
    + intros j T2 Hj HT2 w. rewrite (Hoth j T2) by (done || lia). apply (Hn j); [lia|done].
  - intros [] s' (g&->&Htb'&Hd&_). rewrite Z.add_0_l, Z2Nat.id in Hd by lia. by apply HQ.
Qed.

(** The range is cleared in the tables of all machines. *)
Definition cleared g Ts v n g' : Prop := ∀ i T, Z.of_nat i < CLUSTER_MACHINE_NUM → Ts !! i = Some T →
  walked skip_whole (λ _, 0) T v n (entry_of g T) (entry_of g' T).

Lemma wp_unmap_all s vs X Ts U v len (Q : unit → vmem A K → Prop) :
  vmspaces s !! vs = Some X → pgtbl_lock X = false → tables_ok (pgs s) (pgtbl X) Ts U → 0 ≤ CLUSTER_MACHINE_NUM ≤ Z.of_nat (length (pgtbl X)) →
  0 ≤ v → v + page_cnt len ≤ 510 * 2 ^ 27 →
  (∀ g, tables_ok g (pgtbl X) Ts U → cleared (pgs s) Ts v (page_cnt len) g → Q tt (set_pgs g s)) →
  wp (unmap_all CLUSTER_MACHINE_NUM vs (v * 4096) len) Q s.
Proof.
  intros Es El Htb HN Hv Hr HQ. unfold unmap_all. wp_seq. eapply wp_lock_pgtbl; [done|done|]. wp_seq. set (X1 := set_pgtbl_lock true X).
  eapply (wp_each_table _ _ X1 Ts U (λ table, unmap_range_in_pgtbl table (v * 4096) len)
    (λ T, walked skip_whole (λ _, 0) T v (page_cnt len))); [apply lookup_insert_eq|exact Htb|exact HN| | |].
  - intros T ????. apply walked_ext.
  - intros g root T Hok. eapply wp_mono; [by eapply (wp_unmap_range 510 g (remove_pcid root) T U root v len)|]. by intros r g' (_&_&?&?&?).
  - intros g Htb' Hcl. eapply wp_upd_space; [apply lookup_insert_eq|].
    change (set_pgs g (with_space vs X1 s)) with (with_space vs X1 (set_pgs g s)). rewrite with_space_twice. unfold X1.
    rewrite unlock_lock_pgtbl, with_space_same by done. by apply HQ.
Qed.

(** The pages of the range that are present get the permissions [flags] in the tables of all machines. *)
Definition protected g Ts v n flags g' : Prop := ∀ i T, Z.of_nat i < CLUSTER_MACHINE_NUM → Ts !! i = Some T →
  walked skip_whole (with_flags flags) T v n (entry_of g T) (entry_of g' T).

Lemma wp_mprotect_all s vs X Ts U v len flags (Q : unit → vmem A K → Prop) :
  vmspaces s !! vs = Some X → tables_ok (pgs s) (pgtbl X) Ts U → 0 ≤ CLUSTER_MACHINE_NUM ≤ Z.of_nat (length (pgtbl X)) →
  0 ≤ v → v + page_cnt len ≤ 510 * 2 ^ 27 →
  (∀ g, tables_ok g (pgtbl X) Ts U → protected (pgs s) Ts v (page_cnt len) flags g → Q tt (set_pgs g s)) →
  wp (each_pgtbl CLUSTER_MACHINE_NUM vs (λ table, on_pgs (mprotect_in_pgtbl table (v * 4096) len flags);; mret tt)) Q s.
Proof.
  intros Es Htb HN Hv Hr HQ. eapply (wp_each_table _ _ X Ts U (λ table, mprotect_in_pgtbl table (v * 4096) len flags)
    (λ T, walked skip_whole (with_flags flags) T v (page_cnt len))); [done|done|done| | |done].
  - intros T ????. apply walked_ext.
  - intros g root T Hok. eapply wp_mono; [by eapply (wp_mprotect 510 g (remove_pcid root) T U root v len)|]. by intros r g' (_&?&?&?).
Qed.
End tables.
