(* ===== verification/VmSpaceOps.v ===== *)
(** The operations on address spaces: regions and page tables together. *)
From S2P Require Import Prelude Words PageTable PageTableProofs PageTableTheorems RbTree RbSpec VmSpace VmSpaceProofs VmSpaceTables.

Section ops.
Context {A K : Type} `{Hp : PageSource A, Hps : !PageSourceSpec A} `{Hk : ObjSource K, Hks : !ObjSourceSpec K}.
Context (CLUSTER_MACHINE_NUM CUR_MACHINE_ID : Z).
Implicit Types (s : vmem A K) (g : pgmem A) (T : gmap (Z * Z) Z) (Ts : list (gmap (Z * Z) Z)) (X : vmspace) (L : regions) (U Up : gset Z).

(** The memory objects whose release is put off: their entries are blocks of their own, and they hold references. *)
Record deferred_ok s X L U : Prop := {
  de_count : deferred_pmo_count X = Z.of_nat (length (deferred_pmo_list X));
  de_bound : deferred_pmo_count X < DEFERRED_PMO_MAX;
  de_nodup : NoDup (deferred_pmo_list X).*1;
  de_own e : e ∈ (deferred_pmo_list X).*1 → e ∈ U ∧ e ∉ L.*1;
  de_refs p : p ∈ (deferred_pmo_list X).*2 → is_Some (refs s !! p);
  de_unlocked : deferred_pmo_lock X = false
}.

(** An address space that no operation is working on *)
Record as_ok s (vs : Z) X L U Ts Up : Prop := {
  as_space : space_ok s vs X L U;
  as_tables : tables_ok (pgs s) (pgtbl X) Ts Up;
  as_deferred : deferred_ok s X L U;
  as_unlocked : vmspace_lock X = false ∧ pgtbl_lock X = false;
  as_machines : 0 ≤ CUR_MACHINE_ID < CLUSTER_MACHINE_NUM ∧ CLUSTER_MACHINE_NUM ≤ Z.of_nat (length (pgtbl X))
}.

Lemma as_frame s vs X L U Ts Up s' X' L' U' Ts' Up' :
  as_ok s vs X L U Ts Up → space_ok s' vs X' L' U' → tables_ok (pgs s') (pgtbl X) Ts' Up' → X' = set_vmr_list (vmr_list X') X →
  refs s' = refs s → (∀ e, e ∈ (deferred_pmo_list X).*1 → e ∈ U' ∧ e ∉ L'.*1) → as_ok s' vs X' L' U' Ts' Up'.
Proof.
  intros [? ? [] ? ?] HI Ht E Er Hd. rewrite E in *. destruct X. simpl in *. split; try done. split; try done. by rewrite Er.
Qed.

Lemma unlock_space X l : vmspace_lock X = false → set_vmspace_lock false (set_vmr_list l (set_vmspace_lock true X)) = set_vmr_list l X.
Proof. destruct X. simpl. by intros ->. Qed.
Lemma unlock_space_same X : vmspace_lock X = false → set_vmspace_lock false (set_vmspace_lock true X) = X.
Proof. destruct X. simpl. by intros ->. Qed.

(** ** Mapping *)

(** The region that a request asks for *)
Definition request (vs va len flags pmo : Z) (p : pmobject) : vmregion :=
  VmRegion vs (ROUND_DOWN va PAGE_SIZE) (if bool_decide (len < PAGE_SIZE) then PAGE_SIZE else len)
    (if bool_decide (pmo_type p = PMO_DEVICE) then Z.lor flags VMR_DEVICE
     else if bool_decide (pmo_type p = PMO_DATA_NOCACHE) then Z.lor flags VMR_NOCACHE else flags) pmo.

Definition eager (p : pmobject) : bool := is_continuous_pmo p || bool_decide (pmo_type p = PMO_DEVICE).

(** Insertion under the lock, and its release *)
Lemma wp_add_unlock {B} s vs X L U Ts Up v r (f : Z → M (vmem A K) B) (Q : B → vmem A K → Prop) :
  let r' := placed L r in as_ok s vs X L U Ts Up → loose s v r L U → (v ∉ (deferred_pmo_list X).*1) → vmr_vmspace r = vs → region_ok r' →
  (∀ w q, (w, q) ∈ L → overlaps (vmr_start r') (last_of r') q → ∀ s', s' = with_vmr v r' s →
    as_ok s' vs X L U Ts Up → loose s' v r' L U → wp (f (- EINVAL)) Q s') →
  ((∀ w q, (w, q) ∈ L → ¬ overlaps (vmr_start r') (last_of r') q) →
    ∀ s' L1 L2, L = L1 ++ L2 → as_ok s' vs (set_vmr_list (v :: vmr_list X) X) (L1 ++ (v, r') :: L2) U Ts Up →
    pgs s' = pgs s → pmos s' = pmos s → refs s' = refs s → objs s' = objs s → wp (f 0) Q s') →
  wp (ret ← add_vmr_to_vmspace vs v; write_unlock vs;; f ret) Q (with_space vs (set_vmspace_lock true X) s).
Proof.
  intros r' Has Hl Hv Hvs Hr HQ1 HQ0. pose proof (as_space _ _ _ _ _ _ _ Has) as HI. destruct (as_unlocked _ _ _ _ _ _ _ Has) as [Hu1 Hu2].
  pose proof (as_deferred _ _ _ _ _ _ _ Has) as Hde. pose proof (as_tables _ _ _ _ _ _ _ Has) as Htb. wp_seq. set (X1 := set_vmspace_lock true X).
  pose proof (so_with _ _ _ X1 _ _ HI eq_refl) as HI1. assert (loose (with_space vs X1 s) v r L U) as Hl1 by (destruct Hl; by split).
  eapply wp_add_vmr; [done|done|done|intros w q Hw Ho|intros Hno s' (L1&L2&rb&->&->&HI2&Hon)].
  - wp_seq. eapply wp_upd_space; [apply lookup_insert_eq|].
    change (with_vmr v (placed L r) (with_space vs X1 s)) with (with_space vs X1 (with_vmr v r' s)). rewrite with_space_twice. unfold X1.
    rewrite unlock_space_same, with_space_same by (done || apply HI). pose proof (so_loose _ _ _ _ _ v r' HI (lo_out _ _ _ _ _ Hl)) as HI'.
    eapply HQ1; [done|done|done| |].
    + eapply as_frame; [done|done|done|by destruct X|done|apply Hde].
    + destruct Hl. split; [apply lookup_insert_eq|done..].
  - wp_seq. eapply wp_upd_space; [apply lookup_insert_eq|]. cbv zeta in HI2, Hon. set (s2 := set_rbs rb _) in *.
    pose proof (so_with _ _ _ (set_vmr_list (v :: vmr_list X) X) _ _ HI2 eq_refl) as HI3. unfold X1. rewrite unlock_space by done.
    assert (set_vmspace vs (placed (L1 ++ L2) r) = r') as Er.
    { unfold r', placed. subst vs. destruct r. by case_bool_decide. }
    rewrite Er in HI3. eapply (HQ0 Hno _ L1 L2); [done| |done..].
    eapply as_frame; [done|done|done|done|done|]. intros e He. split; [by apply Hde|]. destruct (de_own _ _ _ _ Hde e He) as [_ Hn].
    rewrite fmap_app in *. simpl. intros [?|[->|?]%elem_of_cons]%elem_of_app; [|done|]; apply Hn; set_solver.
Qed.

Lemma wp_add_locked {B} s vs X L U Ts Up v r (f : Z → M (vmem A K) B) (Q : B → vmem A K → Prop) :
  let r' := placed L r in as_ok s vs X L U Ts Up → loose s v r L U → (v ∉ (deferred_pmo_list X).*1) → vmr_vmspace r = vs → region_ok r' →
  (∀ w q, (w, q) ∈ L → overlaps (vmr_start r') (last_of r') q → ∀ s', s' = with_vmr v r' s →
    as_ok s' vs X L U Ts Up → loose s' v r' L U → wp (f (- EINVAL)) Q s') →
  ((∀ w q, (w, q) ∈ L → ¬ overlaps (vmr_start r') (last_of r') q) →
    ∀ s' L1 L2, L = L1 ++ L2 → as_ok s' vs (set_vmr_list (v :: vmr_list X) X) (L1 ++ (v, r') :: L2) U Ts Up →
    pgs s' = pgs s → pmos s' = pmos s → refs s' = refs s → objs s' = objs s → wp (f 0) Q s') →
  wp (write_lock vs;; ret ← add_vmr_to_vmspace vs v; write_unlock vs;; f ret) Q s.
Proof.
  intros r' Has Hl Hv Hvs Hr HQ1 HQ0. rewrite wp_bind. eapply wp_write_lock; [apply Has|apply Has|]. by eapply wp_add_unlock.
Qed.

(** A new region in memory *)
Lemma as_made s vs X L U Ts Up v k : as_ok s vs X L U Ts Up → (v ∉ U) →
  space_ok (made v (set_objs k s)) vs X L ({[v]} ∪ U) → as_ok (made v (set_objs k s)) vs X L ({[v]} ∪ U) Ts Up.
Proof.
  intros Has Hv HI. eapply as_frame; [done|done|apply Has|by destruct X|done|]. intros e He.
  destruct (de_own _ _ _ _ (as_deferred _ _ _ _ _ _ _ Has) e He). split; [set_solver|done].
Qed.

(** What eager mapping of the memory object [p] at [start] needs *)
Definition can_fill s (p : pmobject) (start : Z) : Prop := ∃ v0, start = v0 * 4096 ∧ 0 ≤ v0 ∧ v0 + page_cnt (pmo_size p) ≤ 510 * 2 ^ 27 ∧
  u64 (pmo_start p) ∧ 0 ≤ pmo_size p ∧ room (3 * Z.to_nat ((v0 mod 512 + page_cnt (pmo_size p) + 511) / 512)) (src (pgs s)).

(** The page tables after mapping the region [r] of the memory object [p] *)
Definition filled_or_same s X (p : pmobject) (r : vmregion) Ts s' Ts' : Prop :=
  if eager p then filled (pgs s) Ts (Z.to_nat CUR_MACHINE_ID) (vmr_start r / 4096) (page_cnt (pmo_size p)) (pmo_start p) (fill_perm X p r) (pgs s') Ts'
  else pgs s' = pgs s ∧ Ts' = Ts.

Lemma wp_eager s vs X L U Ts Up v r p (Q : unit → vmem A K → Prop) :
  as_ok s vs X L U Ts Up → (v, r) ∈ L → pmos s !! vmr_pmo r = Some p → (eager p = true → can_fill s p (vmr_start r)) →
  (∀ g Ts' Up', as_ok (set_pgs g s) vs X L U Ts' Up' → filled_or_same s X p r Ts (set_pgs g s) Ts' → Q tt (set_pgs g s)) →
  wp (when (eager p) (fill_page_table CLUSTER_MACHINE_NUM CUR_MACHINE_ID vs v;; mret tt)) Q s.
Proof.
  intros Has Hv Hpm Hc HQ. pose proof (as_space _ _ _ _ _ _ _ Has) as HI. unfold filled_or_same in HQ. unfold when. destruct (eager p).
  - destruct (Hc eq_refl) as (v0&Ev0&?&?&?&?&?). destruct (so_region _ _ _ _ _ HI v r Hv) as [Er _]. wp_seq.
    destruct (as_machines _ _ _ _ _ _ _ Has). destruct (as_unlocked _ _ _ _ _ _ _ Has).
    eapply (wp_fill_page_table _ _ s vs X v r p Ts Up v0); [apply HI|done|done|done|apply Has|done|done|done|done|done|done|done|done|].
    intros g Ts' Up' Htb _ Hf. wp_seq. eapply HQ; [|rewrite Ev0, Z.div_mul by lia; exact Hf].
    eapply as_frame; [done| |done|by destruct X|done|apply Has]. eapply so_frame; [done|apply HI|done| |done|apply HI].
    intros w Hw. split_and!; [done|done|by apply HI].
  - wp_seq. specialize (HQ (pgs s) Ts Up). replace (set_pgs (pgs s) s) with s in HQ by (by destruct s). by apply HQ.
Qed.

(** The result of [vmspace_map_range] *)
Inductive map_result s vs X L U Ts Up (v : Z) (k : K) (p : pmobject) (r : vmregion) : Z * Z → vmem A K → Prop :=
  | Map_no_memory s' : v = 0 → as_ok s' vs X L U Ts Up → pgs s' = pgs s → map_result s vs X L U Ts Up v k p r (- ENOMEM, 0) s'
  | Map_overlap s' w q : v ≠ 0 → (w, q) ∈ L → overlaps (vmr_start r) (last_of r) q → as_ok s' vs X L U Ts Up → pgs s' = pgs s →
      map_result s vs X L U Ts Up v k p r (- EINVAL, 0) s'
  | Map_done s' L1 L2 Ts' Up' : v ≠ 0 → (∀ w q, (w, q) ∈ L → ¬ overlaps (vmr_start r) (last_of r) q) → L = L1 ++ L2 →
      as_ok s' vs (set_vmr_list (v :: vmr_list X) X) (L1 ++ (v, r) :: L2) ({[v]} ∪ U) Ts' Up' → filled_or_same s X p r Ts s' Ts' →
      refs s' = refs s → pmos s' = pmos s → objs s' = k → map_result s vs X L U Ts Up v k p r (0, v) s'.

Lemma wp_vmspace_map_range s vs X L U Ts Up va len flags pmo p v k :
  let r := placed L (request vs va len flags pmo p) in
  as_ok s vs X L U Ts Up → pmos s !! pmo = Some p → 0 ≤ pmo_type p ≤ PMO_TYPE_NR →
  kmalloc MT_OBJECT sizeof_vmregion (objs s) = Ret (v, k) → region_ok r → (eager p = true → can_fill s p (vmr_start r)) →
  wp (vmspace_map_range CLUSTER_MACHINE_NUM CUR_MACHINE_ID vs va len flags pmo) (map_result s vs X L U Ts Up v k p r) s.
Proof.
  intros r Has Hpm Hty Hkm Hr Hc. pose proof (as_space _ _ _ _ _ _ _ Has) as HI. unfold vmspace_map_range, get_pmo. wp_seq. eapply wp_from_opt; [done|]. wp_seq.
  apply wp_bug_on; [rewrite !bool_decide_eq_false_2 by (unfold PMO_ANONYM in *; lia); done|]. wp_seq. eapply wp_alloc_vmr; [done|done|intros -> HI1|intros Hv0 Hv s1 HI1 Hl1].
  { rewrite bool_decide_eq_true_2 by done. wp_seq. apply Map_no_memory; [done| |done]. eapply as_frame; [done|done|apply Has|by destruct X|done|apply Has]. }
  rewrite bool_decide_eq_false_2 by done. wp_seq. eapply wp_upd_vmr; [apply Hl1|]. set (r0 := VmRegion _ _ _ _ _).
  change r0 with (request vs va len flags pmo p). clear r0. set (r0 := request _ _ _ _ _ _) in *.
  pose proof (as_made _ _ _ _ _ _ _ v k Has Hv HI1) as Has1. fold s1 in Has1.
  assert (as_ok (with_vmr v r0 s1) vs X L ({[v]} ∪ U) Ts Up) as Has2.
  { eapply as_frame; [done|apply so_loose; [done|apply Hl1]|apply Has|by destruct X|done|apply Has1]. }
  assert (loose (with_vmr v r0 s1) v r0 L ({[v]} ∪ U)) as Hl2 by (destruct Hl1; split; [apply lookup_insert_eq|done..]).
  assert (v ∉ (deferred_pmo_list X).*1) as Hnd.
  { intros He. by destruct (de_own _ _ _ _ (as_deferred _ _ _ _ _ _ _ Has) v He). }
  eapply wp_add_locked; [done|done|done|done|exact Hr|intros w q Hw Ho s' -> Has3 Hl3|intros Hno s' L1 L2 EL Has3 Ep Epm Erf Eob]; cbv zeta.
  - rewrite bool_decide_eq_true_2 by done. wp_seq. eapply wp_free_vmr; [apply Has3|done|]. intros k' _ s4 HI4. wp_seq.
    replace (({[v]} ∪ U) ∖ {[v]}) with U in HI4 by set_solver. eapply Map_overlap; [done|done|done| |done].
    eapply as_frame; [done|done|apply Has|by destruct X|done|]. intros e He. by apply (as_deferred _ _ _ _ _ _ _ Has).
  - rewrite bool_decide_eq_false_2 by done. wp_seq. fold (eager p). eapply (wp_eager s' vs _ _ _ Ts Up v r p); [done|set_solver| | |].
    + rewrite Epm. destruct (decide (vmr_start r0 = 0)); unfold r, placed; by case_bool_decide.
    + unfold can_fill. rewrite Ep. done.
    + intros g Ts' Up' Has4 Hf. wp_seq. eapply Map_done; [done|done|done|done| |done..]. unfold filled_or_same in *. rewrite Ep in Hf. done.
Qed.

(** ** Mapping at the cursor *)

Lemma as_cursor s vs X L U Ts Up c : as_ok s vs X L U Ts Up →
  as_ok (with_space vs (set_mmap_addr c X) s) vs (set_mmap_addr c X) L U Ts Up.
Proof. intros [HI Ht [] Hu Hm]. split; try done. by apply (so_with _ _ X). Qed.

Lemma with_comm v r vs X s : with_vmr v r (with_space vs X s) = with_space vs X (with_vmr v r s).
Proof. done. Qed.

Definition anonymous (p : pmobject) : Prop := pmo_type p = PMO_ANONYM ∨ pmo_type p = PMO_SHM ∨ pmo_type p = PMO_FILE.

(** The address space with the cursor behind the new region *)
Definition advanced (len : Z) X : vmspace := set_mmap_addr (wrap_u64 (user_current_mmap_addr X + len)) X.

(** The result of [vmspace_mmap_with_pmo]: also a region that is refused moves the cursor. *)
Inductive mmap_result s vs X L U Ts Up (v len : Z) (r : vmregion) : Z → vmem A K → Prop :=
  | Mmap_no_memory s' : v = 0 → as_ok s' vs X L U Ts Up → mmap_result s vs X L U Ts Up v len r (wrap_u64 (-1)) s'
  | Mmap_overlap s' w q : v ≠ 0 → (w, q) ∈ L → overlaps (vmr_start r) (last_of r) q → as_ok s' vs (advanced len X) L U Ts Up →
      mmap_result s vs X L U Ts Up v len r (wrap_u64 (-1)) s'
  | Mmap_done s' L1 L2 : v ≠ 0 → (∀ w q, (w, q) ∈ L → ¬ overlaps (vmr_start r) (last_of r) q) → L = L1 ++ L2 →
      as_ok s' vs (set_vmr_list (v :: vmr_list X) (advanced len X)) (L1 ++ (v, r) :: L2) ({[v]} ∪ U) Ts Up →
      mmap_result s vs X L U Ts Up v len r (vmr_start r) s'.

Lemma wp_vmspace_mmap s vs X L U Ts Up pmo p len perm v k :
  let r := placed L (VmRegion vs (user_current_mmap_addr X) len perm pmo) in
  as_ok s vs X L U Ts Up → pmos s !! pmo = Some p → anonymous p → len mod PAGE_SIZE = 0 →
  kmalloc MT_OBJECT sizeof_vmregion (objs s) = Ret (v, k) → region_ok r →
  wp (vmspace_mmap_with_pmo vs pmo len perm) (mmap_result s vs X L U Ts Up v len r) s.
Proof.
  intros r Has Hpm Hty Hal Hkm Hr. pose proof (as_space _ _ _ _ _ _ _ Has) as HI. unfold vmspace_mmap_with_pmo. wp_seq.
  eapply wp_alloc_vmr; [done|done|intros -> HI1|intros Hv0 Hv s1 HI1 Hl1].
  { rewrite bool_decide_eq_true_2 by done. wp_seq. apply Mmap_no_memory; [done|]. eapply as_frame; [done|done|apply Has|by destruct X|done|apply Has]. }
  rewrite bool_decide_eq_false_2 by done. pose proof (as_made _ _ _ _ _ _ _ v k Has Hv HI1) as Has1. fold s1 in Has1.
  destruct (as_unlocked _ _ _ _ _ _ _ Has) as [Hu1 _]. set (r0 := VmRegion vs (user_current_mmap_addr X) len perm pmo) in *.
  rewrite wp_bind. eapply wp_upd_vmr; [apply Hl1|]. rewrite wp_bind. eapply wp_write_lock; [apply HI1|done|]. rewrite wp_bind.
  eapply wp_get_space; [apply lookup_insert_eq|]. rewrite wp_bind. eapply wp_upd_vmr; [apply lookup_insert_eq|]. rewrite wp_bind.
  apply wp_bug_on; [by rewrite bool_decide_eq_true_2|]. rewrite wp_bind. eapply wp_upd_space; [apply lookup_insert_eq|]. rewrite wp_bind.
  eapply wp_upd_vmr; [apply lookup_insert_eq|]. rewrite wp_bind. eapply wp_upd_vmr; [apply lookup_insert_eq|]. unfold get_pmo. rewrite wp_bind. wp_seq.
  eapply wp_from_opt; [done|]. rewrite wp_bind. apply wp_bug_on.
  { destruct Hty as [->|[->| ->]]; done. }
  rewrite wp_bind. eapply wp_upd_vmr; [apply lookup_insert_eq|]. set (s2 := with_vmr _ _ _).
  assert (s2 = with_space vs (set_vmspace_lock true (advanced len X)) (with_vmr v r0 (with_space vs (advanced len X) s1))) as ->.
  { unfold s2. rewrite !with_comm, !with_vmr_twice, !with_space_twice. done. }
  pose proof (as_cursor _ _ _ _ _ _ _ (wrap_u64 (user_current_mmap_addr X + len)) Has1) as Has2. fold (advanced len X) in Has2.
  assert (as_ok (with_vmr v r0 (with_space vs (advanced len X) s1)) vs (advanced len X) L ({[v]} ∪ U) Ts Up) as Has3.
  { eapply as_frame; [exact Has2|apply so_loose; [apply Has2|apply Hl1]|apply Has2|by destruct X|done|apply Has1]. }
  assert (v ∉ (deferred_pmo_list X).*1) as Hnd by (intros He; by destruct (de_own _ _ _ _ (as_deferred _ _ _ _ _ _ _ Has) v He)).
  assert (loose (with_vmr v r0 (with_space vs (advanced len X) s1)) v r0 L ({[v]} ∪ U)) as Hl2 by (destruct Hl1; split; [apply lookup_insert_eq|done..]).
  eapply wp_add_unlock; [exact Has3|exact Hl2|done|done|exact Hr|intros w q Hw Ho s' -> Has4 Hl4|intros Hno s' L1 L2 EL Has4 _ _ _ _]; cbv zeta.
  - rewrite bool_decide_eq_true_2 by done. wp_seq. eapply wp_free_vmr; [apply Has4|exact Hl4|]. intros k' _ s4 HI4. wp_seq.
    replace (({[v]} ∪ U) ∖ {[v]}) with U in HI4 by set_solver. eapply Mmap_overlap; [done|done|done|].
    eapply as_frame; [exact Has4|exact HI4|apply Has4|by destruct X|done|]. intros e He. by apply (as_deferred _ _ _ _ _ _ _ Has).
  - rewrite bool_decide_eq_false_2 by done. wp_seq. eapply wp_get_vmr; [apply (so_region _ _ _ _ _ (as_space _ _ _ _ _ _ _ Has4) v r); set_solver|]. wp_seq. by eapply Mmap_done.
Qed.
End ops.
