(* ===== verification/VmSpaceUnmap.v ===== *)
(** Unmapping: removal of a region, and the memory objects whose release is put off. *)
From S2P Require Import Prelude Words PageTable PageTableProofs PageTableTheorems RbTree RbSpec VmSpace VmSpaceProofs VmSpaceTables VmSpaceOps.

(** How often the memory object [p] is in the list of deferred releases *)
Definition count (p : Z) (l : list (Z * Z)) : Z := Z.of_nat (length (filter (λ e, e.2 = p) l)).
Lemma count_cons p a l : count p (a :: l) = (if decide (a.2 = p) then 1 else 0) + count p l.
Proof. unfold count. rewrite filter_cons. destruct (decide (a.2 = p)); simpl; lia. Qed.
Lemma count_app p l l' : count p (l ++ l') = count p l + count p l'.
Proof. unfold count. rewrite filter_app, length_app. lia. Qed.

Section unmap.
Context {A K : Type} `{Hp : PageSource A, Hps : !PageSourceSpec A} `{Hk : ObjSource K, Hks : !ObjSourceSpec K}.
Context (CLUSTER_MACHINE_NUM CUR_MACHINE_ID : Z).
Implicit Types (s : vmem A K) (g : pgmem A) (Ts : list (gmap (Z * Z) Z)) (X : vmspace) (L : regions) (U Up : gset Z).
Abbreviation as_ok := (as_ok CLUSTER_MACHINE_NUM CUR_MACHINE_ID).

(** ** Removal *)

(** Nothing but the regions changes, and the memory of [v] is free. *)
Definition freed_only (v : Z) s s' : Prop :=
  pgs s' = pgs s ∧ pmos s' = pmos s ∧ refs s' = refs s ∧ released s' = released s ∧ kfree v (objs s) = Ret (tt, objs s').

Definition without (v : Z) X : vmspace := set_vmr_list (filter (λ w, w ≠ v) (vmr_list X)) X.

(** Removal under the lock *)
Lemma wp_del_unlock {B} s vs X L1 L2 U Ts Up v r (f : M (vmem A K) B) (Q : B → vmem A K → Prop) :
  as_ok s vs X (L1 ++ (v, r) :: L2) U Ts Up →
  (∀ s', as_ok s' vs (without v X) (L1 ++ L2) (U ∖ {[v]}) Ts Up → freed_only v s s' → wp f Q s') →
  wp (del_vmr_from_vmspace vs v;; write_unlock vs;; f) Q (with_space vs (set_vmspace_lock true X) s).
Proof.
  intros Has HQ. pose proof (as_space _ _ _ _ _ _ _ _ _ Has) as HI. destruct (as_unlocked _ _ _ _ _ _ _ _ _ Has) as [Hu1 Hu2].
  pose proof (as_deferred _ _ _ _ _ _ _ _ _ Has) as Hde. pose proof (as_tables _ _ _ _ _ _ _ _ _ Has) as Htb.
  pose proof (so_with _ _ _ (set_vmspace_lock true X) _ _ HI eq_refl) as HI1. unfold del_vmr_from_vmspace. wp_seq.
  eapply wp_remove_vmr; [done|]. intros s1 (rb&Es1&HI2&Hl2&_). cbv zeta in *. wp_seq. eapply wp_free_vmr; [done|done|]. intros k Ek s2 HI3. wp_seq.
  eapply wp_upd_space; [apply HI3|]. wp_seq.
  assert (set_vmspace_lock false (set_vmr_list (filter (λ w, w ≠ v) (vmr_list (set_vmspace_lock true X))) (set_vmspace_lock true X)) = without v X) as ->.
  { unfold without. destruct X. simpl in *. by subst. }
  pose proof (so_with _ _ _ (without v X) _ _ HI3 eq_refl) as HI4. subst s1. apply HQ; [|by split_and!].
  eapply as_frame; [done|done|done|done|done|]. intros e He. destruct (de_own _ _ _ _ Hde e He) as [? Hn].
  rewrite fmap_app, fmap_cons in Hn. rewrite fmap_app. simpl in Hn. set_solver.
Qed.

(** ** Deferred releases *)

Lemma wp_put p n s (Q : unit → vmem A K → Prop) : refs s !! p = Some n →
  (∀ R, (∀ q, q ∈ R → q = p ∧ n = 1) → Q tt (set_released (R ++ released s) (set_refs (<[p := n - 1]> (refs s)) s))) → wp (obj_put p) Q s.
Proof.
  intros E HQ. unfold obj_put. wp_seq. eapply wp_from_opt; [done|]. wp_seq. unfold when. case_bool_decide.
  - apply (HQ [p]). set_solver.
  - specialize (HQ []). destruct s. apply HQ. set_solver.
Qed.

Lemma wp_on_objs {B} (m : M K B) (Q : B → vmem A K → Prop) s : wp m (λ r k, Q r (set_objs k s)) (objs s) → wp (on_objs m) Q s.
Proof. unfold wp, on_objs. by destruct (m (objs s)) as [[??]|]. Qed.

(** The entries of a list are freed, in order. *)
Fixpoint frees (l : list Z) : M K unit := match l with [] => mret tt | e :: l' => kfree e;; frees l' end.

Lemma wp_drain_deferred l : ∀ s U (Q : unit → vmem A K → Prop),
  os_inv (objs s) U → NoDup l.*1 → (∀ e, e ∈ l.*1 → e ∈ U) → (∀ p, p ∈ l.*2 → is_Some (refs s !! p)) →
  (∀ k m R, frees l.*1 (objs s) = Ret (tt, k) → os_inv k (U ∖ list_to_set l.*1) → (∀ p, m !! p = (λ n, n - count p l) <$> refs s !! p) →
    (∀ p, p ∈ R → ∃ n, m !! p = Some n ∧ n ≤ 0) → Q tt (set_released (R ++ released s) (set_refs m (set_objs k s)))) →
  wp (drain_deferred l) Q s.
Proof.
  induction l as [|[e p] l IH]; intros s U Q Hos Hnd HU Hr HQ; cbn [drain_deferred]; wp_seq.
  { specialize (HQ (objs s) (refs s) []). destruct s. apply HQ; [done| |intros p; simpl|set_solver].
    - simpl. by replace (U ∖ ∅) with U by set_solver.
    - unfold count. simpl. destruct (_ !! p); [|done]. simpl. f_equal. lia. }
  apply NoDup_cons in Hnd as [Hne Hnd]. destruct (Hr p) as [n Hn]; [set_solver|]. eapply wp_put; [done|]. intros R HR. wp_seq.
  apply wp_on_objs. destruct (wp_inv _ _ _ (os_put _ _ e Hos ltac:(set_solver))) as ([]&k&Ek&Hk1). eapply wp_intro; [exact Ek|]. wp_seq.
  eapply (IH _ (U ∖ {[e]})); [done|done|set_solver| |].
  { intros q Hq. simpl. destruct (decide (p = q)) as [->|]; [by rewrite lookup_insert_eq|rewrite lookup_insert_ne by done; set_solver]. }
  intros k' m R' Ek' Hk2 Hm HR'. simpl in *. rewrite app_assoc. eapply (HQ k' m (R' ++ R)).
  - unfold mbind, M_bind. by rewrite Ek.
  - by rewrite <-difference_difference_l_L.
  - intros q. rewrite Hm, count_cons. simpl. destruct (decide (p = q)) as [->|].
    + rewrite lookup_insert_eq, Hn. simpl. f_equal. lia.
    + rewrite lookup_insert_ne by done. destruct (refs s !! q); [|done]. simpl. f_equal.
  - intros q [Hq|Hq]%elem_of_app; [by apply HR'|]. destruct (HR q Hq) as [-> ->]. rewrite Hm, lookup_insert_eq. simpl. eexists. split; [done|]. unfold count. lia.
Qed.

(** The list of deferred releases with [pmo] added by the entry [e], emptied when it is full *)
Definition with_deferred (e pmo : Z) (l : list (Z * Z)) : list (Z * Z) :=
  if bool_decide (e = 0) then l else if bool_decide (Z.of_nat (length l) + 1 < DEFERRED_PMO_MAX) then l ++ [(e, pmo)] else [].

(** The entries of that list that are freed: all of them when it is full *)
Definition drained (e pmo : Z) (l : list (Z * Z)) : list Z :=
  if bool_decide (e = 0) then [] else if bool_decide (Z.of_nat (length l) + 1 < DEFERRED_PMO_MAX) then [] else (l ++ [(e, pmo)]).*1.

(** Each reference is held by the list or released; without an entry the reference stays.  [k] is the allocator after the entry was asked for; the
    entries of a full list are freed. *)
Record deferral s X (pmo e : Z) (k : K) s' X' : Prop := {
  df_objs : frees (drained e pmo (deferred_pmo_list X)) k = Ret (tt, objs s');
  df_space : X' = set_deferred (with_deferred e pmo (deferred_pmo_list X)) (Z.of_nat (length (with_deferred e pmo (deferred_pmo_list X)))) X;
  df_refs p n : refs s !! p = Some n → ∃ n', refs s' !! p = Some n' ∧
    n' - count p (deferred_pmo_list X') = n - count p (deferred_pmo_list X) + (if decide (e = 0 ∧ p = pmo) then 1 else 0);
  df_released : ∃ R, released s' = R ++ released s ∧ ∀ p, p ∈ R → ∃ n, refs s' !! p = Some n ∧ n ≤ 0
}.

Lemma deferral_from s0 s X pmo e k s' X' : refs s = refs s0 → released s = released s0 → deferral s X pmo e k s' X' → deferral s0 X pmo e k s' X'.
Proof. intros Er El []. split; [done|done|by rewrite <-Er|by rewrite <-El]. Qed.

Lemma as_deferring s vs X L U Ts Up s' l n U' : as_ok s vs X L U Ts Up →
  vmspaces s' !! vs = Some (set_deferred l n X) → vmrs s' = vmrs s → rbs s' = rbs s → pgs s' = pgs s → os_inv (objs s') U' →
  (∀ v, v ∈ L.*1 → v ∈ U') → deferred_ok s' (set_deferred l n X) L U' → as_ok s' vs (set_deferred l n X) L U' Ts Up.
Proof.
  intros [HI Ht _ Hu Hm] Es Ev Er Ep Hos HU Hde. split; try done; [|by rewrite Ep].
  eapply so_frame; [done|done|done| |by rewrite Er|done]. intros v Hv. rewrite Ev, Er. auto.
Qed.

Lemma deferred_same_refs s X L U s' : deferred_ok s X L U → (∀ p, is_Some (refs s !! p) → is_Some (refs s' !! p)) → deferred_ok s' X L U.
Proof. intros [] ?. split; auto. Qed.

Lemma wp_lock_deferred s vs X (Q : unit → vmem A K → Prop) :
  vmspaces s !! vs = Some X → deferred_pmo_lock X = false → Q tt (with_space vs (set_deferred_pmo_lock true X) s) → wp (lock_deferred vs) Q s.
Proof. intros E El HQ. unfold lock_deferred. wp_seq. eapply wp_get_space; [done|]. rewrite El. by eapply wp_upd_space. Qed.

(** The list after the step under its lock, and what is drained *)
Lemma wp_append_deferred {B} s vs X e pmo (f : list (Z * Z) → M (vmem A K) B) (Q : B → vmem A K → Prop) :
  vmspaces s !! vs = Some X → deferred_pmo_lock X = false → deferred_pmo_count X = Z.of_nat (length (deferred_pmo_list X)) → e ≠ 0 →
  (let l := deferred_pmo_list X in let l' := with_deferred e pmo l in
   wp (f (if bool_decide (Z.of_nat (length l) + 1 < DEFERRED_PMO_MAX) then [] else l ++ [(e, pmo)])) Q
     (with_space vs (set_deferred l' (Z.of_nat (length l')) X) s)) →
  wp (lock_deferred vs;;
      upd_space vs (λ X, set_deferred (deferred_pmo_list X ++ [(e, pmo)]) (deferred_pmo_count X + 1) X);;
      X ← get_space vs;
      let overflow := bool_decide (deferred_pmo_count X >= DEFERRED_PMO_MAX) in
      let drain := if overflow then deferred_pmo_list X else [] in
      when overflow (upd_space vs (set_deferred [] 0));;
      unlock_deferred vs;;
      f drain) Q s.
Proof.
  intros Es El Ec He HQ. cbv zeta in HQ. wp_seq. eapply wp_lock_deferred; [done|done|]. wp_seq. eapply wp_upd_space; [apply lookup_insert_eq|].
  rewrite with_space_twice. wp_seq. eapply wp_get_space; [apply lookup_insert_eq|]. cbv zeta. cbn [set_deferred set_deferred_pmo_lock deferred_pmo_count deferred_pmo_list].
  unfold with_deferred in HQ. rewrite (bool_decide_eq_false_2 (e = 0)) in HQ by done. rewrite Ec. wp_seq.
  destruct (decide (Z.of_nat (length (deferred_pmo_list X)) + 1 < DEFERRED_PMO_MAX)).
  - rewrite !bool_decide_eq_true_2 in HQ by done. rewrite !bool_decide_eq_false_2 by lia. unfold when. wp_seq.
    eapply wp_upd_space; [apply lookup_insert_eq|].
    rewrite with_space_twice. wp_seq. rewrite length_app in HQ. simpl in HQ. rewrite Nat2Z.inj_add in HQ. destruct X. simpl in *. subst. exact HQ.
  - rewrite !bool_decide_eq_false_2 in HQ by done. rewrite !bool_decide_eq_true_2 by lia. unfold when. wp_seq. eapply wp_upd_space; [apply lookup_insert_eq|].
    rewrite with_space_twice. wp_seq. eapply wp_upd_space; [apply lookup_insert_eq|]. rewrite with_space_twice. wp_seq. destruct X. simpl in *. subst. exact HQ.
Qed.

Definition entry_type X : mem_type := if vmspace_is_multi_machine X then MT_SHARED else MT_DEFAULT.

Lemma refs_up s p n q m : refs s !! p = Some n → refs s !! q = Some m →
  <[p := n + 1]> (refs s) !! q = Some (m + (if decide (q = p) then 1 else 0)).
Proof.
  intros Ep Eq. destruct (decide (q = p)) as [->|]; [rewrite lookup_insert_eq; by simplify_eq|].
  rewrite lookup_insert_ne by done. by rewrite Z.add_0_r.
Qed.

Lemma with_deferred_cases e pmo l : e ≠ 0 →
  (with_deferred e pmo l = l ++ [(e, pmo)] ∧ Z.of_nat (length l) + 1 < DEFERRED_PMO_MAX) ∨
  (with_deferred e pmo l = [] ∧ ¬ Z.of_nat (length l) + 1 < DEFERRED_PMO_MAX).
Proof. intros He. unfold with_deferred. rewrite (bool_decide_eq_false_2 (e = 0)) by done. case_bool_decide; auto. Qed.

(** The list after an entry was added still holds what it says. *)
Lemma deferred_added s X L U s' e pmo n : deferred_ok s X L U → (e ∉ U) → (∀ v, v ∈ L.*1 → v ∈ U) → e ≠ 0 →
  refs s !! pmo = Some n → refs s' = <[pmo := n + 1]> (refs s) → Z.of_nat (length (deferred_pmo_list X)) + 1 < DEFERRED_PMO_MAX →
  deferred_ok s' (set_deferred (deferred_pmo_list X ++ [(e, pmo)]) (Z.of_nat (length (deferred_pmo_list X ++ [(e, pmo)]))) X) L ({[e]} ∪ U).
Proof.
  intros [Hc Hb Hn Ho Hr Hl] He HL H0 Hpm Er Hlt. split; simpl; try done.
  - rewrite length_app. simpl. lia.
  - rewrite fmap_app. apply NoDup_app. split_and!; [done|set_solver|apply NoDup_singleton].
  - intros x. rewrite fmap_app, elem_of_app. simpl. intros [Hx|Hx]; [destruct (Ho x Hx); set_solver|].
    apply list_elem_of_singleton in Hx as ->. split; [set_solver|]. intros Hx. by apply He, HL.
  - intros q. rewrite fmap_app, elem_of_app. simpl. intros Hq. rewrite Er. destruct (decide (pmo = q)) as [->|]; [by rewrite lookup_insert_eq|].
    rewrite lookup_insert_ne by done. destruct Hq as [|Hq]; [auto|]. by apply list_elem_of_singleton in Hq as ->.
Qed.

Lemma deferred_none s X L U s' U' : deferred_ok s X L U → deferred_ok s' (set_deferred [] 0 X) L U'.
Proof. intros [_ _ _ _ _ Hl]. split; [done|done|apply NoDup_nil_2|by intros ? ?%elem_of_nil|by intros ? ?%elem_of_nil|exact Hl]. Qed.

(** The full list is drained. *)
Lemma wp_drain_full s vs X L U Ts Up pmo n e s1 (Q : unit → vmem A K → Prop) : let l := deferred_pmo_list X in
  as_ok s vs X L U Ts Up → refs s !! pmo = Some n → e ≠ 0 → (e ∉ U) → with_deferred e pmo l = [] → os_inv (objs s1) ({[e]} ∪ U) →
  refs s1 = <[pmo := n + 1]> (refs s) → s1 = with_space vs (set_deferred [] 0 X) (set_refs (refs s1) (set_objs (objs s1) s)) →
  drained e pmo l = (l ++ [(e, pmo)]).*1 →
  (∀ s' X' U', deferral s X pmo e (objs s1) s' X' → as_ok s' vs X' L U' Ts Up → pgs s' = pgs s → Q tt s') → wp (drain_deferred (l ++ [(e, pmo)])) Q s1.
Proof.
  intros l Has Hn He Hni El Hos Er Es Edr HQ. pose proof (as_space _ _ _ _ _ _ _ _ _ Has) as HI. pose proof (as_deferred _ _ _ _ _ _ _ _ _ Has) as Hde.
  assert (∀ q m, refs s !! q = Some m → refs s1 !! q = Some (m + (if decide (q = pmo) then 1 else 0))) as Hup by (intros; rewrite Er; by apply refs_up).
  assert (∀ x, x ∈ (l ++ [(e, pmo)]).*1 → x = e ∨ (x ∈ U ∧ x ∉ L.*1)) as Hx.
  { intros x. rewrite fmap_app, elem_of_app. intros [?|?%list_elem_of_singleton]; [right; by apply Hde|by left]. }
  eapply (wp_drain_deferred _ _ ({[e]} ∪ U)); [done| | | |].
  - rewrite fmap_app. apply NoDup_app. split_and!; [apply Hde| |apply NoDup_singleton]. intros x [? _]%(de_own _ _ _ _ Hde) Hx'.
    apply list_elem_of_singleton in Hx' as ->. done.
  - intros x [->|[? _]]%Hx; [by apply elem_of_union_l, elem_of_singleton|by apply elem_of_union_r].
  - intros p. rewrite fmap_app, elem_of_app. intros [Hp1|Hp1%list_elem_of_singleton].
    + destruct (de_refs _ _ _ _ Hde p Hp1) as [m Hm]. eexists. by apply Hup.
    + subst p. eexists. by apply Hup.
  - intros k' m R Ek Hk' Hm HR. rewrite Es. eapply (HQ _ (set_deferred [] 0 X)); [split; [by fold l; rewrite Edr|by fold l; rewrite El| |by exists R]| |done].
    + intros p m0 Hm0. exists (m0 + (if decide (p = pmo) then 1 else 0) - count p (l ++ [(e, pmo)])). split; [simpl; by rewrite Hm, (Hup _ _ Hm0)|].
      cbn [set_deferred deferred_pmo_list]. fold l. rewrite count_app, count_cons. change (count p []) with 0. simpl.
      destruct (decide (p = pmo)), (decide (pmo = p)), (decide (e = 0 ∧ p = pmo)); naive_solver lia.
    + eapply as_deferring; [done|apply lookup_insert_eq|done|done|done|done| |by eapply deferred_none].
      intros v Hv. apply elem_of_difference. split; [apply elem_of_union_r; by apply HI|]. intros [->|[_ ?]]%elem_of_list_to_set%Hx; [|done].
      apply Hni. by apply HI.
Qed.

Lemma wp_defer s vs X L U Ts Up pmo n e k (Q : unit → vmem A K → Prop) :
  as_ok s vs X L U Ts Up → refs s !! pmo = Some n → kmalloc (entry_type X) sizeof_deferred_pmo (objs s) = Ret (e, k) →
  (∀ s' X' U', deferral s X pmo e k s' X' → as_ok s' vs X' L U' Ts Up → pgs s' = pgs s → Q tt s') → wp (defer_pmo_reclaim vs pmo) Q s.
Proof.
  intros Has Hn Hkm HQ. pose proof (as_space _ _ _ _ _ _ _ _ _ Has) as HI. pose proof (as_deferred _ _ _ _ _ _ _ _ _ Has) as Hde.
  pose proof (os_get _ _ (entry_type X) sizeof_deferred_pmo (so_objs _ _ _ _ _ HI) ltac:(done)) as Hg. rewrite Hkm in Hg.
  unfold defer_pmo_reclaim. wp_seq. eapply wp_get_space; [apply HI|]. wp_seq. apply wp_on_objs. fold (entry_type X).
  eapply wp_intro; [done|]. wp_seq. unfold obj_ref. wp_seq. eapply wp_from_opt; [done|]. wp_seq.
  set (s1 := set_refs _ _). assert (∀ q m, refs s !! q = Some m → refs s1 !! q = Some (m + (if decide (q = pmo) then 1 else 0))) as Hup by (intros; by apply refs_up).
  destruct (decide (e = 0)) as [->|He].
  - rewrite bool_decide_eq_true_2 by done. wp_seq. destruct Hg as [[_ Hg]|[Hni Hg]]; [|destruct (os_addr _ _ 0 Hg); [set_solver|lia]].
    assert (X = set_deferred (deferred_pmo_list X) (Z.of_nat (length (deferred_pmo_list X))) X) as EX by (rewrite <-(de_count _ _ _ _ Hde); by destruct X).
    eapply (HQ s1 X U); [split| |done].
    + done.
    + exact EX.
    + intros p m Hm. eexists. split; [by apply Hup|]. destruct (decide (p = pmo)), (decide (0 = 0 ∧ p = pmo)); naive_solver lia.
    + exists []. set_solver.
    + rewrite EX at 1. eapply as_deferring; [done|by rewrite <-EX; apply HI|done|done|done|done|apply HI|]. rewrite <-EX.
      eapply deferred_same_refs; [done|]. intros p [m Hm]. by rewrite (Hup _ _ Hm).
  - rewrite bool_decide_eq_false_2 by done. destruct Hg as [[? _]|[Hni Hg]]; [done|].
    eapply wp_append_deferred; [apply HI|apply Hde|apply Hde|done|]. cbv zeta. set (l := deferred_pmo_list X) in *.
    destruct (with_deferred_cases e pmo l He) as [[El Hlt]|[El Hlt]].
    + rewrite El, bool_decide_eq_true_2 by done. wp_seq. eapply (HQ _ _ ({[e]} ∪ U)); [split; [| by fold l; rewrite El| |by exists []; set_solver]| |done].
      * unfold drained. fold l. by rewrite bool_decide_eq_false_2, bool_decide_eq_true_2 by done.
      * intros p m Hm. eexists. split; [by apply Hup|]. cbn [set_deferred deferred_pmo_list]. fold l. rewrite count_app, count_cons. change (count p []) with 0. simpl.
        destruct (decide (p = pmo)), (decide (pmo = p)), (decide (e = 0 ∧ p = pmo)); naive_solver lia.
      * eapply as_deferring; [done|apply lookup_insert_eq|done|done|done|done| |by eapply deferred_added; [done|done|apply HI|done..]].
        intros v Hv. apply elem_of_union_r. by apply HI.
    + rewrite El, bool_decide_eq_false_2 by done. eapply wp_drain_full; try done.
      unfold drained. by rewrite !bool_decide_eq_false_2 by done.
Qed.

(** ** Unmapping a range *)

(** The release of the memory object is put off when other machines may still have it in their TLB; [k] is the allocator without the
    region. *)
Definition kept_back s X (pmo : Z) (k : K) s' X' : Prop :=
  if vmspace_is_multi_machine X
  then ∃ e k', kmalloc MT_SHARED sizeof_deferred_pmo k = Ret (e, k') ∧ deferral s X pmo e k' s' X'
  else X' = X ∧ refs s' = refs s ∧ released s' = released s ∧ objs s' = k.

Inductive unmap_result s vs X L Ts Up (va len : Z) : Z → vmem A K → Prop :=
  | Unmap_missing : (∀ v r, (v, r) ∈ L → ¬ overlaps va va r) → unmap_result s vs X L Ts Up va len (-1) (with_space vs (set_vmspace_lock true X) s)
  | Unmap_done s' X' L1 L2 U' v r k : L = L1 ++ (v, r) :: L2 → overlaps va va r → as_ok s' vs X' (L1 ++ L2) U' Ts Up →
      cleared CLUSTER_MACHINE_NUM (pgs s) Ts (va / 4096) (page_cnt len) (pgs s') →
      kfree v (objs s) = Ret (tt, k) → kept_back s (without v X) (vmr_pmo r) k s' X' →
      unmap_result s vs X L Ts Up va len 0 s'.

Lemma as_tables_changed s vs X L U Ts Up g : as_ok s vs X L U Ts Up → tables_ok g (pgtbl X) Ts Up → as_ok (set_pgs g s) vs X L U Ts Up.
Proof.
  intros Has Htb. pose proof (as_space _ _ _ _ _ _ _ _ _ Has) as HI. eapply as_frame; [done| |done|by destruct X|done|apply Has].
  eapply so_frame; [done|apply HI|done| |done|apply HI]. intros w Hw. split_and!; [done|done|by apply HI].
Qed.

Lemma kept_back_from s0 s X pmo k s' X' : refs s = refs s0 → released s = released s0 → kept_back s X pmo k s' X' → kept_back s0 X pmo k s' X'.
Proof.
  unfold kept_back. intros Er El. destruct (vmspace_is_multi_machine X); [|by rewrite Er, El]. intros (e&k'&Ek&He). exists e, k'. split; [done|]. by eapply deferral_from.
Qed.

Lemma wp_kept_back {B} s vs X L U Ts Up pmo (f : M (vmem A K) B) (Q : B → vmem A K → Prop) :
  as_ok s vs X L U Ts Up → is_Some (refs s !! pmo) → (vmspace_is_multi_machine X = true → ∃ e k, kmalloc MT_SHARED sizeof_deferred_pmo (objs s) = Ret (e, k)) →
  (∀ s' X' U', kept_back s X pmo (objs s) s' X' → as_ok s' vs X' L U' Ts Up → pgs s' = pgs s → wp f Q s') →
  wp (X ← get_space vs; when (vmspace_is_multi_machine X) (defer_pmo_reclaim vs pmo);; f) Q s.
Proof.
  intros Has [n Hn] Hans HQ. pose proof (as_space _ _ _ _ _ _ _ _ _ Has) as HI. wp_seq. eapply wp_get_space; [apply HI|]. wp_seq.
  unfold kept_back in HQ. unfold when. destruct (vmspace_is_multi_machine X) eqn:Em.
  - destruct (Hans eq_refl) as (e&k&Ek). eapply wp_defer; [done|done|unfold entry_type; rewrite Em; done|].
    intros s' X' U' Hd Has' Ep. eapply HQ; [by exists e, k|done|done].
  - wp_seq. by eapply HQ.
Qed.

Lemma wp_vmspace_unmap_range s vs X L U Ts Up v0 len :
  as_ok s vs X L U Ts Up → 0 ≤ v0 → v0 + page_cnt len ≤ 510 * 2 ^ 27 → len ≠ 0 →
  (∀ v r, (v, r) ∈ L → overlaps (v0 * 4096) (v0 * 4096) r →
    vmr_start r = v0 * 4096 ∧ vmr_size r = len ∧ vmr_pmo r ≠ 0 ∧ is_Some (refs s !! vmr_pmo r) ∧
    (vmspace_is_multi_machine X = true → ∃ k e k', kfree v (objs s) = Ret (tt, k) ∧ kmalloc MT_SHARED sizeof_deferred_pmo k = Ret (e, k'))) →
  wp (vmspace_unmap_range CLUSTER_MACHINE_NUM vs (v0 * 4096) len) (unmap_result s vs X L Ts Up (v0 * 4096) len) s.
Proof.
  intros Has H0 H1 H2 Hreg. pose proof (as_space _ _ _ _ _ _ _ _ _ Has) as HI. destruct (as_unlocked _ _ _ _ _ _ _ _ _ Has) as [Hu1 Hu2].
  destruct (as_machines _ _ _ _ _ _ _ _ _ Has) as [Hm1 Hm2].
  unfold vmspace_unmap_range. wp_seq. eapply wp_write_lock; [apply HI|done|]. wp_seq. pose proof (so_with _ _ _ (set_vmspace_lock true X) _ _ HI eq_refl) as HI1.
  eapply wp_mono; [by eapply wp_find_vmr_for_va|]. intros v s' [-> [[-> Hno]|(Hv0&r&Hv&Hov)]].
  { rewrite bool_decide_eq_true_2 by done. wp_seq. by apply Unmap_missing. }
  rewrite bool_decide_eq_false_2 by done. destruct (Hreg v r Hv Hov) as (Est&Esz&Hpm&Hrf&Hans). wp_seq. eapply wp_get_vmr; [by apply HI1|].
  cbv zeta. rewrite Est, Esz. wp_seq. apply wp_bug_on; [by rewrite !bool_decide_eq_true_2 by done|]. cbv beta.
  apply list_elem_of_split in Hv as (L1&L2&->). eapply wp_del_unlock; [done|]. intros s1 Has1 (Ep1&_&Er1&El1&Ek1).
  pose proof (as_space _ _ _ _ _ _ _ _ _ Has1) as HI2. rewrite !bool_decide_eq_false_2 by done. unfold when at 1. cbn [negb]. rewrite wp_bind.
  eapply wp_unmap_all; [apply HI2|apply Has1|apply Has1|simpl; lia|done|done|]. intros g Htb Hcl.
  eapply wp_kept_back; [by apply as_tables_changed|simpl; by rewrite Er1| |].
  { intros Em. destruct (Hans Em) as (k&e&k'&Ek&?). rewrite Ek1 in Ek. injection Ek as <-. by exists e, k'. }
  intros s2 X2 U2 Hkb Has2 Ep2. wp_seq. eapply (Unmap_done _ _ _ _ _ _ _ _ s2 X2 L1 L2 U2 v r (objs s1)); [done|done|done| |done|].
  - rewrite Z.div_mul by lia. rewrite Ep2. simpl. by rewrite <-Ep1.
  - by eapply kept_back_from; [..|exact Hkb].
Qed.
End unmap.
