(* ===== verification/VmSpaceHeap.v ===== *)
(** The heap and the protection of regions. *)
From stdpp Require Import sorting.
From S2P Require Import Prelude Words PageTable PageTableProofs PageTableTheorems RbTree RbSpec VmSpace VmSpaceProofs VmSpaceTables VmSpaceOps VmSpaceUnmap.

Section heap.
Context {A K : Type} `{Hp : PageSource A, Hps : !PageSourceSpec A} `{Hk : ObjSource K, Hks : !ObjSourceSpec K}.
Context (CLUSTER_MACHINE_NUM CUR_MACHINE_ID : Z).
Implicit Types (s : vmem A K) (g : pgmem A) (Ts : list (gmap (Z * Z) Z)) (X : vmspace) (L : regions) (U Up : gset Z).
Abbreviation as_ok := (as_ok CLUSTER_MACHINE_NUM CUR_MACHINE_ID).

(** ** brk *)

(** The heap region [r] with its new size, in an address space *)
Definition enlarged vs (r : vmregion) (add : Z) : vmregion := set_vmspace vs (set_size (vmr_size r + add) r).

(** The result of enlarging the heap: where the new part meets another region the heap is in the address space no more. *)
Inductive heap_result vs X L1 L2 (h : Z) (r : vmregion) (add : Z) : vmspace → regions → Prop :=
  | Heap_lost w q : (w, q) ∈ L1 ++ L2 → overlaps (vmr_start r) (last_of (enlarged vs r add)) q → heap_result vs X L1 L2 h r add (without h X) (L1 ++ L2)
  | Heap_grown L1' L2' : (∀ w q, (w, q) ∈ L1 ++ L2 → ¬ overlaps (vmr_start r) (last_of (enlarged vs r add)) q) → L1 ++ L2 = L1' ++ L2' →
      heap_result vs X L1 L2 h r add (set_vmr_list (h :: vmr_list (without h X)) X) (L1' ++ (h, enlarged vs r add) :: L2').

(** The memory object gets the size too. *)
Definition pmo_enlarged s (pmo add : Z) (s' : vmem A K) : Prop :=
  pmos s' = alter (λ p, set_pmo_size (wrap_u64 (pmo_size p + add)) p) pmo (pmos s) ∧ pgs s' = pgs s ∧ refs s' = refs s ∧ released s' = released s.

Lemma wp_adjust_heap s vs X L1 L2 U h r add (Q : unit → vmem A K → Prop) :
  space_ok s vs X (L1 ++ (h, r) :: L2) U → heap_vmr X = h → is_Some (pmos s !! vmr_pmo r) → 0 ≤ add → top_of r + add < 2 ^ 64 → vmr_start r ≠ 0 →
  (∀ s' X' L', heap_result vs X L1 L2 h r add X' L' → space_ok s' vs X' L' U → pmo_enlarged s (vmr_pmo r) add s' → Q tt s') →
  wp (adjust_heap_vmr vs add) Q s.
Proof.
  intros HI Hh [p Hpm] H0 H1 Hst HQ. unfold adjust_heap_vmr. wp_seq. eapply wp_get_space; [apply HI|]. cbv zeta. rewrite Hh. wp_seq.
  destruct (so_region _ _ _ _ _ HI h r) as [_ (?&?&?)]; [set_solver|].
  eapply wp_remove_vmr; [done|]. intros s1 (rb&Es1&HI1&Hl1&_). cbv zeta in *. wp_seq. eapply wp_upd_vmr; [apply Hl1|].
  assert (wrap_u64 (vmr_size (set_vmspace 0 r) + add) = vmr_size r + add) as -> by (apply wrap_u64_small; unfold u64, top_of in *; simpl; lia).
  wp_seq. eapply wp_get_vmr; [apply lookup_insert_eq|]. wp_seq. unfold get_pmo. wp_seq. eapply wp_from_opt; [subst s1; done|]. wp_seq.
  set (r1 := set_size (vmr_size r + add) (set_vmspace 0 r)). set (s2 := set_pmos _ _).
  assert (space_ok s2 vs (without h X) (L1 ++ L2) U) as HI2.
  { eapply so_frame; [exact (so_loose _ _ _ _ _ h r1 HI1 (lo_out _ _ _ _ _ Hl1))|apply HI1|done| |done|apply HI1].
    intros v Hv. split_and!; [done|done|by apply HI1]. }
  assert (loose s2 h r1 (L1 ++ L2) U) as Hl2 by (destruct Hl1; split; [apply lookup_insert_eq|done..]).
  assert (placed (L1 ++ L2) r1 = r1) as Epl by (unfold placed; by rewrite bool_decide_eq_false_2).
  assert (pmo_enlarged s (vmr_pmo r) add s2) as Hen by (subst s2 s1; done).
  wp_seq. eapply wp_add_vmr; [exact HI2|exact Hl2|rewrite Epl; unfold region_ok, top_of in *; simpl; lia|..]; rewrite Epl.
  - intros w q Hw Ho. wp_seq. eapply HQ; [by eapply Heap_lost|by apply so_loose; [|apply Hl2]|done].
  - intros Hno s3 (L1'&L2'&rb'&EL&->&HI3&_). cbv zeta in *. wp_seq. eapply HQ; [by eapply (Heap_grown _ _ _ _ _ _ _ L1' L2')|exact HI3|done].
Qed.

Lemma as_locked s vs X L U Ts Up X' L' s' : as_ok s vs X L U Ts Up → space_ok s' vs (set_vmspace_lock true X') L' U → X' = set_vmr_list (vmr_list X') X →
  pgs s' = pgs s → refs s' = refs s → (∀ v, v ∈ L'.*1 → v ∈ L.*1) → as_ok (with_space vs X' s') vs X' L' U Ts Up.
Proof.
  intros Has HI E Ep Er Hin. pose proof (as_deferred _ _ _ _ _ _ _ _ _ Has) as Hde.
  eapply as_frame; [exact Has|exact (so_with _ _ _ X' _ _ HI eq_refl)| |exact E|exact Er|].
  - simpl. rewrite Ep. apply Has.
  - intros e He. destruct (de_own _ _ _ _ Hde e He) as [? Hn]. split; [done|]. by intros ?%Hin.
Qed.

Lemma heap_result_locked vs X L1 L2 h r add X' L' : heap_result vs (set_vmspace_lock true X) L1 L2 h r add X' L' → vmspace_lock X = false →
  heap_result vs X L1 L2 h r add (set_vmspace_lock false X') L' ∧ X' = set_vmspace_lock true (set_vmspace_lock false X') ∧
  set_vmspace_lock false X' = set_vmr_list (vmr_list X') X ∧ ∀ v, v ∈ L'.*1 → v ∈ (L1 ++ (h, r) :: L2).*1.
Proof.
  intros H Hl. assert (∀ l, set_vmspace_lock false (set_vmr_list l (set_vmspace_lock true X)) = set_vmr_list l X) as E by (intros; by apply unlock_space).
  destruct H as [w q Hw Ho|L1' L2' Hno EL]; split_and!; try done.
  - unfold without. rewrite E. by eapply Heap_lost.
  - unfold without. by rewrite E.
  - intros v. rewrite !fmap_app, !elem_of_app, fmap_cons, elem_of_cons. naive_solver.
  - rewrite E. exact (Heap_grown vs X L1 L2 h r add L1' L2' Hno EL).
  - assert (L1.*1 ++ L2.*1 = L1'.*1 ++ L2'.*1) as EL' by (by rewrite <-!fmap_app, EL).
    intros v. rewrite !fmap_app, !elem_of_app, !fmap_cons, !elem_of_cons. simpl. intros Hv.
    assert (v = h ∨ v ∈ L1.*1 ++ L2.*1) as [->|Hv']; [rewrite EL', elem_of_app; naive_solver| |]; [naive_solver|].
    apply elem_of_app in Hv'. naive_solver.
Qed.

Lemma wp_handle_brk s vs X L1 L2 U Ts Up h r addr :
  as_ok s vs X (L1 ++ (h, r) :: L2) U Ts Up → heap_vmr X = h → is_Some (pmos s !! vmr_pmo r) → top_of r ≤ addr < 2 ^ 64 → vmr_start r ≠ 0 →
  wp (handle_brk vs addr) (λ ret s', ret = addr ∧ ∃ X' L', heap_result vs X L1 L2 h r (addr - top_of r) X' L' ∧ as_ok s' vs X' L' U Ts Up ∧
    pmo_enlarged s (vmr_pmo r) (addr - top_of r) s') s.
Proof.
  intros Has Hh Hpm Ha Hst. pose proof (as_space _ _ _ _ _ _ _ _ _ Has) as HI. destruct (as_unlocked _ _ _ _ _ _ _ _ _ Has) as [Hu1 _].
  destruct (so_region _ _ _ _ _ HI h r) as [Er Hr]; [set_solver|]. assert (h ≠ 0) as Hh0.
  { destruct (os_addr _ _ h (so_objs _ _ _ _ _ HI)); [apply (so_own _ _ _ _ _ HI); rewrite fmap_app, elem_of_app; right; by left|lia]. }
  unfold handle_brk. wp_seq. eapply wp_write_lock; [apply HI|done|]. wp_seq. set (X1 := set_vmspace_lock true X).
  pose proof (so_with _ _ _ X1 _ _ HI eq_refl) as HI1. eapply wp_get_space; [apply HI1|]. wp_seq.
  change (heap_vmr X1) with (heap_vmr X). rewrite Hh, bool_decide_eq_false_2 by done. wp_seq. eapply wp_get_vmr; [exact Er|].
  cbv zeta. replace (wrap_u64 (vmr_start r + vmr_size r)) with (top_of r) by (symmetry; apply wrap_u64_small; unfold region_ok, top_of in *; lia).
  rewrite bool_decide_eq_true_2 by lia. wp_seq. eapply wp_adjust_heap; [done|done|done|lia|lia|done|].
  intros s' X' L' [Hres (EX'&EX&Hin)]%heap_result_locked HI' Hen; [|done]. wp_seq. eapply wp_upd_space; [apply HI'|]. wp_seq. split; [done|].
  eexists _, L'. split_and!; [done| |done]. rewrite EX' in HI'. destruct Hen as (?&Ep&Erf&?).
  eapply as_locked; [exact Has|exact HI'|done|exact Ep|exact Erf|exact Hin].
Qed.
End heap.
