(* ===== verification/VmSpaceProtect.v ===== *)
(** Changing the protection of regions: the two walks of [sys_handle_mprotect] over the regions. *)
From stdpp Require Import sorting.
From S2P Require Import Prelude Words PageTable PageTableProofs PageTableTheorems RbTree RbSpec VmSpace VmSpaceProofs VmSpaceTables VmSpaceOps.

Implicit Types (L R : regions) (W : list Z) (X : vmspace).

(** At most one region is at an address. *)
Lemma ordered_unique L a b va : ordered L → a ∈ L → b ∈ L → overlaps va va a.2 → overlaps va va b.2 → a = b.
Proof.
  unfold overlaps. induction 1 as [|c L _ IH Hc]; intros Ha Hb; [by apply not_elem_of_nil in Ha|]. rewrite Forall_forall in Hc.
  apply elem_of_cons in Ha as [->|Ha], Hb as [->|Hb]; [done| | |by apply IH].
  - specialize (Hc b Hb). simpl in Hc. lia.
  - specialize (Hc a Ha). simpl in Hc. lia.
Qed.

(** The regions with the new protection of those in [W] *)
Definition reperm W (perm : Z) (a : Z * vmregion) : Z * vmregion := if decide (a.1 ∈ W) then (a.1, set_perm perm a.2) else a.

Lemma reperm_fst W perm L : (reperm W perm <$> L).*1 = L.*1.
Proof. rewrite <-list_fmap_compose. apply list_fmap_ext. intros _ a _. unfold reperm, compose. by destruct (decide _). Qed.
Lemma reperm_nodes W perm L : nodes (reperm W perm <$> L) = nodes L.
Proof. unfold nodes. by rewrite reperm_fst. Qed.
Lemma reperm_nil perm L : reperm [] perm <$> L = L.
Proof.
  rewrite <-(list_fmap_id L) at 2. apply list_fmap_ext. intros _ a _. unfold reperm. by rewrite decide_False by apply not_elem_of_nil.
Qed.
Lemma reperm_shape W perm a : (reperm W perm a).1 = a.1 ∧ vmr_start (reperm W perm a).2 = vmr_start a.2 ∧ vmr_size (reperm W perm a).2 = vmr_size a.2.
Proof. unfold reperm. by destruct (decide _). Qed.
Lemma reperm_last W perm a : last_of (reperm W perm a).2 = last_of a.2.
Proof. unfold last_of. by destruct (reperm_shape W perm a) as (_&->&->). Qed.
Lemma reperm_twice W perm v L : reperm [v] perm <$> (reperm W perm <$> L) = reperm (W ++ [v]) perm <$> L.
Proof.
  rewrite <-list_fmap_compose. apply list_fmap_ext. intros _ a _. unfold reperm, compose.
  destruct (decide (a.1 ∈ W)) as [H1|H1]; simpl.
  - rewrite (decide_True (P := a.1 ∈ W ++ [v])) by (apply elem_of_app; by left). by destruct (decide _).
  - destruct (decide (a.1 ∈ [v])) as [H2|H2]; [rewrite decide_True by (apply elem_of_app; by right)|rewrite decide_False by (rewrite elem_of_app; naive_solver)]; done.
Qed.
Lemma reperm_ordered W perm L : ordered L → ordered (reperm W perm <$> L).
Proof.
  unfold ordered. induction 1 as [|a L _ IH Ha]; [constructor|]. simpl. constructor; [done|]. apply Forall_fmap.
  eapply Forall_impl; [exact Ha|]. intros b. simpl. rewrite reperm_last. by destruct (reperm_shape W perm b) as (_&->&_).
Qed.

(** The regions that the walk from [va] over [remaining] bytes visits: at each step the region at the address, and its size is what the
    walk goes on by. *)
Inductive scan L : Z → Z → regions → Prop :=
  | Scan_done va : scan L va 0 []
  | Scan_step va remaining v r R : (v, r) ∈ L → overlaps va va r → 0 < vmr_size r ≤ remaining → va + vmr_size r < 2 ^ 64 →
      scan L (va + vmr_size r) (remaining - vmr_size r) R → scan L va remaining ((v, r) :: R).

Section protect.
Context {A K : Type} `{Hp : PageSource A, Hps : !PageSourceSpec A} `{Hk : ObjSource K, Hks : !ObjSourceSpec K}.
Context (CLUSTER_MACHINE_NUM CUR_MACHINE_ID : Z).
Implicit Types (s : vmem A K) (U Up : gset Z).
Abbreviation as_ok := (as_ok CLUSTER_MACHINE_NUM CUR_MACHINE_ID).

Lemma so_reperm s vs X L U v r perm : space_ok s vs X L U → (v, r) ∈ L →
  space_ok (with_vmr v (set_perm perm r) s) vs X (reperm [v] perm <$> L) U.
Proof.
  intros HI Hv. pose proof (so_distinct _ _ _ _ _ HI) as Hnd. pose proof HI as [Hs Ht Hl Hr Ho Hord Hos]. split; try done.
  - by rewrite reperm_nodes.
  - by rewrite reperm_fst.
  - intros w q ([w' q']&E&Hw)%list_elem_of_fmap. destruct (Hr w' q' Hw) as [Ew Hok]. unfold reperm in E. simpl in *. destruct (decide (w' ∈ [v])) as [->%list_elem_of_singleton|Hne].
    + destruct (Hr v r Hv) as [Ev _]. simplify_eq. split; [apply lookup_insert_eq|done].
    + injection E as -> ->. rewrite lookup_insert_ne; [done|]. intros ->. by apply Hne, list_elem_of_singleton.
  - by rewrite reperm_fst.
  - by apply reperm_ordered.
Qed.

(** The region at an address, whatever the protections *)
Lemma wp_find_scanned s vs X L U W perm va v r (Q : Z → vmem A K → Prop) :
  space_ok s vs X (reperm W perm <$> L) U → ordered L → (v, r) ∈ L → overlaps va va r → Q v s → wp (find_vmr_for_va vs va) Q s.
Proof.
  intros HI Hord Hv Hov HQ. assert (reperm W perm (v, r) ∈ reperm W perm <$> L) as Hin by (apply list_elem_of_fmap; eauto).
  assert (overlaps va va (reperm W perm (v, r)).2) as Hov'.
  { unfold overlaps in *. rewrite reperm_last. by destruct (reperm_shape W perm (v, r)) as (_&->&_). }
  eapply wp_mono; [by eapply wp_find_vmr_for_va|]. intros w s' [-> [[-> Hno]|(_&q&Hq&Hoq)]].
  - destruct (reperm W perm (v, r)) as [w q]. by destruct (Hno w q).
  - assert ((w, q) = reperm W perm (v, r)) as E by (eapply ordered_unique; [apply HI|done|done|done|done]).
    destruct (reperm_shape W perm (v, r)) as [E1 _]. rewrite <-E in E1. simpl in E1. by subst.
Qed.

Lemma wp_mprotect_check s vs X L U target va remaining R fuel : space_ok s vs X L U → scan L va remaining R →
  (∀ v r, (v, r) ∈ R → valid_prot (vmr_perm r) target = 0) → (length R ≤ fuel)%nat →
  wp (mprotect_check fuel vs va remaining target) (λ c s', s' = s ∧ c = inr false) s.
Proof.
  intros HI Hsc. revert fuel. induction Hsc as [va|va remaining v r R Hv Hov Hsz Hw _ IH]; intros fuel Hok Hf.
  { destruct fuel; simpl; wp_seq; apply wp_bug_on; by wp_seq || done. }
  simpl in Hf. destruct fuel as [|fuel]; [lia|]. cbn [mprotect_check]. rewrite bool_decide_eq_true_2 by lia. wp_seq.
  eapply (wp_find_scanned s vs X L U [] 0); [by rewrite reperm_nil|apply HI|done|done|]. destruct (so_region _ _ _ _ _ HI v r Hv) as [Er Hr].
  rewrite bool_decide_eq_false_2 by (destruct (os_addr _ _ v (so_objs _ _ _ _ _ HI)); [apply HI, list_elem_of_fmap; by exists (v, r)|lia]). wp_seq.
  eapply wp_get_vmr; [done|]. rewrite (Hok v r) by (by left). rewrite bool_decide_eq_true_2 by done. cbn [negb].
  rewrite bool_decide_eq_false_2 by lia. rewrite wrap_u64_small by (unfold overlaps, region_ok in *; lia). apply IH; [|lia]. intros w q Hq. apply (Hok w). by right.
Qed.

Lemma wp_mprotect_regions vs X L U target va remaining R fuel : ordered L → scan L va remaining R → (length R ≤ fuel)%nat →
  ∀ s W, space_ok s vs X (reperm W target <$> L) U →
  wp (mprotect_regions fuel vs va remaining target) (λ _ s', ∃ m, s' = set_vmrs m s ∧ space_ok s' vs X (reperm (W ++ R.*1) target <$> L) U) s.
Proof.
  intros Hord Hsc. revert fuel. induction Hsc as [va|va remaining v r R Hv Hov Hsz Hw _ IH]; intros fuel Hf s W HI.
  { destruct fuel; simpl; wp_seq; exists (vmrs s); rewrite app_nil_r; by destruct s. }
  simpl in Hf. destruct fuel as [|fuel]; [lia|]. cbn [mprotect_regions]. rewrite bool_decide_eq_true_2 by lia. wp_seq.
  eapply wp_find_scanned; [done|done|done|done|]. wp_seq. destruct (reperm W target (v, r)) as [v' q] eqn:Eq.
  destruct (reperm_shape W target (v, r)) as (E1&E2&E3). rewrite Eq in E1, E2, E3. simpl in E1, E2, E3. subst v'.
  assert ((v, q) ∈ reperm W target <$> L) as Hq by (rewrite <-Eq; apply list_elem_of_fmap; eauto).
  destruct (so_region _ _ _ _ _ HI v q Hq) as [Er Hr]. eapply wp_upd_vmr; [done|]. wp_seq. eapply wp_get_vmr; [apply lookup_insert_eq|].
  cbn [set_perm vmr_size]. rewrite E3. unfold region_ok, overlaps in *. rewrite wrap_u64_small by lia.
  pose proof (so_reperm _ _ _ _ _ v q target HI Hq) as HI'. rewrite reperm_twice in HI'.
  eapply wp_mono; [by apply (IH fuel ltac:(lia) _ _ HI')|]. intros [] s' (m&->&HI2). exists m. split; [done|]. by rewrite <-app_assoc in HI2.
Qed.

Lemma to_s64_small x : x < 2 ^ 63 → to_s64 x = x.
Proof. intros. unfold to_s64. by rewrite bool_decide_eq_true_2. Qed.

Lemma wp_handle_mprotect s vs X L U Ts Up v0 len prot R fuel : let target := get_vmr_prot prot in
  as_ok s vs X L U Ts Up → 0 ≤ v0 → v0 + page_cnt len ≤ 510 * 2 ^ 27 → 0 < len < 2 ^ 63 → len mod 4096 = 0 → scan L (v0 * 4096) len R →
  (∀ v r, (v, r) ∈ R → valid_prot (vmr_perm r) target = 0) → (length R ≤ fuel)%nat →
  wp (handle_mprotect CLUSTER_MACHINE_NUM fuel vs (v0 * 4096) len prot) (λ ret s', ret = 0 ∧
    as_ok s' vs X (reperm R.*1 target <$> L) U Ts Up ∧ protected CLUSTER_MACHINE_NUM (pgs s) Ts v0 (page_cnt len) target (pgs s')) s.
Proof.
  intros target Has H0 H1 Hlen Hal Hsc Hval Hf. pose proof (as_space _ _ _ _ _ _ _ _ _ Has) as HI. destruct (as_unlocked _ _ _ _ _ _ _ _ _ Has) as [Hu1 Hu2].
  destruct (as_machines _ _ _ _ _ _ _ _ _ Has) as [Hm1 Hm2]. unfold handle_mprotect. rewrite to_s64_small by lia.
  change PAGE_SIZE with 4096. rewrite Z.mod_mul, Hal by lia. cbn [negb orb]. rewrite bool_decide_eq_true_2 by done. cbn [negb orb].
  rewrite bool_decide_eq_false_2 by lia. wp_seq. eapply wp_write_lock; [apply HI|done|]. set (X1 := set_vmspace_lock true X).
  pose proof (so_with _ _ _ X1 _ _ HI eq_refl) as HI1. wp_seq. eapply wp_mono; [by eapply wp_mprotect_check|]. intros c s' [-> ->]. wp_seq.
  rewrite <-(reperm_nil target L) in HI1. eapply wp_mono; [by eapply wp_mprotect_regions; [apply HI|..]|]. intros [] s' (m&->&HI2). wp_seq.
  set (s1 := set_vmrs m _) in *. eapply wp_lock_pgtbl; [apply HI2|done|]. wp_seq. set (X2 := set_pgtbl_lock true X1).
  eapply (wp_mprotect_all _ _ _ X2 Ts Up); [apply lookup_insert_eq|apply Has|simpl; lia|done|done|]. intros g Htb Hpr. wp_seq.
  eapply wp_upd_space; [apply lookup_insert_eq|]. wp_seq. eapply wp_upd_space; [apply lookup_insert_eq|]. wp_seq.
  change (with_space vs X2 s1) with (with_space vs X2 s1). set (s3 := with_space _ _ _).
  assert (s3 = with_space vs X (set_pgs g s1)) as Es3.
  { unfold s3. change (set_pgs g (with_space vs X2 s1)) with (with_space vs X2 (set_pgs g s1)). rewrite !with_space_twice. f_equal.
    unfold X2, X1. destruct X. simpl in *. by subst. }
  rewrite Es3. split_and!; [done| |done]. rewrite app_nil_l in HI2.
  eapply as_frame; [exact Has| |exact Htb|by destruct X|done|].
  - eapply (so_with _ _ X1); [|done]. eapply so_frame; [exact HI2|apply HI2|done| |done|apply HI2].
    intros v Hv. split_and!; [done|done|by apply HI2].
  - intros e He. rewrite reperm_fst. by apply Has.
Qed.

(** An empty region does not end the walk. *)
Lemma mprotect_check_spins s vs X L U target va remaining v r fuel : space_ok s vs X L U → (v, r) ∈ L → vmr_start r = va → vmr_size r = 0 →
  0 < remaining → valid_prot (vmr_perm r) target = 0 → mprotect_check fuel vs va remaining target s = Halt OutOfFuel.
Proof.
  intros HI Hv Hst Hsz Hrem Hval. destruct (so_region _ _ _ _ _ HI v r Hv) as [Er Hr].
  assert (overlaps va va r) as Hov by (unfold overlaps, last_of; lia).
  assert (find_vmr_for_va vs va s = Ret (v, s)) as Efind.
  { destruct (wp_inv _ _ _ (wp_find_scanned s vs X L U [] 0 va v r (λ w s', w = v ∧ s' = s)
      ltac:(by rewrite reperm_nil) (so_order _ _ _ _ _ HI) Hv Hov (conj eq_refl eq_refl))) as (w&s'&E&->&->). done. }
  assert (v ≠ 0) by (destruct (os_addr _ _ v (so_objs _ _ _ _ _ HI)); [apply HI, list_elem_of_fmap; by exists (v, r)|lia]).
  assert (get_vmr v s = Ret (r, s)) as Eget by (unfold get_vmr, mbind, M_bind, get_state; simpl; by rewrite Er).
  induction fuel as [|fuel IH]; cbn [mprotect_check]; rewrite bool_decide_eq_true_2 by lia; [done|].
  unfold mbind at 1, M_bind at 1. rewrite Efind, bool_decide_eq_false_2 by done. unfold mbind at 1, M_bind at 1. rewrite Eget, Hval.
  rewrite bool_decide_eq_true_2 by done. cbn [negb]. rewrite bool_decide_eq_false_2 by lia. rewrite Hsz, Z.add_0_r, Z.sub_0_r.
  rewrite wrap_u64_small by (unfold region_ok, top_of in *; lia). exact IH.
Qed.
End protect.
