(* ===== verification/VmSpaceTheorems.v ===== *)
(** What the operations on address spaces guarantee, and where they fall short. *)
From stdpp Require Import sorting.
From S2P Require Import Prelude Words Buddy PageLayer DramPages RemoteFree RemoteFreeProofs RemoteFreeTheorems Slab SlabProofs KmallocProofs KmallocTheorems.
From S2P Require Import PageTable PageTableProofs PageTableRoots KmallocPages PageTableTheorems RbTree RbSpec.
From S2P Require Import VmSpace VmSpaceProofs KmallocObjects VmSpaceTables VmSpaceOps VmSpaceUnmap VmSpaceHeap VmSpaceProtect.

Lemma page_round v : ROUND_DOWN (v * 4096) PAGE_SIZE = v * 4096.
Proof. change PAGE_SIZE with (2 ^ 12). rewrite ROUND_DOWN_pow2 by lia. change (2 ^ 12) with 4096. rewrite Z.mod_mul by lia. lia. Qed.

Lemma split_unique {B} (l1 l2 l1' l2' : list B) x : NoDup (l1 ++ x :: l2) → l1 ++ x :: l2 = l1' ++ x :: l2' → l1 = l1' ∧ l2 = l2'.
Proof.
  revert l1'. induction l1 as [|a l1 IH]; intros [|b l1'] Hnd E; simpl in *; simplify_eq; [done| | |].
  - apply NoDup_cons in Hnd as [Hn _]. destruct Hn. set_solver.
  - apply NoDup_cons in Hnd as [Hn _]. destruct Hn. set_solver.
  - apply NoDup_cons in Hnd as [_ Hnd]. by destruct (IH l1' Hnd) as [-> ->].
Qed.

Section theorems.
Context {A K : Type} `{Hp : PageSource A, Hps : !PageSourceSpec A} `{Hk : ObjSource K, Hks : !ObjSourceSpec K}.
Context (CLUSTER_MACHINE_NUM CUR_MACHINE_ID : Z).
Implicit Types (s : vmem A K) (g : pgmem A) (T : gmap (Z * Z) Z) (Ts : list (gmap (Z * Z) Z)) (X : vmspace) (L : regions) (U Up : gset Z).
Abbreviation as_ok := (as_ok CLUSTER_MACHINE_NUM CUR_MACHINE_ID).

(** An entry that is mapped has its table. *)
Lemma mapped_table g T w : entry_of g T w ≠ 0 → is_Some (T !! (3, pre 3 w)).
Proof. unfold entry_of. destruct (T !! (3, pre 3 w)); [by eexists|done]. Qed.

Lemma new_pte_nonzero pa flags : new_pte pa flags ≠ 0.
Proof. intros E. pose proof (new_pte_present pa flags) as H. rewrite E in H. discriminate H. Qed.

(** Pages just mapped are all found and cleared. *)
Lemma cleared_filled g Ts i v n m pa perm g1 Ts1 g2 root U T : 0 ≤ v → Z.of_nat i < CLUSTER_MACHINE_NUM → 
  m ≤ n → Ts !! i = Some T → filled g Ts i v n pa perm g1 Ts1 → (∀ T1, Ts1 !! i = Some T1 → pt_ok 510 g1 root T1 U) →
  cleared CLUSTER_MACHINE_NUM g1 Ts1 v m g2 → ∃ T1, Ts1 !! i = Some T1 ∧ ∀ w, 0 ≤ w → entry_of g2 T1 w =
    if decide (v ≤ w < v + m) then 0 else if decide (v ≤ w < v + n) then new_pte (wrap_u64 (pa + (w - v) * 4096)) perm else entry_of g T w.
Proof.
  intros Hv Hi Hm HT (T0&T1&HT0&->&Hch&_) Hok Hcl. simplify_eq. assert (<[i := T1]> Ts !! i = Some T1) as HT1 by (by apply list_lookup_insert_eq, lookup_lt_is_Some).
  assert (∀ x, v ≤ x < v + m → is_Some (T1 !! (3, pre 3 x))) as Htab.
  { intros x Hx. apply (mapped_table g1). rewrite (Hch x ltac:(lia)), decide_True by lia. apply new_pte_nonzero. }
  exists T1. split; [done|]. destruct (Hcl i T1 Hi HT1) as [_ _ Hex _]. intros w Hw.
  rewrite (Hex (tables_exact 510 _ _ _ _ _ _ _ (Hok _ HT1) Htab) eq_refl w Hw). destruct (decide (v ≤ w < v + m)); [done|]. by rewrite (Hch w Hw).
Qed.

(** The page numbers from [v0] on, [len] bytes, can be mapped to the memory object [p] at [pmo], at once. *)
Record mappable s vs X L U Ts Up T (v0 len pmo : Z) (p : pmobject) : Prop := {
  mp_ok : as_ok s vs X L U Ts Up;
  mp_table : Ts !! Z.to_nat CUR_MACHINE_ID = Some T;
  mp_pmo : pmos s !! pmo = Some p ∧ 0 ≤ pmo_type p ≤ PMO_TYPE_NR ∧ eager p = true;
  mp_refs : pmo ≠ 0 ∧ is_Some (refs s !! pmo);
  mp_frames : u64 (pmo_start p) ∧ 0 ≤ pmo_size p;
  mp_range : 0 < v0 ∧ PAGE_SIZE ≤ len < 2 ^ 47 ∧ v0 + page_cnt len ≤ 510 * 2 ^ 27 ∧ v0 + page_cnt (pmo_size p) ≤ 510 * 2 ^ 27;
  mp_room : room (3 * Z.to_nat ((v0 mod 512 + page_cnt (pmo_size p) + 511) / 512)) (src (pgs s));
  mp_free w q : (w, q) ∈ L → ¬ overlaps (v0 * 4096) (v0 * 4096 + len - 1) q;
  mp_single : vmspace_is_multi_machine X = false;
  mp_kmalloc : ∃ v k, kmalloc MT_OBJECT sizeof_vmregion (objs s) = Ret (v, k) ∧ v ≠ 0
}.

Lemma wp_map_unmap s vs X L U Ts Up T v0 len flags pmo p : mappable s vs X L U Ts Up T v0 len pmo p → page_cnt len ≤ page_cnt (pmo_size p) →
  wp (vmspace_map_range CLUSTER_MACHINE_NUM CUR_MACHINE_ID vs (v0 * 4096) len flags pmo;; vmspace_unmap_range CLUSTER_MACHINE_NUM vs (v0 * 4096) len)
    (λ ret s', ret = 0 ∧ ∃ X' U' Ts' Up' T', as_ok s' vs X' L U' Ts' Up' ∧ Ts' !! Z.to_nat CUR_MACHINE_ID = Some T' ∧
      ∀ w, 0 ≤ w → entry_of (pgs s') T' w =
        if decide (v0 ≤ w < v0 + page_cnt len) then 0
        else if decide (v0 ≤ w < v0 + page_cnt (pmo_size p)) then
          new_pte (wrap_u64 (pmo_start p + (w - v0) * 4096)) (fill_perm X p (request vs (v0 * 4096) len flags pmo p))
        else entry_of (pgs s) T w) s.
Proof.
  intros [Has HT (Hpm&Hty&Hea) [Hp0 Hrf] [Hps1 Hps2] (Hv0&Hlen&Hr1&Hr2) Hroom Hno Hsing (v&k&Hkm&Hv)] Hle.
  assert (2 ^ 64 = 2 ^ 47 * 2 ^ 17) as E64 by done. change PAGE_SIZE with 4096 in Hlen.
  set (r := request vs (v0 * 4096) len flags pmo p).
  assert (vmr_start r = v0 * 4096 ∧ vmr_size r = len) as [Est Esz].
  { unfold r, request. cbn [vmr_start vmr_size]. rewrite page_round. by rewrite bool_decide_eq_false_2 by (change PAGE_SIZE with 4096; lia). }
  assert (placed L r = r) as Epl by (unfold placed; rewrite bool_decide_eq_false_2; [done|lia]).
  assert (last_of r = v0 * 4096 + len - 1) as Ela by (unfold last_of; rewrite Est, Esz; lia).
  assert (region_ok r) as Hok.
  { unfold region_ok, top_of. rewrite Est, Esz. pose proof (page_cnt_nonneg len ltac:(lia)). lia. }
  wp_seq. eapply wp_mono.
  { eapply (wp_vmspace_map_range _ _ s vs X L U Ts Up (v0 * 4096) len flags pmo p v k); [done|done|done|done|by fold r; rewrite Epl|].
    fold r. rewrite Epl. intros _. exists v0. split_and!; try done; lia. }
  fold r. rewrite Epl. intros res s1 Hres. destruct Hres as [|? w q ? Hw Ho|s1 L1 L2 Ts1 Up1 _ _ EL Has1 Hfi Erf _ _]; [done| |].
  { rewrite Est, Ela in Ho. by destruct (Hno w q Hw). }
  pose proof (as_space _ _ _ _ _ _ _ _ _ Has1) as HI1.
  eapply wp_mono.
  { eapply (wp_vmspace_unmap_range _ _ s1 vs _ _ _ Ts1 Up1 v0 len); [done|lia|done|lia|].
    intros w q Hw Ho. assert ((w, q) = (v, r)) as [= -> ->].
    { eapply ordered_unique; [apply HI1|done|set_solver|done|]. cbn [snd]. unfold overlaps. rewrite Est, Ela. lia. }
    split_and!; [done|done|done|by rewrite Erf|]. intros E. simpl in E. unfold vmspace_is_multi_machine in *. simpl in E. congruence. }
  intros ret s2 Hres. destruct Hres as [Hno1|s2 X2 L1' L2' U2 w q k2 EL' Ho Has2 Hcl _ _].
  { destruct (Hno1 v r); [set_solver|]. unfold overlaps. rewrite Est, Ela. lia. }
  assert ((w, q) = (v, r)) as [= -> ->].
  { eapply ordered_unique; [apply HI1|rewrite EL'; set_solver|set_solver|done|]. cbn [snd]. unfold overlaps. rewrite Est, Ela. lia. }
  assert (L1' ++ L2' = L) as EL2.
  { pose proof (so_distinct _ _ _ _ _ HI1) as Hnd%NoDup_fmap_1. rewrite EL. by destruct (split_unique _ _ _ _ _ Hnd EL') as [-> ->]. }
  rewrite EL2 in Has2.
  split; [done|]. rewrite Z.div_mul in Hcl by lia. unfold filled_or_same in Hfi. rewrite Hea, Est, Z.div_mul in Hfi by lia.
  destruct (as_machines _ _ _ _ _ _ _ _ _ Has) as [Hm1 Hm2].
  destruct (lookup_lt_is_Some_2 (pgtbl X) (Z.to_nat CUR_MACHINE_ID)) as [root Hroot]; [lia|].
  destruct (cleared_filled (pgs s) Ts (Z.to_nat CUR_MACHINE_ID) v0 _ (page_cnt len) _ _ (pgs s1) Ts1 (pgs s2) (remove_pcid root) Up1 T
    ltac:(lia) ltac:(lia) Hle HT Hfi) as (T'&HT'&He); [|done|].
  - intros T1 HT1. by eapply (tb_ok _ _ _ _ (as_tables _ _ _ _ _ _ _ _ _ Has1)).
  - exists X2, U2, Ts1, Up1, T'. done.
Qed.

(** *** Creation *)

Lemma roots_tables g roots U : NoDup (remove_pcid <$> roots) →
  (∀ r, r ∈ roots → pt_ok 510 g (remove_pcid r) {[(0, 0) := remove_pcid r]} U) →
  tables_ok g roots ((λ r, {[(0, 0) := remove_pcid r]}) <$> roots) U.
Proof.
  intros Hnd Hok. split.
  - by rewrite length_fmap.
  - intros i root T Hi HT. rewrite list_lookup_fmap, Hi in HT. injection HT as <-. apply Hok. by eapply list_elem_of_lookup_2.
  - intros i j T T' k k' a Hij Hi Hj Ha Hb. rewrite list_lookup_fmap in Hi, Hj.
    destruct (roots !! i) as [x|] eqn:Ei; [|done]. destruct (roots !! j) as [y|] eqn:Ej; [|done]. injection Hi as <-. injection Hj as <-.
    apply lookup_singleton_Some in Ha as [_ <-]. apply lookup_singleton_Some in Hb as [_ E].
    apply Hij. eapply NoDup_lookup; [exact Hnd|by rewrite list_lookup_fmap, Ei|by rewrite list_lookup_fmap, Ej; simpl; rewrite E].
Qed.

(** [vmspace_init] makes an address space without regions, with one empty page table for each machine: the table has a root of its own
    that keeps the identifier of the process, and no user page is mapped in it.  No lock is held, no release is put off, and the space has
    run on no machine. *)
Theorem vmspace_init_correct s vs X0 U Up CHCORE_PGD pcid :
  vmspaces s !! vs = Some X0 → is_Some (rb_roots (rbs s) !! vmr_tree_of vs) → os_inv (objs s) U →
  ps_inv (src (pgs s)) Up → room (Z.to_nat CLUSTER_MAX_MACHINE_NUM) (src (pgs s)) → 0 ≤ pcid < 4096 → u64 (CHCORE_PGD 510) → u64 (CHCORE_PGD 511) →
  0 ≤ CUR_MACHINE_ID < CLUSTER_MACHINE_NUM → CLUSTER_MACHINE_NUM ≤ CLUSTER_MAX_MACHINE_NUM →
  wp (vmspace_init CHCORE_PGD pcid vs) (λ ret s', ret = 0 ∧ ∃ X Ts Up', as_ok s' vs X [] U Ts Up' ∧
    user_current_mmap_addr X = MMAP_START ∧ vmspace_is_multi_machine X = false ∧
    (∀ r, r ∈ pgtbl X → r mod 4096 = pcid ∧ (remove_pcid r ∉ Up)) ∧ ∀ T, T ∈ Ts → ∀ w, entry_of (pgs s') T w = 0) s.
Proof.
  intros Es [r0 Er] Hos Hpi Hroom Hpc H0 H1 Hm HN. unfold vmspace_init. wp_seq. eapply wp_upd_space; [done|]. wp_seq.
  eapply wp_on_rbs; [unfold init_rb_root, set_root, get_root, mbind, M_bind, get_state; simpl; by rewrite Er|]. wp_seq.
  apply wp_on_pgs. eapply wp_mono; [by apply vmspace_init_pgtbl_correct|]. intros roots g (Up'&_&Hlen&Hnd&Hroots). wp_seq.
  do 3 (eapply wp_upd_space; [apply lookup_insert_eq|]; wp_seq). unfold reset_history_cpus. do 2 (eapply wp_upd_space; [apply lookup_insert_eq|]; wp_seq).
  split; [done|]. lazymatch goal with |- context [with_space vs ?Y _] => exists Y, ((λ r, {[(0, 0) := remove_pcid r]}) <$> roots), Up' end.
  split_and!; [|done|reflexivity|intros r Hr; by destruct (Hroots r Hr) as (?&?&_)|].
  - split; [|apply roots_tables; [done|intros r Hr; by apply Hroots]| |done|simpl; rewrite Hlen; lia].
    + split; [apply lookup_insert_eq| |done|by intros ? ? ?%elem_of_nil|by intros ? ?%elem_of_nil|constructor|done].
      exists Leaf. split_and!; [|by exists 0%nat; constructor|done]. split_and!; [apply lookup_insert_eq|done|constructor].
    + split; [done|done|apply NoDup_nil_2|by intros ? ?%elem_of_nil|by intros ? ?%elem_of_nil|done].
  - intros T (r&->&Hr)%list_elem_of_fmap w. by apply Hroots.
Qed.

(** *** Mapping and unmapping *)

(** C7: [vmspace_map_range] answers one of three ways.  Without memory for the region it returns [-ENOMEM]; if the range meets a region it
    returns [-EINVAL], the new region is freed; in both cases regions and page tables are as before.  Otherwise it returns 0, the region is in
    the tree and in the list, at its place in the order of addresses, and if the memory object has its frames they are mapped in the table of
    this machine, all other entries of all tables as before.  No lock is held afterwards. *)
Theorem vmspace_map_range_correct s vs X L U Ts Up va len flags pmo p v k :
  let r := placed L (request vs va len flags pmo p) in
  as_ok s vs X L U Ts Up → pmos s !! pmo = Some p → 0 ≤ pmo_type p ≤ PMO_TYPE_NR →
  kmalloc MT_OBJECT sizeof_vmregion (objs s) = Ret (v, k) → region_ok r → (eager p = true → can_fill s p (vmr_start r)) →
  wp (vmspace_map_range CLUSTER_MACHINE_NUM CUR_MACHINE_ID vs va len flags pmo) (map_result CLUSTER_MACHINE_NUM CUR_MACHINE_ID s vs X L U Ts Up v k p r) s.
Proof. apply wp_vmspace_map_range. Qed.

(** C8: [vmspace_unmap_range] of a whole region returns 0.  The region is gone from the tree and the list and its memory has been given to
    [kfree].  In the table of every machine no entry outside the range changes, an entry of the range is cleared or left as it is, and all
    entries are cleared up to the first page whose table of the last level is missing (behind it pages can be left).  When the address space has run on several
    machines the memory object is held back: its reference and an entry from the shared memory go to the list of deferred releases, or stay with
    nobody when there is no memory for the entry, and the entries of a full list are freed and their references given back; otherwise nothing but the
    region's memory is allocated or freed. *)
Theorem vmspace_unmap_range_correct s vs X L U Ts Up v0 len v r :
  as_ok s vs X L U Ts Up → (v, r) ∈ L → vmr_start r = v0 * 4096 → vmr_size r = len → 0 ≤ v0 → v0 + page_cnt len ≤ 510 * 2 ^ 27 → 0 < len →
  vmr_pmo r ≠ 0 → is_Some (refs s !! vmr_pmo r) →
  (vmspace_is_multi_machine X = true → ∃ k e k', kfree v (objs s) = Ret (tt, k) ∧ kmalloc MT_SHARED sizeof_deferred_pmo k = Ret (e, k')) →
  wp (vmspace_unmap_range CLUSTER_MACHINE_NUM vs (v0 * 4096) len) (λ ret s', ret = 0 ∧ ∃ L1 L2 X' U' k, L = L1 ++ (v, r) :: L2 ∧
    as_ok s' vs X' (L1 ++ L2) U' Ts Up ∧
    kfree v (objs s) = Ret (tt, k) ∧ kept_back s (without v X) (vmr_pmo r) k s' X' ∧
    ∀ i T, Z.of_nat i < CLUSTER_MACHINE_NUM → Ts !! i = Some T →
      (∀ w, 0 ≤ w → ¬ (v0 ≤ w < v0 + page_cnt len) → entry_of (pgs s') T w = entry_of (pgs s) T w) ∧
      ∀ w, v0 ≤ w < v0 + page_cnt len → (entry_of (pgs s') T w = 0 ∨ entry_of (pgs s') T w = entry_of (pgs s) T w) ∧
        ((∀ y, v0 ≤ y ≤ w → is_Some (T !! (3, pre 3 y))) → entry_of (pgs s') T w = 0)) s.
Proof.
  intros Has Hv Est Esz H0 H1 Hlen Hp0 Hrf Hans. pose proof (as_space _ _ _ _ _ _ _ _ _ Has) as HI.
  assert (overlaps (v0 * 4096) (v0 * 4096) r) as Hov by (unfold overlaps, last_of; lia).
  eapply wp_mono; [eapply (wp_vmspace_unmap_range _ _ s vs X L U Ts Up v0 len); [done|done|done|lia|]|].
  - intros w q Hw Ho. assert ((w, q) = (v, r)) as [= -> ->] by (by eapply ordered_unique; [apply HI|..]). done.
  - intros ret s' [Hno|s1 X' L1 L2 U' w q k -> Ho Has' Hcl Hfree Hkb]; [by destruct (Hno v r)|].
    assert ((w, q) = (v, r)) as [= -> ->] by (eapply ordered_unique; [apply HI|set_solver|done|done|done]).
    rewrite Z.div_mul in Hcl by lia. split; [done|]. exists L1, L2, X', U', k. split_and!; try done.
    intros i T Hi HT. destruct (Hcl i T Hi HT) as [Hout Hin _ Hpre]. split; [done|]. intros x Hx. split; [|by apply Hpre].
    destruct (Hin x Hx); auto.
Qed.

(** C9: Mapping a memory object whose frames are mapped at once, at a range that no region meets, on an address space that has run on one machine only, and
    unmapping the range again gives back the regions and the page table as they were, with the range unmapped ([mappable] also asks for memory for the
    region and the tables).  The range must have as many pages as the object. *)
Theorem vmspace_map_unmap_roundtrip s vs X L U Ts Up T v0 len flags pmo p :
  mappable s vs X L U Ts Up T v0 len pmo p → page_cnt len = page_cnt (pmo_size p) →
  wp (vmspace_map_range CLUSTER_MACHINE_NUM CUR_MACHINE_ID vs (v0 * 4096) len flags pmo;; vmspace_unmap_range CLUSTER_MACHINE_NUM vs (v0 * 4096) len)
    (λ ret s', ret = 0 ∧ ∃ X' U' Ts' Up' T', as_ok s' vs X' L U' Ts' Up' ∧ Ts' !! Z.to_nat CUR_MACHINE_ID = Some T' ∧
      ∀ w, 0 ≤ w → entry_of (pgs s') T' w = if decide (v0 ≤ w < v0 + page_cnt len) then 0 else entry_of (pgs s) T w) s.
Proof.
  intros Hm E. eapply wp_mono; [eapply wp_map_unmap; [exact Hm|lia]|]. intros ret s' (->&X'&U'&Ts'&Up'&T'&Has&HT&He). split; [done|].
  exists X', U', Ts', Up', T'. split_and!; [done|done|]. intros w Hw. rewrite (He w Hw), E. by destruct (decide _).
Qed.

(** C37: A mapping may be shorter than its memory object, but the whole object is mapped, past the end of the region.  Unmapping the region
    leaves the pages behind its end mapped, with no region over them. *)
Theorem short_mapping_survives_unmap s vs X L U Ts Up T v0 len flags pmo p :
  mappable s vs X L U Ts Up T v0 len pmo p → page_cnt len < page_cnt (pmo_size p) →
  wp (vmspace_map_range CLUSTER_MACHINE_NUM CUR_MACHINE_ID vs (v0 * 4096) len flags pmo;; vmspace_unmap_range CLUSTER_MACHINE_NUM vs (v0 * 4096) len)
    (λ ret s', ret = 0 ∧ ∃ X' U' Ts' Up' T', as_ok s' vs X' L U' Ts' Up' ∧ Ts' !! Z.to_nat CUR_MACHINE_ID = Some T' ∧
      ∀ w, v0 + page_cnt len ≤ w < v0 + page_cnt (pmo_size p) → ∃ perm,
        entry_of (pgs s') T' w = new_pte (wrap_u64 (pmo_start p + (w - v0) * 4096)) perm ∧ has (entry_of (pgs s') T' w) PAGE_PRESENT = true) s.
Proof.
  intros Hm Hlt. pose proof (mp_range _ _ _ _ _ _ _ _ _ _ _ _ Hm) as (?&Hlen&_). pose proof (page_cnt_nonneg len). change PAGE_SIZE with 4096 in Hlen.
  eapply wp_mono; [eapply wp_map_unmap; [exact Hm|lia]|]. intros ret s' (->&X'&U'&Ts'&Up'&T'&Has&HT&He). split; [done|].
  exists X', U', Ts', Up', T'. split_and!; [done|done|]. intros w Hw. eexists. rewrite (He w) by lia.
  rewrite decide_False, decide_True by lia. split; [done|apply new_pte_present].
Qed.

Lemma write_lock_held s vs X : vmspaces s !! vs = Some X → vmspace_lock X = true → write_lock vs s = Halt Spins.
Proof. intros E El. unfold write_lock, get_space, mbind, M_bind, get_state. simpl. rewrite E. simpl. by rewrite El. Qed.

(** C39: Unmapping an address with no region returns an error, but with the lock of the address space held: the next operation that takes the
    lock waits for ever. *)
Theorem vmspace_unmap_range_keeps_lock s vs X L U Ts Up va len :
  as_ok s vs X L U Ts Up → (∀ v r, (v, r) ∈ L → ¬ overlaps va va r) →
  ∃ s', vmspace_unmap_range CLUSTER_MACHINE_NUM vs va len s = Ret (-1, s') ∧ write_lock vs s' = Halt Spins.
Proof.
  intros Has Hno. pose proof (as_space _ _ _ _ _ _ _ _ _ Has) as HI. destruct (as_unlocked _ _ _ _ _ _ _ _ _ Has) as [Hu1 _].
  assert (wp (vmspace_unmap_range CLUSTER_MACHINE_NUM vs va len) (λ ret s', ret = -1 ∧ s' = with_space vs (set_vmspace_lock true X) s) s) as Hwp.
  { unfold vmspace_unmap_range. wp_seq. eapply wp_write_lock; [apply HI|done|]. wp_seq. pose proof (so_with _ _ _ (set_vmspace_lock true X) _ _ HI eq_refl) as HI1.
    eapply wp_mono; [by eapply wp_find_vmr_for_va|]. intros v s' [-> [[-> _]|(_&r&Hv&Hov)]]; [|by destruct (Hno v r)].
    rewrite bool_decide_eq_true_2 by done. by wp_seq. }
  apply wp_inv in Hwp as (ret&s'&E&->&->). eexists. split; [exact E|]. by apply (write_lock_held _ _ (set_vmspace_lock true X)); [apply lookup_insert_eq|].
Qed.

(** C33: [defer_pmo_reclaim] takes one more reference on the memory object and remembers it in the list, whose length stays below its bound:
    when it is full, all its references are given up at once.  The references that the list does not hold stay the same, so that no
    object is released that something else refers to; only without memory for the entry the reference is left behind. *)
Theorem defer_pmo_reclaim_correct s vs X L U Ts Up pmo n e k :
  as_ok s vs X L U Ts Up → refs s !! pmo = Some n → kmalloc (entry_type X) sizeof_deferred_pmo (objs s) = Ret (e, k) →
  wp (defer_pmo_reclaim vs pmo) (λ _ s', ∃ X' U', deferral s X pmo e k s' X' ∧ as_ok s' vs X' L U' Ts Up ∧ pgs s' = pgs s ∧
    Z.of_nat (length (deferred_pmo_list X')) < DEFERRED_PMO_MAX) s.
Proof.
  intros Has Hn Hkm. eapply wp_defer; [done|done|done|]. intros s' X' U' Hd Has' Ep. exists X', U'. split_and!; [done|done|done|].
  destruct (as_deferred _ _ _ _ _ _ _ _ _ Has'). lia.
Qed.

(** *** Heap and protection *)

(** C29: [brk] to an address above the end of the heap returns that address.  If the new part meets no region the heap region has the new size,
    at its place among the regions, and its memory object has it too; if it meets one, the heap region is gone from the address
    space although the call returned the new end. *)
Theorem handle_brk_correct s vs X L1 L2 U Ts Up h r addr :
  as_ok s vs X (L1 ++ (h, r) :: L2) U Ts Up → heap_vmr X = h → is_Some (pmos s !! vmr_pmo r) → top_of r ≤ addr < 2 ^ 64 → vmr_start r ≠ 0 →
  wp (handle_brk vs addr) (λ ret s', ret = addr ∧ ∃ X' L', heap_result vs X L1 L2 h r (addr - top_of r) X' L' ∧ as_ok s' vs X' L' U Ts Up ∧
    pmo_enlarged s (vmr_pmo r) (addr - top_of r) s') s.
Proof. apply wp_handle_brk. Qed.

(** C28: [mprotect] of a range that the walk over the regions finds covered, by regions that have the permissions asked for, returns 0: exactly the
    regions found get the protection, and in the tables of all machines only entries of the range change. *)
Theorem handle_mprotect_correct s vs X L U Ts Up v0 len prot R fuel : let target := get_vmr_prot prot in
  as_ok s vs X L U Ts Up → 0 ≤ v0 → v0 + page_cnt len ≤ 510 * 2 ^ 27 → 0 < len < 2 ^ 63 → len mod 4096 = 0 → scan L (v0 * 4096) len R →
  (∀ v r, (v, r) ∈ R → valid_prot (vmr_perm r) target = 0) → (length R ≤ fuel)%nat →
  wp (handle_mprotect CLUSTER_MACHINE_NUM fuel vs (v0 * 4096) len prot) (λ ret s', ret = 0 ∧
    as_ok s' vs X (reperm R.*1 target <$> L) U Ts Up ∧ protected CLUSTER_MACHINE_NUM (pgs s) Ts v0 (page_cnt len) target (pgs s')) s.
Proof. apply wp_handle_mprotect. Qed.

(** C38: The walk of [mprotect] goes on by the size of the region it finds, also when it starts in its middle.  So a range that begins inside
    one region and reaches into the next is let through by the first alone: the pages of the second get permissions in the page table that
    their region does not have. *)
Theorem mprotect_changes_unchecked_region s vs X L U Ts Up v ra w rb v0 len prot fuel i T x : let target := get_vmr_prot prot in
  as_ok s vs X L U Ts Up → (v, ra) ∈ L → (w, rb) ∈ L → vmr_start ra < v0 * 4096 ≤ last_of ra → vmr_size ra = len → top_of ra = vmr_start rb →
  0 < len < 2 ^ 63 → len mod 4096 = 0 → v0 + page_cnt len ≤ 510 * 2 ^ 27 →
  valid_prot (vmr_perm ra) target = 0 → valid_prot (vmr_perm rb) target ≠ 0 →
  Ts !! i = Some T → Z.of_nat i < CLUSTER_MACHINE_NUM → overlaps (x * 4096) (x * 4096) rb → v0 ≤ x < v0 + page_cnt len →
  (∀ y, v0 ≤ y < v0 + page_cnt len → is_Some (T !! (3, pre 3 y))) → has (entry_of (pgs s) T x) PAGE_PRESENT = true →
  wp (handle_mprotect CLUSTER_MACHINE_NUM (S fuel) vs (v0 * 4096) len prot) (λ ret s', ret = 0 ∧ vmrs s' !! w = Some rb ∧
    entry_of (pgs s') T x = set_pte_flags (entry_of (pgs s) T x) target) s.
Proof.
  intros target Has Hv Hw Hin Hsz Htop Hlen Hal Hr Hva Hvb HT Hi Hx Hx2 Htab Hpr. pose proof (as_space _ _ _ _ _ _ _ _ _ Has) as HI.
  destruct (so_region _ _ _ _ _ HI v ra Hv) as [_ (?&_&?)]. assert (v ≠ w) as Hne.
  { intros ->. assert (ra = rb) as <-; [|done]. destruct (so_region _ _ _ _ _ HI w ra Hv), (so_region _ _ _ _ _ HI w rb Hw). congruence. }
  eapply wp_mono; [eapply (wp_handle_mprotect _ _ s vs X L U Ts Up v0 len prot [(v, ra)]); [done|lia|done|done|done| | |simpl; lia]|].
  - eapply Scan_step; [done|unfold overlaps; lia|lia| |rewrite Hsz, Z.sub_diag; constructor].
    assert (2 ^ 64 = 2 ^ 63 + 2 ^ 63) as E64 by done. assert (510 * 2 ^ 27 * 4096 < 2 ^ 63) by done. pose proof (page_cnt_nonneg len ltac:(lia)). lia.
  - intros ? ? [= -> ->]%list_elem_of_singleton. done.
  - intros ret s' (->&Has'&Hpt). destruct (as_tables _ _ _ _ _ _ _ _ _ Has) as [Hl _ _]. split_and!; [done| |].
    + apply (so_region _ _ _ _ _ (as_space _ _ _ _ _ _ _ _ _ Has') w rb). apply list_elem_of_fmap. exists (w, rb). split; [|done].
      unfold reperm. simpl. rewrite decide_False; [done|]. by intros ->%list_elem_of_singleton.
    + destruct (Hpt i T Hi HT) as [_ _ Hex _]. destruct (lookup_lt_is_Some_2 (pgtbl X) i) as [root Hroot]; [rewrite <-Hl; by eapply lookup_lt_Some|].
      rewrite (Hex (tables_exact 510 _ _ _ _ _ _ _ (tb_ok _ _ _ _ (as_tables _ _ _ _ _ _ _ _ _ Has) _ _ _ Hroot HT) Htab) eq_refl x) by lia.
      rewrite decide_True by done. unfold with_flags. by rewrite Hpr.
Qed.

(** A region without bytes, as [brk] inserts for a heap that is still empty, keeps [mprotect] at its address for ever: no number of rounds
    is enough, and the lock of the address space is held. *)
Theorem mprotect_empty_region_diverges s vs X L U Ts Up v r len prot fuel :
  as_ok s vs X L U Ts Up → (v, r) ∈ L → vmr_size r = 0 → vmr_start r mod 4096 = 0 → 0 < len < 2 ^ 63 → len mod 4096 = 0 →
  valid_prot (vmr_perm r) (get_vmr_prot prot) = 0 → handle_mprotect CLUSTER_MACHINE_NUM fuel vs (vmr_start r) len prot s = Halt OutOfFuel.
Proof.
  intros Has Hv Hsz Hst Hlen Hal Hval. pose proof (as_space _ _ _ _ _ _ _ _ _ Has) as HI. destruct (as_unlocked _ _ _ _ _ _ _ _ _ Has) as [Hu1 _].
  destruct (wp_inv _ _ _ (wp_write_lock s vs X (λ _ s', s' = with_space vs (set_vmspace_lock true X) s) (so_space _ _ _ _ _ HI) Hu1 eq_refl)) as ([]&s'&E&->).
  unfold handle_mprotect. change PAGE_SIZE with 4096. rewrite Hst, Hal, bool_decide_eq_true_2 by done. cbn [negb orb].
  rewrite bool_decide_eq_false_2 by lia. unfold mbind, M_bind. rewrite E, to_s64_small by lia.
  rewrite (mprotect_check_spins _ vs (set_vmspace_lock true X) L U _ _ _ v r); [done|by apply (so_with _ _ X)|done..|lia|done].
Qed.

(** The length of the range is taken as a signed number: a length of 2^63 or more ends in the [BUG] behind the walk, before any region
    is looked at. *)
Theorem mprotect_huge_length_bug s vs X L U Ts Up addr len prot fuel :
  as_ok s vs X L U Ts Up → addr mod 4096 = 0 → 2 ^ 63 ≤ len < 2 ^ 64 → len mod 4096 = 0 →
  handle_mprotect CLUSTER_MACHINE_NUM fuel vs addr len prot s = Halt BugHit.
Proof.
  intros Has Ha Hlen Hal. pose proof (as_space _ _ _ _ _ _ _ _ _ Has) as HI. destruct (as_unlocked _ _ _ _ _ _ _ _ _ Has) as [Hu1 _].
  destruct (wp_inv _ _ _ (wp_write_lock s vs X (λ _ s', s' = with_space vs (set_vmspace_lock true X) s) (so_space _ _ _ _ _ HI) Hu1 eq_refl)) as ([]&s'&E&->).
  unfold handle_mprotect. change PAGE_SIZE with 4096. rewrite Ha, Hal, bool_decide_eq_true_2 by done. cbn [negb orb].
  rewrite bool_decide_eq_false_2 by lia. unfold mbind, M_bind. rewrite E. unfold to_s64. rewrite bool_decide_eq_false_2 by lia.
  destruct fuel; cbn [mprotect_check]; rewrite bool_decide_eq_false_2 by lia; unfold bug_on; rewrite bool_decide_eq_false_2 by lia; done.
Qed.
End theorems.

(** ** Witnesses

    An address space of one machine, with the page tables of PageTableTheorems.v and regions from a second booted allocator.  The memory
    objects at 0x5000 and 0x7000 have two and three frames, the one at 0x6000 has none. *)

#[local] Existing Instances PageTableTheorems.pages PageTableTheorems.pages_spec.
#[local] Instance objects : ObjSource (mem pools) := dram_objects elsewhere elsewhere elsewhere true two_machines 0 3.
#[local] Instance objects_spec : ObjSourceSpec (mem pools) := dram_objects_spec elsewhere elsewhere elsewhere true two_machines 0 3.

Definition home : Z := 2 ^ 40.
Definition block1 : Z := 2 ^ 32 + 128.
Definition block2 : Z := 2 ^ 32 + 256.
Definition frames : pmobject := Pmo (2 ^ 20) 8192 PMO_DATA false.
Definition lazily : pmobject := Pmo 0 8192 PMO_ANONYM false.
Definition new_space (roots : list Z) : vmspace := VmSpace [] roots false false [] [] [] false 0 block1 MMAP_START 0.
Definition three : pmobject := Pmo (2 ^ 20) 12288 PMO_DATA false.
Definition some_pmos : gmap Z pmobject := {[0x5000 := frames; 0x6000 := lazily; 0x7000 := three]}.
Definition some_refs : gmap Z Z := {[0x5000 := 1; 0x6000 := 1; 0x7000 := 1]}.
Definition new_state (roots : list Z) (k : mem pools) (g : pgmem (mem pools)) : vmem (mem pools) (mem pools) :=
  VMem {[home := new_space roots]} ∅ some_pmos some_refs [] (RbMem ∅ {[vmr_tree_of home := 0]}) k g.

Lemma objects_ready : os_inv (booted (2 ^ 20) 512) ∅.
Proof.
  destruct (booted_ok (2 ^ 20) 512 ltac:(lia) ltac:(lia) ltac:(vm_compute; discriminate)) as (Hm&Hu&_&_). revert Hm Hu.
  generalize (booted (2 ^ 20) 512). intros s Hm Hu. split; [vm_compute; done|]. exists (fresh_view (2 ^ 20) 512), ∅.
  split_and!; [exact Hm|exact Hu|by intros p ?%elem_of_empty].
Qed.

(** The first blocks *)
Lemma blocks : ∃ k1 k2, kmalloc MT_OBJECT sizeof_vmregion (booted (2 ^ 20) 512) = Ret (block1, k1) ∧
  kmalloc MT_OBJECT sizeof_vmregion k1 = Ret (block2, k2).
Proof.
  assert (match kmalloc MT_OBJECT sizeof_vmregion (booted (2 ^ 20) 512) with
          | Ret (x, k1) => match kmalloc MT_OBJECT sizeof_vmregion k1 with Ret (y, _) => (x, y) | Halt _ => (0, 0) end
          | Halt _ => (0, 0) end = (block1, block2)) as E by (vm_compute; reflexivity).
  destruct (kmalloc MT_OBJECT sizeof_vmregion (booted (2 ^ 20) 512)) as [[x k1]|]; [|discriminate E].
  exists k1. destruct (kmalloc MT_OBJECT sizeof_vmregion k1) as [[y k2]|]; [|discriminate E]. injection E as -> ->. by exists k2.
Qed.

Lemma space_ready k : os_inv k ∅ → ∃ root g, room 19 (src g) ∧
  as_ok 1 0 (new_state [root] k g) home (new_space [root]) [] ∅ [{[(0, 0) := root]}] {[root]} ∧ ∀ w, entry_of g {[(0, 0) := root]} w = 0.
Proof.
  intros Hk. destruct (ready_root 510 ltac:(lia)) as (root&g&_&HI&Hr&Hrm). exists root, g. split; [exact Hr|].
  split; [|intros w; apply entry_of_root]. split; [| | |done|simpl; lia].
  - split; [apply lookup_insert_eq| |done|by intros ? ? ?%elem_of_nil|by intros ? ?%elem_of_nil|constructor|exact Hk].
    exists Leaf. split_and!; [|by exists 0%nat; constructor|done]. split_and!; [apply lookup_insert_eq|done|constructor].
  - split; [done| |].
    + intros [|i] x T [= <-] [= <-]. rewrite Hrm. exact HI.
    + intros [|i] [|j] T T' ???; [done|..]; done.
  - split; [done|done|apply NoDup_nil_2|by intros ? ?%elem_of_nil|by intros ? ?%elem_of_nil|done].
Qed.

Lemma small_block : ∃ e k, kmalloc MT_DEFAULT sizeof_deferred_pmo (booted (2 ^ 20) 512) = Ret (e, k) ∧ e ≠ 0.
Proof.
  assert (match kmalloc MT_DEFAULT sizeof_deferred_pmo (booted (2 ^ 20) 512) with Ret (x, _) => negb (x =? 0) | Halt _ => false end = true) as E
    by (vm_compute; reflexivity).
  destruct (kmalloc MT_DEFAULT sizeof_deferred_pmo (booted (2 ^ 20) 512)) as [[e k]|]; [|discriminate E]. exists e, k. split; [reflexivity|].
  intros ->. discriminate E.
Qed.

(** No regions *)
Lemma start : ∃ root k1 k2 s, as_ok 1 0 s home (new_space [root]) [] ∅ [{[(0, 0) := root]}] {[root]} ∧ room 19 (src (pgs s)) ∧
  pmos s = some_pmos ∧ refs s = some_refs ∧ (∀ w, entry_of (pgs s) {[(0, 0) := root]} w = 0) ∧
  kmalloc MT_OBJECT sizeof_vmregion (objs s) = Ret (block1, k1) ∧ kmalloc MT_OBJECT sizeof_vmregion k1 = Ret (block2, k2) ∧
  ∃ e k, kmalloc MT_DEFAULT sizeof_deferred_pmo (objs s) = Ret (e, k) ∧ e ≠ 0.
Proof.
  pose proof objects_ready as Hos. destruct blocks as (k1&k2&E1&E2). pose proof small_block as E3. revert Hos E1 E3.
  generalize (booted (2 ^ 20) 512). intros k Hos E1 E3. destruct (space_ready k Hos) as (root&g&Hr&Has&He).
  exists root, k1, k2, (new_state [root] k g). done.
Qed.

(** One region without frames, the heap *)
Definition heap : vmregion := VmRegion home (7 * 4096) 8192 VMR_READ 0x6000.
Lemma one_region : ∃ root k2 s Up, as_ok 1 0 s home (set_vmr_list [block1] (new_space [root])) [(block1, heap)] {[block1]} [{[(0, 0) := root]}] Up ∧
  room 19 (src (pgs s)) ∧ pmos s = some_pmos ∧ refs s = some_refs ∧ (∀ w, entry_of (pgs s) {[(0, 0) := root]} w = 0) ∧
  kmalloc MT_OBJECT sizeof_vmregion (objs s) = Ret (block2, k2).
Proof.
  destruct start as (root&k1&k2&s&Has&Hr&Epm&Erf&He&E1&E2&_).
  destruct (wp_inv _ _ _ (wp_vmspace_map_range 1 0 s home _ [] ∅ _ _ (7 * 4096) 8192 VMR_READ 0x6000 lazily block1 k1 Has ltac:(by rewrite Epm)
    ltac:(done) E1 ltac:(done) ltac:(done))) as (res&s'&_&Hres).
  inversion Hres as [? E|? ? ? _ Hw|? L1 L2 Ts' Up' _ _ EL Has' Hf Erf' Epm' Eob]; [discriminate E|by apply elem_of_nil in Hw|].
  symmetry in EL. apply app_nil in EL as [-> ->]. destruct Hf as [Ep ->]. exists root, k2, s', Up'. rewrite Ep, Epm', Erf', Eob.
  rewrite union_empty_r_L in Has'. done.
Qed.

(** Two regions side by side; the three frames of the second are mapped, the last of them in the range of the first. *)
Definition writable : vmregion := VmRegion home (5 * 4096) 8192 (Z.lor VMR_READ VMR_WRITE) 0x7000.
Lemma two_regions : ∃ root s U T Up, as_ok 1 0 s home (set_vmr_list [block2; block1] (new_space [root])) [(block2, writable); (block1, heap)] U [T] Up ∧
  ∀ w, 0 ≤ w → entry_of (pgs s) T w =
    if decide (5 ≤ w < 8) then new_pte (wrap_u64 (2 ^ 20 + (w - 5) * 4096)) (Z.lor VMR_READ VMR_WRITE) else 0.
Proof.
  destruct one_region as (root&k2&s&Up&Has&Hr&Epm&Erf&He&E2).
  destruct (wp_inv _ _ _ (wp_vmspace_map_range 1 0 s home _ _ _ _ _ (5 * 4096) 8192 (Z.lor VMR_READ VMR_WRITE) 0x7000 three block2 k2 Has ltac:(by rewrite Epm)
    ltac:(done) E2 ltac:(done) ltac:(intros _; exists 5; split_and!; [done..|apply (room_le 19); [simpl; lia|done]]))) as (res&s'&_&Hres).
  inversion Hres as [? E|? w q _ Hw Ho|? L1 L2 Ts' Up' _ _ EL Has' Hf Erf' Epm' Eob]; [discriminate E| |].
  { apply list_elem_of_singleton in Hw as [= -> ->]. destruct Ho as [Ho _]. by vm_compute in Ho; destruct Ho. }
  destruct Hf as (T&T'&[= <-]&->&Hch&_). destruct L1 as [|a [|b L1]]; simpl in EL; [subst L2| |discriminate EL].
  - exists root, s', ({[block2]} ∪ {[block1]}), T', Up'. split; [exact Has'|]. intros w Hw. rewrite (Hch w Hw). by rewrite He.
  - injection EL as <- <-. pose proof (so_order _ _ _ _ _ (as_space _ _ _ _ _ _ _ _ _ Has')) as Ho. apply StronglySorted_inv in Ho as [_ Ho].
    apply Forall_cons in Ho as [Ho _]. by vm_compute in Ho.
Qed.

Lemma vmspace_init_correct_witness : ∃ s : vmem (mem pools) (mem pools), wp (vmspace_init (λ _, 0x87) 5 home) (λ ret _, ret = 0) s.
Proof.
  pose proof objects_ready as Hos. exists (new_state [] (booted (2 ^ 20) 512) ready). revert Hos. generalize (booted (2 ^ 20) 512). intros k Hos.
  eapply wp_mono; [apply (vmspace_init_correct 1 0 (new_state [] k ready) home (new_space []) ∅ ∅ (λ _, 0x87) 5);
    [apply lookup_insert_eq|by eexists; apply lookup_insert_eq|exact Hos|exact ready_inv|exact (room_le 20 8 _ ltac:(lia) ready_room)|lia|unfold u64; lia..|lia|vm_compute; discriminate]|].
  intros ret s' [E _]. exact E.
Defined.

Lemma vmspace_map_range_correct_witness : ∃ s : vmem (mem pools) (mem pools), wp (vmspace_map_range 1 0 home (5 * 4096) 8192 VMR_READ 0x5000) (λ res _, res = (0, block1)) s.
Proof.
  destruct start as (root&k1&k2&s&Has&Hr&Epm&_&_&E1&_). exists s.
  eapply wp_mono; [apply (vmspace_map_range_correct 1 0 s home _ [] ∅ _ _ (5 * 4096) 8192 VMR_READ 0x5000 frames block1 k1 Has ltac:(by rewrite Epm) ltac:(done) E1 ltac:(done)
    ltac:(intros _; exists 5; split_and!; [done..|apply (room_le 19); [simpl; lia|done]]))|].
  intros res s' Hres. inversion Hres as [? E|? ? ? _ Hw|]; [discriminate E|by apply elem_of_nil in Hw|done].
Defined.

(** Memory for a region and for an entry of the list of deferred releases *)
Lemma shared_ready : os_inv (booted (2 ^ 20) 1024) ∅.
Proof.
  destruct (booted_ok (2 ^ 20) 1024 ltac:(lia) ltac:(lia) ltac:(vm_compute; discriminate)) as (Hm&Hu&_&_). revert Hm Hu.
  generalize (booted (2 ^ 20) 1024). intros s Hm Hu. split; [vm_compute; done|]. exists (fresh_view (2 ^ 20) 1024), ∅.
  split_and!; [exact Hm|exact Hu|by intros p ?%elem_of_empty].
Qed.
Lemma shared_blocks : ∃ k1 k2 k3 e, kmalloc MT_OBJECT sizeof_vmregion (booted (2 ^ 20) 1024) = Ret (block1, k1) ∧ kfree block1 k1 = Ret (tt, k2) ∧
  kmalloc MT_SHARED sizeof_deferred_pmo k2 = Ret (e, k3) ∧ e ≠ 0.
Proof.
  assert (match kmalloc MT_OBJECT sizeof_vmregion (booted (2 ^ 20) 1024) with
          | Ret (x, k1) => match kfree x k1 with
              | Ret (_, k2) => match kmalloc MT_SHARED sizeof_deferred_pmo k2 with Ret (e, _) => (x, negb (e =? 0)) | Halt _ => (0, false) end
              | Halt _ => (0, false) end
          | Halt _ => (0, false) end = (block1, true)) as E by (vm_compute; reflexivity).
  destruct (kmalloc MT_OBJECT sizeof_vmregion (booted (2 ^ 20) 1024)) as [[x k1]|]; [|discriminate E].
  destruct (kfree x k1) as [[[] k2]|] eqn:E2; [|discriminate E].
  destruct (kmalloc MT_SHARED sizeof_deferred_pmo k2) as [[e k3]|] eqn:E3; [|discriminate E]. injection E as -> Ee. exists k1, k2, k3, e.
  split; [reflexivity|]. split; [exact E2|]. split; [exact E3|]. intros ->. discriminate Ee.
Qed.

(** Roots for two machines *)
Lemma two_roots : ∃ r0 r1 g, room 18 (src g) ∧ tables_ok g [r0; r1] [{[(0, 0) := r0]}; {[(0, 0) := r1]}] ({[r1]} ∪ {[r0]}) ∧
  (∀ w, entry_of g {[(0, 0) := r0]} w = 0).
Proof.
  destruct (wp_inv _ _ _ (wp_new_ptp ready ∅ 19 ready_inv ready_room)) as (r0&g0&_&_&H0&R0&_&E0). rewrite union_empty_r_L in H0.
  destruct (wp_inv _ _ _ (wp_new_ptp g0 _ 18 H0 R0)) as (r1&g&_&Hn&H1&R1&_&E1). exists r0, r1, g. split; [exact R1|].
  assert (r1 ≠ r0) as Hne by (intros ->; apply Hn; by apply elem_of_singleton).
  assert (∀ r, r ∈ [r0; r1] → r ∈ ({[r1]} ∪ {[r0]} : gset Z) ∧ ptps g !! r = Some zero_ptp) as Hin.
  { intros r Hr. split; [set_solver|]. rewrite E1. apply elem_of_cons in Hr as [->|E%list_elem_of_singleton]; [|rewrite E; apply lookup_insert_eq].
    cbn [ptps set_ptps]. rewrite lookup_insert_ne by done. rewrite E0. apply lookup_insert_eq. }
  assert (∀ r, r ∈ [r0; r1] → remove_pcid r = r) as Hpc.
  { intros r Hr. destruct (ps_addr _ _ r H1 (proj1 (Hin r Hr))) as [Ha _]. destruct (remove_lor_pcid r 0 Ha ltac:(lia)) as [Hp _]. by rewrite Z.lor_0_r in Hp. }
  split; [|intros w; apply entry_of_root].
  assert ([{[(0, 0) := r0]}; {[(0, 0) := r1]}] = (λ r, {[(0, 0) := remove_pcid r]} : gmap (Z * Z) Z) <$> [r0; r1]) as ->
    by (cbn; rewrite !Hpc by set_solver; reflexivity).
  apply roots_tables; [cbn; rewrite !Hpc by set_solver; apply NoDup_cons; split; [set_solver|apply NoDup_singleton]|].
  intros r Hr. rewrite (Hpc r Hr). destruct (Hin r Hr) as [HU Hz].
  apply (pt_root_only 510 g r _ zero_ptp); [lia|exact H1|exact HU|exact Hz|reflexivity|by apply Forall_replicate|].
  intros i Hi. apply lookup_replicate_2. change (Z.to_nat PTP_ENTRIES) with 512%nat. lia.
Qed.

(** An address space that has run on two machines, with a region whose two frames are mapped on the first *)
Definition both (roots : list Z) : vmspace := VmSpace [] roots false false [] [true; true] [] false 0 block1 MMAP_START 0.
Definition shared : vmregion := VmRegion home (5 * 4096) 8192 VMR_READ 0x5000.
Lemma two_machines_region : ∃ s X Ts Up T k2 e k3, as_ok 2 0 s home X [(block1, shared)] {[block1]} Ts Up ∧ refs s = some_refs ∧
  vmspace_is_multi_machine X = true ∧ deferred_pmo_list X = [] ∧ Ts !! 0%nat = Some T ∧
  (∀ w, 5 ≤ w < 7 → has (entry_of (pgs s) T w) PAGE_PRESENT = true) ∧
  kfree block1 (objs s) = Ret (tt, k2) ∧ kmalloc MT_SHARED sizeof_deferred_pmo k2 = Ret (e, k3) ∧ e ≠ 0.
Proof.
  pose proof shared_ready as Hos. destruct shared_blocks as (k1&k2&k3&e&E1&E2&E3&He). revert Hos E1. generalize (booted (2 ^ 20) 1024). intros k0 Hos E1.
  destruct two_roots as (r0&r1&g&Hr&Htb&Hz).
  set (s := VMem {[home := both [r0; r1]]} ∅ some_pmos some_refs [] (RbMem ∅ {[vmr_tree_of home := 0]}) k0 g : vmem (mem pools) (mem pools)).
  assert (as_ok 2 0 s home (both [r0; r1]) [] ∅ [{[(0, 0) := r0]}; {[(0, 0) := r1]}] ({[r1]} ∪ {[r0]})) as Has.
  { split; [|exact Htb| |done|simpl; lia].
    - split; [apply lookup_insert_eq| |done|by intros ? ? ?%elem_of_nil|by intros ? ?%elem_of_nil|constructor|exact Hos].
      exists Leaf. split_and!; [|by exists 0%nat; constructor|done]. split_and!; [apply lookup_insert_eq|done|constructor].
    - split; [done|done|apply NoDup_nil_2|by intros ? ?%elem_of_nil|by intros ? ?%elem_of_nil|done]. }
  destruct (wp_inv _ _ _ (wp_vmspace_map_range 2 0 s home _ [] ∅ _ _ (5 * 4096) 8192 VMR_READ 0x5000 frames block1 k1 Has ltac:(done)
    ltac:(done) E1 ltac:(done) ltac:(intros _; exists 5; split_and!; [done..|apply (room_le 18); [simpl; lia|exact Hr]]))) as (res&s'&_&Hres).
  inversion Hres as [? E|? ? ? _ Hw|? L1 L2 Ts' Up' _ _ EL Has' Hf Erf Epm Eob]; [discriminate E|by apply elem_of_nil in Hw|].
  symmetry in EL. apply app_nil in EL as [-> ->]. destruct Hf as (T&T'&[= <-]&->&Hch&_). rewrite union_empty_r_L in Has'.
  eexists s', _, _, Up', T', k2, e, k3. split; [exact Has'|]. split; [exact Erf|]. split; [done|]. split; [done|]. split; [done|].
  split; [|rewrite Eob; done]. intros w Hw. rewrite (Hch w ltac:(lia)), decide_True; [apply new_pte_present|].
  change (vmr_start (placed [] _) / 4096) with 5. change (page_cnt (pmo_size frames)) with 2. lia.
Qed.

Lemma vmspace_unmap_range_correct_witness : ∃ (s : vmem (mem pools) (mem pools)) T k,
  has (entry_of (pgs s) T 5) PAGE_PRESENT = true ∧ has (entry_of (pgs s) T 6) PAGE_PRESENT = true ∧ refs s !! 0x5000 = Some 1 ∧
  kfree block1 (objs s) = Ret (tt, k) ∧
  wp (vmspace_unmap_range 2 home (5 * 4096) 8192) (λ ret s', ret = 0 ∧ entry_of (pgs s') T 5 = 0 ∧ entry_of (pgs s') T 6 = 0 ∧
    refs s' !! 0x5000 = Some 2 ∧ ∃ e, e ≠ 0 ∧ kmalloc MT_SHARED sizeof_deferred_pmo k = Ret (e, objs s')) s.
Proof.
  destruct two_machines_region as (s&X&Ts&Up&T&k2&e&k3&Has&Erf&Hmm&Hdl&HT&Hpr&Ek&Em&He). exists s, T, k2.
  split; [apply Hpr; lia|]. split; [apply Hpr; lia|]. assert (refs s !! 0x5000 = Some 1) as H1 by (by rewrite Erf). split; [exact H1|]. split; [exact Ek|].
  eapply wp_mono; [apply (vmspace_unmap_range_correct 2 0 s home X _ _ Ts Up 5 8192 block1 shared Has);
    [by left|done|done|lia|change (page_cnt 8192) with 2; lia|lia|done|by eexists|by intros _; exists k2, e, k3]|].
  intros ret s' (E&L1&L2&X'&U'&k&_&_&Ek'&Hkb&Hcl). split; [exact E|]. rewrite Ek in Ek'. injection Ek' as <-.
  destruct (Hcl 0%nat T ltac:(lia) HT) as [_ Hin].
  assert (∀ y, 5 ≤ y < 7 → is_Some (T !! (3, pre 3 y))) as Htab.
  { intros y Hy. apply (mapped_table (pgs s)). intros Hz. specialize (Hpr y Hy). rewrite Hz in Hpr. discriminate Hpr. }
  split; [apply (Hin 5 ltac:(change (page_cnt 8192) with 2; lia)); intros y Hy; apply Htab; lia|].
  split; [apply (Hin 6 ltac:(change (page_cnt 8192) with 2; lia)); intros y Hy; apply Htab; lia|].
  unfold kept_back in Hkb. change (vmspace_is_multi_machine (without block1 X)) with (vmspace_is_multi_machine X) in Hkb. rewrite Hmm in Hkb.
  destruct Hkb as (e'&k'&Em'&[Hob HX' Hrf _]). rewrite Em in Em'. injection Em' as <- <-.
  change (deferred_pmo_list (without block1 X)) with (deferred_pmo_list X) in *. rewrite Hdl in *.
  assert (bool_decide (e = 0) = false) as Ee by (by apply bool_decide_eq_false_2).
  destruct (Hrf _ _ H1) as (n&Hn&En). unfold drained, with_deferred in *. rewrite Ee in *. rewrite HX' in En. cbn in Hob, En. rewrite decide_False in En by (by intros [? _]).
  rewrite bool_decide_eq_true_2 in En by (vm_compute; reflexivity). rewrite count_cons in En. change (count 0x5000 []) with 0 in En.
  rewrite decide_True in En by done. split; [rewrite Hn; f_equal; lia|]. exists e. split; [exact He|]. rewrite Em. by injection Hob as ->.
Defined.

Lemma start_mappable len : PAGE_SIZE ≤ len ≤ 8192 → ∃ root s, mappable 1 0 s home (new_space [root]) [] ∅ [{[(0, 0) := root]}] {[root]} {[(0, 0) := root]} 5 len 0x5000 frames.
Proof.
  intros Hl. change PAGE_SIZE with 4096 in Hl. destruct start as (root&k1&k2&s&Has&Hr&Epm&Erf&_&E1&_). exists root, s.
  assert (page_cnt len ≤ 3) as Hc.
  { unfold page_cnt. change PAGE_SIZE with 4096. pose proof (Z.div_le_mono len 8192 4096 ltac:(lia) ltac:(lia)) as H. change (8192 / 4096) with 2 in H. case_bool_decide; lia. }
  split; [exact Has|done|by rewrite Epm|by rewrite Erf|done| | |by intros ? ? ?%elem_of_nil|done|by exists block1, k1].
  - change PAGE_SIZE with 4096. change (page_cnt (pmo_size frames)) with 2. lia.
  - apply (room_le 19); [simpl; lia|exact Hr].
Qed.

Lemma vmspace_map_unmap_roundtrip_witness : ∃ s : vmem (mem pools) (mem pools),
  wp (vmspace_map_range 1 0 home (5 * 4096) 8192 VMR_READ 0x5000;; vmspace_unmap_range 1 home (5 * 4096) 8192) (λ ret _, ret = 0) s.
Proof.
  destruct (start_mappable 8192 ltac:(change PAGE_SIZE with 4096; lia)) as (root&s&Hm). exists s.
  eapply wp_mono; [exact (vmspace_map_unmap_roundtrip 1 0 s home _ _ _ _ _ _ 5 8192 VMR_READ 0x5000 frames Hm eq_refl)|]. intros ret s' [E _]. exact E.
Defined.

Lemma short_mapping_survives_unmap_witness : ∃ s : vmem (mem pools) (mem pools),
  wp (vmspace_map_range 1 0 home (5 * 4096) 4096 VMR_READ 0x5000;; vmspace_unmap_range 1 home (5 * 4096) 4096)
    (λ ret s', ret = 0 ∧ ∃ T, has (entry_of (pgs s') T 6) PAGE_PRESENT = true) s.
Proof.
  destruct (start_mappable 4096 ltac:(change PAGE_SIZE with 4096; lia)) as (root&s&Hm). exists s.
  eapply wp_mono; [exact (short_mapping_survives_unmap 1 0 s home _ _ _ _ _ _ 5 4096 VMR_READ 0x5000 frames Hm ltac:(reflexivity))|].
  intros ret s' (E&X&U&Ts&Up&T&_&_&He). split; [exact E|]. exists T. destruct (He 6) as (perm&_&Hpr); [|exact Hpr].
  change (5 + page_cnt 4096) with 6. change (5 + page_cnt (pmo_size frames)) with 7. lia.
Defined.

Lemma vmspace_unmap_range_keeps_lock_witness : ∃ s s' : vmem (mem pools) (mem pools),
  vmspace_unmap_range 1 home 4096 4096 s = Ret (-1, s') ∧ write_lock home s' = Halt Spins.
Proof.
  destruct start as (root&k1&k2&s&Has&_). exists s.
  apply (vmspace_unmap_range_keeps_lock 1 0 s home _ _ _ _ _ 4096 4096 Has). by intros ? ? ?%elem_of_nil.
Defined.

Lemma defer_pmo_reclaim_correct_witness : ∃ s : vmem (mem pools) (mem pools), refs s !! 0x5000 = Some 1 ∧
  wp (defer_pmo_reclaim home 0x5000) (λ _ s', refs s' !! 0x5000 = Some 2) s.
Proof.
  destruct start as (root&k1&k2&s&Has&_&_&Erf&_&_&_&e&k&E3&He). exists s. assert (refs s !! 0x5000 = Some 1) as H1 by (by rewrite Erf). split; [exact H1|].
  eapply wp_mono; [exact (defer_pmo_reclaim_correct 1 0 s home _ _ _ _ _ 0x5000 1 e k Has H1 E3)|].
  intros _ s' (X'&U'&[_ EX Hd _]&_). destruct (Hd _ _ H1) as (n&Hn&En). rewrite Hn. f_equal. rewrite EX in En. unfold with_deferred in En.
  rewrite (bool_decide_eq_false_2 (e = 0)) in En by done. rewrite decide_False in En by (by intros [? _]). simpl in En. unfold count in En. simpl in En. lia.
Defined.

Lemma handle_brk_correct_witness : ∃ s : vmem (mem pools) (mem pools), wp (handle_brk home (10 * 4096)) (λ ret _, ret = 10 * 4096) s.
Proof.
  destruct one_region as (root&k2&s&Up&Has&_&Epm&_). exists s.
  eapply wp_mono; [apply (handle_brk_correct 1 0 s home _ [] [] _ _ _ block1 heap (10 * 4096) Has); [done|by rewrite Epm; eexists|done|done]|].
  intros ret s' [E _]. exact E.
Defined.

Lemma handle_mprotect_correct_witness : ∃ s : vmem (mem pools) (mem pools), wp (handle_mprotect 1 5 home (7 * 4096) 8192 PROT_READ) (λ ret _, ret = 0) s.
Proof.
  destruct one_region as (root&k2&s&Up&Has&_). exists s.
  eapply wp_mono; [apply (handle_mprotect_correct 1 0 s home _ _ _ _ _ 7 8192 PROT_READ [(block1, heap)] 5 Has); [lia|done|lia|done| | |simpl; lia]|].
  - eapply Scan_step; [by left|split; done|split; done|done|]. constructor.
  - by intros v r [= -> ->]%list_elem_of_singleton.
  - intros ret s' [E _]. exact E.
Defined.

Lemma mprotect_changes_unchecked_region_witness : ∃ (s : vmem (mem pools) (mem pools)) T,
  wp (handle_mprotect 1 1 home (6 * 4096) 8192 PROT_WRITE) (λ ret s', ret = 0 ∧ vmrs s' !! block1 = Some heap ∧
    has (entry_of (pgs s') T 7) PAGE_RW = true) s.
Proof.
  destruct two_regions as (root&s&U&T&Up&Has&He). exists s, T. assert (∀ y, 6 ≤ y < 6 + page_cnt 8192 → 5 ≤ y < 8) as Hy by (change (page_cnt 8192) with 2; lia).
  eapply wp_mono; [apply (mprotect_changes_unchecked_region 1 0 s home _ _ _ _ _ block2 writable block1 heap 6 8192 PROT_WRITE 0 0 T 7 Has)|]; try done.
  - by left.
  - right. by left.
  - intros y ?%Hy. apply (mapped_table (pgs s)). rewrite He, decide_True by lia. apply new_pte_nonzero.
  - rewrite He, decide_True by lia. apply new_pte_present.
  - intros ret s' (E&Hw&Hx). split; [exact E|]. split; [exact Hw|]. rewrite Hx, He, decide_True by lia. reflexivity.
Defined.

(** A region without bytes, at the cursor *)
Lemma empty_region : ∃ s X U T Up, as_ok 1 0 s home X [(block1, VmRegion home MMAP_START 0 VMR_READ 0x6000)] U [T] Up.
Proof.
  destruct start as (root&k1&k2&s&Has&_&Epm&_&_&E1&_).
  destruct (wp_inv _ _ _ (wp_vmspace_mmap 1 0 s home _ [] ∅ _ _ 0x6000 lazily 0 VMR_READ block1 k1 Has ltac:(by rewrite Epm) ltac:(by left) ltac:(done) E1 ltac:(done))) as (res&s'&_&Hres).
  inversion Hres as [? E|? ? ? _ Hw|? L1 L2 _ _ EL Has']; [discriminate E|by apply elem_of_nil in Hw|].
  symmetry in EL. apply app_nil in EL as [-> ->]. eexists s', _, _, _, _. exact Has'.
Qed.

Lemma mprotect_empty_region_diverges_witness : ∃ s : vmem (mem pools) (mem pools), handle_mprotect 1 1000 home MMAP_START 4096 PROT_READ s = Halt OutOfFuel.
Proof.
  destruct empty_region as (s&X&U&T&Up&Has). exists s.
  apply (mprotect_empty_region_diverges 1 0 s home _ _ _ _ _ block1 (VmRegion home MMAP_START 0 VMR_READ 0x6000) 4096 PROT_READ 1000 Has);
    [by left|done|done|lia|done|done].
Defined.

Lemma mprotect_huge_length_bug_witness : ∃ s : vmem (mem pools) (mem pools), handle_mprotect 1 1000 home 0 (2 ^ 63) PROT_READ s = Halt BugHit.
Proof.
  destruct start as (root&k1&k2&s&Has&_). exists s.
  apply (mprotect_huge_length_bug 1 0 s home _ _ _ _ _ 0 (2 ^ 63) PROT_READ 1000 Has); [done|lia|done].
Defined.
