(* ===== verification/Notific.v ===== *)
(** Notifications ([kernel/ipc/notification.c]) and sleeping threads ([kernel/irq/timer.c]).

    A notification counts signals that nobody waited for and has a queue of waiting threads, one of the queues of ThreadDq.v.
    A thread that sleeps or waits with a timeout is on the sleep list of a CPU.  The state [nstate] joins the scheduler of
    Sched.v, the pool of queue nodes of ThreadDq.v, the notifications, and what each thread and each CPU keeps for
    sleeping.  A notification and its queue are named by the address of the notification; a thread has the same name in
    the scheduler, in the queues and on the sleep lists.

    Blocking calls do not return to their caller: they switch to another thread, and their result is [None].  A spin lock
    that is taken makes its next user stop with [Spins].  The clock is read through [plat_get_current_tick]: the [k]-th
    reading is [clock k].  The model is that of the default build: [DSM_ENABLED] is on,
    [CKPT_IRQ_AND_NOTIFICATION_LAZY_COPY] is off. *)
From S2P Require Import Prelude Words Sched ThreadDq.

(** ** Data *)

Definition EAGAIN : Z := 11.
Definition ETIMEDOUT : Z := 110.
Definition ECAPBILITY : Z := 200.
Definition TICK_MS : Z := 1.

Inductive notific_state : Set := NOTIFIC_INVALID | NOTIFIC_VALID.
#[export] Instance notific_state_dec : EqDecision notific_state.
Proof. solve_decision. Defined.

Record notification := Notification {
  not_delivered_notifc_count : Z; waiting_threads_count : Z; notifc_lock : bool; nstatus : notific_state
}.
Definition set_not_delivered x N := Notification x (waiting_threads_count N) (notifc_lock N) (nstatus N).
Definition set_waiting_count x N := Notification (not_delivered_notifc_count N) x (notifc_lock N) (nstatus N).
Definition set_notifc_lock x N := Notification (not_delivered_notifc_count N) (waiting_threads_count N) x (nstatus N).
Definition set_nstatus x N := Notification (not_delivered_notifc_count N) (waiting_threads_count N) (notifc_lock N) x.

(** The two callbacks, and [NULL] *)
Inductive timer_cb : Set := CB_NULL | SLEEP_TIMER_CB | NOTIFIC_TIMER_CB.
#[export] Instance timer_cb_dec : EqDecision timer_cb.
Proof. solve_decision. Defined.

Record sleep_state := SleepState {
  wakeup_tick : Z; sleep_cpu : Z; pending_notific : Z; cb : timer_cb; queue_lock : bool
}.
Definition set_wakeup w i z := SleepState w i (pending_notific z) (cb z) (queue_lock z).
Definition set_pending_notific x z := SleepState (wakeup_tick z) (sleep_cpu z) x (cb z) (queue_lock z).
Definition set_cb x z := SleepState (wakeup_tick z) (sleep_cpu z) (pending_notific z) x (queue_lock z).
Definition set_queue_lock x z := SleepState (wakeup_tick z) (sleep_cpu z) (pending_notific z) (cb z) x.

Record time_state := TimeState { next_expire : Z; sleep_list : list Z; sleep_list_lock : bool }.
Definition set_next_expire x T := TimeState x (sleep_list T) (sleep_list_lock T).
Definition set_sleep_list x T := TimeState (next_expire T) x (sleep_list_lock T).
Definition set_sleep_list_lock x T := TimeState (next_expire T) (sleep_list T) x.

Record timespec := Timespec { tv_sec : Z; tv_nsec : Z }.

(** The status of the object that holds a thread, and its copy on the other side of a migration *)
Inductive dsm_status : Set := DSM_STATUS_INVALID | DSM_STATUS_INUSE | DSM_STATUS_MIGRATING | DSM_STATUS_MIGRATED.
#[export] Instance dsm_status_dec : EqDecision dsm_status.
Proof. solve_decision. Defined.
Record object := Object { obj_status : dsm_status; pair_obj : Z }.

(** [sch] is the scheduler; [objects] are those of the threads; [rets] are the return values set for blocked threads; [timers] are the delays programmed
    into the timers of the CPUs; [refs] are the reference counts of notifications, [released] those whose last reference
    is gone; [futex_lock] are the locks of the futex tables. *)
Record nstate := NState {
  sch : sched; pool : dq_pool; notifs : gmap Z notification; sleeps : gmap Z sleep_state;
  time_states : gmap Z time_state; reads : nat; timers : gmap Z Z; rets : gmap Z Z; objects : gmap Z object;
  user_handler_ready : gmap Z bool; refs : gmap Z Z; released : list Z; futex_lock : gmap Z bool
}.
Definition set_sch x s := NState x (pool s) (notifs s) (sleeps s) (time_states s) (reads s) (timers s) (rets s) (objects s) (user_handler_ready s) (refs s) (released s) (futex_lock s).
Definition set_pool x s := NState (sch s) x (notifs s) (sleeps s) (time_states s) (reads s) (timers s) (rets s) (objects s) (user_handler_ready s) (refs s) (released s) (futex_lock s).
Definition set_notifs x s := NState (sch s) (pool s) x (sleeps s) (time_states s) (reads s) (timers s) (rets s) (objects s) (user_handler_ready s) (refs s) (released s) (futex_lock s).
Definition set_sleeps x s := NState (sch s) (pool s) (notifs s) x (time_states s) (reads s) (timers s) (rets s) (objects s) (user_handler_ready s) (refs s) (released s) (futex_lock s).
Definition set_time_states x s := NState (sch s) (pool s) (notifs s) (sleeps s) x (reads s) (timers s) (rets s) (objects s) (user_handler_ready s) (refs s) (released s) (futex_lock s).
Definition set_reads x s := NState (sch s) (pool s) (notifs s) (sleeps s) (time_states s) x (timers s) (rets s) (objects s) (user_handler_ready s) (refs s) (released s) (futex_lock s).
Definition set_timers x s := NState (sch s) (pool s) (notifs s) (sleeps s) (time_states s) (reads s) x (rets s) (objects s) (user_handler_ready s) (refs s) (released s) (futex_lock s).
Definition set_rets x s := NState (sch s) (pool s) (notifs s) (sleeps s) (time_states s) (reads s) (timers s) x (objects s) (user_handler_ready s) (refs s) (released s) (futex_lock s).
Definition set_handler_ready x s := NState (sch s) (pool s) (notifs s) (sleeps s) (time_states s) (reads s) (timers s) (rets s) (objects s) x (refs s) (released s) (futex_lock s).
Definition set_refs x s := NState (sch s) (pool s) (notifs s) (sleeps s) (time_states s) (reads s) (timers s) (rets s) (objects s) (user_handler_ready s) x (released s) (futex_lock s).
Definition set_released x s := NState (sch s) (pool s) (notifs s) (sleeps s) (time_states s) (reads s) (timers s) (rets s) (objects s) (user_handler_ready s) (refs s) x (futex_lock s).
Definition set_futex_lock x s := NState (sch s) (pool s) (notifs s) (sleeps s) (time_states s) (reads s) (timers s) (rets s) (objects s) (user_handler_ready s) (refs s) (released s) x.

(** What the code reads and does not change: the CPU it runs on, where the pool of queue nodes is, the readings of the
    clock, the capability group of a thread, the futex table of a group and the notifications of its capabilities *)
Record ipc_config := IpcConfig {
  sched_config : config; pool_base : Z; clock : nat → Z; tick_per_us : Z;
  cap_group : Z → Z; group_futex : Z → Z; notific_slots : Z → Z → option Z
}.

Notation MN := (M nstate).

Definition on_sched {A} (m : M sched A) : MN A := λ s,
  match m (sch s) with Ret (a, x) => Ret (a, set_sch x s) | Halt w => Halt w end.
Definition on_pool {A} (m : M dq_pool A) : MN A := λ s,
  match m (pool s) with Ret (a, x) => Ret (a, set_pool x s) | Halt w => Halt w end.

Definition notifc (q : Z) : MN notification := s ← get_state; from_opt (notifs s !! q).
Definition upd_notifc (q : Z) (f : notification → notification) : MN unit :=
  N ← notifc q; modify (λ s, set_notifs (<[q := f N]> (notifs s)) s).
Definition sleep (p : Z) : MN sleep_state := s ← get_state; from_opt (sleeps s !! p).
Definition upd_sleep (p : Z) (f : sleep_state → sleep_state) : MN unit :=
  z ← sleep p; modify (λ s, set_sleeps (<[p := f z]> (sleeps s)) s).
Definition time (i : Z) : MN time_state := s ← get_state; from_opt (time_states s !! i).
Definition upd_time (i : Z) (f : time_state → time_state) : MN unit :=
  T ← time i; modify (λ s, set_time_states (<[i := f T]> (time_states s)) s).
Definition arch_set_thread_return (p r : Z) : MN unit := modify (λ s, set_rets (<[p := r]> (rets s)) s).

(** ** Locks *)

Definition lock_notifc (q : Z) : MN unit :=
  N ← notifc q; if notifc_lock N then halt Spins else upd_notifc q (set_notifc_lock true).
Definition unlock_notifc (q : Z) : MN unit := upd_notifc q (set_notifc_lock false).
Definition lock_queue (p : Z) : MN unit :=
  z ← sleep p; if queue_lock z then halt Spins else upd_sleep p (set_queue_lock true).
Definition unlock_queue (p : Z) : MN unit := upd_sleep p (set_queue_lock false).
(** [try_lock]: 0 where the lock was free *)
Definition try_lock_queue (p : Z) : MN Z :=
  z ← sleep p; if queue_lock z then mret (-1) else upd_sleep p (set_queue_lock true);; mret 0.
Definition lock_time (i : Z) : MN unit :=
  T ← time i; if sleep_list_lock T then halt Spins else upd_time i (set_sleep_list_lock true).
Definition unlock_time (i : Z) : MN unit := upd_time i (set_sleep_list_lock false).
Definition try_lock_time (i : Z) : MN Z :=
  T ← time i; if sleep_list_lock T then mret (-1) else upd_time i (set_sleep_list_lock true);; mret 0.
Definition unlock_futex (f : Z) : MN unit := modify (λ s, set_futex_lock (<[f := false]> (futex_lock s)) s).

(** The reference of the caller goes; the object goes with the last one. *)
Definition obj_put (q : Z) : MN unit :=
  s ← get_state; n ← from_opt (refs s !! q);
  modify (λ s, set_refs (<[q := n - 1]> (refs s)) s);;
  when (bool_decide (n = 1)) (modify (λ s, set_released (q :: released s) s)).

(** [dsm_get_inuse_object(obj, false)], where 0 is [NULL] *)
Definition dsm_get_inuse_object (p : Z) : MN Z :=
  s ← get_state;
  o ← from_opt (objects s !! p);
  let pair_inuse := match objects s !! pair_obj o with Some o' => bool_decide (obj_status o' = DSM_STATUS_INUSE) | None => false end in
  match obj_status o with
  | DSM_STATUS_INVALID => mret (if negb (bool_decide (pair_obj o = 0)) && pair_inuse then pair_obj o else 0)
  | DSM_STATUS_INUSE => mret p
  | DSM_STATUS_MIGRATING => mret 0
  | DSM_STATUS_MIGRATED => bug_on (bool_decide (pair_obj o = 0) || negb pair_inuse);; mret (pair_obj o)
  end.

Section notific.
Context (e : ipc_config).
Notation c := (sched_config e).

Definition current_thread : MN Z := o ← on_sched (current c); from_opt o.
Definition plat_get_current_tick : MN Z :=
  s ← get_state; modify (set_reads (S (reads s)));; mret (clock e (reads s)).
(** [plat_set_next_timer] and [plat_handle_timer_irq] program the timer of this CPU. *)
Definition plat_set_next_timer (tick_delta : Z) : MN unit :=
  modify (λ s, set_timers (<[cpu c := tick_delta]> (timers s)) s).

(** ** Sleep lists *)

(** The first loop of [enqueue_sleeper]: [p] goes before the first sleeper that wakes up later. *)
Fixpoint insert_sleeper (p w : Z) (l : list Z) : MN (list Z) :=
  match l with
  | [] => mret [p]
  | x :: l' =>
      z ← sleep x;
      if bool_decide (wakeup_tick z > w) then mret (p :: l)
      else r ← insert_sleeper p w l'; mret (x :: r)
  end.

Definition sleep_state_enqueue (p : Z) : MN unit :=
  z ← sleep p;
  T ← time (sleep_cpu z);
  l ← insert_sleeper p (wakeup_tick z) (sleep_list T);
  upd_time (sleep_cpu z) (set_sleep_list l).

Definition enqueue_sleeper (p : Z) (timeout : timespec) (f : timer_cb) : MN Z :=
  let total_us := wrap_u64 (tv_sec timeout * 1000 * 1000 + wrap_u64 (tv_nsec timeout) / 1000) in
  tick ← plat_get_current_tick;
  let w := wrap_u64 (tick + total_us * tick_per_us e) in
  upd_sleep p (set_wakeup w (cpu c));;
  lock_time (cpu c);;
  T ← time (cpu c);
  l ← insert_sleeper p w (sleep_list T);
  upd_time (cpu c) (set_sleep_list l);;
  upd_sleep p (set_cb f);;
  unlock_time (cpu c);;
  T ← time (cpu c);
  when (bool_decide (next_expire T > w))
    (upd_time (cpu c) (set_next_expire w);; plat_set_next_timer (wrap_u64 (total_us * tick_per_us e)));;
  mret 0.

(** [list_del(&thread->sleep_state.sleep_node)] *)
Definition list_del_sleeper (i p : Z) : MN unit := upd_time i (λ T, set_sleep_list (filter (λ x, x ≠ p) (sleep_list T)) T).

Definition try_dequeue_sleeper (p : Z) : MN bool :=
  z ← sleep p;
  if bool_decide (cb z = CB_NULL) then mret true
  else
    r ← try_lock_time (sleep_cpu z);
    if bool_decide (r = 0) then
      list_del_sleeper (sleep_cpu z) p;;
      upd_sleep p (set_cb CB_NULL);;
      unlock_time (sleep_cpu z);;
      mret true
    else mret false.

Definition try_remove_timeout (p : Z) : MN unit :=
  if bool_decide (p = 0) then mret tt
  else
    z ← sleep p;
    if bool_decide (cb z = CB_NULL) then mret tt
    else try_dequeue_sleeper p;; upd_sleep p (set_pending_notific 0).

(** ** Callbacks *)

Definition sleep_timer_cb (p : Z) : MN unit :=
  on_sched (upd p (set_state TS_TO_SCHED));;
  ret ← on_sched (rr_sched_enqueue c p);
  bug_on (negb (bool_decide (ret = 0))).

Definition cancel_waiter (p : Z) : M dq_pool unit :=
  s ← get_state; thread_dq_cancel_node (default QPTR_NULL (notif_dq_node_off s !! p)).
Definition reset_dq_node_off (p : Z) : M dq_pool unit :=
  modify (λ s, set_notif_off (<[p := QPTR_NULL]> (notif_dq_node_off s)) s).

Definition notific_timer_cb (p : Z) : MN unit :=
  z ← sleep p;
  let q := pending_notific z in
  upd_sleep p (set_pending_notific 0);;
  lock_notifc q;;
  N ← notifc q;
  if bool_decide (nstatus N = NOTIFIC_INVALID) then
    on_sched (upd p (set_exit_state TE_EXITED));; unlock_notifc q
  else
    t ← on_sched (thr p);
    if negb (bool_decide (state t = TS_WAITING)) then unlock_notifc q
    else
      on_pool (cancel_waiter p);;
      on_pool (reset_dq_node_off p);;
      bug_on (bool_decide (waiting_threads_count N ≤ 0));;
      upd_notifc q (λ N, set_waiting_count (wrap_u32 (waiting_threads_count N - 1)) N);;
      arch_set_thread_return p (- ETIMEDOUT);;
      on_sched (upd p (set_state TS_TO_SCHED));;
      ret ← on_sched (rr_sched_enqueue_to_affinity c p);
      bug_on (negb (bool_decide (ret = 0)));;
      unlock_notifc q.

Definition run_cb (f : timer_cb) (p : Z) : MN unit :=
  match f with
  | CB_NULL => halt BugHit
  | SLEEP_TIMER_CB => sleep_timer_cb p
  | NOTIFIC_TIMER_CB => notific_timer_cb p
  end.

(** ** The timer interrupt *)

(** The body of the loop, for a thread whose time has come *)
Definition wake_sleeper (p : Z) (z : sleep_state) : MN unit :=
  lock_queue p;;
  list_del_sleeper (cpu c) p;;
  when (bool_decide (cb z = SLEEP_TIMER_CB))
    (t ← on_sched (thr p); bug_on (negb (bool_decide (state t = TS_WAITING))));;
  bug_on (bool_decide (cb z = CB_NULL));;
  run_cb (cb z) p;;
  upd_sleep p (set_cb CB_NULL);;
  unlock_queue p.

(** [for_each_in_list_safe]: the sleepers that were linked when the loop began. *)
Fixpoint wake_expired (current_tick : Z) (l : list Z) : MN unit :=
  match l with
  | [] => mret tt
  | p :: l' =>
      z ← sleep p;
      if bool_decide (wakeup_tick z > current_tick) then mret tt
      else wake_sleeper p z;; wake_expired current_tick l'
  end.

Definition get_next_tick_delta : MN Z :=
  T ← time (cpu c);
  let waiting_tick := wrap_u64 (TICK_MS * 1000 * tick_per_us e) in
  match sleep_list T with
  | [] => mret waiting_tick
  | p :: _ =>
      current_tick ← plat_get_current_tick;
      z ← sleep p;
      mret (if bool_decide (wrap_u64 (current_tick + waiting_tick) > wakeup_tick z)
            then (if bool_decide (wakeup_tick z > current_tick) then wakeup_tick z - current_tick else 0)
            else waiting_tick)
  end.

(** The end of the handler: the running thread pays for its tick. *)
Definition charge_tick : M sched unit :=
  o ← current c;
  match o with
  | None => mret tt
  | Some p =>
      t ← thr p;
      bug_on (bool_decide (budget t = None));;
      if bool_decide (exit_state t = TE_MIGRATING) || negb (bool_decide (machine_id t = CUR_MACHINE_ID c)) then mret tt
      else
        b ← from_opt (budget t);
        bug_on (bool_decide (b = 0));;
        upd p (set_budget (Some (b - 1)))
  end.

Definition handle_timer_irq : MN unit :=
  current_tick ← plat_get_current_tick;
  lock_time (cpu c);;
  T ← time (cpu c);
  wake_expired current_tick (sleep_list T);;
  tick_delta ← get_next_tick_delta;
  unlock_time (cpu c);;
  upd_time (cpu c) (set_next_expire (wrap_u64 (current_tick + tick_delta)));;
  plat_set_next_timer tick_delta;;
  on_sched charge_tick.

(** The loop of [timer_init] and [timer_reset] *)
Definition init_sleep_lists (s : nstate) : nstate :=
  foldr (λ i s, set_time_states
    (<[i := TimeState (match time_states s !! i with Some T => next_expire T | None => 0 end) [] false]> (time_states s)) s) s cpus.
Definition timer_init (s : nstate) : nstate := if bool_decide (cpu c = 0) then init_sleep_lists s else s.
Definition timer_reset (s : nstate) : nstate := init_sleep_lists s.

(** ** Notifications *)

Definition init_notific (q : Z) : MN unit :=
  on_pool (thread_dq_init q);;
  modify (λ s, set_notifs (<[q := Notification 0 0 false NOTIFIC_VALID]> (notifs s)) s).

Definition deinit_notific (q : Z) : MN unit :=
  if bool_decide (q = 0) then mret tt
  else
    lock_notifc q;;
    upd_notifc q (set_nstatus NOTIFIC_INVALID);;
    on_pool (thread_dq_deinit (pool_base e) q);;
    unlock_notifc q.

(** [sched()], then the locks are released and the next thread runs. *)
Definition block_current (release : MN unit) : MN (option Z) :=
  on_sched (rr_sched c);;
  release;;
  on_sched (eret_to_thread c);;
  mret None.

Definition wait_notific_internal (q : Z) (is_block : bool) (timeout : option timespec) (need_unlock need_obj_put : bool) : MN (option Z) :=
  lock_notifc q;;
  N ← notifc q;
  if bool_decide (nstatus N = NOTIFIC_INVALID) then unlock_notifc q;; mret (Some (- ECAPBILITY))
  else if bool_decide (not_delivered_notifc_count N > 0) then
    upd_notifc q (set_not_delivered (not_delivered_notifc_count N - 1));; unlock_notifc q;; mret (Some 0)
  else if is_block then
    p ← current_thread;
    lock_queue p;;
    on_pool (thread_dq_enqueue q p);;
    on_sched (upd p (set_state TS_WAITING));;
    upd_notifc q (λ N, set_waiting_count (wrap_u32 (waiting_threads_count N + 1)) N);;
    arch_set_thread_return p 0;;
    match timeout with
    | Some ts => upd_sleep p (set_pending_notific q);; enqueue_sleeper p ts NOTIFIC_TIMER_CB;; mret tt
    | None => mret tt
    end;;
    block_current
      (unlock_queue p;;
       unlock_notifc q;;
       when need_obj_put (obj_put q);;
       when need_unlock (unlock_futex (group_futex e (cap_group e p))))
  else unlock_notifc q;; mret (Some (- EAGAIN)).

Definition wait_notific (q : Z) (is_block : bool) (timeout : option timespec) : MN (option Z) :=
  wait_notific_internal q is_block timeout false true.

(** The thread that is woken: the copy in use, where the thread has migrated. *)
Definition signal_target (p : Z) : MN Z :=
  s ← get_state;
  o ← from_opt (objects s !! p);
  if bool_decide (obj_status o = DSM_STATUS_MIGRATED) then
    p' ← dsm_get_inuse_object p; bug_on (bool_decide (p' = 0));; mret p'
  else mret p.

Definition wake_target (q p : Z) : MN Z :=
  r ← try_lock_queue p;
  if negb (bool_decide (r = 0)) then unlock_notifc q;; mret (- EAGAIN)
  else
    z ← sleep p;
    ok ← (if bool_decide (cb z = CB_NULL) then mret true else try_dequeue_sleeper p);
    if negb ok then unlock_queue p;; unlock_notifc q;; mret (- EAGAIN)
    else
      on_pool (reset_dq_node_off p);;
      on_sched (upd p (set_state TS_TO_SCHED));;
      t ← on_sched (thr p);
      (if bool_decide (exit_state t = TE_EXITING) then on_sched (upd p (set_exit_state TE_EXITED))
       else if bool_decide (exit_state t = TE_STOPPING) then on_sched (upd p (set_exit_state TE_STOPPED))
       else ret ← on_sched (rr_sched_enqueue_to_affinity c p); bug_on (negb (bool_decide (ret = 0))));;
      unlock_queue p;;
      unlock_notifc q;;
      mret 0.

(** A thread has a sleep state, and a context where it is known to the scheduler. *)
Definition has_thread_ctx (p : Z) : MN bool :=
  sleep p;; s ← get_state; mret (negb (bool_decide (threads (sch s) !! p = None))).

Definition signal_notific (q : Z) : MN Z :=
  lock_notifc q;;
  N ← notifc q;
  if bool_decide (nstatus N = NOTIFIC_INVALID) then unlock_notifc q;; mret (- ECAPBILITY)
  else if bool_decide (not_delivered_notifc_count N > 0) || bool_decide (waiting_threads_count N = 0) then
    upd_notifc q (set_not_delivered (wrap_u32 (not_delivered_notifc_count N + 1)));; unlock_notifc q;; mret 0
  else
    target ← on_pool (thread_dq_dequeue q);
    match target with
    | None => unlock_notifc q;; mret (- EAGAIN)
    | Some p0 =>
        upd_notifc q (λ N, set_waiting_count (wrap_u32 (waiting_threads_count N - 1)) N);;
        p ← signal_target p0;
        ctx ← has_thread_ctx p;
        bug_on (negb ctx);;
        wake_target q p
    end.

Definition requeue_notific (src dst : Z) : MN Z :=
  if bool_decide (src = dst) then mret 0
  else
    let big := if bool_decide (src > dst) then src else dst in
    let small := if bool_decide (src > dst) then dst else src in
    lock_notifc small;;
    lock_notifc big;;
    S ← notifc src;
    D ← notifc dst;
    ret ← (if bool_decide (nstatus S = NOTIFIC_INVALID) || bool_decide (nstatus D = NOTIFIC_INVALID) then mret (- ECAPBILITY)
           else if bool_decide (waiting_threads_count S = 0) then mret 0
           else
             target ← on_pool (thread_dq_dequeue src);
             match target with
             | None => mret (- EAGAIN)
             | Some p =>
                 upd_notifc src (λ N, set_waiting_count (wrap_u32 (waiting_threads_count N - 1)) N);;
                 r ← try_lock_queue p;
                 if negb (bool_decide (r = 0)) then
                   on_pool (thread_dq_enqueue src p);;
                   upd_notifc src (λ N, set_waiting_count (wrap_u32 (waiting_threads_count N + 1)) N);;
                   mret (- EAGAIN)
                 else
                   bug_on (bool_decide (not_delivered_notifc_count D > 0));;
                   upd_sleep p (set_pending_notific dst);;
                   on_pool (thread_dq_enqueue dst p);;
                   upd_notifc dst (λ N, set_waiting_count (wrap_u32 (waiting_threads_count N + 1)) N);;
                   unlock_queue p;;
                   mret 0
             end);
    unlock_notifc big;;
    unlock_notifc small;;
    mret ret.

(** ** Interrupts that are handled by user threads *)

Definition wait_irq_notific (q : Z) : MN (option Z) :=
  lock_notifc q;;
  p ← current_thread;
  on_pool (thread_dq_enqueue q p);;
  on_sched (upd p (set_state TS_WAITING));;
  upd_notifc q (λ N, set_waiting_count (wrap_u32 (waiting_threads_count N + 1)) N);;
  arch_set_thread_return p 0;;
  modify (λ s, set_handler_ready (<[q := true]> (user_handler_ready s)) s);;
  block_current (unlock_notifc q).

(** [target] is used also where the queue was empty. *)
Definition signal_irq_notific (q : Z) : MN unit :=
  lock_notifc q;;
  modify (λ s, set_handler_ready (<[q := false]> (user_handler_ready s)) s);;
  target ← on_pool (thread_dq_dequeue q);
  match target with
  | None => halt BadAccess
  | Some p =>
      on_pool (reset_dq_node_off p);;
      upd_notifc q (λ N, set_waiting_count (wrap_u32 (waiting_threads_count N - 1)) N);;
      t ← on_sched (thr p);
      bug_on (bool_decide (budget t = None));;
      bug_on (negb (bool_decide (affinity t = NO_AFF)) && negb (bool_decide (affinity t = cpu c)));;
      unlock_notifc q;;
      obj_put q;;
      on_sched (sched_to_thread c p)
  end.

(** ** System calls *)

(** The slot of the capability, and one more reference to what it holds *)
Definition obj_get (group cap : Z) : MN (option Z) :=
  match notific_slots e group cap with
  | None => mret None
  | Some q =>
      s ← get_state; n ← from_opt (refs s !! q);
      modify (λ s, set_refs (<[q := n + 1]> (refs s)) s);; mret (Some q)
  end.

(** [timeout] as it was copied from the user *)
Definition sys_wait (notifc_cap : Z) (is_block : bool) (timeout : option timespec) : MN (option Z) :=
  p ← current_thread;
  o ← obj_get (cap_group e p) notifc_cap;
  match o with
  | None => mret (Some (- ECAPBILITY))
  | Some q =>
      ret ← wait_notific q is_block timeout;
      match ret with
      | None => mret None
      | Some r => obj_put q;; mret (Some r)
      end
  end.

Definition sys_notify (notifc_cap : Z) : MN Z :=
  p ← current_thread;
  o ← obj_get (cap_group e p) notifc_cap;
  match o with
  | None => mret (- ECAPBILITY)
  | Some q => ret ← signal_notific q; obj_put q;; mret ret
  end.

Definition sys_clock_nanosleep (ts_k : timespec) : MN (option Z) :=
  p ← current_thread;
  lock_queue p;;
  enqueue_sleeper p ts_k SLEEP_TIMER_CB;;
  unlock_queue p;;
  on_sched (upd p (set_state TS_WAITING));;
  arch_set_thread_return p 0;;
  block_current (mret tt).
End notific.
