(* ===== verification/Waiters.v ===== *)
(** The queues of ThreadDq.v as queues of waiting threads: a thread that waits knows its node, so that its timeout can
    cancel it there. *)
From S2P Require Import Prelude Words Sched ThreadDq Notific.

(** The threads of a queue whose node was not cancelled *)
Fixpoint live (es : list (Z * bool)) : list Z :=
  match es with
  | [] => []
  | (p, cancelled) :: es' => if (cancelled : bool) then live es' else p :: live es'
  end.

Lemma live_app es es' : live (es ++ es') = live es ++ live es'.
Proof. induction es as [|[p []] es IH]; simpl; by rewrite ?IH. Qed.

Lemma elem_of_live es p : p ∈ live es ↔ (p, false) ∈ es.
Proof.
  induction es as [|[x []] es IH]; simpl; [split; by intros ?%elem_of_nil| |]; rewrite !elem_of_cons, ?IH; naive_solver.
Qed.

Lemma pop_live es : (pop es).1 = hd_error (live es) ∧ live (pop es).2 = list.tail (live es).
Proof. induction es as [|[x []] es IH]; simpl; done. Qed.

Lemma live_length es : (length (live es) ≤ length es)%nat.
Proof. induction es as [|[x []] es IH]; simpl; lia. Qed.

(** A thread is in no queue of [W]. *)
Definition not_waiting (W : gmap Z (list Z)) (p : Z) : Prop := ∀ q ws, W !! q = Some ws → p ∉ ws.

Lemma not_waiting_insert W q ws p : not_waiting W p → p ∉ ws → not_waiting (<[q := ws]> W) p.
Proof. intros HW Hp q' ws' [[<- <-]|[_ H]]%lookup_insert_Some; [done|by eapply HW]. Qed.

(** ** What the operations on queues do to [notif_dq_node_off] *)

Definition off_kept {A} (D : Z → Prop) (m : M dq_pool A) : Prop :=
  ∀ s a s', m s = Ret (a, s') → ∀ p, D p → notif_dq_node_off s' !! p = notif_dq_node_off s !! p.

Section kept.
Context (D : Z → Prop).

Lemma kept_ret {A} (a : A) : off_kept D (mret a).
Proof. by intros s a' s' [= -> ->]. Qed.
Lemma kept_bind {A B} (m : M dq_pool A) (f : A → M dq_pool B) :
  off_kept D m → (∀ a, off_kept D (f a)) → off_kept D (m ≫= f).
Proof. intros Hm Hf s b s' (a&s1&E1&E2)%bind_ret p Hp. by rewrite (Hf a s1 b s' E2 p Hp), (Hm s a s1 E1 p Hp). Qed.
Lemma kept_get : off_kept D get_state.
Proof. by intros s a' s' [= _ ->]. Qed.
Lemma kept_halt {A} w : off_kept D (@halt _ A w).
Proof. by intros s a s'. Qed.
Lemma kept_from_opt {A} (o : option A) : off_kept D (from_opt o).
Proof. intros s a s'. unfold from_opt. destruct o; [by intros [= _ ->]|done]. Qed.
Lemma kept_modify f : (∀ s p, D p → notif_dq_node_off (f s) !! p = notif_dq_node_off s !! p) → off_kept D (modify f).
Proof. intros Hf s a s' [= _ <-]. apply Hf. Qed.
Lemma kept_if {A} (b : bool) (m m' : M dq_pool A) : off_kept D m → off_kept D m' → off_kept D (if b then m else m').
Proof. by destruct b. Qed.
End kept.

Create HintDb kept.
#[export] Hint Resolve kept_ret kept_get kept_halt kept_from_opt kept_if : kept.
Ltac kept :=
  repeat first
    [ apply kept_bind; [|intros ?] | apply kept_if | apply kept_modify; intros ? ? _; done | solve [eauto with kept] | case_match ].

Lemma kept_read_node D off : off_kept D (read_node off).
Proof. unfold read_node. kept. Qed.
Lemma kept_write_node D off f : off_kept D (write_node off f).
Proof. unfold write_node, read_node. kept. Qed.
Lemma kept_read_dq D q : off_kept D (read_dq q).
Proof. unfold read_dq. kept. Qed.
Lemma kept_write_dq D q d : off_kept D (write_dq q d).
Proof. unfold write_dq. kept. Qed.
#[export] Hint Resolve kept_read_node kept_write_node kept_read_dq kept_write_dq : kept.

Lemma kept_alloc_node D : off_kept D thread_dq_alloc_node.
Proof. unfold thread_dq_alloc_node, thread_dq_alloc_node_try. kept. Qed.
Lemma kept_free_node D off : off_kept D (thread_dq_free_node off).
Proof. unfold thread_dq_free_node. kept. Qed.
#[export] Hint Resolve kept_alloc_node kept_free_node : kept.

Lemma kept_init D q : off_kept D (thread_dq_init q).
Proof. unfold thread_dq_init. kept. Qed.
Lemma kept_deinit D base q : off_kept D (thread_dq_deinit base q).
Proof.
  unfold thread_dq_deinit. assert (∀ fuel cur walked, off_kept D (deinit_walk base fuel cur walked)) as Hw.
  { induction fuel as [|fuel IH]; intros cur walked; cbn [deinit_walk]; kept. }
  generalize (S (S (Z.to_nat THREAD_DQ_POOL_SIZE))). intros fuel. kept.
Qed.
Lemma kept_dequeue D q : off_kept D (thread_dq_dequeue q).
Proof.
  unfold thread_dq_dequeue. assert (∀ fuel, off_kept D (dequeue_loop fuel q)) as Hw.
  { induction fuel as [|fuel IH]; cbn [dequeue_loop]; kept. }
  apply Hw.
Qed.
Lemma kept_cancel D off : off_kept D (thread_dq_cancel_node off).
Proof. unfold thread_dq_cancel_node. kept. Qed.
Lemma kept_enqueue q p : off_kept (λ x, x ≠ p) (thread_dq_enqueue q p).
Proof.
  unfold thread_dq_enqueue. assert (∀ fuel off, off_kept (λ x, x ≠ p) (enqueue_loop fuel q off)) as Hw.
  { induction fuel as [|fuel IH]; intros off; cbn [enqueue_loop]; kept. }
  apply kept_bind; [kept|]. intros off. apply kept_bind; [kept|]. intros _. apply kept_bind; [|intros _; apply Hw].
  apply kept_modify. intros s x Hx. simpl. by rewrite lookup_insert_ne.
Qed.

(** A specification, and what the operation keeps *)
Lemma wp_kept {A} (D : Z → Prop) (m : M dq_pool A) (P : A → dq_pool → Prop) s :
  off_kept D m → wp m P s →
  wp m (λ a s', P a s' ∧ ∀ p, D p → notif_dq_node_off s' !! p = notif_dq_node_off s !! p) s.
Proof. intros Hm (a&s'&E&HP)%wp_inv. eapply wp_intro; [done|]. split; [done|]. by eapply Hm. Qed.

Lemma wp_both {S A} (m : M S A) (P Q : A → S → Prop) s : wp m P s → wp m Q s → wp m (λ a s', P a s' ∧ Q a s') s.
Proof. unfold wp. destruct (m s) as [[??]|]; naive_solver. Qed.

(** ** Queues of waiting threads *)

Section waits.
Context (base : Z).

(** The node of a thread in a queue is the one that the thread knows. *)
Definition linked (s : dq_pool) (Q : gmap Z (list Z)) : Prop :=
  ∀ q l x p, Q !! q = Some l → x ∈ list.tail l → entry (nodes s) x = (p, false) → notif_dq_node_off s !! p = Some x.

(** [n] nodes are free, and the threads of [W] wait, first come first. *)
Definition dq_waits (s : dq_pool) (n : nat) (W : gmap Z (list Z)) : Prop :=
  ∃ F Q, dq_inv base s F Q ∧ length F = n ∧ linked s Q ∧ W = (λ l, live (entries (nodes s) l)) <$> Q.

Lemma elem_of_waiters ns l p : p ∈ live (entries ns l) ↔ ∃ x, x ∈ list.tail l ∧ entry ns x = (p, false).
Proof. rewrite elem_of_live. unfold entries. rewrite list_elem_of_fmap. naive_solver. Qed.

Lemma elem_of_tail_suffix (l l' : list Z) x : l' `suffix_of` l → x ∈ list.tail l' → x ∈ list.tail l.
Proof.
  intros [k ->]. destruct k as [|y k]; [done|]. simpl. intros Hx%elem_of_tail. set_solver.
Qed.

(** A thread waits in one place at most. *)
Lemma waits_once s n W q q' ws ws' p : dq_waits s n W → W !! q = Some ws → W !! q' = Some ws' → p ∈ ws → p ∈ ws' → q = q'.
Proof.
  intros (F&Q&HI&_&HL&->) H1 H2 Hp Hp'. rewrite lookup_fmap in H1, H2.
  destruct (Q !! q) as [l|] eqn:E1; [|done]. destruct (Q !! q') as [l'|] eqn:E2; [|done]. simplify_eq/=.
  apply elem_of_waiters in Hp as (x&Hx&Ex), Hp' as (y&Hy&Ey).
  pose proof (HL _ _ _ _ E1 Hx Ex). pose proof (HL _ _ _ _ E2 Hy Ey). simplify_eq.
  by eapply (d_disj _ _ _ _ HI q q' l l' x); [| |apply elem_of_tail|apply elem_of_tail].
Qed.

Lemma live_NoDup s (ls : list Z) : NoDup ls →
  (∀ x p, x ∈ ls → entry (nodes s) x = (p, false) → notif_dq_node_off s !! p = Some x) →
  NoDup (live (entry (nodes s) <$> ls)).
Proof.
  induction 1 as [|x ls Hx Hnd IH]; intros HL; simpl; [constructor|].
  assert (NoDup (live (entry (nodes s) <$> ls))) as Hr by (apply IH; intros y p Hy; apply HL; by right).
  destruct (entry (nodes s) x) as [p []] eqn:E; [done|]. apply NoDup_cons. split; [|done].
  intros (y&Ey&Hy)%elem_of_live%list_elem_of_fmap. apply Hx.
  pose proof (HL x p ltac:(by left) E). pose proof (HL y p ltac:(by right) ltac:(done)). by simplify_eq.
Qed.

Lemma waits_NoDup s n W q ws : dq_waits s n W → W !! q = Some ws → NoDup ws.
Proof.
  intros (F&Q&HI&_&HL&->) H. rewrite lookup_fmap in H. destruct (Q !! q) as [l|] eqn:E; [|done]. simplify_eq/=.
  unfold entries. apply live_NoDup.
  - destruct (d_nodups _ _ _ _ HI q l E) as [Hnd _]. destruct l; [done|]. by apply NoDup_cons in Hnd as [_ ?].
  - intros x p Hx. by eapply HL.
Qed.

(** A thread is in the pool at most once, so that there are at most as many as nodes. *)
Lemma waits_length s n W q ws : dq_waits s n W → W !! q = Some ws → Z.of_nat (length ws) < THREAD_DQ_POOL_SIZE.
Proof.
  intros (F&Q&HI&_&HL&->) H. rewrite lookup_fmap in H. destruct (Q !! q) as [l|] eqn:E; [|done]. simplify_eq/=.
  pose proof (live_length (entries (nodes s) l)) as H1. unfold entries in H1 |- *. rewrite length_fmap in H1.
  destruct (d_queue _ _ _ _ HI q l E) as (_&_&Hne&_).
  pose proof (valid_length base l (proj1 (d_nodups _ _ _ _ HI q _ E)) (λ x, proj2 (d_valid _ _ _ _ HI) q _ x E)) as H.
  destruct l; [done|]. simpl in *. unfold THREAD_DQ_POOL_SIZE in *. lia.
Qed.

(** Queue [q] changes from [l] to [l'], and the nodes of the others keep their entries. *)
Lemma waits_change (s s' : dq_pool) (Q : gmap Z (list Z)) q l' :
  (∀ q' l0, q' ≠ q → Q !! q' = Some l0 → ∀ x, x ∈ l0 → entry (nodes s') x = entry (nodes s) x) →
  (λ l, live (entries (nodes s') l)) <$> <[q := l']> Q =
  <[q := live (entries (nodes s') l')]> ((λ l, live (entries (nodes s) l)) <$> Q).
Proof.
  intros H. apply map_eq. intros q'. rewrite lookup_fmap. destruct (decide (q' = q)) as [->|Hne].
  - by rewrite !lookup_insert_eq.
  - rewrite !lookup_insert_ne, lookup_fmap by done. destruct (Q !! q') as [l0|] eqn:E; [|done]. simpl. do 2 f_equal.
    apply entries_ext. intros x Hx%elem_of_tail. by eapply H.
Qed.

Lemma waits_init s n W q : dq_waits s (S n) W → W !! q = None →
  wp (thread_dq_init q) (λ r s', dq_waits s' n (<[q := []]> W)) s.
Proof.
  intros ([|x F]&Q&HI&Hn&HL&->) Hq; [done|]. simplify_eq/=. rewrite lookup_fmap in Hq. destruct (Q !! q) eqn:Hq'; [done|].
  eapply wp_mono; [apply (wp_kept (λ _, True)); [apply kept_init|by apply (wp_dq_init base s x F Q q)]|].
  intros r s' ((->&HI'&He)&Hoff).
  assert (∀ q' l0, q' ≠ q → Q !! q' = Some l0 → ∀ y, y ∈ l0 → entry (nodes s') y = entry (nodes s) y) as Hent.
  { intros q' l0 _ E y Hy. unfold entry. rewrite He; [done|]. intros ->.
    apply (proj2 (d_nodups _ _ _ _ HI q' l0 E) x Hy). by left. }
  exists F, (<[q := [x]]> Q). split_and!; [done|done| |by rewrite (waits_change s s')].
  intros q' l y p [[<- <-]|[Hne E]]%lookup_insert_Some Hy Ey; [by apply elem_of_nil in Hy|].
  rewrite Hoff by done. eapply HL; [done|done|]. rewrite <-Ey. symmetry. eapply Hent; [done|done|by apply elem_of_tail].
Qed.

Lemma waits_enqueue s n W q ws p : dq_waits s (S n) W → W !! q = Some ws → not_waiting W p →
  wp (thread_dq_enqueue q p) (λ _ s', dq_waits s' n (<[q := ws ++ [p]]> W)) s.
Proof.
  intros ([|x F]&Q&HI&Hn&HL&->) Hq Hp; [done|]. simplify_eq/=. rewrite lookup_fmap in Hq. destruct (Q !! q) as [l|] eqn:El; [|done].
  simplify_eq/=. eapply wp_mono; [eapply wp_kept; [apply kept_enqueue|by apply (wp_dq_enqueue base s x F Q q l p)]|].
  intros [] s' ((HI'&Hx&Hpx&He)&Hoff).
  assert (∀ q' l0, Q !! q' = Some l0 → ∀ y, y ∈ l0 → y ≠ x) as Hne.
  { intros q' l0 E y Hy ->. apply (proj2 (d_nodups _ _ _ _ HI q' l0 E) x Hy). by left. }
  destruct (d_queue _ _ _ _ HI q l El) as (_&_&Hl&_). destruct l as [|h l]; [done|].
  exists F, (<[q := (h :: l) ++ [x]]> Q). split_and!; [done|done| |].
  - intros q' l' y p' E Hy Ey.
    assert (p' = p ∧ y = x ∨ ∃ q0 l0, Q !! q0 = Some l0 ∧ y ∈ list.tail l0) as [[-> ->]|(q0&l0&E0&Hy0)]; [|done|].
    { apply lookup_insert_Some in E as [[<- <-]|[_ E]]; [|right; by exists q', l']. simpl in Hy.
      apply elem_of_app in Hy as [Hy| ->%list_elem_of_singleton]; [right; by exists q, (h :: l)|left].
      rewrite Hx in Ey. by simplify_eq. }
    assert (entry (nodes s) y = (p', false)) as Ey' by (rewrite <-He; [done|]; eapply Hne; [done|by apply elem_of_tail]).
    rewrite Hoff; [by eapply HL|]. intros ->. eapply (Hp q0); [by rewrite lookup_fmap, E0|]. apply elem_of_waiters. by exists y.
  - rewrite (waits_change s s').
    + do 2 f_equal. unfold entries. simpl. rewrite fmap_app, live_app. simpl. rewrite Hx. simpl. f_equal. f_equal.
      apply list_fmap_ext. intros i y Hy. symmetry. apply He. eapply (Hne q (h :: l)); [done|]. right. by eapply list_elem_of_lookup_2.
    + intros q' l0 _ E y Hy. apply He. by eapply Hne.
Qed.

Lemma waits_dequeue s n W q ws : dq_waits s n W → W !! q = Some ws →
  wp (thread_dq_dequeue q) (λ r s', r = hd_error ws ∧ ∃ n', (n + (if ws then 0 else 1) ≤ n')%nat ∧ dq_waits s' n' (<[q := list.tail ws]> W)) s.
Proof.
  intros (F&Q&HI&Hn&HL&->) Hq. rewrite lookup_fmap in Hq. destruct (Q !! q) as [l|] eqn:El; [|done]. simplify_eq/=.
  destruct (d_queue _ _ _ _ HI q l El) as (_&_&Hl&_). destruct l as [|h l]; [done|].
  eapply wp_mono; [apply (wp_kept (λ _, True)); [apply kept_dequeue|by apply (wp_dq_dequeue base s F Q q h l)]|].
  intros r s' ((F'&l'&HI'&Hr&Hlen&Hsuf&He)&Hoff).
  destruct (pop_live (entries (nodes s) (h :: l))) as [Hr1 Hr2]. rewrite <-Hr in Hr1, Hr2. simpl in Hr1, Hr2.
  split; [done|]. exists (length F'). split.
  - destruct (live (entries (nodes s) (h :: l))) as [|p ws] eqn:Ews.
    + destruct Hsuf as [k Hk]. assert (length (h :: l) = length (k ++ l')) as Hkl by congruence.
      rewrite length_app in Hkl. lia.
    + destruct Hsuf as [[|y k] Hk].
      * exfalso. simpl in Hk. subst l'. pose proof (waits_NoDup s _ _ q (p :: ws) ltac:(exists F, Q; split_and!; [done|done|done|done])
          ltac:(by rewrite lookup_fmap, El; simpl; rewrite Ews)) as Hnd.
        assert (live (entries (nodes s') (h :: l)) = p :: ws) as E; [|rewrite E in Hr2; simpl in Hr2; apply (f_equal length) in Hr2; simpl in Hr2; lia].
        rewrite <-Ews. f_equal. apply entries_ext. intros x _. apply He.
      * assert (length (h :: l) = length ((y :: k) ++ l')) as Hkl by congruence. rewrite length_app in Hkl. simpl in Hkl, Hlen. lia.
  - exists F', (<[q := l']> Q). split_and!; [done|done| |].
    + intros q' l0 y p' E Hy Ey. rewrite Hoff by done.
      apply lookup_insert_Some in E as [[<- <-]|[_ E]]; eapply HL; [done| |by rewrite <-He|done|done|by rewrite <-He].
      by eapply elem_of_tail_suffix.
    + rewrite (waits_change s s') by (intros; apply He). by rewrite Hr2.
Qed.

(** A thread that was taken off its queue still knows its node, which is in the pool. *)
Lemma waits_stale_node s n W q p ws : dq_waits s n W → W !! q = Some (p :: ws) →
  wp (thread_dq_dequeue q) (λ _ s', ∃ x nd, notif_dq_node_off s' !! p = Some x ∧ nodes s' !! x = Some nd) s.
Proof.
  intros (F&Q&HI&Hn&HL&->) Hq. rewrite lookup_fmap in Hq. destruct (Q !! q) as [l|] eqn:El; [|done]. simpl in Hq. injection Hq as Hq.
  assert (p ∈ live (entries (nodes s) l)) as (x&Hx&Ex)%elem_of_waiters by (rewrite Hq; by left).
  destruct (d_queue _ _ _ _ HI q l El) as (_&_&Hl&_). destruct l as [|h l]; [done|].
  eapply wp_mono; [apply (wp_kept (λ _, True)); [apply kept_dequeue|by apply (wp_dq_dequeue base s F Q q h l)]|].
  intros r s' ((F'&l'&_&_&_&_&He)&Hoff). exists x. rewrite Hoff by done. specialize (He x). rewrite Ex in He. unfold entry in He.
  destruct (nodes s' !! x) as [nd|]; [|done]. exists nd. split; [by eapply HL|done].
Qed.

Lemma waits_reset s n W p : dq_waits s n W → not_waiting W p → wp (reset_dq_node_off p) (λ _ s', dq_waits s' n W) s.
Proof.
  intros (F&Q&HI&Hn&HL&->) Hp. unfold reset_dq_node_off. rewrite wp_modify. exists F, Q. split_and!; [by destruct HI|done| |done].
  intros q l x p' E Hx Ex. simpl in *. rewrite lookup_insert_ne; [by eapply HL|]. intros ->.
  eapply (Hp q); [by rewrite lookup_fmap, E|]. apply elem_of_waiters. by exists x.
Qed.

Lemma live_cancel (ns ns' : gmap Z thread_dq_node) x p (ls : list Z) :
  NoDup ls → entry ns x = (p, false) → entry ns' x = (p, true) → (∀ y, y ≠ x → entry ns' y = entry ns y) →
  (∀ y, y ∈ ls → entry ns y = (p, false) → y = x) →
  live (entry ns' <$> ls) = filter (λ w, w ≠ p) (live (entry ns <$> ls)).
Proof.
  intros Hnd Ex Ex' He Hu. induction Hnd as [|y ls Hy Hnd IH]; [done|]. simpl.
  assert (live (entry ns' <$> ls) = filter (λ w, w ≠ p) (live (entry ns <$> ls))) as IH' by (apply IH; intros z Hz; apply Hu; by right).
  destruct (decide (y = x)) as [->|Hyx].
  - rewrite Ex', Ex, filter_cons, decide_False by naive_solver. done.
  - rewrite He by done. destruct (entry ns y) as [p' []] eqn:Ey; [done|]. rewrite filter_cons, decide_True; [by f_equal|].
    intros ->. apply Hyx, Hu; [by left|done].
Qed.

Lemma waits_cancel s n W q ws p : dq_waits s n W → W !! q = Some ws → p ∈ ws →
  wp (cancel_waiter p;; reset_dq_node_off p) (λ _ s', dq_waits s' n (<[q := filter (λ w, w ≠ p) ws]> W)) s.
Proof.
  intros (F&Q&HI&Hn&HL&->) Hq Hp. rewrite lookup_fmap in Hq. destruct (Q !! q) as [l|] eqn:El; [|done]. simplify_eq/=.
  apply elem_of_waiters in Hp as (x&Hx&Ex). pose proof (HL _ _ _ _ El Hx Ex) as Hpx.
  unfold cancel_waiter. wp_seq. rewrite Hpx. cbn [default].
  eapply wp_mono; [apply (wp_kept (λ _, True)); [apply kept_cancel|by apply (wp_dq_cancel base s F Q q l x); [| |apply elem_of_tail]]|].
  intros [] s' ((HI'&Ex'&He)&Hoff). rewrite Ex in Ex'. simpl in Ex'. unfold reset_dq_node_off. rewrite wp_modify.
  exists F, Q. split_and!; [by destruct HI'|done| |]; cbn [set_notif_off nodes notif_dq_node_off].
  - intros q' l0 y p' E Hy Ey. cbn [set_notif_off nodes notif_dq_node_off] in *.
    destruct (decide (y = x)) as [->|Hne]; [by rewrite Ex' in Ey|]. rewrite He in Ey by done.
    pose proof (HL _ _ _ _ E Hy Ey). rewrite lookup_insert_ne; [by rewrite Hoff|]. intros ->. congruence.
  - rewrite <-(insert_id Q q l El) at 2. rewrite (waits_change s s').
    + f_equal. unfold entries. symmetry. apply (live_cancel (nodes s) (nodes s') x p); [|done|done|done|].
      * destruct (d_nodups _ _ _ _ HI q l El) as [Hnd _]. destruct l; [done|]. by apply NoDup_cons in Hnd as [_ ?].
      * intros y Hy Ey. pose proof (HL _ _ _ _ El Hy Ey). congruence.
    + intros q' l0 Hne E y Hy. apply He. intros ->. apply Hne. by eapply (d_disj _ _ _ _ HI q' q l0 l x); [| | |apply elem_of_tail].
Qed.

Lemma waits_deinit s n W q ws : dq_waits s n W → W !! q = Some ws →
  wp (thread_dq_deinit base q) (λ _ s', ∃ n', (n < n')%nat ∧ dq_waits s' n' (delete q W)) s.
Proof.
  intros (F&Q&HI&Hn&HL&->) Hq. rewrite lookup_fmap in Hq. destruct (Q !! q) as [l|] eqn:El; [|done]. simplify_eq/=.
  eapply wp_mono; [apply (wp_kept (λ _, True)); [apply kept_deinit|by apply (wp_dq_deinit base s F Q q l)]|].
  intros [] s' ((Hd&HI'&He)&Hoff). destruct (d_queue _ _ _ _ HI q l El) as (_&_&Hl&_).
  exists (length (rev l ++ F)). split; [rewrite length_app, length_rev; destruct l; [done|simpl; lia]|].
  exists (rev l ++ F), (delete q Q). split_and!; [done|done| |].
  - intros q' l0 y p' [Hne E]%lookup_delete_Some Hy Ey. rewrite Hoff by done. eapply HL; [done|done|]. by rewrite <-He.
  - rewrite <-fmap_delete. apply map_fmap_ext. intros q' l0 _. f_equal. symmetry. apply entries_ext. intros x _. apply He.
Qed.
End waits.
