(* ===== verification/SchedBlock.v ===== *)
(** Blocking and waking under the round-robin scheduler: a thread that waits gives its CPU to the first runnable thread,
    and is put on a ready queue again when it is woken. *)
From S2P Require Import Prelude Words Sched SchedProofs SchedTheorems.

Section block.
Context (c : config).

(** The CPU can always run something, and has no thread from another machine to take in. *)
Record cpu_ok (s : sched) : Prop := {
  co_rr : rr_inv s;
  co_idle : ∃ t, threads s !! idle_threads (cpu c) = Some t ∧ type t = TYPE_IDLE ∧ exit_state t = TE_RUNNING ∧ state t ≠ TS_READY;
  co_bits : cpu_bits (default 0 (resched_bitmaps s !! cpu c));
  co_shared : shared_queue s !! cpuid_l2g c (cpu c) = Some []
}.

(** A thread that can be woken on this machine *)
Record wakeable (t : thread) : Prop := {
  w_type : type t ≠ TYPE_IDLE;
  w_off : queue_cpuid t = NO_AFF_u32;
  w_bridge : bridge t = false;
  w_prio : prio t ≤ MAX_PRIO;
  w_fpu : is_fpu_owner t < 0;
  w_aff : affinity t = NO_AFF ∨ CPU_RANGE_LOW c ≤ affinity t ≤ CPU_RANGE_HIGH c;
  w_machine : machine_id t = CUR_MACHINE_ID c;
  w_exit : exit_state t = TE_RUNNING ∨ exit_state t = TE_EXITING ∨ exit_state t = TE_STOPPING
}.

(** A thread that waits *)
Definition dormant (s : sched) (p : Z) : Prop := ∃ t, threads s !! p = Some t ∧ state t = TS_WAITING ∧ wakeable t.

(** The threads that wait, but for [p], are as they were. *)
Definition others_wait (s : sched) (p : Z) (s' : sched) : Prop :=
  ∀ x, x ≠ p → dormant s x → threads s' !! x = threads s !! x.

Lemma others_wait_trans s s1 s' p : others_wait s p s1 → others_wait s1 p s' → others_wait s p s'.
Proof.
  intros H1 H2 x Hx Hd. rewrite H2; [by apply H1|done|]. destruct Hd as (t&Ht&?). exists t. by rewrite H1 by (done || by exists t).
Qed.

Lemma others_wait_dormant s p s' x : others_wait s p s' → x ≠ p → dormant s x → dormant s' x.
Proof. intros H Hx Hd. pose proof (H x Hx Hd) as E. destruct Hd as (t&Ht&?). exists t. by rewrite E. Qed.

(** ** Choosing a thread *)

Lemma retire_all_frame l s :
  current_threads (retire_all l s) = current_threads s ∧ shared_queue (retire_all l s) = shared_queue s ∧
  resched_bitmaps (retire_all l s) = resched_bitmaps s.
Proof.
  revert s. induction l as [|x l IH]; intros s; [done|]. simpl. destruct (threads s !! x); [|apply IH].
  destruct (IH (with_thread x (retire t) s)) as (->&->&->). done.
Qed.

Lemma chosen_frame s m p s' :
  rr_inv s → rr_ready_queue_meta s !! cpu c = Some m → (p, s') = chosen c s (queue m) →
  current_threads s' = current_threads s ∧ shared_queue s' = shared_queue s ∧ resched_bitmaps s' = resched_bitmaps s ∧
  (∀ x, x ∉ queue m → threads s' !! x = threads s !! x) ∧
  (p = idle_threads (cpu c) ∨ p ∈ queue m ∧ ∃ t, threads s' !! p = Some t ∧ exit_state t = TE_RUNNING ∧ state t = TS_TO_SCHED ∧
     queue_cpuid t = NO_AFF_u32).
Proof.
  intros HI Hm. unfold chosen. destruct (first_runnable c s (queue m)) as [pre [[x post]|]] eqn:Hf.
  - destruct (first_runnable_Some _ _ _ _ _ _ Hf) as [Hrun _]. pose proof (first_runnable_app _ _ _ _ _ Hf) as Hq.
    unfold runnable in Hrun. destruct (threads s !! x) as [t|] eqn:Ht; [|done]. apply andb_prop in Hrun as [Hex%bool_decide_eq_true _].
    intros [= -> ->]. destruct (retire_all_frame pre s) as (Hc&Hs&Hb). split_and!; [done|done|done| |].
    + intros y Hy. cbn [with_queue with_thread set_rr set_threads threads]. rewrite Hq in Hy. rewrite lookup_insert_ne by set_solver. apply retire_all_other. set_solver.
    + right. split; [rewrite Hq; set_solver|]. eexists. split; [apply lookup_insert_eq|done].
  - intros [= -> ->]. pose proof (first_runnable_app _ _ _ _ _ Hf) as Hq. rewrite app_nil_r in Hq.
    destruct (retire_all_frame pre s) as (Hc&Hs&Hb). split_and!; [done|done|done| |by left].
    intros y Hy. cbn [with_queue set_rr threads]. apply retire_all_other. by rewrite <-Hq.
Qed.

(** ** Giving up the CPU *)

(** What [switch_to_thread] did to the thread that runs next *)
Record switched (s : sched) (p new : Z) (s' : sched) : Prop := {
  sw_ne : new ≠ p;
  sw_current : current_threads s' = <[cpu c := new]> (current_threads s);
  sw_new : ∃ t, threads s' !! new = Some t ∧ state t = TS_RUNNING ∧ prev_thread t = PrevThread p
}.

Lemma wp_switch_other s old p t :
  cpu_ok s → current_threads s !! cpu c = Some old → p ≠ old → threads s !! p = Some t → state t ≠ TS_READY →
  exit_state t = TE_RUNNING → (queue_cpuid t = NO_AFF_u32 ∧ p ≠ idle_threads (cpu c)) ∨ p = idle_threads (cpu c) →
  wp (switch_to_thread c p) (λ _ s', cpu_ok s' ∧ switched s old p s' ∧ ∀ x, x ≠ p → threads s' !! x = threads s !! x) s.
Proof.
  intros [HI (ti&Hti&Hty&Hei&Hsi) Hb Hsh] Hcur Hp Ht Hst Hex Hoff. unfold switch_to_thread. wp_seq. s_thr.
  s_bug; [by apply bool_decide_eq_false|]. s_bug; [by rewrite bool_decide_eq_true_2|].
  unfold is_current. rewrite bool_decide_eq_false_2 by congruence. wp_seq. s_upd. rewrite Hcur.
  assert (queue_cpuid t = NO_AFF_u32 ∨ type t = TYPE_IDLE) as Hq by (destruct Hoff as [[? _]| ->]; [by left|right; congruence]).
  set (t' := set_ks_locked true _).
  assert (rr_inv (with_thread p t' s)) as HI' by (eapply rr_inv_thread; [done|done|done|done|tauto]).
  split_and!; [split| |].
  - destruct HI'. by split.
  - destruct Hoff as [[_ Hne]| ->].
    + exists ti. cbn. by rewrite lookup_insert_ne.
    + exists t'. cbn. rewrite lookup_insert_eq. assert (t = ti) as -> by congruence. done.
  - done.
  - done.
  - split; [done|done|]. exists t'. split; [apply lookup_insert_eq|done].
  - intros x Hx. cbn. by rewrite lookup_insert_ne.
Qed.

Lemma dormant_not_queued s i m x : rr_inv s → rr_ready_queue_meta s !! i = Some m → dormant s x → x ∉ queue m.
Proof. intros HI Hm (t&Ht&Hst&_) Hx. destruct (r_in s HI i m x Hm Hx) as (t'&Ht'&_&?&_). simplify_eq. congruence. Qed.

Lemma record_history_more t :
  wakeable t → wakeable (record_history c t) ∧ state (record_history c t) = state t.
Proof.
  intros [????????]. unfold record_history. destruct (_ || _); [|done]. split; [|done]. by split.
Qed.

(** The CPU [p] ran on goes to another thread; [p] itself still waits. *)
Definition gave_up (s : sched) (p : Z) (s' : sched) : Prop :=
  cpu_ok s' ∧ others_wait s p s' ∧ dormant s' p ∧ ∃ new, switched s p new s'.

Lemma wp_rr_sched_block s p t :
  cpu_ok s → config_ok c → current_threads s !! cpu c = Some p → threads s !! p = Some t → state t = TS_WAITING →
  wakeable t → exit_state t = TE_RUNNING → is_Some (budget t) →
  wp (rr_sched c) (λ _ s', gave_up s p s') s.
Proof.
  intros [HI (ti&Hti&Hty&Hei&Hsi) Hb Hsh] Hc Hcur Ht Hst Hw Hex [b Hbud].
  unfold rr_sched, current, rr_sched_old. wp_seq. rewrite Hcur. wp_seq. s_thr. s_bug; [rewrite Hbud; apply andb_false_r|].
  s_upd. rewrite Hex, Hst. wp_seq. destruct (record_history_more t Hw) as [Hw1 Hst1].
  destruct (record_history_fields c t) as (Hf1&Hf2&Hf3&_). set (s1 := with_thread p (record_history c t) s).
  assert (rr_inv s1) as HI1 by (eapply rr_inv_thread; [done|done|exact Hf3|exact Hf1|right; right; exact Hst1]).
  eapply wp_mono; [by apply wp_no_migration|]. intros r ? [-> ->]. wp_seq.
  destruct (proj2 (r_dom s1 HI1 (cpu c)) (c_cpu _ Hc)) as [m Hm].
  eapply wp_mono; [by apply (wp_choose_thread c s1 m)|]. intros new s2 [HI2 Hch].
  destruct (chosen_frame s1 m new s2 HI1 Hm Hch) as (Hc2&Hsh2&Hb2&Ho2&Hnew).
  assert (p ≠ idle_threads (cpu c)) as Hpi by (intros ->; assert (t = ti) as -> by congruence; by destruct Hw).
  assert (p ∉ queue m) as Hpq.
  { apply (dormant_not_queued s1 (cpu c)); [done|done|]. exists (record_history c t). split; [apply lookup_insert_eq|]. split; [congruence|done]. }
  assert (idle_threads (cpu c) ∉ queue m) as Hiq.
  { intros Hin. destruct (r_in s1 HI1 _ _ _ Hm Hin) as (t'&Ht'&_&_&Hni). unfold s1 in Ht'. cbn in Ht'.
    rewrite lookup_insert_ne in Ht' by done. congruence. }
  assert (threads s2 !! idle_threads (cpu c) = Some ti) as Hi2 by (rewrite Ho2 by done; unfold s1; cbn; by rewrite lookup_insert_ne).
  assert (cpu_ok s2) as Hok2.
  { split; [done|by exists ti|by rewrite Hb2|by rewrite Hsh2]. }
  assert (∃ tn, threads s2 !! new = Some tn ∧ state tn ≠ TS_READY ∧ exit_state tn = TE_RUNNING ∧
    ((queue_cpuid tn = NO_AFF_u32 ∧ new ≠ idle_threads (cpu c)) ∨ new = idle_threads (cpu c))) as (tn&Htn&Hn1&Hn2&Hn3).
  { destruct Hnew as [->|(Hin&tn&Htn&?&?&?)]; [exists ti; split_and!; [done|done|done|by right]|].
    exists tn. split_and!; [done|congruence|done|]. left. split; [done|]. by intros ->. }
  assert (new ≠ p) as Hnp by (destruct Hnew as [->|[Hin _]]; [done|by intros ->]).
  eapply wp_mono; [apply (wp_switch_other s2 p new tn); [done|by rewrite Hc2|done..]|].
  intros [] s3 (Hok3&[_ Hcur3 Hnew3]&Ho3). split_and!; [done| | |].
  - intros x Hx Hd. assert (dormant s1 x) as Hd1 by (destruct Hd as (tx&?&?); exists tx; unfold s1; cbn; by rewrite lookup_insert_ne).
    pose proof (dormant_not_queued s1 _ _ x HI1 Hm Hd1) as Hxq.
    assert (x ≠ new) as Hxn.
    { intros ->. destruct Hnew as [->|[? _]]; [|done]. destruct Hd as (tx&Htx&_&[]). congruence. }
    rewrite Ho3, Ho2 by done.
    unfold s1. cbn. by rewrite lookup_insert_ne.
  - exists (record_history c t). rewrite Ho3, Ho2 by done. unfold s1. cbn. rewrite lookup_insert_eq. split_and!; [done|congruence|done].
  - exists new. split; [done|by rewrite Hcur3, Hc2|done].
Qed.

(** ** The way back to user mode *)

Definition kicked (s s' : sched) : Prop :=
  threads s' = threads s ∧ rr_ready_queue_meta s' = rr_ready_queue_meta s ∧ shared_queue s' = shared_queue s ∧
  current_threads s' = current_threads s ∧ pbrr_ready_queues s' = pbrr_ready_queues s.

Lemma wp_flush_loop_bits k s :
  0 ≤ default 0 (resched_bitmaps s !! cpu c) < 2 ^ Z.of_nat k → Z.of_nat k ≤ PLAT_CPU_NUM →
  wp (flush_loop c (S k)) (λ _ s', kicked s s' ∧ default 0 (resched_bitmaps s' !! cpu c) = 0) s.
Proof.
  revert s. induction k as [|k IH]; intros s Hb Hk.
  { cbn [flush_loop]. wp_seq. rewrite bool_decide_eq_true_2 by (change (2 ^ Z.of_nat 0) with 1 in Hb; lia). wp_seq.
    split; [done|]. change (2 ^ Z.of_nat 0) with 1 in Hb. lia. }
  set (k' := S k). cbn [flush_loop]. wp_seq. set (b := default 0 (resched_bitmaps s !! cpu c)) in *. case_bool_decide as Hz; [wp_seq; done|].
  wp_seq. assert (0 ≤ bsr b ≤ Z.of_nat k) as Hi.
  { unfold bsr. split; [apply Z.log2_nonneg|]. assert (Z.log2 b < Z.of_nat (S k)); [apply Z.log2_lt_pow2; lia|lia]. }
  assert (0 ≤ Z.ldiff b (BIT (bsr b)) < 2 ^ Z.of_nat k) as Hb'.
  { split; [apply Z.ldiff_nonneg; lia|]. unfold BIT. rewrite Z.shiftl_1_l.
    assert (Z.ldiff b (2 ^ bsr b) < 2 ^ bsr b); [|pose proof (Z.pow_le_mono_r 2 (bsr b) (Z.of_nat k)); lia].
    assert (Z.ldiff b (2 ^ bsr b) = b - 2 ^ bsr b) as ->.
    { rewrite Z.sub_nocarry_ldiff; [done|]. apply Z.bits_inj'. intros j Hj. rewrite Z.ldiff_spec, Z.bits_0.
      destruct (decide (j = bsr b)) as [->|]; [|rewrite Z.pow2_bits_false by lia; done].
      unfold bsr. rewrite Z.bit_log2 by lia. apply andb_false_r. }
    pose proof (Z.log2_spec b ltac:(lia)) as [? Hlt]. unfold bsr. rewrite Z.pow_succ_r in Hlt by apply Z.log2_nonneg. lia. }
  set (s1 := set_resched_bitmaps (<[cpu c := Z.ldiff b (BIT (bsr b))]> (resched_bitmaps s)) s).
  assert (∀ s2, kicked s1 s2 → resched_bitmaps s2 = resched_bitmaps s1 →
    wp (flush_loop c k') (λ _ s', kicked s s' ∧ default 0 (resched_bitmaps s' !! cpu c) = 0) s2) as Hrest.
  { intros s2 (H1&H2&H3&H4&H5) Hbm. eapply wp_mono; [apply IH|].
    - rewrite Hbm. unfold s1. cbn. by rewrite lookup_insert_eq.
    - lia.
    - intros [] s3 ((E1&E2&E3&E4&E5)&E6). split; [|done]. unfold kicked. rewrite E1, E2, E3, E4, E5, H1, H2, H3, H4, H5. done. }
  case_bool_decide as Hcpu; cbn [negb when]; wp_seq; [by apply Hrest|].
  unfold sched_kick_cpu. wp_seq. s_bug; [apply bool_decide_eq_false; lia|]. s_bug; [by apply bool_decide_eq_false|]. by apply Hrest.
Qed.

Lemma wp_flush_ipis s : cpu_bits (default 0 (resched_bitmaps s !! cpu c)) →
  wp (flush_pending_resched_ipis c) (λ _ s', kicked s s' ∧ default 0 (resched_bitmaps s' !! cpu c) = 0) s.
Proof.
  intros Hb. unfold flush_pending_resched_ipis. wp_seq.
  assert (wp (flush_loop c 33) (λ _ s', kicked s s' ∧ default 0 (resched_bitmaps s' !! cpu c) = 0) s) as H.
  { change 33%nat with (20 + 13)%nat. assert (∀ j k s Q, wp (flush_loop c k) Q s → wp (flush_loop c (j + k)) Q s) as Hmore.
    { intros j k. induction k as [|k IH]; intros s0 Q H; [done|]. replace (j + S k)%nat with (S (j + k)) by lia.
      cbn [flush_loop] in H |- *. revert H. wp_seq. case_bool_decide; [done|]. wp_seq. unfold when. destruct (negb _); [|by apply IH].
      intros Hw. eapply wp_mono; [exact Hw|]. intros [] s1. apply IH. }
    apply Hmore, (wp_flush_loop_bits 12); [exact Hb|done]. }
  eapply wp_mono; [exact H|]. intros [] s1 (Hk&Hz). wp_seq. unfold when. destruct (bool_decide _); by wp_seq.
Qed.

(** The thread that gave up the CPU leaves its kernel stack. *)
Lemma wp_eret s p new : cpu_ok s → current_threads s !! cpu c = Some new → new ≠ p →
  (∃ t, threads s !! new = Some t ∧ state t = TS_RUNNING ∧ prev_thread t = PrevThread p) → dormant s p →
  wp (eret_to_thread c) (λ _ s', cpu_ok s' ∧ others_wait s p s' ∧ dormant s' p ∧ current_threads s' = current_threads s ∧
    threads s' !! new = threads s !! new ∧ (∀ t, threads s' !! p = Some t → ks_locked t = false)) s.
Proof.
  intros [HI (ti&Hti&Hty&Hei&Hsi) Hb Hsh] Hcur Hne (tn&Htn&Hst&Hprev) (t&Ht&Hw&Hwake).
  unfold eret_to_thread, finish_switch, current. wp_seq. eapply wp_from_opt; [exact Hcur|]. wp_seq. s_thr. rewrite Hprev. wp_seq. s_thr.
  rewrite bool_decide_eq_false_2 by (rewrite Hw; naive_solver). eapply wp_upd; [done|].
  set (s1 := with_thread p (set_ks_locked false t) s).
  assert (rr_inv s1) as HI1 by (eapply rr_inv_thread; [done|done|done|done|by right; right]).
  eapply wp_mono; [by apply (wp_flush_ipis s1)|]. intros [] s2 ((H1&H2&H3&H4&H5)&Hz).
  assert (p ≠ idle_threads (cpu c)) as Hpi by (intros ->; assert (t = ti) as -> by congruence; by destruct Hwake).
  assert (∀ x, x ≠ p → threads s2 !! x = threads s !! x) as Ho by (intros x Hx; rewrite H1; unfold s1; cbn; by rewrite lookup_insert_ne).
  assert (threads s2 !! p = Some (set_ks_locked false t)) as Hp2 by (rewrite H1; apply lookup_insert_eq).
  split_and!; [split| | | | |].
  - destruct HI1. split; rewrite ?H1, ?H2, ?H5; done.
  - exists ti. by rewrite Ho.
  - rewrite Hz. done.
  - by rewrite H3.
  - intros x Hx _. by apply Ho.
  - exists (set_ks_locked false t). split_and!; [done|done|]. destruct Hwake. by split.
  - by rewrite H4.
  - by apply Ho.
  - intros t'. rewrite Hp2. by intros [= <-].
Qed.

(** ** Waking *)

(** [p], which waited as [t], runs again when its turn comes; a thread that was told to exit or to stop has done so. *)
Definition woken (s : sched) (p : Z) (t : thread) (s' : sched) : Prop :=
  let t1 := set_state TS_TO_SCHED t in
  match exit_state t with
  | TE_EXITING => s' = with_thread p (set_exit_state TE_EXITED t1) s
  | TE_STOPPING => s' = with_thread p (set_exit_state TE_STOPPED t1) s
  | _ => placed c (with_thread p t1 s) p t1 0 s'
  end.

Lemma woken_frame s p t s' :
  cpu_ok s → threads s !! p = Some t → wakeable t → woken s p t s' →
  cpu_ok s' ∧ (∀ x, x ≠ p → threads s' !! x = threads s !! x) ∧ current_threads s' = current_threads s ∧
  ∃ t', threads s' !! p = Some t' ∧ state t' ≠ TS_WAITING.
Proof.
  intros [HI (ti&Hti&Hty&Hei&Hsi) Hb Hsh] Ht Hw Hwoken.
  assert (p ≠ idle_threads (cpu c)) as Hpi by (intros ->; assert (t = ti) as -> by congruence; by destruct Hw).
  unfold woken in Hwoken. assert (∀ t', queue_cpuid t' = queue_cpuid t → type t' = type t → state t' = TS_TO_SCHED → s' = with_thread p t' s →
    cpu_ok s' ∧ (∀ x, x ≠ p → threads s' !! x = threads s !! x) ∧ current_threads s' = current_threads s ∧
    ∃ t', threads s' !! p = Some t' ∧ state t' ≠ TS_WAITING) as Hsimple.
  { intros t' Hq Hty' Hst ->. split_and!; [split| | |].
    - eapply rr_inv_thread; [done|done|done|done|left; apply Hw].
    - exists ti. cbn. by rewrite lookup_insert_ne.
    - done.
    - done.
    - intros x Hx. cbn. by rewrite lookup_insert_ne.
    - done.
    - exists t'. split; [apply lookup_insert_eq|congruence]. }
  destruct (w_exit _ Hw) as [E|[E|E]]; rewrite E in Hwoken; 
    [|by apply (Hsimple (set_exit_state TE_EXITED (set_state TS_TO_SCHED t)))|by apply (Hsimple (set_exit_state TE_STOPPED (set_state TS_TO_SCHED t)))].
  destruct Hwoken as (_&HI'&i&m&_&_&_&bm&fl&ks&->&Hbits). split_and!; [split| | |].
  - done.
  - exists ti. cbn. by rewrite !lookup_insert_ne.
  - by apply Hbits.
  - done.
  - intros x Hx. cbn. by rewrite !lookup_insert_ne.
  - done.
  - eexists. split; [apply lookup_insert_eq|done].
Qed.

Lemma awake_enqueueable s p t : threads s !! p = Some t → wakeable t → exit_state t = TE_RUNNING →
  enqueueable c (with_thread p (set_state TS_TO_SCHED t) s) p (set_state TS_TO_SCHED t).
Proof. intros Ht [] Hex. split; try done. split; [apply lookup_insert_eq|done]. Qed.

Lemma awake_inv s p t : rr_inv s → threads s !! p = Some t → wakeable t → rr_inv (with_thread p (set_state TS_TO_SCHED t) s).
Proof. intros HI Ht Hw. eapply rr_inv_thread; [done|done|done|done|left; apply Hw]. Qed.

Lemma wp_wake_enqueue s p t : rr_inv s → config_ok c → threads s !! p = Some t → wakeable t →
  wp (rr_sched_enqueue c p) (λ r s', r = 0 ∧ woken s p t s') (with_thread p (set_state TS_TO_SCHED t) s).
Proof.
  intros HI Hc Ht Hw. unfold woken. destruct (w_exit _ Hw) as [E|[E|E]]; rewrite E.
  - eapply wp_mono; [apply wp_rr_sched_enqueue; [by apply awake_inv|done|by apply awake_enqueueable]|]. intros r s' Hp. by pose proof Hp as [-> _].
  - unfold rr_sched_enqueue. wp_seq. eapply wp_thr; [apply lookup_insert_eq|]. cbn. rewrite bool_decide_eq_false_2 by apply Hw.
    rewrite E, bool_decide_eq_true_2 by done. wp_seq. eapply wp_upd; [apply lookup_insert_eq|]. wp_seq. by rewrite with_thread_thread.
  - unfold rr_sched_enqueue. wp_seq. eapply wp_thr; [apply lookup_insert_eq|]. cbn. rewrite bool_decide_eq_false_2 by apply Hw.
    rewrite E, (bool_decide_eq_false_2 (TE_STOPPING = _)), bool_decide_eq_true_2 by done. wp_seq. eapply wp_upd; [apply lookup_insert_eq|]. wp_seq. by rewrite with_thread_thread.
Qed.

Lemma wp_wake_affinity s p t : rr_inv s → config_ok c → threads s !! p = Some t → wakeable t →
  wp (rr_sched_enqueue_to_affinity c p) (λ r s', r = 0 ∧ woken s p t s') (with_thread p (set_state TS_TO_SCHED t) s).
Proof.
  intros HI Hc Ht Hw. destruct (w_exit _ Hw) as [E|E].
  - unfold rr_sched_enqueue_to_affinity, get_cpubind. wp_seq. eapply wp_thr; [apply lookup_insert_eq|]. cbn.
    rewrite (bool_decide_eq_false_2 (type t = _)), E by apply Hw. rewrite !bool_decide_eq_false_2 by done. wp_seq.
    eapply wp_thr; [apply lookup_insert_eq|]. cbn.
    assert (is_local_cpu c (affinity t) = true) as Hloc by (destruct (w_aff _ Hw) as [-> | ?]; [apply is_local_no_aff|by apply is_local_range]).
    rewrite Hloc, (bool_decide_eq_true_2 (is_fpu_owner t < 0)) by apply Hw. cbn [negb]. wp_seq.
    rewrite (bool_decide_eq_true_2 (machine_id t = _)), andb_false_r by apply Hw. rewrite Hloc, orb_true_r. by apply wp_wake_enqueue.
  - unfold rr_sched_enqueue_to_affinity, woken. wp_seq. eapply wp_thr; [apply lookup_insert_eq|]. cbn.
    rewrite (bool_decide_eq_false_2 (type t = _)) by apply Hw. destruct E as [E|E]; rewrite E.
    + rewrite bool_decide_eq_true_2 by done. wp_seq. eapply wp_upd; [apply lookup_insert_eq|]. wp_seq. by rewrite with_thread_thread.
    + rewrite (bool_decide_eq_false_2 (TE_STOPPING = _)), bool_decide_eq_true_2 by done. wp_seq.
      eapply wp_upd; [apply lookup_insert_eq|]. wp_seq. by rewrite with_thread_thread.
Qed.
End block.
