(* ===== verification/NotificProofs.v ===== *)
(** Notifications and sleep lists: their invariant, and what signals, waits and timeouts do to it. *)
From stdpp Require Import sorting.
From S2P Require Import Prelude Words Sched SchedProofs SchedBlock ThreadDq Notific Waiters.

(** ** Steps *)

Lemma wp_on_sched {A} (m : M sched A) (Q : A → nstate → Prop) s :
  wp m (λ a x, Q a (set_sch x s)) (sch s) → wp (on_sched m) Q s.
Proof. unfold wp, on_sched. by destruct (m (sch s)) as [[??]|]. Qed.
Lemma wp_on_dq_pool {A} (m : M dq_pool A) (Q : A → nstate → Prop) s :
  wp m (λ a x, Q a (set_pool x s)) (pool s) → wp (on_pool m) Q s.
Proof. unfold wp, on_pool. by destruct (m (pool s)) as [[??]|]. Qed.
Lemma wp_notifc q N (Q : notification → nstate → Prop) s : notifs s !! q = Some N → Q N s → wp (notifc q) Q s.
Proof. intros H HQ. unfold notifc. wp_seq. by eapply wp_from_opt. Qed.
Lemma wp_upd_notifc q f N (Q : unit → nstate → Prop) s :
  notifs s !! q = Some N → Q tt (set_notifs (<[q := f N]> (notifs s)) s) → wp (upd_notifc q f) Q s.
Proof. intros H HQ. unfold upd_notifc. wp_seq. eapply wp_notifc; [done|]. by wp_seq. Qed.
Lemma wp_sleep p z (Q : sleep_state → nstate → Prop) s : sleeps s !! p = Some z → Q z s → wp (sleep p) Q s.
Proof. intros H HQ. unfold sleep. wp_seq. by eapply wp_from_opt. Qed.
Lemma wp_upd_sleep p f z (Q : unit → nstate → Prop) s :
  sleeps s !! p = Some z → Q tt (set_sleeps (<[p := f z]> (sleeps s)) s) → wp (upd_sleep p f) Q s.
Proof. intros H HQ. unfold upd_sleep. wp_seq. eapply wp_sleep; [done|]. by wp_seq. Qed.
Lemma wp_time i T (Q : time_state → nstate → Prop) s : time_states s !! i = Some T → Q T s → wp (time i) Q s.
Proof. intros H HQ. unfold time. wp_seq. by eapply wp_from_opt. Qed.
Lemma wp_upd_time i f T (Q : unit → nstate → Prop) s :
  time_states s !! i = Some T → Q tt (set_time_states (<[i := f T]> (time_states s)) s) → wp (upd_time i f) Q s.
Proof. intros H HQ. unfold upd_time. wp_seq. eapply wp_time; [done|]. by wp_seq. Qed.

Lemma wp_lock_notifc q N (Q : unit → nstate → Prop) s : notifs s !! q = Some N → notifc_lock N = false →
  Q tt (set_notifs (<[q := set_notifc_lock true N]> (notifs s)) s) → wp (lock_notifc q) Q s.
Proof. intros H Hl HQ. unfold lock_notifc. wp_seq. eapply wp_notifc; [done|]. rewrite Hl. by eapply wp_upd_notifc. Qed.
Lemma wp_lock_queue p z (Q : unit → nstate → Prop) s : sleeps s !! p = Some z → queue_lock z = false →
  Q tt (set_sleeps (<[p := set_queue_lock true z]> (sleeps s)) s) → wp (lock_queue p) Q s.
Proof. intros H Hl HQ. unfold lock_queue. wp_seq. eapply wp_sleep; [done|]. rewrite Hl. by eapply wp_upd_sleep. Qed.
Lemma wp_lock_time i T (Q : unit → nstate → Prop) s : time_states s !! i = Some T → sleep_list_lock T = false →
  Q tt (set_time_states (<[i := set_sleep_list_lock true T]> (time_states s)) s) → wp (lock_time i) Q s.
Proof. intros H Hl HQ. unfold lock_time. wp_seq. eapply wp_time; [done|]. rewrite Hl. by eapply wp_upd_time. Qed.
Lemma wp_try_lock_queue p z (Q : Z → nstate → Prop) s : sleeps s !! p = Some z → queue_lock z = false →
  Q 0 (set_sleeps (<[p := set_queue_lock true z]> (sleeps s)) s) → wp (try_lock_queue p) Q s.
Proof. intros H Hl HQ. unfold try_lock_queue. wp_seq. eapply wp_sleep; [done|]. rewrite Hl. wp_seq. eapply wp_upd_sleep; [done|]. by wp_seq. Qed.
Lemma wp_try_lock_time i T (Q : Z → nstate → Prop) s : time_states s !! i = Some T → sleep_list_lock T = false →
  Q 0 (set_time_states (<[i := set_sleep_list_lock true T]> (time_states s)) s) → wp (try_lock_time i) Q s.
Proof. intros H Hl HQ. unfold try_lock_time. wp_seq. eapply wp_time; [done|]. rewrite Hl. wp_seq. eapply wp_upd_time; [done|]. by wp_seq. Qed.

(** ** Sleep lists *)

(** When a thread wakes up *)
Definition wakeup_of (zs : gmap Z sleep_state) (p : Z) : Z := match zs !! p with Some z => wakeup_tick z | None => 0 end.
Definition ordered (zs : gmap Z sleep_state) (l : list Z) : Prop := StronglySorted (λ x y, wakeup_of zs x ≤ wakeup_of zs y) l.

(** The lists hold the sleeping threads, in the order in which they wake up; the lock of list [L] is taken. *)
Record sleepers_ok (L : option Z) (zs : gmap Z sleep_state) (ts : gmap Z time_state) : Prop := {
  so_list : ∀ i, 0 ≤ i < PLAT_CPU_NUM → ∃ T, ts !! i = Some T ∧ sleep_list_lock T = bool_decide (L = Some i) ∧
    NoDup (sleep_list T) ∧ ordered zs (sleep_list T);
  so_in : ∀ i T p, ts !! i = Some T → p ∈ sleep_list T → ∃ z, zs !! p = Some z ∧ cb z ≠ CB_NULL ∧ sleep_cpu z = i;
  so_out : ∀ p z, zs !! p = Some z → cb z ≠ CB_NULL → 0 ≤ sleep_cpu z < PLAT_CPU_NUM ∧
    ∃ T, ts !! sleep_cpu z = Some T ∧ p ∈ sleep_list T
}.

Lemma ordered_ext zs zs' l : (∀ x, x ∈ l → wakeup_of zs' x = wakeup_of zs x) → ordered zs l → ordered zs' l.
Proof.
  intros Hw. unfold ordered. induction 1 as [|x l Hl IH Hx]; constructor.
  - apply IH. intros y Hy. apply Hw. by right.
  - rewrite Forall_forall in Hx |- *. intros y Hy. rewrite !Hw by (by left) || (by right). by apply Hx.
Qed.

Lemma ordered_filter zs l p : ordered zs l → ordered zs (filter (λ x, x ≠ p) l).
Proof.
  unfold ordered. induction 1 as [|x l Hl IH Hx]; [constructor|]. rewrite filter_cons. case_decide; [|done]. constructor; [done|].
  rewrite Forall_forall in Hx |- *. intros y [_ Hy]%list_elem_of_filter. by apply Hx.
Qed.

Lemma wakeup_of_ne zs p z x : x ≠ p → wakeup_of (<[p := z]> zs) x = wakeup_of zs x.
Proof. intros H. unfold wakeup_of. by rewrite lookup_insert_ne. Qed.

(** A change of a sleep state that leaves the thread where it is *)
Lemma sleepers_touch L zs ts p z z' :
  sleepers_ok L zs ts → zs !! p = Some z → cb z' = cb z → sleep_cpu z' = sleep_cpu z → (cb z ≠ CB_NULL → wakeup_tick z' = wakeup_tick z) →
  sleepers_ok L (<[p := z']> zs) ts.
Proof.
  intros [H1 H2 H3] Hz Hcb Hcpu Hw. split.
  - intros i Hi. destruct (H1 i Hi) as (T&HT&Hl&Hnd&Hs). exists T. split_and!; [done|done|done|].
    apply (ordered_ext zs); [|done]. intros x Hx. destruct (decide (x = p)) as [->|]; [|by apply wakeup_of_ne].
    destruct (H2 i T p HT Hx) as (z0&?&?&_). simplify_eq. unfold wakeup_of. rewrite lookup_insert_eq, Hz. by apply Hw.
  - intros i T x HT Hx. destruct (H2 i T x HT Hx) as (z0&Hz0&?&?). destruct (decide (x = p)) as [->|].
    + exists z'. rewrite lookup_insert_eq. simplify_eq. by rewrite Hcb, Hcpu.
    + exists z0. by rewrite lookup_insert_ne.
  - intros x z0 [[<- <-]|[Hne Hz0]]%lookup_insert_Some Hc; [rewrite Hcpu; apply H3; congruence|by apply H3].
Qed.

(** A thread leaves its list. *)
Lemma sleepers_remove L zs ts p z z' T T' :
  sleepers_ok L zs ts → zs !! p = Some z → cb z ≠ CB_NULL → cb z' = CB_NULL → ts !! sleep_cpu z = Some T →
  sleep_list T' = filter (λ x, x ≠ p) (sleep_list T) → sleep_list_lock T' = sleep_list_lock T →
  sleepers_ok L (<[p := z']> zs) (<[sleep_cpu z := T']> ts).
Proof.
  intros [H1 H2 H3] Hz Hcb Hcb' HT Hl Hlk.
  assert (∀ i T0, ts !! i = Some T0 → i ≠ sleep_cpu z → p ∉ sleep_list T0) as Hother.
  { intros i T0 HT0 Hi Hp. destruct (H2 i T0 p HT0 Hp) as (z0&?&_&?). simplify_eq. }
  split.
  - intros i Hi. destruct (H1 i Hi) as (T0&HT0&Hl0&Hnd&Hs). destruct (decide (i = sleep_cpu z)) as [->|Hne].
    + simplify_eq. exists T'. rewrite lookup_insert_eq, Hlk, Hl. split_and!; [done|done|by apply NoDup_filter|].
      apply (ordered_ext zs); [|by apply ordered_filter]. intros x [Hx _]%list_elem_of_filter. by apply wakeup_of_ne.
    + exists T0. rewrite lookup_insert_ne by done. split_and!; [done|done|done|]. apply (ordered_ext zs); [|done].
      intros x Hx. apply wakeup_of_ne. intros ->. by eapply Hother.
  - intros i T0 x [[<- <-]|[Hne HT0]]%lookup_insert_Some Hx.
    + rewrite Hl in Hx. apply list_elem_of_filter in Hx as [Hxp Hx]. rewrite lookup_insert_ne by done. by eapply H2.
    + destruct (decide (x = p)) as [->|]; [by destruct (Hother i T0)|]. rewrite lookup_insert_ne by done. by eapply H2.
  - intros x z0 [[<- <-]|[Hne Hz0]]%lookup_insert_Some Hc; [done|]. destruct (H3 x z0 Hz0 Hc) as (Hr&T0&HT0&Hx). split; [done|].
    destruct (decide (sleep_cpu z0 = sleep_cpu z)) as [E|E].
    + rewrite E in *. simplify_eq. exists T'. rewrite lookup_insert_eq, Hl. split; [done|]. by apply list_elem_of_filter.
    + exists T0. by rewrite lookup_insert_ne.
Qed.

(** Where the loop of [enqueue_sleeper] puts a thread *)
Fixpoint insert_by (zs : gmap Z sleep_state) (p w : Z) (l : list Z) : list Z :=
  match l with
  | [] => [p]
  | x :: l' => if bool_decide (wakeup_of zs x > w) then p :: l else x :: insert_by zs p w l'
  end.

Lemma elem_of_insert_by zs p w l x : x ∈ insert_by zs p w l ↔ x = p ∨ x ∈ l.
Proof. induction l as [|y l IH]; simpl; [set_solver|]. case_bool_decide; rewrite !elem_of_cons, ?IH; naive_solver. Qed.

Lemma insert_by_NoDup zs p w l : NoDup l → p ∉ l → NoDup (insert_by zs p w l).
Proof.
  induction 1 as [|y l Hy Hnd IH]; intros Hp; simpl; [apply NoDup_singleton|]. apply not_elem_of_cons in Hp as [Hpy Hp].
  case_bool_decide; apply NoDup_cons; (split; [|by auto using NoDup_cons_2]).
  - by apply not_elem_of_cons.
  - rewrite elem_of_insert_by. naive_solver.
Qed.

Lemma insert_by_ordered zs p w l : ordered zs l → p ∉ l → wakeup_of zs p = w → ordered zs (insert_by zs p w l).
Proof.
  unfold ordered. induction 1 as [|x l Hl IH Hx]; intros Hp Hw; simpl; [by repeat constructor|]. apply not_elem_of_cons in Hp as [Hpx Hp].
  rewrite Forall_forall in Hx. case_bool_decide as Hgt.
  - constructor; [constructor; [done|by apply Forall_forall]|]. apply Forall_forall. intros y [->|Hy]%elem_of_cons; [lia|].
    specialize (Hx y Hy). lia.
  - constructor; [by apply IH|]. apply Forall_forall. intros y [->|Hy]%elem_of_insert_by; [lia|by apply Hx].
Qed.

Lemma insert_by_ext zs zs' p w l : (∀ x, x ∈ l → wakeup_of zs' x = wakeup_of zs x) → insert_by zs' p w l = insert_by zs p w l.
Proof.
  induction l as [|x l IH]; intros H; simpl; [done|]. rewrite (H x) by (by left). rewrite IH; [done|]. intros y Hy. apply H. by right.
Qed.

Lemma wp_insert_sleeper p w l (Q : list Z → nstate → Prop) s :
  (∀ x, x ∈ l → is_Some (sleeps s !! x)) → Q (insert_by (sleeps s) p w l) s → wp (insert_sleeper p w l) Q s.
Proof.
  revert Q. induction l as [|x l IH]; intros Q Hl HQ; cbn [insert_sleeper insert_by] in *; [by wp_seq|].
  destruct (Hl x ltac:(by left)) as [z Hz]. wp_seq. eapply wp_sleep; [done|].
  assert (wakeup_of (sleeps s) x = wakeup_tick z) as E by (unfold wakeup_of; by rewrite Hz). rewrite E in HQ.
  case_bool_decide; wp_seq; [done|]. apply IH; [intros y Hy; apply Hl; by right|]. by wp_seq.
Qed.

(** A thread that is awake goes to sleep on CPU [i]. *)
Lemma sleepers_insert L zs ts i p z z' T T' :
  sleepers_ok L zs ts → zs !! p = Some z → cb z = CB_NULL → cb z' ≠ CB_NULL → sleep_cpu z' = i → 0 ≤ i < PLAT_CPU_NUM →
  ts !! i = Some T → sleep_list T' = insert_by zs p (wakeup_tick z') (sleep_list T) → sleep_list_lock T' = sleep_list_lock T →
  sleepers_ok L (<[p := z']> zs) (<[i := T']> ts).
Proof.
  intros [H1 H2 H3] Hz Hcb Hcb' Hi Hir HT Hl Hlk.
  assert (∀ j T0, ts !! j = Some T0 → p ∉ sleep_list T0) as Hout.
  { intros j T0 HT0 Hp. destruct (H2 j T0 p HT0 Hp) as (z0&?&?&_). by simplify_eq. }
  assert (∀ j T0 x, ts !! j = Some T0 → x ∈ sleep_list T0 → wakeup_of (<[p := z']> zs) x = wakeup_of zs x) as Hw.
  { intros j T0 x HT0 Hx. apply wakeup_of_ne. intros ->. by eapply Hout. }
  split.
  - intros j Hj. destruct (H1 j Hj) as (T0&HT0&Hl0&Hnd&Hs). destruct (decide (j = i)) as [->|Hne].
    + simplify_eq. exists T'. rewrite lookup_insert_eq, Hlk, Hl. split_and!; [done|done|by eauto using insert_by_NoDup|].
      rewrite <-(insert_by_ext zs (<[p := z']> zs)) by (intros x Hx; by eapply Hw).
      apply insert_by_ordered; [|by eapply Hout|unfold wakeup_of; by rewrite lookup_insert_eq].
      apply (ordered_ext zs); [|done]. intros x Hx. by eapply Hw.
    + exists T0. rewrite lookup_insert_ne by done. split_and!; [done|done|done|]. apply (ordered_ext zs); [|done].
      intros x Hx. by eapply Hw.
  - intros j T0 x [[<- <-]|[Hne HT0]]%lookup_insert_Some Hx.
    + rewrite Hl in Hx. apply elem_of_insert_by in Hx as [->|Hx]; [exists z'; by rewrite lookup_insert_eq|].
      rewrite lookup_insert_ne by (intros ->; by eapply Hout). by eapply H2.
    + rewrite lookup_insert_ne by (intros ->; by eapply Hout). by eapply H2.
  - intros x z0 [[<- <-]|[Hne Hz0]]%lookup_insert_Some Hc.
    + rewrite Hi. split; [done|]. exists T'. rewrite lookup_insert_eq, Hl. split; [done|]. apply elem_of_insert_by. by left.
    + destruct (H3 x z0 Hz0 Hc) as (Hr&T0&HT0&Hx). split; [done|]. destruct (decide (sleep_cpu z0 = i)) as [E|E].
      * rewrite E in *. simplify_eq. exists T'. rewrite lookup_insert_eq, Hl. split; [done|]. apply elem_of_insert_by. by right.
      * exists T0. by rewrite lookup_insert_ne.
Qed.

(** Taking and releasing the lock of a list, and its [next_expire] *)
Lemma sleepers_lock L L' zs ts i T T' :
  sleepers_ok L zs ts → ts !! i = Some T → sleep_list T' = sleep_list T → sleep_list_lock T' = bool_decide (L' = Some i) →
  (∀ j, j ≠ i → bool_decide (L' = Some j) = bool_decide (L = Some j)) → sleepers_ok L' zs (<[i := T']> ts).
Proof.
  intros [H1 H2 H3] HT Hl Hlk HL. split.
  - intros j Hj. destruct (H1 j Hj) as (T0&HT0&Hl0&Hnd&Hs). destruct (decide (j = i)) as [->|Hne].
    + simplify_eq. exists T'. by rewrite lookup_insert_eq, Hl.
    + exists T0. by rewrite lookup_insert_ne, HL.
  - intros j T0 x [[<- <-]|[Hne HT0]]%lookup_insert_Some Hx; [rewrite Hl in Hx|]; by eapply H2.
  - intros x z0 Hz0 Hc. destruct (H3 x z0 Hz0 Hc) as (Hr&T0&HT0&Hx). split; [done|]. destruct (decide (sleep_cpu z0 = i)) as [E|E].
    + rewrite E in *. simplify_eq. exists T'. by rewrite lookup_insert_eq, Hl.
    + exists T0. by rewrite lookup_insert_ne.
Qed.
