(* ===== verification/NotificOps.v ===== *)
(** A notification is a counting semaphore whose waiting threads are served in their order: the invariant that says so,
    and that signals, waits, timeouts and requeueing keep it. *)
From stdpp Require Import sorting.
From S2P Require Import Prelude Words Sched SchedProofs SchedBlock ThreadDq Notific Waiters NotificProofs.

(** ** Semaphores *)

(** Signals that nobody waited for, and the threads that wait *)
Record sem := Sem { pending : Z; waiters : list Z }.
Notation sems := (gmap Z sem).

(** [p] waits nowhere any more. *)
Definition forget_in (p : Z) (a : sem) : sem := Sem (pending a) (filter (λ x, x ≠ p) (waiters a)).
Definition forget (p : Z) (A : sems) : sems := forget_in p <$> A.

Lemma filter_ne_id (l : list Z) p : p ∉ l → filter (λ x, x ≠ p) l = l.
Proof.
  induction l as [|x l IH]; intros Hp; [done|]. apply not_elem_of_cons in Hp as [Hx Hp].
  rewrite filter_cons, decide_True by done. f_equal. by apply IH.
Qed.

Lemma forget_in_id p a : p ∉ waiters a → forget_in p a = a.
Proof. intros H. unfold forget_in. rewrite filter_ne_id by done. by destruct a. Qed.

Lemma forget_none p (A : sems) : not_waiting (waiters <$> A) p → forget p A = A.
Proof.
  intros H. apply map_eq. intros q. unfold forget. rewrite lookup_fmap. destruct (A !! q) as [a|] eqn:E; [|done]. simpl. f_equal.
  apply forget_in_id. apply (H q). by rewrite lookup_fmap, E.
Qed.

Lemma forget_at p (A : sems) q a : A !! q = Some a → (∀ q' a', A !! q' = Some a' → p ∈ waiters a' → q' = q) →
  forget p A = <[q := forget_in p a]> A.
Proof.
  intros Hq Hu. apply map_eq. intros q'. unfold forget. rewrite lookup_fmap. destruct (decide (q' = q)) as [->|Hne].
  - by rewrite lookup_insert_eq, Hq.
  - rewrite lookup_insert_ne by done. destruct (A !! q') as [a'|] eqn:E; [|done]. simpl. f_equal. apply forget_in_id.
    intros Hp. by destruct Hne, (Hu q' a').
Qed.

(** The counters of a notification *)
Definition notific_of (a : sem) : notification := Notification (pending a) (Z.of_nat (length (waiters a))) false NOTIFIC_VALID.
Definition sem_ok (a : sem) : Prop := 0 ≤ pending a < 2 ^ 32 ∧ (0 < pending a → waiters a = []).

Section ops.
Context (e : ipc_config).
Notation c := (sched_config e).
Notation base := (pool_base e).

(** [p] waits at [q], and can be found there by its timeout. *)
Definition waits_at (s : nstate) (q p : Z) : Prop :=
  dormant c (sch s) p ∧ (∃ o, objects s !! p = Some o ∧ obj_status o ≠ DSM_STATUS_MIGRATED) ∧
  ∃ z, sleeps s !! p = Some z ∧ queue_lock z = false ∧ (cb z = CB_NULL ∨ (cb z = NOTIFIC_TIMER_CB ∧ pending_notific z = q)).

(** What a thread sleeps for *)
Definition sleeps_for (s : nstate) (A : sems) (p : Z) (z : sleep_state) : Prop :=
  queue_lock z = false ∧
  ((cb z = SLEEP_TIMER_CB ∧ dormant c (sch s) p ∧ not_waiting (waiters <$> A) p) ∨
   (cb z = NOTIFIC_TIMER_CB ∧ ∃ a, A !! pending_notific z = Some a ∧ p ∈ waiters a)).

(** The valid notifications are the semaphores [A]; [n] nodes are left for waiting threads; the lock of the sleep list [L]
    is taken and no other lock is. *)
Record ninv_at (L : option Z) (s : nstate) (n : nat) (A : sems) : Prop := {
  n_pool : dq_waits base (pool s) n (waiters <$> A);
  n_cpu : cpu_ok c (sch s);
  n_notif : ∀ q a, A !! q = Some a → notifs s !! q = Some (notific_of a) ∧ sem_ok a;
  n_wait : ∀ q a p, A !! q = Some a → p ∈ waiters a → waits_at s q p;
  n_lists : sleepers_ok L (sleeps s) (time_states s);
  n_sleep : ∀ p z, sleeps s !! p = Some z → cb z ≠ CB_NULL → sleeps_for s A p z
}.
Notation ninv := (ninv_at None).

Lemma waits_one_place L s n A q q' a a' p : ninv_at L s n A → A !! q = Some a → A !! q' = Some a' → p ∈ waiters a → p ∈ waiters a' → q' = q.
Proof.
  intros HI Hq Hq' Hp Hp'. symmetry. eapply (waits_once base (pool s) n (waiters <$> A) q q'); [apply HI|by rewrite lookup_fmap, Hq|by rewrite lookup_fmap, Hq'|done|done].
Qed.

Lemma sleeper_dormant L s n A p z : ninv_at L s n A → sleeps s !! p = Some z → cb z ≠ CB_NULL → dormant c (sch s) p.
Proof.
  intros HI Hz Hc. destruct (n_sleep _ _ _ _ HI p z Hz Hc) as [_ [(_&?&_)|(_&a&Ha&Hp)]]; [done|].
  by destruct (n_wait _ _ _ _ HI _ a p Ha Hp).
Qed.

(** A thread that runs neither waits nor sleeps. *)
Lemma awake_not_waiting L s n A p t : ninv_at L s n A → threads (sch s) !! p = Some t → state t ≠ TS_WAITING → not_waiting (waiters <$> A) p.
Proof.
  intros HI Ht Hst q ws Hq Hp. rewrite lookup_fmap in Hq. destruct (A !! q) as [a|] eqn:E; [|done]. simplify_eq/=.
  destruct (n_wait _ _ _ _ HI q a p E Hp) as [(t'&?&?&_) _]. congruence.
Qed.

Lemma awake_not_sleeping L s n A p t z : ninv_at L s n A → threads (sch s) !! p = Some t → state t ≠ TS_WAITING → sleeps s !! p = Some z → cb z = CB_NULL.
Proof.
  intros HI Ht Hst Hz. destruct (decide (cb z = CB_NULL)) as [|Hc]; [done|].
  destruct (sleeper_dormant _ _ _ _ _ _ HI Hz Hc) as (t'&?&?&_). congruence.
Qed.

(** [p] was woken. *)
Lemma ninv_wake L L' s n A p t z' s' n' :
  ninv_at L s n A → threads (sch s) !! p = Some t → state t = TS_WAITING → wakeable c t → woken c (sch s) p t (sch s') →
  sleeps s' = <[p := z']> (sleeps s) → cb z' = CB_NULL → sleepers_ok L' (sleeps s') (time_states s') → objects s' = objects s →
  dq_waits base (pool s') n' (waiters <$> forget p A) →
  (∀ q a, forget p A !! q = Some a → notifs s' !! q = Some (notific_of a)) →
  ninv_at L' s' n' (forget p A).
Proof.
  intros HI Ht Hst Hw Hwoken Hsl Hcb Hlists Hobj Hpool Hnot.
  destruct (woken_frame c _ _ _ _ (n_cpu _ _ _ _ HI) Ht Hw Hwoken) as (Hcpu&Hoth&_&t'&Ht'&Hst').
  assert (∀ x, x ≠ p → dormant c (sch s) x → dormant c (sch s') x) as Hdorm.
  { intros x Hx (tx&?&?). exists tx. by rewrite Hoth. }
  assert (∀ q a, forget p A !! q = Some a → ∃ a0, A !! q = Some a0 ∧ a = forget_in p a0) as Hfor.
  { intros q a Hq. unfold forget in Hq. rewrite lookup_fmap in Hq. destruct (A !! q) as [a0|]; [|done]. simplify_eq/=. by exists a0. }
  split; [done|done| | |done|].
  - intros q a Hq. split; [by apply Hnot|]. destruct (Hfor q a Hq) as (a0&Ha0&->). destruct (n_notif _ _ _ _ HI q a0 Ha0) as (_&?&Hz).
    split; [done|]. intros Hpos. simpl in *. by rewrite Hz.
  - intros q a x Hq Hx. destruct (Hfor q a Hq) as (a0&Ha0&->). simpl in Hx. apply list_elem_of_filter in Hx as [Hxp Hx].
    destruct (n_wait _ _ _ _ HI q a0 x Ha0 Hx) as (Hd&Ho&z&Hz&?). split_and!; [by apply Hdorm|by rewrite Hobj|].
    exists z. by rewrite Hsl, lookup_insert_ne.
  - intros x z Hz Hc. rewrite Hsl in Hz. apply lookup_insert_Some in Hz as [[<- <-]|[Hne Hz]]; [done|].
    destruct (n_sleep _ _ _ _ HI x z Hz Hc) as [Hq [(Hcz&Hd&Hnw)|(Hcz&a&Ha&Hx)]]; (split; [done|]); [left|right]; split; try done.
    + split; [by apply Hdorm|]. intros q ws Hws Hin. rewrite lookup_fmap in Hws. destruct (forget p A !! q) as [a|] eqn:Eq; [|done].
      simplify_eq/=. destruct (Hfor q a Eq) as (a0&Ha0&->). simpl in Hin. apply list_elem_of_filter in Hin as [_ Hin].
      eapply (Hnw q); [by rewrite lookup_fmap, Ha0|done].
    + exists (forget_in p a). unfold forget. rewrite lookup_fmap, Ha. split; [done|]. simpl. by apply list_elem_of_filter.
Qed.

(** ** Signals *)

(** [p] was woken, and nothing else than its timeout changed. *)
Record wakes (s : nstate) (p : Z) (s' : nstate) : Prop := {
  wk_sched : ∃ t, threads (sch s) !! p = Some t ∧ state t = TS_WAITING ∧ woken c (sch s) p t (sch s');
  wk_sleep : ∃ z', sleeps s' = <[p := z']> (sleeps s) ∧ cb z' = CB_NULL;
  wk_rest : objects s' = objects s ∧ refs s' = refs s ∧ released s' = released s ∧ futex_lock s' = futex_lock s ∧ rets s' = rets s
}.

Lemma wp_signal_target s p o : objects s !! p = Some o → obj_status o ≠ DSM_STATUS_MIGRATED →
  wp (signal_target p) (λ r s', r = p ∧ s' = s) s.
Proof.
  intros Ho Hst. unfold signal_target. wp_seq. eapply wp_from_opt; [done|]. rewrite bool_decide_eq_false_2 by done. by wp_seq.
Qed.

(** A sleeping thread leaves its list, where the lock of the list is free. *)
Lemma wp_cancel_timeout s p z :
  sleepers_ok None (sleeps s) (time_states s) → sleeps s !! p = Some z →
  wp (if bool_decide (cb z = CB_NULL) then mret true else try_dequeue_sleeper p)
     (λ b s', b = true ∧ ∃ zs ts, s' = set_time_states ts (set_sleeps zs s) ∧ zs = <[p := set_cb CB_NULL z]> (sleeps s) ∧
        sleepers_ok None zs ts) s.
Proof.
  intros HS Hz. case_bool_decide as Hc; wp_seq.
  - split; [done|]. exists (sleeps s), (time_states s). split; [by destruct s|]. rewrite insert_id; [done|].
    rewrite Hz. f_equal. destruct z. by simpl in Hc; subst.
  - destruct (so_out _ _ _ HS p z Hz Hc) as (Hr&T&HT&_). destruct (so_list _ _ _ HS _ Hr) as (T0&?&Hl&_&_). simplify_eq.
    unfold try_dequeue_sleeper. wp_seq. eapply wp_sleep; [done|]. rewrite bool_decide_eq_false_2 by done. wp_seq.
    eapply wp_try_lock_time; [done|done|]. unfold list_del_sleeper. rewrite bool_decide_eq_true_2 by done. wp_seq.
    eapply wp_upd_time; [apply lookup_insert_eq|]. wp_seq. eapply wp_upd_sleep; [done|]. wp_seq. unfold unlock_time.
    eapply wp_upd_time; [apply lookup_insert_eq|]. wp_seq. cbn. rewrite !insert_insert_eq. split; [done|]. eexists _, _. split_and!; [done|done|].
    eapply (sleepers_remove None (sleeps s) (time_states s) p z); done.
Qed.

Lemma wp_wake_target s q p N t z n W :
  cpu_ok c (sch s) → config_ok c → sleepers_ok None (sleeps s) (time_states s) → dq_waits base (pool s) n W → not_waiting W p →
  notifs s !! q = Some N → threads (sch s) !! p = Some t → state t = TS_WAITING → wakeable c t →
  sleeps s !! p = Some z → queue_lock z = false →
  wp (wake_target e q p) (λ r s', r = 0 ∧ wakes s p s' ∧ dq_waits base (pool s') n W ∧
    notifs s' = <[q := set_notifc_lock false N]> (notifs s) ∧ sleepers_ok None (sleeps s') (time_states s')) s.
Proof.
  intros Hcpu Hc HS Hpool Hnw HN Ht Hst Hw Hz Hq. unfold wake_target. wp_seq. eapply wp_try_lock_queue; [done|done|].
  rewrite (bool_decide_eq_true_2 (0 = 0)) by done. cbn [negb]. wp_seq. eapply wp_sleep; [apply lookup_insert_eq|]. wp_seq.
  eapply wp_mono; [apply wp_cancel_timeout; [|apply lookup_insert_eq]|].
  { cbn. eapply sleepers_touch; [done|done|done|done|done]. }
  intros b s1 (->&zs&ts&->&Ezs&HS1). cbn in Ezs. rewrite insert_insert_eq in Ezs. subst zs. cbn [negb]. cbn. wp_seq.
  apply wp_on_dq_pool. eapply wp_mono; [by eapply waits_reset|]. intros [] pl Hpl. cbn. wp_seq.
  apply wp_on_sched. cbn. eapply wp_upd; [done|]. wp_seq. apply wp_on_sched. cbn. eapply wp_thr; [apply lookup_insert_eq|]. cbn.
  assert (wp (if bool_decide (exit_state t = TE_EXITING) then on_sched (upd p (set_exit_state TE_EXITED))
    else if bool_decide (exit_state t = TE_STOPPING) then on_sched (upd p (set_exit_state TE_STOPPED))
    else ret ← on_sched (rr_sched_enqueue_to_affinity c p); bug_on (negb (bool_decide (ret = 0))))
    (λ _ s', ∃ x, s' = set_sch x (set_pool pl (set_time_states ts (set_sleeps (<[p := set_cb CB_NULL (set_queue_lock true z)]> (sleeps s)) s))) ∧ woken c (sch s) p t x)
    (set_sch (with_thread p (set_state TS_TO_SCHED t) (sch s)) (set_pool pl (set_time_states ts (set_sleeps (<[p := set_cb CB_NULL (set_queue_lock true z)]> (sleeps s)) s))))) as Hbody.
  { unfold woken. destruct (w_exit _ _ Hw) as [E|[E|E]]; rewrite E.
    - rewrite !bool_decide_eq_false_2 by done. wp_seq. apply wp_on_sched. cbn.
      eapply wp_mono; [by apply (wp_wake_affinity c (sch s) p t); [apply Hcpu| | |]|]. intros r x [-> Hx]. unfold woken in Hx. rewrite E in Hx.
      apply wp_bug_on; [done|]. by exists x.
    - rewrite bool_decide_eq_true_2 by done. apply wp_on_sched. cbn. eapply wp_upd; [apply lookup_insert_eq|]. cbn. rewrite with_thread_thread. by eexists.
    - rewrite (bool_decide_eq_false_2 (TE_STOPPING = _)), bool_decide_eq_true_2 by done. apply wp_on_sched. cbn. eapply wp_upd; [apply lookup_insert_eq|]. cbn.
      rewrite with_thread_thread. by eexists. }
  wp_seq. eapply wp_mono; [exact Hbody|]. intros [] s2 (x&->&Hwoken). cbn. unfold unlock_queue, unlock_notifc. wp_seq.
  eapply wp_upd_sleep; [apply lookup_insert_eq|]. wp_seq. eapply wp_upd_notifc; [done|]. wp_seq. cbn. rewrite !insert_insert_eq.
  split_and!; [done| |done|done|].
  - split; [by exists t| |done]. cbn. eexists. split; [done|]. done.
  - apply (sleepers_touch None (<[p := set_cb CB_NULL (set_queue_lock true z)]> (sleeps s)) ts p (set_cb CB_NULL (set_queue_lock true z))
      (set_queue_lock false (set_cb CB_NULL (set_queue_lock true z)))) in HS1; [by rewrite insert_insert_eq in HS1|apply lookup_insert_eq|done|done|done].
Qed.

Lemma forget_in_head p k ws : NoDup (p :: ws) → forget_in p (Sem k (p :: ws)) = Sem k ws.
Proof.
  intros [Hp _]%NoDup_cons. unfold forget_in. cbn [waiters pending]. rewrite filter_cons, decide_False by naive_solver. by rewrite filter_ne_id.
Qed.

(** The semaphores after [p] left [q] *)
Lemma forget_waiting L s n A q a p : ninv_at L s n A → A !! q = Some a → p ∈ waiters a → forget p A = <[q := forget_in p a]> A.
Proof. intros HI Hq Hp. apply forget_at; [done|]. intros q' a' Hq' Hp'. by eapply waits_one_place. Qed.

Lemma waiters_nodup L s n A q a : ninv_at L s n A → A !! q = Some a → NoDup (waiters a).
Proof. intros HI Hq. eapply (waits_NoDup base (pool s) n (waiters <$> A) q); [apply HI|by rewrite lookup_fmap, Hq]. Qed.

Lemma waiters_bound L s n A q a : ninv_at L s n A → A !! q = Some a → Z.of_nat (length (waiters a)) < THREAD_DQ_POOL_SIZE.
Proof. intros HI Hq. eapply (waits_length base (pool s) n (waiters <$> A) q); [apply HI|by rewrite lookup_fmap, Hq]. Qed.

(** One semaphore changes, its waiting threads do not. *)
Lemma ninv_pending L s n A q a k : ninv_at L s n A → A !! q = Some a → sem_ok (Sem k (waiters a)) →
  ninv_at L (set_notifs (<[q := notific_of (Sem k (waiters a))]> (notifs s)) s) n (<[q := Sem k (waiters a)]> A).
Proof.
  intros [Hpool Hcpu Hnot Hwait Hlists Hsleep] Hq Hok.
  assert (waiters <$> <[q := Sem k (waiters a)]> A = waiters <$> A) as HW.
  { rewrite fmap_insert. cbn [waiters]. apply insert_id. by rewrite lookup_fmap, Hq. }
  split; cbn [set_notifs pool sch notifs sleeps time_states objects]; [by rewrite HW|done| | |done|].
  - intros q' a' [[<- <-]|[Hne Hq']]%lookup_insert_Some; [by rewrite lookup_insert_eq|]. rewrite lookup_insert_ne by done. by apply Hnot.
  - intros q' a' p [[<- <-]|[Hne Hq']]%lookup_insert_Some Hp; by eapply Hwait.
  - intros p z Hz Hc. destruct (Hsleep p z Hz Hc) as [Hl [(?&?&?)|(?&a'&Ha'&?)]]; (split; [done|]); [left; split_and!; [done|done|by rewrite HW]|right].
    split; [done|]. destruct (decide (pending_notific z = q)) as [E|E]; [|exists a'; by rewrite lookup_insert_ne].
    rewrite E in *. simplify_eq. eexists. rewrite lookup_insert_eq. by split.
Qed.

Lemma notific_of_unlock a : set_notifc_lock false (set_notifc_lock true (notific_of a)) = notific_of a.
Proof. done. Qed.

Lemma wp_signal_count s n A q a : ninv s n A → A !! q = Some a → waiters a = [] → pending a + 1 < 2 ^ 32 →
  wp (signal_notific e q) (λ r s', r = 0 ∧ ninv s' n (<[q := Sem (pending a + 1) []]> A) ∧
    s' = set_notifs (<[q := notific_of (Sem (pending a + 1) [])]> (notifs s)) s) s.
Proof.
  intros HI Hq Hws Hk. destruct (n_notif _ _ _ _ HI q a Hq) as (HN&Hok&_). unfold signal_notific. wp_seq.
  eapply wp_lock_notifc; [done|done|]. wp_seq. eapply wp_notifc; [apply lookup_insert_eq|]. cbn [set_notifc_lock nstatus notific_of].
  rewrite bool_decide_eq_false_2 by done. cbn [not_delivered_notifc_count waiting_threads_count set_notifc_lock notific_of]. rewrite Hws.
  rewrite (bool_decide_eq_true_2 (Z.of_nat (length []) = 0)), orb_true_r by done. unfold unlock_notifc. wp_seq.
  eapply wp_upd_notifc; [apply lookup_insert_eq|]. wp_seq. eapply wp_upd_notifc; [apply lookup_insert_eq|]. wp_seq. cbn.
  rewrite !insert_insert_eq, wrap_u32_small by lia.
  assert (set_notifc_lock false (set_not_delivered (pending a + 1) (set_notifc_lock true (notific_of a))) = notific_of (Sem (pending a + 1) [])) as ->
    by (unfold notific_of; by rewrite Hws).
  split_and!; [done| |done]. pose proof (ninv_pending None s n A q a (pending a + 1) HI Hq) as H. rewrite Hws in H. apply H. split; [simpl; lia|done].
Qed.

Lemma wp_signal_wake s n A q p ws : ninv s n A → config_ok c → A !! q = Some (Sem 0 (p :: ws)) →
  wp (signal_notific e q) (λ r s', r = 0 ∧ wakes s p s' ∧ notifs s' = <[q := notific_of (Sem 0 ws)]> (notifs s) ∧
    ∃ n', (n < n')%nat ∧ ninv s' n' (<[q := Sem 0 ws]> A)) s.
Proof.
  intros HI Hc Hq. destruct (n_notif _ _ _ _ HI q _ Hq) as (HN&Hok&_). pose proof (waiters_nodup _ _ _ _ _ _ HI Hq) as Hnd. cbn [waiters] in Hnd.
  destruct (n_wait _ _ _ _ HI q _ p Hq) as ((t&Ht&Hst&Hw)&(o&Ho&Hmig)&z&Hz&Hlk&Hcb); [by left|].
  pose proof (waiters_bound _ _ _ _ _ _ HI Hq) as Hlen. cbn [waiters length] in Hlen. unfold THREAD_DQ_POOL_SIZE in Hlen.
  pose proof (forget_waiting _ _ _ _ _ _ p HI Hq ltac:(by left)) as Hfor. rewrite forget_in_head in Hfor by done.
  unfold signal_notific. wp_seq.
  eapply wp_lock_notifc; [done|done|]. wp_seq. eapply wp_notifc; [apply lookup_insert_eq|]. cbn [set_notifc_lock nstatus notific_of].
  rewrite bool_decide_eq_false_2 by done. cbn [not_delivered_notifc_count waiting_threads_count set_notifc_lock notific_of pending waiters].
  rewrite (bool_decide_eq_false_2 (0 > 0)), (bool_decide_eq_false_2 (Z.of_nat _ = 0)) by (simpl; lia). cbn [orb]. wp_seq.
  apply wp_on_dq_pool. cbn [set_notifs pool].
  eapply wp_mono; [eapply (waits_dequeue base (pool s) n (waiters <$> A) q (p :: ws)); [apply HI|by rewrite lookup_fmap, Hq]|].
  intros r pl (->&n'&Hn'&Hpl). cbn [hd_error list.tail] in Hpl |- *. wp_seq. eapply wp_upd_notifc; [apply lookup_insert_eq|]. wp_seq.
  eapply wp_mono; [by apply (wp_signal_target _ p o)|]. intros ? ? [-> ->]. wp_seq. unfold has_thread_ctx. wp_seq. eapply wp_sleep; [done|]. wp_seq.
  cbn [set_notifs set_pool sch]. rewrite Ht. rewrite bool_decide_eq_false_2 by done. cbn [negb]. apply wp_bug_on; [done|].
  assert (<[q := ws]> (waiters <$> A) = waiters <$> forget p A) as HW by (by rewrite Hfor, fmap_insert).
  rewrite HW in Hpl.
  eapply wp_mono; [eapply (wp_wake_target _ q p _ t z n' (waiters <$> forget p A)); cbn [set_notifs set_pool sch pool sleeps time_states notifs]|].
  - apply HI.
  - done.
  - apply HI.
  - done.
  - rewrite <-HW. intros q' ws' Hws' Hp. apply lookup_insert_Some in Hws' as [[<- <-]|[Hne Hws']]; [by apply NoDup_cons in Hnd as [? _]|].
    destruct Hne. symmetry. rewrite lookup_fmap in Hws'. destruct (A !! q') as [a'|] eqn:E; [|done]. simplify_eq/=.
    eapply (waits_one_place _ _ _ _ q q'); [done|exact Hq|done|by left|done].
  - apply lookup_insert_eq.
  - done.
  - done.
  - done.
  - done.
  - done.
  - intros r' s' (->&Hwk&Hpl'&Hnot&HS). cbn in Hnot. rewrite !insert_insert_eq in Hnot. unfold set_waiting_count, set_notifc_lock in Hnot.
    cbn in Hnot. rewrite wrap_u32_small in Hnot by lia.
    replace (Z.of_nat (S (length ws)) - 1) with (Z.of_nat (length ws)) in Hnot by lia. fold (notific_of (Sem 0 ws)) in Hnot.
    destruct Hwk as [(t0&Ht0&_&Hwok) (z'&Hsl&Hcb') Hrest]. cbn in Ht0, Hwok, Hsl, Hrest. assert (t0 = t) as -> by congruence.
    split_and!; [done| |done|].
    + split; [by exists t|by exists z'|done].
    + exists n'. split; [simpl in Hn'; lia|]. rewrite <-Hfor. eapply (ninv_wake None None s n A p t z'); try done; [apply Hrest|].
      intros q' a' Hq'. rewrite Hnot, Hfor in *. apply lookup_insert_Some in Hq' as [[<- <-]|[Hne Hq']]; [by rewrite lookup_insert_eq|].
      rewrite lookup_insert_ne by done. by apply (n_notif _ _ _ _ HI).
Qed.

(** ** Waiting *)

(** The thread that runs on this CPU *)
Record running (s : nstate) (p : Z) : Prop := {
  ru_current : current_threads (sch s) !! cpu c = Some p;
  ru_thread : ∃ t, threads (sch s) !! p = Some t ∧ state t = TS_RUNNING ∧ wakeable c t ∧ exit_state t = TE_RUNNING ∧ is_Some (budget t);
  ru_sleep : ∃ z, sleeps s !! p = Some z ∧ queue_lock z = false;
  ru_object : ∃ o, objects s !! p = Some o ∧ obj_status o ≠ DSM_STATUS_MIGRATED
}.

(** When a timeout that is set at the [k]-th reading of the clock ends *)
Definition deadline (k : nat) (timeout : timespec) : Z :=
  wrap_u64 (clock e k + wrap_u64 (tv_sec timeout * 1000 * 1000 + wrap_u64 (tv_nsec timeout) / 1000) * tick_per_us e).

Lemma wp_enqueue_sleeper s p z timeout f :
  config_ok c → sleepers_ok None (sleeps s) (time_states s) → sleeps s !! p = Some z → cb z = CB_NULL → f ≠ CB_NULL →
  wp (enqueue_sleeper e p timeout f) (λ r s', r = 0 ∧ ∃ zs ts tm,
    s' = set_timers tm (set_reads (S (reads s)) (set_time_states ts (set_sleeps zs s))) ∧
    zs = <[p := set_cb f (set_wakeup (deadline (reads s) timeout) (cpu c) z)]> (sleeps s) ∧ sleepers_ok None zs ts) s.
Proof.
  intros Hc HS Hz Hcb Hf. pose proof (c_cpu _ Hc) as Hcpu. destruct (so_list _ _ _ HS _ Hcpu) as (T&HT&Hl&_&_).
  rewrite bool_decide_eq_false_2 in Hl by done. set (w := deadline (reads s) timeout). set (z1 := set_wakeup w (cpu c) z).
  assert (∀ x, x ∈ sleep_list T → x ≠ p ∧ is_Some (sleeps s !! x)) as Hin.
  { intros x Hx. destruct (so_in _ _ _ HS _ _ _ HT Hx) as (zx&Hzx&Hcx&_). split; [|by eexists]. intros ->. by simplify_eq. }
  unfold enqueue_sleeper, plat_get_current_tick. wp_seq. fold w. cbn [set_reads sleeps]. eapply wp_upd_sleep; [done|]. wp_seq.
  eapply wp_lock_time; [done|done|]. wp_seq. eapply wp_time; [apply lookup_insert_eq|]. wp_seq.
  apply wp_insert_sleeper; cbn.
  { intros x Hx. destruct (Hin x Hx). by rewrite lookup_insert_ne. }
  wp_seq. eapply wp_upd_time; [apply lookup_insert_eq|]. wp_seq. eapply wp_upd_sleep; [apply lookup_insert_eq|]. wp_seq.
  eapply wp_upd_time; [apply lookup_insert_eq|]. wp_seq. eapply wp_time; [apply lookup_insert_eq|]. cbn. rewrite !insert_insert_eq.
  rewrite (insert_by_ext (sleeps s)) by (intros x Hx; apply wakeup_of_ne; by apply Hin).
  assert (∀ ne, sleepers_ok None (<[p := set_cb f z1]> (sleeps s))
    (<[cpu c := TimeState ne (insert_by (sleeps s) p w (sleep_list T)) false]> (time_states s))) as HS'.
  { intros ne. eapply (sleepers_insert None (sleeps s) (time_states s) (cpu c) p z (set_cb f z1)); done. }
  case_bool_decide; cbn [when].
  - wp_seq. eapply wp_upd_time; [apply lookup_insert_eq|]. unfold plat_set_next_timer. wp_seq. split; [done|]. cbn. rewrite insert_insert_eq. eexists _, _, _. split_and!; [done|done|apply HS'].
  - wp_seq. split; [done|].
    exists (<[p := set_cb f z1]> (sleeps s)), (<[cpu c := TimeState (next_expire T) (insert_by (sleeps s) p w (sleep_list T)) false]> (time_states s)), (timers s).
    split_and!; [done|done|apply HS'].
Qed.

(** [p] waits at [q] now. *)
Lemma ninv_block L s n A q ws p t z z' s' n' :
  ninv_at L s n A → threads (sch s) !! p = Some t → state t ≠ TS_WAITING → A !! q = Some (Sem 0 ws) → sleeps s !! p = Some z →
  cpu_ok c (sch s') → others_wait c (sch s) p (sch s') → dormant c (sch s') p →
  sleeps s' = <[p := z']> (sleeps s) → queue_lock z' = false → cb z' = CB_NULL ∨ (cb z' = NOTIFIC_TIMER_CB ∧ pending_notific z' = q) →
  sleepers_ok L (sleeps s') (time_states s') → objects s' = objects s → (∃ o, objects s !! p = Some o ∧ obj_status o ≠ DSM_STATUS_MIGRATED) →
  dq_waits base (pool s') n' (<[q := ws ++ [p]]> (waiters <$> A)) → notifs s' = <[q := notific_of (Sem 0 (ws ++ [p]))]> (notifs s) →
  ninv_at L s' n' (<[q := Sem 0 (ws ++ [p])]> A).
Proof.
  intros HI Ht Hst Hq Hz Hcpu Hoth Hd Hsl Hlk Hcb HS Hobj Ho Hpool Hnot.
  pose proof (awake_not_waiting _ _ _ _ _ _ HI Ht Hst) as Hnw. pose proof (awake_not_sleeping _ _ _ _ _ _ _ HI Ht Hst Hz) as Hns.
  assert (∀ q' a x, A !! q' = Some a → x ∈ waiters a → x ≠ p) as Hne.
  { intros q' a x Hq' Hx ->. eapply (Hnw q'); [by rewrite lookup_fmap, Hq'|done]. }
  assert (∀ q' a x, A !! q' = Some a → x ∈ waiters a → waits_at s' q' x) as Hold.
  { intros q' a x Hq' Hx. destruct (n_wait _ _ _ _ HI q' a x Hq' Hx) as (Hdx&Hox&zx&Hzx&?). split_and!.
    - eapply others_wait_dormant; [done|by eapply Hne|done].
    - by rewrite Hobj.
    - exists zx. rewrite Hsl, lookup_insert_ne; [done|]. symmetry. by eapply Hne. }
  split; [by rewrite fmap_insert|done| | |done|].
  - intros q' a [[<- <-]|[Hqq Hq']]%lookup_insert_Some; rewrite Hnot; [by rewrite lookup_insert_eq|].
    rewrite lookup_insert_ne by done. by apply (n_notif _ _ _ _ HI).
  - intros q' a x [[<- <-]|[Hqq Hq']]%lookup_insert_Some Hx; [|by eapply Hold]. cbn [waiters] in Hx.
    apply elem_of_app in Hx as [Hx| ->%list_elem_of_singleton]; [by eapply Hold|]. split_and!; [done|by rewrite Hobj|].
    exists z'. by rewrite Hsl, lookup_insert_eq.
  - intros x zx Hzx Hc. rewrite Hsl in Hzx. apply lookup_insert_Some in Hzx as [[<- <-]|[Hxp Hzx]].
    + split; [done|]. destruct Hcb as [?|[Hcz Hpz]]; [done|]. right. split; [done|]. exists (Sem 0 (ws ++ [p])). rewrite Hpz, lookup_insert_eq.
      split; [done|]. cbn [waiters]. set_solver.
    + destruct (n_sleep _ _ _ _ HI x zx Hzx Hc) as [Hl [(?&?&Hnwx)|(?&a&Ha&Hx)]]; (split; [done|]); [left|right]; split_and!; try done.
      * by eapply others_wait_dormant.
      * rewrite fmap_insert. cbn [waiters]. apply not_waiting_insert; [done|]. intros Hx%elem_of_app.
        destruct Hx as [Hx|Hx%list_elem_of_singleton]; [|done]. eapply (Hnwx q); [by rewrite lookup_fmap, Hq|done].
      * destruct (decide (pending_notific zx = q)) as [E|E]; [|exists a; by rewrite lookup_insert_ne].
        rewrite E in *. simplify_eq. exists (Sem 0 (ws ++ [p])). rewrite lookup_insert_eq. split; [done|]. cbn [waiters] in *. set_solver.
Qed.

(** What a thread that gives up its CPU leaves behind *)
Record blocks (s : nstate) (p : Z) (s' : nstate) : Prop := {
  bl_current : ∃ new t, new ≠ p ∧ current_threads (sch s') !! cpu c = Some new ∧ threads (sch s') !! new = Some t ∧ state t = TS_RUNNING;
  bl_self : dormant c (sch s') p;
  bl_others : others_wait c (sch s) p (sch s');
  bl_ret : rets s' = <[p := 0]> (rets s);
  bl_objects : objects s' = objects s
}.

(** [sched()], the release of locks, and the return to user mode of another thread *)
Lemma wp_block_current s p t release (Q : nstate → Prop) :
  cpu_ok c (sch s) → config_ok c → current_threads (sch s) !! cpu c = Some p → threads (sch s) !! p = Some t → state t = TS_WAITING →
  wakeable c t → exit_state t = TE_RUNNING → is_Some (budget t) →
  (∀ x, wp release (λ _ s2, Q s2 ∧ sch s2 = x) (set_sch x s)) →
  wp (block_current e release) (λ r s', r = None ∧ cpu_ok c (sch s') ∧ others_wait c (sch s) p (sch s') ∧ dormant c (sch s') p ∧
    (∃ new t', new ≠ p ∧ current_threads (sch s') !! cpu c = Some new ∧ threads (sch s') !! new = Some t' ∧ state t' = TS_RUNNING) ∧
    ∃ y s2, Q s2 ∧ s' = set_sch y s2) s.
Proof.
  intros Hok Hc Hcur Ht Hst Hw Hex Hb Hrel. unfold block_current. wp_seq. apply wp_on_sched.
  eapply wp_mono; [by eapply wp_rr_sched_block|]. intros [] x (Hok1&Ho1&Hd1&new&[Hne Hcur1 Hnew]). wp_seq.
  eapply wp_mono; [apply Hrel|]. intros [] s2 [HQ Hs2]. wp_seq. apply wp_on_sched. rewrite Hs2.
  assert (current_threads x !! cpu c = Some new) as Hcn by (rewrite Hcur1; apply lookup_insert_eq).
  eapply wp_mono; [by apply (wp_eret c x p new)|]. intros [] y (Hok2&Ho2&Hd2&Hc2&Hn2&_). wp_seq. cbn.
  destruct Hnew as (t'&Ht'&Hst'&_). split_and!; [done|done|by eapply others_wait_trans|done| |by eexists _, _].
  exists new, t'. rewrite Hc2, Hn2. done.
Qed.

(** [p] is set to wait, before it gives up the CPU. *)
Lemma others_wait_start s p t : threads s !! p = Some t → state t ≠ TS_WAITING → ∀ s', others_wait c (with_thread p (set_state TS_WAITING t) s) p s' → others_wait c s p s'.
Proof.
  intros Ht Hst s' Ho x Hx (tx&Htx&?). rewrite Ho; [cbn; by rewrite lookup_insert_ne|done|]. exists tx. cbn. by rewrite lookup_insert_ne.
Qed.

Lemma cpu_ok_start s p t : cpu_ok c s → threads s !! p = Some t → wakeable c t → cpu_ok c (with_thread p (set_state TS_WAITING t) s).
Proof.
  intros [HI (ti&Hti&Hty&?) Hb Hsh] Ht Hw. split; [|exists ti; cbn; rewrite lookup_insert_ne; [done|]|done|done].
  - eapply rr_inv_thread; [done|done|done|done|left; apply Hw].
  - intros ->. assert (t = ti) as -> by congruence. by destruct Hw.
Qed.

Lemma wp_put_and_unlock s q (need_obj_put need_unlock : bool) f : (need_obj_put = true → is_Some (refs s !! q)) →
  wp (when need_obj_put (obj_put q);; when need_unlock (unlock_futex f)) (λ _ s', ∃ rf rl,
    (need_obj_put = false → rf = refs s ∧ rl = released s) ∧
    s' = set_futex_lock (if need_unlock then <[f := false]> (futex_lock s) else futex_lock s) (set_released rl (set_refs rf s))) s.
Proof.
  intros Hr. assert (∀ (P : unit → nstate → Prop) s0, P tt (set_futex_lock (if need_unlock then <[f := false]> (futex_lock s0) else futex_lock s0) s0) →
    wp (when need_unlock (unlock_futex f)) P s0) as Hun.
  { intros P s0 HP. destruct need_unlock; cbn [when]; unfold unlock_futex; wp_seq; [done|]. by destruct s0. }
  destruct need_obj_put; cbn [when]; wp_seq; [|apply Hun; exists (refs s), (released s); split; [done|by destruct s]].
  destruct (Hr eq_refl) as [k Hk]. unfold obj_put. wp_seq. eapply wp_from_opt; [done|]. wp_seq.
  destruct (bool_decide (k = 1)); cbn [when]; wp_seq; apply Hun.
  - eexists _, _. split; [done|]. reflexivity.
  - eexists _, (released s). split; [done|]. reflexivity.
Qed.

(** The timeout of a wait *)
Definition timed (s : nstate) (q : Z) (timeout : option timespec) (z z' : sleep_state) : Prop :=
  match timeout with
  | None => z' = z
  | Some ts => z' = set_cb NOTIFIC_TIMER_CB (set_wakeup (deadline (reads s) ts) (cpu c) (set_pending_notific q z))
  end.

Lemma wp_set_timeout s p q z timeout :
  config_ok c → sleepers_ok None (sleeps s) (time_states s) → sleeps s !! p = Some z → cb z = CB_NULL →
  wp (match timeout with
      | Some ts => upd_sleep p (set_pending_notific q);; enqueue_sleeper e p ts NOTIFIC_TIMER_CB;; mret tt
      | None => mret tt
      end) (λ _ s', ∃ ts' rd tm z', s' = set_timers tm (set_reads rd (set_time_states ts' (set_sleeps (<[p := z']> (sleeps s)) s))) ∧
        timed s q timeout z z' ∧ sleepers_ok None (<[p := z']> (sleeps s)) ts') s.
Proof.
  intros Hc HS Hz Hcb. destruct timeout as [to|]; wp_seq.
  - eapply wp_upd_sleep; [done|]. wp_seq. eapply wp_mono.
    + eapply (wp_enqueue_sleeper _ p (set_pending_notific q z)); [done| |apply lookup_insert_eq|done|done]. cbn. by eapply sleepers_touch.
    + intros r s' (->&zs&ts&tm&->&->&HS'). wp_seq. cbn in HS' |- *. rewrite insert_insert_eq in HS' |- *. by eexists _, _, _, _.
  - exists (time_states s), (reads s), (timers s), z. rewrite insert_id by done. split_and!; [by destruct s|done|done].
Qed.

(** The call blocks. *)
Record wait_blocks (s : nstate) (q p : Z) (ws : list Z) (timeout : option timespec) (need_unlock : bool) (s' : nstate) : Prop := {
  wb_blocks : blocks s p s';
  wb_notifs : notifs s' = <[q := notific_of (Sem 0 (ws ++ [p]))]> (notifs s);
  wb_sleep : ∃ z z', sleeps s !! p = Some z ∧ sleeps s' = <[p := z']> (sleeps s) ∧ timed s q timeout z z';
  wb_unlock : futex_lock s' = if need_unlock then <[group_futex e (cap_group e p) := false]> (futex_lock s) else futex_lock s
}.

Lemma wp_wait_block s n A q ws p timeout need_unlock need_obj_put :
  ninv s (S n) A → config_ok c → running s p → A !! q = Some (Sem 0 ws) → (need_obj_put = true → is_Some (refs s !! q)) →
  wp (wait_notific_internal e q true timeout need_unlock need_obj_put) (λ r s', r = None ∧
    ninv s' n (<[q := Sem 0 (ws ++ [p])]> A) ∧ wait_blocks s q p ws timeout need_unlock s' ∧
    (need_obj_put = false → refs s' = refs s ∧ released s' = released s)) s.
Proof.
  intros HI Hc [Hcur (t&Ht&Hst&Hw&Hex&Hb) (z&Hz&Hlk) Ho] Hq Hr. destruct (n_notif _ _ _ _ HI q _ Hq) as (HN&_).
  assert (state t ≠ TS_WAITING) as Hst' by congruence. pose proof (awake_not_waiting _ _ _ _ _ _ HI Ht Hst') as Hnw.
  pose proof (awake_not_sleeping _ _ _ _ _ _ _ HI Ht Hst' Hz) as Hcb.
  pose proof (waiters_bound _ _ _ _ _ _ HI Hq) as Hlen. cbn [waiters] in Hlen. unfold THREAD_DQ_POOL_SIZE in Hlen.
  unfold wait_notific_internal. wp_seq. eapply wp_lock_notifc; [done|done|]. wp_seq. eapply wp_notifc; [apply lookup_insert_eq|].
  cbn [set_notifc_lock nstatus notific_of not_delivered_notifc_count pending]. rewrite !bool_decide_eq_false_2 by (done || lia). wp_seq.
  unfold current_thread, current. wp_seq. apply wp_on_sched. wp_seq. cbn. rewrite Hcur. wp_seq. apply (wp_from_opt _ p); [done|]. wp_seq.
  eapply wp_lock_queue; [done|done|]. wp_seq. apply wp_on_dq_pool. cbn.
  eapply wp_mono; [eapply (waits_enqueue base (pool s) n (waiters <$> A) q ws p); [apply HI|by rewrite lookup_fmap, Hq|done]|].
  intros [] pl Hpl. wp_seq. apply wp_on_sched. cbn. eapply wp_upd; [done|]. wp_seq. eapply wp_upd_notifc; [apply lookup_insert_eq|].
  unfold arch_set_thread_return. wp_seq. cbn. rewrite insert_insert_eq.
  eapply wp_mono; [eapply (wp_set_timeout _ p q (set_queue_lock true z)); cbn; [done| |apply lookup_insert_eq|done]|].
  { eapply sleepers_touch; [apply HI|done|done|done|done]. }
  intros [] s1 (ts&rd&tm&z1&->&Htimed&HS). cbn. rewrite insert_insert_eq. cbn in HS. rewrite insert_insert_eq in HS. wp_seq.
  set (z2 := set_queue_lock false z1).
  set (N2 := notific_of (Sem 0 (ws ++ [p]))).
  set (fl := if need_unlock then <[group_futex e (cap_group e p) := false]> (futex_lock s) else futex_lock s).
  eapply wp_mono; [eapply (wp_block_current _ p (set_state TS_WAITING t) _ (λ s2, ∃ x rf rl, (need_obj_put = false → rf = refs s ∧ rl = released s) ∧
    s2 = set_futex_lock fl (set_released rl (set_refs rf (set_notifs (<[q := N2]> (notifs s)) (set_sleeps (<[p := z2]> (sleeps s))
      (set_rets (<[p := 0]> (rets s)) (set_timers tm (set_reads rd (set_time_states ts (set_pool pl (set_sch x s))))))))))))|]; cbn;
    [by apply cpu_ok_start; [apply HI| |]|done|done|apply lookup_insert_eq|done|by destruct Hw|done|done| |].
  - intros x. unfold unlock_queue, unlock_notifc. wp_seq. eapply wp_upd_sleep; [apply lookup_insert_eq|]. wp_seq.
    eapply wp_upd_notifc; [apply lookup_insert_eq|]. wp_seq. cbn. rewrite !insert_insert_eq.
    rewrite <-wp_bind. eapply wp_mono; [by apply wp_put_and_unlock|]. intros [] s2 (rf&rl&Hrf&->). split; [|done].
    exists x, rf, rl. split; [done|]. cbn. assert (set_notifc_lock false (set_waiting_count (wrap_u32 (Z.of_nat (length ws) + 1))
      (set_notifc_lock true (notific_of (Sem 0 ws)))) = N2) as HN2; [|by rewrite HN2].
    unfold N2, notific_of, set_waiting_count, set_notifc_lock. cbn. rewrite wrap_u32_small by lia. f_equal. rewrite length_app. simpl. lia.
  - intros r s' (->&Hok&Hoth&Hd&Hnew&y&s2&(x&rf&rl&Hrf&->)&->). cbn in Hok, Hoth, Hd, Hnew |- *.
    apply (others_wait_start _ _ t) in Hoth; [|done|done].
    assert (∃ z', z2 = z' ∧ timed s q timeout z z' ∧ queue_lock z' = false ∧ (cb z' = CB_NULL ∨ (cb z' = NOTIFIC_TIMER_CB ∧ pending_notific z' = q))) as (?&<-&Ht2&Hlk2&Hcb2).
    { exists z2. split; [done|]. unfold z2. destruct z. cbn in Hlk, Hcb. subst. destruct timeout; cbn in Htimed; subst z1.
      - split_and!; [done|done|by right].
      - split_and!; [done|done|by left]. }
    assert (sleepers_ok None (<[p := z2]> (sleeps s)) ts) as HS2.
    { apply (sleepers_touch None _ _ p z1 z2) in HS; [by rewrite insert_insert_eq in HS|apply lookup_insert_eq|done|done|done]. }
    split_and!; [done| | |done].
    + eapply (ninv_block None s (S n) A q ws p t z z2); try done.
    + split; [by split| |by exists z, z2|]; done.
Qed.
End ops.
