(* ===== verification/NotificTimer.v ===== *)
(** The timer interrupt: every thread whose time has come is woken, and the timer is set for the next one. *)
From stdpp Require Import sorting.
From S2P Require Import Prelude Words Sched SchedProofs SchedBlock ThreadDq Notific Waiters NotificProofs NotificOps.

Section timer.
Context (e : ipc_config).
Notation c := (sched_config e).
Notation base := (pool_base e).
Notation held := (ninv_at e (Some (cpu c))).

(** The timeout of [p], which slept as [z], has come. *)
Record expires (s : nstate) (p : Z) (z : sleep_state) (s' : nstate) : Prop := {
  ex_sched : ∃ t, threads (sch s) !! p = Some t ∧ state t = TS_WAITING ∧ wakeable c t ∧ woken c (sch s) p t (sch s');
  ex_sleep : ∃ z', sleeps s' = <[p := z']> (sleeps s) ∧ cb z' = CB_NULL;
  ex_lists : ∃ T, time_states s !! cpu c = Some T ∧
    time_states s' = <[cpu c := set_sleep_list (filter (λ x, x ≠ p) (sleep_list T)) T]> (time_states s);
  ex_ret : rets s' = if bool_decide (cb z = NOTIFIC_TIMER_CB) then <[p := - ETIMEDOUT]> (rets s) else rets s;
  ex_rest : objects s' = objects s ∧ reads s' = reads s ∧ timers s' = timers s
}.

(** [notific_timer_cb] of a thread that waits at [q] *)
Lemma wp_notific_timer_cb s n (A : gmap Z sem) q a p z t :
  dq_waits base (pool s) n (waiters <$> A) → cpu_ok c (sch s) → config_ok c → A !! q = Some a → notifs s !! q = Some (notific_of a) →
  p ∈ waiters a → threads (sch s) !! p = Some t → state t = TS_WAITING → wakeable c t → sleeps s !! p = Some z → pending_notific z = q →
  wp (notific_timer_cb e p) (λ _ s', ∃ x pl, woken c (sch s) p t x ∧ dq_waits base pl n (waiters <$> <[q := forget_in p a]> A) ∧
    s' = set_notifs (<[q := notific_of (forget_in p a)]> (notifs s)) (set_rets (<[p := - ETIMEDOUT]> (rets s))
      (set_pool pl (set_sch x (set_sleeps (<[p := set_pending_notific 0 z]> (sleeps s)) s))))) s.
Proof.
  intros Hpool Hok Hc Hq HN Hp Ht Hst Hw Hz Hpend. unfold notific_timer_cb. wp_seq. eapply wp_sleep; [done|]. rewrite Hpend. wp_seq.
  assert ((waiters <$> A) !! q = Some (waiters a)) as HW by by rewrite lookup_fmap, Hq.
  pose proof (waits_NoDup _ _ _ _ _ _ Hpool HW) as Hnd. pose proof (filter_ne_length (waiters a) p Hnd Hp) as Hlen.
  pose proof (waits_length _ _ _ _ _ _ Hpool HW) as Hb. unfold THREAD_DQ_POOL_SIZE in Hb.
  eapply wp_upd_sleep; [done|]. wp_seq. eapply wp_lock_notifc; [done|done|]. wp_seq. eapply wp_notifc; [apply lookup_insert_eq|].
  cbn [set_notifc_lock nstatus notific_of waiting_threads_count]. rewrite bool_decide_eq_false_2 by done. wp_seq.
  apply wp_on_sched. cbn. eapply wp_thr; [done|]. rewrite Hst, bool_decide_eq_true_2 by done. cbn [negb]. wp_seq. apply wp_on_dq_pool. cbn.
  pose proof (waits_cancel base _ _ _ q _ p Hpool HW Hp) as Hcan. rewrite wp_bind in Hcan.
  eapply wp_mono; [exact Hcan|]. intros [] pl0 Hcan0. wp_seq. apply wp_on_dq_pool. cbn [pool set_pool]. eapply wp_mono; [exact Hcan0|]. intros [] pl Hpl. wp_seq.
  apply wp_bug_on; [apply bool_decide_eq_false; lia|]. wp_seq. eapply wp_upd_notifc; [apply lookup_insert_eq|]. unfold arch_set_thread_return. wp_seq.
  apply wp_on_sched. cbn. eapply wp_upd; [done|]. wp_seq. apply wp_on_sched. cbn.
  eapply wp_mono; [by apply wp_wake_affinity; [apply Hok| | |]|]. intros r x [-> Hx]. wp_seq. apply wp_bug_on; [done|].
  unfold unlock_notifc. eapply wp_upd_notifc; [apply lookup_insert_eq|]. cbn. rewrite !insert_insert_eq.
  exists x, pl. split_and!; [done|by rewrite fmap_insert|].
  assert (set_notifc_lock false (set_waiting_count (wrap_u32 (Z.of_nat (length (waiters a)) - 1)) (set_notifc_lock true (notific_of a))) =
    notific_of (forget_in p a)) as HN'; [|by rewrite HN'].
  unfold notific_of, set_notifc_lock, set_waiting_count. cbn. f_equal. rewrite wrap_u32_small by lia. lia.
Qed.

Lemma wp_sleep_timer_cb s p t : cpu_ok c (sch s) → config_ok c → threads (sch s) !! p = Some t → wakeable c t →
  wp (sleep_timer_cb e p) (λ _ s', ∃ x, woken c (sch s) p t x ∧ s' = set_sch x s) s.
Proof.
  intros Hok Hc Ht Hw. unfold sleep_timer_cb. wp_seq. apply wp_on_sched. eapply wp_upd; [done|]. wp_seq. apply wp_on_sched. cbn.
  eapply wp_mono; [by apply wp_wake_enqueue; [apply Hok| | |]|]. intros r x [-> Hx]. apply wp_bug_on; [done|]. by exists x.
Qed.

Lemma wp_wake_sleeper s n (A : gmap Z sem) p z : held s n A → config_ok c → sleeps s !! p = Some z → cb z ≠ CB_NULL → sleep_cpu z = cpu c →
  wp (wake_sleeper e p z) (λ _ s', held s' n (forget p A) ∧ expires s p z s') s.
Proof.
  intros HI Hc Hz Hcb Hcpu. pose proof (n_lists _ _ _ _ _ HI) as HS. destruct (so_out _ _ _ HS p z Hz Hcb) as (_&T&HT&_). rewrite Hcpu in HT.
  destruct (n_sleep _ _ _ _ _ HI p z Hz Hcb) as [Hlk Hfor].
  destruct (sleeper_dormant _ _ _ _ _ _ _ HI Hz Hcb) as (t&Ht&Hst&Hw).
  unfold wake_sleeper, list_del_sleeper. wp_seq. eapply wp_lock_queue; [done|done|]. wp_seq. eapply wp_upd_time; [done|]. wp_seq.
  set (T' := set_sleep_list (filter (λ x, x ≠ p) (sleep_list T)) T). set (z1 := set_queue_lock true z).
  assert (∀ z', cb z' = CB_NULL → sleepers_ok (Some (cpu c)) (<[p := z']> (sleeps s)) (<[cpu c := T']> (time_states s))) as HS'.
  { intros z' Hz'. rewrite <-Hcpu. eapply (sleepers_remove (Some (sleep_cpu z)) (sleeps s) (time_states s) p z z' T T'); try done; by rewrite Hcpu. }
  (* the assertion on a sleeping thread *)
  assert (∀ (P : unit → nstate → Prop) s0, sch s0 = sch s → P tt s0 → wp (when (bool_decide (cb z = SLEEP_TIMER_CB))
    (t ← on_sched (thr p); bug_on (negb (bool_decide (state t = TS_WAITING))))) P s0) as Hwhen.
  { intros P s0 Hs0 HP. destruct (bool_decide _); cbn [when]; [|done]. wp_seq. apply wp_on_sched. rewrite Hs0. eapply wp_thr; [done|].
    apply wp_bug_on; [rewrite Hst; by rewrite bool_decide_eq_true_2|]. rewrite <-Hs0. by destruct s0. }
  apply Hwhen; [done|]. wp_seq. apply wp_bug_on; [by apply bool_decide_eq_false|].
  destruct Hfor as [(Ecb&_&Hnw)|(Ecb&a&Ha&Hp)]; rewrite Ecb; cbn [run_cb]; wp_seq.
  - eapply wp_mono; [apply (wp_sleep_timer_cb _ p t); cbn; [apply HI|done..]|]. intros [] s1 (x&Hx&->). unfold unlock_queue. wp_seq. cbn in Hx |- *.
    eapply wp_upd_sleep; [apply lookup_insert_eq|]. wp_seq. eapply wp_upd_sleep; [apply lookup_insert_eq|]. cbn. rewrite !insert_insert_eq. split.
    + eapply (ninv_wake e (Some (cpu c)) (Some (cpu c)) s n A p t); try done; cbn; [by apply HS'|rewrite forget_none by done; apply HI|].
      rewrite forget_none by done. intros q a Hq. by apply (n_notif _ _ _ _ _ HI).
    + split; cbn; [by exists t|by eexists|by exists T|by rewrite Ecb|done].
  - assert (wp (notific_timer_cb e p) (λ _ s', ∃ x pl, woken c (sch s) p t x ∧ dq_waits base pl n (waiters <$> <[pending_notific z := forget_in p a]> A) ∧
      s' = set_notifs (<[pending_notific z := notific_of (forget_in p a)]> (notifs s)) (set_rets (<[p := - ETIMEDOUT]> (rets s))
      (set_pool pl (set_sch x (set_sleeps (<[p := set_pending_notific 0 z1]> (sleeps s)) (set_time_states (<[cpu c := T']> (time_states s)) s))))))
      (set_time_states (<[cpu c := T']> (time_states s)) (set_sleeps (<[p := z1]> (sleeps s)) s))) as Hbody.
    { eapply wp_mono; [eapply (wp_notific_timer_cb _ n A (pending_notific z) a p z1 t); cbn; try done; [apply HI|apply HI|by apply (n_notif _ _ _ _ _ HI)|apply lookup_insert_eq]|].
      intros [] s' (x&pl&?&?&->). cbn. rewrite insert_insert_eq. by exists x, pl. }
    eapply wp_mono; [exact Hbody|]. intros [] s1 (x&pl&Hx&Hpl&->). unfold unlock_queue. wp_seq. cbn.
    eapply wp_upd_sleep; [apply lookup_insert_eq|]. wp_seq. eapply wp_upd_sleep; [apply lookup_insert_eq|]. cbn. rewrite !insert_insert_eq.
    pose proof (forget_waiting _ _ _ _ _ _ _ p HI Ha Hp) as Hfor. split.
    + eapply (ninv_wake e (Some (cpu c)) (Some (cpu c)) s n A p t); try done; cbn; [by apply HS'|by rewrite Hfor|].
      rewrite Hfor. intros q a' [[<- <-]|[Hne Hq]]%lookup_insert_Some; [by rewrite lookup_insert_eq|]. rewrite lookup_insert_ne by done. by apply (n_notif _ _ _ _ _ HI).
    + split; cbn; [by exists t|by eexists|by exists T|by rewrite Ecb|done].
Qed.

(** ** The loop *)

Definition forget_all (ps : list Z) (A : gmap Z sem) : gmap Z sem :=
  (λ a, Sem (pending a) (filter (λ x, x ∉ ps) (waiters a))) <$> A.

Lemma forget_all_nil A : forget_all [] A = A.
Proof.
  apply map_eq. intros q. unfold forget_all. rewrite lookup_fmap. destruct (A !! q) as [[k ws]|]; [|done]. simpl. do 2 f_equal.
  induction ws as [|w ws IH]; [done|]. rewrite filter_cons, decide_True by apply not_elem_of_nil. by f_equal.
Qed.

Lemma forget_all_cons p ps A : forget_all (p :: ps) A = forget_all ps (forget p A).
Proof.
  apply map_eq. intros q. unfold forget_all, forget. rewrite !lookup_fmap. destruct (A !! q) as [[k ws]|]; [|done]. simpl. do 2 f_equal.
  induction ws as [|w ws IH]; [done|]. rewrite !filter_cons. destruct (decide (w ≠ p)) as [Hp|Hp].
  - rewrite filter_cons. destruct (decide (w ∉ ps)) as [Hw|Hw].
    + rewrite decide_True by set_solver. by f_equal.
    + rewrite decide_False by set_solver. done.
  - rewrite decide_False by set_solver. done.
Qed.

(** A thread that waited as [t] is ready to run, or gone where it was told to go. *)
Definition revived (t t' : thread) : Prop :=
  match exit_state t with
  | TE_EXITING => exit_state t' = TE_EXITED
  | TE_STOPPING => exit_state t' = TE_STOPPED
  | _ => state t' = TS_READY ∧ 0 ≤ queue_cpuid t' < PLAT_CPU_NUM
  end.

Lemma woken_revived s p t s' : wakeable c t → woken c s p t s' → ∃ t', threads s' !! p = Some t' ∧ revived t t'.
Proof.
  intros Hw. unfold woken, revived. destruct (w_exit _ _ Hw) as [E|[E|E]]; rewrite E.
  - intros (_&_&i&m&[Hi _]&_&_&bm&fl&ks&->&_). eexists. split; [apply lookup_insert_eq|]. by split.
  - intros ->. eexists. split; [apply lookup_insert_eq|]. done.
  - intros ->. eexists. split; [apply lookup_insert_eq|]. done.
Qed.

(** What became of a thread whose timeout came, from [s] to [s'] *)
Definition timed_out (s s' : nstate) (p : Z) : Prop :=
  ∃ t t' z z', threads (sch s) !! p = Some t ∧ threads (sch s') !! p = Some t' ∧ revived t t' ∧
    sleeps s !! p = Some z ∧ sleeps s' !! p = Some z' ∧ cb z' = CB_NULL ∧
    (cb z = NOTIFIC_TIMER_CB → rets s' !! p = Some (- ETIMEDOUT)).

(** The loop has woken the threads [ps]. *)
Record woke_all (s : nstate) (ps : list Z) (s' : nstate) : Prop := {
  wa_expired : ∀ p, p ∈ ps → timed_out s s' p;
  wa_threads : ∀ x, x ∉ ps → threads (sch s') !! x = threads (sch s) !! x;
  wa_sleeps : ∀ x, x ∉ ps → sleeps s' !! x = sleeps s !! x ∧ rets s' !! x = rets s !! x;
  wa_current : current_threads (sch s') = current_threads (sch s);
  wa_rest : reads s' = reads s ∧ timers s' = timers s ∧ objects s' = objects s
}.

Lemma woke_none s : woke_all s [] s.
Proof. split; [by intros p ?%elem_of_nil|done..]. Qed.

Lemma woke_one s n A p z s1 ps s' : held s n A → sleeps s !! p = Some z → p ∉ ps → expires s p z s1 → woke_all s1 ps s' → woke_all s (p :: ps) s'.
Proof.
  intros HI Hz Hp [(t&Ht&Hst&Hw&Hwoken) (z'&Hsl&Hcb) _ Hret (Hobj&Hrd&Htm)] [H1 H2 H3 H4 (R1&R2&R3)].
  destruct (woken_frame c _ _ _ _ (n_cpu _ _ _ _ _ HI) Ht Hw Hwoken) as (_&Hoth&Hcur&_). destruct (woken_revived _ _ _ _ Hw Hwoken) as (t1&Ht1&Hrev).
  split; [| | |by rewrite H4|split_and!; congruence].
  - intros x [->|Hx]%elem_of_cons.
    + destruct (H3 p Hp) as [Hs3 Hr3]. exists t, t1, z, z'. rewrite H2, Hs3, Hr3, Hsl, lookup_insert_eq by done. split_and!; try done.
      intros E. rewrite Hret, E, bool_decide_eq_true_2 by done. apply lookup_insert_eq.
    + assert (x ≠ p) as Hne by (by intros ->). destruct (H1 x Hx) as (tx&tx'&zx&zx'&Htx&Htx'&Hr&Hzx&Hzx'&?&?).
      rewrite Hoth in Htx by done. rewrite Hsl, lookup_insert_ne in Hzx by done. by exists tx, tx', zx, zx'.
  - intros x Hx. apply not_elem_of_cons in Hx as [Hx1 Hx2]. rewrite H2 by done. by apply Hoth.
  - intros x Hx. apply not_elem_of_cons in Hx as [Hx1 Hx2]. destruct (H3 x Hx2) as [-> ->]. rewrite Hsl, lookup_insert_ne by done.
    split; [done|]. rewrite Hret. destruct (bool_decide _); [by rewrite lookup_insert_ne|done].
Qed.

Lemma wp_wake_expired s n A now T l :
  held s n A → config_ok c → time_states s !! cpu c = Some T → sleep_list T = l →
  wp (wake_expired e now l) (λ _ s', ∃ ps rest, l = ps ++ rest ∧ Forall (λ p, wakeup_of (sleeps s) p ≤ now) ps ∧
    Forall (λ p, now < wakeup_of (sleeps s) p) rest ∧ held s' n (forget_all ps A) ∧ woke_all s ps s' ∧
    ∃ T', time_states s' !! cpu c = Some T' ∧ sleep_list T' = rest) s.
Proof.
  revert s A T. induction l as [|p l IH]; intros s A T HI Hc HT Hl; cbn [wake_expired].
  { wp_seq. exists [], []. rewrite forget_all_nil. split_and!; [done|constructor|constructor|done|apply woke_none|by exists T]. }
  pose proof (n_lists _ _ _ _ _ HI) as HS. destruct (so_list _ _ _ HS _ (c_cpu _ Hc)) as (T0&?&_&Hnd&Hord). simplify_eq.
  rewrite Hl in Hnd, Hord. apply NoDup_cons in Hnd as [Hp Hnd]. apply StronglySorted_inv in Hord as [Hord Hfirst].
  destruct (so_in _ _ _ HS _ _ p HT) as (z&Hz&Hcb&Hcpu); [rewrite Hl; by left|].
  assert (wakeup_of (sleeps s) p = wakeup_tick z) as Hw by (unfold wakeup_of; by rewrite Hz).
  wp_seq. eapply wp_sleep; [done|]. rewrite <-Hw. case_bool_decide as Hnow; wp_seq.
  { exists [], (p :: l). rewrite forget_all_nil. split_and!; [done|constructor| |done|apply woke_none|by exists T].
    constructor; [lia|]. eapply Forall_impl; [done|]. simpl. lia. }
  eapply wp_mono; [by apply wp_wake_sleeper|]. intros [] s1 [HI1 Hex]. pose proof Hex as [_ (z'&Hsl&_) (T1&HT1&Hts) _ _]. simplify_eq.
  eapply wp_mono; [eapply (IH s1 (forget p A)); [done|done|rewrite Hts; apply lookup_insert_eq|]|].
  { simpl. rewrite Hl, filter_cons, decide_False by naive_solver. by apply filter_ne_id. }
  intros [] s2 (ps&rest&->&Hps&Hrest&HI2&Hall&T2&HT2&Hl2). exists (p :: ps), rest. rewrite forget_all_cons.
  assert (∀ x, x ∈ ps ++ rest → wakeup_of (sleeps s1) x = wakeup_of (sleeps s) x) as Hsame.
  { intros x Hx. rewrite Hsl. apply wakeup_of_ne. by intros ->. }
  split_and!; [done| | |done| |by exists T2].
  - constructor; [lia|]. rewrite Forall_forall in Hps |- *. intros x Hx. rewrite <-Hsame by set_solver. by apply Hps.
  - rewrite Forall_forall in Hrest |- *. intros x Hx. rewrite <-Hsame by set_solver. by apply Hrest.
  - eapply woke_one; [done|done| |done|done]. set_solver.
Qed.

(** ** The handler *)

(** Only the sleep lists change, in what the invariant does not say of them. *)
Lemma ninv_lists L L' s n A s' : ninv_at e L s n A → pool s' = pool s → sch s' = sch s → notifs s' = notifs s → sleeps s' = sleeps s →
  objects s' = objects s → sleepers_ok L' (sleeps s) (time_states s') → ninv_at e L' s' n A.
Proof.
  intros [H1 H2 H3 H4 H5 H6] Ep Es En Ez Eo HS. split; [by rewrite Ep|by rewrite Es|by rewrite En| |by rewrite Ez|].
  - intros q a p Hq Hp. unfold waits_at. rewrite Es, Eo, Ez. by eapply H4.
  - intros p z. rewrite Ez. unfold sleeps_for. rewrite Es. apply H6.
Qed.

(** Only a thread that does not wait changes. *)
Lemma ninv_sched L s n A x : ninv_at e L s n A → cpu_ok c x → (∀ p, dormant c (sch s) p → threads x !! p = threads (sch s) !! p) →
  ninv_at e L (set_sch x s) n A.
Proof.
  intros [H1 H2 H3 H4 H5 H6] Hx Hd. assert (∀ p, dormant c (sch s) p → dormant c x p) as Hd' by (intros p Hp; pose proof (Hd p Hp) as E; destruct Hp as (t&?&?); exists t; by rewrite E).
  split; [done|done|done| |done|].
  - intros q a p Hq Hp. destruct (H4 q a p Hq Hp) as (?&?&?). split_and!; [by apply Hd'|done|done].
  - intros p z Hz Hc. destruct (H6 p z Hz Hc) as [? [(?&?&?)|?]]; (split; [done|]); [left; split_and!; [done|by apply Hd'|done]|by right].
Qed.

Definition tick : Z := wrap_u64 (TICK_MS * 1000 * tick_per_us e).

(** The delay until the next interrupt, at the time [now], where [rest] still sleep *)
Definition delay (zs : gmap Z sleep_state) (now : Z) (rest : list Z) : Z :=
  match rest with
  | [] => tick
  | p :: _ => if bool_decide (wrap_u64 (now + tick) > wakeup_of zs p) then Z.max 0 (wakeup_of zs p - now) else tick
  end.

Lemma wp_next_tick_delta s T rest : time_states s !! cpu c = Some T → sleep_list T = rest → (∀ p, p ∈ rest → is_Some (sleeps s !! p)) →
  wp (get_next_tick_delta e) (λ d s', d = delay (sleeps s) (clock e (reads s)) rest ∧ ∃ k, s' = set_reads k s) s.
Proof.
  intros HT <- Hin. unfold get_next_tick_delta, plat_get_current_tick. wp_seq. eapply wp_time; [done|]. fold tick. destruct (sleep_list T) as [|p l].
  - wp_seq. split; [done|]. exists (reads s). by destruct s.
  - destruct (Hin p ltac:(by left)) as [z Hz]. wp_seq. eapply wp_sleep; [done|]. wp_seq. unfold delay, wakeup_of. rewrite Hz.
    split; [|by eexists]. case_bool_decide; [|done]. case_bool_decide; lia.
Qed.

(** The timer does not sleep longer than the first thread. *)
Lemma delay_in_time zs now p l : 0 ≤ now → 0 ≤ tick → now + tick < 2 ^ 64 → now + delay zs now (p :: l) ≤ Z.max now (wakeup_of zs p).
Proof. intros Hn Ht Hlt. unfold delay. rewrite wrap_u64_small by lia. case_bool_decide; lia. Qed.

(** The running thread has paid for its tick. *)
Definition charged (t : thread) : thread :=
  if bool_decide (exit_state t = TE_MIGRATING) || negb (bool_decide (machine_id t = CUR_MACHINE_ID c)) then t
  else match budget t with Some b => set_budget (Some (b - 1)) t | None => t end.

Lemma wp_charge s r t b : cpu_ok c s → current_threads s !! cpu c = Some r → threads s !! r = Some t → state t = TS_RUNNING →
  budget t = Some b → 0 < b → wp (charge_tick e) (λ _ s', s' = with_thread r (charged t) s ∧ cpu_ok c s') s.
Proof.
  intros [HI (ti&Hti&?&?&?) Hb Hsh] Hcur Ht Hst Hbud Hpos. unfold charge_tick, current. wp_seq. rewrite Hcur. wp_seq. eapply wp_thr; [done|]. wp_seq.
  apply wp_bug_on; [by rewrite Hbud|]. unfold charged. destruct (_ || _) eqn:E.
  { wp_seq. rewrite with_thread_id by done. split; [done|]. split; [done|by exists ti|done|done]. }
  wp_seq. eapply wp_from_opt; [done|]. wp_seq. apply wp_bug_on; [apply bool_decide_eq_false; lia|]. eapply wp_upd; [done|]. rewrite Hbud. split; [done|].
  split; [eapply rr_inv_thread; [done|done|done|done|by right; right]| |done|done]. cbn. destruct (decide (r = idle_threads (cpu c))) as [->|].
  - assert (t = ti) as -> by congruence. eexists. rewrite lookup_insert_eq. split; [done|]. done.
  - exists ti. by rewrite lookup_insert_ne.
Qed.

(** After the interrupt *)
Record ticked (s : nstate) (n : nat) (A : gmap Z sem) (r : Z) (t : thread) (ps rest : list Z) (s' : nstate) : Prop := {
  ti_inv : ninv_at e None s' n (forget_all ps A);
  ti_expired : ∀ p, p ∈ ps → timed_out s s' p;
  ti_others : ∀ x, x ∉ ps → x ≠ r → threads (sch s') !! x = threads (sch s) !! x ∧ sleeps s' !! x = sleeps s !! x ∧ rets s' !! x = rets s !! x;
  ti_current : current_threads (sch s') = current_threads (sch s) ∧ threads (sch s') !! r = Some (charged t);
  ti_list : ∃ T, time_states s' !! cpu c = Some T ∧ sleep_list T = rest ∧
    next_expire T = wrap_u64 (clock e (reads s) + delay (sleeps s) (clock e (S (reads s))) rest);
  ti_timer : timers s' !! cpu c = Some (delay (sleeps s) (clock e (S (reads s))) rest)
}.

Lemma delay_ext zs zs' now rest : (∀ x, x ∈ rest → zs' !! x = zs !! x) → delay zs' now rest = delay zs now rest.
Proof. intros H. destruct rest as [|p l]; [done|]. unfold delay, wakeup_of. by rewrite H by (by left). Qed.

Lemma wp_handle_timer_irq s n A r t b T :
  ninv_at e None s n A → config_ok c → current_threads (sch s) !! cpu c = Some r → threads (sch s) !! r = Some t → state t = TS_RUNNING →
  budget t = Some b → 0 < b → time_states s !! cpu c = Some T →
  wp (handle_timer_irq e) (λ _ s', ∃ ps rest, sleep_list T = ps ++ rest ∧ Forall (λ p, wakeup_of (sleeps s) p ≤ clock e (reads s)) ps ∧
    Forall (λ p, clock e (reads s) < wakeup_of (sleeps s) p) rest ∧ ticked s n A r t ps rest s') s.
Proof.
  intros HI Hc Hcur Ht Hst Hbud Hpos HT. pose proof (n_lists _ _ _ _ _ HI) as HS.
  destruct (so_list _ _ _ HS _ (c_cpu _ Hc)) as (T0&?&Hl&Hnd&_). simplify_eq. rewrite bool_decide_eq_false_2 in Hl by done.
  unfold handle_timer_irq, plat_get_current_tick. wp_seq. eapply wp_lock_time; [done|done|]. wp_seq. eapply wp_time; [apply lookup_insert_eq|]. wp_seq.
  set (s0 := set_time_states _ _).
  assert (held s0 n A) as HI0.
  { eapply ninv_lists; [done|done..|]. eapply sleepers_lock; [done|done|done|by rewrite bool_decide_eq_true_2|]. intros j Hj. by rewrite !bool_decide_eq_false_2 by congruence. }
  eapply wp_mono; [eapply (wp_wake_expired s0 n A); [done|done|apply lookup_insert_eq|done]|].
  intros [] s1 (ps&rest&Hlist&Hps&Hrest&HI1&[W1 W2 W3 W4 (W5&W6&W7)]&T1&HT1&Hl1). cbn [set_sleep_list_lock sleep_list] in Hlist.
  pose proof (n_lists _ _ _ _ _ HI1) as HS1. wp_seq. eapply wp_mono; [eapply (wp_next_tick_delta s1 T1 rest); [done|done|]|].
  { intros p Hp. rewrite <-Hl1 in Hp. destruct (so_in _ _ _ HS1 _ _ _ HT1 Hp) as (z&?&_). by eexists. }
  intros d s2 (->&k&->). rewrite W5. change (reads s0) with (S (reads s)).
  assert (∀ x, x ∈ rest → sleeps s1 !! x = sleeps s !! x) as Hz.
  { intros x Hx. apply (W3 x). intros Hx'. rewrite Hlist in Hnd. apply NoDup_app in Hnd as (_&Hdisj&_). by apply (Hdisj x). }
  rewrite (delay_ext _ _ _ _ Hz). set (d := delay _ _ _). unfold unlock_time. wp_seq. eapply wp_upd_time; [done|]. wp_seq.
  eapply wp_upd_time; [apply lookup_insert_eq|]. unfold plat_set_next_timer. wp_seq. cbn. rewrite insert_insert_eq.
  set (s3 := set_timers _ _). set (T3 := set_next_expire _ _) in s3.
  assert (ninv_at e None s3 n (forget_all ps A)) as HI3.
  { eapply ninv_lists; [exact HI1|done..|]. eapply sleepers_lock; [exact HS1|exact HT1|done|done|]. intros j Hj. by rewrite !bool_decide_eq_false_2 by congruence. }
  assert (r ∉ ps) as Hr.
  { intros Hin. destruct (W1 r Hin) as (t0&_&z0&_&?&_&_&Hz0&_). cbn in *. simplify_eq.
    assert (r ∈ sleep_list T) as Hrl by (rewrite Hlist; set_solver). destruct (so_in _ _ _ HS _ _ _ HT Hrl) as (z1&?&?&_).
    destruct (sleeper_dormant e None s n A r z1 HI) as (t1&?&?&_); [done|done|]. congruence. }
  apply wp_on_sched. eapply wp_mono; [eapply (wp_charge (sch s1) r t b); [apply HI1|by rewrite W4|by rewrite W2|done|done|done]|].
  intros [] x [-> Hok]. exists ps, rest. split_and!; [done|done|done|]. split.
  - apply ninv_sched; [done|done|]. intros p (tp&Htp&Hsp&_). cbn in Htp |- *. rewrite lookup_insert_ne; [done|]. intros ->. rewrite W2 in Htp by done. cbn in Htp. congruence.
  - intros p Hp. destruct (W1 p Hp) as (t0&t0'&z0&z0'&?&?&?&?&?&?&?). exists t0, t0', z0, z0'. cbn. rewrite lookup_insert_ne by (by intros ->). done.
  - intros x Hx Hxr. cbn. rewrite lookup_insert_ne by done. destruct (W3 x Hx). by rewrite W2.
  - cbn. rewrite W4. split; [done|apply lookup_insert_eq].
  - exists T3. cbn. rewrite lookup_insert_eq. done.
  - cbn. apply lookup_insert_eq.
Qed.
End timer.
