(* ===== verification/NotificMove.v ===== *)
(** Making and destroying notifications, and moving a waiting thread from one to another. *)
From stdpp Require Import sorting.
From S2P Require Import Prelude Words Sched SchedProofs SchedBlock ThreadDq Notific Waiters NotificProofs NotificOps.

Section move.
Context (e : ipc_config).
Notation c := (sched_config e).
Notation base := (pool_base e).
Notation ninv := (ninv_at e None).

(** The semaphores change where nobody waits, before or after. *)
Lemma ninv_idle s n (A A' : gmap Z sem) s' n' :
  ninv s n A → sch s' = sch s → sleeps s' = sleeps s → time_states s' = time_states s → objects s' = objects s →
  dq_waits base (pool s') n' (waiters <$> A') → (∀ q a, A' !! q = Some a → notifs s' !! q = Some (notific_of a) ∧ sem_ok a) →
  (∀ q a, A' !! q = Some a → waiters a ≠ [] → A !! q = Some a) → (∀ q a, A !! q = Some a → waiters a ≠ [] → A' !! q = Some a) →
  ninv s' n' A'.
Proof.
  intros HI Es Ez Et Eo Hpool Hnot H1 H2. split; [done|rewrite Es; apply HI|done| |rewrite Ez, Et; apply HI|].
  - intros q a p Hq Hp. unfold waits_at. rewrite Es, Ez, Eo. eapply (n_wait _ _ _ _ _ HI); [|done]. apply H1; [done|]. intros E. rewrite E in Hp. by apply elem_of_nil in Hp.
  - intros p z. rewrite Ez. intros Hz Hcb. unfold sleeps_for. rewrite Es. destruct (n_sleep _ _ _ _ _ HI p z Hz Hcb) as [Hl [(?&?&Hnw)|(?&a&Ha&Hp)]]; (split; [done|]); [left|right].
    + split_and!; [done|done|]. intros q ws Hq Hp. rewrite lookup_fmap in Hq. destruct (A' !! q) as [a|] eqn:E; [|done]. simplify_eq/=.
      apply (Hnw q (waiters a)); [|done]. rewrite lookup_fmap, (H1 q a); [done|done|]. intros E'. rewrite E' in Hp. by apply elem_of_nil in Hp.
    + split; [done|]. exists a. split; [|done]. apply H2; [done|]. intros E'. rewrite E' in Hp. by apply elem_of_nil in Hp.
Qed.

Lemma wp_init_notific s n A q : ninv s (S n) A → A !! q = None →
  wp (init_notific q) (λ _ s', ninv s' n (<[q := Sem 0 []]> A) ∧ ∃ pl,
    s' = set_notifs (<[q := notific_of (Sem 0 [])]> (notifs s)) (set_pool pl s)) s.
Proof.
  intros HI Hq. unfold init_notific. wp_seq. apply wp_on_dq_pool.
  eapply wp_mono; [eapply (waits_init base (pool s) n (waiters <$> A) q); [apply HI|by rewrite lookup_fmap, Hq]|]. intros r pl Hpl. wp_seq. cbn.
  split; [|by exists pl]. eapply (ninv_idle s (S n) A); try done; cbn.
  - by rewrite fmap_insert.
  - intros q' a [[<- <-]|[Hne Hq']]%lookup_insert_Some; [by rewrite lookup_insert_eq|]. rewrite lookup_insert_ne by done. by apply (n_notif _ _ _ _ _ HI).
  - intros q' a [[<- <-]|[Hne Hq']]%lookup_insert_Some; done.
  - intros q' a Hq' _. rewrite lookup_insert_ne; [done|]. by intros ->; simplify_eq.
Qed.

Lemma wp_deinit_notific s n A q k : ninv s n A → A !! q = Some (Sem k []) → q ≠ 0 →
  wp (deinit_notific e q) (λ _ s', ∃ n' pl N, (n < n')%nat ∧ ninv s' n' (delete q A) ∧ nstatus N = NOTIFIC_INVALID ∧
    s' = set_notifs (<[q := N]> (notifs s)) (set_pool pl s)) s.
Proof.
  intros HI Hq Hq0. destruct (n_notif _ _ _ _ _ HI q _ Hq) as (HN&_). unfold deinit_notific, unlock_notifc. rewrite bool_decide_eq_false_2 by done. wp_seq.
  eapply wp_lock_notifc; [done|done|]. wp_seq. eapply wp_upd_notifc; [apply lookup_insert_eq|]. wp_seq. apply wp_on_dq_pool. cbn.
  eapply wp_mono; [eapply (waits_deinit base (pool s) n (waiters <$> A) q []); [apply HI|by rewrite lookup_fmap, Hq]|]. intros [] pl (n'&Hn'&Hpl).
  eapply wp_upd_notifc; [apply lookup_insert_eq|]. cbn. rewrite !insert_insert_eq. exists n', pl, (set_notifc_lock false (set_nstatus NOTIFIC_INVALID (set_notifc_lock true (notific_of (Sem k []))))). split_and!; [done| |done|done].
  eapply (ninv_idle s n A); try done; cbn.
  - by rewrite fmap_delete.
  - intros q' a [Hne Hq']%lookup_delete_Some. rewrite lookup_insert_ne by done. by apply (n_notif _ _ _ _ _ HI).
  - by intros q' a [Hne Hq']%lookup_delete_Some.
  - intros q' a Hq' Hw. rewrite lookup_delete_ne; [done|]. intros ->. by simplify_eq.
Qed.

(** ** Moving a waiting thread *)

(** [p] waits at [dst] instead of [src]. *)
Lemma ninv_moved s n A src dst p ws ws' z s' n' :
  ninv s n A → src ≠ dst → A !! src = Some (Sem 0 (p :: ws)) → A !! dst = Some (Sem 0 ws') → sleeps s !! p = Some z →
  sch s' = sch s → time_states s' = time_states s → objects s' = objects s → sleeps s' = <[p := set_pending_notific dst z]> (sleeps s) →
  dq_waits base (pool s') n' (<[dst := ws' ++ [p]]> (<[src := ws]> (waiters <$> A))) →
  notifs s' = <[dst := notific_of (Sem 0 (ws' ++ [p]))]> (<[src := notific_of (Sem 0 ws)]> (notifs s)) →
  ninv s' n' (<[dst := Sem 0 (ws' ++ [p])]> (<[src := Sem 0 ws]> A)).
Proof.
  intros HI Hne Hsrc Hdst Hz Es Et Eo Ez Hpool Hnot. pose proof (waiters_nodup _ _ _ _ _ _ _ HI Hsrc) as [Hp _]%NoDup_cons.
  destruct (n_wait _ _ _ _ _ HI src _ p Hsrc) as (Hd&Ho&z0&?&Hlk&Hcb); [by left|]. assert (z0 = z) as -> by congruence.
  assert (∀ q a x, A !! q = Some a → x ∈ waiters a → x ≠ p → waits_at e s' q x) as Hother.
  { intros q a x Hq Hx Hxp. destruct (n_wait _ _ _ _ _ HI q a x Hq Hx) as (Hdx&Hox&zx&Hzx&?). unfold waits_at. rewrite Es, Eo, Ez.
    split_and!; [done|done|]. exists zx. by rewrite lookup_insert_ne. }
  assert (∀ q a, A !! q = Some a → p ∈ waiters a → q = src) as Honly.
  { intros q a Hq Hpa. eapply (waits_one_place e None s n A src q); [done|done|done|by left|done]. }
  split; [by rewrite !fmap_insert|rewrite Es; apply HI| | | |].
  - intros q a. rewrite Hnot. intros [[<- <-]|[Hq [[<- <-]|[Hq' Ha]]%lookup_insert_Some]]%lookup_insert_Some.
    + by rewrite lookup_insert_eq.
    + by rewrite lookup_insert_ne, lookup_insert_eq.
    + rewrite !lookup_insert_ne by done. by apply (n_notif _ _ _ _ _ HI).
  - intros q a x [[<- <-]|[Hq [[<- <-]|[Hq' Ha]]%lookup_insert_Some]]%lookup_insert_Some Hx; cbn [waiters] in Hx.
    + apply elem_of_app in Hx as [Hx| ->%list_elem_of_singleton].
      * eapply Hother; [done|done|]. intros ->. by destruct Hne; symmetry; eapply Honly.
      * unfold waits_at. rewrite Es, Eo, Ez, lookup_insert_eq. split_and!; [done|done|]. eexists. split; [done|]. split; [done|].
        destruct Hcb as [?|[? _]]; [by left|by right].
    + eapply (Hother src); [done|by right|]. by intros ->.
    + eapply Hother; [done|done|]. intros ->. by destruct Hq'; symmetry; eapply Honly.
  - rewrite Ez, Et. eapply sleepers_touch; [apply HI|done|done|done|done].
  - intros x zx. rewrite Ez. unfold sleeps_for. rewrite Es. intros [[<- <-]|[Hxp Hzx]]%lookup_insert_Some Hc.
    + split; [done|]. destruct Hcb as [?|[? _]]; [done|]. right. split; [done|]. eexists. cbn. rewrite lookup_insert_eq. split; [done|]. cbn. set_solver.
    + destruct (n_sleep _ _ _ _ _ HI x zx Hzx Hc) as [Hl [(?&?&Hnw)|(?&a&Ha&Hx)]]; (split; [done|]); [left; split_and!; [done|done|]|right; split; [done|]].
      * rewrite !fmap_insert. cbn [waiters]. apply not_waiting_insert; [apply not_waiting_insert; [done|]|].
        -- intros Hx. eapply (Hnw src); [by rewrite lookup_fmap, Hsrc|by right].
        -- intros [Hx|Hx%list_elem_of_singleton]%elem_of_app; [|done]. eapply (Hnw dst); [by rewrite lookup_fmap, Hdst|done].
      * destruct (decide (pending_notific zx = dst)) as [E|E]; [rewrite E in *; simplify_eq; eexists; rewrite lookup_insert_eq; split; [done|]; cbn [waiters] in *; set_solver|].
        rewrite lookup_insert_ne by done. destruct (decide (pending_notific zx = src)) as [E'|E']; [|exists a; by rewrite lookup_insert_ne].
        rewrite E' in *. simplify_eq. eexists. rewrite lookup_insert_eq. split; [done|]. cbn [waiters] in *. by apply elem_of_cons in Hx as [?|?].
Qed.

Lemma insert_twice {B} (m : gmap Z B) i j a b a' b' : i ≠ j → <[i := a]> (<[j := b]> (<[i := a']> (<[j := b']> m))) = <[j := b]> (<[i := a]> m).
Proof.
  intros Hne. rewrite (insert_insert_ne _ j i) by done. rewrite insert_insert_eq, insert_insert_eq. by rewrite insert_insert_ne.
Qed.

(** Both locks are taken in the order of the addresses. *)
Lemma wp_two_locks {B} (m : M nstate B) s src dst NS ND (Q : B → nstate → Prop) : src ≠ dst → notifs s !! src = Some NS → notifs s !! dst = Some ND →
  notifc_lock NS = false → notifc_lock ND = false →
  wp m Q (set_notifs (<[src := set_notifc_lock true NS]> (<[dst := set_notifc_lock true ND]> (notifs s))) s) →
  wp (lock_notifc (if bool_decide (src > dst) then dst else src);; lock_notifc (if bool_decide (src > dst) then src else dst);; m) Q s.
Proof.
  intros Hne HS HD Ls Ld HQ. destruct (bool_decide _); wp_seq.
  - eapply wp_lock_notifc; [done|done|]. wp_seq. eapply wp_lock_notifc; [cbn; by rewrite lookup_insert_ne|done|]. done.
  - eapply wp_lock_notifc; [done|done|]. wp_seq. eapply wp_lock_notifc; [cbn; by rewrite lookup_insert_ne|done|]. cbn. by rewrite insert_insert_ne.
Qed.

Lemma wp_two_unlocks {B} (m : M nstate B) s src dst NS ND (Q : B → nstate → Prop) : src ≠ dst → notifs s !! src = Some NS → notifs s !! dst = Some ND →
  wp m Q (set_notifs (<[src := set_notifc_lock false NS]> (<[dst := set_notifc_lock false ND]> (notifs s))) s) →
  wp (unlock_notifc (if bool_decide (src > dst) then src else dst);; unlock_notifc (if bool_decide (src > dst) then dst else src);; m) Q s.
Proof.
  intros Hne HS HD HQ. unfold unlock_notifc. destruct (bool_decide _); wp_seq.
  - eapply wp_upd_notifc; [done|]. wp_seq. eapply wp_upd_notifc; [cbn; by rewrite lookup_insert_ne|]. cbn. by rewrite insert_insert_ne.
  - eapply wp_upd_notifc; [done|]. wp_seq. eapply wp_upd_notifc; [cbn; by rewrite lookup_insert_ne|]. done.
Qed.

Lemma wp_requeue s n A src dst p ws ws' :
  ninv s n A → src ≠ dst → A !! src = Some (Sem 0 (p :: ws)) → A !! dst = Some (Sem 0 ws') →
  wp (requeue_notific src dst) (λ r s', r = 0 ∧ ∃ n' pl z, (n ≤ n')%nat ∧ sleeps s !! p = Some z ∧
    ninv s' n' (<[dst := Sem 0 (ws' ++ [p])]> (<[src := Sem 0 ws]> A)) ∧
    s' = set_notifs (<[dst := notific_of (Sem 0 (ws' ++ [p]))]> (<[src := notific_of (Sem 0 ws)]> (notifs s)))
      (set_sleeps (<[p := set_pending_notific dst z]> (sleeps s)) (set_pool pl s))) s.
Proof.
  intros HI Hne Hsrc Hdst. destruct (n_notif _ _ _ _ _ HI src _ Hsrc) as (HS&_). destruct (n_notif _ _ _ _ _ HI dst _ Hdst) as (HD&_).
  destruct (n_wait _ _ _ _ _ HI src _ p Hsrc) as (_&_&z&Hz&Hlk&_); [by left|].
  pose proof (waiters_bound _ _ _ _ _ _ _ HI Hsrc) as Hlen. pose proof (waiters_bound _ _ _ _ _ _ _ HI Hdst) as Hlen'.
  cbn [waiters length] in Hlen, Hlen'. unfold THREAD_DQ_POOL_SIZE in Hlen, Hlen'.
  assert ((waiters <$> A) !! src = Some (p :: ws)) as Ws by by rewrite lookup_fmap, Hsrc.
  assert ((waiters <$> A) !! dst = Some ws') as Wd by by rewrite lookup_fmap, Hdst.
  unfold requeue_notific. rewrite bool_decide_eq_false_2 by done. cbv zeta. eapply wp_two_locks; [done|done|done|done|done|]. wp_seq.
  eapply wp_notifc; [apply lookup_insert_eq|]. wp_seq. eapply wp_notifc; [cbn; by rewrite lookup_insert_ne, lookup_insert_eq|].
  cbn [set_notifc_lock nstatus notific_of waiting_threads_count waiters not_delivered_notifc_count pending].
  rewrite !(bool_decide_eq_false_2 (NOTIFIC_VALID = _)), (bool_decide_eq_false_2 (Z.of_nat _ = 0)) by (done || simpl; lia). cbn [orb]. wp_seq.
  apply wp_on_dq_pool. cbn [set_notifs pool]. eapply wp_mono; [eapply (waits_dequeue base (pool s) n (waiters <$> A) src (p :: ws)); [apply HI|done]|].
  intros r pl (->&n'&Hn'&Hpl). cbn [hd_error list.tail] in Hpl |- *. wp_seq. eapply wp_upd_notifc; [apply lookup_insert_eq|]. wp_seq.
  eapply wp_try_lock_queue; [done|done|]. rewrite (bool_decide_eq_true_2 (0 = 0)), (bool_decide_eq_false_2 (0 > 0)) by (done || lia). cbn [negb]. wp_seq.
  apply wp_bug_on; [done|]. wp_seq. eapply wp_upd_sleep; [apply lookup_insert_eq|]. wp_seq. apply wp_on_dq_pool. cbn [set_notifs set_pool set_sleeps pool].
  destruct n' as [|n']; [simpl in Hn'; lia|].
  eapply wp_mono; [eapply (waits_enqueue base pl n' _ dst ws' p); [exact Hpl|by rewrite lookup_insert_ne|]|].
  { pose proof (waiters_nodup _ _ _ _ _ _ _ HI Hsrc) as [Hp _]%NoDup_cons. intros q' w [[<- <-]|[Hq' Hw]]%lookup_insert_Some Hin; [done|].
    rewrite lookup_fmap in Hw. destruct (A !! q') as [a|] eqn:E; [|done]. simplify_eq/=. destruct Hq'. symmetry.
    eapply (waits_one_place e None s n A src q'); [done|done|done|by left|done]. }
  intros [] pl' Hpl'. wp_seq. eapply wp_upd_notifc; [cbn; by rewrite !lookup_insert_ne, lookup_insert_eq by done|]. unfold unlock_queue. wp_seq.
  eapply wp_upd_sleep; [apply lookup_insert_eq|]. rewrite wp_ret.
  eapply wp_two_unlocks; [done|cbn; by rewrite lookup_insert_ne, lookup_insert_eq by done|cbn; apply lookup_insert_eq|]. wp_seq. cbn. rewrite !insert_insert_eq.
  set (NS := set_notifc_lock false _). set (ND := set_notifc_lock false _).
  assert (NS = notific_of (Sem 0 ws)) as ->.
  { unfold NS, set_notifc_lock, set_waiting_count, notific_of. cbn. rewrite wrap_u32_small by lia. f_equal. lia. }
  assert (ND = notific_of (Sem 0 (ws' ++ [p]))) as ->.
  { unfold ND, set_notifc_lock, set_waiting_count, notific_of. cbn. rewrite wrap_u32_small by lia. f_equal. rewrite length_app. simpl. lia. }
  rewrite insert_twice by done. split; [done|]. exists n', pl', z. split_and!; [simpl in Hn'; lia|done| |].
  - eapply (ninv_moved s n A src dst p ws ws' z); try done; cbn.
    f_equal. by destruct z; simpl in *; subst.
  - assert (set_queue_lock false (set_pending_notific dst (set_queue_lock true z)) = set_pending_notific dst z) as -> by (by destruct z; simpl in *; subst).
    done.
Qed.
End move.
