(* ===== verification/Futex.v ===== *)
(** Futexes ([kernel/ipc/futex.c]): a hash table from the addresses of futex words to notifications.

    The state joins notifications and scheduler (Notific.v), the allocator, the futex tables with their buckets and
    entries, and the futex words of the calling process.  A bucket is named by the array it is in and its index; an entry
    knows the bucket that its [hash_node] is linked on.  Memory that was freed can no longer be accessed: entries,
    notifications and bucket arrays disappear with [kfree]. *)
From S2P Require Import Prelude Words Sched ThreadDq Notific VmSpace.

Definition BUCKET_SIZE : Z := 64.
Definition EFAULT : Z := 14.
Definition ENOSYS : Z := 38.
Definition FUTEX_WAIT : Z := 0.
Definition FUTEX_WAKE : Z := 1.
Definition FUTEX_REQUEUE : Z := 3.
Definition FUTEX_PRIVATE : Z := 128.
Definition FUTEX_CLOCK_REALTIME : Z := 256.
Definition FUTEX_CMD_MASK : Z := Z.lnot (Z.lor FUTEX_PRIVATE FUTEX_CLOCK_REALTIME).
(** [sizeof(struct futex_entry)], [sizeof(struct notification)], [sizeof(struct hlist_head)] *)
Definition sizeof_futex_entry : Z := 40.
Definition sizeof_notification : Z := 192.
Definition sizeof_hlist_head : Z := 8.

Definition bucket := (Z * nat)%type.
Record futex_entry := FutexEntry { notific : Z; uaddr : Z; waiter_count : Z; hash_node : bucket }.
Definition set_waiter_count x E := FutexEntry (notific E) (uaddr E) x (hash_node E).
(** [futex_lock] is in [nstate]. *)
Record futex := Futex { futex_entries : Z; futex_mem_type : mem_type }.

Record fstate (K : Type) := FState {
  ns : nstate; objs : K; futexes : gmap Z futex; hlists : gmap Z (list (list Z)); fentries : gmap Z futex_entry; umem : gmap Z Z
}.
Arguments FState {K}.
Arguments ns {K} f.
Arguments objs {K} f.
Arguments futexes {K} f.
Arguments hlists {K} f.
Arguments fentries {K} f.
Arguments umem {K} f.

Definition set_ns {K} x (s : fstate K) : fstate K := FState x (objs s) (futexes s) (hlists s) (fentries s) (umem s).
Definition set_objs {K} x (s : fstate K) : fstate K := FState (ns s) x (futexes s) (hlists s) (fentries s) (umem s).
Definition set_futexes {K} x (s : fstate K) : fstate K := FState (ns s) (objs s) x (hlists s) (fentries s) (umem s).
Definition set_hlists {K} x (s : fstate K) : fstate K := FState (ns s) (objs s) (futexes s) x (fentries s) (umem s).
Definition set_fentries {K} x (s : fstate K) : fstate K := FState (ns s) (objs s) (futexes s) (hlists s) x (umem s).

(** [u32] *)
Definition uaddr_to_key (uaddr : Z) : Z :=
  let key := Z.shiftr uaddr 2 in
  Z.shiftr (wrap_u64 (key * 0x9e3779b97f4a7c15)) 32.

Definition check_user_addr_range (start len : Z) : Z :=
  if bool_decide (start >= KBASE) then -1
  else if bool_decide (len > KBASE) then -1
  else if bool_decide (start >= KBASE - len) then -1
  else 0.

Section futex.
Context {K : Type} `{ObjSource K} (e : ipc_config).
Notation MF := (M (fstate K)).

Definition on_ns {A} (m : M nstate A) : MF A := λ s,
  match m (ns s) with Ret (a, x) => Ret (a, set_ns x s) | Halt w => Halt w end.
Definition on_objs {A} (m : M K A) : MF A := λ s,
  match m (objs s) with Ret (a, x) => Ret (a, set_objs x s) | Halt w => Halt w end.

Definition get_futex (f : Z) : MF futex := s ← get_state; from_opt (futexes s !! f).
Definition get_entry (en : Z) : MF futex_entry := s ← get_state; from_opt (fentries s !! en).
Definition upd_entry (en : Z) (g : futex_entry → futex_entry) : MF unit :=
  E ← get_entry en; modify (λ s, set_fentries (<[en := g E]> (fentries s)) s).

Definition lock_futex (f : Z) : MF unit :=
  s ← get_state; b ← from_opt (futex_lock (ns s) !! f);
  if (b : bool) then halt Spins else on_ns (modify (λ x, set_futex_lock (<[f := true]> (futex_lock x)) x)).

(** ** Lists *)

Definition read_hlist (b : bucket) : MF (list Z) :=
  s ← get_state; bs ← from_opt (hlists s !! b.1); from_opt (bs !! b.2).
Definition write_hlist (b : bucket) (l : list Z) : MF unit :=
  s ← get_state; bs ← from_opt (hlists s !! b.1);
  modify (set_hlists (<[b.1 := <[b.2 := l]> bs]> (hlists s))).
Definition hlist_add (en : Z) (b : bucket) : MF unit := l ← read_hlist b; write_hlist b (en :: l).
Definition hlist_del (en : Z) : MF unit :=
  E ← get_entry en; l ← read_hlist (hash_node E); write_hlist (hash_node E) (filter (λ x, x ≠ en) l).

(** ** Hash tables *)

(** [init_htable(&futex->futex_entries, BUCKET_SIZE)], which gives the array of buckets; [kzalloc] also clears a block at [NULL]. *)
Definition init_htable (mt : mem_type) : MF Z :=
  b ← on_objs (kmalloc mt (sizeof_hlist_head * BUCKET_SIZE));
  if bool_decide (b = 0) then halt BadAccess
  else
    modify (λ s, set_hlists (<[b := replicate (Z.to_nat BUCKET_SIZE) []]> (hlists s)) s);;
    mret b.
Definition bucket_index (uaddr : Z) : nat := Z.to_nat (uaddr_to_key uaddr mod BUCKET_SIZE).
Definition htable_get_bucket (F : futex) (uaddr : Z) : bucket := (futex_entries F, bucket_index uaddr).
Definition htable_free (F : futex) : MF Z :=
  if bool_decide (futex_entries F = 0) then mret (- EINVAL)
  else
    modify (λ s, set_hlists (delete (futex_entries F) (hlists s)) s);;
    on_objs (kfree (futex_entries F));; mret 0.

(** ** Entries *)

Definition futex_has_waiter (E : futex_entry) : bool := bool_decide (waiter_count E > 0).

Definition free_futex_entry (en : Z) : MF unit :=
  hlist_del en;;
  E ← get_entry en;
  on_ns (deinit_notific e (notific E));;
  on_ns (modify (λ x, set_notifs (delete (notific E) (notifs x)) x));; on_objs (kfree (notific E));;
  modify (λ s, set_fentries (delete en (fentries s)) s);; on_objs (kfree en).

(** 0 without memory *)
Definition new_futex_entry (u : Z) (b : bucket) (mt : mem_type) : MF Z :=
  en ← on_objs (kmalloc mt sizeof_futex_entry);
  if bool_decide (en = 0) then mret 0
  else
    q ← on_objs (kmalloc mt sizeof_notification);
    if bool_decide (q = 0) then on_objs (kfree en);; mret 0
    else
      on_ns (init_notific q);;
      modify (λ s, set_fentries (<[en := FutexEntry q u 0 b]> (fentries s)) s);;
      hlist_add en b;;
      mret en.

(** The loop of [find_entry] *)
Fixpoint find_in (u : Z) (l : list Z) : MF Z :=
  match l with
  | [] => mret 0
  | en :: l' =>
      E ← get_entry en;
      if futex_has_waiter E && bool_decide (uaddr E = u) then mret en else find_in u l'
  end.
Definition find_entry (f u : Z) : MF (Z * bucket) :=
  F ← get_futex f;
  let b := htable_get_bucket F u in
  l ← read_hlist b;
  en ← find_in u l;
  mret (en, b).

Definition __check_and_free (en : Z) : MF unit :=
  E ← get_entry en; when (negb (futex_has_waiter E)) (free_futex_entry en).
Definition __inc_waiter_count (en : Z) : MF unit := upd_entry en (λ E, set_waiter_count (waiter_count E + 1) E).
Definition __dec_waiter_count (en : Z) : MF unit :=
  upd_entry en (λ E, set_waiter_count (waiter_count E - 1) E);; __check_and_free en.

(** ** Futex tables *)

Definition futex_init (f : Z) (mt : mem_type) : MF unit :=
  on_ns (modify (λ x, set_futex_lock (<[f := false]> (futex_lock x)) x));;
  b ← init_htable MT_DEFAULT;
  modify (λ s, set_futexes (<[f := Futex b mt]> (futexes s)) s).

Fixpoint for_each {A} (l : list A) (body : A → MF unit) : MF unit :=
  match l with [] => mret tt | x :: l' => body x;; for_each l' body end.

(** [for_each_in_htable_safe]: bucket by bucket, the entries that were linked when the loop over the bucket began *)
Definition for_each_entry (F : futex) (body : Z → MF unit) : MF unit :=
  for_each (seq 0 (Z.to_nat BUCKET_SIZE)) (λ i, l ← read_hlist (futex_entries F, i); for_each l body).

Definition futex_deinit (f : Z) : MF unit :=
  F ← get_futex f;
  for_each_entry F free_futex_entry;;
  htable_free F;; mret tt.

(** The loop of [futex_copy] stops at the first entry that gets no memory. *)
Fixpoint copy_entries (D : futex) (l : list Z) : MF bool :=
  match l with
  | [] => mret true
  | en :: l' =>
      E ← get_entry en;
      n ← new_futex_entry (uaddr E) (htable_get_bucket D (uaddr E)) (futex_mem_type D);
      if bool_decide (n = 0) then mret false
      else
        E ← get_entry en;
        upd_entry n (set_waiter_count (waiter_count E));;
        copy_entries D l'
  end.
Fixpoint copy_buckets (S D : futex) (idx : list nat) : MF bool :=
  match idx with
  | [] => mret true
  | i :: idx' =>
      l ← read_hlist (futex_entries S, i);
      ok ← copy_entries D l;
      if (ok : bool) then copy_buckets S D idx' else mret false
  end.
Definition futex_copy (src dst : Z) (mt : mem_type) : MF Z :=
  if bool_decide (src = dst) then mret 0
  else
    futex_init dst mt;;
    S ← get_futex src;
    D ← get_futex dst;
    ok ← copy_buckets S D (seq 0 (Z.to_nat BUCKET_SIZE));
    mret (if (ok : bool) then 0 else - ENOMEM).

(** ** System calls *)

Definition current_futex : MF Z := p ← on_ns (current_thread e); mret (group_futex e (cap_group e p)).
Definition unlock (f : Z) : MF unit := on_ns (unlock_futex f).

(** [copy_from_user] of an address below [KBASE] returns 0, or stops the kernel where no region is. *)
Definition read_user_int (u : Z) : MF Z :=
  s ← get_state; match umem s !! u with Some v => mret v | None => halt BugHit end.

(** [None] where the thread blocks *)
Definition sys_futex_wait (u futex_op val timeout : Z) : MF (option Z) :=
  f ← current_futex;
  lock_futex f;;
  if negb (bool_decide (check_user_addr_range u 4 = 0)) then unlock f;; mret (Some (- EFAULT))
  else
    kval ← read_user_int u;
    if negb (bool_decide (kval = val)) then unlock f;; mret (Some (- EAGAIN))
    else
      '(en0, b) ← find_entry f u;
      F ← get_futex f;
      en ← (if bool_decide (en0 = 0) then new_futex_entry u b (futex_mem_type F) else mret en0);
      if bool_decide (en = 0) then unlock f;; mret (Some (- ENOMEM))
      else
        __inc_waiter_count en;;
        E ← get_entry en;
        ret ← on_ns (wait_notific_internal e (notific E) true None true false);
        match ret with
        | None => mret None
        | Some r => __dec_waiter_count en;; unlock f;; mret (Some r)
        end.

(** [for (i = 0; i < send_count; i++)], where [n] rounds are left *)
Fixpoint wake_loop (n : nat) (i en q : Z) : MF Z :=
  match n with
  | O => mret i
  | S n' =>
      r ← on_ns (signal_notific e q);
      if negb (bool_decide (r = 0)) then mret i
      else __dec_waiter_count en;; wake_loop n' (i + 1) en q
  end.

Definition sys_futex_wake (u futex_op val : Z) : MF Z :=
  f ← current_futex;
  lock_futex f;;
  '(en, _) ← find_entry f u;
  ret ← (if bool_decide (en = 0) then mret 0
         else
           E ← get_entry en;
           let send_count := if bool_decide (waiter_count E < val) then waiter_count E else val in
           wake_loop (Z.to_nat send_count) 0 en (notific E));
  unlock f;;
  mret ret.

Definition sys_futex_requeue (u u2 nr_wake nr_requeue : Z) : MF Z :=
  if negb (bool_decide (nr_wake = 0)) || negb (bool_decide (nr_requeue = 1)) then mret (- ENOSYS)
  else if bool_decide (u = u2) then mret (- EINVAL)
  else
    f ← current_futex;
    lock_futex f;;
    '(en1, _) ← find_entry f u;
    '(en2, b) ← find_entry f u2;
    ret ← (if bool_decide (en1 = 0) then mret (- EINVAL)
           else
             F ← get_futex f;
             en2 ← (if bool_decide (en2 = 0) then new_futex_entry u2 b (futex_mem_type F) else mret en2);
             if bool_decide (en2 = 0) then mret (- ENOMEM)
             else
               E1 ← get_entry en1;
               E2 ← get_entry en2;
               ret ← on_ns (requeue_notific (notific E1) (notific E2));
               (if bool_decide (ret = 0) then __dec_waiter_count en1;; __inc_waiter_count en2 else __check_and_free en2);;
               mret ret);
    unlock f;;
    mret ret.

(** [timeout] is a pointer, or the number of threads to move; [None] where the thread blocks. *)
Definition sys_futex (u futex_op val timeout u2 val3 : Z) : MF (option Z) :=
  if bool_decide (Z.land futex_op FUTEX_PRIVATE = 0) then mret (Some (- ENOSYS))
  else
    let cmd := Z.land futex_op FUTEX_CMD_MASK in
    if bool_decide (cmd = FUTEX_WAIT) then sys_futex_wait u futex_op val timeout
    else if bool_decide (cmd = FUTEX_WAKE) then r ← sys_futex_wake u futex_op val; mret (Some r)
    else if bool_decide (cmd = FUTEX_REQUEUE) then
      let low := wrap_u32 timeout in
      r ← sys_futex_requeue u u2 val (if bool_decide (low < 2 ^ 31) then low else low - 2 ^ 32); mret (Some r)
    else mret (Some (- ENOSYS)).
End futex.
