(* ===== verification/FutexProofs.v ===== *)
(** Futex tables: their invariant, and what looking up, making and freeing entries do to it. *)
From stdpp Require Import sorting.
From S2P Require Import Prelude Words Sched SchedProofs SchedBlock ThreadDq Notific Waiters NotificProofs NotificOps NotificTimer NotificMove.
From S2P Require Import VmSpace VmSpaceProofs Futex.

(** An entry, its notification, the number of threads it counts, and the threads that wait *)
Record fent := FEnt { fe_entry : Z; fe_notif : Z; fe_count : Z; fe_waiters : list Z }.
Definition set_count x g := FEnt (fe_entry g) (fe_notif g) x (fe_waiters g).
Definition set_waiters x g := FEnt (fe_entry g) (fe_notif g) (fe_count g) x.

Section proofs.
Context {K : Type} `{Hos : ObjSource K, Hoss : !ObjSourceSpec K} (e : ipc_config).
Notation c := (sched_config e).
Implicit Types (s : fstate K) (G : gmap Z fent) (A : gmap Z sem) (U : gset Z) (g : fent) (u f q en : Z) (n : nat).

(** ** Steps *)

Lemma wp_on_ns {B} (m : M nstate B) (Q : B → fstate K → Prop) s : wp m (λ a x, Q a (set_ns x s)) (ns s) → wp (on_ns m) Q s.
Proof. unfold wp, on_ns. by destruct (m (ns s)) as [[??]|]. Qed.
Lemma wp_on_futex_objs {B} (m : M K B) (Q : B → fstate K → Prop) s : wp m (λ a x, Q a (set_objs x s)) (objs s) → wp (on_objs m) Q s.
Proof. unfold wp, on_objs. by destruct (m (objs s)) as [[??]|]. Qed.
Lemma wp_get_entry en E (Q : futex_entry → fstate K → Prop) s : fentries s !! en = Some E → Q E s → wp (get_entry en) Q s.
Proof. intros H HQ. unfold get_entry. wp_seq. by eapply wp_from_opt. Qed.
Lemma wp_upd_entry en h E (Q : unit → fstate K → Prop) s : fentries s !! en = Some E →
  Q tt (set_fentries (<[en := h E]> (fentries s)) s) → wp (upd_entry en h) Q s.
Proof. intros H HQ. unfold upd_entry. wp_seq. eapply wp_get_entry; [done|]. by wp_seq. Qed.
Lemma wp_get_futex f F (Q : futex → fstate K → Prop) s : futexes s !! f = Some F → Q F s → wp (get_futex f) Q s.
Proof. intros H HQ. unfold get_futex. wp_seq. by eapply wp_from_opt. Qed.
Lemma wp_read_hlist (b : bucket) bs l (Q : list Z → fstate K → Prop) s : hlists s !! b.1 = Some bs → bs !! b.2 = Some l → Q l s → wp (read_hlist b) Q s.
Proof. intros H1 H2 HQ. unfold read_hlist. wp_seq. eapply wp_from_opt; [done|]. by eapply wp_from_opt. Qed.
Lemma wp_write_hlist (b : bucket) bs l (Q : unit → fstate K → Prop) s : hlists s !! b.1 = Some bs →
  Q tt (set_hlists (<[b.1 := <[b.2 := l]> bs]> (hlists s)) s) → wp (write_hlist b l) Q s.
Proof. intros H1 HQ. unfold write_hlist. wp_seq. eapply wp_from_opt; [done|]. by wp_seq. Qed.

(** ** Invariant *)

(** The table at [f] has the entries [G]; [bk] are its buckets.  [U] is the memory in use, [lk] says that the lock is held. *)
Record finv_at (lk : bool) s (f : Z) (F : futex) (n : nat) G A U : Prop := {
  fi_notif : ninv_at e None (ns s) n A;
  fi_lock : futex_lock (ns s) !! f = Some lk;
  fi_table : futexes s !! f = Some F;
  fi_buckets : ∃ bk, hlists s !! futex_entries F = Some bk ∧ length bk = Z.to_nat BUCKET_SIZE ∧
    ∀ i l, bk !! i = Some l → NoDup l ∧ ∀ en, en ∈ l ↔ ∃ u g, G !! u = Some g ∧ fe_entry g = en ∧ bucket_index u = i;
  fi_entry : ∀ u g, G !! u = Some g →
    fentries s !! fe_entry g = Some (FutexEntry (fe_notif g) u (fe_count g) (futex_entries F, bucket_index u)) ∧
    A !! fe_notif g = Some (Sem 0 (fe_waiters g));
  fi_own : ∀ u g, G !! u = Some g → fe_entry g ∈ U ∧ fe_notif g ∈ U;
  fi_apart : ∀ u u' g g', G !! u = Some g → G !! u' = Some g' → fe_entry g ≠ fe_notif g' ∧
    (u ≠ u' → fe_entry g ≠ fe_entry g' ∧ fe_notif g ≠ fe_notif g');
  fi_stray : ∀ u g, G !! u = Some g → A !! fe_entry g = None;
  fi_alloc : ∀ q, is_Some (A !! q) → q ∈ U;
  fi_objs : os_inv (objs s) U
}.

(** Between system calls: every entry has waiting threads, and counts them. *)
Definition settled G : Prop := ∀ u g, G !! u = Some g → fe_waiters g ≠ [] ∧ fe_count g = Z.of_nat (length (fe_waiters g)).

Lemma bucket_index_lt u : (bucket_index u < Z.to_nat BUCKET_SIZE)%nat.
Proof.
  unfold bucket_index, BUCKET_SIZE. pose proof (Z.mod_pos_bound (uaddr_to_key u) 64 ltac:(lia)). lia.
Qed.

Lemma own_pos (k : K) U p : os_inv k U → p ∈ U → p ≠ 0.
Proof. intros H Hp. destruct (os_addr _ _ _ H Hp). lia. Qed.

(** The bucket of an address *)
Lemma fi_bucket lk s f F n G A U u : finv_at lk s f F n G A U →
  ∃ bk l, hlists s !! futex_entries F = Some bk ∧ length bk = Z.to_nat BUCKET_SIZE ∧ bk !! bucket_index u = Some l ∧ NoDup l ∧
    (∀ en, en ∈ l ↔ ∃ u' g, G !! u' = Some g ∧ fe_entry g = en ∧ bucket_index u' = bucket_index u) ∧
    ∀ i l, bk !! i = Some l → NoDup l ∧ ∀ en, en ∈ l ↔ ∃ u g, G !! u = Some g ∧ fe_entry g = en ∧ bucket_index u = i.
Proof.
  intros HI. destruct (fi_buckets _ _ _ _ _ _ _ _ HI) as (bk&Hbk&Hlen&Hb). destruct (lookup_lt_is_Some_2 bk (bucket_index u)) as [l Hl].
  { rewrite Hlen. apply bucket_index_lt. }
  exists bk, l. destruct (Hb _ _ Hl). by split_and!.
Qed.

(** ** Looking up *)

Definition found G u : Z := match G !! u with Some g => if bool_decide (fe_count g > 0) then fe_entry g else 0 | None => 0 end.

Lemma wp_find_in lk s f F n G A U u l : finv_at lk s f F n G A U →
  (∀ en, en ∈ l → ∃ u' g, G !! u' = Some g ∧ fe_entry g = en) →
  wp (find_in u l) (λ r s', s' = s ∧ r = match G !! u with Some g => if bool_decide (fe_entry g ∈ l ∧ fe_count g > 0) then fe_entry g else 0 | None => 0 end) s.
Proof.
  intros HI. induction l as [|en l IH]; intros Hl; cbn [find_in].
  { wp_seq. split; [done|]. destruct (G !! u); [|done]. rewrite bool_decide_eq_false_2; [done|]. by intros [?%elem_of_nil _]. }
  destruct (Hl en ltac:(by left)) as (u'&g&Hg&<-). destruct (fi_entry _ _ _ _ _ _ _ _ HI u' g Hg) as [HE _].
  wp_seq. eapply wp_get_entry; [done|]. unfold futex_has_waiter. cbn [waiter_count uaddr].
  assert (∀ x, x ∈ l → ∃ u' g, G !! u' = Some g ∧ fe_entry g = x) as Hl' by (intros x Hx; apply Hl; by right).
  destruct (decide (u' = u)) as [->|Hu].
  - rewrite (bool_decide_eq_true_2 (u = u)), andb_true_r, Hg by done. case_bool_decide as Hc.
    + wp_seq. split; [done|]. rewrite bool_decide_eq_true_2; [done|]. split; [by left|done].
    + eapply wp_mono; [by apply IH|]. intros r s' [-> ->]. split; [done|]. rewrite Hg, !bool_decide_eq_false_2 by (by intros [_ ?]). done.
  - rewrite (bool_decide_eq_false_2 (u' = u)), andb_false_r by done. eapply wp_mono; [by apply IH|]. intros r s' [-> ->]. split; [done|].
    destruct (G !! u) as [g0|] eqn:Hg0; [|done]. destruct (fi_apart _ _ _ _ _ _ _ _ HI u u' g0 g Hg0 Hg) as [_ [Hne _]]; [done|].
    assert (bool_decide (fe_entry g0 ∈ fe_entry g :: l ∧ fe_count g0 > 0) = bool_decide (fe_entry g0 ∈ l ∧ fe_count g0 > 0)) as ->; [|done].
    apply bool_decide_ext. rewrite elem_of_cons. clear -Hne. tauto.
Qed.

Lemma wp_find_entry lk s f F n G A U u : finv_at lk s f F n G A U →
  wp (find_entry f u) (λ r s', s' = s ∧ r = (found G u, (futex_entries F, bucket_index u))) s.
Proof.
  intros HI. destruct (fi_bucket _ _ _ _ _ _ _ _ u HI) as (bk&l&Hbk&_&Hl&_&Hin&_). unfold find_entry, htable_get_bucket. wp_seq.
  eapply wp_get_futex; [apply HI|]. wp_seq. eapply wp_read_hlist; [done|done|]. wp_seq.
  eapply wp_mono; [eapply wp_find_in; [done|]|].
  { intros en (u'&g&?&?&_)%Hin. by exists u', g. }
  intros r s' [-> ->]. wp_seq. split; [done|]. f_equal. unfold found. destruct (G !! u) as [g|] eqn:E; [|done].
  assert (fe_entry g ∈ l) by (apply Hin; by exists u, g). assert (bool_decide (fe_entry g ∈ l ∧ fe_count g > 0) = bool_decide (fe_count g > 0)) as ->; [|done].
  apply bool_decide_ext. tauto.
Qed.

Lemma found_entry lk s f F n G A U u g : finv_at lk s f F n G A U → G !! u = Some g → 0 < fe_count g → found G u = fe_entry g ∧ fe_entry g ≠ 0.
Proof.
  intros HI Hg Hc. unfold found. rewrite Hg, bool_decide_eq_true_2 by lia. split; [done|].
  eapply own_pos; [apply HI|]. by apply (fi_own _ _ _ _ _ _ _ _ HI u g).
Qed.

(** ** Changes *)

(** The entries of a table, without their counters and waiting threads *)
Definition shape G : gmap Z (Z * Z) := (λ g, (fe_entry g, fe_notif g)) <$> G.

Lemma shape_lookup G G' u g' : shape G' = shape G → G' !! u = Some g' → ∃ g, G !! u = Some g ∧ fe_entry g' = fe_entry g ∧ fe_notif g' = fe_notif g.
Proof.
  intros HS Hg. assert (shape G !! u = Some (fe_entry g', fe_notif g')) as H by (by rewrite <-HS; unfold shape; rewrite lookup_fmap, Hg).
  unfold shape in H. rewrite lookup_fmap in H. destruct (G !! u) as [g|]; [|done]. simplify_eq/=. by exists g.
Qed.

Lemma shape_insert G u g g' : G !! u = Some g → fe_entry g' = fe_entry g → fe_notif g' = fe_notif g → shape (<[u := g']> G) = shape G.
Proof. intros Hg E1 E2. unfold shape. rewrite fmap_insert, E1, E2. apply insert_id. by rewrite lookup_fmap, Hg. Qed.

(** Counters and waiting threads change. *)
Lemma finv_update lk lk' s f F n G A U G' s' n' A' :
  finv_at lk s f F n G A U → shape G' = shape G → ninv_at e None (ns s') n' A' → futex_lock (ns s') !! f = Some lk' →
  futexes s' = futexes s → hlists s' = hlists s → objs s' = objs s →
  (∀ u g, G' !! u = Some g → fentries s' !! fe_entry g = Some (FutexEntry (fe_notif g) u (fe_count g) (futex_entries F, bucket_index u)) ∧
     A' !! fe_notif g = Some (Sem 0 (fe_waiters g))) →
  (∀ q, A' !! q = None ↔ A !! q = None) → finv_at lk' s' f F n' G' A' U.
Proof.
  intros HI HS HN Hlk Ef Eh Eo Hent HA.
  split; [done|done|rewrite Ef; apply HI| |done| | | | |rewrite Eo; apply HI].
  - destruct (fi_buckets _ _ _ _ _ _ _ _ HI) as (bk&Hbk&Hlen&Hb). exists bk. rewrite Eh. split_and!; [done|done|]. intros i l Hl.
    destruct (Hb i l Hl) as [Hnd Hin]. split; [done|]. intros en. rewrite Hin. split; intros (u0&g0&H0&<-&Hi).
    + destruct (shape_lookup G' G u0 g0 (eq_sym HS) H0) as (g1&?&->&_). by exists u0, g1.
    + destruct (shape_lookup G G' u0 g0 HS H0) as (g1&?&->&_). by exists u0, g1.
  - intros u0 g0 H0. destruct (shape_lookup _ _ u0 g0 HS H0) as (g1&H1&->&->). by eapply (fi_own _ _ _ _ _ _ _ _ HI).
  - intros u0 u1 g0 g1 H0 H1. destruct (shape_lookup _ _ u0 g0 HS H0) as (h0&?&->&->), (shape_lookup _ _ u1 g1 HS H1) as (h1&?&->&->).
    by apply (fi_apart _ _ _ _ _ _ _ _ HI).
  - intros u0 g0 H0. destruct (shape_lookup _ _ u0 g0 HS H0) as (g1&H1&->&_). by apply HA, (fi_stray _ _ _ _ _ _ _ _ HI u0).
  - intros q Hq. apply (fi_alloc _ _ _ _ _ _ _ _ HI). apply not_eq_None_Some. rewrite <-HA. by apply not_eq_None_Some.
Qed.

Lemma insert_None_iff {B} (m : gmap Z B) i x y q : m !! i = Some x → <[i := y]> m !! q = None ↔ m !! q = None.
Proof. intros Hi. rewrite lookup_insert_None. split; [by intros [? _]|]. intros Hq. split; [done|]. intros ->. by simplify_eq. Qed.

(** One entry changes, in its counter or its waiting threads. *)
Lemma finv_change lk lk' s f F n G A U u g g' s' n' A' :
  finv_at lk s f F n G A U → G !! u = Some g → fe_entry g' = fe_entry g → fe_notif g' = fe_notif g →
  ninv_at e None (ns s') n' A' → A' = <[fe_notif g := Sem 0 (fe_waiters g')]> A → futex_lock (ns s') !! f = Some lk' →
  futexes s' = futexes s → hlists s' = hlists s → objs s' = objs s →
  fentries s' = <[fe_entry g := FutexEntry (fe_notif g) u (fe_count g') (futex_entries F, bucket_index u)]> (fentries s) →
  finv_at lk' s' f F n' (<[u := g']> G) A' U.
Proof.
  intros HI Hg Een Eq HN -> Hlk Ef Eh Eo Ee. destruct (fi_entry _ _ _ _ _ _ _ _ HI u g Hg) as [_ HA].
  eapply finv_update; [done|by eapply shape_insert|done..| |by intros q; eapply insert_None_iff].
  intros u0 g0 [[<- <-]|[Hne H0]]%lookup_insert_Some; rewrite Ee.
  - by rewrite Een, Eq, !lookup_insert_eq.
  - destruct (fi_entry _ _ _ _ _ _ _ _ HI u0 g0 H0) as [H1 H2]. destruct (fi_apart _ _ _ _ _ _ _ _ HI u u0 g g0 Hg H0) as [_ [? ?]]; [done|].
    by rewrite !lookup_insert_ne.
Qed.

(** The counter of an entry *)
Lemma wp_set_count lk s f F n G A U u g h k : finv_at lk s f F n G A U → G !! u = Some g →
  (∀ E, waiter_count E = fe_count g → h E = set_waiter_count k E) →
  wp (upd_entry (fe_entry g) h) (λ _ s', finv_at lk s' f F n (<[u := set_count k g]> G) A U ∧ ns s' = ns s ∧ umem s' = umem s ∧ objs s' = objs s) s.
Proof.
  intros HI Hg Hh. destruct (fi_entry _ _ _ _ _ _ _ _ HI u g Hg) as [HE HA]. eapply wp_upd_entry; [done|]. split; [|done].
  eapply (finv_change lk lk s f F n G A U u g (set_count k g)); try done; cbn; [apply HI|by rewrite insert_id|apply HI|by rewrite Hh].
Qed.

(** ** Making an entry *)

Lemma finv_new lk s f F n G A U u en q s' n' bk l k :
  finv_at lk s f F n G A U → G !! u = None → en ∉ U → q ∉ U → en ≠ q → hlists s !! futex_entries F = Some bk → bk !! bucket_index u = Some l →
  ninv_at e None (ns s') n' (<[q := Sem 0 []]> A) → futex_lock (ns s') = futex_lock (ns s) → futexes s' = futexes s →
  hlists s' = <[futex_entries F := <[bucket_index u := en :: l]> bk]> (hlists s) → objs s' = k → os_inv k ({[en; q]} ∪ U) →
  fentries s' = <[en := FutexEntry q u 0 (futex_entries F, bucket_index u)]> (fentries s) →
  finv_at lk s' f F n' (<[u := FEnt en q 0 []]> G) (<[q := Sem 0 []]> A) ({[en; q]} ∪ U).
Proof.
  intros HI Hu Hen Hq Hne Hbk Hl HN Elk Ef Eh Eo Hos' Ee.
  assert (∀ u0 g0, G !! u0 = Some g0 → fe_entry g0 ≠ en ∧ fe_entry g0 ≠ q ∧ fe_notif g0 ≠ en ∧ fe_notif g0 ≠ q ∧ u0 ≠ u) as Hfresh.
  { intros u0 g0 H0. destruct (fi_own _ _ _ _ _ _ _ _ HI u0 g0 H0). split_and!; intros E; [by subst..|]. by subst; simplify_eq. }
  split; [done|by rewrite Elk; apply HI|rewrite Ef; apply HI| | | | | | |by rewrite Eo].
  - destruct (fi_buckets _ _ _ _ _ _ _ _ HI) as (bk'&?&Hlen&Hb). simplify_eq. exists (<[bucket_index u := en :: l]> bk).
    rewrite Eh, lookup_insert_eq, length_insert. split_and!; [done|done|]. intros i l0 Hl0.
    destruct (decide (i = bucket_index u)) as [->|Hi].
    + rewrite list_lookup_insert_eq in Hl0 by (by eapply lookup_lt_Some). simplify_eq. destruct (Hb _ _ Hl) as [Hnd Hin]. split.
      * apply NoDup_cons. split; [|done]. intros (u0&g0&H0&E&_)%Hin. by destruct (Hfresh u0 g0 H0).
      * intros x. rewrite elem_of_cons, Hin. split.
        -- intros [->|(u0&g0&H0&<-&E)]; [exists u; eexists; rewrite lookup_insert_eq; by split|]. exists u0, g0. rewrite lookup_insert_ne; [done|]. by destruct (Hfresh u0 g0 H0) as (_&_&_&_&?).
        -- intros (u0&g0&[[<- <-]|[Hu0 H0]]%lookup_insert_Some&<-&E); [by left|]. right. by exists u0, g0.
    + rewrite list_lookup_insert_ne in Hl0 by done. destruct (Hb _ _ Hl0) as [Hnd Hin]. split; [done|]. intros x. rewrite Hin. split.
      * intros (u0&g0&H0&<-&E). exists u0, g0. rewrite lookup_insert_ne; [done|]. by destruct (Hfresh u0 g0 H0) as (_&_&_&_&?).
      * intros (u0&g0&[[<- <-]|[Hu0 H0]]%lookup_insert_Some&<-&E); [done|]. by exists u0, g0.
  - intros u0 g0 [[<- <-]|[Hu0 H0]]%lookup_insert_Some; rewrite Ee; [by rewrite !lookup_insert_eq|].
    destruct (Hfresh u0 g0 H0) as (?&?&?&?&?). rewrite !lookup_insert_ne by done. by apply (fi_entry _ _ _ _ _ _ _ _ HI).
  - intros u0 g0 [[<- <-]|[Hu0 H0]]%lookup_insert_Some; cbn [fe_entry fe_notif]; [clear; set_solver|].
    destruct (fi_own _ _ _ _ _ _ _ _ HI u0 g0 H0). split; by apply elem_of_union_r.
  - intros u0 u1 g0 g1 [[<- <-]|[Hu0 H0]]%lookup_insert_Some [[<- <-]|[Hu1 H1]]%lookup_insert_Some; cbn [fe_entry fe_notif].
    + done.
    + by destruct (Hfresh u1 g1 H1) as (?&?&?&?&?).
    + by destruct (Hfresh u0 g0 H0) as (?&?&?&?&?).
    + by apply (fi_apart _ _ _ _ _ _ _ _ HI).
  - intros u0 g0 [[<- <-]|[Hu0 H0]]%lookup_insert_Some; cbn [fe_entry].
    + rewrite lookup_insert_ne by done. destruct (A !! en) eqn:E; [|done]. destruct Hen. apply (fi_alloc _ _ _ _ _ _ _ _ HI). by eexists.
    + destruct (Hfresh u0 g0 H0) as (_&?&_). rewrite lookup_insert_ne by done. by apply (fi_stray _ _ _ _ _ _ _ _ HI u0).
  - intros q' [a [[<- _]|[_ Ha]]%lookup_insert_Some]; [clear; set_solver|]. apply elem_of_union_r, (fi_alloc _ _ _ _ _ _ _ _ HI). by eexists.
Qed.

(** What the allocator answers to [new_futex_entry] *)
Definition answers (mt : mem_type) (k : K) (en q : Z) (k' : K) : Prop :=
  ∃ k1, kmalloc mt sizeof_futex_entry k = Ret (en, k1) ∧ (en ≠ 0 → kmalloc mt sizeof_notification k1 = Ret (q, k')) ∧ (en = 0 → k' = k1).

Lemma wp_new_entry lk s f F n G A U u mt en q k' :
  finv_at lk s f F (S n) G A U → G !! u = None → answers mt (objs s) en q k' →
  wp (new_futex_entry u (futex_entries F, bucket_index u) mt) (λ r s', umem s' = umem s ∧
    ((r = 0 ∧ (en = 0 ∨ q = 0) ∧ ns s' = ns s ∧ finv_at lk s' f F (S n) G A U) ∨
     (r = en ∧ en ≠ 0 ∧ finv_at lk s' f F n (<[u := FEnt en q 0 []]> G) (<[q := Sem 0 []]> A) ({[en; q]} ∪ U) ∧ objs s' = k' ∧
      ∃ pl, ns s' = set_notifs (<[q := notific_of (Sem 0 [])]> (notifs (ns s))) (set_pool pl (ns s))))) s.
Proof.
  intros HI Hu (k1&E1&E2&E3). pose proof (os_get (objs s) U mt sizeof_futex_entry (fi_objs _ _ _ _ _ _ _ _ HI) ltac:(by unfold sizeof_futex_entry)) as Hg1.
  rewrite E1 in Hg1. unfold new_futex_entry. wp_seq. apply wp_on_futex_objs. eapply wp_intro; [done|]. case_bool_decide as Hz.
  { wp_seq. split; [done|]. left. split_and!; [done|by left|done|]. destruct HI. split; try done. cbn.
    destruct Hg1 as [[_ ?]|[_ Hin]]; [done|]. exfalso. eapply (own_pos k1); [exact Hin| |exact Hz]. clear; set_solver. }
  specialize (E2 Hz). destruct Hg1 as [[? _]|[Hen Hk1]]; [done|].
  pose proof (os_get k1 _ mt sizeof_notification Hk1 ltac:(by unfold sizeof_notification)) as Hg2. rewrite E2 in Hg2.
  wp_seq. apply wp_on_futex_objs. cbn. eapply wp_intro; [done|]. case_bool_decide as Hzq.
  { assert (os_inv k' ({[en]} ∪ U)) as Hk'.
    { destruct Hg2 as [[_ ?]|[_ Hin]]; [done|]. exfalso. eapply (own_pos k'); [exact Hin| |exact Hzq]. clear; set_solver. }
    wp_seq. apply wp_on_futex_objs. cbn. eapply wp_mono; [apply (os_put k' ({[en]} ∪ U) en); [done|clear; set_solver]|]. intros [] k2 Hk2. wp_seq. split; [done|]. left.
    split_and!; [done|by right|done|]. destruct HI. split; try done. cbn. replace (({[en]} ∪ U) ∖ {[en]}) with U in Hk2; [done|]. clear -Hen. set_solver. }
  destruct Hg2 as [[? _]|[Hq Hk']]; [done|]. wp_seq. apply wp_on_ns. cbn.
  assert (A !! q = None) as HAq.
  { destruct (A !! q) eqn:E; [|done]. exfalso. apply Hq, elem_of_union_r, (fi_alloc _ _ _ _ _ _ _ _ HI). by eexists. }
  eapply wp_mono; [apply (wp_init_notific e (ns s) n A q); [apply HI|done]|]. intros [] ns' (HN&pl&Ens). wp_seq. cbn.
  destruct (fi_bucket _ _ _ _ _ _ _ _ u HI) as (bk&l&Hbk&_&Hl&_). unfold hlist_add. wp_seq. eapply wp_read_hlist; [done|done|].
  wp_seq. eapply wp_write_hlist; [done|]. wp_seq. cbn. split; [done|]. right. split_and!; [done|done| |done|by exists pl].
  eapply (finv_new lk s f F (S n) G A U u en q _ n bk l k'); try done; cbn.
  - clear -Hq. set_solver.
  - clear -Hq. set_solver.
  - by rewrite Ens.
  - replace ({[en; q]} ∪ U) with ({[q]} ∪ ({[en]} ∪ U)) by (clear; set_solver). done.
Qed.

(** ** Freeing an entry *)

Lemma ninv_drop (x : nstate) n A q : ninv_at e None x n A → A !! q = None → ninv_at e None (set_notifs (delete q (notifs x)) x) n A.
Proof.
  intros HI Hq. eapply (ninv_idle e x n A A); try done; [apply HI|]. intros q' a Hq'. cbn. rewrite lookup_delete_ne by (intros ->; by simplify_eq).
  by apply (n_notif _ _ _ _ _ HI).
Qed.

Lemma finv_remove lk s f F n G A U u g s' n' bk l :
  finv_at lk s f F n G A U → G !! u = Some g → hlists s !! futex_entries F = Some bk → bk !! bucket_index u = Some l →
  ninv_at e None (ns s') n' (delete (fe_notif g) A) → futex_lock (ns s') = futex_lock (ns s) → futexes s' = futexes s →
  hlists s' = <[futex_entries F := <[bucket_index u := filter (λ x, x ≠ fe_entry g) l]> bk]> (hlists s) →
  os_inv (objs s') (U ∖ {[fe_notif g]} ∖ {[fe_entry g]}) → fentries s' = delete (fe_entry g) (fentries s) →
  finv_at lk s' f F n' (delete u G) (delete (fe_notif g) A) (U ∖ {[fe_notif g]} ∖ {[fe_entry g]}).
Proof.
  intros HI Hg Hbk Hl HN Elk Ef Eh Eo Ee.
  assert (∀ u0 g0, delete u G !! u0 = Some g0 → G !! u0 = Some g0 ∧ u0 ≠ u ∧ fe_entry g0 ≠ fe_entry g ∧ fe_entry g0 ≠ fe_notif g ∧
    fe_notif g0 ≠ fe_notif g ∧ fe_notif g0 ≠ fe_entry g) as Hkeep.
  { intros u0 g0 [Hne H0]%lookup_delete_Some. destruct (fi_apart _ _ _ _ _ _ _ _ HI u0 u g0 g H0 Hg) as [? [? ?]]; [done|].
    destruct (fi_apart _ _ _ _ _ _ _ _ HI u u0 g g0 Hg H0) as [? _]. by split_and!. }
  split; [done|by rewrite Elk; apply HI|rewrite Ef; apply HI| | | | | | |done].
  - destruct (fi_buckets _ _ _ _ _ _ _ _ HI) as (bk'&?&Hlen&Hb). simplify_eq. eexists.
    rewrite Eh, lookup_insert_eq. split; [done|]. rewrite length_insert. split; [done|]. intros i l0 Hl0.
    destruct (decide (i = bucket_index u)) as [->|Hi].
    + rewrite list_lookup_insert_eq in Hl0 by (by eapply lookup_lt_Some). simplify_eq. destruct (Hb _ _ Hl) as [Hnd Hin]. split; [by apply NoDup_filter|].
      intros x. rewrite list_elem_of_filter, Hin. split.
      * intros [Hx (u0&g0&H0&<-&E)]. exists u0, g0. rewrite lookup_delete_ne; [done|]. intros ->. by simplify_eq.
      * intros (u0&g0&H0&<-&E). destruct (Hkeep u0 g0 H0) as (?&?&?&_). split; [done|]. by exists u0, g0.
    + rewrite list_lookup_insert_ne in Hl0 by done. destruct (Hb _ _ Hl0) as [Hnd Hin]. split; [done|]. intros x. rewrite Hin. split.
      * intros (u0&g0&H0&<-&E). exists u0, g0. rewrite lookup_delete_ne; [done|]. by intros ->.
      * intros (u0&g0&H0&<-&E). destruct (Hkeep u0 g0 H0) as (?&_). by exists u0, g0.
  - intros u0 g0 H0. destruct (Hkeep u0 g0 H0) as (H1&_&?&_&?&_). rewrite Ee, !lookup_delete_ne by done. by apply (fi_entry _ _ _ _ _ _ _ _ HI).
  - intros u0 g0 H0. destruct (Hkeep u0 g0 H0) as (H1&_&?&?&?&?). destruct (fi_own _ _ _ _ _ _ _ _ HI u0 g0 H1).
    split; (apply elem_of_difference; split; [apply elem_of_difference; split; [done|]|]; by rewrite elem_of_singleton).
  - intros u0 u1 g0 g1 H0 H1. destruct (Hkeep u0 g0 H0) as (?&_), (Hkeep u1 g1 H1) as (?&_). by apply (fi_apart _ _ _ _ _ _ _ _ HI).
  - intros u0 g0 H0. destruct (Hkeep u0 g0 H0) as (H1&_). apply lookup_delete_None. right. by apply (fi_stray _ _ _ _ _ _ _ _ HI u0).
  - intros q [a [Hne Ha]%lookup_delete_Some]. apply elem_of_difference. split; [apply elem_of_difference; split|].
    + apply (fi_alloc _ _ _ _ _ _ _ _ HI). by eexists.
    + rewrite elem_of_singleton. by intros ->.
    + rewrite elem_of_singleton. intros ->. by rewrite (fi_stray _ _ _ _ _ _ _ _ HI u g Hg) in Ha.
Qed.

(** The entry [g] is gone and its memory was freed: first the notification, then the entry. *)
Definition given_back g s s' : Prop := ∃ k, kfree (fe_notif g) (objs s) = Ret (tt, k) ∧ kfree (fe_entry g) k = Ret (tt, objs s') ∧
  notifs (ns s') !! fe_notif g = None ∧ fentries s' !! fe_entry g = None.

Lemma wp_free_entry lk s f F n G A U u g : finv_at lk s f F n G A U → G !! u = Some g → fe_waiters g = [] →
  wp (free_futex_entry e (fe_entry g)) (λ _ s', ∃ n' pl, (n < n')%nat ∧
    finv_at lk s' f F n' (delete u G) (delete (fe_notif g) A) (U ∖ {[fe_notif g]} ∖ {[fe_entry g]}) ∧
    ns s' = set_notifs (delete (fe_notif g) (notifs (ns s))) (set_pool pl (ns s)) ∧ umem s' = umem s ∧ given_back g s s') s.
Proof.
  intros HI Hg Hws. destruct (fi_entry _ _ _ _ _ _ _ _ HI u g Hg) as [HE HA]. rewrite Hws in HA.
  destruct (fi_own _ _ _ _ _ _ _ _ HI u g Hg) as [Hen Hq]. pose proof (fi_objs _ _ _ _ _ _ _ _ HI) as Hos0.
  destruct (fi_bucket _ _ _ _ _ _ _ _ u HI) as (bk&l&Hbk&_&Hl&_). unfold free_futex_entry, hlist_del. wp_seq.
  eapply wp_get_entry; [done|]. cbn [hash_node]. wp_seq. eapply wp_read_hlist; [done|done|]. wp_seq. eapply wp_write_hlist; [done|]. wp_seq.
  eapply wp_get_entry; [done|]. cbn [notific]. wp_seq. apply wp_on_ns. cbn [set_hlists ns].
  eapply wp_mono; [eapply (wp_deinit_notific e (ns s) n A (fe_notif g) 0); [apply HI|done|by eapply own_pos]|].
  intros [] x (n'&pl&N&Hn'&HN&_&->). wp_seq. apply wp_on_ns. wp_seq. cbn. apply wp_on_futex_objs. cbn.
  destruct (wp_inv _ _ _ (os_put (objs s) U (fe_notif g) Hos0 Hq)) as ([]&k1&Ek1&Hk1). eapply wp_intro; [exact Ek1|]. wp_seq. apply wp_on_futex_objs. cbn.
  assert (fe_entry g ∈ U ∖ {[fe_notif g]}) as Hen1.
  { apply elem_of_difference. split; [done|]. rewrite elem_of_singleton. by apply (fi_apart _ _ _ _ _ _ _ _ HI u u g g). }
  destruct (wp_inv _ _ _ (os_put k1 _ (fe_entry g) Hk1 Hen1)) as ([]&k2&Ek2&Hk2). eapply wp_intro; [exact Ek2|]. cbn. rewrite delete_insert_eq.
  exists n', pl. split_and!; [done| |done|done|exists k1; cbn; by rewrite !lookup_delete_eq].
  eapply (finv_remove lk s f F n G A U u g); try done; cbn.
  apply (ninv_drop _ _ _ (fe_notif g)) in HN; [|by apply lookup_delete_eq]. cbn in HN. by rewrite delete_insert_eq in HN.
Qed.
End proofs.
