(* ===== verification/FutexOps.v ===== *)
(** Waiting on a futex, waking and moving its threads: the table maps the addresses of futex words to queues of threads. *)
From stdpp Require Import sorting.
From S2P Require Import Prelude Words Sched SchedProofs SchedBlock ThreadDq Notific Waiters NotificProofs NotificOps NotificTimer NotificMove.
From S2P Require Import VmSpace VmSpaceProofs Futex FutexProofs.

(** Notifications and queues change, threads do not. *)
Definition quiet (x x' : nstate) : Prop := ∃ nf pl, x' = set_notifs nf (set_pool pl x).
#[export] Instance quiet_preorder : PreOrder quiet.
Proof.
  split; [intros x; exists (notifs x), (pool x); by destruct x|]. intros x y z (nf&pl&->) (nf'&pl'&->). by exists nf', pl'.
Qed.

(** The threads of [ps] were woken, nobody else was. *)
Record woke (x : nstate) (ps : list Z) (x' : nstate) : Prop := {
  wo_each : ∀ p, p ∈ ps → ∃ t t' z', threads (sch x) !! p = Some t ∧ state t = TS_WAITING ∧ threads (sch x') !! p = Some t' ∧ revived t t' ∧
    sleeps x' !! p = Some z' ∧ cb z' = CB_NULL;
  wo_others : ∀ y, y ∉ ps → threads (sch x') !! y = threads (sch x) !! y ∧ sleeps x' !! y = sleeps x !! y;
  wo_rest : current_threads (sch x') = current_threads (sch x) ∧ rets x' = rets x
}.

Lemma woke_nobody x x' : quiet x x' → woke x [] x'.
Proof. intros (nf&pl&->). split; [by intros p ?%elem_of_nil|done..]. Qed.

Section ops.
Context {K : Type} `{Hos : ObjSource K, Hoss : !ObjSourceSpec K} (e : ipc_config).
Notation c := (sched_config e).
Implicit Types (s : fstate K) (G : gmap Z fent) (A : gmap Z sem) (U : gset Z) (g : fent) (u f q en : Z) (n : nat) (F : futex).

(** Between system calls, the threads that wait at each address *)
Definition futex_table s f F n (W : gmap Z (list Z)) : Prop :=
  ∃ G A U, finv_at e false s f F n G A U ∧ settled G ∧ W = fe_waiters <$> G.

(** ** The lock of the table *)

Definition with_lock (b : bool) f s : fstate K := set_ns (set_futex_lock (<[f := b]> (futex_lock (ns s))) (ns s)) s.

Lemma finv_with_lock lk b s f F n G A U : finv_at e lk s f F n G A U → finv_at e b (with_lock b f s) f F n G A U.
Proof.
  intros []. split; try done; cbn; [|apply lookup_insert_eq]. eapply ninv_lists; [exact fi_notif|done..|]. exact (n_lists _ _ _ _ _ fi_notif).
Qed.

Lemma with_lock_id f s : futex_lock (ns s) !! f = Some false → with_lock false f (with_lock true f s) = s.
Proof.
  intros Hf. unfold with_lock. cbn. rewrite insert_insert_eq, insert_id by done. unfold set_ns, set_futex_lock. cbn.
  destruct s as [x ? ? ? ? ?]. by destruct x.
Qed.

Lemma wp_current_futex s p f (Q : Z → fstate K → Prop) : current_threads (sch (ns s)) !! cpu c = Some p → f = group_futex e (cap_group e p) →
  Q f s → wp (current_futex e) Q s.
Proof.
  intros Hcur -> HQ. unfold current_futex, current_thread, current. wp_seq. apply wp_on_ns. wp_seq. apply wp_on_sched. wp_seq. rewrite Hcur.
  apply (wp_from_opt _ p); [done|]. wp_seq. destruct s as [x ? ? ? ? ?]. by destruct x.
Qed.

Lemma wp_lock_futex s f (Q : unit → fstate K → Prop) : futex_lock (ns s) !! f = Some false → Q tt (with_lock true f s) → wp (lock_futex f) Q s.
Proof. intros Hf HQ. unfold lock_futex. wp_seq. eapply wp_from_opt; [done|]. apply wp_on_ns. by wp_seq. Qed.

Lemma wp_unlock s f (Q : unit → fstate K → Prop) : Q tt (with_lock false f s) → wp (unlock f) Q s.
Proof. intros HQ. unfold unlock, unlock_futex. apply wp_on_ns. by wp_seq. Qed.

(** Every entry can be found. *)
Lemma settled_found lk s f F n G A U u : finv_at e lk s f F n G A U → settled G →
  match G !! u with Some g => found G u = fe_entry g ∧ fe_entry g ≠ 0 ∧ 0 < fe_count g | None => found G u = 0 end.
Proof.
  intros HI Hs. destruct (G !! u) as [g|] eqn:E; [|unfold found; by rewrite E]. destruct (Hs u g E) as [Hne Hc].
  assert (0 < fe_count g) by (rewrite Hc; destruct (fe_waiters g); [done|simpl; lia]). destruct (found_entry _ _ _ _ _ _ _ _ _ _ _ HI E H). done.
Qed.

(** ** Counters *)

Lemma wp_inc lk s f F n G A U u g : finv_at e lk s f F n G A U → G !! u = Some g →
  wp (__inc_waiter_count (fe_entry g)) (λ _ s', finv_at e lk s' f F n (<[u := set_count (fe_count g + 1) g]> G) A U ∧ ns s' = ns s ∧ umem s' = umem s ∧ objs s' = objs s) s.
Proof. intros HI Hg. unfold __inc_waiter_count. eapply wp_set_count; [done|done|]. by intros E ->. Qed.

(** One thread fewer; an entry without threads goes. *)
Definition fewer u g G : gmap Z fent :=
  if bool_decide (fe_waiters g = []) then delete u G else <[u := set_count (Z.of_nat (length (fe_waiters g))) g]> G.

Lemma wp_dec lk s f F n G A U u g : finv_at e lk s f F n G A U → G !! u = Some g → fe_count g = Z.of_nat (length (fe_waiters g)) + 1 →
  wp (__dec_waiter_count e (fe_entry g)) (λ _ s', ∃ n' A' U', (n ≤ n')%nat ∧ finv_at e lk s' f F n' (fewer u g G) A' U' ∧ quiet (ns s) (ns s') ∧ umem s' = umem s ∧
    if bool_decide (fe_waiters g = []) then (n < n')%nat ∧ given_back g s s' else objs s' = objs s) s.
Proof.
  intros HI Hg Hc. unfold __dec_waiter_count, __check_and_free. wp_seq.
  eapply wp_mono; [eapply (wp_set_count e lk s f F n G A U u g _ (Z.of_nat (length (fe_waiters g)))); [done|done|]|].
  { intros E ->. by rewrite Hc, Z.add_simpl_r. }
  intros [] s1 (HI1&En&Em&Eo). set (g1 := set_count _ g) in HI1. assert (<[u := g1]> G !! u = Some g1) as Hg1 by apply lookup_insert_eq.
  destruct (fi_entry _ _ _ _ _ _ _ _ _ HI1 u g1 Hg1) as [HE _]. wp_seq. eapply wp_get_entry; [exact HE|]. unfold futex_has_waiter, fewer. cbn [waiter_count fe_count g1 set_count].
  destruct (fe_waiters g) as [|w ws] eqn:Ews.
  - rewrite (bool_decide_eq_false_2 (_ > 0)) by (simpl; lia). rewrite (bool_decide_eq_true_2 ([] = [])) by done. cbn [negb when].
    eapply wp_mono; [by apply (wp_free_entry e lk s1 f F n _ A U u g1 HI1 Hg1)|]. intros [] s2 (n'&pl&Hn'&HI2&Ens&Em2&Hgb).
    rewrite delete_insert_eq in HI2. eexists n', _, _. split_and!; [lia|done| |congruence|done|].
    + rewrite Ens, En. by eexists _, _.
    + unfold given_back in *. by rewrite Eo in Hgb.
  - rewrite (bool_decide_eq_true_2 (_ > 0)) by (simpl; lia). rewrite (bool_decide_eq_false_2 (w :: ws = [])) by done. cbn [negb when]. wp_seq.
    exists n, A, U. split_and!; [lia| |by rewrite En|done|done]. done.
Qed.

Lemma settled_insert G u g : settled G → fe_waiters g ≠ [] → fe_count g = Z.of_nat (length (fe_waiters g)) → settled (<[u := g]> G).
Proof. intros Hs Hne Hc u0 g0 [[<- <-]|[_ H0]]%lookup_insert_Some; [done|by apply (Hs u0)]. Qed.

Lemma settled_but G u g : (∀ u0 g0, u0 ≠ u → G !! u0 = Some g0 → fe_waiters g0 ≠ [] ∧ fe_count g0 = Z.of_nat (length (fe_waiters g0))) → settled (fewer u g G).
Proof.
  intros H u0 g0. unfold fewer. case_bool_decide as Hw.
  - intros [Hne H0]%lookup_delete_Some. by apply (H u0).
  - intros [[<- <-]|[Hne H0]]%lookup_insert_Some; [done|by apply (H u0)].
Qed.

(** ** Waiting *)

Lemma running_same (x x' : nstate) p : running e x p → sch x' = sch x → sleeps x' = sleeps x → objects x' = objects x → running e x' p.
Proof. intros [] E1 E2 E3. split; by rewrite ?E1, ?E2, ?E3. Qed.
Lemma blocks_same (x x1 x' : nstate) p : sch x1 = sch x → rets x1 = rets x → objects x1 = objects x → blocks e x1 p x' → blocks e x p x'.
Proof. intros E1 E2 E3 []. split; by rewrite <-?E1, <-?E2, <-?E3. Qed.

(** The thread waits at the entry that was found or made. *)
Lemma wp_wait_at s f F n G A U u g p :
  finv_at e true s f F (S n) G A U → config_ok c → running e (ns s) p → f = group_futex e (cap_group e p) → G !! u = Some g →
  fe_count g = Z.of_nat (length (fe_waiters g)) →
  wp (__inc_waiter_count (fe_entry g);; E ← get_entry (fe_entry g);
      ret ← on_ns (wait_notific_internal e (notific E) true None true false);
      match ret with None => mret None | Some r => __dec_waiter_count e (fe_entry g);; unlock f;; mret (Some r) end)
    (λ r s', r = None ∧ ∃ A', finv_at e false s' f F n (<[u := FEnt (fe_entry g) (fe_notif g) (fe_count g + 1) (fe_waiters g ++ [p])]> G) A' U ∧
      blocks e (ns s) p (ns s') ∧ umem s' = umem s ∧ objs s' = objs s) s.
Proof.
  intros HI Hc Hrun Hf Hg Hcnt. wp_seq. eapply wp_mono; [by apply (wp_inc true s f F (S n) G A U u g)|]. intros [] s1 (HI1&En&Em&Eo). wp_seq.
  set (g1 := set_count _ g) in HI1. assert (<[u := g1]> G !! u = Some g1) as Hg1 by apply lookup_insert_eq.
  destruct (fi_entry _ _ _ _ _ _ _ _ _ HI1 u g1 Hg1) as [HE HA]. eapply wp_get_entry; [exact HE|]. cbn [notific]. wp_seq. apply wp_on_ns.
  eapply wp_mono; [eapply (wp_wait_block e (ns s1) n A (fe_notif g1) (fe_waiters g1) p None true false); [apply HI1|done|by rewrite En|done|done]|].
  intros r x (->&HN&[Hbl Hnf _ Hfl]&_). wp_seq. split; [done|]. eexists. split_and!; [| |done|done].
  - pose proof (finv_change e true false s1 f F (S n) (<[u := g1]> G) A U u g1 (FEnt (fe_entry g) (fe_notif g) (fe_count g + 1) (fe_waiters g ++ [p])) (set_ns x s1) n _
      HI1 Hg1 eq_refl eq_refl HN) as H. rewrite insert_insert_eq in H. apply H; try done; cbn.
    + rewrite Hfl, <-Hf. apply lookup_insert_eq.
    + by rewrite insert_id.
  - by rewrite <-En.
Qed.

(** What [sys_futex_wait] does *)
Inductive wait_result s f F n (W : gmap Z (list Z)) u (v val : Z) en q (k : K) (p : Z) : option Z → fstate K → Prop :=
  | WaitFault : check_user_addr_range u 4 ≠ 0 → wait_result s f F n W u v val en q k p (Some (- EFAULT)) s
  | WaitChanged : check_user_addr_range u 4 = 0 → v ≠ val → wait_result s f F n W u v val en q k p (Some (- EAGAIN)) s
  | WaitNoMemory s' : check_user_addr_range u 4 = 0 → v = val → W !! u = None → en = 0 ∨ q = 0 → futex_table s' f F (S (S n)) W → ns s' = ns s →
      wait_result s f F n W u v val en q k p (Some (- VmSpace.ENOMEM)) s'
  | WaitBlocks s' n' : check_user_addr_range u 4 = 0 → v = val → (n ≤ n')%nat → futex_table s' f F n' (<[u := default [] (W !! u) ++ [p]]> W) →
      blocks e (ns s) p (ns s') → umem s' = umem s → (W !! u = None → objs s' = k) → wait_result s f F n W u v val en q k p None s'.

Lemma wp_sys_futex_wait s f F n W p u op v val timeout en q k :
  futex_table s f F (S (S n)) W → config_ok c → running e (ns s) p → f = group_futex e (cap_group e p) →
  (check_user_addr_range u 4 = 0 → umem s !! u = Some v) → (W !! u = None → answers (futex_mem_type F) (objs s) en q k) →
  wp (sys_futex_wait e u op val timeout) (wait_result s f F n W u v val en q k p) s.
Proof.
  intros (G&A&U&HI&Hs&->) Hc Hrun Hf Hu Hans. pose proof (fi_lock _ _ _ _ _ _ _ _ _ HI) as Hlk. unfold sys_futex_wait. wp_seq.
  eapply wp_current_futex; [apply Hrun|done|]. wp_seq. apply wp_lock_futex; [done|]. case_bool_decide as Hchk; cbn [negb]; wp_seq.
  2: { apply wp_unlock. wp_seq. rewrite with_lock_id by done. by constructor. }
  specialize (Hu Hchk). unfold read_user_int. wp_seq. cbn. rewrite Hu. wp_seq. case_bool_decide as Hv; cbn [negb]; wp_seq.
  2: { apply wp_unlock. wp_seq. rewrite with_lock_id by done. by constructor. }
  subst v. set (s1 := with_lock true f s). assert (finv_at e true s1 f F (S (S n)) G A U) as HI1 by by eapply finv_with_lock.
  eapply wp_mono; [by apply (wp_find_entry e true s1 f F (S (S n)) G A U u)|]. intros r ? [-> ->]. wp_seq. eapply wp_get_futex; [apply HI1|]. wp_seq.
  pose proof (settled_found _ _ _ _ _ _ _ _ u HI1 Hs) as Hfnd. rewrite lookup_fmap in Hans.
  assert (running e (ns s1) p) as Hrun1 by (by apply (running_same (ns s))). destruct (G !! u) as [g|] eqn:Hg.
  - destruct Hfnd as (->&Hne&_). rewrite bool_decide_eq_false_2 by done. wp_seq. rewrite bool_decide_eq_false_2 by done.
    eapply wp_mono; [by eapply (wp_wait_at s1 f F (S n) G A U u g p); [| | | | |apply (Hs u g Hg)]|].
    intros r s' (->&A'&HI'&Hbl&Em&_). apply (WaitBlocks _ _ _ _ _ _ _ _ _ _ _ _ s' (S n)); [done|done|lia| |by apply (blocks_same _ (ns s1))|done|by rewrite lookup_fmap, Hg].
    eexists _, A', U. split_and!; [exact HI'| |].
    + apply settled_insert; [done|cbn; by destruct (fe_waiters g)|]. cbn. rewrite length_app, (proj2 (Hs u g Hg)). simpl. lia.
    + by rewrite fmap_insert, lookup_fmap, Hg.
  - rewrite Hfnd, (bool_decide_eq_true_2 (0 = 0)) by done.
    eapply wp_mono; [by apply (wp_new_entry e true s1 f F (S n) G A U u _ en q k HI1 Hg), Hans|].
    intros r s2 (Em&[(->&Hz&Ens&HI2)|(->&Hne&HI2&Eo&pl&Ens)]).
    + rewrite bool_decide_eq_true_2 by done. wp_seq. apply wp_unlock. wp_seq. constructor; [done|done|by rewrite lookup_fmap, Hg|done| |].
      * eexists G, A, U. split_and!; [by eapply finv_with_lock|done|done].
      * cbn. rewrite Ens. cbn. rewrite insert_insert_eq, insert_id by done. unfold set_futex_lock. by destruct (ns s).
    + rewrite bool_decide_eq_false_2 by done.
      eapply wp_mono; [eapply (wp_wait_at s2 f F n _ _ _ u (FEnt en q 0 []) p); [exact HI2|done| |done|apply lookup_insert_eq|done]|].
      { eapply running_same; [exact Hrun1|by rewrite Ens..]. }
      intros r s' (->&A'&HI'&Hbl&Em'&Eo'). rewrite insert_insert_eq in HI'. apply (WaitBlocks _ _ _ _ _ _ _ _ _ _ _ _ s' n); [done|done|lia| | |by rewrite Em', Em|by rewrite Eo'].
      * eexists _, A', _. split_and!; [exact HI'|by apply settled_insert|]. by rewrite fmap_insert, lookup_fmap, Hg.
      * eapply blocks_same; [..|exact Hbl]; by rewrite Ens.
Qed.

(** ** Waking *)

Lemma wakes_one (x : nstate) n A q p ws x1 x2 ps x' :
  ninv_at e None x n A → A !! q = Some (Sem 0 (p :: ws)) → wakes e x p x1 → quiet x1 x2 → p ∉ ps → woke x2 ps x' → woke x (p :: ps) x'.
Proof.
  intros HI Hq [(t&Ht&Hst&Hwoken) (z'&Hsl&Hcb) (_&_&_&_&Hret)] (nf&pl&->) Hp [H1 H2 [H3 H4]]. cbn in H1, H2, H3, H4.
  destruct (n_wait _ _ _ _ _ HI q _ p Hq) as ((t0&?&_&Hw)&_); [by left|]. assert (t0 = t) as -> by congruence.
  destruct (woken_frame c _ _ _ _ (n_cpu _ _ _ _ _ HI) Ht Hw Hwoken) as (_&Hoth&Hcur&_). destruct (woken_revived e _ _ _ _ Hw Hwoken) as (t1&Ht1&Hrev).
  split; [| |split; congruence].
  - intros y [->|Hy]%elem_of_cons.
    + destruct (H2 p Hp) as [E1 E2]. exists t, t1, z'. rewrite E1, E2, Hsl, lookup_insert_eq. done.
    + assert (y ≠ p) as Hne by (by intros ->). destruct (H1 y Hy) as (ty&ty'&zy&Hty&?). rewrite Hoth in Hty by done. by exists ty, ty', zy.
  - intros y Hy. apply not_elem_of_cons in Hy as [Hyp Hy]. destruct (H2 y Hy) as [-> ->]. rewrite Hsl, lookup_insert_ne by done. by rewrite Hoth.
Qed.

(** The first [k] threads of an address leave. *)
Definition served u (k : nat) (W : gmap Z (list Z)) : gmap Z (list Z) :=
  match W !! u with
  | Some ws => if bool_decide (length ws ≤ k)%nat then delete u W else <[u := drop k ws]> W
  | None => W
  end.

Lemma served_0 u W : (∀ ws, W !! u = Some ws → ws ≠ []) → served u 0 W = W.
Proof.
  intros H. unfold served. destruct (W !! u) as [ws|] eqn:E; [|done]. rewrite bool_decide_eq_false_2; [rewrite drop_0; by apply insert_id|].
  specialize (H ws eq_refl). destruct ws; [done|simpl; lia].
Qed.

Lemma fewer_waiters u g G : fe_waiters <$> fewer u g G = if bool_decide (fe_waiters g = []) then delete u (fe_waiters <$> G) else <[u := fe_waiters g]> (fe_waiters <$> G).
Proof. unfold fewer. case_bool_decide; [apply fmap_delete|by rewrite fmap_insert]. Qed.

Lemma wp_wake_loop k i s f F n G A U u g :
  finv_at e true s f F n G A U → settled G → config_ok c → G !! u = Some g → (k ≤ length (fe_waiters g))%nat →
  wp (wake_loop e k i (fe_entry g) (fe_notif g)) (λ r s', r = i + Z.of_nat k ∧ ∃ n' G' A' U', (n ≤ n')%nat ∧ finv_at e true s' f F n' G' A' U' ∧ settled G' ∧
    fe_waiters <$> G' = served u k (fe_waiters <$> G) ∧ woke (ns s) (take k (fe_waiters g)) (ns s') ∧ umem s' = umem s ∧
    if bool_decide (length (fe_waiters g) ≤ k)%nat then (n + k + 1 ≤ n')%nat ∧ given_back g s s' else (n + k ≤ n')%nat ∧ objs s' = objs s) s.
Proof.
  revert i s n G A U g. induction k as [|k IH]; intros i s n G A U g HI Hs Hc Hg Hk; cbn [wake_loop].
  { wp_seq. split; [lia|]. exists n, G, A, U. split_and!; [lia|done|done| |by apply woke_nobody|done|].
    - symmetry. apply served_0. intros ws Hws. rewrite lookup_fmap, Hg in Hws. simplify_eq/=. by apply (Hs u).
    - rewrite bool_decide_eq_false_2; [split; [lia|done]|]. destruct (Hs u g Hg) as [Hne _]. by destruct (fe_waiters g); [|simpl; lia]. }
  destruct (fi_entry _ _ _ _ _ _ _ _ _ HI u g Hg) as [HE HA]. destruct (Hs u g Hg) as [_ Hcnt].
  destruct (fe_waiters g) as [|p ws] eqn:Ews; [simpl in Hk; lia|]. wp_seq. apply wp_on_ns.
  pose proof (waiters_nodup _ _ _ _ _ _ _ (fi_notif _ _ _ _ _ _ _ _ _ HI) HA) as [Hp _]%NoDup_cons.
  eapply wp_mono; [eapply (wp_signal_wake e (ns s) n A (fe_notif g) p ws); [apply HI|done|done]|]. intros r x (->&Hwk&_&n1&Hn1&HN). wp_seq. cbn [negb bool_decide].
  rewrite (bool_decide_eq_true_2 (0 = 0)) by done. cbn [negb]. wp_seq. set (s1 := set_ns x s). set (g1 := set_waiters ws g).
  assert (finv_at e true s1 f F n1 (<[u := g1]> G) (<[fe_notif g := Sem 0 ws]> A) U) as HI1.
  { eapply (finv_change e true true s f F n G A U u g g1); try done; cbn; [|by rewrite insert_id].
    destruct Hwk as [_ _ (_&_&_&->&_)]. apply HI. }
  assert (<[u := g1]> G !! u = Some g1) as Hg1 by apply lookup_insert_eq.
  eapply wp_mono; [eapply (wp_dec true s1 f F n1 _ _ U u g1 HI1 Hg1); cbn; rewrite Hcnt; simpl; lia|]. intros [] s2 (n2&A2&U2&Hn2&HI2&Hq&Em2&Hgb). cbn [fe_waiters g1 set_waiters] in Hgb.
  assert (settled (fewer u g1 (<[u := g1]> G))) as Hs2.
  { apply settled_but. intros u0 g0 Hne H0. rewrite lookup_insert_ne in H0 by done. by apply (Hs u0). }
  pose proof (fewer_waiters u g1 (<[u := g1]> G)) as Hfw. rewrite fmap_insert in Hfw. cbn [fe_waiters g1 set_waiters] in Hfw.
  simpl in Hk. destruct ws as [|w ws].
  - assert (k = 0)%nat as -> by (simpl in Hk; lia). cbn [wake_loop]. wp_seq. split; [lia|]. eexists n2, _, A2, U2. rewrite (bool_decide_eq_true_2 ([] = [])) in Hgb by done.
    rewrite (bool_decide_eq_true_2 (_ ≤ _)%nat) by (simpl; lia). split_and!; [lia|exact HI2|exact Hs2| | |done|lia|apply Hgb].
    + rewrite Hfw, bool_decide_eq_true_2, delete_insert_eq by done. unfold served. rewrite lookup_fmap, Hg. simpl. rewrite Ews. by rewrite bool_decide_eq_true_2 by (simpl; lia).
    + cbn [take]. eapply wakes_one; [apply HI|exact HA|exact Hwk|exact Hq|by apply not_elem_of_nil|by apply woke_nobody].
  - rewrite bool_decide_eq_false_2, insert_insert_eq in Hfw by done. set (g2 := set_count (Z.of_nat (length (w :: ws))) g1).
    assert (fewer u g1 (<[u := g1]> G) !! u = Some g2) as Hg2.
    { unfold fewer. rewrite bool_decide_eq_false_2 by done. by rewrite insert_insert_eq, lookup_insert_eq. }
    eapply wp_mono; [eapply (IH (i + 1) s2 n2 _ A2 U2 g2 HI2 Hs2 Hc Hg2); cbn; simpl in Hk; lia|].
    intros r s3 (->&n3&G3&A3&U3&Hn3&HI3&Hs3&HW3&Hwo&Em3&Hgb3). split; [lia|]. exists n3, G3, A3, U3. split_and!; [lia|done|done| | |by rewrite Em3|].
    3: { rewrite (bool_decide_eq_false_2 (w :: ws = [])) in Hgb by done. cbn [fe_waiters g2 set_count g1 set_waiters length] in Hgb3.
         assert (objs s2 = objs s) as Eo by exact Hgb. unfold given_back in *. cbn [fe_entry fe_notif g2 set_count g1 set_waiters] in Hgb3. rewrite Eo in Hgb3.
         cbn [length]. repeat case_bool_decide; try lia; (split; [lia|apply Hgb3]). }
    + rewrite HW3, Hfw. unfold served. rewrite lookup_insert_eq, lookup_fmap, Hg. simpl. rewrite Ews. rewrite delete_insert_eq, insert_insert_eq. simpl.
      repeat case_bool_decide; try done; lia.
    + cbn [take]. eapply wakes_one; [apply HI|exact HA|exact Hwk|exact Hq| |exact Hwo]. cbn. intros Hin. apply Hp. apply elem_of_take in Hin as (j&?&?).
      by eapply list_elem_of_lookup_2.
Qed.

(** How many threads [sys_futex_wake] wakes *)
Definition wakeups (ws : list Z) (val : Z) : nat := Z.to_nat (Z.min (Z.of_nat (length ws)) val).

(** Nobody is left at the address. *)
Definition leaves_nobody (ws : list Z) (val : Z) : bool := bool_decide (length ws ≤ wakeups ws val)%nat && bool_decide (ws ≠ []).
(** The nodes that go back to the pool: one for each thread woken, and the one of an empty queue that goes *)
Definition nodes_back (ws : list Z) (val : Z) : nat := wakeups ws val + (if leaves_nobody ws val then 1 else 0).
(** The entry for [u] is gone, and its memory was freed with that of its notification. *)
Definition entry_freed s u s' : Prop := ∃ g cnt b, fentries s !! fe_entry g = Some (FutexEntry (fe_notif g) u cnt b) ∧ given_back g s s'.

Lemma wp_sys_futex_wake s f F n W p u op val :
  futex_table s f F n W → config_ok c → current_threads (sch (ns s)) !! cpu c = Some p → f = group_futex e (cap_group e p) →
  let ws := default [] (W !! u) in
  wp (sys_futex_wake e u op val) (λ r s', r = Z.of_nat (wakeups ws val) ∧ (∃ n', (n + nodes_back ws val ≤ n')%nat ∧ futex_table s' f F n' (served u (wakeups ws val) W)) ∧
    woke (ns s) (take (wakeups ws val) ws) (ns s') ∧ umem s' = umem s ∧
    if leaves_nobody ws val then entry_freed s u s' else objs s' = objs s) s.
Proof.
  intros (G&A&U&HI&Hs&->) Hc Hcur Hf. pose proof (fi_lock _ _ _ _ _ _ _ _ _ HI) as Hlk. unfold sys_futex_wake. wp_seq.
  eapply wp_current_futex; [done|done|]. wp_seq. apply wp_lock_futex; [done|]. wp_seq.
  set (s1 := with_lock true f s). assert (finv_at e true s1 f F n G A U) as HI1 by by eapply finv_with_lock.
  eapply wp_mono; [by apply (wp_find_entry e true s1 f F n G A U u)|]. intros r ? [-> ->]. wp_seq.
  pose proof (settled_found _ _ _ _ _ _ _ _ u HI1 Hs) as Hfnd. rewrite lookup_fmap. destruct (G !! u) as [g|] eqn:Hg; simpl.
  - destruct Hfnd as (->&Hne&_). rewrite bool_decide_eq_false_2 by done. destruct (fi_entry _ _ _ _ _ _ _ _ _ HI1 u g Hg) as [HE _]. wp_seq.
    eapply wp_get_entry; [exact HE|]. cbn [waiter_count notific]. rewrite (proj2 (Hs u g Hg)).
    assert (Z.to_nat (if bool_decide (Z.of_nat (length (fe_waiters g)) < val) then Z.of_nat (length (fe_waiters g)) else val) = wakeups (fe_waiters g) val) as ->
      by (unfold wakeups; case_bool_decide; f_equal; lia).
    eapply wp_mono; [eapply (wp_wake_loop (wakeups (fe_waiters g) val) 0 s1 f F n G A U u g); [done|done|done|done|unfold wakeups; lia]|].
    intros r s2 (->&n2&G2&A2&U2&Hn2&HI2&Hs2&HW2&Hwo&Em2&Hgb). wp_seq. apply wp_unlock. wp_seq.
    assert (leaves_nobody (fe_waiters g) val = bool_decide (length (fe_waiters g) ≤ wakeups (fe_waiters g) val)%nat) as Eem
      by (unfold leaves_nobody; rewrite (bool_decide_eq_true_2 (fe_waiters g ≠ [])); [by rewrite andb_true_r|apply (Hs u g Hg)]).
    unfold nodes_back. rewrite Eem. split_and!; [lia| | |done|].
    3: { case_bool_decide; [|apply Hgb]. eexists g, _, _. split; [exact HE|apply Hgb]. }
    + exists n2. split; [case_bool_decide; lia|]. exists G2, A2, U2. split_and!; [by eapply finv_with_lock|done|done].
    + destruct Hwo as [H1 H2 H3]. by split.
  - rewrite Hfnd, (bool_decide_eq_true_2 (0 = 0)) by done. wp_seq. apply wp_unlock. wp_seq. unfold s1. rewrite with_lock_id by done.
    assert (wakeups [] val = 0)%nat as -> by (unfold wakeups; simpl; lia). split_and!; [done| |by apply woke_nobody|done|done].
    exists n. split; [unfold nodes_back, leaves_nobody; rewrite andb_false_r; unfold wakeups; simpl; lia|]. exists G, A, U. split_and!; [done|done|]. unfold served. by rewrite lookup_fmap, Hg.
Qed.

(** ** Moving a thread *)

Lemma fewer_other u u' g G : u' ≠ u → fewer u g G !! u' = G !! u'.
Proof. intros Hne. unfold fewer. case_bool_decide; [by rewrite lookup_delete_ne|by rewrite lookup_insert_ne]. Qed.

(** The first thread of [u] goes to the end of [u2]. *)
Definition moved u u2 (p : Z) (ws : list Z) (W : gmap Z (list Z)) : gmap Z (list Z) :=
  <[u2 := default [] (W !! u2) ++ [p]]> (if bool_decide (ws = []) then delete u W else <[u := ws]> W).

Lemma wp_requeue_entries s f F n G A U u u2 g1 g2 p ws :
  finv_at e true s f F n G A U → u ≠ u2 → G !! u = Some g1 → fe_waiters g1 = p :: ws → G !! u2 = Some g2 →
  (∀ u0 g0, G !! u0 = Some g0 → fe_count g0 = Z.of_nat (length (fe_waiters g0)) ∧ (u0 ≠ u2 → fe_waiters g0 ≠ [])) →
  wp (E1 ← get_entry (fe_entry g1); E2 ← get_entry (fe_entry g2); ret ← on_ns (requeue_notific (notific E1) (notific E2));
      (if bool_decide (ret = 0) then __dec_waiter_count e (fe_entry g1);; __inc_waiter_count (fe_entry g2) else __check_and_free e (fe_entry g2));; mret ret)
    (λ r s', r = 0 ∧ ∃ n' G' A' U', (n ≤ n')%nat ∧ finv_at e true s' f F n' G' A' U' ∧ settled G' ∧ fe_waiters <$> G' = moved u u2 p ws (fe_waiters <$> G) ∧
      sch (ns s') = sch (ns s) ∧ umem s' = umem s) s.
Proof.
  intros HI Hne Hg1 Ews Hg2 Hcnt. destruct (fi_entry _ _ _ _ _ _ _ _ _ HI u g1 Hg1) as [HE1 HA1], (fi_entry _ _ _ _ _ _ _ _ _ HI u2 g2 Hg2) as [HE2 HA2].
  destruct (fi_apart _ _ _ _ _ _ _ _ _ HI u u2 g1 g2 Hg1 Hg2) as [_ [Hen Hq]]; [done|]. rewrite Ews in HA1.
  wp_seq. eapply wp_get_entry; [exact HE1|]. wp_seq. eapply wp_get_entry; [exact HE2|]. cbn [notific]. wp_seq. apply wp_on_ns.
  eapply wp_mono; [eapply (wp_requeue e (ns s) n A (fe_notif g1) (fe_notif g2) p ws (fe_waiters g2)); [apply HI|done|done|done]|].
  intros r x (->&n1&pl&z&Hn1&_&HN&Hx). wp_seq. rewrite (bool_decide_eq_true_2 (0 = 0)) by done. wp_seq.
  set (g1' := set_waiters ws g1). set (g2' := set_waiters (fe_waiters g2 ++ [p]) g2). set (G1 := <[u2 := g2']> (<[u := g1']> G)). set (s1 := set_ns x s).
  assert (finv_at e true s1 f F n1 G1 (<[fe_notif g2 := Sem 0 (fe_waiters g2 ++ [p])]> (<[fe_notif g1 := Sem 0 ws]> A)) U) as HI1.
  { eapply (finv_update e true true s f F n G A U); try done; cbn.
    - unfold G1. rewrite (shape_insert _ u2 g2) by (done || by rewrite lookup_insert_ne). by rewrite (shape_insert _ u g1).
    - rewrite Hx. apply HI.
    - unfold G1. intros u0 g0 [[<- <-]|[Hn2 [[<- <-]|[Hn0 H0]]%lookup_insert_Some]]%lookup_insert_Some; cbn.
      + by rewrite lookup_insert_eq.
      + by rewrite lookup_insert_ne, lookup_insert_eq.
      + destruct (fi_apart _ _ _ _ _ _ _ _ _ HI u u0 g1 g0 Hg1 H0) as [_ [_ ?]]; [done|]. destruct (fi_apart _ _ _ _ _ _ _ _ _ HI u2 u0 g2 g0 Hg2 H0) as [_ [_ ?]]; [done|].
        rewrite !lookup_insert_ne by done. by apply (fi_entry _ _ _ _ _ _ _ _ _ HI).
    - intros q. rewrite (insert_None_iff _ _ (Sem 0 (fe_waiters g2))) by (by rewrite lookup_insert_ne). by eapply insert_None_iff. }
  assert (G1 !! u = Some g1') as Hg1' by (unfold G1; by rewrite lookup_insert_ne, lookup_insert_eq).
  eapply wp_mono; [eapply (wp_dec true s1 f F n1 _ _ U u g1' HI1 Hg1'); cbn; rewrite (proj1 (Hcnt u g1 Hg1)), Ews; simpl; lia|].
  intros [] s2 (n2&A2&U2&Hn2&HI2&Hqt&Em2&_). assert (fewer u g1' G1 !! u2 = Some g2') as Hg2' by (rewrite fewer_other by done; apply lookup_insert_eq).
  eapply wp_mono; [exact (wp_inc true s2 f F n2 _ A2 U2 u2 g2' HI2 Hg2')|]. intros [] s3 (HI3&En3&Em3&_). wp_seq. split; [done|].
  eexists n2, _, A2, U2. split_and!; [lia|exact HI3| | | |].
  - intros u0 g0 [[<- <-]|[Hn0 H0]]%lookup_insert_Some.
    + cbn. split; [by destruct (fe_waiters g2)|]. rewrite (proj1 (Hcnt u2 g2 Hg2)), length_app. simpl. lia.
    + revert u0 g0 Hn0 H0. assert (settled (delete u2 (fewer u g1' G1))) as Hst.
      { assert (delete u2 (fewer u g1' G1) = fewer u g1' (delete u2 G1)) as ->.
        { unfold fewer. case_bool_decide; [by rewrite delete_delete|by rewrite delete_insert_ne]. }
        apply settled_but. unfold G1. rewrite delete_insert_eq. intros u0 g0 Hn [Hn0 H0]%lookup_delete_Some. rewrite lookup_insert_ne in H0 by done.
        destruct (Hcnt u0 g0 H0) as [? Hw]. split; [by apply Hw|done]. }
      intros u0 g0 Hn0 H0. apply (Hst u0). by rewrite lookup_delete_ne.
  - rewrite fmap_insert, fewer_waiters. unfold G1, moved. rewrite !fmap_insert, lookup_fmap, Hg2. cbn.
    case_bool_decide; [by rewrite delete_insert_ne, insert_insert_eq, delete_insert_eq|].
    rewrite (insert_insert_ne _ u u2), insert_insert_eq, insert_insert_eq by done. done.
  - rewrite En3. destruct Hqt as (nf&pl'&->). unfold s1. cbn. by rewrite Hx.
  - by rewrite Em3.
Qed.

(** What [sys_futex_requeue] does *)
Inductive requeue_result s f F n (W : gmap Z (list Z)) u u2 en q : Z → fstate K → Prop :=
  | RequeueNobody : W !! u = None → requeue_result s f F n W u u2 en q (- EINVAL) s
  | RequeueNoMemory s' ws : W !! u = Some ws → W !! u2 = None → en = 0 ∨ q = 0 → futex_table s' f F (S n) W → ns s' = ns s →
      requeue_result s f F n W u u2 en q (- VmSpace.ENOMEM) s'
  | RequeueMoved s' n' p ws : W !! u = Some (p :: ws) → (n ≤ n')%nat → futex_table s' f F n' (moved u u2 p ws W) → sch (ns s') = sch (ns s) →
      umem s' = umem s → requeue_result s f F n W u u2 en q 0 s'.

(** The end of the call, once both entries are there: the table had [W] when it began. *)
Lemma wp_requeue_finish s f F n W u u2 en q p ws s2 n2 G2 A2 U2 g g2 :
  W !! u = Some (p :: ws) → finv_at e true s2 f F n2 G2 A2 U2 → u ≠ u2 → G2 !! u = Some g → fe_waiters g = p :: ws → G2 !! u2 = Some g2 →
  (n ≤ n2)%nat → umem s2 = umem s → sch (ns s2) = sch (ns s) →
  (∀ u0 g0, G2 !! u0 = Some g0 → fe_count g0 = Z.of_nat (length (fe_waiters g0)) ∧ (u0 ≠ u2 → fe_waiters g0 ≠ [])) →
  moved u u2 p ws (fe_waiters <$> G2) = moved u u2 p ws W →
  wp (ret ← (E1 ← get_entry (fe_entry g); E2 ← get_entry (fe_entry g2); ret ← on_ns (requeue_notific (notific E1) (notific E2));
      (if bool_decide (ret = 0) then __dec_waiter_count e (fe_entry g);; __inc_waiter_count (fe_entry g2) else __check_and_free e (fe_entry g2));; mret ret);
      unlock f;; mret ret) (requeue_result s f F n W u u2 en q) s2.
Proof.
  intros HWu HI2 Hne Hg Ews Hg2 Hn2 Em2 Es2 Hcnt HW. rewrite wp_bind.
  eapply wp_mono; [by apply (wp_requeue_entries s2 f F n2 G2 A2 U2 u u2 g g2 p ws)|].
  intros a s3 (->&n3&G3&A3&U3&Hn3&HI3&Hs3&HW3&Es3&Em3). wp_seq. apply wp_unlock. wp_seq.
  apply (RequeueMoved _ _ _ _ _ _ _ _ _ _ n3 p ws); [done|lia| |by cbn; rewrite Es3|by cbn; rewrite Em3].
  exists G3, A3, U3. split_and!; [by eapply finv_with_lock|done|congruence].
Qed.

Lemma wp_sys_futex_requeue s f F n W r u u2 en q k :
  futex_table s f F (S n) W → current_threads (sch (ns s)) !! cpu c = Some r → f = group_futex e (cap_group e r) → u ≠ u2 →
  (W !! u2 = None → answers (futex_mem_type F) (objs s) en q k) →
  wp (sys_futex_requeue e u u2 0 1) (requeue_result s f F n W u u2 en q) s.
Proof.
  intros (G&A&U&HI&Hs&->) Hcur Hf Hne Hans. pose proof (fi_lock _ _ _ _ _ _ _ _ _ HI) as Hlk. unfold sys_futex_requeue.
  rewrite !(bool_decide_eq_true_2 (_ = _)), (bool_decide_eq_false_2 (u = u2)) by done. cbn [negb orb]. wp_seq.
  eapply wp_current_futex; [done|done|]. wp_seq. apply wp_lock_futex; [done|]. wp_seq.
  set (s1 := with_lock true f s). assert (finv_at e true s1 f F (S n) G A U) as HI1 by by eapply finv_with_lock.
  eapply wp_mono; [by apply (wp_find_entry e true s1 f F (S n) G A U u)|]. intros ? ? [-> ->]. wp_seq.
  eapply wp_mono; [by apply (wp_find_entry e true s1 f F (S n) G A U u2)|]. intros ? ? [-> ->]. wp_seq.
  pose proof (settled_found _ _ _ _ _ _ _ _ u HI1 Hs) as Hfnd. pose proof (settled_found _ _ _ _ _ _ _ _ u2 HI1 Hs) as Hfnd2.
  rewrite lookup_fmap in Hans. destruct (G !! u) as [g|] eqn:Hg.
  2: { rewrite Hfnd, (bool_decide_eq_true_2 (0 = 0)) by done. wp_seq. apply wp_unlock. wp_seq. unfold s1. rewrite with_lock_id by done. constructor. by rewrite lookup_fmap, Hg. }
  destruct Hfnd as (->&Hen&_). rewrite bool_decide_eq_false_2 by done. wp_seq. eapply wp_get_futex; [apply HI1|]. wp_seq.
  destruct (fe_waiters g) as [|p ws] eqn:Ews; [by destruct (Hs u g Hg)|].
  assert ((fe_waiters <$> G) !! u = Some (p :: ws)) as HWu by (by rewrite lookup_fmap, Hg; simpl; rewrite Ews).
  destruct (G !! u2) as [g2|] eqn:Hg2.
  - destruct Hfnd2 as (->&Hen2&_). rewrite bool_decide_eq_false_2 by done. wp_seq. rewrite bool_decide_eq_false_2 by done. wp_seq.
    assert (∀ u0 g0, G !! u0 = Some g0 → fe_count g0 = Z.of_nat (length (fe_waiters g0)) ∧ (u0 ≠ u2 → fe_waiters g0 ≠ [])) as Hcnt
      by (intros u0 g0 H0; by destruct (Hs u0 g0 H0)).
    pose proof (wp_requeue_finish s f F n _ u u2 en q p ws s1 (S n) G A U g g2 HWu HI1 Hne Hg Ews Hg2 ltac:(lia) eq_refl eq_refl Hcnt eq_refl) as Hmove.
    revert Hmove. by wp_seq.
  - rewrite Hfnd2, (bool_decide_eq_true_2 (0 = 0)) by done.
    eapply wp_mono; [by apply (wp_new_entry e true s1 f F n G A U u2 _ en q k HI1 Hg2), Hans|].
    intros a s2 (Em&[(->&Hz&Ens&HI2)|(->&Hne2&HI2&_&pl&Ens)]).
    + rewrite bool_decide_eq_true_2 by done. wp_seq. apply wp_unlock. wp_seq. apply (RequeueNoMemory _ _ _ _ _ _ _ _ _ _ (fe_waiters g)).
      * by rewrite lookup_fmap, Hg.
      * by rewrite lookup_fmap, Hg2.
      * done.
      * exists G, A, U. split_and!; [by eapply finv_with_lock|done|done].
      * cbn. rewrite Ens. cbn. rewrite insert_insert_eq, insert_id by done. unfold set_futex_lock. by destruct (ns s).
    + rewrite bool_decide_eq_false_2 by done. wp_seq.
      pose proof (wp_requeue_finish s f F n _ u u2 en q p ws s2 n _ _ _ g (FEnt en q 0 []) HWu HI2 Hne) as Hmove. revert Hmove. wp_seq. intros Hmove. apply Hmove.
      * by rewrite lookup_insert_ne.
      * done.
      * apply lookup_insert_eq.
      * lia.
      * by rewrite Em.
      * by rewrite Ens.
      * intros u0 g0 [[<- <-]|[Hn0 H0]]%lookup_insert_Some; [done|]. by destruct (Hs u0 g0 H0).
      * unfold moved. rewrite fmap_insert. cbn [fe_waiters]. rewrite lookup_insert_eq, lookup_fmap, Hg2. cbn.
        case_bool_decide; [by rewrite delete_insert_ne, insert_insert_eq|]. by rewrite (insert_insert_ne _ u u2), insert_insert_eq by done.
Qed.
End ops.
