(* ===== verification/NotificTheorems.v ===== *)
(** What notifications and the timer guarantee: signals are counted or wake the thread that waited longest, no signal is
    lost, and timeouts end waits; and what happens when a signal meets a timeout. *)
From stdpp Require Import sorting.
From S2P Require Import Prelude Words Sched SchedProofs SchedTheorems SchedBlock ThreadDq Notific Waiters NotificProofs NotificOps NotificTimer NotificMove.

Section theorems.
Context (e : ipc_config).
Notation c := (sched_config e).
Notation ninv := (ninv_at e None).
Implicit Types (s : nstate) (A : gmap Z sem).

(** ** Waits that return *)

Lemma wp_wait_ready s n A q a is_block timeout nu np : ninv s n A → A !! q = Some a → 0 < pending a →
  wp (wait_notific_internal e q is_block timeout nu np) (λ r s', r = Some 0 ∧ ninv s' n (<[q := Sem (pending a - 1) []]> A) ∧
    s' = set_notifs (<[q := notific_of (Sem (pending a - 1) [])]> (notifs s)) s) s.
Proof.
  intros HI Hq Hp. destruct (n_notif _ _ _ _ _ HI q a Hq) as (HN&Hok&Hws). specialize (Hws Hp). unfold wait_notific_internal, unlock_notifc. wp_seq.
  eapply wp_lock_notifc; [done|done|]. wp_seq. eapply wp_notifc; [apply lookup_insert_eq|].
  cbn [set_notifc_lock nstatus notific_of not_delivered_notifc_count]. rewrite bool_decide_eq_false_2, bool_decide_eq_true_2 by (done || lia). wp_seq.
  eapply wp_upd_notifc; [apply lookup_insert_eq|]. wp_seq. eapply wp_upd_notifc; [apply lookup_insert_eq|]. wp_seq. cbn. rewrite !insert_insert_eq.
  assert (set_notifc_lock false (set_not_delivered (pending a - 1) (set_notifc_lock true (notific_of a))) = notific_of (Sem (pending a - 1) [])) as ->
    by (unfold notific_of; by rewrite Hws).
  split_and!; [done| |done]. pose proof (ninv_pending e None s n A q a (pending a - 1) HI Hq) as H. rewrite Hws in H. apply H. split; [simpl; lia|done].
Qed.

Lemma wp_wait_poll s n A q a timeout nu np : ninv s n A → A !! q = Some a → pending a = 0 →
  wp (wait_notific_internal e q false timeout nu np) (λ r s', r = Some (- EAGAIN) ∧ s' = s) s.
Proof.
  intros HI Hq Hp. destruct (n_notif _ _ _ _ _ HI q a Hq) as (HN&_). unfold wait_notific_internal, unlock_notifc. wp_seq.
  eapply wp_lock_notifc; [done|done|]. wp_seq. eapply wp_notifc; [apply lookup_insert_eq|].
  cbn [set_notifc_lock nstatus notific_of not_delivered_notifc_count]. rewrite !bool_decide_eq_false_2 by (done || lia). wp_seq.
  eapply wp_upd_notifc; [apply lookup_insert_eq|]. wp_seq. cbn. rewrite insert_insert_eq. split; [done|].
  rewrite insert_id by done. by destruct s.
Qed.

(** ** A timeout that is being handled *)

(** The timer interrupt of CPU [i] has taken the lock of [p], whose time has come, and taken it off the sleep list. *)
Definition timing_out (i p : Z) : M nstate unit := lock_queue p;; list_del_sleeper i p.

Lemma wp_signal_meets_timeout s n A q p z i T : ninv s n A → A !! q = Some (Sem 0 [p]) → sleeps s !! p = Some z → time_states s !! i = Some T →
  wp (timing_out i p;; signal_notific e q) (λ r s', r = - EAGAIN ∧ notifs s' !! q = Some (notific_of (Sem 0 [])) ∧ sch s' = sch s ∧
    (∃ z', sleeps s' !! p = Some z' ∧ pending_notific z' = pending_notific z) ∧
    ∃ x nd, notif_dq_node_off (pool s') !! p = Some x ∧ nodes (pool s') !! x = Some nd) s.
Proof.
  intros HI Hq Hz HT. destruct (n_notif _ _ _ _ _ HI q _ Hq) as (HN&_).
  destruct (n_wait _ _ _ _ _ HI q _ p Hq) as ((t&Ht&_)&(o&Ho&Hmig)&z0&?&Hlk&_); [by left|]. assert (z0 = z) as -> by congruence.
  assert ((waiters <$> A) !! q = Some [p]) as HW by by rewrite lookup_fmap, Hq.
  unfold timing_out, list_del_sleeper, signal_notific, unlock_notifc. wp_seq. eapply wp_lock_queue; [done|done|]. wp_seq. eapply wp_upd_time; [done|]. wp_seq.
  eapply wp_lock_notifc; [done|done|]. wp_seq. eapply wp_notifc; [apply lookup_insert_eq|].
  cbn [set_notifc_lock nstatus notific_of not_delivered_notifc_count waiting_threads_count pending waiters length].
  rewrite !bool_decide_eq_false_2 by (done || lia). cbn [orb]. wp_seq. apply wp_on_dq_pool. cbn [set_notifs set_time_states set_sleeps pool].
  eapply wp_mono; [apply wp_both; [by apply (waits_dequeue (pool_base e) (pool s) n (waiters <$> A) q [p]); [apply HI|]|by eapply waits_stale_node; [apply HI|]]|].
  intros r pl ((->&_)&x&nd&Hx&Hnd). cbn [hd_error]. wp_seq. eapply wp_upd_notifc; [apply lookup_insert_eq|]. wp_seq.
  eapply wp_mono; [by apply (wp_signal_target _ p o)|]. intros ? ? [-> ->]. unfold has_thread_ctx. wp_seq. eapply wp_sleep; [apply lookup_insert_eq|]. wp_seq.
  cbn. rewrite Ht. apply wp_bug_on; [done|]. unfold wake_target, try_lock_queue, unlock_notifc. wp_seq. eapply wp_sleep; [apply lookup_insert_eq|].
  cbn [queue_lock set_queue_lock]. wp_seq. rewrite (bool_decide_eq_false_2 (-1 = 0)) by done. cbn [negb]. wp_seq.
  eapply wp_upd_notifc; [apply lookup_insert_eq|]. wp_seq. cbn. rewrite !insert_insert_eq, !lookup_insert_eq.
  split_and!; [done|done|done|by eexists|by exists x, nd].
Qed.

(** The callback finds a thread that waits and a notification that counts none. *)
Lemma timer_cb_bug (e' : ipc_config) s p z q t x nd : sleeps s !! p = Some z → pending_notific z = q → notifs s !! q = Some (notific_of (Sem 0 [])) →
  threads (sch s) !! p = Some t → state t = TS_WAITING → notif_dq_node_off (pool s) !! p = Some x → nodes (pool s) !! x = Some nd →
  notific_timer_cb e' p s = Halt BugHit.
Proof.
  intros Hz Hpend HN Ht Hst Hx Hnd. unfold notific_timer_cb. apply halt_bind. eapply wp_sleep; [done|]. rewrite Hpend. apply halt_bind. eapply wp_upd_sleep; [done|].
  apply halt_bind. eapply wp_lock_notifc; [done|done|]. apply halt_bind. eapply wp_notifc; [apply lookup_insert_eq|].
  cbn [set_notifc_lock nstatus notific_of]. rewrite bool_decide_eq_false_2 by done. apply halt_bind, wp_on_sched. eapply wp_thr; [done|].
  rewrite Hst, bool_decide_eq_true_2 by done. cbn [negb]. apply halt_bind, wp_on_dq_pool. unfold cancel_waiter. wp_seq. cbn [set_notifs set_sleeps set_sch pool]. rewrite Hx. cbn [default].
  assert (∀ P : unit → dq_pool → Prop, (∀ pl, P tt pl) → wp (thread_dq_cancel_node x) P (pool s)) as Hcan.
  { intros P HP. unfold thread_dq_cancel_node. destruct (bool_decide _); [by wp_seq|]. by eapply wp_write_node. }
  apply Hcan. intros pl. apply halt_bind, wp_on_dq_pool. unfold reset_dq_node_off. wp_seq. done.
Qed.

(** ** Claims *)

(** C21: [signal_notific] of a valid notification returns 0.  If threads wait, the one that has waited longest is taken off the
    queue, its timeout is cancelled and it is put on a ready queue (a thread that was told to exit or to stop has done so); all other threads
    and notifications are as they were.  If nobody waits, the signal is counted and no thread changes.
    Threads that wait are of this machine, own no FPU and have not been migrated ([wakeable] in the invariant). *)
Theorem signal_notific_correct s n A q a : ninv s n A → config_ok c → A !! q = Some a → pending a + 1 < 2 ^ 32 →
  wp (signal_notific e q) (λ r s', r = 0 ∧
    match waiters a with
    | [] => ninv s' n (<[q := Sem (pending a + 1) []]> A) ∧ sch s' = sch s ∧ sleeps s' = sleeps s
    | p :: ws => wakes e s p s' ∧ ∃ n', (n < n')%nat ∧ ninv s' n' (<[q := Sem 0 ws]> A)
    end) s.
Proof.
  intros HI Hc Hq Hp. destruct a as [k [|p ws]]; cbn [waiters pending] in *.
  - eapply wp_mono; [by eapply wp_signal_count|]. intros r s' (->&HI'&->). done.
  - destruct (n_notif _ _ _ _ _ HI q _ Hq) as (_&[Hk _]&Hz). cbn [pending waiters] in Hk, Hz. assert (k = 0) as ->.
    { destruct (decide (0 < k)) as [Hlt|]; [by specialize (Hz Hlt)|lia]. }
    eapply wp_mono; [by eapply wp_signal_wake|]. intros r s' (->&Hw&_&Hn). done.
Qed.

(** C22: [wait_notific] of a valid notification takes a counted signal at once, if there is one.  Otherwise a caller that does not
    want to block gets [-EAGAIN] and nothing changes; one that blocks goes to the end of the queue with return value 0, its timeout is set, its CPU
    runs another thread, and all locks are free again.  The caller and the threads that wait are of this machine, own no FPU and have not
    been migrated. *)
Theorem wait_notific_correct s n A q a p is_block timeout : ninv s (S n) A → config_ok c → running e s p → A !! q = Some a → is_Some (refs s !! q) →
  wp (wait_notific e q is_block timeout) (λ r s',
    if bool_decide (0 < pending a) then r = Some 0 ∧ ninv s' (S n) (<[q := Sem (pending a - 1) []]> A) ∧ sch s' = sch s
    else if is_block then r = None ∧ ninv s' n (<[q := Sem 0 (waiters a ++ [p])]> A) ∧ wait_blocks e s q p (waiters a) timeout false s'
    else r = Some (- EAGAIN) ∧ s' = s) s.
Proof.
  intros HI Hc Hrun Hq Hr. unfold wait_notific. destruct (n_notif _ _ _ _ _ HI q a Hq) as (_&[Hk _]&_). case_bool_decide as Hp.
  - eapply wp_mono; [by eapply wp_wait_ready|]. intros r s' (->&?&->). done.
  - assert (pending a = 0) as Hz by lia. destruct is_block; [|by eapply wp_wait_poll].
    eapply wp_mono; [eapply (wp_wait_block e s n A q (waiters a) p); [done|done|done|destruct a; simpl in *; by subst|done]|].
    intros r s' (->&?&?&_). done.
Qed.

(** C32: no signal is lost.  A signal sent while a thread waits ends the wait of the thread that has waited longest, which finds itself ready to run; a
    signal sent before the wait is there when the thread comes, which then does not block.  Either way the notification is afterwards as if neither
    had happened. *)
Theorem signal_never_lost s n A q p : ninv s (S n) A → config_ok c → running e s p → A !! q = Some (Sem 0 []) →
  wp (wait_notific_internal e q true None false false) (λ r s1, r = None ∧
    wp (signal_notific e q) (λ r' s2, r' = 0 ∧ (∃ n', ninv s2 n' A) ∧
      ∃ t t', threads (sch s1) !! p = Some t ∧ state t = TS_WAITING ∧ threads (sch s2) !! p = Some t' ∧ revived t t') s1) s ∧
  wp (signal_notific e q) (λ r s1, r = 0 ∧
    wp (wait_notific_internal e q true None false false) (λ r' s2, r' = Some 0 ∧ ninv s2 (S n) A ∧ sch s2 = sch s) s1) s.
Proof.
  intros HI Hc Hrun Hq. split.
  - eapply wp_mono; [by eapply (wp_wait_block e s n A q [] p)|]. intros r s1 (->&HI1&_&_). split; [done|].
    assert (<[q := Sem 0 ([] ++ [p])]> A !! q = Some (Sem 0 [p])) as Hq1 by apply lookup_insert_eq.
    eapply wp_mono; [by eapply (wp_signal_wake e s1 n _ q p [])|]. intros r s2 (->&[(t&Ht&Hst&Hw) _ _]&_&n'&_&HI2). rewrite insert_insert_eq, insert_id in HI2 by done.
    split; [done|]. split; [by exists n'|]. destruct (n_wait _ _ _ _ _ HI1 q _ p Hq1) as ((t0&?&_&Hwk)&_); [by left|]. assert (t0 = t) as -> by congruence.
    destruct (woken_revived e _ _ _ _ Hwk Hw) as (t'&?&?). by exists t, t'.
  - eapply wp_mono; [by eapply (wp_signal_count e s (S n) A q (Sem 0 []))|]. intros r s1 (->&HI1&->). split; [done|]. cbn [pending] in *.
    eapply wp_mono; [eapply (wp_wait_ready _ (S n) _ q (Sem (0 + 1) [])); [exact HI1|apply lookup_insert_eq|done]|].
    intros r s2 (->&HI2&->). cbn [pending] in HI2.
    replace (0 + 1 - 1) with 0 in HI2 by lia. rewrite insert_insert_eq, (insert_id A) in HI2 by done. done.
Qed.

(** C30: the timer interrupt wakes exactly the threads of this CPU's sleep list whose time has come, in the order of the list: they are ready to run, have no timeout any
    more, and those that waited for a notification have left its queue and get [-ETIMEDOUT].  All others sleep on, the running thread pays one tick, and the timer is set so
    that the next interrupt comes no later than the first of the remaining sleepers wakes up.  The sleeping threads are of this machine, own no FPU and have not been
    migrated, and the running thread has part of its time slice left. *)
Theorem handle_timer_irq_correct s n A r t b T : ninv s n A → config_ok c → current_threads (sch s) !! cpu c = Some r → threads (sch s) !! r = Some t →
  state t = TS_RUNNING → budget t = Some b → 0 < b → time_states s !! cpu c = Some T →
  wp (handle_timer_irq e) (λ _ s', ∃ ps rest, sleep_list T = ps ++ rest ∧ Forall (λ p, wakeup_of (sleeps s) p ≤ clock e (reads s)) ps ∧
    Forall (λ p, clock e (reads s) < wakeup_of (sleeps s) p) rest ∧ ticked e s n A r t ps rest s' ∧
    let now := clock e (S (reads s)) in
    ∃ d, timers s' !! cpu c = Some d ∧
      ∀ p l, rest = p :: l → 0 ≤ now → now + tick e < 2 ^ 64 → now + d ≤ Z.max now (wakeup_of (sleeps s) p)) s.
Proof.
  intros HI Hc Hcur Ht Hst Hb Hpos HT. eapply wp_mono; [by eapply wp_handle_timer_irq|]. intros [] s' (ps&rest&H1&H2&H3&H4). exists ps, rest. split_and!; [done..|].
  eexists. split; [apply (ti_timer _ _ _ _ _ _ _ _ _ H4)|]. intros p l -> Hnow Hlt. apply delay_in_time; [done| |done]. unfold tick, wrap_u64. apply Z.mod_pos_bound. lia.
Qed.

(** C40: a signal that meets the timeout of the only waiting thread stops the kernel.  The timer interrupt of another CPU has taken the lock of the thread; [signal_notific]
    has already taken the thread off the queue and uncounted it when it finds that lock taken, and returns [-EAGAIN]; the callback of the timer then hits its
    [BUG_ON(notifc->waiting_threads_count <= 0)]. *)
Theorem signal_meets_timeout_bug s n A q p z i T e' : ninv s n A → A !! q = Some (Sem 0 [p]) → sleeps s !! p = Some z → cb z = NOTIFIC_TIMER_CB →
  time_states s !! i = Some T →
  ∃ s1, (timing_out i p;; signal_notific e q) s = Ret (- EAGAIN, s1) ∧ notific_timer_cb e' p s1 = Halt BugHit.
Proof.
  intros HI Hq Hz Hcb HT. destruct (wp_inv _ _ _ (wp_signal_meets_timeout s n A q p z i T HI Hq Hz HT)) as (r&s1&E&->&HN&Hs&(z1&Hz1&Hp1)&x&nd&Hx&Hnd).
  exists s1. split; [done|]. destruct (n_wait _ _ _ _ _ HI q _ p Hq) as ((t&Ht&Hst&_)&_&z0&?&_&Hpend); [by left|]. assert (z0 = z) as -> by congruence.
  destruct Hpend as [?|[_ Hpend]]; [congruence|]. eapply (timer_cb_bug e' s1 p z1 q t x nd); try done; [congruence|by rewrite Hs].
Qed.
End theorems.

(** ** A machine

    Thread 100 runs on CPU 0, thread 300 sleeps there until tick 500, the idle thread is 0; the clock has passed tick 1000. *)

Definition ipc0 : ipc_config := IpcConfig machine0 64 (λ k, 1000 * (Z.of_nat k + 1)) 1 (λ _, 1) (λ _, 7) (λ _ _, None).
Definition idle0 : thread := Thread TYPE_IDLE TS_INIT TE_RUNNING 0 0 0 NO_AFF_u32 false (Some 1) (-1) 0 false PrevNull no_history.
Definition busy : thread := set_ks_locked true (user_thread TS_RUNNING TE_RUNNING 10 NO_AFF).
Definition asleep : thread := user_thread TS_WAITING TE_RUNNING 10 NO_AFF.
Definition sched0 : sched := rr_sched_init (Sched {[0 := idle0; 100 := busy; 300 := asleep]} ∅ {[0 := []]} {[0 := 100]} ∅ ∅ ∅ ∅ [] [] ∅).
Definition awake : sleep_state := SleepState 0 0 0 CB_NULL false.
Definition until500 : sleep_state := SleepState 500 0 0 SLEEP_TIMER_CB false.
Definition blank : nstate := NState sched0 (zero_pool 64) ∅ ∅ ∅ 0 ∅ ∅ {[100 := Object DSM_STATUS_INUSE 0]} ∅ {[0x9000 := 2]} [] ∅.
Definition times0 : gmap Z time_state := <[0 := TimeState 0 [300] false]> (time_states (init_sleep_lists blank)).
Definition machine_state (pl : dq_pool) : nstate := set_time_states times0 (set_sleeps {[100 := awake; 300 := until500]} (set_pool pl blank)).

Lemma init_sleep_lists_lookup s i : 0 ≤ i < PLAT_CPU_NUM → ∃ ne, time_states (init_sleep_lists s) !! i = Some (TimeState ne [] false).
Proof.
  intros Hi. unfold init_sleep_lists. assert (i ∈ cpus) as Hin by (apply elem_of_seqZ; lia). revert Hin. generalize cpus. intros l.
  induction l as [|x l IH]; [by intros ?%elem_of_nil|]. cbn. intros Hin. destruct (decide (x = i)) as [->|Hne]; [rewrite lookup_insert_eq; by eexists|].
  rewrite lookup_insert_ne by done. apply IH. by apply elem_of_cons in Hin as [?|?].
Qed.

Lemma init_sleep_lists_empty s i T : time_states s = ∅ → time_states (init_sleep_lists s) !! i = Some T → sleep_list T = [].
Proof.
  intros Hs. unfold init_sleep_lists. generalize cpus. intros l. induction l as [|x l IH]; cbn; [by rewrite Hs|].
  intros [[_ <-]|[_ H]]%lookup_insert_Some; [done|by apply IH].
Qed.

(** [timer_init] makes sleep lists for threads that are awake. *)
Lemma timer_ready s (zs : gmap Z sleep_state) : time_states s = ∅ → map_Forall (λ _ z, cb z = CB_NULL) zs → sleepers_ok None zs (time_states (init_sleep_lists s)).
Proof.
  intros Hs Hz. split.
  - intros i Hi. destruct (init_sleep_lists_lookup s i Hi) as [ne ->]. eexists. split_and!; [done|done|constructor|constructor].
  - intros i T p HT Hp. rewrite (init_sleep_lists_empty s i T Hs HT) in Hp. by apply elem_of_nil in Hp.
  - intros p z Hp Hc. by destruct Hc, (Hz p z Hp).
Qed.

Lemma wakeable_user st ex : ex = TE_RUNNING → wakeable machine0 (user_thread st ex 10 NO_AFF).
Proof. intros ->. split; try done; by left. Qed.

Lemma sched0_ok : cpu_ok machine0 sched0.
Proof.
  split; [|by exists idle0|done|done]. apply rr_sched_init_inv; [|by vm_compute|done].
  intros p t. cbn [threads]. rewrite !lookup_insert_Some, lookup_singleton_Some. naive_solver.
Qed.

Lemma pool_ready : ∃ pl, dq_waits 64 pl 4095 ∅.
Proof.
  destruct (wp_inv _ _ _ (wp_pool_init 64 (zero_pool 64) ltac:(lia) (zero_pool_nodes 64))) as ([]&pl&_&HI). exists pl. eexists _, ∅. split_and!; [exact HI| |done|done].
  by rewrite length_fmap, length_seqZ.
Qed.

Lemma machine_ready pl : dq_waits 64 pl 4095 ∅ → ninv_at ipc0 None (machine_state pl) 4095 ∅.
Proof.
  intros Hpl. split; [by rewrite fmap_empty|exact sched0_ok|done|done| |].
  - cbn. assert (sleepers_ok None {[100 := awake; 300 := awake]} (time_states (init_sleep_lists blank))) as HS.
    { apply timer_ready; [done|]. by apply map_Forall_insert_2; [|apply map_Forall_singleton]. }
    destruct (init_sleep_lists_lookup blank 0 ltac:(done)) as [ne Hne].
    pose proof (sleepers_insert None _ _ 0 300 awake until500 _ (TimeState 0 [300] false) HS eq_refl eq_refl ltac:(done) eq_refl ltac:(done) Hne eq_refl eq_refl) as H.
    rewrite insert_insert_ne in H by done. exact H.
  - intros p z. cbn. rewrite lookup_insert_Some, lookup_singleton_Some. intros [[<- <-]|[_ [<- <-]]] Hc; [by destruct Hc|].
    split; [done|]. left. split_and!; [done| |intros q ws; by rewrite fmap_empty]. exists asleep. split_and!; [done|done|]. by apply wakeable_user.
Qed.

Lemma running_100 s : sch s = sched0 → sleeps s !! 100 = Some awake → objects s = objects blank → running ipc0 s 100.
Proof.
  intros Es Ez Eo. split; rewrite ?Es, ?Ez, ?Eo; [done| |by exists awake|by eexists].
  exists busy. split_and!; [done|done| |done|by exists 1]. destruct (wakeable_user TS_RUNNING TE_RUNNING eq_refl). by split.
Qed.

(** A notification at 0x9000 *)
Lemma ready_notific : ∃ s, ninv_at ipc0 None s 4094 (<[0x9000 := Sem 0 []]> ∅) ∧ running ipc0 s 100 ∧ refs s !! 0x9000 = Some 2 ∧
  sch s = sched0 ∧ sleeps s = {[100 := awake; 300 := until500]} ∧ time_states s = times0.
Proof.
  destruct pool_ready as [pl Hpl]. destruct (wp_inv _ _ _ (wp_init_notific ipc0 _ 4094 ∅ 0x9000 (machine_ready pl Hpl) eq_refl)) as ([]&s&_&HI&pl'&->).
  eexists. split; [exact HI|]. split_and!; [by apply running_100|done|done|done|done].
Qed.

(** Thread 100 waits there for at most a second. *)
Lemma one_waiter : ∃ s z, ninv_at ipc0 None s 4093 (<[0x9000 := Sem 0 [100]]> ∅) ∧ sleeps s !! 100 = Some z ∧ cb z = NOTIFIC_TIMER_CB ∧ is_Some (time_states s !! 0).
Proof.
  destruct ready_notific as (s&HI&Hrun&_).
  destruct (wp_inv _ _ _ (wp_wait_block ipc0 s 4093 _ 0x9000 [] 100 (Some (Timespec 1 0)) false false HI machine0_ok Hrun (lookup_insert_eq _ _ _) ltac:(done)))
    as (r&s1&_&_&HI1&[_ _ (z&z1&_&Hsl&Ht) _]&_). rewrite insert_insert_eq in HI1. exists s1, z1. split_and!; [exact HI1| | |].
  - rewrite Hsl. apply lookup_insert_eq.
  - cbn in Ht. by rewrite Ht.
  - destruct (so_list _ _ _ (n_lists _ _ _ _ _ HI1) 0 ltac:(done)) as (T&HT&_). by exists T.
Qed.

Lemma signal_notific_correct_witness : ∃ s, wp (signal_notific ipc0 0x9000) (λ r s', r = 0 ∧ wakes ipc0 s 100 s') s.
Proof.
  destruct one_waiter as (s&z&HI&_). exists s.
  eapply wp_mono; [apply (signal_notific_correct ipc0 s 4093 _ 0x9000 (Sem 0 [100]) HI machine0_ok (lookup_insert_eq _ _ _)); by vm_compute|].
  intros r s' (->&H&_). done.
Defined.

Lemma wait_notific_correct_witness : ∃ s, wp (wait_notific ipc0 0x9000 true (Some (Timespec 1 0))) (λ r _, r = None) s.
Proof.
  destruct ready_notific as (s&HI&Hrun&Hr&_). exists s.
  eapply wp_mono; [apply (wait_notific_correct ipc0 s 4093 _ 0x9000 (Sem 0 []) 100 true (Some (Timespec 1 0)) HI machine0_ok Hrun (lookup_insert_eq _ _ _)); by eexists|].
  intros r s' H. by destruct H as [-> _].
Defined.

Lemma signal_never_lost_witness : ∃ s, wp (signal_notific ipc0 0x9000) (λ r s1, r = 0 ∧
  wp (wait_notific_internal ipc0 0x9000 true None false false) (λ r' _, r' = Some 0) s1) s.
Proof.
  destruct ready_notific as (s&HI&Hrun&_). exists s.
  destruct (signal_never_lost ipc0 s 4093 _ 0x9000 100 HI machine0_ok Hrun (lookup_insert_eq _ _ _)) as [_ H].
  eapply wp_mono; [exact H|]. intros r s1 [-> H1]. split; [done|]. eapply wp_mono; [exact H1|]. by intros r' s2 [-> _].
Defined.

Lemma handle_timer_irq_correct_witness : ∃ s, wp (handle_timer_irq ipc0) (λ _ s', timed_out s s' 300 ∧ timers s' !! 0 = Some 1000) s.
Proof.
  destruct pool_ready as [pl Hpl]. exists (machine_state pl).
  eapply wp_mono; [apply (handle_timer_irq_correct ipc0 (machine_state pl) 4095 ∅ 100 busy 1 (TimeState 0 [300] false) (machine_ready pl Hpl) machine0_ok); done|].
  intros _ s' (ps&rest&Hl&Hps&Hrest&Ht&_). cbn [sleep_list] in Hl. destruct ps as [|p ps]; simpl in Hl.
  - subst rest. apply Forall_cons in Hrest as [Hrest _]. by vm_compute in Hrest.
  - injection Hl as <- Hl. symmetry in Hl. apply app_nil in Hl as [-> ->]. split; [apply (ti_expired _ _ _ _ _ _ _ _ _ Ht); by left|exact (ti_timer _ _ _ _ _ _ _ _ _ Ht)].
Defined.

Lemma signal_meets_timeout_bug_witness : ∃ s s1, (timing_out 0 100;; signal_notific ipc0 0x9000) s = Ret (- EAGAIN, s1) ∧ notific_timer_cb ipc0 100 s1 = Halt BugHit.
Proof.
  destruct one_waiter as (s&z&HI&Hz&Hcb&T&HT). exists s.
  exact (signal_meets_timeout_bug ipc0 s 4093 _ 0x9000 100 z 0 T ipc0 HI (lookup_insert_eq _ _ _) Hz Hcb HT).
Defined.
