(* ===== verification/FutexTheorems.v ===== *)
(** What futexes guarantee: a table of futexes is a map from addresses to queues of waiting threads, and waiting, waking
    and requeueing are the operations on it that their names say. *)
From stdpp Require Import sorting.
From S2P Require Import Prelude Words Sched SchedProofs SchedTheorems SchedBlock ThreadDq Notific Waiters NotificProofs NotificOps NotificTimer NotificMove.
From S2P Require Import Buddy DramPages RemoteFree Slab KmallocTheorems VmSpace VmSpaceProofs KmallocObjects NotificTheorems VmSpaceTheorems Futex FutexProofs FutexOps.

Section theorems.
Context {K : Type} `{Hos : ObjSource K, Hoss : !ObjSourceSpec K} (e : ipc_config).
Notation c := (sched_config e).
Implicit Types (s : fstate K) (F : futex) (W : gmap Z (list Z)) (A : gmap Z sem).

(** A new table is empty. *)
Lemma wp_futex_init s f mt n A U b k : ninv_at e None (ns s) n A → os_inv (objs s) U → (∀ q, is_Some (A !! q) → q ∈ U) →
  kmalloc MT_DEFAULT (sizeof_hlist_head * BUCKET_SIZE) (objs s) = Ret (b, k) → b ≠ 0 →
  wp (futex_init f mt) (λ _ s', futex_table e s' f (Futex b mt) n ∅ ∧ objs s' = k ∧ umem s' = umem s ∧
    ns s' = set_futex_lock (<[f := false]> (futex_lock (ns s))) (ns s)) s.
Proof.
  intros HN HU HA Ek Hb. unfold futex_init, init_htable. wp_seq. apply wp_on_ns. wp_seq. apply wp_on_futex_objs. cbn. eapply wp_intro; [done|].
  rewrite bool_decide_eq_false_2 by done. wp_seq. cbn. split; [|done].
  pose proof (os_get (objs s) U MT_DEFAULT (sizeof_hlist_head * BUCKET_SIZE) HU ltac:(done)) as Hg. rewrite Ek in Hg. destruct Hg as [[? _]|[_ Hg]]; [done|].
  exists ∅, A, ({[b]} ∪ U). split_and!; [|done|by rewrite fmap_empty]. split; try done; cbn.
  - eapply ninv_lists; [exact HN|done..|exact (n_lists _ _ _ _ _ HN)].
  - apply lookup_insert_eq.
  - apply lookup_insert_eq.
  - eexists. rewrite lookup_insert_eq. split; [done|]. rewrite length_replicate. split; [done|]. intros i l [-> _]%lookup_replicate.
    split; [constructor|]. intros en. split; [by intros ?%elem_of_nil|by intros (u&g&?&_)].
  - intros q Hq. apply elem_of_union_r. by apply HA.
Qed.

(** The commands *)
Lemma futex_wait_cmd u v timeout u2 val3 :
  sys_futex (K := K) e u (Z.lor FUTEX_WAIT FUTEX_PRIVATE) v timeout u2 val3 = sys_futex_wait e u (Z.lor FUTEX_WAIT FUTEX_PRIVATE) v timeout.
Proof. reflexivity. Qed.
Lemma futex_wake_cmd u v timeout u2 val3 :
  sys_futex (K := K) e u (Z.lor FUTEX_WAKE FUTEX_PRIVATE) v timeout u2 val3 = (r ← sys_futex_wake e u (Z.lor FUTEX_WAKE FUTEX_PRIVATE) v; mret (Some r)).
Proof. reflexivity. Qed.


(** C19: [sys_futex_wake] wakes the threads that have waited longest at the address, as many as there are but at most [val], and returns their number.  They leave the queue, and their
    nodes go back to the pool of queue nodes.  When nobody is left at the address it leaves the table, the notification and then the entry are given to [kfree], once, and the last node of
    the queue goes back to the pool; otherwise no memory is freed.  No other thread, queue or user word changes, and the lock of the table is free again. *)
Theorem sys_futex_wake_correct s f F n W p u op val :
  futex_table e s f F n W → config_ok c → current_threads (sch (ns s)) !! cpu c = Some p → f = group_futex e (cap_group e p) →
  let ws := default [] (W !! u) in
  wp (sys_futex_wake e u op val) (λ r s', r = Z.of_nat (wakeups ws val) ∧
    (∃ n', (n + nodes_back ws val ≤ n')%nat ∧ futex_table e s' f F n' (served u (wakeups ws val) W)) ∧
    woke (ns s) (take (wakeups ws val) ws) (ns s') ∧ umem s' = umem s ∧
    if leaves_nobody ws val then entry_freed s u s' else objs s' = objs s) s.
Proof. apply wp_sys_futex_wake. Qed.

(** C31: [sys_futex_requeue] of one thread moves the thread that has waited longest at the first address to the end of the queue of the second, and wakes nobody.  It
    returns [-EINVAL] if nobody waits at the first address and [-ENOMEM] if the second gets no entry; the table is then as before. *)
Theorem sys_futex_requeue_correct s f F n W r u u2 en q k :
  futex_table e s f F (S n) W → current_threads (sch (ns s)) !! cpu c = Some r → f = group_futex e (cap_group e r) → u ≠ u2 →
  (W !! u2 = None → answers (futex_mem_type F) (objs s) en q k) →
  wp (sys_futex_requeue e u u2 0 1) (requeue_result e s f F n W u u2 en q) s.
Proof. apply wp_sys_futex_requeue. Qed.

(** C20: a thread that waits is found by the next wake-up.  If nobody waits at the address and there is memory for its entry, [FUTEX_WAIT] with the value of the word blocks the caller and another
    thread runs.  If that thread is of the same process and at once calls [FUTEX_WAKE] for one thread, the call returns 1, the caller of [FUTEX_WAIT] is ready to run again, and the table is as
    it was before. *)
Theorem futex_wait_wake s f F n W p u v timeout en q k :
  futex_table e s f F (S (S n)) W → config_ok c → running e (ns s) p → f = group_futex e (cap_group e p) → check_user_addr_range u 4 = 0 → umem s !! u = Some v →
  W !! u = None → answers (futex_mem_type F) (objs s) en q k → en ≠ 0 → q ≠ 0 →
  wp (sys_futex e u (Z.lor FUTEX_WAIT FUTEX_PRIVATE) v timeout 0 0) (λ r s1, r = None ∧ (∃ new, new ≠ p ∧ current_threads (sch (ns s1)) !! cpu c = Some new) ∧
    ∀ new, current_threads (sch (ns s1)) !! cpu c = Some new → f = group_futex e (cap_group e new) →
    wp (sys_futex e u (Z.lor FUTEX_WAKE FUTEX_PRIVATE) 1 0 0 0) (λ r' s2, r' = Some 1 ∧ (∃ n', futex_table e s2 f F n' W) ∧
      ∃ t t', threads (sch (ns s1)) !! p = Some t ∧ state t = TS_WAITING ∧ threads (sch (ns s2)) !! p = Some t' ∧ revived t t') s1) s.
Proof.
  intros Ht Hc Hrun Hf Hchk Hu HW Hans Hen Hq. rewrite futex_wait_cmd.
  eapply wp_mono; [by apply (wp_sys_futex_wait e s f F n W p u _ v v timeout en q k)|]. intros r s1 Hres.
  inversion Hres as [?|? ?|? ? ? ? Hz|? n' _ _ _ Ht' Hbl _ _]; [done|done|by destruct Hz|]. subst. split; [done|]. rewrite HW in Ht'. cbn in Ht'.
  split; [destruct (bl_current _ _ _ _ Hbl) as (new&t&?&?&_); by exists new|].
  intros new Hcur Hnew. rewrite futex_wake_cmd. wp_seq.
  eapply wp_mono; [by apply (wp_sys_futex_wake e s1 _ F n' (<[u := [p]]> W) new u (Z.lor FUTEX_WAKE FUTEX_PRIVATE) 1 Ht' Hc Hcur)|]. rewrite lookup_insert_eq. cbn.
  intros r' s2 (->&(n2&_&Ht2)&[Hwo _ _]&_&_). wp_seq. split; [done|]. split.
  - exists n2. unfold served in Ht2. rewrite lookup_insert_eq, bool_decide_eq_true_2, delete_insert_eq, delete_id in Ht2; done.
  - destruct (Hwo p) as (t&t'&z'&?&?&?&?&_); [by left|]. by exists t, t'.
Qed.
End theorems.

(** ** Witnesses

    The machine of NotificTheorems.v and the allocator of VmSpaceTheorems.v with more memory; the futex words are at 0x1000 and 0x2000. *)

#[local] Existing Instances VmSpaceTheorems.objects VmSpaceTheorems.objects_spec.

Definition words : gmap Z Z := {[0x1000 := 5; 0x2000 := 6]}.

Lemma memory_ready : os_inv (booted (2 ^ 20) 2048) ∅.
Proof.
  destruct (booted_ok (2 ^ 20) 2048 ltac:(lia) ltac:(lia) ltac:(vm_compute; discriminate)) as (Hm&Hu&_&_). revert Hm Hu.
  generalize (booted (2 ^ 20) 2048). intros s Hm Hu. split; [vm_compute; done|]. exists (fresh_view (2 ^ 20) 2048), ∅.
  split_and!; [exact Hm|exact Hu|by intros p ?%elem_of_empty].
Qed.

(** Memory for the table and two entries, in three slabs *)
Lemma table_blocks : ∃ b k0 en q k1 en2 q2 k2, kmalloc MT_DEFAULT (sizeof_hlist_head * BUCKET_SIZE) (booted (2 ^ 20) 2048) = Ret (b, k0) ∧ b ≠ 0 ∧
  answers MT_OBJECT k0 en q k1 ∧ en ≠ 0 ∧ q ≠ 0 ∧ answers MT_OBJECT k1 en2 q2 k2 ∧ en2 ≠ 0 ∧ q2 ≠ 0.
Proof.
  assert (match kmalloc MT_DEFAULT (sizeof_hlist_head * BUCKET_SIZE) (booted (2 ^ 20) 2048) with
    | Ret (b, k0) => match kmalloc MT_OBJECT sizeof_futex_entry k0 with
      | Ret (en, k) => match kmalloc MT_OBJECT sizeof_notification k with
        | Ret (q, k1) => match kmalloc MT_OBJECT sizeof_futex_entry k1 with
          | Ret (en2, k') => match kmalloc MT_OBJECT sizeof_notification k' with
            | Ret (q2, _) => forallb (λ x, negb (x =? 0)) [b; en; q; en2; q2] | Halt _ => false end
          | Halt _ => false end
        | Halt _ => false end
      | Halt _ => false end
    | Halt _ => false end = true) as E by (vm_compute; reflexivity).
  destruct (kmalloc MT_DEFAULT _ _) as [[b k0]|]; [|discriminate E]. exists b, k0.
  destruct (kmalloc MT_OBJECT sizeof_futex_entry k0) as [[en k]|] eqn:E1; [|discriminate E]. destruct (kmalloc MT_OBJECT sizeof_notification k) as [[q k1]|] eqn:E2; [|discriminate E].
  destruct (kmalloc MT_OBJECT sizeof_futex_entry k1) as [[en2 k']|] eqn:E3; [|discriminate E]. destruct (kmalloc MT_OBJECT sizeof_notification k') as [[q2 k2]|] eqn:E4; [|discriminate E].
  exists en, q, k1, en2, q2, k2. cbn [forallb] in E. repeat (apply andb_true_iff in E as [?%negb_true_iff%Z.eqb_neq E]).
  split_and!; try done; [by exists k|by exists k'].
Qed.

(** An empty table *)
Lemma table_ready : ∃ (s : fstate (mem pools)) b en q k1 en2 q2 k2, futex_table ipc0 s 7 (Futex b MT_OBJECT) 4095 ∅ ∧ running ipc0 (ns s) 100 ∧ umem s = words ∧
  answers MT_OBJECT (objs s) en q k1 ∧ en ≠ 0 ∧ q ≠ 0 ∧ answers MT_OBJECT k1 en2 q2 k2 ∧ en2 ≠ 0 ∧ q2 ≠ 0.
Proof.
  pose proof memory_ready as Hos. destruct table_blocks as (b&k0&en&q&k1&en2&q2&k2&E&Hb&Hrest). revert Hos E. generalize (booted (2 ^ 20) 2048). intros k Hos E.
  destruct pool_ready as [pl Hpl]. set (s0 := FState (machine_state pl) k ∅ ∅ ∅ words : fstate (mem pools)).
  destruct (wp_inv _ _ _ (wp_futex_init ipc0 s0 7 MT_OBJECT 4095 ∅ ∅ b k0 (machine_ready pl Hpl) Hos ltac:(by intros ? [? ?]) E Hb)) as ([]&s&_&Ht&Eo&Em&En).
  exists s, b, en, q, k1, en2, q2, k2. rewrite Eo, Em, En. split; [exact Ht|]. split; [|done]. by apply running_100.
Qed.

(** Thread 100 waits at 0x1000. *)
Lemma one_waiting : ∃ (s : fstate (mem pools)) b n new en q k, futex_table ipc0 s 7 (Futex b MT_OBJECT) (S n) {[0x1000 := [100]]} ∧
  current_threads (sch (ns s)) !! 0 = Some new ∧ answers MT_OBJECT (objs s) en q k ∧ en ≠ 0 ∧ q ≠ 0.
Proof.
  destruct table_ready as (s&b&en&q&k1&en2&q2&k2&Ht&Hrun&Em&Ha&Hen&Hq&Ha2&Hne2).
  destruct (wp_inv _ _ _ (wp_sys_futex_wait ipc0 s 7 _ 4093 ∅ 100 0x1000 FUTEX_WAIT 5 5 0 en q k1 Ht machine0_ok Hrun eq_refl
    ltac:(by rewrite Em) (λ _, Ha))) as (r&s'&_&Hres).
  inversion Hres as [Hc|_ Hv|? _ _ _ Hz|? n' _ _ Hn Ht' Hbl _ Eo]; [done|done|by destruct Hz|].
  destruct (bl_current _ _ _ _ Hbl) as (new&t&_&Hcur&_). destruct n' as [|n']; [exfalso; clear -Hn; lia|].
  exists s', b, n', new, en2, q2, k2. rewrite (Eo eq_refl). split; [exact Ht'|done].
Qed.


Lemma sys_futex_wake_correct_witness : ∃ (s : fstate (mem pools)),
  wp (sys_futex_wake ipc0 0x1000 FUTEX_WAKE 3) (λ r s', r = 1 ∧ woke (ns s) [100] (ns s') ∧ entry_freed s 0x1000 s') s ∧
  wp (sys_futex_wake ipc0 0x1000 FUTEX_WAKE 0) (λ r s', r = 0 ∧ objs s' = objs s) s.
Proof.
  destruct one_waiting as (s&b&n&new&en&q&k&Ht&Hcur&_). exists s. split.
  - eapply wp_mono; [exact (sys_futex_wake_correct ipc0 s 7 _ (S n) _ new 0x1000 FUTEX_WAKE 3 Ht machine0_ok Hcur eq_refl)|].
    intros r s' (->&_&Hw&_&Hf). split; [reflexivity|]. split; [exact Hw|exact Hf].
  - eapply wp_mono; [exact (sys_futex_wake_correct ipc0 s 7 _ (S n) _ new 0x1000 FUTEX_WAKE 0 Ht machine0_ok Hcur eq_refl)|].
    intros r s' (->&_&_&_&Hf). split; [reflexivity|exact Hf].
Defined.

Lemma sys_futex_requeue_correct_witness : ∃ (s : fstate (mem pools)) F, wp (sys_futex_requeue ipc0 0x1000 0x2000 0 1) (λ r s', r = 0 ∧
  ∃ n', futex_table ipc0 s' 7 F n' {[0x2000 := [100]]}) s.
Proof.
  destruct one_waiting as (s&b&n&new&en&q&k&Ht&Hcur&Ha&Hen&Hq). exists s, (Futex b MT_OBJECT).
  eapply wp_mono; [exact (sys_futex_requeue_correct ipc0 s 7 _ n _ new 0x1000 0x2000 en q k Ht Hcur eq_refl ltac:(done) (λ _, Ha))|].
  intros r s' [Hn|? ? _ _ Hz _ _|? n' p ws E _ Ht' _ _]; [done|by destruct Hz|]. split; [done|]. exists n'.
  rewrite lookup_singleton_eq in E. injection E as <- <-. exact Ht'.
Defined.

Lemma futex_wait_wake_witness : ∃ (s : fstate (mem pools)), wp (sys_futex ipc0 0x1000 (Z.lor FUTEX_WAIT FUTEX_PRIVATE) 5 0 0 0) (λ r s1, r = None ∧
  wp (sys_futex ipc0 0x1000 (Z.lor FUTEX_WAKE FUTEX_PRIVATE) 1 0 0 0) (λ r' _, r' = Some 1) s1) s.
Proof.
  destruct table_ready as (s&b&en&q&k1&_&_&_&Ht&Hrun&Em&Ha&Hen&Hq&_). exists s.
  eapply wp_mono; [apply (futex_wait_wake ipc0 s 7 _ 4093 ∅ 100 0x1000 5 0 en q k1 Ht machine0_ok Hrun eq_refl); by rewrite ?Em|].
  intros r s1 (->&(new&_&E)&H). split; [done|].
  eapply wp_mono; [exact (H new E eq_refl)|]. by intros r' s2 (->&_).
Defined.
